(* ===== verification/_CoqProject ===== *)
-Q . S2P
Prelude.v
GoFloat.v
GoText.v
GoTextLaws.v
Sharding.v
GoValue.v
Records.v
DateParser.v
EvalOperators.v
EvalOperatorsLaws.v
HashKey.v
RdfCast.v
EvalExpression.v
EvalExpressionLaws.v
SqlScript.v
Csv.v
CsvLaws.v
Cleansing.v
CleansingLaws.v
ColumnEval.v
ColumnLaws.v
ColumnBuild.v
Pipes.v
PipeLaws.v
AggregateLaws.v
MapRecordLaws.v
MergePipe.v
SamplingPipes.v
PipeExec.v
PipeExecLaws.v
StepConfig.v
StepConfigLaws.v
ChannelLife.v
StagePath.v
StepSelect.v
PipeBuild.v
PipeDemo.v
RuleCompiler.v
RuleCompilerLaws.v
ReteNetwork.v
BetaNodes.v
BetaLaws.v
ReteRows.v
ExecutionRecord.v
Triage.v
TriageLaws.v
ObserveLaws.v
RootCause.v
RootCauseLaws.v
AuditLifecycle.v
AuditStore.v
AuditLaws.v
AuditSystem.v
ShadowWriter.v
ShadowLaws.v
Briefing.v
TextTemplate.v
TemplateLaws.v
TemplateText.v
TemplateKinds.v
TemplateDemo.v
RuleSession.v
RuleSessionLaws.v
RuleWorker.v
RuleWorkerLaws.v
EntityExtract.v
EntityLaws.v
RuleDemo.v
RulePool.v
RulePoolLaws.v
RuleTests.v
RuleTestValid.v
RuleTestRun.v
RuleTestLaws.v
RuleTestVerdict.v
RuleTestNames.v
RuleTestDemo.v
