(* ===== verification/Prelude.v ===== *)
(** * JetStore: a verification development

    JetStore (src/jets) runs data pipelines written as JSON specifications. A
    booter lists the input files of a session and shards them over nodes; each node
    reads its byte ranges and runs the records through pipes of operators (filters,
    mappings, aggregates, sorts, joins) whose columns are computed by evaluators and
    expression trees, over channels that connect the pipes; before a step starts its
    configuration is selected, completed and checked. The rules of a workspace are
    compiled into the network the rule engine runs; a rules operator runs the rule sets of
    a process on its records and extracts entities from the sessions, and unit tests of
    rules check such sessions. The SQL scripts of a workspace are cut in statements and
    checked when they are saved. Beside it, the agentic services read the
    record of the runs that were executed, detect anomalies, say where a run went wrong
    and rank what may have caused it, raise incidents and propose changes; they write texts
    for people with templates and keep a record of who decided what, which the API
    server's handlers extend. This library
    models these parts from the Go sources and proves what makes each of them
    correct.

    ** Files

    - [Prelude]: the outcome of a Go call ([res]: a result, an error, a panic, or
      no more fuel), its bind [let!], two's complement arithmetic ([i64], [u64]) and
      its lemmas.
    - [GoFloat]: IEEE 754 doubles and singles (package math, the conversions between
      floats and integers).
    - [GoText], [GoTextLaws]: what the code uses of strings, strconv, unicode/utf8;
      splitting undoes joining, integers print and read back.
    - [Sharding]: src/jets/compute_pipes/actions_shard_file_keys.go, [ShardFileKeys]
      with its two allocators [assignShardInfo], the choice of the cluster tier and
      the byte range of the download.
    - [GoValue]: the dynamic values of a record ([any]), package time, the numeric
      conversions of src/jets/utils/conversions.go.
    - [Records]: a record and its positions, the channels of pipesmodel/model.go.
    - [DateParser]: src/jets/jetrules/rdf/datetime_parser.go, the readers of dates
      and datetimes with their regular expressions as matchers.
    - [EvalOperators], [EvalOperatorsLaws]: eval_operators.go and
      eval_operators_other.go of src/jets/compute_pipes, one definition per operator
      and per type of its left operand.
    - [HashKey]: pipes_preprocessing_fnc.go and the keys, hashes and partitions of
      column_evaluators_hash.go.
    - [RdfCast]: jetrules_rdf.go, the casts of a value to an RDF type and the
      encoding back to text.
    - [EvalExpression], [EvalExpressionLaws]: eval_expression.go, the build of an
      evaluator from its specification and its evaluation.
    - [SqlScript]: src/jets/sqlscript, the splitter of SQL scripts and the check at
      save time.
    - [Csv], [CsvLaws]: src/jets/csv, the reader and the writer of delimited text with
      the settings JetStore added to the ones of Go.
    - [Cleansing], [CleansingLaws]: src/jets/cleansing_functions, the cleansing
      functions of mapping columns with the parsing of their arguments.
    - [ColumnEval], [ColumnLaws], [ColumnBuild]: the files column_evaluators*.go of
      compute_pipes, [Update], [Done] and the builder of every column type.
    - [Pipes], [PipeLaws], [AggregateLaws], [MapRecordLaws]: the operators of
      pipe_transformation_*.go behind the interface [PipeTransformationEvaluator]:
      distinct, filter, map_record, aggregate, sort, group_by. [MergePipe]: merge, and
      the join it implements. [SamplingPipes]: shuffling and high_freq.
    - [PipeExec], [PipeExecLaws]: the executors, pipe_executor_fan_out.go and
      pipe_executor_splitter.go.
    - [StepConfig], [StepConfigLaws]: the document of a step (pipes_model.go), its
      error channels and those error_channel_default.go adds. [ChannelLife]: the
      channel registry of compute_pipes.go and who closes what. [StagePath] and
      [StepSelect]: the check of the original headers; the selection of a step, of
      where it runs, and the check on rules (actions_start_common.go,
      actions_env_var_evaluator.go). [PipeBuild]: conditional specifications, the
      lookup tables of a step, the builders of the operators
      (pipes_runtime_model.go). [PipeDemo]: a runtime and the theorems on pipes
      applied to small records and documents.
    - [RuleCompiler], [RuleCompilerLaws]: src/jets/compilerv2/compiler, what
      [ExitJetRuleStmt] does with a rule that was read: its validation, its labels, the
      order of its antecedents by score or by cost. [ReteNetwork]: the tree in which
      [BuildReteNetwork] puts the rules together. [BetaNodes], [BetaLaws]: the rows of
      its vertices and the references to them ([BuildBetaNodes]); [ReteRows]: both for
      rules that are valid.
    - [ExecutionRecord], [ObserveLaws]: src/jets/agentic/observe and
      src/jets/cmds/anomaly_detect, the tables of the execution record with the queries on
      them, the two detectors and the job that records what they find. [Triage],
      [TriageLaws]: src/jets/agentic/triage, the evidence of a run and the nine places
      where it can have gone wrong. [RootCause], [RootCauseLaws]: src/jets/agentic/rca,
      the ranking of causes for a report and the reading of a model's answer.
    - [AuditLifecycle]: the state machines of src/jets/agentic/audit (proposals,
      incidents), the autonomy tiers, the tier gate, the ceiling of the unattended
      writer.
    - [AuditStore]: the tables of agent_audit.sql and the operations of
      src/jets/agentic/audit on them, the decision handlers of
      src/jets/apiserver/api_agentic.go, the writers of src/jets/agentic/shadow and
      agent.
    - [AuditLaws]: the effect each of these operations has on the store, the hash
      chain.
    - [AuditSystem]: the operations interleaved ([step]), and the invariants of every
      reachable state.
    - [ShadowWriter], [ShadowLaws]: the unattended run of src/jets/agentic/shadow and
      src/jets/cmds/shadow_triage, which writes what triage and ranking say as incidents
      and hypotheses, and the attestation that nothing acted. It is the client of the
      three components above: it writes through the operations of [AuditStore].
    - [Briefing]: value.go and selector.go of src/jets/agentic/briefing, the values of a
      document and the paths into it. [TextTemplate]: src/jets/agentic/template, the
      chains of paths and constructs, predicates, markup, the compilation and the
      rendering of a template. [TemplateLaws], [TemplateText], [TemplateKinds]: rendering
      and reading back; the lines of a text; the kinds of chains. [TemplateDemo]: the
      theorems applied.
    - [RuleSession], [RuleSessionLaws]: [RunRuleSets] of jetrules_pool_worker.go, with the
      values of nodes (jetrules_interface.go) and the rule files of a process
      (src/jets/jetrules/rete/workspace_control.go), on an engine that is the class
      [RuleEngine]. [RuleWorker], [RuleWorkerLaws]: the worker of the rules operator, from
      a bundle of records to the rows of its channels and its error rows
      (jetrules_pool_worker.go, jetrules_grouping_key.go, jetsrules_process_error.go).
      [EntityExtract], [EntityLaws]: jetrules_extract_entity.go, the walk that writes an
      entity as a document. [RuleDemo]: an engine and the theorems applied to it.
      [RulePool], [RulePoolLaws]: jetrules_pool_manager.go, the operator, the workers and
      the collector of results interleaved.
    - [RuleTests], [RuleTestLaws]: the checks of src/jets/rulestest against a session
      (testdef.go, result.go, harness/snapshot.go, harness/match.go). [RuleTestValid],
      [RuleTestNames]: validate.go and the names it suggests. [RuleTestRun],
      [RuleTestVerdict]: the input tables and the run of a test (harness/csv.go,
      harness/run.go). [RuleTestDemo]: a session and its checks.

    ** What the theorems show

    Sharding: the shards cover every file, byte for byte and in order; shard ids have no
    gap; no shard of several files is over its limit; and the inputs on which the code
    records a wrong first chunk or indexes an empty slice. Dates: ISO text reads as the day
    it names, and nothing reads as a date out of range. Operators: comparisons return 0 or 1
    and never panic, equality is symmetric, integers compare as integers, sums and dates
    come back, the sort comparison is an order on a column of one kind. Casts: idempotent,
    and inverse to the encoding on integers and on arrays of plain text. Expressions: a
    built expression without proxies evaluates to a value or an error, an integer expression
    has its exact value at 64 bits, the build ends, AND and OR have their truth tables and
    do not evaluate an operand the other decides, the first matching case clause is applied.
    Operators on records: sort sends its records in order, group_by cuts them in maximal
    runs, the two together give one bundle per value; aggregate computes, of integers and
    without filter or cast, the count, the sum modulo 2^64, the extremes and the number of
    distinct values; merge is an ordered join; map_record sends the records without an
    error, or all, or stops, as configured, and reports the first errors; a partition is in
    its range; overpunched numbers read back. Executors: the splitter loses no row and fills
    its partitions; operators of a fan-out do not disturb one another. Steps: adding error
    channels keeps a step valid, a step ends with the channels of its operators closed, but
    for one kind; the check of the original headers ends and is exact; rules are refused on
    a node only when they would run there. Rules: a valid rule is compiled without an
    internal error into a valid rule with the same triples, filters and consequents,
    whatever the statistics; rules share a vertex of the network exactly when the normalized
    labels of their antecedents and their saliences agree, a row of a vertex has the
    variables of its path that are still read and every reference finds its variable.
    Scripts: the statements joined are the script, every script is answered, a quoted
    literal is never cut. Delimited text: reading answers on every text, and gives back
    records that were written with quotes and are not blank. The agentic record: every chain
    verifies whatever failed or interleaved, tampering shows, histories are walks in the
    machines of Appendix A.5, only a person raises a tier or moves an incident past the
    ceiling, the logs only grow, the second decision on a stale view is refused, the tier
    gate fails closed. Triage: the verdict on each place is the one the tables say, whatever
    part of the schema is deployed; a worker is reported as a regression exactly when its
    source is known to have worked; a run of the detectors records exactly what there is to
    find, once; a ranking is valid, complete for its report and strictly ordered; an
    unattended run writes exactly the places that are present, stays below its ceiling
    whatever fails, and a second run writes nothing. Templates: one that compiled renders
    every document, unless it hands a broken text to one construct; a predicate reads back
    as it was written; a text has the paragraphs and the lines its width allows; the kind
    and the cardinality of a chain hold of its values. Rule sets: the run follows its
    protocol when the engine takes its scans and the files give a result or an error, an
    exception is reported once though every later rule set finds it again, a row read in one
    pass holds what a search per column gives, error rows are the first failures up to the
    maximum and a bundle that fails is passed, dropped or fails the step as configured,
    whatever panics; the pool of workers ends and counts every bundle when none fails, and
    when one does ends unless [done] is closed twice, which can hang the step or end the
    process; the walk over an entity ends exactly when no chain of entities is endless, and
    its document does not depend on the order of iterators and maps. Rules unit tests: a
    check decides whether its pattern has an answer in the session, the verdict is exact,
    the name suggested is the closest one.

    ** Conventions

    A Go [int] is a [Z] with its wrap-around written out; a string is its bytes. An
    error is its message, of which the constant text of the format is kept, except in
    the agentic record, whose callers tell errors apart by type: there [error] has a
    constructor per type and [Wrap] for [%w]. A loop that is not structural takes
    fuel, and answers [Loop] when it runs out: [split_fuel] exceeds the number of
    chunks of a file because every chunk after the first advances by more than the
    shard size; the script scanner takes the length of the text, of which every turn
    consumes a byte, and so do the loops of the CSV reader; the expression builder
    takes the height of the specification; the name of an error channel is found
    within one more try than there are names taken; the walk over the stages takes as
    many turns as there are stages and readings of stages ([walk_fuel]); [Done] of a
    column takes the depth of its evaluator; the ordering of a rule places one antecedent
    a turn; the parser of predicates takes four calls a token ([pred_fuel]) and the scan of
    markup the length of the text; the loop of a rule set takes its maximum of passes. The
    theorems state that this is enough. The walk over an entity takes its depth as fuel
    and has no bound of its own, which its theorem says.
    What the language leaves open or the
    code calls outside the repository is a class with the code's reliance on it as
    its fields: the rendering of [fmt] and of times ([GoFmt], [GoRFC3339]), Unicode
    case tables ([GoUnicode]), the local time zone ([GoZone]), regular expressions
    given by the user ([GoRegexp], [GoSubmatch]), uuids, the clock, JSON text, random
    numbers ([GoRand]), the settings and hashes of domain keys ([DomainKeyEnv]),
    Unicode digits ([GoDigits]), unstable sorts ([SizeSort], [GoSort]), the order of a
    [range] over a map ([map_order], [range]), quoted text ([Quote]), the float-to-integer conversion of the processor
    ([GoArch]), the database engine ([Postgres]), the printing of documents and the upper
    case of runes in templates ([DocFmt], [GoRunes]), the rule engine with its sessions and
    the files of the workspace ([RuleEngine], [Workspace]), the JSON of entities
    ([EntityJson]), what a bundle does to a worker ([BundleWork]), and the scanning and quoting of texts in unit tests ([HarnessText]). Theorems hold for every
    instance; the hypotheses they need are in their statements, and the instances at
    the end of the files show that they can hold.

    ** What is not modelled

    The S3 listing and the transfer of files; the interruption of a step by its done
    channel, debug logging, and the sharing of a sent record between the operators
    that hold it; partition_writer, the operators that call models (ollama,
    embed, vllm), render, analyze, anonymize, clustering and site operators; the
    synchronisation of channels with schema providers and the other checks of
    ValidatePipeSpecConfig; the rule engine, which is C++, the statistics and the timings gathered around it, and the toon and prose encodings of entities;
    the decoding of JSON into templates and test definitions, with the check of unknown
    keys by reflection; the rest of the briefing package; of the rule compiler the
    generated parser, classes and tables, the salience of
    aggregates and the files of statistics; the readers and
    writers of the other file formats; the reuse of a record's storage by the CSV
    reader; the loading of lookup tables; the agent loop and its calls to language
    models, the prompt of the ranking, the user interface, deployment. In the agentic
    record, the list queries, the redaction of PHI and the
    rendering of transcripts are left out, and a transaction is atomic: row locks and
    unique constraints are taken to serialise the transactions of one subject, a
    transaction that loses such a race is one that fails.

    ** Next

    The classes of the rule compiler; briefings; the other checks of a
    step and the synchronisation with schema providers; the assignment of stage files;
    fixed width records; laws of distinct, filter and high_freq; clustering; the list
    queries of the agentic record. *)
From stdpp Require Import base list strings gmap.
From Stdlib Require Import ZArith Lia.

#[global] Open Scope Z_scope.

(** ** Outcomes of a Go call

    [Ret] is a normal return, [Fail] a non-nil [error] result and [Panic] a
    run-time panic (index out of range, nil map write, unhashable key).
    [Loop] is the answer of a definition by fuel whose fuel ran out, so a
    theorem that a call returns also says that it is not [Loop]. *)
Inductive res (A : Type) : Type :=
| Ret (a : A)
| Fail (msg : string)
| Panic (msg : string)
| Loop.
Arguments Ret {A} a.
Arguments Fail {A} msg.
Arguments Panic {A} msg.
Arguments Loop {A}.

Definition res_bind {A B : Type} (m : res A) (k : A → res B) : res B :=
  match m with
  | Ret a => k a
  | Fail e => Fail e
  | Panic e => Panic e
  | Loop => Loop
  end.

Declare Scope go_scope.
Delimit Scope go_scope with go.
Notation "'let!' x := m 'in' k" := (res_bind m (λ x, k))
  (at level 10, x binder, m at level 100, k at level 200) : go_scope.
#[global] Open Scope go_scope.

(** [if err != nil { return ..., fmt.Errorf("prefix: %v", err) }]: the error is
    replaced by one with a new message, a panic goes through unchanged. *)
Definition wrap_err {A : Type} (msg : string) (m : res A) : res A :=
  match m with
  | Fail _ => Fail msg
  | _ => m
  end.

Definition is_ret {A} (m : res A) : bool := match m with Ret _ => true | _ => false end.
Definition is_panic {A} (m : res A) : bool := match m with Panic _ => true | _ => false end.

Lemma res_bind_Ret {A B} (m : res A) (k : A → res B) b :
  res_bind m k = Ret b ↔ ∃ a, m = Ret a ∧ k a = Ret b.
Proof. destruct m; naive_solver. Qed.

(** ** Machine integers

    [int] and [int64] are 64-bit two's complement, [uint] and [uint64] are
    modulo 2^64 (GOARCH amd64 and arm64, the two JetStore deploys on). *)
Definition two63 : Z := 2 ^ 63.
Definition two64 : Z := 2 ^ 64.
Definition i64 (z : Z) : Z := (z + two63) mod two64 - two63.
Definition u64 (z : Z) : Z := z mod two64.
Definition in_i64 (z : Z) : Prop := - two63 ≤ z < two63.
Definition in_u64 (z : Z) : Prop := 0 ≤ z < two64.

#[global] Instance in_i64_dec z : Decision (in_i64 z).
Proof. unfold in_i64. apply _. Defined.
#[global] Instance in_u64_dec z : Decision (in_u64 z).
Proof. unfold in_u64. apply _. Defined.

Lemma two63_val : two63 = 9223372036854775808.
Proof. reflexivity. Qed.
Lemma two64_val : two64 = 18446744073709551616.
Proof. reflexivity. Qed.

Ltac width := unfold in_i64, in_u64 in *; rewrite ?two63_val, ?two64_val in *.

Lemma i64_small z : in_i64 z → i64 z = z.
Proof. intros H. unfold i64. rewrite Z.mod_small; width; lia. Qed.
Lemma u64_small z : in_u64 z → u64 z = z.
Proof. intros H. unfold u64. by rewrite Z.mod_small. Qed.
Lemma i64_range z : in_i64 (i64 z).
Proof.
  unfold i64. pose proof (Z.mod_pos_bound (z + two63) two64). width. lia.
Qed.
Lemma u64_range z : in_u64 (u64 z).
Proof. unfold u64. pose proof (Z.mod_pos_bound z two64). width. lia. Qed.

Lemma i64_congr z : ∃ k, i64 z = z + k * two64.
Proof.
  unfold i64. exists (- ((z + two63) / two64)).
  pose proof (Z.div_mod (z + two63) two64). width. lia.
Qed.
Lemma i64_unique z w : in_i64 w → (∃ k, w = z + k * two64) → i64 z = w.
Proof.
  intros Hw [k ->]. destruct (i64_congr z) as [k' Hk]. pose proof (i64_range z).
  rewrite Hk in H |- *. width. assert (k' = k) by lia. by subst.
Qed.
Lemma u64_congr z : ∃ k, u64 z = z + k * two64.
Proof.
  unfold u64. exists (- (z / two64)). pose proof (Z.div_mod z two64). width. lia.
Qed.
Lemma u64_unique z w : in_u64 w → (∃ k, w = z + k * two64) → u64 z = w.
Proof.
  intros Hw [k ->]. destruct (u64_congr z) as [k' Hk]. pose proof (u64_range z).
  rewrite Hk in H |- *. width. assert (k' = k) by lia. by subst.
Qed.

(** Addition then subtraction of the same amount is the identity in two's
    complement, whatever overflows on the way. *)
Lemma i64_add_sub a b : in_i64 a → i64 (i64 (a + b) - b) = a.
Proof.
  intros Ha. apply i64_unique; [done|]. destruct (i64_congr (a + b)) as [k ->].
  exists (- k). lia.
Qed.
Lemma u64_add_sub a b : in_u64 a → u64 (u64 (a + b) - b) = a.
Proof.
  intros Ha. apply u64_unique; [done|]. destruct (u64_congr (a + b)) as [k ->].
  exists (- k). lia.
Qed.

Create HintDb go.
#[export] Hint Resolve i64_range u64_range : go.

(** Removes the wrap-arounds whose argument is provably in range. *)
Ltac unwrap :=
  repeat match goal with
  | |- context [i64 ?z] => rewrite (i64_small z); [|width; lia]
  | H : context [i64 ?z] |- _ => rewrite (i64_small z) in H; [|width; lia]
  end.
