(* ===== verification/GoFloat.v ===== *)
(** * IEEE-754 doubles as Go's [float64]

    [float64] is the Standard Library's executable specification of binary
    floating point ([SpecFloat]) at precision 53 and maximal exponent 1024, so
    every arithmetic expression of the source is evaluated with the rounding
    the hardware performs.  The conversions between [float64] and the integer
    types follow the Go specification; the value of an out-of-range conversion
    is implementation-dependent there, so it is a field of [GoArch]. *)
From stdpp Require Import base list strings.
From Stdlib Require Import ZArith Lia SpecFloat.
From S2P Require Import Prelude.

Abbreviation float64 := spec_float.
Definition prec : Z := 53.
Definition emax : Z := 1024.

Definition f64_add := SFadd prec emax.
Definition f64_sub := SFsub prec emax.
Definition f64_mul := SFmul prec emax.
Definition f64_div := SFdiv prec emax.
Definition f64_sqrt := SFsqrt prec emax.
Definition f64_abs := SFabs.
Definition f64_neg := SFopp.
Definition f64_lt := SFltb.
Definition f64_le := SFleb.
Definition f64_eq := SFeqb.
Definition f64_nan : float64 := S754_nan.
Definition f64_inf (neg : bool) : float64 := S754_infinity neg.
Definition f64_is_nan (f : float64) : bool := match f with S754_nan => true | _ => false end.
Definition f64_is_inf (f : float64) : bool := match f with S754_infinity _ => true | _ => false end.

(** [float64(n)] for an integer [n]. *)
Definition f64_of_Z (z : Z) : float64 := binary_normalize prec emax z 0 false.
Definition f64_1 : float64 := f64_of_Z 1.

(** [min] and [max] of floats: NaN wins, and -0 is below 0. *)
Definition f64_sign (f : float64) : bool :=
  match f with S754_zero s | S754_infinity s | S754_finite s _ _ => s | S754_nan => false end.
Definition f64_min (a b : float64) : float64 :=
  if f64_is_nan a || f64_is_nan b then f64_nan
  else if f64_lt a b then a else if f64_lt b a then b else if f64_sign a then a else b.
Definition f64_max (a b : float64) : float64 :=
  if f64_is_nan a || f64_is_nan b then f64_nan
  else if f64_lt b a then a else if f64_lt a b then b else if f64_sign a then b else a.

(** The integer a finite double truncates to, toward zero. *)
Definition f64_trunc (f : float64) : option Z :=
  match f with
  | S754_zero _ => Some 0
  | S754_finite s m e =>
      let a := if 0 <=? e then Zpos m * 2 ^ e else Z.shiftr (Zpos m) (- e) in
      Some (cond_Zopp s a)
  | _ => None
  end.

(** [math.Ceil]. *)
Definition f64_ceil (f : float64) : float64 :=
  match f with
  | S754_finite s m e =>
      if 0 <=? e then f
      else
        let z := - ((- cond_Zopp s (Zpos m)) / 2 ^ (- e)) in
        if z =? 0 then S754_zero s else f64_of_Z z
  | _ => f
  end.

(** What the Go specification leaves to the implementation, and the parts of
    the Unicode tables and of the formatter the program calls without relying
    on more than that they are functions. *)
Class GoArch := {
  f64_to_i64_oob : float64 → Z;
  f64_to_u64_oob : float64 → Z;
  oob_i64 : ∀ f, in_i64 (f64_to_i64_oob f);
  oob_u64 : ∀ f, in_u64 (f64_to_u64_oob f);
}.

Definition f64_to_i64 `{GoArch} (f : float64) : Z :=
  match f64_trunc f with
  | Some z => if bool_decide (in_i64 z) then z else f64_to_i64_oob f
  | None => f64_to_i64_oob f
  end.

Definition f64_to_u64 `{GoArch} (f : float64) : Z :=
  match f64_trunc f with
  | Some z => if bool_decide (in_u64 z) then z else f64_to_u64_oob f
  | None => f64_to_u64_oob f
  end.

Lemma f64_to_i64_range `{GoArch} f : in_i64 (f64_to_i64 f).
Proof.
  unfold f64_to_i64. destruct (f64_trunc f); [case_bool_decide|]; auto using oob_i64.
Qed.
Lemma f64_to_u64_range `{GoArch} f : in_u64 (f64_to_u64 f).
Proof.
  unfold f64_to_u64. destruct (f64_trunc f); [case_bool_decide|]; auto using oob_u64.
Qed.
#[export] Hint Resolve f64_to_i64_range f64_to_u64_range : go.

(** The amd64 behaviour: CVTTSD2SQ gives the integer indefinite value. *)
#[global] Program Instance amd64 : GoArch :=
  {| f64_to_i64_oob _ := - two63; f64_to_u64_oob _ := two63 |}.
Next Obligation. intros. width; lia. Qed.
Next Obligation. intros. width; lia. Qed.

(** ** Symmetry of the rounded operations *)

Lemma binary_round_aux_abs sx sy mx ex lx :
  SFabs (binary_round_aux prec emax sx mx ex lx) = SFabs (binary_round_aux prec emax sy mx ex lx).
Proof.
  unfold binary_round_aux.
  destruct (shr_fexp prec emax mx ex lx) as [mrs e']. simpl.
  destruct (shr_fexp prec emax _ e' loc_Exact) as [mrs' e'']. simpl.
  destruct (shr_m mrs'); try done. by destruct (e'' <=? emax - prec).
Qed.

Lemma binary_normalize_opp_abs z e s :
  SFabs (binary_normalize prec emax (- z) e s) = SFabs (binary_normalize prec emax z e s).
Proof.
  destruct z as [|p|p]; simpl; try done; unfold binary_round;
    destruct (shl_align p e _); apply binary_round_aux_abs.
Qed.

(** [|a - b| = |b - a|] bit for bit. *)
Lemma f64_sub_abs_comm a b : f64_abs (f64_sub a b) = f64_abs (f64_sub b a).
Proof.
  unfold f64_abs, f64_sub.
  destruct a as [[]|[]| |sa ma ea], b as [[]|[]| |sb mb eb]; try done.
  cbn [SFsub]. rewrite (Z.min_comm eb ea).
  rewrite <- binary_normalize_opp_abs. do 2 f_equal. lia.
Qed.

Lemma f64_add_comm a b : f64_add a b = f64_add b a.
Proof.
  unfold f64_add.
  destruct a as [[]|[]| |sa ma ea], b as [[]|[]| |sb mb eb]; try done.
  cbn [SFadd]. rewrite (Z.min_comm eb ea). f_equal. lia.
Qed.

Lemma SFcompare_swap a b :
  SFcompare b a = match SFcompare a b with Some c => Some (CompOpp c) | None => None end.
Proof.
  destruct a as [[]|[]| |[] ma ea], b as [[]|[]| |[] mb eb]; try done; cbn [SFcompare];
    rewrite (Z.compare_antisym ea eb); destruct (ea ?= eb); simpl; try done;
    change Pos.compare_cont with Pos.compare_cont;
    fold (Pos.compare ma mb) (Pos.compare mb ma);
    rewrite (Pos.compare_antisym ma mb); by destruct (Pos.compare ma mb).
Qed.

Lemma f64_eq_comm a b : f64_eq a b = f64_eq b a.
Proof.
  unfold f64_eq, SFeqb. rewrite (SFcompare_swap a b). by destruct (SFcompare a b) as [[]|].
Qed.

(** ** Integers up to 2^53 are exact *)

Lemma digits2_pos_bounds p :
  2 ^ (Zpos (digits2_pos p) - 1) ≤ Zpos p < 2 ^ Zpos (digits2_pos p).
Proof.
  induction p as [p IH|p IH|]; cbn [digits2_pos]; [| |done];
    rewrite Pos2Z.inj_succ; unfold Z.succ; rewrite Z.pow_add_r by lia;
    replace (Zpos (digits2_pos p) + 1 - 1) with (Zpos (digits2_pos p) - 1 + 1) by lia;
    rewrite Z.pow_add_r by lia; lia.
Qed.

Lemma digits2_pos_le p n : Zpos p < 2 ^ n → 0 ≤ n → Zpos (digits2_pos p) ≤ n.
Proof.
  intros Hp Hn. pose proof (digits2_pos_bounds p) as [Hlo _].
  destruct (Z.lt_ge_cases n (Zpos (digits2_pos p))) as [Hlt|]; [|done].
  assert (2 ^ n ≤ 2 ^ (Zpos (digits2_pos p) - 1)) by (apply Z.pow_le_mono_r; lia). lia.
Qed.

Lemma digits2_pos_iter p n : Zpos (digits2_pos (Pos.iter xO p n)) = Zpos (digits2_pos p) + Zpos n.
Proof.
  induction n as [|n IH] using Pos.peano_ind; [simpl; lia|].
  rewrite Pos.iter_succ. cbn [digits2_pos]. lia.
Qed.

Lemma pos_iter_xO p n : Zpos (Pos.iter xO p n) = Zpos p * 2 ^ Zpos n.
Proof.
  induction n as [|n IH] using Pos.peano_ind; [simpl; lia|].
  rewrite Pos.iter_succ, Pos2Z.inj_succ, Z.pow_succ_r by lia. lia.
Qed.

(** A mantissa of exactly 53 bits at a representable exponent is left alone. *)
Lemma binary_round_aux_exact s m e :
  Zpos (digits2_pos m) = prec → emin prec emax ≤ e ≤ emax - prec →
  binary_round_aux prec emax s (Zpos m) e loc_Exact = S754_finite s m e.
Proof.
  intros Hd He. unfold binary_round_aux.
  assert (Hshr : shr_fexp prec emax (Zpos m) e loc_Exact = ({| shr_m := Zpos m; shr_r := false; shr_s := false |}, e)).
  { unfold shr_fexp, Zdigits2, fexp. rewrite Hd.
    replace (Z.max (prec + e - prec) (emin prec emax) - e) with 0 by lia. done. }
  rewrite Hshr. cbn [shr_m loc_of_shr_record round_nearest_even]. rewrite Hshr. cbn [shr_m].
  by rewrite (proj2 (Z.leb_le e (emax - prec))) by lia.
Qed.

Lemma f64_of_Z_pos p : Zpos p < 2 ^ 53 →
  f64_of_Z (Zpos p) = 
    S754_finite false (match (53 - Zpos (digits2_pos p))%Z with Zpos d => Pos.iter xO p d | _ => p end)
      (Zpos (digits2_pos p) - 53).
Proof.
  intros Hp. assert (Hd : Zpos (digits2_pos p) ≤ 53) by (apply digits2_pos_le; lia).
  unfold f64_of_Z, binary_normalize, binary_round, shl_align, fexp.
  change prec with 53. change emax with 1024. unfold emin.
  replace (Z.max (Zpos (digits2_pos p) + 0 - 53) (3 - 1024 - 53) - 0) with (Zpos (digits2_pos p) - 53) by lia.
  replace (Z.max (Zpos (digits2_pos p) + 0 - 53) (3 - 1024 - 53)) with (Zpos (digits2_pos p) - 53) by lia.
  destruct (53 - Zpos (digits2_pos p)) as [|d|d] eqn:Hdd; [| |lia].
  - replace (Zpos (digits2_pos p) - 53) with 0 by lia.
    apply binary_round_aux_exact; unfold emin; change prec with 53; change emax with 1024; lia.
  - replace (Zpos (digits2_pos p) - 53) with (Zneg d) by lia.
    apply binary_round_aux_exact; rewrite ?digits2_pos_iter; unfold emin;
      change prec with 53; change emax with 1024; lia.
Qed.

(** Conversion to [float64] and back is the identity on naturals below 2^53. *)
Lemma f64_roundtrip `{GoArch} z : 0 ≤ z < 2 ^ 53 → f64_to_i64 (f64_of_Z z) = z.
Proof.
  intros Hz. unfold f64_to_i64. destruct z as [|p|p]; [done| |lia].
  rewrite f64_of_Z_pos by lia. cbn [f64_trunc cond_Zopp].
  assert (Hd : Zpos (digits2_pos p) ≤ 53) by (apply digits2_pos_le; lia).
  set (a := if 0 <=? _ then _ else _).
  enough (a = Zpos p) as ->. { rewrite bool_decide_true; [done|]. width. lia. }
  subst a. destruct (53 - Zpos (digits2_pos p)) as [|d|d] eqn:Hdd; [| |lia].
  - replace (Zpos (digits2_pos p) - 53) with 0 by lia. simpl. lia.
  - replace (Zpos (digits2_pos p) - 53) with (Zneg d) by lia. simpl (0 <=? _). cbv iota.
    rewrite pos_iter_xO. simpl (- Zneg d). rewrite Z.shiftr_div_pow2 by lia.
    apply Z.div_mul. apply Z.pow_nonzero; lia.
Qed.

Lemma f64_of_Z_positive z : 0 < z < 2 ^ 53 → f64_lt (S754_zero false) (f64_of_Z z) = true.
Proof.
  intros Hz. destruct z as [|p|p]; [lia| |lia]. by rewrite f64_of_Z_pos by lia.
Qed.

(** ** The quotient of two counts is a proportion *)
Lemma digits2_pos_eq p n : 2 ^ (n - 1) ≤ Zpos p < 2 ^ n → 0 ≤ n → Zpos (digits2_pos p) = n.
Proof.
  intros [Hlo Hhi] Hn. pose proof (digits2_pos_le p n Hhi Hn) as Hle. pose proof (digits2_pos_bounds p) as [_ Hd].
  destruct (Z.lt_ge_cases (Zpos (digits2_pos p)) n) as [Hlt|]; [|lia].
  assert (2 ^ Zpos (digits2_pos p) ≤ 2 ^ (n - 1)) by (apply Z.pow_le_mono_r; lia). lia.
Qed.
Definition full (m : Z) : Prop := 2 ^ 52 ≤ m < 2 ^ 53.
Lemma full_digits p : full (Zpos p) → Zpos (digits2_pos p) = 53.
Proof. intros Hp. apply digits2_pos_eq; [exact Hp|lia]. Qed.

Lemma shr_fexp_full q e l : full q → emin prec emax ≤ e → shr_fexp prec emax q e l = (shr_record_of_loc q l, e).
Proof.
  intros Hq He. unfold full in Hq. destruct q as [|p|p]; try lia. unfold shr_fexp, Zdigits2, fexp. rewrite (full_digits p Hq).
  unfold emin in *. change prec with 53 in *. change emax with 1024 in *. replace (Z.max (53 + e - 53) (3 - 1024 - 53) - e) with 0 by lia. done.
Qed.
Lemma shr_m_loc q l : shr_m (shr_record_of_loc q l) = q.
Proof. by destruct l as [|[]]. Qed.
Lemma shr_fexp_double q e l : 2 ^ 53 ≤ q < 2 ^ 54 → emin prec emax ≤ e →
  ∃ rec, shr_fexp prec emax q e l = (rec, e + 1) ∧ full (shr_m rec).
Proof.
  intros Hq He. destruct q as [|p|p]; try lia. unfold shr_fexp, Zdigits2, fexp. rewrite (digits2_pos_eq p 54) by lia.
  unfold emin in *. change prec with 53 in *. change emax with 1024 in *. replace (Z.max (54 + e - 53) (3 - 1024 - 53) - e) with 1 by lia.
  cbn [shr iter_pos]. eexists. split; [done|]. unfold full. change (2 ^ 54) with (2 * 2 ^ 53) in Hq. change (2 ^ 53) with (2 * 2 ^ 52) in *.
  destruct l as [|[]], p; cbn [shr_record_of_loc shr_1 shr_m]; lia.
Qed.
(** A rounded mantissa of 53 bits stays one, or becomes the next power of two. *)
Lemma binary_round_aux_full s q e l rec e1 : shr_fexp prec emax q e l = (rec, e1) → full (shr_m rec) → emin prec emax ≤ e1 < emax - prec →
  ∃ m e', binary_round_aux prec emax s q e l = S754_finite s m e' ∧ ((e' = e1 ∧ full (Zpos m)) ∨ (e' = e1 + 1 ∧ Zpos m = 2 ^ 52)).
Proof.
  intros E Hf He. unfold binary_round_aux. rewrite E. set (k := round_nearest_even _ _).
  assert (Hk : k = shr_m rec ∨ k = shr_m rec + 1).
  { subst k. destruct rec as [m [] []]; cbn; try (destruct (Z.even m)); auto. }
  unfold full in *. destruct (Z.eq_dec k (2 ^ 53)) as [Ek|Ek].
  - rewrite Ek. unfold shr_fexp, fexp. change (Zdigits2 (2 ^ 53)) with 54.
    unfold emin in *. change prec with 53 in *. change emax with 1024 in *. replace (Z.max (54 + e1 - 53) (3 - 1024 - 53) - e1) with 1 by lia.
    cbn [shr iter_pos]. change (shr_m (shr_1 (shr_record_of_loc (2 ^ 53) loc_Exact))) with (2 ^ 52). cbv iota. change (2 ^ 52) with (Zpos (2 ^ 52)) at 1. cbv iota. rewrite (proj2 (Z.leb_le _ _)) by lia. eexists _, _. split; [done|]. right. split; [done|reflexivity].
  - rewrite (shr_fexp_full k e1 loc_Exact); [|unfold full; lia|lia]. cbn [shr_record_of_loc shr_m]. destruct k as [|p|p]; try lia.
    rewrite (proj2 (Z.leb_le _ _)) by lia. eexists _, _. split; [done|]. left. split; [done|lia].
Qed.
Lemma f64_of_Z_full p : Zpos p < 2 ^ 53 → ∃ m, f64_of_Z (Zpos p) = S754_finite false m (Zpos (digits2_pos p) - 53) ∧ full (Zpos m) ∧
  Zpos m = Zpos p * 2 ^ (53 - Zpos (digits2_pos p)).
Proof.
  intros Hp. rewrite f64_of_Z_pos by done. eexists. split; [done|]. pose proof (digits2_pos_bounds p) as [Hlo Hhi]. pose proof (digits2_pos_le p 53 Hp ltac:(lia)) as Hd. unfold full.
  assert (Em : Zpos (match (53 - Zpos (digits2_pos p))%Z with Zpos d => Pos.iter xO p d | _ => p end) = Zpos p * 2 ^ (53 - Zpos (digits2_pos p))).
  { destruct (53 - Zpos (digits2_pos p)) as [|d|d] eqn:E; [simpl; lia|apply pos_iter_xO|lia]. }
  rewrite Em. split; [|done]. set (d := Zpos (digits2_pos p)) in *. replace (2 ^ 52) with (2 ^ (d - 1) * 2 ^ (53 - d)) by (rewrite <- Z.pow_add_r by lia; f_equal; lia).
  replace (2 ^ 53) with (2 ^ d * 2 ^ (53 - d)) by (rewrite <- Z.pow_add_r by lia; f_equal; lia). assert (0 < 2 ^ (53 - d)) by (apply Z.pow_pos_nonneg; lia). nia.
Qed.
Lemma new_location_0 n : new_location n 0 = loc_Exact.
Proof. unfold new_location, new_location_even, new_location_odd. by destruct (Z.even n). Qed.

Lemma quotient_range B m1 m2 k r : B ≤ m1 < 2 * B → B ≤ m2 < 2 * B → m1 * (2 * B) = m2 * k + r → 0 ≤ r < m2 → B ≤ k < 4 * B.
Proof. intros H1 H2 E Hr. split; apply Z.nlt_ge || apply Z.nle_gt; intros Hk; nia. Qed.
Lemma quotient_top B m1 m2 k r : 0 < B → 0 < m1 ≤ m2 → m1 * (2 * B) = m2 * k + r → 0 ≤ r < m2 → 2 * B ≤ k → m1 = m2 ∧ k = 2 * B ∧ r = 0.
Proof. intros HB H1 E Hr Hk. assert (m2 * (2 * B) ≤ m2 * k) by nia. assert (m1 = m2) by nia. subst. assert (k = 2 * B) by nia. subst. split; [done|]. split; [done|lia]. Qed.

(** A double that is a proportion: positive, and not above 1. *)
Inductive proportion : float64 → Prop :=
| below_one m e : e < -52 → proportion (S754_finite false m e)
| one m : Zpos m = 2 ^ 52 → proportion (S754_finite false m (-52)).
Lemma f64_div_proportion a b : 0 < a ≤ b → b < 2 ^ 53 → proportion (f64_div (f64_of_Z a) (f64_of_Z b)).
Proof.
  intros Hab Hb. destruct a as [|p|p]; try lia. destruct b as [|q|q]; try lia.
  destruct (f64_of_Z_full p) as (m1 & -> & F1 & E1); [lia|]. destruct (f64_of_Z_full q) as (m2 & -> & F2 & E2); [lia|].
  pose proof (digits2_pos_bounds p) as [Hp _]. pose proof (digits2_pos_bounds q) as [Hq Hq2]. pose proof (digits2_pos_le q 53 Hb ltac:(lia)) as Hdq.
  assert (Hd : Zpos (digits2_pos p) ≤ Zpos (digits2_pos q)) by (apply digits2_pos_le; lia).
  unfold f64_div, SFdiv, SFdiv_core_binary, Zdigits2. rewrite (full_digits m1 F1), (full_digits m2 F2). set (dp := Zpos (digits2_pos p)) in *. set (dq := Zpos (digits2_pos q)) in *.
  assert (1 ≤ dp) by lia. assert (Hfe : fexp prec emax (53 + (dp - 53) - (53 + (dq - 53))) = dp - dq - 53) by (unfold fexp, emin; change prec with 53; change emax with 1024; lia).
  rewrite Hfe. replace ((dp - dq - 53) `min` (dp - 53 - (dq - 53))) with (dp - dq - 53) by lia. replace (dp - 53 - (dq - 53) - (dp - dq - 53)) with 53 by lia.
  cbv zeta. rewrite Z.shiftl_mul_pow2 by lia. pose proof (Z.div_mod (Zpos m1 * 2 ^ 53) (Zpos m2) ltac:(lia)) as Hdm. pose proof (Z.mod_pos_bound (Zpos m1 * 2 ^ 53) (Zpos m2) ltac:(lia)) as Hmod.
  unfold Z.div, Z.modulo in Hdm, Hmod. destruct (Z.div_eucl (Zpos m1 * 2 ^ 53) (Zpos m2)) as [k r]. unfold full in F1, F2.
  assert (Hk : 2 ^ 52 ≤ k < 2 ^ 54) by (change (2 ^ 54) with (4 * 2 ^ 52); by apply (quotient_range _ (Zpos m1) (Zpos m2) k r)).
  assert (Hem : emin prec emax = -1074) by reflexivity. assert (Hmx : emax - prec = 971) by reflexivity.
  destruct (Z.lt_ge_cases k (2 ^ 53)) as [Hlt|Hge].
  - destruct (binary_round_aux_full (xorb false false) k (dp - dq - 53) (new_location (Zpos m2) r) _ _ (shr_fexp_full k (dp - dq - 53) _ ltac:(unfold full; lia) ltac:(lia)))
      as (m & e' & -> & Hm); [rewrite shr_m_loc; unfold full; lia|lia|]. cbn [xorb]. destruct Hm as [[-> Hm]|[-> Hm]]; [constructor; lia|].
    destruct (Z.eq_dec (dp - dq - 53 + 1) (-52)) as [E|]; [rewrite E; by constructor|constructor; lia].
  - assert (Heq : dp = dq → Zpos m1 = Zpos m2 ∧ k = 2 ^ 53 ∧ r = 0).
    { intros Ed. assert (Zpos m1 ≤ Zpos m2) by (rewrite E1, E2, Ed; apply Z.mul_le_mono_nonneg_r; [apply Z.pow_nonneg|]; lia).
      change (2 ^ 53) with (2 * 2 ^ 52). apply (quotient_top (2 ^ 52) (Zpos m1) (Zpos m2) k r); [done|lia|done|done|exact Hge]. }
    destruct (Z.eq_dec dp dq) as [Ed|Ed].
    + destruct (Heq Ed) as (_ & -> & ->). rewrite new_location_0, Ed, Z.sub_diag. vm_compute. by constructor.
    + destruct (shr_fexp_double k (dp - dq - 53) (new_location (Zpos m2) r)) as (rec & Es & Hf); [lia|lia|].
      destruct (binary_round_aux_full (xorb false false) k _ _ rec _ Es Hf) as (m & e' & -> & Hm); [lia|]. cbn [xorb].
      destruct Hm as [[-> Hm]|[-> Hm]]; [constructor; lia|]. destruct (Z.eq_dec (dp - dq - 53 + 1 + 1) (-52)) as [E|]; [rewrite E; by constructor|constructor; lia].
Qed.
Lemma proportion_range f : proportion f → f64_lt f (f64_of_Z 0) = false ∧ f64_lt (f64_of_Z 1) f = false.
Proof.
  intros [m e He|m Hm]; (split; [done|]).
  - change (f64_of_Z 1) with (S754_finite false (2 ^ 52) (-52)). cbn [f64_lt SFltb SFcompare]. unfold f64_lt, SFltb, SFcompare. by rewrite (proj2 (Z.compare_gt_iff (-52) e)) by lia.
  - injection Hm as ->. done.
Qed.
Lemma f64_lt_finite m e m' e' : f64_lt (S754_finite false m e) (S754_finite false m' e') = true ↔ e < e' ∨ (e = e' ∧ Zpos m < Zpos m').
Proof.
  unfold f64_lt, SFltb, SFcompare. destruct (Z.compare_spec e e') as [->|He|He]; [|split; [by left|done]|split; [done|lia]].
  fold (Pos.compare m m'). destruct (Pos.compare_spec m m') as [->|Hm|Hm]; (split; [first [done|intros _; right; split; [done|lia]]|intros [?|[_ ?]]; first [done|lia]]).
Qed.
Lemma f64_eq_finite m e m' e' : f64_eq (S754_finite false m e) (S754_finite false m' e') = true ↔ e = e' ∧ m = m'.
Proof.
  unfold f64_eq, SFeqb, SFcompare. destruct (Z.compare_spec e e') as [->|He|He]; [|split; [done|lia]|split; [done|lia]].
  fold (Pos.compare m m'). destruct (Pos.compare_spec m m') as [->|Hm|Hm]; (split; [by intros ?|intros [_ E]; first [done|exfalso; subst; lia]]).
Qed.
