(* ===== verification/GoText.v ===== *)
(** * The string functions of Go the program calls

    A Go string is a byte sequence: [string] with one [ascii] per byte.  The
    functions below are the parts of [strings], [strconv], [unicode] and
    [unicode/utf8] the modelled code uses.  [strings.ToUpper] of a string that
    is not ASCII consults the Unicode tables, which are a field of [GoUnicode]. *)
From stdpp Require Import base list strings pretty.
From Stdlib Require Import ZArith Lia SpecFloat Ascii.
From S2P Require Import Prelude GoFloat.

Definition byte_of (c : ascii) : Z := Z.of_N (N_of_ascii c).
Definition between (lo hi z : Z) : bool := (lo <=? z) && (z <=? hi).
Definition is_digit (c : ascii) : bool := between 48 57 (byte_of c).
Definition digit_val (c : ascii) : Z := byte_of c - 48.
Definition ascii_lower (c : ascii) : ascii :=
  if between 65 90 (byte_of c) then ascii_of_N (N_of_ascii c + 32) else c.
Definition ascii_upper (c : ascii) : ascii :=
  if between 97 122 (byte_of c) then ascii_of_N (N_of_ascii c - 32) else c.

Fixpoint str_map (f : ascii → ascii) (s : string) : string :=
  match s with
  | EmptyString => EmptyString
  | String c r => String (f c) (str_map f r)
  end.

Fixpoint str_all (p : ascii → bool) (s : string) : bool :=
  match s with
  | EmptyString => true
  | String c r => p c && str_all p r
  end.

Fixpoint str_drop (n : nat) (s : string) : string :=
  match n, s with
  | S k, String _ r => str_drop k r
  | _, _ => s
  end.

Fixpoint str_take (n : nat) (s : string) : string :=
  match n, s with
  | S k, String c r => String c (str_take k r)
  | _, _ => EmptyString
  end.

(** ** [strings] *)

Definition HasPrefix (s p : string) : bool := String.prefix p s.

Definition HasSuffix (s p : string) : bool :=
  (String.length p <=? String.length s)%nat &&
  String.eqb (str_drop (String.length s - String.length p) s) p.

Definition Contains (s sub : string) : bool :=
  match String.index 0 sub s with Some _ => true | None => false end.

Definition TrimPrefix (s p : string) : string :=
  if HasPrefix s p then str_drop (String.length p) s else s.
Definition TrimSuffix (s p : string) : string :=
  if HasSuffix s p then str_take (String.length s - String.length p) s else s.

Section scan.
Variable sep : string.

(** [strings.ReplaceAll(s, sep, new)], for a non-empty [sep]. *)
Fixpoint replace_from (new : string) (skip : nat) (s : string) : string :=
  match s with
  | EmptyString => EmptyString
  | String c r =>
      match skip with
      | S k => replace_from new k r
      | O => if String.prefix sep s
             then new +:+ replace_from new (String.length sep - 1) r
             else String c (replace_from new O r)
      end
  end.

(** [strings.Split(s, sep)], for a non-empty [sep]. *)
Fixpoint split_from (skip : nat) (s : string) : string * list string :=
  match s with
  | EmptyString => (EmptyString, [])
  | String c r =>
      match skip with
      | S k => split_from k r
      | O => if String.prefix sep s
             then let '(w, l) := split_from (String.length sep - 1) r in (EmptyString, w :: l)
             else let '(w, l) := split_from O r in (String c w, l)
      end
  end.
End scan.

Definition Split (s sep : string) : list string :=
  let '(w, l) := split_from sep O s in w :: l.

(** ** UTF-8 *)

Definition RuneError : Z := 65533.
Definition cont (c : ascii) : bool := between 128 191 (byte_of c).
Definition low6 (c : ascii) : Z := Z.land (byte_of c) 63.

(** [utf8.DecodeRune]: the first rune and its width; [(RuneError, 0)] on the
    empty input and [(RuneError, 1)] on an invalid sequence. *)
Definition DecodeRune (s : string) : Z * nat :=
  match s with
  | EmptyString => (RuneError, 0%nat)
  | String c0 r =>
      let b0 := byte_of c0 in
      if b0 <? 128 then (b0, 1%nat)
      else if between 194 223 b0 then
        match r with
        | String c1 _ =>
            if cont c1 then (Z.lor (Z.shiftl (Z.land b0 31) 6) (low6 c1), 2%nat) else (RuneError, 1%nat)
        | _ => (RuneError, 1%nat)
        end
      else if between 224 239 b0 then
        match r with
        | String c1 (String c2 _) =>
            let lo := if b0 =? 224 then 160 else 128 in
            let hi := if b0 =? 237 then 159 else 191 in
            if between lo hi (byte_of c1) && cont c2
            then (Z.lor (Z.shiftl (Z.land b0 15) 12) (Z.lor (Z.shiftl (low6 c1) 6) (low6 c2)), 3%nat)
            else (RuneError, 1%nat)
        | _ => (RuneError, 1%nat)
        end
      else if between 240 244 b0 then
        match r with
        | String c1 (String c2 (String c3 _)) =>
            let lo := if b0 =? 240 then 144 else 128 in
            let hi := if b0 =? 244 then 143 else 191 in
            if between lo hi (byte_of c1) && cont c2 && cont c3
            then (Z.lor (Z.shiftl (Z.land b0 7) 18)
                    (Z.lor (Z.shiftl (low6 c1) 12) (Z.lor (Z.shiftl (low6 c2) 6) (low6 c3))), 4%nat)
            else (RuneError, 1%nat)
        | _ => (RuneError, 1%nat)
        end
      else (RuneError, 1%nat)
  end.

(** [utf8.ValidRune], and the encoding of a rune. *)
Definition chr (n : Z) : ascii := ascii_of_N (Z.to_N n).
Definition ValidRune (r : Z) : bool := between 0 55295 r || between 57344 1114111 r.
Definition EncodeRune (r : Z) : string :=
  if r <? 128 then String (chr r) EmptyString
  else if r <? 2048 then String (chr (192 + r / 64)) (String (chr (128 + r mod 64)) EmptyString)
  else if r <? 65536 then
    String (chr (224 + r / 4096)) (String (chr (128 + r / 64 mod 64)) (String (chr (128 + r mod 64)) EmptyString))
  else
    String (chr (240 + r / 262144)) (String (chr (128 + r / 4096 mod 64))
      (String (chr (128 + r / 64 mod 64)) (String (chr (128 + r mod 64)) EmptyString))).

(** The runes of a string, each with its bytes, as a [range] loop visits them. *)
Fixpoint runes_from (skip : nat) (s : string) : list (Z * string) :=
  match s with
  | EmptyString => []
  | String _ r =>
      match skip with
      | S k => runes_from k r
      | O => let '(rn, w) := DecodeRune s in (rn, str_take w s) :: runes_from (w - 1) r
      end
  end.
Definition runes (s : string) : list (Z * string) := runes_from 0 s.

(** [unicode.IsSpace]. *)
Definition IsSpace (r : Z) : bool :=
  between 9 13 r || (r =? 32) || (r =? 133) || (r =? 160) || (r =? 5760) ||
  between 8192 8202 r || (r =? 8232) || (r =? 8233) || (r =? 8239) || (r =? 8287) || (r =? 12288).

Fixpoint drop_spaces (l : list (Z * string)) : list (Z * string) :=
  match l with
  | (r, b) :: l' => if IsSpace r then drop_spaces l' else l
  | [] => []
  end.

Definition TrimSpace (s : string) : string :=
  foldr (λ rb acc, rb.2 +:+ acc) EmptyString
    (rev (drop_spaces (rev (drop_spaces (runes s))))).

(** ** Case *)

Class GoUnicode := { unicode_upper : string → string; unicode_lower : string → string }.

Definition isASCII (s : string) : bool := str_all (λ c, byte_of c <? 128) s.
Definition ToUpper `{GoUnicode} (s : string) : string :=
  if isASCII s then str_map ascii_upper s else unicode_upper s.

Definition ToLower `{GoUnicode} (s : string) : string :=
  if isASCII s then str_map ascii_lower s else unicode_lower s.

(** ** [strconv] on integers *)

Fixpoint digits_val (acc : Z) (s : string) : option Z :=
  match s with
  | EmptyString => Some acc
  | String c r => if is_digit c then digits_val (acc * 10 + digit_val c) r else None
  end.

Definition parse_digits (s : string) : option Z :=
  match s with EmptyString => None | _ => digits_val 0 s end.

Definition parse_signed (s : string) : option Z :=
  match s with
  | String "+" r => parse_digits r
  | String "-" r => Z.opp <$> parse_digits r
  | _ => parse_digits s
  end.

(** [strconv.Atoi], and [strconv.ParseInt(s, 10, 64)], which accept the same
    spellings; the error (syntax or range) is [None]. *)
Definition Atoi (s : string) : option Z :=
  match parse_signed s with
  | Some z => if bool_decide (in_i64 z) then Some z else None
  | None => None
  end.
Definition ParseInt64 (s : string) : option Z := Atoi s.

(** What [Atoi] returns along with an error: zero, or the closest bound. *)
Definition atoi_on_error (s : string) : Z :=
  match parse_signed s with
  | Some z => if z <? 0 then - two63 else two63 - 1
  | None => 0
  end.

(** [strconv.ParseUint(s, 10, 64)]. *)
Definition ParseUint (s : string) : option Z :=
  match parse_digits s with
  | Some z => if bool_decide (in_u64 z) then Some z else None
  | None => None
  end.

Lemma Atoi_range s z : Atoi s = Some z → in_i64 z.
Proof. unfold Atoi. destruct (parse_signed s); [case_bool_decide|]; naive_solver. Qed.
Lemma ParseUint_range s z : ParseUint s = Some z → in_u64 z.
Proof. unfold ParseUint. destruct (parse_digits s); [case_bool_decide|]; naive_solver. Qed.
#[export] Hint Resolve Atoi_range ParseUint_range : go.

(** ** [strconv.ParseFloat(s, 64)] *)

Definition hex_val (c : ascii) : option Z :=
  let b := byte_of (ascii_lower c) in
  if is_digit c then Some (digit_val c)
  else if between 97 102 b then Some (b - 87) else None.

(** Mantissa of [readFloat]: value, digits after the point, whether the point
    and a digit were seen, whether an underscore was seen, and the rest. *)
Record mant := { m_val : Z; m_frac : Z; m_dot : bool; m_dig : bool; m_und : bool; m_rest : string }.

Fixpoint read_mant (hex : bool) (v frac : Z) (dot dig und : bool) (s : string) : mant :=
  let stop := {| m_val := v; m_frac := frac; m_dot := dot; m_dig := dig; m_und := und; m_rest := s |} in
  match s with
  | EmptyString => stop
  | String c r =>
      if ascii_dec c "_" then read_mant hex v frac dot dig true r
      else if ascii_dec c "." then if dot then stop else read_mant hex v frac true dig und r
      else match (if hex then hex_val c else if is_digit c then Some (digit_val c) else None) with
           | Some d => read_mant hex (v * (if hex then 16 else 10) + d)
                         (if dot then frac + 1 else frac) dot true und r
           | None => stop
           end
  end.

(** Exponent digits: saturates as the source does, by ignoring the digits that
    follow a value of 10000 or more. *)
Fixpoint read_exp (e : Z) (und : bool) (s : string) : Z * bool * string :=
  match s with
  | String c r =>
      if ascii_dec c "_" then read_exp e true r
      else if is_digit c then read_exp (if e <? 10000 then e * 10 + digit_val c else e) und r
      else (e, und, s)
  | EmptyString => (e, und, s)
  end.

(** [underscoreOK]: an underscore separates digits. [saw] is the class of the
    previous byte: digit, underscore, other, or start. *)
Inductive saw_class := SawStart | SawDigit | SawUnder | SawOther.
Fixpoint underscore_ok (hex : bool) (saw : saw_class) (s : string) : bool :=
  match s with
  | EmptyString => match saw with SawUnder => false | _ => true end
  | String c r =>
      if is_digit c || (hex && between 97 102 (byte_of (ascii_lower c))) then underscore_ok hex SawDigit r
      else if ascii_dec c "_" then
        match saw with SawDigit => underscore_ok hex SawUnder r | _ => false end
      else match saw with SawUnder => false | _ => underscore_ok hex SawOther r end
  end.

Definition pow10 (e : Z) : positive := Z.to_pos (10 ^ e).

(** The double nearest to [m * 10^e], ties to even. *)
Definition f64_of_decimal (neg : bool) (m e : Z) : float64 :=
  match m with
  | Zpos p =>
      if 0 <=? e then binary_round prec emax neg (p * pow10 e) 0
      else f64_div (S754_finite neg p 0) (S754_finite false (pow10 (- e)) 0)
  | _ => S754_zero neg
  end.
Definition f64_of_hex (neg : bool) (m e : Z) : float64 :=
  match m with Zpos p => binary_round prec emax neg p e | _ => S754_zero neg end.

Definition lower_str (s : string) : string := str_map ascii_lower s.

(** The exponent part, once the mantissa is read: [None] is a syntax error. *)
Definition read_exponent (hex : bool) (s : string) : option (Z * bool * string) :=
  let at_exp := match s with
    | String c r => if ascii_dec (ascii_lower c) (if hex then "p" else "e") then Some r else None
    | EmptyString => None end in
  match at_exp with
  | None => if hex then None else Some (0, false, s)
  | Some r =>
      let '(neg, r) := match r with
        | String "+" r' => (false, r') | String "-" r' => (true, r') | _ => (false, r) end in
      match r with
      | String c _ =>
          if is_digit c then
            let '(e, und, rest) := read_exp 0 false r in Some (if neg then - e else e, und, rest)
          else None
      | EmptyString => None
      end
  end.

(** The value a well formed text stands for, infinite when it overflows, and whether
    the text says infinity. *)
Definition scan_float (s : string) : option (bool * float64) :=
  let '(neg, signed, body) := match s with
    | String "+" r => (false, true, r) | String "-" r => (true, true, r) | _ => (false, false, s) end in
  let low := lower_str body in
  if String.eqb low "inf" || String.eqb low "infinity" then Some (true, f64_inf neg)
  else if negb signed && String.eqb low "nan" then Some (false, f64_nan)
  else
    let hex := match body with
      | String "0" (String x (String _ _)) => if ascii_dec (ascii_lower x) "x" then true else false
      | _ => false end in
    let m := read_mant hex 0 0 false false false (if hex then str_drop 2 body else body) in
    if negb (m_dig m) then None
    else match read_exponent hex (m_rest m) with
    | None => None
    | Some (e, und, rest) =>
        let under := m_und m || und in
        match rest with
        | String _ _ => None
        | EmptyString =>
            let ok := if under
              then underscore_ok hex (if hex then SawDigit else SawStart) (if hex then str_drop 2 body else body)
              else true in
            if negb ok then None
            else Some (false, if hex then f64_of_hex neg (m_val m) (e - 4 * m_frac m)
                              else f64_of_decimal neg (m_val m) (e - m_frac m))
        end
    end.

Definition ParseFloat (s : string) : option float64 :=
  match scan_float s with
  | Some (says_inf, f) => if negb says_inf && f64_is_inf f then None else Some f
  | None => None
  end.
(** What [ParseFloat] returns along with an error. *)
Definition float_on_error (s : string) : float64 := match scan_float s with Some (_, f) => f | None => f64_of_Z 0 end.

Example parse_float_tests :
  map ParseFloat ["1.5"; "-2"; "1e3"; "1_0"; "0x1p4"; "abc"; "1e400"; "nan"; ".5"; "."]%string =
  [Some (f64_div (f64_of_Z 3) (f64_of_Z 2)); Some (f64_of_Z (-2)); Some (f64_of_Z 1000);
   Some (f64_of_Z 10); Some (f64_of_Z 16); None; None; Some f64_nan;
   Some (f64_div (f64_of_Z 1) (f64_of_Z 2)); None].
Proof. vm_compute. reflexivity. Qed.

Definition Itoa (z : Z) : string := pretty z.
