(* ===== verification/GoTextLaws.v ===== *)
(** * Laws of the string functions

    Trimming, prefixes and suffixes, splitting a joined list, and reading back a
    printed integer. *)
From stdpp Require Import base list strings pretty.
From Stdlib Require Import ZArith Lia Ascii.
From S2P Require Import Prelude GoText.

(** ** Concatenation, prefixes and suffixes *)

Lemma str_app_cons c s t : String c s +:+ t = String c (s +:+ t).
Proof. done. Qed.
Lemma str_app_nil s : s +:+ "" = s.
Proof. induction s as [|c s IH]; [done|]. by rewrite str_app_cons, IH. Qed.
Lemma str_app_assoc a b c : a +:+ (b +:+ c) = (a +:+ b) +:+ c.
Proof. induction a as [|x a IH]; [done|]. by rewrite !str_app_cons, IH. Qed.
Lemma str_length_app a b : String.length (a +:+ b) = (String.length a + String.length b)%nat.
Proof. induction a as [|x a IH]; [done|]. rewrite str_app_cons. simpl. by rewrite IH. Qed.
Lemma str_drop_app p s : str_drop (String.length p) (p +:+ s) = s.
Proof. induction p as [|c p IH]; [by destruct s|done]. Qed.
Lemma str_take_app p s : str_take (String.length p) (p +:+ s) = p.
Proof. induction p as [|c p IH]; [by destruct s|]. rewrite str_app_cons. simpl. by rewrite IH. Qed.

Lemma HasPrefix_app p s : HasPrefix (p +:+ s) p = true.
Proof.
  unfold HasPrefix. induction p as [|c p IH]; [by destruct s|]. rewrite str_app_cons. simpl.
  destruct (ascii_dec c c); [done|congruence].
Qed.
Lemma str_drop_len n s : (String.length (str_drop n s) = String.length s - n)%nat.
Proof. revert s. induction n as [|n IH]; intros [|c s]; simpl; done. Qed.

Lemma prefix_len p s : String.prefix p s = true → (String.length p ≤ String.length s)%nat.
Proof.
  revert s. induction p as [|c p IH]; intros [|d s]; simpl; try done; try lia.
  destruct (ascii_dec c d); [|done]. intros H%IH. lia.
Qed.
Lemma HasPrefix_inv s p : HasPrefix s p = true → s = p +:+ str_drop (String.length p) s.
Proof.
  unfold HasPrefix. revert s. induction p as [|c p IH]; intros [|d s]; simpl; try done. destruct (ascii_dec c d) as [->|]; [|done]. intros H%IH. by rewrite str_app_cons, <- H.
Qed.
Lemma TrimPrefix_app p s : TrimPrefix (p +:+ s) p = s.
Proof. unfold TrimPrefix. by rewrite HasPrefix_app, str_drop_app. Qed.

Lemma suffix_length s p : (String.length (s +:+ p) - String.length p)%nat = String.length s.
Proof. rewrite str_length_app. lia. Qed.
Lemma HasSuffix_app s p : HasSuffix (s +:+ p) p = true.
Proof.
  unfold HasSuffix. rewrite suffix_length, str_drop_app, String.eqb_refl, str_length_app, andb_true_r.
  apply Nat.leb_le. lia.
Qed.
Lemma TrimSuffix_app s p : TrimSuffix (s +:+ p) p = s.
Proof. unfold TrimSuffix. by rewrite HasSuffix_app, suffix_length, str_take_app. Qed.

(** ** ASCII text and trimming *)

Fixpoint chars (s : string) : list ascii :=
  match s with EmptyString => [] | String c r => c :: chars r end.
Fixpoint of_chars (l : list ascii) : string :=
  match l with [] => EmptyString | c :: l' => String c (of_chars l') end.
Lemma of_chars_chars s : of_chars (chars s) = s.
Proof. induction s as [|c s IH]; [done|]. simpl. by rewrite IH. Qed.

Lemma str_all_app p a b : str_all p (a +:+ b) = str_all p a && str_all p b.
Proof. induction a as [|c a IH]; [done|]. rewrite str_app_cons. simpl. by rewrite IH, andb_assoc. Qed.

Definition byte_rune (c : ascii) : Z * string := (byte_of c, String c EmptyString).

Lemma runes_ascii s : isASCII s = true → runes s = byte_rune <$> chars s.
Proof.
  unfold runes, isASCII. induction s as [|c s IH]; [done|]. cbn [str_all]. intros [Hc Hs]%andb_true_iff.
  cbn [runes_from DecodeRune]. rewrite Hc. cbn. rewrite IH by done. by destruct s.
Qed.

Lemma concat_byte_runes l : foldr (λ rb acc, rb.2 +:+ acc) EmptyString (byte_rune <$> l) = of_chars l.
Proof.
  induction l as [|c l IH]; [done|]. rewrite fmap_cons. cbn [foldr of_chars]. rewrite IH. done.
Qed.

Definition space_byte (c : ascii) : bool := IsSpace (byte_of c).

Lemma drop_spaces_first c l : space_byte c = false →
  drop_spaces (byte_rune <$> c :: l) = byte_rune <$> c :: l.
Proof. intros Hc. cbn. unfold space_byte in Hc. by rewrite Hc. Qed.

Lemma rev_byte_runes l : rev (byte_rune <$> l) = byte_rune <$> rev l.
Proof. induction l as [|c l IH]; [done|]. cbn. rewrite IH. by rewrite fmap_app. Qed.

(** ASCII text that starts and ends with a byte that is no space is its own
    trimming. *)
Lemma TrimSpace_ends s c mid d mid' : isASCII s = true →
  chars s = c :: mid → rev (chars s) = d :: mid' →
  space_byte c = false → space_byte d = false → TrimSpace s = s.
Proof.
  intros Ha Hs Hr Hc Hd. unfold TrimSpace. rewrite runes_ascii by done.
  rewrite Hs, drop_spaces_first, <- Hs, rev_byte_runes, Hr, drop_spaces_first, <- Hr, rev_byte_runes by done.
  by rewrite rev_involutive, concat_byte_runes, of_chars_chars.
Qed.

Lemma TrimSpace_none s : isASCII s = true → str_all (λ c, negb (space_byte c)) s = true → TrimSpace s = s.
Proof.
  intros Ha Hs. assert (Hall : Forall (λ c, space_byte c = false) (chars s)).
  { clear Ha. induction s as [|c s IH]; simpl in *; [constructor|].
    apply andb_true_iff in Hs as [Hc Hs]. constructor; [by apply negb_true_iff|eauto]. }
  destruct (chars s) as [|c mid] eqn:E; [by destruct s|].
  destruct (rev (chars s)) as [|d mid'] eqn:E'.
  { rewrite E in E'. simpl in E'. by destruct (rev mid). }
  eapply TrimSpace_ends; [done|done|done| |].
  - by inversion Hall.
  - rewrite <- E, <- (rev_involutive (chars s)), E' in Hall. simpl in Hall.
    apply Forall_app in Hall as [_ Hall]. by inversion Hall.
Qed.

(** ** Splitting a joined list *)

Fixpoint join (sep : string) (l : list string) : string :=
  match l with
  | [] => EmptyString
  | [x] => x
  | x :: l' => x +:+ sep +:+ join sep l'
  end.

Section split_join.
Variable q : ascii.
Variable sep' : string.
Local Abbreviation sep := (String q sep').
Definition free_of (s : string) : bool := str_all (λ c, if ascii_dec c q then false else true) s.

Lemma split_skip n s : split_from sep n s = split_from sep 0 (str_drop n s).
Proof. revert n. induction s as [|c s IH]; intros [|n]; try done. cbn [split_from str_drop]. apply IH. Qed.

Lemma split_free_app x r : free_of x = true →
  split_from sep 0 (x +:+ r) = let '(w, l) := split_from sep 0 r in (x +:+ w, l).
Proof.
  induction x as [|c x IH]; [change ("" +:+ r) with r; by destruct (split_from sep 0 r)|]. unfold free_of in *. cbn [str_all].
  intros [Hc Hx]%andb_true_iff. destruct (ascii_dec c q) as [|Hne]; [done|].
  change (String c x +:+ r) with (String c (x +:+ r)). cbn [split_from String.prefix].
  destruct (ascii_dec q c) as [->|_]; [done|]. rewrite IH by done. by destruct (split_from sep 0 r).
Qed.

Lemma split_sep r : split_from sep 0 (sep +:+ r) = (EmptyString, Split r sep).
Proof.
  change (sep +:+ r) with (String q (sep' +:+ r)). cbn [split_from].
  assert (String.prefix sep (String q (sep' +:+ r)) = true) as -> by exact (HasPrefix_app sep r).
  cbn [String.length]. rewrite Nat.sub_succ, Nat.sub_0_r, split_skip, str_drop_app.
  unfold Split. by destruct (split_from sep 0 r).
Qed.

Lemma Split_join l : l ≠ [] → Forall (λ x, free_of x = true) l → Split (join sep l) sep = l.
Proof.
  intros Hne Hall. induction Hall as [|x l Hx Hl IH]; [done|].
  destruct l as [|y l].
  - cbn [join]. unfold Split. rewrite <- (str_app_nil x) at 1. rewrite split_free_app by done.
    cbn. by rewrite str_app_nil.
  - change (join sep (x :: y :: l)) with (x +:+ sep +:+ join sep (y :: l)).
    unfold Split. rewrite split_free_app, split_sep by done. rewrite IH by done. by rewrite str_app_nil.
Qed.
End split_join.

(** ** Printing an integer and reading it back *)

Lemma pretty_N_char_digit x : (x < 10)%N →
  is_digit (pretty_N_char x) = true ∧ digit_val (pretty_N_char x) = Z.of_N x.
Proof.
  intros Hx. assert (x = 0 ∨ x = 1 ∨ x = 2 ∨ x = 3 ∨ x = 4 ∨ x = 5 ∨ x = 6 ∨ x = 7 ∨ x = 8 ∨ x = 9)%N as E by lia.
  by repeat destruct E as [->|E]; try subst x.
Qed.

Lemma digits_val_pretty x : ∀ s, digits_val 0 (pretty_N_go x s) = digits_val (Z.of_N x) s.
Proof.
  induction (N.lt_wf_0 x) as [x _ IH]; intros s.
  assert (x = 0 ∨ 0 < x)%N as [->|Hx] by lia; [done|].
  rewrite pretty_N_go_step by done. rewrite IH by (by apply N.div_lt).
  destruct (pretty_N_char_digit (x `mod` 10)) as [Hd Hv]; [by apply N.mod_lt|].
  cbn [digits_val]. rewrite Hd, Hv. f_equal. pose proof (N.div_mod x 10 ltac:(done)). lia.
Qed.

Lemma pretty_digits x s : str_all is_digit s = true → str_all is_digit (pretty_N_go x s) = true.
Proof.
  revert s. induction (N.lt_wf_0 x) as [x _ IH]; intros s Hs.
  assert (x = 0 ∨ 0 < x)%N as [->|Hx] by lia; [done|].
  rewrite pretty_N_go_step by done. apply IH; [by apply N.div_lt|]. cbn [str_all].
  destruct (pretty_N_char_digit (x `mod` 10)) as [-> _]; [by apply N.mod_lt|done].
Qed.

Lemma pretty_N_go_nonempty x s : s ≠ EmptyString → pretty_N_go x s ≠ EmptyString.
Proof.
  revert s. induction (N.lt_wf_0 x) as [x _ IH]; intros s Hs.
  assert (x = 0 ∨ 0 < x)%N as [->|Hx] by lia; [done|].
  rewrite pretty_N_go_step by done. apply IH; [by apply N.div_lt|done].
Qed.

Lemma parse_digits_pretty x : parse_digits (pretty x) = Some (Z.of_N x) ∧ str_all is_digit (pretty x) = true
  ∧ pretty x ≠ EmptyString.
Proof.
  unfold pretty, pretty_N. case_decide as Hx; [by subst|].
  pose proof (digits_val_pretty x EmptyString) as Hv. pose proof (pretty_digits x EmptyString eq_refl) as Hd.
  assert (Hne : pretty_N_go x "" ≠ EmptyString)
    by (rewrite pretty_N_go_step by lia; by apply pretty_N_go_nonempty).
  split; [|done]. unfold parse_digits. destruct (pretty_N_go x "") eqn:E; [done|]. by rewrite Hv.
Qed.

Lemma digit_not_sign c : is_digit c = true →
  c ≠ "+"%char ∧ c ≠ "-"%char ∧ (byte_of c <? 128) = true ∧ space_byte c = false.
Proof. intros Hc. by destruct c as [[] [] [] [] [] [] [] []]. Qed.

Lemma parse_signed_digit c r : is_digit c = true → parse_signed (String c r) = parse_digits (String c r).
Proof. intros Hc. by destruct c as [[] [] [] [] [] [] [] []]. Qed.

Lemma parse_signed_digits s : str_all is_digit s = true → s ≠ EmptyString → parse_signed s = parse_digits s.
Proof.
  destruct s as [|c s]; [done|]. cbn [str_all]. intros [Hc _]%andb_true_iff _. by apply parse_signed_digit.
Qed.

(** [strconv.Atoi(strconv.Itoa(z))]. *)
Lemma Atoi_Itoa z : in_i64 z → Atoi (Itoa z) = Some z.
Proof.
  intros Hz. unfold Atoi. assert (parse_signed (Itoa z) = Some z) as ->; [|by rewrite bool_decide_eq_true_2].
  unfold Itoa. destruct z as [|p|p]; [done| |].
  - destruct (parse_digits_pretty (Npos p)) as (Hv & Hd & Hne).
    change (pretty (Zpos p)) with (pretty (Npos p)). by rewrite parse_signed_digits.
  - destruct (parse_digits_pretty (Npos p)) as (Hv & Hd & Hne).
    change (pretty (Zneg p)) with (String "-" (pretty (Npos p))). cbn [parse_signed].
    change (parse_signed (String "-" (pretty (Npos p)))) with (Z.opp <$> parse_digits (pretty (Npos p))).
    by rewrite Hv.
Qed.

(** The decimal text of an integer is ASCII without spaces. *)
Lemma Itoa_plain z : isASCII (Itoa z) = true ∧ str_all (λ c, negb (space_byte c)) (Itoa z) = true ∧
  Itoa z ≠ EmptyString.
Proof.
  assert (Hdig : ∀ s, str_all is_digit s = true →
    isASCII s = true ∧ str_all (λ c, negb (space_byte c)) s = true).
  { unfold isASCII. induction s as [|c s IH]; [done|]. cbn [str_all]. intros [Hc Hs]%andb_true_iff.
    destruct (IH Hs) as [-> ->]. destruct (digit_not_sign c Hc) as (_ & _ & -> & ->). done. }
  unfold Itoa. destruct z as [|p|p]; [done| |];
    destruct (parse_digits_pretty (Npos p)) as (_ & Hd & Hne); destruct (Hdig _ Hd) as [Ha Hs].
  - by change (pretty (Zpos p)) with (pretty (Npos p)).
  - change (pretty (Zneg p)) with (String "-" (pretty (Npos p))). unfold isASCII in *. cbn [str_all].
    by rewrite Ha, Hs.
Qed.

Lemma TrimSpace_Itoa z : TrimSpace (Itoa z) = Itoa z.
Proof. destruct (Itoa_plain z) as (Ha & Hs & _). by apply TrimSpace_none. Qed.

Lemma Itoa_no_brace z : HasPrefix (Itoa z) "{" = false.
Proof.
  assert (Hdig : ∀ s, str_all is_digit s = true → s ≠ EmptyString → HasPrefix s "{" = false).
  { intros [|c s]; [done|]. cbn [str_all]. intros [Hc _]%andb_true_iff _.
    unfold HasPrefix. cbn [String.prefix]. by destruct (ascii_dec "{" c) as [<-|_]. }
  unfold Itoa. destruct z as [|p|p]; [done| |done].
  destruct (parse_digits_pretty (Npos p)) as (_ & Hd & Hne). by apply Hdig.
Qed.

(** What stands before the first separator, and what follows it. *)
Lemma sep_inj sep a a' b b' : str_all (λ c, negb (Ascii.eqb c sep)) a = true → str_all (λ c, negb (Ascii.eqb c sep)) a' = true →
  a +:+ String sep b = a' +:+ String sep b' → a = a' ∧ b = b'.
Proof.
  revert a'. induction a as [|c a IH]; intros [|c' a']; cbn [str_all]; rewrite ?str_app_cons.
  - intros _ _ [= E]. by split.
  - intros _ [Hc _]%andb_true_iff [= E _]. subst c'. by rewrite Ascii.eqb_refl in Hc.
  - intros [Hc _]%andb_true_iff _ [= E _]. subst c. by rewrite Ascii.eqb_refl in Hc.
  - intros [_ Ha]%andb_true_iff [_ Ha']%andb_true_iff [= -> E]. destruct (IH a' Ha Ha' E) as [-> ->]. done.
Qed.
