(* ===== verification/Sharding.v ===== *)
(** * Assignment of input files to shards

    Models src/jets/compute_pipes/actions_shard_file_keys.go: the choice of the
    cluster tier, the pruning of ignored keys, the two allocators
    ([assignShardInfo] for byte ranges, [assignShardInfoParquet] for row
    fractions) and the part of [ShardFileKeys] that follows the S3 listing.

    Sizes and byte positions are [int64] and keep their wrap-around.  A shard id
    is a counter incremented at most once per row of the slice being built and is
    a plain integer. *)
From stdpp Require Import base list strings sorting.
From Stdlib Require Import ZArith Lia SpecFloat.
From S2P Require Import Prelude GoFloat GoText.

Record S3Object := mkObj { o_key : string; o_size : Z }.

(** One row of jetsapi.compute_pipes_shard_registry, in column order. *)
Record ShardRow := mkRow {
  r_session : string; r_key : string; r_size : Z;
  r_start : Z; r_end : Z; r_shard : Z; r_chan : Z }.

Record ClusterShardingSpec := mkTier {
  AppliesToFormat : string; WhenTotalSizeGe : Z; t_MaxNbrPartitions : Z;
  t_MultiStepShardingThresholds : Z;
  ShardSizeMb : float64; ShardMaxSizeMb : float64; ShardSizeBy : float64; ShardMaxSizeBy : float64;
  t_S3WorkerPoolSize : Z; MaxConcurrency : Z }.

Record ClusterSpec := mkCluster {
  c_MaxNbrPartitions : Z; c_MultiStepShardingThresholds : Z;
  DefaultShardSizeMb : float64; DefaultShardMaxSizeMb : float64;
  DefaultShardSizeBy : float64; DefaultShardMaxSizeBy : float64;
  ShardOffset : Z; DefaultMaxConcurrency : Z; c_S3WorkerPoolSize : Z;
  ClusterShardingTiers : list ClusterShardingSpec }.

Record ClusterShardingInfo := mkInfo {
  TotalFileSize : Z; i_MaxNbrPartitions : Z; i_NbrPartitions : Z; MultiStepSharding : Z }.

Record ShardFileKeyResult := mkResult {
  clusterShardingInfo : ClusterShardingInfo; nbrShardingNodes : Z;
  firstKey : string; firstKeyFileSize : Z; clusterSpec : ClusterShardingSpec;
  registryRows : list ShardRow }.

(** ** Which objects are skipped *)

Definition skipped (sentinelFileName : string) (obj : S3Object) : bool :=
  (o_size obj =? 0) ||
  ((0 <? Z.of_nat (String.length sentinelFileName)) && HasSuffix (o_key obj) sentinelFileName).

(** ** The byte-range allocator *)

Section assign.
Variable sentinelFileName sessionId : string.
Variable shardSize maxShardSize offset : Z.
Variable doSplitFiles : bool.
Variable chanPos : Z.

(** The [for reminder > 0] loop: the rows of one large file, the next shard id
    and the size of the shard left open. *)
Fixpoint splitFile (fuel : nat) (obj : S3Object) (start reminder cur id : Z)
  : res (list ShardRow * Z * Z) :=
  if reminder <=? 0 then Ret ([], id, cur)
  else match fuel with
  | O => Loop
  | S fuel' =>
      let lim := i64 (i64 (start + shardSize) - cur) in
      let last := i64 (o_size obj - 1) in
      let '(end_, nextStart, reminder') :=
        if lim >=? last then (last, 0, 0)
        else (lim, i64 (lim + 1), i64 (reminder - i64 (shardSize - cur))) in
      let start' := if start >? 0 then i64 (start - offset) else start in
      let row := mkRow sessionId (o_key obj) (o_size obj) start' end_ id chanPos in
      let! r := splitFile fuel' obj nextStart reminder' 0 (id + 1) in
      let '(rows, id', cur') := r in
      Ret (row :: rows, id', cur')
  end.

(** Enough iterations: every chunk after the first advances by more than
    [shardSize] bytes. *)
Definition split_fuel (obj : S3Object) : nat := Z.to_nat (o_size obj / shardSize) + 3.

(** The [else] branch: the whole file goes in the current or the next shard. *)
Definition placeFile (obj : S3Object) (cur id : Z) : list ShardRow * Z * Z :=
  let '(cur, id) :=
    if (cur >? 0) && (i64 (cur + o_size obj) >? maxShardSize) then (0, id + 1) else (cur, id) in
  let row := mkRow sessionId (o_key obj) (o_size obj) 0 0 id chanPos in
  let cur := i64 (cur + o_size obj) in
  let '(cur, id) := if cur >? shardSize then (0, id + 1) else (cur, id) in
  ([row], id, cur).

Definition assignOne (obj : S3Object) (cur id : Z) : res (list ShardRow * Z * Z) :=
  if skipped sentinelFileName obj then Ret ([], id, cur)
  else if (o_size obj >? maxShardSize) && doSplitFiles
  then splitFile (split_fuel obj) obj 0 (o_size obj) cur id
  else Ret (placeFile obj cur id).

Fixpoint assignLoop (objs : list S3Object) (cur id : Z) : res (list ShardRow * Z * Z) :=
  match objs with
  | [] => Ret ([], id, cur)
  | obj :: objs' =>
      let! r := assignOne obj cur id in
      let '(rows, id, cur) := r in
      let! r' := assignLoop objs' cur id in
      let '(rows', id', cur') := r' in
      Ret (rows ++ rows', id', cur')
  end.

Definition assignShardInfo (s3Objects : list S3Object) : res (list ShardRow * Z) :=
  let! r := assignLoop s3Objects 0 0 in
  let '(rows, id, cur) := r in
  Ret (rows, if cur >? 0 then id + 1 else id).

(** ** The row-fraction allocator for parquet *)

Context `{GoArch}.

Definition parquetChunks (obj : S3Object) : Z :=
  f64_to_i64 (f64_ceil (f64_div (f64_of_Z (o_size obj)) (f64_of_Z shardSize))).

Definition parquetRows (obj : S3Object) (nbrShards id : Z) : list ShardRow :=
  (λ i, mkRow sessionId (o_key obj) (o_size obj) i nbrShards (id + i) chanPos) <$> seqZ 0 nbrShards.

Fixpoint parquetLoop (objs : list S3Object) (cur id : Z) : list ShardRow * Z * Z :=
  match objs with
  | [] => ([], id, cur)
  | obj :: objs' =>
      let '(rows, id, cur) :=
        if skipped sentinelFileName obj then ([], id, cur)
        else if (o_size obj >? maxShardSize) && doSplitFiles
        then (parquetRows obj (parquetChunks obj) id, id + Z.max 0 (parquetChunks obj), 0)
        else placeFile obj cur id in
      let '(rows', id', cur') := parquetLoop objs' cur id in
      (rows ++ rows', id', cur')
  end.
End assign.

(** [slices.SortFunc] by size: documented to give an ascending permutation, with
    no promise on the order of equal elements. *)
Class SizeSort := {
  sortBySize : list S3Object → list S3Object;
  sortBySize_perm : ∀ l, sortBySize l ≡ₚ l;
  sortBySize_sorted : ∀ l, Sorted (λ a b, o_size a ≤ o_size b) (sortBySize l);
}.

Definition assignShardInfoParquet `{GoArch} `{SizeSort} (sentinelFileName sessionId : string)
    (shardSize maxShardSize : Z) (doSplitFiles : bool) (chanPos : Z)
    (s3Objects : list S3Object) : list ShardRow * Z :=
  let '(rows, id, cur) :=
    parquetLoop sentinelFileName sessionId shardSize maxShardSize doSplitFiles chanPos
      (sortBySize s3Objects) 0 0 in
  (rows, if cur >? 0 then id + 1 else id).

(** ** Tier selection and pruning *)

Definition f64_zero (f : float64) : bool := f64_eq f (S754_zero false).

Definition defaultTier (cc : ClusterSpec) : ClusterShardingSpec :=
  mkTier EmptyString 0 (c_MaxNbrPartitions cc) 0
    (DefaultShardSizeMb cc) (DefaultShardMaxSizeMb cc) (DefaultShardSizeBy cc) (DefaultShardMaxSizeBy cc)
    0 (DefaultMaxConcurrency cc).

(** The tier with the cluster defaults filled in. *)
Definition fillTier (cc : ClusterSpec) (spec : ClusterShardingSpec) : ClusterShardingSpec :=
  let noSize := f64_zero (ShardSizeMb spec) && f64_zero (ShardSizeBy spec) in
  let noMax := f64_zero (ShardMaxSizeMb spec) && f64_zero (ShardMaxSizeBy spec) in
  mkTier (AppliesToFormat spec) (WhenTotalSizeGe spec) (t_MaxNbrPartitions spec)
    (t_MultiStepShardingThresholds spec)
    (if noSize then DefaultShardSizeMb cc else ShardSizeMb spec)
    (if noMax then DefaultShardMaxSizeMb cc else ShardMaxSizeMb spec)
    (if noSize then DefaultShardSizeBy cc else ShardSizeBy spec)
    (if noMax then DefaultShardMaxSizeBy cc else ShardMaxSizeBy spec)
    (t_S3WorkerPoolSize spec)
    (if MaxConcurrency spec =? 0 then DefaultMaxConcurrency cc else MaxConcurrency spec).

Definition tierApplies (totalSizeMb : Z) (inputFormat : string) (spec : ClusterShardingSpec) : bool :=
  (String.eqb (AppliesToFormat spec) EmptyString || String.eqb (AppliesToFormat spec) inputFormat)
  && (totalSizeMb >=? WhenTotalSizeGe spec).

Definition selectClusterShardingTier (totalSizeMb : Z) (inputFormat : string) (cc : ClusterSpec)
  : ClusterShardingSpec :=
  match List.find (tierApplies totalSizeMb inputFormat) (ClusterShardingTiers cc) with
  | Some spec => fillTier cc spec
  | None => defaultTier cc
  end.

Definition ignoredSuffixes (ignore : string) : list string :=
  List.filter (λ s, negb (String.eqb s EmptyString)) (Split ignore "|").

Definition pruneIgnoredFileKeys (s3Objects : list S3Object) (ignore : string) : list S3Object :=
  List.filter (λ obj, negb (existsb (HasSuffix (o_key obj)) (ignoredSuffixes ignore))) s3Objects.

(** ** [ShardFileKeys] after the S3 listing *)

Definition mb : float64 := f64_of_Z 1024.

(** [shardSize] and [maxShardSize] of a tier. *)
Definition bytesOf `{GoArch} (by_ mb_ : float64) : Z :=
  if f64_lt (S754_zero false) by_ then f64_to_i64 by_
  else f64_to_i64 (f64_mul (f64_mul mb_ mb) mb).

Definition canSplit (offset : Z) (format : string) : bool * bool :=
  if offset >? 0 then
    if existsb (String.eqb format) ["csv"; "headerless_csv"; "fixed_width"]%string then (true, false)
    else if existsb (String.eqb format) ["parquet"; "parquet_select"]%string then (true, true)
    else (false, false)
  else (false, false).

Definition mergeOnlyTier (cc : ClusterSpec) (total : Z) : ClusterShardingSpec :=
  mkTier EmptyString 0 1 0 (S754_zero false) (S754_zero false)
    (f64_of_Z (i64 (total + 1024))) (f64_of_Z (i64 (total + 1024 * 1024))) 0 (DefaultMaxConcurrency cc).

Section shard_file_keys.
Context `{GoArch} `{SizeSort}.
Variable sentinelFileName sessionId : string.
Variable cc : ClusterSpec.
Variable format : string.
Variable isMergeFileOnly : bool.
(** The number of rows the database reports as copied. *)
Variable copyFrom : list ShardRow → res Z.

(** Rows of the merge channels, channel [i] at position [i + 1]. *)
Fixpoint mergeRows (shardSize maxShardSize offset : Z) (doSplit isParquet : bool) (pos : Z)
  (mergeS3Objects : list (list S3Object)) : res (list ShardRow) :=
  match mergeS3Objects with
  | [] => Ret []
  | objs :: rest =>
      let! r := if isParquet
        then Ret (assignShardInfoParquet sentinelFileName sessionId shardSize maxShardSize doSplit pos objs)
        else assignShardInfo sentinelFileName sessionId shardSize maxShardSize offset doSplit pos objs in
      let! rs := mergeRows shardSize maxShardSize offset doSplit isParquet (pos + 1) rest in
      Ret (r.1 ++ rs)
  end.

(** The partition counts of lines 218 to 247. *)
Definition sizeCluster (spec : ClusterShardingSpec) (total nodes : Z)
  : ClusterShardingInfo * ClusterShardingSpec :=
  let threshold := if t_MultiStepShardingThresholds spec >? 0
    then t_MultiStepShardingThresholds spec else c_MultiStepShardingThresholds cc in
  let multi := (threshold >? 0) && (nodes >=? threshold) in
  let nbr := if multi then i64 (f64_to_i64 (f64_sqrt (f64_of_Z nodes)) + 1) else nodes in
  let maxPart := if t_MaxNbrPartitions spec >? 0 then t_MaxNbrPartitions spec else c_MaxNbrPartitions cc in
  let nbr := if (maxPart >? 0) && (nbr >? maxPart) then maxPart else nbr in
  (mkInfo total maxPart nbr (if multi then 1 else 0),
   mkTier (AppliesToFormat spec) (WhenTotalSizeGe spec) (t_MaxNbrPartitions spec)
     (t_MultiStepShardingThresholds spec) (ShardSizeMb spec) (ShardMaxSizeMb spec)
     (ShardSizeBy spec) (ShardMaxSizeBy spec)
     (if t_S3WorkerPoolSize spec =? 0 then c_S3WorkerPoolSize cc else t_S3WorkerPoolSize spec)
     (if MaxConcurrency spec =? 0 then DefaultMaxConcurrency cc else MaxConcurrency spec)).

Definition totalSize (objs : list S3Object) : Z :=
  foldl (λ acc o, i64 (acc + o_size o)) 0 objs.

Definition ShardFileKeys (s3Objects : list S3Object) (mergeS3Objects : list (list S3Object))
  : res ShardFileKeyResult :=
  if (length s3Objects =? 0)%nat then Fail "error: input folder contains no data files"
  else
  let total := totalSize s3Objects in
  if total =? 0 then Fail "error: input folder contains no data files"
  else
  let totalSizeMb := Z.quot (Z.quot total 1024) 1024 in
  let spec := if isMergeFileOnly then mergeOnlyTier cc total
              else selectClusterShardingTier totalSizeMb format cc in
  let shardSize := bytesOf (ShardSizeBy spec) (ShardSizeMb spec) in
  let maxShardSize := bytesOf (ShardMaxSizeBy spec) (ShardMaxSizeMb spec) in
  if shardSize =? 0
  then Fail "error: invalid cluster config, need to specify shard_size_mb/shard_max_size_mb or their default values"
  else
  let maxShardSize := if maxShardSize <? shardSize then shardSize else maxShardSize in
  let offset := ShardOffset cc in
  let '(doSplit, isParquet) := canSplit offset format in
  let! r :=
    if isMergeFileOnly then
      let! r := assignShardInfo sentinelFileName sessionId shardSize maxShardSize 0 false 0 s3Objects in
      if r.2 >? 1 then Fail "unexpected error: got shards for merge file only, expected 1 shard." else Ret r
    else if isParquet then
      Ret (assignShardInfoParquet sentinelFileName sessionId shardSize maxShardSize doSplit 0 s3Objects)
    else assignShardInfo sentinelFileName sessionId shardSize maxShardSize offset doSplit 0 s3Objects in
  let '(rows0, nodes) := r in
  let! mrows := mergeRows shardSize maxShardSize offset doSplit isParquet 1 mergeS3Objects in
  let rows := rows0 ++ mrows in
  match rows with
  | [] => Panic "index out of range [0] with length 0"
  | row0 :: _ =>
      let '(info, spec) := sizeCluster spec total nodes in
      let! copyCount := wrap_err "while copying shard registry row to compute_pipes_shard_registry table"
                          (copyFrom rows) in
      if copyCount =? Z.of_nat (length rows)
      then Ret (mkResult info nodes (r_key row0) (r_size row0) spec rows)
      else Fail "error: unexpected count of copied rows to compute_pipes_shard_registry table"
  end.
End shard_file_keys.

(** ** Reference: a file cut at increasing boundaries *)

(** The rows of a file cut at the positions [bs], the first chunk starting at
    [b]: chunk [b .. b'-1] is recorded with its start moved back by [offset]
    unless it is the first one. *)
Fixpoint chunk_rows (sessionId : string) (obj : S3Object) (offset chanPos b id : Z) (bs : list Z)
  : list ShardRow :=
  match bs with
  | [] => []
  | b' :: bs' =>
      mkRow sessionId (o_key obj) (o_size obj) (if b >? 0 then b - offset else b) (b' - 1) id chanPos
      :: chunk_rows sessionId obj offset chanPos b' (id + 1) bs'
  end.

(** [b < b1 < ... < bn = stop]. *)
Fixpoint cuts (b stop : Z) (bs : list Z) : Prop :=
  match bs with
  | [] => b = stop
  | b' :: bs' => b < b' ∧ cuts b' stop bs'
  end.

(** The chunks of a file: what a correct cut of [obj] in byte ranges is. *)
Definition is_split (sessionId : string) (offset chanPos : Z) (obj : S3Object) (id : Z)
    (rows : list ShardRow) : Prop :=
  ∃ bs, cuts 0 (o_size obj) bs ∧ rows = chunk_rows sessionId obj offset chanPos 0 id bs.

Section split_proof.
Variable sessionId : string.
Variable shardSize offset chanPos : Z.
Hypothesis Hshard : 0 < shardSize < 2 ^ 61.
Hypothesis Hoffset : 0 ≤ offset < 2 ^ 61.

Local Abbreviation split := (splitFile sessionId shardSize offset chanPos).

(** The loop cuts the rest of the file at increasing boundaries. *)
Lemma splitFile_spec obj fuel start reminder cur id :
  o_size obj < 2 ^ 61 →
  0 ≤ start < o_size obj → 0 ≤ cur ≤ shardSize →
  o_size obj - start ≤ reminder ≤ o_size obj →
  o_size obj - start + cur ≤ Z.of_nat fuel * shardSize →
  ∃ bs, cuts start (o_size obj) bs ∧
    split fuel obj start reminder cur id =
      Ret (chunk_rows sessionId obj offset chanPos start id bs, id + Z.of_nat (length bs), 0).
Proof.
  intros Hsz. revert start reminder cur id.
  induction fuel as [|fuel IH]; intros start reminder cur id Hst Hcur Hrem Hfuel; [lia|].
  cbn [splitFile]. rewrite (proj2 (Z.leb_gt reminder 0)) by lia. unwrap.
  destruct (Z.geb_spec (start + shardSize - cur) (o_size obj - 1)) as [Hge|Hlt].
  - exists [o_size obj]. split; [simpl; lia|].
    assert (split fuel obj 0 0 0 (id + 1) = Ret ([], id + 1, 0)) as -> by (by destruct fuel).
    done.
  - unwrap. cbv zeta beta iota.
    destruct (IH (start + shardSize - cur + 1) (reminder - (shardSize - cur)) 0 (id + 1))
      as (bs & Hcuts & Heq); [lia..|].
    rewrite Heq. simpl. exists ((start + shardSize - cur + 1) :: bs). split; [simpl; split; [lia|done]|].
    simpl. do 3 f_equal; [|lia]. f_equal. f_equal. lia.
Qed.

Lemma splitFile_whole obj cur id :
  0 < o_size obj < 2 ^ 61 → 0 ≤ cur ≤ shardSize →
  ∃ bs, cuts 0 (o_size obj) bs ∧
    split (split_fuel shardSize obj) obj 0 (o_size obj) cur id =
      Ret (chunk_rows sessionId obj offset chanPos 0 id bs, id + Z.of_nat (length bs), 0).
Proof.
  intros Hsz Hcur. apply splitFile_spec; [lia..|]. unfold split_fuel.
  pose proof (Z.mul_succ_div_gt (o_size obj) shardSize).
  assert (0 ≤ o_size obj / shardSize) by (apply Z.div_pos; lia). nia.
Qed.
End split_proof.

(** ** The allocator as a whole *)

(** The number of shards in use in allocator state [(id, cur)]. *)
Definition used (id cur : Z) : Z := if cur >? 0 then id + 1 else id.

(** Between two allocator states, the rows fill exactly the shards opened in
    between, and touch no shard before the current one. *)
Definition shards_ok (id cur : Z) (rows : list ShardRow) (id' cur' : Z) : Prop :=
  used id cur ≤ used id' cur' ∧
  Forall (λ row, id ≤ r_shard row < used id' cur') rows ∧
  ∀ k, used id cur ≤ k < used id' cur' → Exists (λ row, r_shard row = k) rows.

Lemma shards_ok_nil id cur : shards_ok id cur [] id cur.
Proof. split_and!; [lia|constructor|intros; lia]. Qed.

Lemma shards_ok_app id cur rows id' cur' rows' id'' cur'' :
  id ≤ id' → shards_ok id cur rows id' cur' → shards_ok id' cur' rows' id'' cur'' →
  shards_ok id cur (rows ++ rows') id'' cur''.
Proof.
  intros Hid (Hu & Hall & Hex) (Hu' & Hall' & Hex'). split_and!; [lia| |].
  - apply Forall_app; split; (eapply Forall_impl; [eassumption|]); simpl; intros; lia.
  - intros k Hk. apply Exists_app. destruct (Z.lt_ge_cases k (used id' cur')); [left|right]; auto with lia.
Qed.

Lemma chunk_rows_shards sessionId obj offset chanPos bs : ∀ b id,
  Forall (λ row, id ≤ r_shard row < id + Z.of_nat (length bs))
    (chunk_rows sessionId obj offset chanPos b id bs) ∧
  ∀ k, id ≤ k < id + Z.of_nat (length bs) →
    Exists (λ row, r_shard row = k) (chunk_rows sessionId obj offset chanPos b id bs).
Proof.
  induction bs as [|b' bs IH]; intros b id; cbn [chunk_rows length].
  { split; [constructor|intros; lia]. }
  destruct (IH b' (id + 1)) as [Hall Hex]. split.
  - constructor; [simpl; lia|]. eapply Forall_impl; [exact Hall|]. simpl. lia.
  - intros k Hk. destruct (decide (k = id)) as [->|]; [by constructor|].
    apply Exists_cons_tl, Hex. lia.
Qed.

Section assign_proof.
Variable sentinelFileName sessionId : string.
Variable shardSize maxShardSize offset : Z.
Variable doSplitFiles : bool.
Variable chanPos : Z.
Hypothesis Hshard : 0 < shardSize < 2 ^ 61.
Hypothesis Hmax : shardSize ≤ maxShardSize < 2 ^ 61.
Hypothesis Hoffset : 0 ≤ offset < 2 ^ 61.

Definition size_ok (obj : S3Object) : Prop := 0 ≤ o_size obj < 2 ^ 61.

(** The rows of one kept file: one row for the whole file, or, for a file
    larger than the maximum when splitting is on, the chunks of a cut. *)
Definition file_rows (obj : S3Object) (rows : list ShardRow) : Prop :=
  ∃ id, if (o_size obj >? maxShardSize) && doSplitFiles
        then is_split sessionId offset chanPos obj id rows
        else rows = [mkRow sessionId (o_key obj) (o_size obj) 0 0 id chanPos].

Local Abbreviation one := (assignOne sentinelFileName sessionId shardSize maxShardSize
  offset doSplitFiles chanPos).
Local Abbreviation loop := (assignLoop sentinelFileName sessionId shardSize maxShardSize
  offset doSplitFiles chanPos).
Local Abbreviation kept := (List.filter (λ o, negb (skipped sentinelFileName o))).

Lemma skipped_size obj : skipped sentinelFileName obj = false → o_size obj ≠ 0.
Proof. unfold skipped. intros [H _]%orb_false_iff. by apply Z.eqb_neq. Qed.

Lemma placeFile_spec obj cur id :
  0 < o_size obj < 2 ^ 61 → 0 ≤ cur ≤ shardSize →
  ∃ row id' cur', placeFile sessionId shardSize maxShardSize chanPos obj cur id = ([row], id', cur') ∧
    row = mkRow sessionId (o_key obj) (o_size obj) 0 0 (r_shard row) chanPos ∧
    0 ≤ cur' ≤ shardSize ∧ id ≤ id' ∧ shards_ok id cur [row] id' cur'.
Proof.
  intros Hsz Hcur. unfold placeFile. unwrap.
  set (next := (cur >? 0) && (cur + o_size obj >? maxShardSize)).
  set (c := if next then 0 else cur). set (i := if next then id + 1 else id).
  replace (if next then (0, id + 1) else (cur, id)) with (c, i) by (by destruct next).
  cbv beta iota. unwrap.
  assert (Hc : 0 ≤ c ≤ shardSize ∧ id ≤ i ≤ used id cur ∧ (i = id ∨ used id cur = id + 1)).
  { subst c i next. unfold used. destruct (Z.gtb_spec cur 0); simpl; [|lia].
    destruct (Z.gtb_spec (cur + o_size obj) maxShardSize); lia. }
  rewrite (i64_small (c + o_size obj)) by (width; lia).
  destruct (Z.gtb_spec (c + o_size obj) shardSize) as [Hgt|Hle].
  all: eexists _, _, _; split_and!; [done|done|lia|lia|lia|].
  all: assert (Hu : used id cur ≤ i + 1) by (unfold used in *; destruct (cur >? 0); lia).
  - unfold shards_ok. change (used (i + 1) 0) with (i + 1).
    split_and!; [lia|repeat constructor; simpl; lia|]. intros k Hk. constructor. simpl. lia.
  - assert (Hus : used i (c + o_size obj) = i + 1) by (unfold used; destruct (Z.gtb_spec (c + o_size obj) 0); lia).
    split_and!; rewrite ?Hus; [lia|repeat constructor; simpl; rewrite ?Hus; lia|].
    intros k Hk. constructor. simpl. lia.
Qed.

Lemma assignOne_spec obj cur id :
  size_ok obj → 0 ≤ cur ≤ shardSize →
  ∃ rows id' cur', one obj cur id = Ret (rows, id', cur') ∧
    0 ≤ cur' ≤ shardSize ∧ id ≤ id' ∧ shards_ok id cur rows id' cur' ∧
    (if skipped sentinelFileName obj then rows = [] else file_rows obj rows).
Proof.
  intros Hsz Hcur. unfold assignOne, file_rows. destruct (skipped sentinelFileName obj) eqn:Hskip.
  { eexists [], id, cur. split_and!; auto using shards_ok_nil; lia. }
  apply skipped_size in Hskip. unfold size_ok in Hsz.
  destruct ((o_size obj >? maxShardSize) && doSplitFiles) eqn:Hbig.
  - destruct (splitFile_whole sessionId shardSize offset chanPos Hshard Hoffset obj cur id)
      as (bs & Hcuts & Heq); [lia..|].
    rewrite Heq. eexists _, _, _. split_and!; [done|lia|lia|lia| |exists id, bs; done].
    destruct (chunk_rows_shards sessionId obj offset chanPos bs 0 id) as [Hall Hex].
    assert (0 < Z.of_nat (length bs)) by (destruct bs; simpl in *; lia).
    unfold shards_ok. change (used (id + Z.of_nat (length bs)) 0) with (id + Z.of_nat (length bs)).
    split_and!; [unfold used; destruct (cur >? 0); lia|done|].
    intros k Hk. apply Hex. unfold used in Hk. destruct (cur >? 0); lia.
  - destruct (placeFile_spec obj cur id) as (row & id' & cur' & Heq & Hrow & H1 & H2 & H3); [lia..|].
    rewrite Heq. eexists _, _, _. split_and!; [done|lia|lia|lia|done|].
    exists (r_shard row). f_equal. exact Hrow.
Qed.

Lemma assignLoop_spec objs cur id :
  Forall size_ok objs → 0 ≤ cur ≤ shardSize →
  ∃ groups id' cur', loop objs cur id = Ret (concat groups, id', cur') ∧
    id ≤ id' ∧ shards_ok id cur (concat groups) id' cur' ∧
    Forall2 file_rows (kept objs) groups.
Proof.
  intros Hall. revert cur id. induction Hall as [|obj objs Hobj _ IH]; intros cur id Hcur.
  { exists [], id, cur. split_and!; auto using shards_ok_nil with lia. }
  destruct (assignOne_spec obj cur id Hobj Hcur) as (rows & id1 & cur1 & Heq & Hc1 & Hid1 & Hok1 & Hf).
  destruct (IH cur1 id1 Hc1) as (groups & id2 & cur2 & Heq2 & Hid2 & Hok2 & Hf2).
  cbn [assignLoop]. rewrite Heq. cbn [res_bind]. rewrite Heq2. cbn [res_bind].
  cbn [List.filter]. destruct (skipped sentinelFileName obj); simpl.
  - subst rows. exists groups, id2, cur2. split_and!; [done|lia| |done].
    exact (shards_ok_app _ _ _ _ _ _ _ _ Hid1 Hok1 Hok2).
  - exists (rows :: groups), id2, cur2. split_and!; [done|lia| |by constructor].
    exact (shards_ok_app _ _ _ _ _ _ _ _ Hid1 Hok1 Hok2).
Qed.
End assign_proof.

(** C1. Coverage: for every list of objects the allocator returns (it never runs
    out of its iteration bound), and the registry rows are, in order, one group
    per kept object and nothing else: the single row of a whole file, or, for a
    file larger than the maximum shard size when splitting is enabled, the chunks
    of a cut of [0, size) at strictly increasing positions, so that every byte of
    the file is owned by exactly one chunk. *)
Theorem assignShardInfo_covers sentinelFileName sessionId shardSize maxShardSize offset
    doSplitFiles chanPos objs
    (Hshard : 0 < shardSize < 2 ^ 61) (Hmax : shardSize ≤ maxShardSize < 2 ^ 61)
    (Hoffset : 0 ≤ offset < 2 ^ 61) (Hobjs : Forall size_ok objs) :
  ∃ groups n,
    assignShardInfo sentinelFileName sessionId shardSize maxShardSize offset doSplitFiles chanPos objs
      = Ret (concat groups, n) ∧
    Forall2 (file_rows sessionId maxShardSize offset doSplitFiles chanPos)
      (List.filter (λ o, negb (skipped sentinelFileName o)) objs) groups.
Proof.
  destruct (assignLoop_spec sentinelFileName sessionId shardSize maxShardSize offset doSplitFiles
    chanPos Hshard Hmax Hoffset objs 0 0 Hobjs) as (groups & id' & cur' & Heq & _ & _ & Hf); [lia|].
  unfold assignShardInfo. rewrite Heq. simpl. eauto.
Qed.

(** Shard numbering: the rows the allocator returns use exactly the shard ids
    0 .. n-1 where n is the node count it reports: no row is outside the nodes
    that will be started, and no node is started without a file. *)
Theorem assignShardInfo_shards sentinelFileName sessionId shardSize maxShardSize offset
    doSplitFiles chanPos objs rows n
    (Hshard : 0 < shardSize < 2 ^ 61) (Hmax : shardSize ≤ maxShardSize < 2 ^ 61)
    (Hoffset : 0 ≤ offset < 2 ^ 61) (Hobjs : Forall size_ok objs)
    (Hret : assignShardInfo sentinelFileName sessionId shardSize maxShardSize offset doSplitFiles
              chanPos objs = Ret (rows, n)) :
  ∀ k, 0 ≤ k < n ↔ Exists (λ row, r_shard row = k) rows.
Proof.
  destruct (assignLoop_spec sentinelFileName sessionId shardSize maxShardSize offset doSplitFiles
    chanPos Hshard Hmax Hoffset objs 0 0 Hobjs) as (groups & id' & cur' & Heq & _ & Hok & _); [lia|].
  unfold assignShardInfo in Hret. rewrite Heq in Hret. simpl in Hret. injection Hret as <- <-.
  destruct Hok as (_ & Hall & Hex). intros k. split; [apply Hex|].
  intros (row & Hin & <-)%Exists_exists. rewrite Forall_forall in Hall. exact (Hall row Hin).
Qed.

(** ** The byte range a node downloads *)

(** [DownloadS3Object]: the range of the S3 request for a registry row, [None]
    for the whole object. *)
Definition byteRange (fullDownload : bool) (row : ShardRow) : option (Z * Z) :=
  if negb fullDownload && (r_end row >? 0) then Some (r_start row, r_end row) else None.

(** The first two chunks of a split file when the shard being filled already
    holds [cur] bytes: the first is [0 .. shardSize - cur], the second starts
    [offset] bytes before position [shardSize - cur + 1].  So a split that begins
    in an exactly full shard gives a first chunk that is downloaded as the whole
    file, and one that begins in a shard with fewer than [offset] bytes left gives
    a negative start position. *)
Theorem splitFile_first_chunks sessionId shardSize offset chanPos obj cur id
    (Hshard : 0 < shardSize < 2 ^ 61) (Hoffset : 0 ≤ offset < 2 ^ 61)
    (Hcur : 0 ≤ cur ≤ shardSize) (Hsize : shardSize - cur < o_size obj - 1 < 2 ^ 60) :
  ∃ row1 row2 rest id' cur',
    splitFile sessionId shardSize offset chanPos (split_fuel shardSize obj) obj 0 (o_size obj) cur id
      = Ret (row1 :: row2 :: rest, id', cur') ∧
    (r_start row1, r_end row1) = (0, shardSize - cur) ∧
    r_start row2 = shardSize - cur + 1 - offset ∧
    (cur = shardSize → byteRange false row1 = None) ∧
    (shardSize - cur + 1 < offset → r_start row2 < 0).
Proof.
  assert (∃ f, split_fuel shardSize obj = S f ∧ o_size obj + shardSize ≤ Z.of_nat f * shardSize)
    as (f & -> & Hf).
  { exists (2 + Z.to_nat (o_size obj / shardSize))%nat. split; [unfold split_fuel; lia|].
    pose proof (Z.mul_succ_div_gt (o_size obj) shardSize).
    assert (0 ≤ o_size obj / shardSize) by (apply Z.div_pos; lia). nia. }
  cbn [splitFile]. rewrite (proj2 (Z.leb_gt (o_size obj) 0)) by lia. unwrap.
  destruct (Z.geb_spec (0 + shardSize - cur) (o_size obj - 1)) as [|_]; [lia|]. unwrap.
  cbv zeta beta iota. simpl (0 >? 0). cbv iota.
  set (s2 := 0 + shardSize - cur + 1).
  assert (Hs2 : 0 < s2 < o_size obj) by lia.
  destruct (splitFile_spec sessionId shardSize offset chanPos Hshard Hoffset obj
    f s2 (o_size obj - (shardSize - cur)) 0 (id + 1)) as (bs & Hcuts & ->); [lia..|].
  destruct bs as [|b bs]; [simpl in Hcuts; lia|]. cbn [chunk_rows res_bind].
  destruct (Z.gtb_spec s2 0) as [_|]; [|lia].
  eexists _, _, _, _, _. split_and!; [done| | | |]; cbn [r_start r_end].
  - done.
  - lia.
  - intros ->. unfold byteRange. cbn [r_end]. by replace (0 + shardSize - shardSize) with 0 by lia.
  - lia.
Qed.

Lemma splitFile_first_chunks_witness :
  (∃ row1 row2 rest id' cur',
    splitFile "s" 100 10 0 (split_fuel 100 (mkObj "f" 250)) (mkObj "f" 250) 0 250 95 0
      = Ret (row1 :: row2 :: rest, id', cur') ∧
    (r_start row1, r_end row1) = (0, 100 - 95) ∧
    r_start row2 = 100 - 95 + 1 - 10 ∧
    (95 = 100 → byteRange false row1 = None) ∧
    (100 - 95 + 1 < 10 → r_start row2 < 0)).
Proof. apply (splitFile_first_chunks "s" 100 10 0 (mkObj "f" 250) 95 0); simpl; lia. Defined.

Lemma assignShardInfo_covers_witness :
  ∃ groups n,
    assignShardInfo "" "s" 100 150 10 true 0 [mkObj "a" 40; mkObj "b" 0; mkObj "c" 350]
      = Ret (concat groups, n) ∧
    Forall2 (file_rows "s" 150 10 true 0) [mkObj "a" 40; mkObj "c" 350] groups.
Proof.
  apply (assignShardInfo_covers "" "s" 100 150 10 true 0 [mkObj "a" 40; mkObj "b" 0; mkObj "c" 350]);
    [lia..|]. repeat constructor; simpl; lia.
Defined.

Lemma assignShardInfo_shards_witness :
  0 ≤ 3 < 5 ↔
    Exists (λ row, r_shard row = 3)
      [mkRow "s" "a" 40 0 0 0 0; mkRow "s" "c" 350 0 60 0 0; mkRow "s" "c" 350 51 161 1 0;
       mkRow "s" "c" 350 152 262 2 0; mkRow "s" "c" 350 253 349 3 0; mkRow "s" "d" 90 0 0 4 0].
Proof.
  apply (assignShardInfo_shards "" "s" 100 150 10 true 0 [mkObj "a" 40; mkObj "c" 350; mkObj "d" 90]);
    [lia..|repeat constructor; simpl; lia|vm_compute; reflexivity].
Defined.

(** ** Load of a shard when files are kept whole *)

Definition in_shard (k : Z) (rows : list ShardRow) : list ShardRow :=
  List.filter (λ row, r_shard row =? k) rows.
Definition load (k : Z) (rows : list ShardRow) : Z :=
  foldr (λ row acc, r_size row + acc) 0 (in_shard k rows).

Lemma in_shard_below k rows : Forall (λ row, k + 1 ≤ r_shard row) rows → in_shard k rows = [].
Proof.
  induction 1 as [|row rows Hr _ IH]; [done|]. unfold in_shard in *. simpl.
  destruct (Z.eqb_spec (r_shard row) k); [lia|done].
Qed.

Section load_proof.
Variable sentinelFileName sessionId : string.
Variable shardSize maxShardSize offset chanPos : Z.
Hypothesis Hshard : 0 < shardSize < 2 ^ 61.
Hypothesis Hmax : shardSize ≤ maxShardSize < 2 ^ 61.

Local Abbreviation loop := (assignLoop sentinelFileName sessionId shardSize maxShardSize
  offset false chanPos).

(** [c] bytes are already in shard [id] when [rows] are added. *)
Definition loaded_ok (c id : Z) (rows : list ShardRow) : Prop :=
  Forall (λ row, id ≤ r_shard row) rows ∧
  ∀ k, id ≤ k →
    let c := if k =? id then c else 0 in
    c + load k rows ≤ maxShardSize ∨ (c = 0 ∧ length (in_shard k rows) = 1%nat).

Lemma loaded_ok_next rows id c : 0 ≤ c ≤ maxShardSize →
  loaded_ok 0 (id + 1) rows → loaded_ok c id rows.
Proof.
  intros Hc [Hall Hk]. split; [eapply Forall_impl; [exact Hall|]; simpl; lia|].
  intros k Hle. destruct (Z.eqb_spec k id) as [->|Hne].
  - left. unfold load. rewrite (in_shard_below id) by done. simpl. lia.
  - specialize (Hk k ltac:(lia)). cbv zeta in Hk |- *. by destruct (k =? id + 1).
Qed.

(** Adding a row of [sz] bytes to the open shard, which is closed or not. *)
Lemma loaded_ok_row row rows id c :
  r_shard row = id → 0 ≤ c → 0 < r_size row → (c = 0 ∨ c + r_size row ≤ maxShardSize) →
  (loaded_ok (c + r_size row) id rows ∧ c + r_size row ≤ shardSize) ∨ loaded_ok 0 (id + 1) rows →
  loaded_ok c id (row :: rows).
Proof.
  intros Hid Hc Hsz Hfit Hrest.
  assert (Hall : Forall (λ row, id ≤ r_shard row) rows).
  { destruct Hrest as [[[Hall _] _]|[Hall _]]; (eapply Forall_impl; [exact Hall|]); simpl; lia. }
  split; [constructor; [lia|done]|]. intros k Hk.
  unfold load, in_shard. cbn [List.filter]. rewrite Hid.
  destruct (Z.eqb_spec k id) as [->|Hne].
  - rewrite Z.eqb_refl. cbn [foldr length]. fold (in_shard id rows). fold (load id rows).
    destruct Hrest as [[[_ Hl] Hle]|[Hl _]].
    + specialize (Hl id ltac:(lia)). cbv zeta in Hl. rewrite Z.eqb_refl in Hl. lia.
    + unfold load. rewrite (in_shard_below id) by done. simpl. lia.
  - destruct (Z.eqb_spec id k); [lia|]. fold (in_shard k rows). fold (load k rows).
    destruct Hrest as [[[_ Hl] _]|[_ Hl]]; specialize (Hl k ltac:(lia)); cbv zeta in Hl.
    + by destruct (Z.eqb_spec k id).
    + by destruct (k =? id + 1).
Qed.

Lemma assignLoop_load objs : ∀ cur id rows id' cur',
  Forall size_ok objs → 0 ≤ cur ≤ shardSize →
  loop objs cur id = Ret (rows, id', cur') → loaded_ok cur id rows.
Proof.
  induction objs as [|obj objs IH]; intros cur id rows id' cur' Hall Hcur Hret.
  { injection Hret as <- <- <-. split; [constructor|]. intros k Hk. left. unfold load. simpl.
    destruct (k =? id); lia. }
  inversion Hall as [|? ? Hobj Hobjs]; subst. cbn [assignLoop] in Hret. unfold assignOne in Hret.
  rewrite andb_false_r in Hret. destruct (skipped sentinelFileName obj) eqn:Hskip; cbn [res_bind] in Hret.
  { apply res_bind_Ret in Hret as ([[rows' i'] c'] & Hrec & Heq). injection Heq as <- <- <-. eauto. }
  apply skipped_size in Hskip. unfold size_ok in Hobj.
  destruct (placeFile sessionId shardSize maxShardSize chanPos obj cur id) as [[rows0 id0] cur0] eqn:Hplace.
  apply res_bind_Ret in Hret as ([[rows' i'] c'] & Hrec & Heq). injection Heq as <- <- <-.
  unfold placeFile in Hplace. unwrap.
  set (next := (cur >? 0) && (cur + o_size obj >? maxShardSize)) in Hplace.
  set (c := if next then 0 else cur). set (i := if next then id + 1 else id).
  replace (if next then (0, id + 1) else (cur, id)) with (c, i) in Hplace by (by destruct next).
  assert (Hc : 0 ≤ c ≤ shardSize ∧ (c = 0 ∨ c + o_size obj ≤ maxShardSize)).
  { subst c next. destruct (Z.gtb_spec cur 0); simpl; [|lia].
    destruct (Z.gtb_spec (cur + o_size obj) maxShardSize); lia. }
  rewrite (i64_small (c + o_size obj)) in Hplace by (width; lia).
  assert (Hrow : loaded_ok c i (rows0 ++ rows')).
  { destruct (Z.gtb_spec (c + o_size obj) shardSize); injection Hplace as <- <- <-;
      (eapply loaded_ok_row; [done|simpl; lia..|]); [right|left; split; [|simpl; lia]];
      (eapply IH; [done| |exact Hrec]); simpl; lia. }
  subst c i. destruct next; [|done]. apply loaded_ok_next; [lia|done].
Qed.
End load_proof.

(** C38. Load: when files are kept whole, a shard with more than one file holds at
    most [maxShardSize] bytes. *)
Theorem assignShardInfo_load sentinelFileName sessionId shardSize maxShardSize offset chanPos objs rows n k
    (Hshard : 0 < shardSize < 2 ^ 61) (Hmax : shardSize ≤ maxShardSize < 2 ^ 61)
    (Hobjs : Forall size_ok objs)
    (Hret : assignShardInfo sentinelFileName sessionId shardSize maxShardSize offset false chanPos objs
            = Ret (rows, n)) :
  load k rows ≤ maxShardSize ∨ length (in_shard k rows) = 1%nat.
Proof.
  unfold assignShardInfo in Hret. apply res_bind_Ret in Hret as ([[rows' id'] cur'] & Hloop & Heq).
  injection Heq as <- _.
  pose proof (assignLoop_load sentinelFileName sessionId shardSize maxShardSize offset chanPos Hshard Hmax
    objs 0 0 rows' id' cur' Hobjs ltac:(lia) Hloop) as [Hall Hk].
  destruct (Z.lt_ge_cases k 0).
  - left. unfold load. rewrite (in_shard_below k); [simpl; lia|].
    eapply Forall_impl; [exact Hall|]. simpl. lia.
  - specialize (Hk k ltac:(lia)). cbv zeta in Hk.
    destruct Hk as [Hle|[_ Hone]]; [left; destruct (k =? 0); lia|by right].
Qed.

Lemma assignShardInfo_load_witness :
  load 1 [mkRow "s" "a" 90 0 0 0 0; mkRow "s" "b" 70 0 0 1 0; mkRow "s" "c" 300 0 0 2 0] ≤ 120 ∨
  length (in_shard 1 [mkRow "s" "a" 90 0 0 0 0; mkRow "s" "b" 70 0 0 1 0; mkRow "s" "c" 300 0 0 2 0]) = 1%nat.
Proof.
  apply (assignShardInfo_load "" "s" 100 120 0 0 [mkObj "a" 90; mkObj "b" 70; mkObj "c" 300] _ 3 1);
    [lia|lia|repeat constructor; simpl; lia|vm_compute; reflexivity].
Defined.

(** ** [ShardFileKeys] *)

#[global] Instance sizeLe_dec : RelDecision (λ a b, o_size a ≤ o_size b).
Proof. intros a b. apply _. Defined.

(** Insertion sort, which is what [slices.SortFunc] runs on short slices. *)
Fixpoint insertBySize (x : S3Object) (l : list S3Object) : list S3Object :=
  match l with
  | [] => [x]
  | y :: l' => if o_size x <=? o_size y then x :: l else y :: insertBySize x l'
  end.

#[global] Program Instance insertionSizeSort : SizeSort :=
  {| sortBySize := foldr insertBySize [] |}.
Next Obligation.
  induction l as [|x l IH]; [done|]. simpl. rewrite <- IH at 2. generalize (foldr insertBySize [] l).
  intros l'. induction l' as [|y l' IH']; [done|]. simpl. destruct (o_size x <=? o_size y); [done|].
  rewrite IH'. apply Permutation_swap.
Qed.
Next Obligation.
  induction l as [|x l IH]; [constructor|]. simpl. induction IH as [|y l' Hs IH' Hhd]; [repeat constructor|].
  simpl. destruct (Z.leb_spec (o_size x) (o_size y)); [repeat constructor; (done || lia)|].
  constructor; [done|]. destruct Hhd as [|z l'' Hz]; simpl; [constructor; lia|].
  destruct (o_size x <=? o_size z); constructor; lia.
Qed.

Lemma totalSize_sum objs : Forall size_ok objs → ∀ acc,
  0 ≤ acc → acc + foldr (λ o s, o_size o + s) 0 objs < two63 →
  foldl (λ acc o, i64 (acc + o_size o)) acc objs = acc + foldr (λ o s, o_size o + s) 0 objs.
Proof.
  induction 1 as [|o objs Ho Hobjs IH]; intros acc Hacc Hlt; simpl in *; [lia|].
  assert (0 ≤ foldr (λ o s, o_size o + s) 0 objs).
  { clear -Hobjs. induction Hobjs as [|o' l [? _] _ IH]; simpl; lia. }
  unfold size_ok in Ho. rewrite i64_small by (width; lia). rewrite IH; lia.
Qed.

Lemma assignLoop_skipped sentinelFileName sessionId shardSize maxShardSize offset doSplit chanPos objs :
  Forall (λ o, skipped sentinelFileName o = true) objs → ∀ cur id,
  assignLoop sentinelFileName sessionId shardSize maxShardSize offset doSplit chanPos objs cur id
    = Ret ([], id, cur).
Proof.
  induction 1 as [|o objs Ho _ IH]; intros cur id; [done|]. cbn [assignLoop]. unfold assignOne.
  rewrite Ho. cbn [res_bind]. by rewrite IH.
Qed.

Lemma parquetLoop_skipped `{GoArch} sentinelFileName sessionId shardSize maxShardSize doSplit chanPos objs :
  Forall (λ o, skipped sentinelFileName o = true) objs → ∀ cur id,
  parquetLoop sentinelFileName sessionId shardSize maxShardSize doSplit chanPos objs cur id = ([], id, cur).
Proof.
  induction 1 as [|o objs Ho _ IH]; intros cur id; [done|]. cbn [parquetLoop]. rewrite Ho. by rewrite IH.
Qed.

Lemma assignLoop_single sentinelFileName sessionId shardSize maxShardSize offset chanPos objs :
  shardSize ≤ maxShardSize < 2 ^ 61 → Forall size_ok objs → ∀ cur id,
  0 ≤ cur → cur + foldr (λ o s, o_size o + s) 0 objs ≤ shardSize →
  assignLoop sentinelFileName sessionId shardSize maxShardSize offset false chanPos objs cur id =
    Ret ((λ o, mkRow sessionId (o_key o) (o_size o) 0 0 id chanPos) <$>
           List.filter (λ o, negb (skipped sentinelFileName o)) objs, id,
         cur + foldr (λ o s, o_size o + s) 0 (List.filter (λ o, negb (skipped sentinelFileName o)) objs)).
Proof.
  intros Hmax. induction 1 as [|o objs Ho Hobjs IH]; intros cur id Hcur Hsum; cbn [assignLoop].
  { simpl. do 2 f_equal. lia. }
  assert (0 ≤ foldr (λ o s, o_size o + s) 0 objs).
  { clear -Hobjs. induction Hobjs as [|o' l [? _] _ IH]; simpl; lia. }
  unfold size_ok in Ho. simpl in Hsum. unfold assignOne. cbn [List.filter].
  destruct (skipped sentinelFileName o) eqn:Hskip; cbn [res_bind negb].
  { rewrite IH by lia. cbn [res_bind app]. reflexivity. }
  rewrite andb_false_r. unfold placeFile. unwrap.
  destruct (Z.gtb_spec (cur + o_size o) maxShardSize); [lia|]. rewrite andb_false_r. unwrap.
  destruct (Z.gtb_spec (cur + o_size o) shardSize); [lia|]. cbn [res_bind].
  rewrite IH by lia. cbn [res_bind fmap list_fmap foldr app]. do 2 f_equal. lia.
Qed.

(** Merge-only sharding: when the step only merges files, every kept file is
    assigned to shard 0, in listing order and in full, exactly one node is
    reported, and neither the unexpected-shard-count error nor any other failure
    occurs, for inputs below 2^52 bytes. *)
Theorem ShardFileKeys_merge_only `{GoArch} `{SizeSort} sentinelFileName sessionId cc format objs
    (Hobjs : Forall size_ok objs)
    (Hkept : Exists (λ o, skipped sentinelFileName o = false) objs)
    (Hsum : foldr (λ o s, o_size o + s) 0 objs < 2 ^ 52) :
  let kept := List.filter (λ o, negb (skipped sentinelFileName o)) objs in
  ∃ result,
    ShardFileKeys sentinelFileName sessionId cc format true (λ rows, Ret (Z.of_nat (length rows))) objs []
      = Ret result ∧
    nbrShardingNodes result = 1 ∧
    registryRows result = (λ o, mkRow sessionId (o_key o) (o_size o) 0 0 0 0) <$> kept.
Proof.
  intros kept. set (total := foldr (λ o s, o_size o + s) 0 objs) in *.
  assert (Hpos : 0 < foldr (λ o s, o_size o + s) 0 kept ≤ total ∧ kept ≠ []).
  { subst kept total. clear Hsum. induction Hobjs as [|o l [? _] Hl IH]; [inversion Hkept|].
    assert (0 ≤ foldr (λ o s, o_size o + s) 0 (List.filter (λ o, negb (skipped sentinelFileName o)) l)
            ≤ foldr (λ o s, o_size o + s) 0 l).
    { clear -Hl. induction Hl as [|o' l [? _] _ IH]; simpl; [lia|].
      destruct (skipped sentinelFileName o'); simpl; lia. }
    simpl. destruct (skipped sentinelFileName o) eqn:Hs; simpl.
    - apply Exists_cons in Hkept as [Hk|Hk]; [congruence|]. destruct (IH Hk). split; [lia|done].
    - apply skipped_size in Hs. split; [lia|done]. }
  destruct Hpos as [Hpos Hne].
  unfold ShardFileKeys.
  assert ((length objs =? 0)%nat = false) as -> by (destruct objs; [by inversion Hkept|done]).
  assert (Htot : totalSize objs = total).
  { unfold totalSize. rewrite totalSize_sum; fold total; [lia|done|lia|width; lia]. }
  rewrite Htot. destruct (Z.eqb_spec total 0); [lia|]. cbv zeta.
  cbn [mergeOnlyTier ShardSizeBy ShardMaxSizeBy ShardSizeMb ShardMaxSizeMb]. unfold bytesOf. unwrap.
  rewrite !f64_of_Z_positive by lia. rewrite !f64_roundtrip by lia.
  destruct (Z.eqb_spec (total + 1024) 0); [lia|].
  destruct (Z.ltb_spec (total + 1024 * 1024) (total + 1024)); [lia|].
  destruct (canSplit (ShardOffset cc) format) as [doSplit isParquet].
  unfold assignShardInfo. rewrite assignLoop_single; [|lia|done|lia|fold total; lia].
  fold kept. cbn [res_bind snd].
  rewrite (proj2 (Z.gtb_lt _ 0)) by lia. change (0 + 1 >? 1) with false. cbn [res_bind mergeRows].
  rewrite app_nil_r. destruct kept as [|k0 kept0]; [done|]. cbn [fmap list_fmap].
  cbn [sizeCluster res_bind wrap_err]. rewrite Z.eqb_refl.
  eexists. split_and!; [reflexivity|done|done].
Qed.

(** Nothing left after the skips: an input folder whose objects are all
    empty or sentinel files, with a positive total size, makes [ShardFileKeys]
    index the first row of an empty slice. *)
Theorem ShardFileKeys_all_skipped `{GoArch} `{SizeSort} sentinelFileName sessionId cc format
    (isMergeFileOnly : bool) copyFrom objs
    (Hskip : Forall (λ o, skipped sentinelFileName o = true) objs)
    (Htotal : totalSize objs ≠ 0) :
  let spec := if isMergeFileOnly then mergeOnlyTier cc (totalSize objs)
              else selectClusterShardingTier (Z.quot (Z.quot (totalSize objs) 1024) 1024) format cc in
  bytesOf (ShardSizeBy spec) (ShardSizeMb spec) ≠ 0 →
  ShardFileKeys sentinelFileName sessionId cc format isMergeFileOnly copyFrom objs []
    = Panic "index out of range [0] with length 0".
Proof.
  intros spec Hspec. unfold ShardFileKeys.
  assert ((length objs =? 0)%nat = false) as -> by (by destruct objs).
  rewrite (proj2 (Z.eqb_neq _ _) Htotal). cbv zeta. fold spec.
  rewrite (proj2 (Z.eqb_neq _ _) Hspec).
  destruct (canSplit (ShardOffset cc) format) as [doSplit isParquet].
  unfold assignShardInfo, assignShardInfoParquet. rewrite !assignLoop_skipped by done.
  rewrite parquetLoop_skipped by (by rewrite sortBySize_perm).
  by destruct isMergeFileOnly, isParquet.
Qed.

Definition demo_cluster : ClusterSpec :=
  mkCluster 100 0 (f64_of_Z 10) (f64_of_Z 20) (S754_zero false) (S754_zero false) 0 10 5 [].

Lemma ShardFileKeys_merge_only_witness :
  ∃ result,
    ShardFileKeys "" "s" demo_cluster "csv" true (λ rows, Ret (Z.of_nat (length rows)))
      [mkObj "a" 100; mkObj "b" 0] [] = Ret result ∧
    nbrShardingNodes result = 1 ∧ registryRows result = [mkRow "s" "a" 100 0 0 0 0].
Proof.
  apply (ShardFileKeys_merge_only "" "s" demo_cluster "csv" [mkObj "a" 100; mkObj "b" 0]).
  - repeat constructor; simpl; lia.
  - by constructor.
  - simpl. lia.
Defined.

Lemma ShardFileKeys_all_skipped_witness :
  ShardFileKeys "_SUCCESS" "s" demo_cluster "csv" false (λ rows, Ret (Z.of_nat (length rows)))
    [mkObj "in/_SUCCESS" 12] [] = Panic "index out of range [0] with length 0".
Proof.
  apply ShardFileKeys_all_skipped; [repeat constructor|vm_compute; discriminate|vm_compute; discriminate].
Defined.
