(* ===== verification/GoValue.v ===== *)
(** * Go values at run time

    The dynamic type [any] of a record field in the compute pipes, [time.Time]
    and [time.Duration], and the conversions of src/jets/utils/conversions.go and
    [NearlyEqual] of src/jets/jetrules/rdf/ast.go.

    A [time.Time] is the pair Go keeps, seconds since year 1 as an [int64] and
    nanoseconds within the second, with its location. *)
From stdpp Require Import base list strings.
From Stdlib Require Import ZArith Lia SpecFloat Ascii.
From S2P Require Import Prelude GoFloat GoText.

(** ** [time] *)

(** The modelled code makes times in these two locations alone. *)
Inductive Location := UTC | Local.

Record Time := mkTime { t_sec : Z; t_nsec : Z; t_loc : Location }.

(** The UTC offset of the machine's zone at an instant, in seconds. *)
Class GoZone := { local_offset : Z → Z }.

Definition unixToInternal : Z := 62135596800.
Definition second : Z := 1000000000.

Definition time_Unix (sec nsec : Z) : Time :=
  let '(sec, nsec) :=
    if (nsec <? 0) || (second <=? nsec) then
      let n := Z.quot nsec second in
      let sec := i64 (sec + n) in
      let nsec := nsec - n * second in
      if nsec <? 0 then (i64 (sec - 1), nsec + second) else (sec, nsec)
    else (sec, nsec) in
  mkTime (i64 (sec + unixToInternal)) nsec Local.

Definition time_toUTC (t : Time) : Time := mkTime (t_sec t) (t_nsec t) UTC.
Definition t_Unix (t : Time) : Z := i64 (t_sec t - unixToInternal).

Definition t_Equal (a b : Time) : bool := (t_sec a =? t_sec b) && (t_nsec a =? t_nsec b).
Definition t_Before (a b : Time) : bool :=
  (t_sec a <? t_sec b) || ((t_sec a =? t_sec b) && (t_nsec a <? t_nsec b)).
Definition t_Compare (a b : Time) : Z :=
  if t_Before a b then -1 else if t_Before b a then 1 else 0.

(** [Time.addSec]: saturates where the [int64] sum overflows. *)
Definition addSec (ext d : Z) : Z :=
  let sum := i64 (ext + d) in
  if Bool.eqb (sum >? ext) (d >? 0) then sum
  else if d >? 0 then two63 - 1 else - (two63 - 1).

Definition t_Add (t : Time) (d : Z) : Time :=
  let dsec := Z.quot d second in
  let nsec := t_nsec t + Z.rem d second in
  let '(dsec, nsec) :=
    if second <=? nsec then (dsec + 1, nsec - second)
    else if nsec <? 0 then (dsec - 1, nsec + second) else (dsec, nsec) in
  mkTime (addSec (t_sec t) dsec) nsec (t_loc t).

Definition maxDuration : Z := two63 - 1.
Definition minDuration : Z := - two63.
Definition t_Sub (t u : Time) : Z :=
  let d := i64 (i64 (i64 (t_sec t - t_sec u) * second) + (t_nsec t - t_nsec u)) in
  if t_Equal (t_Add u d) t then d
  else if t_Before t u then minDuration else maxDuration.

Definition hour : Z := 3600 * second.
(** [Duration.Hours]. *)
Definition d_Hours (d : Z) : float64 :=
  f64_add (f64_of_Z (Z.quot d hour)) (f64_div (f64_of_Z (Z.rem d hour)) (f64_of_Z hour)).

(** [time.Duration(n) * 24 * time.Hour]. *)
Definition days (n : Z) : Z := i64 (i64 (n * 24) * hour).
(** [-d] of a duration. *)
Definition d_neg (d : Z) : Z := i64 (- d).

(** ** Calendar (proleptic Gregorian, years from 0 for March) *)

(** Days since 1970-01-01. *)
Definition days_from_civil (y m d : Z) : Z :=
  let y := if m <=? 2 then y - 1 else y in
  let era := y / 400 in
  let yoe := y mod 400 in
  let doy := (153 * ((m + 9) mod 12) + 2) / 5 + d - 1 in
  let doe := yoe * 365 + yoe / 4 - yoe / 100 + doy in
  era * 146097 + doe - 719468.

Definition civil_from_days (z : Z) : Z * Z * Z :=
  let z := z + 719468 in
  let era := z / 146097 in
  let doe := z mod 146097 in
  let yoe := (doe - doe / 1460 + doe / 36524 - doe / 146096) / 365 in
  let doy := doe - (365 * yoe + yoe / 4 - yoe / 100) in
  let mp := (5 * doy + 2) / 153 in
  let m := if mp <? 10 then mp + 3 else mp - 9 in
  ((if m <=? 2 then yoe + era * 400 + 1 else yoe + era * 400), m, doy - (153 * mp + 2) / 5 + 1).

(** [time.Date(y, m, d, hr, min, sec, nsec, time.UTC)] with [m] in 1..12: the other
    fields are normalised, as Go does. *)
Definition time_Date (y m d hr min sec nsec : Z) : Time :=
  let s := days_from_civil y m 1 * 86400 + (d - 1) * 86400 + hr * 3600 + min * 60 + sec + nsec / second in
  mkTime (i64 (s + unixToInternal)) (nsec mod second) UTC.

Definition zone_offset `{GoZone} (t : Time) : Z :=
  match t_loc t with
  | UTC => 0
  | Local => local_offset (t_sec t - unixToInternal)
  end.
Definition t_civil `{GoZone} (t : Time) : Z * Z * Z :=
  civil_from_days ((t_sec t - unixToInternal + zone_offset t) / 86400).
Definition t_Year `{GoZone} (t : Time) : Z := (t_civil t).1.1.
Definition t_Month `{GoZone} (t : Time) : Z := (t_civil t).1.2.

(** ** Values *)

#[local] Set Warnings "-register-all".

(** [VBytes] is a [[]byte] and [VStrs] a [[]string]. [VSet] is a [map[any]bool] and
    [VStrSet] a [map[string]bool] whose values are all true, given by their keys;
    [VOther] is a value of any other dynamic type, with that type's name. *)
Inductive any :=
| VNil
| VStr (s : string)
| VInt (z : Z) | VInt64 (z : Z) | VInt32 (z : Z)
| VUint (z : Z) | VUint64 (z : Z) | VUint32 (z : Z)
| VF64 (f : float64) | VF32 (f : float64)
| VBool (b : bool)
| VTime (t : Time)
| VSlice (l : list any)
| VSet (keys : list any)
| VBytes (s : string)
| VStrs (l : list string)
| VStrSet (keys : list string)
| VOther (type : string).

Definition is_nil (v : any) : bool := match v with VNil => true | _ => false end.

Definition time_wf (t : Time) : bool :=
  bool_decide (in_i64 (t_sec t)) && (0 <=? t_nsec t) && (t_nsec t <? second).

(** The integers of a value are at their width. *)
Fixpoint any_wf (v : any) : bool :=
  match v with
  | VInt z | VInt64 z => bool_decide (in_i64 z)
  | VInt32 z => (- 2 ^ 31 <=? z) && (z <? 2 ^ 31)
  | VUint z | VUint64 z => bool_decide (in_u64 z)
  | VUint32 z => (0 <=? z) && (z <? 2 ^ 32)
  | VTime t => time_wf t
  | VSlice l | VSet l => forallb any_wf l
  | _ => true
  end.

(** ** Conversions (utils/conversions.go)

    The message of an error is the constant part of its format. *)

Section conversions.
Context `{GoArch}.

Definition String2Int (s : string) : res Z :=
  match Atoi s with
  | Some v => Ret v
  | None =>
      match ParseFloat s with
      | None => Fail "error parsing as int value, also error parsing as float"
      | Some fv =>
          if f64_is_nan fv || f64_is_inf fv
          then Fail "error parsing as int value, also error parsing as float: value is NaN or Inf"
          else Ret (f64_to_i64 fv)
      end
  end.

Definition String2Double (s : string) : res float64 :=
  match ParseFloat s with
  | None => Fail "error parsing as double value"
  | Some v => Ret v
  end.

Definition String2UInt (s : string) : res Z :=
  match ParseUint s with
  | Some v => Ret v
  | None =>
      match ParseFloat s with
      | None => Fail "error parsing as uint value, also error parsing as float"
      | Some fv =>
          if f64_is_nan fv || f64_is_inf fv
          then Fail "error parsing as uint value, also error parsing as float: value is NaN or Inf"
          else Ret (f64_to_u64 fv)
      end
  end.

Definition ToInt (value : any) : res Z :=
  match value with
  | VUint64 v | VUint v => Ret (i64 v)
  | VUint32 v | VInt v | VInt64 v | VInt32 v => Ret v
  | VF64 v | VF32 v => Ret (f64_to_i64 v)
  | VStr s => String2Int s
  | _ => Fail "unsupported type"
  end.

Lemma String2Int_range s z : String2Int s = Ret z → in_i64 z.
Proof.
  unfold String2Int. destruct (Atoi s) eqn:?; [intros [= <-]; eauto with go|].
  destruct (ParseFloat s); [case_match|]; [done|intros [= <-]; eauto with go|done].
Qed.
Lemma String2UInt_range s z : String2UInt s = Ret z → in_u64 z.
Proof.
  unfold String2UInt. destruct (ParseUint s) eqn:?; [intros [= <-]; eauto with go|].
  destruct (ParseFloat s); [case_match|]; [done|intros [= <-]; eauto with go|done].
Qed.
End conversions.
#[export] Hint Resolve String2Int_range String2UInt_range : go.

(** ** [rdf.NearlyEqual] *)

Definition f64_0 : float64 := S754_zero false.
Definition f64_1em10 : float64 := f64_of_decimal false 1 (-10).
Definition smallestNonzero : float64 := S754_finite false 1 (-1074).
(** [1e-10*math.SmallestNonzeroFloat64] is a constant expression, below half of
    the smallest double: it rounds to zero. *)
Definition tinyConst : float64 := f64_0.

Definition NearlyEqual (a b : float64) : bool :=
  if f64_eq a b then true
  else
    let diff := f64_abs (f64_sub a b) in
    if f64_eq a f64_0 || f64_eq b f64_0 || f64_lt diff smallestNonzero
    then f64_lt diff tinyConst
    else f64_lt (f64_div diff (f64_add (f64_abs a) (f64_abs b))) f64_1em10.

Lemma NearlyEqual_comm a b : NearlyEqual a b = NearlyEqual b a.
Proof.
  unfold NearlyEqual. rewrite (f64_eq_comm a b), (f64_sub_abs_comm a b).
  by rewrite (f64_add_comm (f64_abs a)), (orb_comm (f64_eq a _)).
Qed.

(** ** Formatting *)

(** [fmt] and [time] formatting of the values whose text is not decimal, and
    [strconv.FormatFloat(f, 'f', -1, 64)], and with 32. *)
Class GoFmt := {
  sprint_other : any → string;
  sprintf : string → list any → string;
  time_Format : Time → string → string;
  FormatFloat : float64 → string;
  FormatFloat32 : float64 → string;
}.

(** [fmt.Sprintf("%v", v)]. *)
Definition sprint_v `{GoFmt} (v : any) : string :=
  match v with
  | VStr s => s
  | VInt z | VInt64 z | VInt32 z | VUint z | VUint64 z | VUint32 z => Itoa z
  | VBool b => if b then "true" else "false"
  | VNil => "<nil>"
  | _ => sprint_other v
  end.

(** ** Facts on times *)

Lemma addSec_range ext d : in_i64 (addSec ext d).
Proof. unfold addSec. repeat case_match; eauto with go; width; lia. Qed.

Lemma time_wf_iff t : time_wf t = true ↔ in_i64 (t_sec t) ∧ 0 ≤ t_nsec t < second.
Proof. unfold time_wf. rewrite !andb_true_iff, bool_decide_eq_true, Z.leb_le, Z.ltb_lt. tauto. Qed.

Lemma t_Add_wf t d : time_wf t = true → time_wf (t_Add t d) = true.
Proof.
  rewrite !time_wf_iff. intros [_ Hn]. unfold t_Add.
  pose proof (Z.rem_bound_abs d second ltac:(done)) as Hr. unfold second in *.
  destruct (Z.leb_spec 1000000000 (t_nsec t + Z.rem d 1000000000));
    [|destruct (Z.ltb_spec (t_nsec t + Z.rem d 1000000000) 0)]; simpl; (split; [apply addSec_range|lia]).
Qed.

Lemma time_Unix_wf sec nsec : time_wf (time_Unix sec nsec) = true.
Proof.
  rewrite time_wf_iff. unfold time_Unix, second.
  pose proof (Z.quot_rem' nsec 1000000000). pose proof (Z.rem_bound_abs nsec 1000000000 ltac:(done)).
  destruct (Z.ltb_spec nsec 0), (Z.leb_spec 1000000000 nsec); cbn [orb];
    try destruct (Z.ltb_spec (nsec - Z.quot nsec 1000000000 * 1000000000) 0);
    simpl; (split; [apply i64_range|lia]).
Qed.

Lemma time_Date_wf y m d hr min sec nsec : time_wf (time_Date y m d hr min sec nsec) = true.
Proof.
  rewrite time_wf_iff. pose proof (Z.mod_pos_bound nsec second ltac:(done)).
  simpl. split; [apply i64_range|lia].
Qed.
#[export] Hint Resolve addSec_range t_Add_wf time_Unix_wf time_Date_wf : go.

Lemma t_Equal_comm a b : t_Equal a b = t_Equal b a.
Proof. unfold t_Equal. by rewrite (Z.eqb_sym (t_sec a)), (Z.eqb_sym (t_nsec a)). Qed.

Example calendar_tests :
  (civil_from_days (days_from_civil 2024 2 29), civil_from_days (-1), days_from_civil 1 1 1)
  = ((2024, 2, 29), (1969, 12, 31), -719162) ∧
  t_Unix (time_Date 2000 2 31 0 0 0 0) = t_Unix (time_Date 2000 3 2 0 0 0 0).
Proof. vm_compute. split; reflexivity. Qed.
