(* ===== verification/Records.v ===== *)
(** * Records and channels

    A record is a slice of dynamic values, read and written by position. The
    channels of src/jets/compute_pipes/pipesmodel/model.go, without the Go channel
    they carry: what the operators read of a channel is its columns and domain keys. *)
From stdpp Require Import base list strings gmap.
From Stdlib Require Import ZArith Lia Ascii.
From S2P Require Import Prelude GoText GoTextLaws GoValue.

(** ** Positions *)

Abbreviation record := (list any).

Definition out_of_range : string := "runtime error: index out of range".
Definition in_range (row : record) (pos : Z) : bool := (0 <=? pos) && (pos <? Z.of_nat (length row)).

(** [row[pos]] *)
Definition at_pos (row : record) (pos : Z) : res any :=
  if in_range row pos then Ret (default VNil (row !! Z.to_nat pos)) else Panic out_of_range.
(** [row[pos] = v] *)
Definition set_pos (row : record) (pos : Z) (v : any) : res record :=
  if in_range row pos then Ret (<[Z.to_nat pos := v]> row) else Panic out_of_range.

(** [make([]any, n)] *)
Definition new_record (n : nat) : record := repeat VNil n.

Lemma in_range_iff row pos : in_range row pos = true ↔ 0 ≤ pos < Z.of_nat (length row).
Proof. unfold in_range. rewrite andb_true_iff, Z.leb_le, Z.ltb_lt. done. Qed.

Lemma at_pos_lookup row pos v : row !! Z.to_nat pos = Some v → 0 ≤ pos → at_pos row pos = Ret v.
Proof.
  intros Hv Hp. unfold at_pos. assert (Hr : in_range row pos = true).
  { apply in_range_iff. apply lookup_lt_Some in Hv. lia. }
  by rewrite Hr, Hv.
Qed.
Lemma at_pos_Ret row pos v : at_pos row pos = Ret v → 0 ≤ pos ∧ row !! Z.to_nat pos = Some v.
Proof.
  unfold at_pos. destruct (in_range row pos) eqn:Hr; [|done]. intros [= <-]. apply in_range_iff in Hr.
  split; [lia|]. destruct (lookup_lt_is_Some_2 row (Z.to_nat pos)) as [v Hv]; [lia|]. by rewrite Hv.
Qed.
Lemma set_pos_in row pos v : in_range row pos = true → set_pos row pos v = Ret (<[Z.to_nat pos := v]> row).
Proof. unfold set_pos. by intros ->. Qed.
Lemma at_pos_in row pos : in_range row pos = true → ∃ v, at_pos row pos = Ret v.
Proof. unfold at_pos. intros ->. eauto. Qed.
Lemma in_range_insert row i v pos : in_range (<[i := v]> row) pos = in_range row pos.
Proof. unfold in_range. by rewrite length_insert. Qed.
Lemma at_pos_insert_eq row pos v : in_range row pos = true → at_pos (<[Z.to_nat pos := v]> row) pos = Ret v.
Proof.
  intros Hr. unfold at_pos. rewrite in_range_insert, Hr. apply in_range_iff in Hr.
  rewrite list_lookup_insert_eq by lia. done.
Qed.
Lemma at_pos_insert_ne row pos pos' v : 0 ≤ pos → 0 ≤ pos' → pos ≠ pos' → at_pos (<[Z.to_nat pos := v]> row) pos' = at_pos row pos'.
Proof.
  intros ???. unfold at_pos. rewrite in_range_insert. destruct (in_range row pos'); [|done].
  by rewrite list_lookup_insert_ne by lia.
Qed.

(** ** Channels *)

(** The key expressions of the domain keys, by object type. *)
Record DomainKeysSpec := mkDomainKeys { HashingOverride : string; DomainKeys : gmap string (list string) }.

Record InputChannel := mkInput {
  ic_Name : string; ic_Columns : gmap string Z; ic_DomainKeySpec : option DomainKeysSpec;
  ic_ConfigColumns : list string; ic_ClassName : string }.
Record OutputChannel := mkOutput {
  oc_Name : string; oc_Columns : gmap string Z; oc_ConfigColumns : list string; oc_ClassName : string }.

(** ** [%0nd] of [fmt] *)
Fixpoint zeros (n : nat) : string := match n with O => EmptyString | S n => String "0" (zeros n) end.
Definition pad0 (width : nat) (s : string) : string := zeros (width - String.length s) +:+ s.
Lemma digits_val_zeros k s : digits_val 0 (zeros k +:+ s) = digits_val 0 s.
Proof. induction k as [|k IH]; [done|]. cbn [zeros]. rewrite str_app_cons. cbn [digits_val]. exact IH. Qed.
Lemma digits_zeros k s : str_all is_digit (zeros k +:+ s) = str_all is_digit s.
Proof. induction k as [|k IH]; [done|]. exact IH. Qed.
Definition fmt_0d (width : nat) (z : Z) : string :=
  if z <? 0 then String "-" (pad0 (width - 1) (Itoa (- z))) else pad0 width (Itoa z).
