(* ===== verification/DateParser.v ===== *)
(** * Dates in text

    Models src/jets/jetrules/rdf/datetime_parser.go: the three regular
    expressions as leftmost-first backtracking matchers, the reading of their
    groups and the checks on year, month and day. *)
From stdpp Require Import base list strings.
From Stdlib Require Import ZArith Lia Ascii.
From S2P Require Import Prelude GoFloat GoText GoTextLaws GoValue.

(** ** Matchers

    A matcher lists its matches at the head of a string in the order the
    engine prefers them. *)

Fixpoint digit_run (n : nat) (s : string) : nat :=
  match n, s with
  | S k, String c r => if is_digit c then S (digit_run k r) else O
  | _, _ => O
  end.

(** The prefixes of [s] of [k], [k-1], ..., 1 bytes, each with what follows. *)
Fixpoint prefixes_desc (k : nat) (s : string) : list (string * string) :=
  match k with
  | O => []
  | S j => (str_take k s, str_drop k s) :: prefixes_desc j s
  end.

(** [\d{1,n}] *)
Definition digit_toks (n : nat) (s : string) : list (string * string) :=
  prefixes_desc (digit_run n s) s.

(** [c?] *)
Definition opt_byte (c : ascii) (s : string) : list string :=
  match s with
  | String x r => if ascii_dec x c then [r; s] else [s]
  | EmptyString => [s]
  end.

Definition month_names : list string :=
  ["JAN"; "FEB"; "MAR"; "APR"; "MAY"; "JUN"; "JUL"; "AUG"; "SEP"; "OCT"; "NOV"; "DEC"]%string.

(** [JAN|...|DEC|\d{1,2}] *)
Definition month_toks (s : string) : list (string * string) :=
  ((λ m, (m, str_drop 3 s)) <$> List.filter (λ m, HasPrefix s m) month_names) ++ digit_toks 2 s.

Definition sep_toks (s : string) : list string := opt_byte "-" s ≫= opt_byte "/".

(** The three groups of the date at the head of [s], and what follows. *)
Definition date_at (s : string) : list (string * string * string * string) :=
  digit_toks 4 s ≫= λ '(t1, s1),
  sep_toks s1 ≫= λ s2,
  month_toks s2 ≫= λ '(t2, s3),
  sep_toks s3 ≫= λ s4,
  (λ '(t3, s5), (t1, t2, t3, s5)) <$> digit_toks 4 s4.

Fixpoint dateRe (s : string) : option (string * string * string * string) :=
  match date_at s with
  | m :: _ => Some m
  | [] => match s with
          | EmptyString => None
          | String _ r => dateRe r
          end
  end.

Definition dateStrictRe (s : string) : option (string * string * string * string) :=
  List.find (λ m, String.eqb m.2 EmptyString) (date_at s).

(** An optional class [\[...\]?] and an optional group [(\d{1,n})?], greedy: what
    follows them in [datetimeRe] always matches, so the first choice is kept. *)
Definition skip_class (cls : list ascii) (s : string) : string * string :=
  match s with
  | String x r => if existsb (λ c, bool_decide (x = c)) cls then (String x EmptyString, r) else (EmptyString, s)
  | EmptyString => (EmptyString, s)
  end.
Definition opt_digits (n : nat) (s : string) : string * string :=
  let k := digit_run n s in (str_take k s, str_drop k s).

Definition ascii_n (n : N) : ascii := ascii_of_N n.
Definition space_class : list ascii := ascii_n <$> [9; 10; 12; 13; 32]%N.

(** The groups 4 to 10 of [datetimeRe], read after the date. *)
Record TimeToks := mkToks {
  tk_hr : string; tk_min : string; tk_sec : string; tk_frac : string;
  tk_sign : string; tk_zhr : string; tk_zmin : string }.

Definition time_toks (s : string) : TimeToks :=
  let '(_, s) := skip_class ["T"; "-"]%char s in
  let '(_, s) := skip_class space_class s in
  let '(hr, s) := opt_digits 2 s in
  let '(_, s) := skip_class [":"; "."]%char s in
  let '(min, s) := opt_digits 2 s in
  let '(_, s) := skip_class [":"; "."]%char s in
  let '(sec, s) := opt_digits 2 s in
  let '(_, s) := skip_class ["."; ","]%char s in
  let '(frac, s) := opt_digits (String.length s) s in
  let '(_, s) := skip_class space_class s in
  let '(sign, s) := skip_class ["+"; "-"]%char s in
  let '(zhr, s) := opt_digits 2 s in
  let '(_, s) := skip_class [":"; "."]%char s in
  let '(zmin, s) := opt_digits 2 s in
  mkToks hr min sec frac sign zhr zmin.

(** ** Components *)

Definition month2Int (month : string) : res Z :=
  if (String.length month =? 3)%nat then
    match list_find (λ m, m = month) month_names with
    | Some (i, _) => Ret (Z.of_nat i + 1)
    | None => Fail "error: is not a month"
    end
  else match Atoi month with Some m => Ret m | None => Fail "strconv.Atoi" end.

Definition atoi_or (msg s : string) : res Z :=
  match Atoi s with Some v => Ret v | None => Fail msg end.

Definition validateYMD (y m d : Z) : res unit :=
  if (y <? 0) || (y >? 9999) then Fail "ParseDate: error, invalid year"
  else if (m <? 1) || (m >? 12) then Fail "ParseDate: error, invalid month"
  else if (d <? 1) || (d >? 31) then Fail "ParseDate: error, invalid day"
  else Ret tt.

(** The reading of the tokens, shared by dates and datetimes; [who] starts the
    messages. *)
Definition readYMD (who token1 token2 token3 : string) : res (Z * Z * Z) :=
  if (String.length token1 =? 4)%nat then
    let! y := atoi_or (who +:+ ": error parsing the year") token1 in
    let! m := wrap_err (who +:+ ": error parsing the month") (month2Int token2) in
    let! d := atoi_or (who +:+ ": error parsing the day") token3 in
    Ret (y, m, d)
  else
    let! y := atoi_or (who +:+ ": error parsing the year") token3 in
    let! m := wrap_err (who +:+ ": error parsing the month") (month2Int token1) in
    let! d := atoi_or (who +:+ ": error parsing the day") token2 in
    Ret (y, m, d).

Definition getDateComponents (token1 token2 token3 : string) : res (Z * Z * Z) :=
  let! r := readYMD "ParseDate" token1 token2 token3 in
  let '(y, m, d) := r in
  let! _ := validateYMD y m d in
  Ret (y, m, d).

Section parse.
Context `{GoUnicode}.

(** [ParseDateComponents] and [ParseDateStrictComponents] differ in the regular
    expression alone. *)
Definition components_of (re : string → option (string * string * string * string)) (date : string)
  : res (Z * Z * Z) :=
  match re (ToUpper date) with
  | None => Fail "ParseDate: Argument is not a date"
  | Some (token1, token2, token3, _) =>
      let! r := getDateComponents token1 token2 token3 in
      let '(y, m, d) := r in
      let! _ := validateYMD y m d in
      Ret (y, m, d)
  end.
Definition ParseDateComponents : string → res (Z * Z * Z) := components_of dateRe.
Definition ParseDateStrictComponents : string → res (Z * Z * Z) := components_of dateStrictRe.

Definition date_with (comps : string → res (Z * Z * Z)) (date : string) : res Time :=
  if (String.length date <? 8)%nat
  then Fail "ParseDate: Argument is not in a valid date format (min 8 char)"
  else
    let! r := comps date in
    let '(y, m, d) := r in
    Ret (time_Date y m d 0 0 0 0).
Definition ParseDate : string → res Time := date_with ParseDateComponents.
Definition ParseDateStrict : string → res Time := date_with ParseDateStrictComponents.

(** A group that did not take part in the match is the empty string: its field
    keeps its zero value. *)
Definition opt_atoi (msg s : string) : res Z :=
  if (String.length s =? 0)%nat then Ret 0 else atoi_or msg s.

Definition precision : nat := 9.

Definition fraction (frac : string) : res Z :=
  if (String.length frac =? 0)%nat then Ret 0
  else
    let fracStr := if (precision <=? String.length frac)%nat then str_take precision frac else frac in
    let! v := atoi_or "ParseDatetime: error parsing the fraction" fracStr in
    Ret (if (String.length fracStr <? precision)%nat
         then v * 10 ^ Z.of_nat (precision - String.length fracStr) else v).

Definition ParseDatetime (datetime : string) : res Time :=
  match dateRe (ToUpper datetime) with
  | None => Fail "ParseDatetime: Argument is not a datetime"
  | Some (token1, token2, token3, rest) =>
      let tk := time_toks rest in
      let! r := readYMD "ParseDatetime" token1 token2 token3 in
      let '(y, m, d) := r in
      let! _ := validateYMD y m d in
      if (String.length (tk_hr tk) =? 0)%nat then Ret (time_Date y m d 0 0 0 0)
      else
        let! hr := opt_atoi "ParseDatetime: error parsing the hours" (tk_hr tk) in
        let! min := opt_atoi "ParseDatetime: error parsing the minutes" (tk_min tk) in
        let! sec := opt_atoi "ParseDatetime: error parsing the seconds" (tk_sec tk) in
        let! frac := fraction (tk_frac tk) in
        let! hm :=
          if (String.length (tk_zhr tk) =? 0)%nat then Ret (hr, min)
          else
            let! ho := atoi_or "ParseDatetime: error parsing the timezone hours" (tk_zhr tk) in
            let! mo := opt_atoi "ParseDatetime: error parsing the timezone minutes" (tk_zmin tk) in
            Ret (if String.eqb (tk_sign tk) "-" then (hr + ho, min + mo) else (hr - ho, min - mo)) in
        Ret (time_Date y m d hm.1 hm.2 sec frac)
  end.
End parse.

(** The calendar of a machine without the Unicode tables, for evaluation. *)
#[global] Instance ascii_unicode : GoUnicode := 
  {| unicode_upper := str_map ascii_upper; unicode_lower := str_map ascii_lower |}.

Example date_tests :
  (ParseDate "2024-02-29", ParseDate "02/29/2024", ParseDate "2024-feb-29", ParseDate "20240229",
   ParseDate "29-FEB-2024", ParseDateStrict "x2024-02-29", ParseDate "x 2024-02-29 y",
   ParseDatetime "2024-02-29T12:30:15.25-02:30")
  = (Ret (time_Date 2024 2 29 0 0 0 0), Ret (time_Date 2024 2 29 0 0 0 0), Ret (time_Date 2024 2 29 0 0 0 0),
     Ret (time_Date 2024 2 29 0 0 0 0), Fail "ParseDate: error parsing the day",
     Fail "ParseDate: Argument is not a date", Ret (time_Date 2024 2 29 0 0 0 0),
     Ret (time_Date 2024 2 29 15 0 15 250000000)).
Proof. vm_compute. reflexivity. Qed.

(** ** Correctness *)

(** The decimal digit [k], and the text YYYY-MM-DD. *)
Definition dchar (k : Z) : ascii := ascii_of_N (Z.to_N (48 + k)).
Definition iso_date (y m d : Z) : string :=
  String (dchar (y / 1000)) (String (dchar (y / 100 mod 10)) (String (dchar (y / 10 mod 10)) (String (dchar (y mod 10))
  (String "-" (String (dchar (m / 10)) (String (dchar (m mod 10))
  (String "-" (String (dchar (d / 10)) (String (dchar (d mod 10)) EmptyString))))))))).

Lemma dchar_spec k : 0 ≤ k ≤ 9 → is_digit (dchar k) = true ∧ digit_val (dchar k) = k.
Proof.
  intros Hk. assert (k = 0 ∨ k = 1 ∨ k = 2 ∨ k = 3 ∨ k = 4 ∨ k = 5 ∨ k = 6 ∨ k = 7 ∨ k = 8 ∨ k = 9) by lia.
  by repeat destruct H as [->|H]; try subst k.
Qed.

(** A digit is its own upper case and starts no month name. *)
Lemma digit_upper c : is_digit c = true → ascii_upper c = c ∧ (byte_of c <? 128) = true.
Proof.
  unfold is_digit, ascii_upper, between. rewrite andb_true_iff, !Z.leb_le. intros [Hlo Hhi].
  destruct (Z.leb_spec 97 (byte_of c)); [lia|]. split; [done|]. apply Z.ltb_lt. lia.
Qed.

Lemma digit_no_month c r : is_digit c = true →
  List.filter (λ m, HasPrefix (String c r) m) month_names = [].
Proof.
  intros Hc. unfold HasPrefix, month_names. cbn [List.filter String.prefix].
  repeat match goal with |- context [ascii_dec ?m c] => destruct (ascii_dec m c) as [<-|_]; [discriminate|] end. done.
Qed.

(** The match the engine prefers. *)
Definition prefers {A} (l : list A) (x : A) : Prop := head l = Some x.

Lemma prefers_bind {A B} (l : list A) (f : A → list B) x y :
  prefers l x → prefers (f x) y → prefers (l ≫= f) y.
Proof. unfold prefers. destruct l as [|z l]; [done|]. intros [= ->] Hy. simpl. by destruct (f x). Qed.
Lemma prefers_fmap {A B} (l : list A) (f : A → B) x : prefers l x → prefers (f <$> l) (f x).
Proof. unfold prefers. destruct l; [done|]. by intros [= ->]. Qed.

Lemma sep_toks_dash c r : is_digit c = true → prefers (sep_toks (String "-" (String c r))) (String c r).
Proof. intros Hc. unfold sep_toks, prefers. simpl. by destruct (ascii_dec c "/") as [->|_]. Qed.

Lemma digit_toks_2 n a b r :
  is_digit a = true → is_digit b = true → match r with String x _ => is_digit x = false | _ => True end →
  prefers (digit_toks (S (S n)) (String a (String b r))) (String a (String b EmptyString), r).
Proof.
  intros Ha Hb Hr. unfold digit_toks, prefers. simpl. rewrite Ha, Hb.
  destruct n, r; simpl; [done|done|done|]. by rewrite Hr.
Qed.

Lemma digit_toks_4 a b c e r :
  is_digit a = true → is_digit b = true → is_digit c = true → is_digit e = true →
  prefers (digit_toks 4 (String a (String b (String c (String e r)))))
    (String a (String b (String c (String e EmptyString))), r).
Proof. intros Ha Hb Hc He. unfold digit_toks, prefers. simpl. by rewrite Ha, Hb, Hc, He. Qed.

Lemma month_toks_2 a b r :
  is_digit a = true → is_digit b = true → match r with String x _ => is_digit x = false | _ => True end →
  prefers (month_toks (String a (String b r))) (String a (String b EmptyString), r).
Proof. intros Ha Hb Hr. unfold month_toks. rewrite digit_no_month by done. by apply digit_toks_2. Qed.

Lemma date_at_iso a b c e f g h i :
  Forall (λ x, is_digit x = true) [a; b; c; e; f; g; h; i] →
  prefers (date_at (String a (String b (String c (String e (String "-" (String f (String g
             (String "-" (String h (String i EmptyString)))))))))))
    (String a (String b (String c (String e EmptyString))), String f (String g EmptyString),
     String h (String i EmptyString), EmptyString).
Proof.
  rewrite !Forall_cons. intros (?&?&?&?&?&?&?&?&_). unfold date_at.
  eapply prefers_bind; [by apply digit_toks_4|]. eapply prefers_bind; [by apply sep_toks_dash|].
  eapply prefers_bind; [by apply month_toks_2|]. eapply prefers_bind; [by apply sep_toks_dash|].
  refine (prefers_fmap _ _ (_, _) _). by apply (digit_toks_2 2).
Qed.

(** ** The calendar *)

Definition is_leap (y : Z) : bool :=
  (y mod 4 =? 0) && (negb (y mod 100 =? 0) || (y mod 400 =? 0)).
Definition days_in_month (y m : Z) : Z :=
  if m =? 2 then if is_leap y then 29 else 28
  else if (m =? 4) || (m =? 6) || (m =? 9) || (m =? 11) then 30 else 31.

(** The year of the era, [100a + 4b + c], is recovered from the day of the era;
    day 365 of a year that starts in March exists when the next one is leap. *)
Lemma year_of_era a b c doy :
  0 ≤ a ≤ 3 → 0 ≤ b ≤ 24 → 0 ≤ c ≤ 3 → 0 ≤ doy ≤ 365 → (doy = 365 → c = 3 ∧ (b = 24 → a = 3)) →
  let doe := 36524 * a + 1461 * b + 365 * c + doy in
  0 ≤ doe < 146097 ∧
  (doe - doe / 1460 + doe / 36524 - doe / 146096) / 365 = 100 * a + 4 * b + c.
Proof.
  intros Ha Hb Hc Hd Hl doe. split; [lia|].
  assert (a = 0 ∨ a = 1 ∨ a = 2 ∨ a = 3) as Ea by lia.
  assert (c = 0 ∨ c = 1 ∨ c = 2 ∨ c = 3) as Ec by lia. subst doe.
  destruct Ea as [->|[->|[->| ->]]]; destruct Ec as [->|[->|[->| ->]]];
    Z.to_euclidean_division_equations; lia.
Qed.

(** The month and the day of the month are recovered from the day of the year. *)
Lemma month_of_year y m d : 1 ≤ m ≤ 12 → 1 ≤ d ≤ days_in_month y m →
  let mp := (m + 9) mod 12 in
  let doy := (153 * mp + 2) / 5 + d - 1 in
  0 ≤ doy ≤ 365 ∧ (doy = 365 → m = 2 ∧ is_leap y = true) ∧
  (5 * doy + 2) / 153 = mp ∧ (if mp <? 10 then mp + 3 else mp - 9) = m ∧
  doy - (153 * mp + 2) / 5 + 1 = d.
Proof.
  intros Hm Hd. unfold days_in_month in Hd.
  assert (m = 1 ∨ m = 2 ∨ m = 3 ∨ m = 4 ∨ m = 5 ∨ m = 6 ∨ m = 7 ∨ m = 8 ∨ m = 9 ∨ m = 10 ∨ m = 11 ∨ m = 12)
    as Em by lia.
  repeat destruct Em as [->|Em]; try subst m; cbn [Z.eqb Pos.eqb orb] in Hd;
    destruct (is_leap y) eqn:Hy; cbv zeta; simpl (_ mod 12);
    (split_and!; [Z.to_euclidean_division_equations; lia.. |done|Z.to_euclidean_division_equations; lia]).
Qed.

(** The day count and the calendar date are inverse on the days that exist. *)
Lemma calendar_inverse y m d : 1 ≤ m ≤ 12 → 1 ≤ d ≤ days_in_month y m →
  civil_from_days (days_from_civil y m d) = (y, m, d).
Proof.
  intros Hm Hd. destruct (month_of_year y m d Hm Hd) as (Hdoy & Hleap & Hmp & Hmm & Hdd).
  unfold days_from_civil, civil_from_days. cbv zeta.
  set (doy := (153 * ((m + 9) mod 12) + 2) / 5 + d - 1) in *.
  set (y' := if m <=? 2 then y - 1 else y). set (yoe := y' mod 400).
  destruct (year_of_era (yoe / 100) (yoe mod 100 / 4) (yoe mod 4) doy) as [Hdoe Hyoe];
    [subst yoe; Z.to_euclidean_division_equations; lia..|lia| |].
  { intros [-> Hl]%Hleap. subst yoe y'. simpl. unfold is_leap in Hl. clear -Hl.
    destruct (Z.eqb_spec (y mod 4) 0), (Z.eqb_spec (y mod 100) 0), (Z.eqb_spec (y mod 400) 0);
      try done; Z.to_euclidean_division_equations; lia. }
  replace (36524 * (yoe / 100) + 1461 * (yoe mod 100 / 4) + 365 * (yoe mod 4) + doy)
    with (yoe * 365 + yoe / 4 - yoe / 100 + doy) in * by (subst yoe; Z.to_euclidean_division_equations; lia).
  set (doe := yoe * 365 + yoe / 4 - yoe / 100 + doy) in *.
  replace (y' / 400 * 146097 + doe - 719468 + 719468) with (doe + y' / 400 * 146097) by lia.
  rewrite Z.div_add, Z.mod_add by lia. rewrite (Z.div_small doe), (Z.mod_small doe) by lia.
  rewrite Hyoe. replace (100 * (yoe / 100) + 4 * (yoe mod 100 / 4) + yoe mod 4) with yoe
    by (subst yoe; Z.to_euclidean_division_equations; lia).
  replace (doe - (365 * yoe + yoe / 4 - yoe / 100)) with doy by (subst doe; lia).
  rewrite Hmp, Hmm, Hdd. subst yoe y'. f_equal. f_equal.
  destruct (Z.leb_spec m 2); Z.to_euclidean_division_equations; lia.
Qed.

Lemma iso_digits y m d : 0 ≤ y ≤ 9999 → 1 ≤ m ≤ 12 → 1 ≤ d ≤ 31 →
  Forall (λ k, 0 ≤ k ≤ 9) [y / 1000; y / 100 mod 10; y / 10 mod 10; y mod 10; m / 10; m mod 10; d / 10; d mod 10].
Proof. intros. repeat constructor; Z.to_euclidean_division_equations; lia. Qed.

Lemma iso_date_match `{GoUnicode} y m d : 0 ≤ y ≤ 9999 → 1 ≤ m ≤ 12 → 1 ≤ d ≤ 31 →
  let tok1 := String (dchar (y / 1000)) (String (dchar (y / 100 mod 10))
                (String (dchar (y / 10 mod 10)) (String (dchar (y mod 10)) EmptyString))) in
  let tok2 := String (dchar (m / 10)) (String (dchar (m mod 10)) EmptyString) in
  let tok3 := String (dchar (d / 10)) (String (dchar (d mod 10)) EmptyString) in
  ToUpper (iso_date y m d) = iso_date y m d ∧
  dateRe (iso_date y m d) = Some (tok1, tok2, tok3, EmptyString) ∧
  dateStrictRe (iso_date y m d) = Some (tok1, tok2, tok3, EmptyString).
Proof.
  intros Hy Hm Hd tok1 tok2 tok3. pose proof (iso_digits y m d Hy Hm Hd) as Hdig.
  rewrite !Forall_cons in Hdig. destruct Hdig as (H1&H2&H3&H4&H5&H6&H7&H8&_).
  apply dchar_spec in H1 as [H1 _], H2 as [H2 _], H3 as [H3 _], H4 as [H4 _],
    H5 as [H5 _], H6 as [H6 _], H7 as [H7 _], H8 as [H8 _].
  pose proof (date_at_iso _ _ _ _ _ _ _ _
    ltac:(repeat constructor; [exact H1|exact H2|exact H3|exact H4|exact H5|exact H6|exact H7|exact H8])) as Hat.
  split; [|split].
  - apply digit_upper in H1 as [U1 A1], H2 as [U2 A2], H3 as [U3 A3], H4 as [U4 A4],
      H5 as [U5 A5], H6 as [U6 A6], H7 as [U7 A7], H8 as [U8 A8].
    unfold ToUpper, isASCII, iso_date. cbn [str_all str_map].
    rewrite A1, A2, A3, A4, A5, A6, A7, A8, U1, U2, U3, U4, U5, U6, U7, U8. done.
  - unfold prefers in Hat. fold (iso_date y m d) in Hat. unfold dateRe. unfold iso_date at 1.
    fold (iso_date y m d). destruct (date_at (iso_date y m d)); [done|]. by injection Hat as ->.
  - unfold prefers in Hat. unfold dateStrictRe. fold (iso_date y m d) in Hat.
    destruct (date_at (iso_date y m d)); [done|]. by injection Hat as ->.
Qed.

Lemma Atoi_digits2 a b : 0 ≤ a ≤ 9 → 0 ≤ b ≤ 9 →
  Atoi (String (dchar a) (String (dchar b) EmptyString)) = Some (a * 10 + b).
Proof.
  intros Ha Hb. unfold Atoi.
  assert (parse_signed (String (dchar a) (String (dchar b) EmptyString)) = Some (a * 10 + b)) as ->;
    [|rewrite bool_decide_eq_true_2; [done|width; lia]].
  apply dchar_spec in Ha as [Da Va], Hb as [Db Vb]. rewrite parse_signed_digit by done.
  simpl. by rewrite Da, Db, Va, Vb.
Qed.

Lemma Atoi_digits4 a b c e : 0 ≤ a ≤ 9 → 0 ≤ b ≤ 9 → 0 ≤ c ≤ 9 → 0 ≤ e ≤ 9 →
  Atoi (String (dchar a) (String (dchar b) (String (dchar c) (String (dchar e) EmptyString))))
    = Some (((a * 10 + b) * 10 + c) * 10 + e).
Proof.
  intros Ha Hb Hc He. unfold Atoi.
  assert (parse_signed (String (dchar a) (String (dchar b) (String (dchar c) (String (dchar e) EmptyString))))
    = Some (((a * 10 + b) * 10 + c) * 10 + e)) as ->; [|rewrite bool_decide_eq_true_2; [done|width; lia]].
  apply dchar_spec in Ha as [Da Va], Hb as [Db Vb], Hc as [Dc Vc], He as [De Ve].
  rewrite parse_signed_digit by done. simpl. by rewrite Da, Db, Dc, De, Va, Vb, Vc, Ve.
Qed.

Lemma iso_components who y m d : 0 ≤ y ≤ 9999 → 1 ≤ m ≤ 12 → 1 ≤ d ≤ 31 →
  readYMD who
    (String (dchar (y / 1000)) (String (dchar (y / 100 mod 10))
       (String (dchar (y / 10 mod 10)) (String (dchar (y mod 10)) EmptyString))))
    (String (dchar (m / 10)) (String (dchar (m mod 10)) EmptyString))
    (String (dchar (d / 10)) (String (dchar (d mod 10)) EmptyString)) = Ret (y, m, d).
Proof.
  intros Hy Hm Hd. pose proof (iso_digits y m d Hy Hm Hd) as Hdig.
  rewrite !Forall_cons in Hdig. destruct Hdig as (H1&H2&H3&H4&H5&H6&H7&H8&_).
  unfold readYMD, atoi_or, month2Int. cbn [String.length Nat.eqb].
  rewrite Atoi_digits4, !Atoi_digits2 by done. cbn [res_bind wrap_err].
  do 2 f_equal; [f_equal|]; Z.to_euclidean_division_equations; lia.
Qed.

(** Midnight UTC of a day that exists falls on that day. *)
Lemma time_Date_civil y m d : 0 ≤ y ≤ 9999 → 1 ≤ m ≤ 12 → 1 ≤ d ≤ days_in_month y m →
  civil_from_days ((t_sec (time_Date y m d 0 0 0 0) - unixToInternal + 0) / 86400) = (y, m, d).
Proof.
  intros Hy Hm Hd. cbn [time_Date t_sec]. unfold unixToInternal.
  assert (Hdays : days_from_civil y m 1 + (d - 1) = days_from_civil y m d) by (unfold days_from_civil; lia).
  assert (Hb : -800000 ≤ days_from_civil y m d ≤ 4000000).
  { assert (days_in_month y m ≤ 31) by (unfold days_in_month; repeat case_match; lia).
    unfold days_from_civil. destruct (m <=? 2); Z.to_euclidean_division_equations; lia. }
  change (0 / second) with 0. rewrite i64_small by (width; lia).
  rewrite <- (calendar_inverse y m d Hm Hd). f_equal. rewrite <- Hdays. Z.to_euclidean_division_equations. lia.
Qed.

Lemma validateYMD_ok y m d : 0 ≤ y ≤ 9999 → 1 ≤ m ≤ 12 → 1 ≤ d ≤ 31 → validateYMD y m d = Ret tt.
Proof.
  intros. unfold validateYMD.
  destruct (Z.ltb_spec y 0), (Z.gtb_spec y 9999), (Z.ltb_spec m 1), (Z.gtb_spec m 12),
    (Z.ltb_spec d 1), (Z.gtb_spec d 31); (lia || done).
Qed.

Lemma validateYMD_cases y m d :
  (validateYMD y m d = Ret tt ∧ 0 ≤ y ≤ 9999 ∧ 1 ≤ m ≤ 12 ∧ 1 ≤ d ≤ 31) ∨ ∃ e, validateYMD y m d = Fail e.
Proof.
  unfold validateYMD.
  destruct (Z.ltb_spec y 0), (Z.gtb_spec y 9999), (Z.ltb_spec m 1), (Z.gtb_spec m 12),
    (Z.ltb_spec d 1), (Z.gtb_spec d 31); simpl; eauto; left; split; (done || lia).
Qed.

Lemma atoi_or_total msg s : (∃ v, atoi_or msg s = Ret v) ∨ ∃ e, atoi_or msg s = Fail e.
Proof. unfold atoi_or. destruct (Atoi s); eauto. Qed.

Lemma month2Int_total msg s :
  (∃ v, wrap_err msg (month2Int s) = Ret v) ∨ ∃ e, wrap_err msg (month2Int s) = Fail e.
Proof. unfold month2Int. repeat case_match; simpl; eauto. Qed.

Lemma readYMD_total who t1 t2 t3 :
  (∃ r, readYMD who t1 t2 t3 = Ret r) ∨ ∃ e, readYMD who t1 t2 t3 = Fail e.
Proof.
  unfold readYMD. case_match;
    repeat match goal with
    | |- context [atoi_or ?m ?s] => destruct (atoi_or_total m s) as [[? ->]|[? ->]]; cbn [res_bind]; [|by eauto]
    | |- context [wrap_err ?m (month2Int ?s)] =>
        destruct (month2Int_total m s) as [[? ->]|[? ->]]; cbn [res_bind]; [|by eauto]
    end; eauto.
Qed.

(** Reading an ISO date: the text YYYY-MM-DD, from year 0 to 9999 with a month
    from 1 to 12 and a day from 1 to 31, is read by [ParseDate], [ParseDateStrict]
    and [ParseDatetime] alike as midnight UTC of that day, and when the day
    exists in that month the calendar date of the result is the one written. *)
Theorem ParseDate_iso `{GoUnicode} `{GoZone} y m d
    (Hy : 0 ≤ y ≤ 9999) (Hm : 1 ≤ m ≤ 12) (Hd : 1 ≤ d ≤ 31) :
  let t := time_Date y m d 0 0 0 0 in
  ParseDate (iso_date y m d) = Ret t ∧ ParseDateStrict (iso_date y m d) = Ret t ∧
  ParseDatetime (iso_date y m d) = Ret t ∧
  (d ≤ days_in_month y m → t_civil t = (y, m, d)).
Proof.
  intros t. destruct (iso_date_match y m d Hy Hm Hd) as (Hup & Hre & Hstrict).
  pose proof (λ who, iso_components who y m d Hy Hm Hd) as Hread. pose proof (validateYMD_ok y m d Hy Hm Hd) as Hval.
  split_and!.
  - unfold ParseDate, date_with, ParseDateComponents, components_of. rewrite Hup, Hre. unfold getDateComponents.
    rewrite Hread. cbn [res_bind]. rewrite Hval. cbn [res_bind]. by rewrite Hval.
  - unfold ParseDateStrict, date_with, ParseDateStrictComponents, components_of. rewrite Hup, Hstrict.
    unfold getDateComponents. rewrite Hread. cbn [res_bind]. rewrite Hval. cbn [res_bind]. by rewrite Hval.
  - unfold ParseDatetime. rewrite Hup, Hre. cbv zeta. rewrite Hread. cbn [res_bind]. by rewrite Hval.
  - intros Hdm. unfold t_civil, zone_offset, t. cbn [t_loc t_sec time_Date].
    apply time_Date_civil; lia.
Qed.

#[global] Instance utc_zone : GoZone := {| local_offset _ := 0 |}.

Lemma ParseDate_iso_witness :
  ParseDate "2024-02-29" = Ret (time_Date 2024 2 29 0 0 0 0) ∧
  ParseDateStrict "2024-02-29" = Ret (time_Date 2024 2 29 0 0 0 0) ∧
  ParseDatetime "2024-02-29" = Ret (time_Date 2024 2 29 0 0 0 0) ∧
  (29 ≤ days_in_month 2024 2 → t_civil (time_Date 2024 2 29 0 0 0 0) = (2024, 2, 29)).
Proof. apply (ParseDate_iso 2024 2 29); lia. Defined.

(** Reading any text as a date either fails with an error or gives midnight UTC
    of a year from 0 to 9999, a month from 1 to 12 and a day from 1 to 31; a
    text shorter than eight bytes is always an error. *)
Theorem ParseDate_sound `{GoUnicode} s :
  (∃ e, ParseDate s = Fail e) ∨
  (8 ≤ String.length s)%nat ∧
  ∃ y m d, ParseDate s = Ret (time_Date y m d 0 0 0 0) ∧ 0 ≤ y ≤ 9999 ∧ 1 ≤ m ≤ 12 ∧ 1 ≤ d ≤ 31.
Proof.
  unfold ParseDate, date_with. destruct (Nat.ltb_spec (String.length s) 8); [left; eauto|].
  unfold ParseDateComponents, components_of. destruct (dateRe (ToUpper s)) as [[[[t1 t2] t3] r]|]; [|left; eauto].
  unfold getDateComponents. destruct (readYMD_total "ParseDate" t1 t2 t3) as [[[[y m] d] ->]|[e ->]];
    [|left; eauto]. cbn [res_bind].
  destruct (validateYMD_cases y m d) as [[Hv Hok]|[e ->]]; [|left; eauto].
  right. split; [done|]. exists y, m, d. rewrite Hv. cbn [res_bind]. rewrite Hv. split; [done|tauto].
Qed.
