(* ===== verification/EvalOperators.v ===== *)
(** * Operators of the column expressions

    Models src/jets/compute_pipes/eval_operators.go and
    src/jets/compute_pipes/eval_operators_other.go: the [Eval] method of every
    operator the expression language builds from its name.  A method that
    switches on the dynamic type of its left operand is one definition per case,
    composed by the definition that carries the operator's name. *)
From stdpp Require Import base list strings.
From Stdlib Require Import ZArith Lia SpecFloat Ascii.
From S2P Require Import Prelude GoFloat GoText GoValue DateParser.

(** The [int] 1 or 0 a comparison returns. *)
Definition b2i (b : bool) : any := VInt (if b then 1 else 0).

Definition float_or (msg s : string) : res float64 :=
  match ParseFloat s with Some v => Ret v | None => Fail msg end.

(** Byte-wise order of Go strings. *)
Definition str_lt (a b : string) : bool := match String.compare a b with Lt => true | _ => false end.
Definition str_le (a b : string) : bool := match String.compare a b with Gt => false | _ => true end.
Definition str_Compare (a b : string) : Z :=
  match String.compare a b with Lt => -1 | Eq => 0 | Gt => 1 end.

Section operators.
Context `{GoArch} `{GoUnicode} `{GoFmt} `{GoZone}.

Definition ToBool (b : any) : bool :=
  match b with
  | VStr v =>
      if String.eqb (ToUpper v) "TRUE" then true
      else match String2Double v with
           | Ret n => f64_lt f64_0 n
           | _ => f64_lt f64_0 f64_0
           end
  | VInt v | VInt64 v => v >? 0
  | VF64 v | VF32 v => f64_lt f64_0 v
  | VBool v => v
  | _ => false
  end.

Definition ToDouble (d : any) : res float64 :=
  match d with
  | VStr v => float_or "strconv.ParseFloat" v
  | VInt v | VInt64 v | VUint v | VUint64 v => Ret (f64_of_Z v)
  | VF64 v | VF32 v => Ret v
  | _ => Fail "invalid data: not a double"
  end.

(** ** [==] *)

Definition opEqual_string (lhsv : string) (rhs : any) : res any :=
  match rhs with
  | VStr rhsv => Ret (b2i (String.eqb lhsv rhsv))
  | VInt rhsv =>
      let! lv := wrap_err "opEqual string and int, string not an int" (String2Int lhsv) in
      Ret (b2i (lv =? rhsv))
  | VUint rhsv =>
      let! lv := wrap_err "opEqual string and uint, string not an uint" (String2UInt lhsv) in
      Ret (b2i (lv =? rhsv))
  | VInt64 rhsv =>
      let! lv := wrap_err "opEqual string and int64, string not an int64" (String2Int lhsv) in
      Ret (b2i (lv =? rhsv))
  | VUint64 rhsv =>
      let! lv := wrap_err "opEqual string and uint64, string not a uint64" (String2UInt lhsv) in
      Ret (b2i (lv =? rhsv))
  | VF64 rhsv =>
      let! v := float_or "opEqual string and double, string not a double" lhsv in
      Ret (b2i (NearlyEqual v rhsv))
  | _ => Fail "opEqual string and, rejected"
  end.

Definition opEqual_int (lhsv : Z) (rhs : any) : res any :=
  match rhs with
  | VStr rhsv =>
      let! rv := wrap_err "opEqual int and string, string not an int" (String2Int rhsv) in
      Ret (b2i (lhsv =? rv))
  | VInt rhsv => Ret (b2i (lhsv =? rhsv))
  | VUint rhsv => Ret (b2i ((lhsv >? 0) && (u64 lhsv =? rhsv)))
  | VInt64 rhsv => Ret (b2i (lhsv =? rhsv))
  | VUint64 rhsv => Ret (b2i ((lhsv >? 0) && (u64 lhsv =? rhsv)))
  | VF64 rhsv => Ret (b2i (NearlyEqual (f64_of_Z lhsv) rhsv))
  | _ => Fail "opEqual int and, rejected"
  end.

Definition opEqual_int64 (lhsv : Z) (rhs : any) : res any :=
  match rhs with
  | VStr rhsv =>
      let! rv := wrap_err "opEqual int64 and string, string not an int64" (String2Int rhsv) in
      Ret (b2i (lhsv =? rv))
  | VInt rhsv => Ret (b2i (lhsv =? rhsv))
  | VUint rhsv => Ret (b2i ((lhsv >? 0) && (u64 lhsv =? rhsv)))
  | VInt64 rhsv => Ret (b2i (lhsv =? rhsv))
  | VUint64 rhsv => Ret (b2i ((lhsv >? 0) && (u64 lhsv =? rhsv)))
  | VF64 rhsv => Ret (b2i (NearlyEqual (f64_of_Z lhsv) rhsv))
  | _ => Fail "opEqual int64 and, rejected"
  end.

Definition opEqual_float64 (lhsv : float64) (rhs : any) : res any :=
  match rhs with
  | VStr rhsv =>
      let! v := float_or "opEqual double and string, string not a double" rhsv in
      Ret (b2i (NearlyEqual v lhsv))
  | VInt rhsv => Ret (b2i (NearlyEqual lhsv (f64_of_Z rhsv)))
  | VInt64 rhsv => Ret (b2i (NearlyEqual lhsv (f64_of_Z rhsv)))
  | VF64 rhsv => Ret (b2i (NearlyEqual lhsv rhsv))
  | _ => Fail "opEqual float64 and, rejected"
  end.

Definition opEqual_time (lhsv : Time) (rhs : any) : res any :=
  match rhs with
  | VStr rhsv =>
      let! v := wrap_err "opEqual datetime and string, string not a datetime" (ParseDate rhsv) in
      Ret (b2i (t_Equal lhsv v))
  | VTime rhsv => Ret (b2i (t_Equal lhsv rhsv))
  | _ => Fail "opEqual datetime and, rejected"
  end.

Definition opEqual (lhs rhs : any) : res any :=
  if is_nil lhs || is_nil rhs then Ret (VInt 0)
  else match lhs with
  | VStr lhsv => opEqual_string lhsv rhs
  | VInt lhsv => opEqual_int lhsv rhs
  | VInt64 lhsv => opEqual_int64 lhsv rhs
  | VF64 lhsv => opEqual_float64 lhsv rhs
  | VTime lhsv => opEqual_time lhsv rhs
  | _ => Fail "opEqual incompatible types, rejected"
  end.

Definition opNotEqual (lhs rhs : any) : res any :=
  if is_nil lhs || is_nil rhs then Ret (VInt 0)
  else
    let! v := wrap_err "opNotEqual Eval using opEqual" (opEqual lhs rhs) in
    Ret (b2i (negb (ToBool v))).

(** ** Boolean operators *)

Definition opAND (lhs rhs : any) : res any :=
  if is_nil lhs || is_nil rhs then Ret (VInt 0)
  else if negb (ToBool lhs) then Ret (VInt 0)
  else Ret (b2i (ToBool rhs)).

Definition opOR (lhs rhs : any) : res any :=
  if is_nil lhs || is_nil rhs then Ret (VInt 0)
  else if ToBool lhs then Ret (VInt 1)
  else Ret (b2i (ToBool rhs)).

Definition opNot (lhs _rhs : any) : res any :=
  if is_nil lhs then Ret (VInt 0) else Ret (b2i (negb (ToBool lhs))).

Definition opIS (isNot : Z) (lhs rhs : any) : res any :=
  if is_nil lhs && is_nil rhs then Ret (VInt (1 - isNot))
  else match lhs, rhs with
  | VF64 lhsv, VF64 rhsv =>
      if f64_is_nan lhsv && f64_is_nan rhsv then Ret (VInt (1 - isNot)) else Ret (VInt isNot)
  | _, _ => Ret (VInt isNot)
  end.

(** ** Sort comparison *)

Definition cmpInt64 (l r : Z) : Z := if l <? r then -1 else if l >? r then 1 else 0.
Definition cmpFloat64 (l r : float64) : Z := if f64_lt l r then -1 else if f64_lt r l then 1 else 0.

(** The right operand read as an [int64]; [None] where the source returns 0. *)
Definition cmp_rhs_int (rhs : any) : option Z :=
  match rhs with
  | VStr rhsv => match String2Int rhsv with Ret v => Some v | _ => None end
  | VInt rhsv => Some rhsv
  | VInt64 rhsv => Some rhsv
  | VF64 rhsv => Some (f64_to_i64 rhsv)
  | VTime rhsv => Some (t_Unix rhsv)
  | _ => Some 0
  end.
Definition cmp_rhs_float (rhs : any) : option float64 :=
  match rhs with
  | VStr rhsv => ParseFloat rhsv
  | VInt rhsv => Some (f64_of_Z rhsv)
  | VInt64 rhsv => Some (f64_of_Z rhsv)
  | VF64 rhsv => Some rhsv
  | VTime rhsv => Some (f64_of_Z (t_Unix rhsv))
  | _ => Some f64_0
  end.

Definition CmpRecord (lhs rhs : any) : Z :=
  if is_nil lhs || is_nil rhs then 0
  else match lhs with
  | VStr lhsv =>
      match rhs with
      | VStr rhsv => str_Compare lhsv rhsv
      | _ => str_Compare lhsv (sprint_v rhs)
      end
  | VInt lhsv | VInt64 lhsv =>
      match cmp_rhs_int rhs with Some vv => cmpInt64 lhsv vv | None => 0 end
  | VF64 lhsv =>
      match cmp_rhs_float rhs with Some vv => cmpFloat64 lhsv vv | None => 0 end
  | VTime lhsv =>
      match rhs with
      | VTime rhsv => t_Compare lhsv rhsv
      | VInt rhsv => cmpInt64 (t_Unix lhsv) rhsv
      | VInt64 rhsv => cmpInt64 (t_Unix lhsv) rhsv
      | VF64 rhsv => cmpFloat64 (f64_of_Z (t_Unix lhsv)) rhsv
      | _ => 0
      end
  | _ => 0
  end.

(** ** [<] *)

Definition opLT_string (lhsv : string) (rhs : any) : res any :=
  match rhs with
  | VStr rhsv => Ret (b2i (str_lt lhsv rhsv))
  | VInt rhsv =>
      let! v := wrap_err "opLT string and int, string not a int" (String2Int lhsv) in
      Ret (b2i (v <? rhsv))
  | VUint rhsv =>
      let! v := wrap_err "opLT string and uint, string not a uint" (String2Int lhsv) in
      Ret (b2i (u64 v <? rhsv))
  | VInt64 rhsv =>
      let! v := wrap_err "opLT string and int64, string not a int64" (String2Int lhsv) in
      Ret (b2i (v <? rhsv))
  | VUint64 rhsv =>
      let! v := wrap_err "opLT string and uint64, string not a uint64" (String2UInt lhsv) in
      Ret (b2i (v <? rhsv))
  | VF64 rhsv =>
      let! v := float_or "opLT string and double, string not a double" lhsv in
      Ret (b2i (f64_lt v rhsv))
  | VTime rhsv =>
      let! v := wrap_err "opLT string and datetime, string not a datetime" (ParseDate lhsv) in
      Ret (b2i (t_Before v rhsv))
  | _ => Fail "opLT string and, rejected"
  end.

Definition opLT_int (lhsv : Z) (rhs : any) : res any :=
  match rhs with
  | VStr rhsv =>
      let! v := wrap_err "opLT int and string, string not a int" (String2Int rhsv) in
      Ret (b2i (lhsv <? v))
  | VInt rhsv => Ret (b2i (lhsv <? rhsv))
  | VUint rhsv => Ret (b2i ((lhsv >? 0) && (u64 lhsv <? rhsv)))
  | VInt64 rhsv => Ret (b2i (lhsv <? rhsv))
  | VUint64 rhsv => Ret (b2i ((lhsv >? 0) && (u64 lhsv <? rhsv)))
  | VF64 rhsv => Ret (b2i (f64_lt (f64_of_Z lhsv) rhsv))
  | _ => Fail "opLT int and, rejected"
  end.

Definition opLT_int64 (lhsv : Z) (rhs : any) : res any :=
  match rhs with
  | VStr rhsv =>
      let! v := wrap_err "opLT string and int64, string not a int64" (String2Int rhsv) in
      Ret (b2i (lhsv <? v))
  | VInt rhsv => Ret (b2i (lhsv <? rhsv))
  | VUint rhsv => Ret (b2i ((lhsv >? 0) && (u64 lhsv <? rhsv)))
  | VInt64 rhsv => Ret (b2i (lhsv <? rhsv))
  | VUint64 rhsv => Ret (b2i ((lhsv >? 0) && (u64 lhsv <? rhsv)))
  | VF64 rhsv => Ret (b2i (f64_lt (f64_of_Z lhsv) rhsv))
  | _ => Fail "opLT int64 and, rejected"
  end.

(** The string operand is compared the other way round: [v < lhsv]. *)
Definition opLT_float64 (lhsv : float64) (rhs : any) : res any :=
  match rhs with
  | VStr rhsv =>
      let! v := float_or "opLT double and string, string not a double" rhsv in
      Ret (b2i (f64_lt v lhsv))
  | VInt rhsv => Ret (b2i (f64_lt lhsv (f64_of_Z rhsv)))
  | VInt64 rhsv => Ret (b2i (f64_lt lhsv (f64_of_Z rhsv)))
  | VF64 rhsv => Ret (b2i (f64_lt lhsv rhsv))
  | _ => Fail "opLT float64 and, rejected"
  end.

Definition opLT_time (lhsv : Time) (rhs : any) : res any :=
  match rhs with
  | VStr rhsv =>
      let! v := wrap_err "opLT datetime and string, string not a datetime" (ParseDate rhsv) in
      Ret (b2i (t_Before lhsv v))
  | VTime rhsv => Ret (b2i (t_Before lhsv rhsv))
  | _ => Fail "opLT incompatible types, rejected"
  end.

Definition opLT (lhs rhs : any) : res any :=
  if is_nil lhs || is_nil rhs then Ret (VInt 0)
  else match lhs with
  | VStr lhsv => opLT_string lhsv rhs
  | VInt lhsv => opLT_int lhsv rhs
  | VInt64 lhsv => opLT_int64 lhsv rhs
  | VF64 lhsv => opLT_float64 lhsv rhs
  | VTime lhsv => opLT_time lhsv rhs
  | _ => Fail "opLT incompatible types, rejected"
  end.

(** ** [<=] *)

Definition t_LE (a b : Time) : bool := t_Before a b || t_Equal a b.

Definition opLE_string (lhsv : string) (rhs : any) : res any :=
  match rhs with
  | VStr rhsv => Ret (b2i (str_le lhsv rhsv))
  | VInt rhsv =>
      let! v := wrap_err "opLE string and int, string not a int" (String2Int lhsv) in
      Ret (b2i (v <=? rhsv))
  | VUint rhsv =>
      let! v := wrap_err "opLE string and uint, string not a uint" (String2Int lhsv) in
      Ret (b2i (u64 v <=? rhsv))
  | VInt64 rhsv =>
      let! v := wrap_err "opLE string and int64, string not a int64" (String2Int lhsv) in
      Ret (b2i (v <=? rhsv))
  | VUint64 rhsv =>
      let! v := wrap_err "opLE string and uint64, string not a uint64" (String2UInt lhsv) in
      Ret (b2i (v <=? rhsv))
  | VF64 rhsv =>
      let! v := float_or "opLE string and double, string not a double" lhsv in
      Ret (b2i (f64_le v rhsv))
  | VTime rhsv =>
      let! v := wrap_err "opLE string and datetime, string not a datetime" (ParseDate lhsv) in
      Ret (b2i (t_LE v rhsv))
  | _ => Fail "opLE string and, rejected"
  end.

Definition opLE_int (lhsv : Z) (rhs : any) : res any :=
  match rhs with
  | VStr rhsv =>
      let! v := wrap_err "opLE int and string, string not a int" (String2Int rhsv) in
      Ret (b2i (lhsv <=? v))
  | VInt rhsv => Ret (b2i (lhsv <=? rhsv))
  | VUint rhsv => Ret (b2i ((lhsv >? 0) && (u64 lhsv <=? rhsv)))
  | VInt64 rhsv => Ret (b2i (lhsv <=? rhsv))
  | VUint64 rhsv => Ret (b2i ((lhsv >? 0) && (u64 lhsv <=? rhsv)))
  | VF64 rhsv => Ret (b2i (f64_le (f64_of_Z lhsv) rhsv))
  | _ => Fail "opLE int and, rejected"
  end.

Definition opLE_int64 (lhsv : Z) (rhs : any) : res any :=
  match rhs with
  | VStr rhsv =>
      let! v := wrap_err "opLE string and int64, string not a int64" (String2Int rhsv) in
      Ret (b2i (lhsv <=? v))
  | VInt rhsv => Ret (b2i (lhsv <=? rhsv))
  | VUint rhsv => Ret (b2i ((lhsv >? 0) && (u64 lhsv <=? rhsv)))
  | VInt64 rhsv => Ret (b2i (lhsv <=? rhsv))
  | VUint64 rhsv => Ret (b2i ((lhsv >? 0) && (u64 lhsv <=? rhsv)))
  | VF64 rhsv => Ret (b2i (f64_le (f64_of_Z lhsv) rhsv))
  | _ => Fail "opLE int64 and, rejected"
  end.

Definition opLE_float64 (lhsv : float64) (rhs : any) : res any :=
  match rhs with
  | VStr rhsv =>
      let! v := float_or "opLE double and string, string not a double" rhsv in
      Ret (b2i (f64_le v lhsv))
  | VInt rhsv => Ret (b2i (f64_le lhsv (f64_of_Z rhsv)))
  | VInt64 rhsv => Ret (b2i (f64_le lhsv (f64_of_Z rhsv)))
  | VF64 rhsv => Ret (b2i (f64_le lhsv rhsv))
  | _ => Fail "opLE float64 and, rejected"
  end.

Definition opLE_time (lhsv : Time) (rhs : any) : res any :=
  match rhs with
  | VStr rhsv =>
      let! v := wrap_err "opLE datetime and string, string not a datetime" (ParseDate rhsv) in
      Ret (b2i (t_LE lhsv v))
  | VTime rhsv => Ret (b2i (t_LE lhsv rhsv))
  | _ => Fail "opLE incompatible types, rejected"
  end.

Definition opLE (lhs rhs : any) : res any :=
  if is_nil lhs || is_nil rhs then Ret (VInt 0)
  else match lhs with
  | VStr lhsv => opLE_string lhsv rhs
  | VInt lhsv => opLE_int lhsv rhs
  | VInt64 lhsv => opLE_int64 lhsv rhs
  | VF64 lhsv => opLE_float64 lhsv rhs
  | VTime lhsv => opLE_time lhsv rhs
  | _ => Fail "opLE incompatible types, rejected"
  end.

Definition opGT (lhs rhs : any) : res any :=
  if is_nil lhs || is_nil rhs then Ret (VInt 0)
  else wrap_err "opGT Eval using opLT" (opLT rhs lhs).

Definition opGE (lhs rhs : any) : res any :=
  if is_nil lhs || is_nil rhs then Ret (VInt 0)
  else wrap_err "opGE Eval using opLE" (opLE rhs lhs).

(** ** Arithmetic *)

Definition opDIV (lhs rhs : any) : res any :=
  if is_nil lhs || is_nil rhs then Ret VNil
  else
    let! lhsv := ToDouble lhs in
    let! rhsv := ToDouble rhs in
    if f64_lt (f64_abs rhsv) f64_1em10 then Ret (VF64 f64_nan)
    else Ret (VF64 (f64_div lhsv rhsv)).

Definition opADD_string (lhsv : string) (rhs : any) : res any :=
  match rhs with
  | VStr rhsv => Ret (VStr (lhsv +:+ rhsv))
  | VInt rhsv =>
      let! lv := wrap_err "opADD string and int, string not an int" (String2Int lhsv) in
      Ret (VInt (i64 (lv + rhsv)))
  | VUint rhsv =>
      let! lv := wrap_err "opADD string and int, string not an int" (String2Int lhsv) in
      Ret (VUint (u64 (u64 lv + rhsv)))
  | VInt64 rhsv =>
      let! lv := wrap_err "opADD string and int64, string not an int64" (String2Int lhsv) in
      Ret (VInt64 (i64 (lv + rhsv)))
  | VUint64 rhsv =>
      let! lv := wrap_err "opADD string and uint64, string not an uint64" (String2Int lhsv) in
      Ret (VUint64 (u64 (u64 lv + rhsv)))
  | VF64 rhsv =>
      let! lv := float_or "opADD string and float64, string not a float64" lhsv in
      Ret (VF64 (f64_add lv rhsv))
  | VTime rhsv =>
      let! lv := wrap_err "opADD string and time, string not an int (days)" (String2Int lhsv) in
      Ret (VTime (t_Add rhsv (days lv)))
  | _ => Fail "opADD incompatible types, rejected"
  end.

Definition opADD_int (lhsv : Z) (rhs : any) : res any :=
  match rhs with
  | VStr rhsv =>
      let! rv := wrap_err "opADD int and string, string not an int" (String2Int rhsv) in
      Ret (VInt (i64 (lhsv + rv)))
  | VInt rhsv => Ret (VInt (i64 (lhsv + rhsv)))
  | VInt64 rhsv => Ret (VInt64 (i64 (lhsv + rhsv)))
  | VUint rhsv => Ret (VInt (i64 (lhsv + i64 rhsv)))
  | VUint64 rhsv => Ret (VUint64 (u64 (u64 lhsv + rhsv)))
  | VF64 rhsv => Ret (VF64 (f64_add (f64_of_Z lhsv) rhsv))
  | VTime rhsv => Ret (VTime (t_Add rhsv (days lhsv)))
  | _ => Fail "opADD incompatible types, rejected"
  end.

Definition opADD_int64 (lhsv : Z) (rhs : any) : res any :=
  match rhs with
  | VStr rhsv =>
      let! rv := wrap_err "opADD int64 and string, string not an int64" (String2Int rhsv) in
      Ret (VInt64 (i64 (lhsv + rv)))
  | VInt rhsv => Ret (VInt64 (i64 (lhsv + rhsv)))
  | VInt64 rhsv => Ret (VInt64 (i64 (lhsv + rhsv)))
  | VUint rhsv => Ret (VInt64 (i64 (lhsv + i64 rhsv)))
  | VUint64 rhsv => Ret (VInt64 (i64 (lhsv + i64 rhsv)))
  | VF64 rhsv => Ret (VF64 (f64_add (f64_of_Z lhsv) rhsv))
  | VTime rhsv => Ret (VTime (t_Add rhsv (days lhsv)))
  | _ => Fail "opADD incompatible types, rejected"
  end.

Definition opADD_float64 (lhsv : float64) (rhs : any) : res any :=
  match rhs with
  | VStr rhsv =>
      let! rv := float_or "opADD float64 and string, string not a float64" rhsv in
      Ret (VF64 (f64_add lhsv rv))
  | VInt rhsv | VInt64 rhsv | VUint rhsv | VUint64 rhsv => Ret (VF64 (f64_add lhsv (f64_of_Z rhsv)))
  | VF64 rhsv => Ret (VF64 (f64_add lhsv rhsv))
  | _ => Fail "opADD incompatible types, rejected"
  end.

Definition opADD_time (lhsv : Time) (rhs : any) : res any :=
  match rhs with
  | VStr rhsv =>
      let! rv := wrap_err "opADD time and string, string not an time duration in days" (String2Int rhsv) in
      Ret (VTime (t_Add lhsv (days rv)))
  | VInt rhsv => Ret (VTime (t_Add lhsv (days rhsv)))
  | _ => Fail "opADD incompatible types, rejected"
  end.

Definition opADD (lhs rhs : any) : res any :=
  if is_nil lhs || is_nil rhs then Ret VNil
  else match lhs with
  | VStr lhsv => opADD_string lhsv rhs
  | VInt lhsv => opADD_int lhsv rhs
  | VInt64 lhsv => opADD_int64 lhsv rhs
  | VF64 lhsv => opADD_float64 lhsv rhs
  | VTime lhsv => opADD_time lhsv rhs
  | _ => Fail "opADD incompatible types, rejected"
  end.

Definition opSUB_string (lhsv : string) (rhs : any) : res any :=
  match rhs with
  | VInt rhsv =>
      let! lv := wrap_err "opSUB string and int, string not an int" (String2Int lhsv) in
      Ret (VInt (i64 (lv - rhsv)))
  | VUint rhsv =>
      let! lv := wrap_err "opSUB string and uint, string not an uint" (String2Int lhsv) in
      Ret (VUint (u64 (u64 lv - rhsv)))
  | VInt64 rhsv =>
      let! lv := wrap_err "opSUB string and int64, string not an int64" (String2Int lhsv) in
      Ret (VInt64 (i64 (lv - rhsv)))
  | VUint64 rhsv =>
      let! lv := wrap_err "opSUB string and uint64, string not an uint64" (String2Int lhsv) in
      Ret (VUint64 (u64 (u64 lv - rhsv)))
  | VF64 rhsv =>
      let! lv := float_or "opSUB string and float64, string not a float64" lhsv in
      Ret (VF64 (f64_sub lv rhsv))
  | VTime rhsv =>
      let! lv := wrap_err "opSUB string and time, string not an int (days)" (String2Int lhsv) in
      Ret (VTime (t_Add rhsv (d_neg (days lv))))
  | _ => Fail "opSUB incompatible types, rejected"
  end.

Definition opSUB_int (lhsv : Z) (rhs : any) : res any :=
  match rhs with
  | VStr rhsv =>
      let! rv := wrap_err "opSUB int and string, string not an int" (String2Int rhsv) in
      Ret (VInt (i64 (lhsv - rv)))
  | VInt rhsv => Ret (VInt (i64 (lhsv - rhsv)))
  | VInt64 rhsv => Ret (VInt64 (i64 (lhsv - rhsv)))
  | VF64 rhsv => Ret (VF64 (f64_sub (f64_of_Z lhsv) rhsv))
  | VTime rhsv => Ret (VTime (t_Add rhsv (d_neg (days lhsv))))
  | _ => Fail "opSUB incompatible types, rejected"
  end.

Definition opSUB_int64 (lhsv : Z) (rhs : any) : res any :=
  match rhs with
  | VStr rhsv =>
      let! rv := wrap_err "opSUB int64 and string, string not an int64" (String2Int rhsv) in
      Ret (VInt64 (i64 (lhsv - rv)))
  | VInt rhsv => Ret (VInt64 (i64 (lhsv - rhsv)))
  | VInt64 rhsv => Ret (VInt64 (i64 (lhsv - rhsv)))
  | VF64 rhsv => Ret (VF64 (f64_sub (f64_of_Z lhsv) rhsv))
  | VTime rhsv => Ret (VTime (t_Add rhsv (d_neg (days lhsv))))
  | _ => Fail "opSUB incompatible types, rejected"
  end.

Definition opSUB_float64 (lhsv : float64) (rhs : any) : res any :=
  match rhs with
  | VStr rhsv =>
      let! rv := float_or "opSUB float64 and string, string not a float64" rhsv in
      Ret (VF64 (f64_sub lhsv rv))
  | VInt rhsv | VInt64 rhsv => Ret (VF64 (f64_sub lhsv (f64_of_Z rhsv)))
  | VF64 rhsv => Ret (VF64 (f64_sub lhsv rhsv))
  | _ => Fail "opSUB incompatible types, rejected"
  end.

Definition opSUB_time (lhsv : Time) (rhs : any) : res any :=
  match rhs with
  | VStr rhsv =>
      let! rv := wrap_err "opSUB time and string, string not an time duration in days" (String2Int rhsv) in
      Ret (VTime (t_Add lhsv (d_neg (days rv))))
  | VInt rhsv => Ret (VTime (t_Add lhsv (d_neg (days rhsv))))
  | VTime rhsv => Ret (VInt (f64_to_i64 (f64_div (d_Hours (t_Sub lhsv rhsv)) (f64_of_Z 24))))
  | _ => Fail "opSUB incompatible types, rejected"
  end.

Definition opSUB (lhs rhs : any) : res any :=
  if is_nil lhs || is_nil rhs then Ret VNil
  else match lhs with
  | VStr lhsv => opSUB_string lhsv rhs
  | VInt lhsv => opSUB_int lhsv rhs
  | VInt64 lhsv => opSUB_int64 lhsv rhs
  | VF64 lhsv => opSUB_float64 lhsv rhs
  | VTime lhsv => opSUB_time lhsv rhs
  | _ => Fail "opSUB incompatible types, rejected"
  end.

Definition opMUL_string (lhsv : string) (rhs : any) : res any :=
  match rhs with
  | VInt rhsv =>
      let! lv := wrap_err "opMUL string and int, string not an int" (String2Int lhsv) in
      Ret (VInt (i64 (lv * rhsv)))
  | VUint rhsv =>
      let! lv := wrap_err "opMUL string and uint, string not an int" (String2Int lhsv) in
      Ret (VUint (u64 (u64 lv * rhsv)))
  | VInt64 rhsv =>
      let! lv := wrap_err "opMUL string and int64, string not an int64" (String2Int lhsv) in
      Ret (VInt64 (i64 (lv * rhsv)))
  | VUint64 rhsv =>
      let! lv := wrap_err "opMUL string and uint64, string not an uint64" (String2Int lhsv) in
      Ret (VUint64 (u64 (u64 lv * rhsv)))
  | VF64 rhsv =>
      let! lv := float_or "opMUL string and float64, string not a float64" lhsv in
      Ret (VF64 (f64_mul lv rhsv))
  | _ => Fail "opMUL incompatible types, rejected"
  end.

Definition opMUL_int (lhsv : Z) (rhs : any) : res any :=
  match rhs with
  | VStr rhsv =>
      let! rv := wrap_err "opMUL int and string, string not an int" (String2Int rhsv) in
      Ret (VInt (i64 (lhsv * rv)))
  | VInt rhsv => Ret (VInt (i64 (lhsv * rhsv)))
  | VInt64 rhsv => Ret (VInt64 (i64 (lhsv * rhsv)))
  | VF64 rhsv => Ret (VF64 (f64_mul (f64_of_Z lhsv) rhsv))
  | _ => Fail "opMUL incompatible types, rejected"
  end.

Definition opMUL_int64 (lhsv : Z) (rhs : any) : res any :=
  match rhs with
  | VStr rhsv =>
      let! rv := wrap_err "opMUL int64 and string, string not an int" (String2Int rhsv) in
      Ret (VInt64 (i64 (lhsv * rv)))
  | VInt rhsv => Ret (VInt64 (i64 (lhsv * rhsv)))
  | VInt64 rhsv => Ret (VInt64 (i64 (lhsv * rhsv)))
  | VF64 rhsv => Ret (VF64 (f64_mul (f64_of_Z lhsv) rhsv))
  | _ => Fail "opMUL incompatible types, rejected"
  end.

Definition opMUL_float64 (lhsv : float64) (rhs : any) : res any :=
  match rhs with
  | VStr rhsv =>
      let! rv := float_or "opMUL float64 and string, string not a float64" rhsv in
      Ret (VF64 (f64_mul lhsv rv))
  | VInt rhsv | VInt64 rhsv => Ret (VF64 (f64_mul lhsv (f64_of_Z rhsv)))
  | VF64 rhsv => Ret (VF64 (f64_mul lhsv rhsv))
  | _ => Fail "opMUL incompatible types, rejected"
  end.

Definition opMUL (lhs rhs : any) : res any :=
  if is_nil lhs || is_nil rhs then Ret VNil
  else match lhs with
  | VStr lhsv => opMUL_string lhsv rhs
  | VInt lhsv => opMUL_int lhsv rhs
  | VInt64 lhsv => opMUL_int64 lhsv rhs
  | VF64 lhsv => opMUL_float64 lhsv rhs
  | _ => Fail "opMUL incompatible types, rejected"
  end.

Definition opABS (lhs _rhs : any) : res any :=
  if is_nil lhs then Ret (VInt 0)
  else match lhs with
  | VInt lhsv => Ret (VInt (if lhsv <? 0 then i64 (- lhsv) else lhsv))
  | VInt64 lhsv => Ret (VInt64 (if lhsv <? 0 then i64 (- lhsv) else lhsv))
  | VF64 lhsv => Ret (VF64 (f64_abs lhsv))
  | _ => Fail "opABS incompatible types, rejected"
  end.

Definition opToDate (lhs _rhs : any) : res any :=
  match lhs with
  | VNil => Ret VNil
  | VStr lhsv =>
      let! v := wrap_err "opToDate string, string not a date" (ParseDate lhsv) in
      Ret (VTime v)
  | VInt lhsv => Ret (VTime (time_toUTC (time_Unix lhsv 0)))
  | VInt64 lhsv =>
      Ret (VTime (time_toUTC (time_Unix (Z.quot lhsv 1000) (i64 (Z.rem lhsv 1000 * 1000000)))))
  | VF64 lhsv =>
      let sec := f64_to_i64 lhsv in
      let nsec := f64_to_i64 (f64_mul (f64_sub lhsv (f64_of_Z sec)) (f64_of_Z second)) in
      Ret (VTime (time_toUTC (time_Unix sec nsec)))
  | _ => Fail "opToDate incompatible types, rejected"
  end.

(** ** Other operators (eval_operators_other.go) *)

(** [strings.Trim(s, cutset)] for a one-byte cutset. *)
Fixpoint trim_left (c : ascii) (s : string) : string :=
  match s with
  | String x r => if ascii_dec x c then trim_left c r else s
  | EmptyString => EmptyString
  end.
Fixpoint trim_right (c : ascii) (s : string) : string :=
  match s with
  | String x r =>
      match trim_right c r with
      | EmptyString => if ascii_dec x c then EmptyString else String x EmptyString
      | r' => String x r'
      end
  | EmptyString => EmptyString
  end.
Definition Trim (c : ascii) (s : string) : string := trim_right c (trim_left c s).
Definition dquote : ascii := ascii_of_N 34.

Definition dmonths_date (side : string) (v : any) : res Time :=
  match v with
  | VStr s => wrap_err ("opDMonths " +:+ side +:+ " string, string not a date") (ParseDate (Trim dquote s))
  | VTime t => Ret t
  | VInt n => Ret (time_Unix n 0)
  | _ => Fail ("opDMonths incompatible types for " +:+ side +:+ ", rejected")
  end.

Definition opDMonths (lhs rhs : any) : res any :=
  if is_nil lhs || is_nil rhs then Ret VNil
  else
    let! lhsDate := dmonths_date "lhs" lhs in
    let! rhsDate := dmonths_date "rhs" rhs in
    Ret (VInt (i64 (i64 (i64 (t_Year rhsDate - t_Year lhsDate) * 12 + t_Month rhsDate) - t_Month lhsDate))).

(** [strings.ReplaceAll]: an empty [old] matches before every rune and at the end. *)
Definition ReplaceAll (s old new : string) : string :=
  match old with
  | EmptyString => new +:+ foldr (λ rb acc, rb.2 +:+ new +:+ acc) EmptyString (runes s)
  | _ => replace_from old new 0 s
  end.

Definition opFindAndReplace (lhs rhs : any) : res any :=
  if is_nil lhs || is_nil rhs then Ret VNil
  else match rhs with
  | VSlice [find; replace] =>
      match find, replace with
      | VStr find, VStr replace =>
          match lhs with
          | VStr value => Ret (VStr (ReplaceAll value find replace))
          | _ => Fail "error: find_and_replace lhs argument must be a string"
          end
      | _, _ => Fail "error: find_and_replace rhs argument must be an array of 2 strings: [find, replace]"
      end
  | _ => Fail "error: find_and_replace rhs argument must be an array of 2 elements: [find, replace]"
  end.

Definition as_slice (v : any) : list any := match v with VSlice l => l | _ => [v] end.
Definition opToArray (lhs rhs : any) : res any :=
  if is_nil lhs || is_nil rhs then Ret VNil
  else Ret (VSlice (as_slice lhs ++ as_slice rhs)).

Definition opLength (lhs _rhs : any) : res any :=
  match lhs with
  | VNil => Ret (VInt 0)
  | VStr lhsv => Ret (VInt (Z.of_nat (String.length lhsv)))
  | _ => Fail "opLength expecting string argument, rejected"
  end.

(** Go's [==] on two interface values, as the key comparison of a map: equal
    dynamic types and equal values. *)
Definition key_eqb (a b : any) : bool :=
  match a, b with
  | VNil, VNil => true
  | VStr x, VStr y => String.eqb x y
  | VInt x, VInt y | VInt64 x, VInt64 y | VInt32 x, VInt32 y
  | VUint x, VUint y | VUint64 x, VUint64 y | VUint32 x, VUint32 y => x =? y
  | VF64 x, VF64 y | VF32 x, VF32 y => f64_eq x y
  | VBool x, VBool y => Bool.eqb x y
  | VTime x, VTime y =>
      (t_sec x =? t_sec y) && (t_nsec x =? t_nsec y) &&
      match t_loc x, t_loc y with
      | UTC, UTC | Local, Local => true
      | _, _ => false
      end
  | _, _ => false
  end.

Definition hashable (v : any) : bool := match v with VSlice _ | VSet _ | VBytes _ | VStrs _ | VStrSet _ => false | _ => true end.

Definition opIn (noCase : bool) (lhs rhs : any) : res any :=
  match rhs with
  | VSet values =>
      let lhs := match lhs with VStr s => if noCase then VStr (ToUpper s) else lhs | _ => lhs end in
      if hashable lhs then Ret (b2i (existsb (key_eqb lhs) values))
      else Panic "runtime error: hash of unhashable type"
  | _ => Fail "error: operator IN / IN_NO_CASE is expecting static_list as rhs argument"
  end.

Definition opContains (noCase : bool) (lhs rhs : any) : res any :=
  match lhs, rhs with
  | VStr lhsv, VStr rhsv =>
      let lhsv := if noCase then ToUpper lhsv else lhsv in
      let rhsv := if noCase then ToUpper rhsv else rhsv in
      Ret (b2i (Contains lhsv rhsv))
  | _, _ => Ret VNil
  end.

(** [strings.Replace(s, old, new, 1)], for a non-empty [old]. *)
Fixpoint Replace1 (old new s : string) : string :=
  match s with
  | EmptyString => EmptyString
  | String c r =>
      if String.prefix old s then new +:+ str_drop (String.length old) s
      else String c (Replace1 old new r)
  end.

Definition count_byte (c : ascii) : string → nat :=
  fix go s := match s with
  | EmptyString => O
  | String x r => (if ascii_dec x c then 1 else 0) + go r
  end%nat.
Definition ContainsByte (c : ascii) (s : string) : bool := negb (count_byte c s =? 0)%nat.

(** src/jets/date_utils/java_date_format.go *)
Definition FromJavaDateFormat (format : string) (forRead : bool) : string :=
  let forRead := forRead && Contains format "yy" && Contains format "dd"
                 && (ContainsByte "/" format || ContainsByte "-" format) in
  foldl (λ f '(old, new), Replace1 old new f) format
    [("yyyy", "2006"); ("yy", "06"); ("MMMM", "January"); ("MMM", "Jan");
     ("MM", if forRead then "1" else "01"); ("dd", if forRead then "2" else "02");
     ("D", if forRead then "__2" else "002"); ("EEEE", "Monday"); ("EEE", "Mon");
     ("hh", "03"); ("HH", "15"); ("mm", "04"); ("ss", "05"); ("aa", "PM");
     ("SSSSSSSSS", "999999999"); ("SSSSSS", "999999"); ("SSS", "999")]%string.

Definition t_Day (t : Time) : Z := (t_civil t).2.
(** Seconds since midnight in the time's location. *)
Definition t_daysec (t : Time) : Z := (t_sec t - unixToInternal + zone_offset t) mod 86400.

Definition opApplyFormat (lhs rhs : any) : res any :=
  if is_nil lhs || is_nil rhs then Ret VNil
  else match rhs with
  | VStr rhsv =>
      match lhs with
      | VTime t =>
          let ymd := [VInt (t_Year t); VInt (t_Month t); VInt (t_Day t)] in
          match count_byte "%" rhsv with
          | 0%nat => Ret (VStr (time_Format t (FromJavaDateFormat rhsv false)))
          | 3%nat => Ret (VStr (sprintf rhsv ymd))
          | _ => Ret (VStr (sprintf rhsv (ymd ++ [VInt (t_daysec t / 3600); VInt (t_daysec t / 60 mod 60);
                                                 VInt (t_daysec t mod 60); VInt (t_nsec t)])))
          end
      | _ => Ret (VStr (sprintf rhsv [lhs]))
      end
  | _ => Fail "error: apply_format rhs argument must be a format string"
  end.
End operators.

(** ** Operators with state *)

(** RE2, which the source calls: compilation and the leftmost match. *)
Class GoRegexp := {
  regexp : Type;
  regexp_Compile : string → option regexp;
  FindString : regexp → string → string;
}.
(** The strings the uuid generator hands out, one per call. *)
Class GoUuid := { NewString : nat → string }.

Section apply_regex.
Context `{GoRegexp}.

Definition GetCompiledRegex (pattern : string) : res regexp :=
  match regexp_Compile pattern with
  | Some re => Ret re
  | None => Fail "while compiling regex"
  end.

(** The operator keeps the first pattern it compiled. *)
Definition opApplyRegex (re : option regexp) (lhs rhs : any) : option regexp * res any :=
  if is_nil lhs || is_nil rhs then (re, Ret VNil)
  else match lhs with
  | VStr lhsv =>
      match rhs with
      | VStr rhsv =>
          match (match re with Some r => Ret r | None => GetCompiledRegex rhsv end) with
          | Ret r =>
              let vv := FindString r lhsv in
              (Some r, Ret (if (String.length vv =? 0)%nat then VNil else VStr vv))
          | Fail e => (None, Fail e)
          | Panic e => (None, Panic e)
          | Loop => (None, Loop)
          end
      | _ => (re, Fail "error: apply_regex rhs argument must be a regular expression as a string")
      end
  | _ => (re, Fail "error: apply_regex lhs argument must be a string")
  end.
End apply_regex.

(** ** The operator table *)

Section dispatch.
Context `{GoArch} `{GoUnicode} `{GoFmt} `{GoZone} `{GoRegexp} `{GoUuid}.

Inductive evalOperator :=
| OpEqual | OpNotEqual | OpIS (isNot : Z) | OpLT | OpLE | OpGT | OpGE
| OpAND | OpOR | OpNot | OpDIV | OpADD | OpSUB | OpMUL | OpABS
| OpIn (noCase : bool) | OpContains (noCase : bool) | OpLength | OpNewUUID
| OpDMonths | OpApplyFormat | OpApplyRegex (re : option regexp) | OpFindAndReplace
| OpToArray | OpToDate.

Definition operator_table : list (string * evalOperator) :=
  [("==", OpEqual); ("!=", OpNotEqual); ("IS", OpIS 0); ("IS NOT", OpIS 1);
   ("<", OpLT); ("<=", OpLE); (">", OpGT); (">=", OpGE);
   ("AND", OpAND); ("OR", OpOR); ("NOT", OpNot);
   ("/", OpDIV); ("+", OpADD); ("-", OpSUB); ("*", OpMUL); ("ABS", OpABS);
   ("IN", OpIn false); ("IN_NO_CASE", OpIn true);
   ("CONTAINS", OpContains false); ("CONTAINS_NO_CASE", OpContains true);
   ("LENGTH", OpLength); ("NEW_UUID", OpNewUUID); ("DISTANCE_MONTHS", OpDMonths);
   ("APPLY_FORMAT", OpApplyFormat); ("APPLY_REGEX", OpApplyRegex None);
   ("FIND_AND_REPLACE", OpFindAndReplace); ("TO_ARRAY", OpToArray); ("TO_DATE", OpToDate)]%string.

Definition BuildEvalOperator (op : string) : res evalOperator :=
  match List.find (λ e, String.eqb e.1 (ToUpper op)) operator_table with
  | Some (_, o) => Ret o
  | None => Fail "error: unknown operator"
  end.

(** The operators that keep no state, as one function. *)
Definition pure_op (op : evalOperator) : option (any → any → res any) :=
  match op with
  | OpEqual => Some opEqual | OpNotEqual => Some opNotEqual | OpIS n => Some (opIS n)
  | OpLT => Some opLT | OpLE => Some opLE | OpGT => Some opGT | OpGE => Some opGE
  | OpAND => Some opAND | OpOR => Some opOR | OpNot => Some opNot
  | OpDIV => Some opDIV | OpADD => Some opADD | OpSUB => Some opSUB | OpMUL => Some opMUL
  | OpABS => Some opABS | OpIn c => Some (opIn c) | OpContains c => Some (opContains c)
  | OpLength => Some opLength | OpDMonths => Some opDMonths | OpApplyFormat => Some opApplyFormat
  | OpFindAndReplace => Some opFindAndReplace | OpToArray => Some opToArray | OpToDate => Some opToDate
  | OpNewUUID | OpApplyRegex _ => None
  end.

(** [op.Eval(lhs, rhs)], with the operator's new state and the uuid supply. *)
Definition op_Eval (op : evalOperator) (n : nat) (lhs rhs : any) : evalOperator * nat * res any :=
  match pure_op op with
  | Some f => (op, n, f lhs rhs)
  | None =>
      match op with
      | OpApplyRegex re => let '(re', r) := opApplyRegex re lhs rhs in (OpApplyRegex re', n, r)
      | _ => (op, S n, Ret (VStr (NewString n)))
      end
  end.
End dispatch.
