(* ===== verification/EvalOperatorsLaws.v ===== *)
(** * Laws of the expression operators

    What the operators of EvalOperators.v guarantee on every pair of values, and
    where their answers differ from the mathematical comparison. *)
From stdpp Require Import base list strings.
From Stdlib Require Import ZArith Lia SpecFloat Ascii.
From S2P Require Import Prelude GoFloat GoText GoValue DateParser EvalOperators.

(** Opens the calls a goal or a hypothesis waits for: conversions that return or
    fail, and switches on a dynamic type. *)
Ltac call_cases :=
  repeat match goal with
  | |- context [wrap_err ?m (String2Int ?s)] => destruct (String2Int s) eqn:?; cbn [wrap_err res_bind]
  | |- context [wrap_err ?m (String2UInt ?s)] => destruct (String2UInt s) eqn:?; cbn [wrap_err res_bind]
  | |- context [wrap_err ?m (ParseDate ?s)] => destruct (ParseDate s) eqn:?; cbn [wrap_err res_bind]
  | |- context [float_or ?m ?s] => unfold float_or; destruct (ParseFloat s) eqn:?; cbn [wrap_err res_bind]
  end.

Section laws.
Context `{GoArch} `{GoUnicode} `{GoFmt} `{GoZone} `{GoRegexp} `{GoUuid}.

(** ** The conversions return or fail *)

Definition settles {A} (r : res A) : Prop := is_ret r = true ∨ ∃ e, r = Fail e.

Lemma String2Int_settles s : settles (String2Int s).
Proof. unfold settles, String2Int. repeat case_match; eauto. Qed.
Lemma String2UInt_settles s : settles (String2UInt s).
Proof. unfold settles, String2UInt. repeat case_match; eauto. Qed.
Lemma atoi_or_settles m s : settles (atoi_or m s).
Proof. unfold settles, atoi_or. case_match; eauto. Qed.
Lemma float_or_settles m s : settles (float_or m s).
Proof. unfold settles, float_or. case_match; eauto. Qed.
Lemma wrap_err_settles {A} m (r : res A) : settles r → settles (wrap_err m r).
Proof. unfold settles. destruct r; naive_solver. Qed.
Lemma bind_settles {A B} (r : res A) (k : A → res B) :
  settles r → (∀ a, settles (k a)) → settles (res_bind r k).
Proof. unfold settles. intros [?|[e ->]] Hk; [|eauto]. destruct r; try done. apply Hk. Qed.
Lemma ret_settles {A} (a : A) : settles (Ret a).
Proof. by left. Qed.
Lemma fail_settles {A} e : settles (Fail (A := A) e).
Proof. right. eauto. Qed.
Lemma validateYMD_settles y m d : settles (validateYMD y m d).
Proof. unfold validateYMD. repeat case_match; (apply ret_settles || apply fail_settles). Qed.
Lemma readYMD_settles who a b c : settles (readYMD who a b c).
Proof. unfold settles. destruct (readYMD_total who a b c) as [[? ->]|[? ->]]; eauto. Qed.
Lemma ParseDate_settles s : settles (ParseDate s).
Proof.
  unfold ParseDate, date_with, ParseDateComponents, components_of, getDateComponents.
  repeat (case_match; try apply fail_settles).
  repeat first [apply bind_settles | apply readYMD_settles | apply validateYMD_settles
               | apply ret_settles | intros [[? ?] ?] | intros []].
Qed.
End laws.
#[export] Hint Resolve String2Int_settles String2UInt_settles float_or_settles wrap_err_settles
  bind_settles ret_settles fail_settles ParseDate_settles : go.

Section comparisons.
Context `{GoArch} `{GoUnicode} `{GoFmt} `{GoZone} `{GoRegexp} `{GoUuid}.

Definition is_comparison (op : evalOperator) : bool :=
  match op with
  | OpEqual | OpNotEqual | OpLT | OpLE | OpGT | OpGE | OpAND | OpOR | OpNot => true
  | _ => false
  end.

(** A verdict is the [int] 0 or 1, or an error. *)
Definition verdict (r : res any) : Prop := (∃ b, r = Ret (b2i b)) ∨ ∃ e, r = Fail e.

Lemma verdict_ret b : verdict (Ret (b2i b)).
Proof. left. eauto. Qed.
Lemma verdict_zero : verdict (Ret (VInt 0)).
Proof. left. by exists false. Qed.
Lemma verdict_one : verdict (Ret (VInt 1)).
Proof. left. by exists true. Qed.
Lemma verdict_fail e : verdict (Fail e).
Proof. right. eauto. Qed.
Lemma verdict_bind {A} (r : res A) (k : A → res any) :
  settles r → (∀ a, verdict (k a)) → verdict (res_bind r k).
Proof. intros [?|[e ->]] Hk; [|apply verdict_fail]. destruct r; try done. apply Hk. Qed.
Lemma verdict_wrap m r : verdict r → verdict (wrap_err m r).
Proof. intros [[b ->]|[e ->]]; [apply verdict_ret|apply verdict_fail]. Qed.
Lemma verdict_settles r : verdict r → settles r.
Proof. intros [[b ->]|[e ->]]; [apply ret_settles|apply fail_settles]. Qed.
#[local] Hint Resolve verdict_ret verdict_zero verdict_one verdict_fail verdict_bind verdict_wrap verdict_settles : go.

Lemma opEqual_verdict lhs rhs : verdict (opEqual lhs rhs).
Proof.
  unfold opEqual. case_match; [eauto with go|].
  destruct lhs, rhs; cbn; eauto 6 with go.
Qed.
Lemma opLT_verdict lhs rhs : verdict (opLT lhs rhs).
Proof. unfold opLT. case_match; [eauto with go|]. destruct lhs, rhs; cbn; eauto 6 with go. Qed.
Lemma opLE_verdict lhs rhs : verdict (opLE lhs rhs).
Proof. unfold opLE. case_match; [eauto with go|]. destruct lhs, rhs; cbn; eauto 6 with go. Qed.
#[local] Hint Resolve opEqual_verdict opLT_verdict opLE_verdict : go.

(** Comparisons and boolean operators: on any two values they return the
    [int] 0 or 1 or an error, never panic, and give 0 when the left operand, or the
    right operand of a binary one, is null. *)
Theorem comparison_total op f lhs rhs
    (Hop : pure_op op = Some f) (Hcmp : is_comparison op = true) :
  verdict (f lhs rhs) ∧
  (lhs = VNil ∨ (rhs = VNil ∧ op ≠ OpNot) → f lhs rhs = Ret (VInt 0)).
Proof.
  split.
  - destruct op; simpl in *; simplify_eq;
      unfold opNotEqual, opGT, opGE, opAND, opOR, opNot; repeat case_match; eauto 6 with go.
  - intros Hnil. destruct op; simpl in *; simplify_eq;
      unfold opEqual, opLT, opLE, opNotEqual, opGT, opGE, opAND, opOR, opNot;
      destruct Hnil as [->|[-> ?]]; cbn; rewrite ?orb_true_r; done.
Qed.

(** Equality is symmetric: when [==] accepts two values in both orders, it
    gives the same answer. *)
Theorem opEqual_sym lhs rhs v w
    (Hl : opEqual lhs rhs = Ret v) (Hr : opEqual rhs lhs = Ret w) : v = w.
Proof.
  revert Hl Hr. unfold opEqual. rewrite (orb_comm (is_nil rhs)).
  destruct (is_nil lhs || is_nil rhs); [congruence|].
  destruct lhs, rhs; try discriminate; cbn; call_cases; try discriminate;
    intros [= <-] [= <-]; rewrite ?(NearlyEqual_comm _ f), ?(NearlyEqual_comm _ f0), ?(t_Equal_comm t), ?(Z.eqb_sym z),
      ?(String.eqb_sym s); try done.
  all: try by rewrite (Z.eqb_sym a). all: try by rewrite (NearlyEqual_comm f).
Qed.
End comparisons.

Section integers.
Context `{GoArch} `{GoUnicode} `{GoFmt} `{GoZone} `{GoRegexp} `{GoUuid}.

(** The integer a signed operand stands for. *)
Definition signed (v : any) : option Z :=
  match v with VInt z | VInt64 z => Some z | _ => None end.
(** The integer an operand is read as beside a signed one: text is parsed. *)
Definition as_int (v : any) : option Z :=
  match v with
  | VStr s => match String2Int s with Ret z => Some z | _ => None end
  | _ => signed v
  end.

Lemma ToBool_b2i b : ToBool (b2i b) = b.
Proof. by destruct b. Qed.

(** Integer comparisons: when one operand is an [int] or [int64] and the other
    an [int], an [int64] or text that reads as an integer, the six comparison
    operators decide the order of the integers the operands stand for. *)
Theorem integer_comparisons lhs rhs a b
    (Ha : as_int lhs = Some a) (Hb : as_int rhs = Some b)
    (Hsigned : is_Some (signed lhs) ∨ is_Some (signed rhs)) :
  opEqual lhs rhs = Ret (b2i (a =? b)) ∧ opNotEqual lhs rhs = Ret (b2i (negb (a =? b))) ∧
  opLT lhs rhs = Ret (b2i (a <? b)) ∧ opLE lhs rhs = Ret (b2i (a <=? b)) ∧
  opGT lhs rhs = Ret (b2i (b <? a)) ∧ opGE lhs rhs = Ret (b2i (b <=? a)).
Proof.
  unfold as_int in Ha, Hb.
  destruct lhs, rhs; simpl in *; try discriminate; try (destruct Hsigned as [[? ?]|[? ?]]; discriminate);
    repeat case_match; simplify_eq; cbn; unfold opNotEqual, opGT, opGE, opEqual, opLT, opLE; cbn;
    repeat match goal with Hs : String2Int _ = Ret _ |- _ => rewrite Hs; clear Hs end; cbn;
    split_and!; try done; by destruct (a =? b).
Qed.

(** Signed against unsigned: a signed operand that is not positive is never
    equal to, less than or at most an unsigned one, so [0 == 0] and [-1 < 5] are
    false across the two kinds; positive operands compare as integers. *)
Theorem signed_unsigned_comparisons mk z n
    (Hmk : mk = VUint ∨ mk = VUint64) (Hz : in_i64 z) (Hn : in_u64 n) :
  opEqual (VInt z) (mk n) = Ret (b2i ((0 <? z) && (z =? n))) ∧
  opLT (VInt z) (mk n) = Ret (b2i ((0 <? z) && (z <? n))) ∧
  opLE (VInt64 z) (mk n) = Ret (b2i ((0 <? z) && (z <=? n))).
Proof.
  assert (Hu : 0 < z → u64 z = z) by (intros; apply u64_small; width; lia).
  destruct Hmk as [-> | ->]; unfold opEqual, opLT, opLE; cbn; rewrite Z.gtb_ltb;
    (destruct (Z.ltb_spec 0 z); [rewrite Hu by done|]); done.
Qed.

(** Double against text: [<] and [<=] with a double on the left and a number
    as text on the right answer as if the operands were exchanged. *)
Theorem double_text_comparison_reversed f s v (Hs : ParseFloat s = Some v) :
  opLT (VF64 f) (VStr s) = Ret (b2i (f64_lt v f)) ∧ opLT (VF64 f) (VStr s) = opLT (VF64 v) (VF64 f) ∧
  opLE (VF64 f) (VStr s) = Ret (b2i (f64_le v f)) ∧ opLE (VF64 f) (VStr s) = opLE (VF64 v) (VF64 f).
Proof. unfold opLT, opLE. cbn. unfold float_or. rewrite Hs. done. Qed.

(** ** Widths *)

Lemma any_wf_int z : in_i64 z → any_wf (VInt z) = true.
Proof. apply bool_decide_eq_true_2. Qed.
Lemma any_wf_int64 z : in_i64 z → any_wf (VInt64 z) = true.
Proof. apply bool_decide_eq_true_2. Qed.
Lemma any_wf_uint z : in_u64 z → any_wf (VUint z) = true.
Proof. apply bool_decide_eq_true_2. Qed.
Lemma any_wf_uint64 z : in_u64 z → any_wf (VUint64 z) = true.
Proof. apply bool_decide_eq_true_2. Qed.
Lemma any_wf_time t d : any_wf (VTime t) = true → any_wf (VTime (t_Add t d)) = true.
Proof. apply t_Add_wf. Qed.
Lemma any_wf_unix sec nsec : any_wf (VTime (time_toUTC (time_Unix sec nsec))) = true.
Proof. exact (time_Unix_wf sec nsec). Qed.
#[local] Hint Resolve any_wf_int any_wf_int64 any_wf_uint any_wf_uint64 any_wf_time any_wf_unix : go.

Lemma ParseDate_wf s t : ParseDate s = Ret t → any_wf (VTime t) = true.
Proof.
  unfold ParseDate, date_with. case_match; [done|].
  intros ([[y m] d] & _ & [= <-])%res_bind_Ret. apply time_Date_wf.
Qed.

Definition returns_wf (r : res any) : Prop := (∃ e, r = Fail e) ∨ ∃ v, r = Ret v ∧ any_wf v = true.

Lemma returns_ret v : any_wf v = true → returns_wf (Ret v).
Proof. right. eauto. Qed.
Lemma returns_fail e : returns_wf (Fail e).
Proof. left. eauto. Qed.
Lemma returns_bind {A} (r : res A) k :
  settles r → (∀ a, r = Ret a → returns_wf (k a)) → returns_wf (res_bind r k).
Proof. intros [Hr|[e ->]] Hk; [|apply returns_fail]. destruct r; try done. by apply Hk. Qed.
Lemma wrap_err_Ret {A} m (r : res A) a : wrap_err m r = Ret a → r = Ret a.
Proof. by destruct r. Qed.
Lemma any_wf_int_wrap z : any_wf (VInt (i64 z)) = true.
Proof. apply any_wf_int, i64_range. Qed.
Lemma opDIV_cases lhs rhs : returns_wf (opDIV lhs rhs).
Proof.
  unfold opDIV. case_match; [by apply returns_ret|].
  assert (Hd : ∀ v, settles (ToDouble v)) by (intros []; simpl; eauto with go).
  apply returns_bind; [done|intros ? _]. apply returns_bind; [done|intros ? _].
  case_match; by apply returns_ret.
Qed.
Lemma opDMonths_cases lhs rhs : returns_wf (opDMonths lhs rhs).
Proof.
  unfold opDMonths. case_match; [by apply returns_ret|].
  assert (Hd : ∀ side v, settles (dmonths_date side v)) by (intros ? []; simpl; eauto with go).
  apply returns_bind; [done|intros ? _]. apply returns_bind; [done|intros ? _].
  apply returns_ret. simple apply any_wf_int_wrap.
Qed.
Lemma opFindAndReplace_cases lhs rhs : returns_wf (opFindAndReplace lhs rhs).
Proof. unfold opFindAndReplace. repeat case_match; first [apply returns_fail|by apply returns_ret]. Qed.
Lemma opToDate_cases lhs rhs : returns_wf (opToDate lhs rhs).
Proof.
  destruct lhs; unfold opToDate; cbv beta iota zeta;
    first [simple apply returns_fail|simple apply returns_ret|idtac]; try done; try simple apply any_wf_unix.
  apply returns_bind; [by eauto with go|]. intros t Ht%wrap_err_Ret. apply returns_ret. by eapply ParseDate_wf.
Qed.

End integers.

Section round_trips.
Context `{GoArch} `{GoUnicode} `{GoFmt} `{GoZone} `{GoRegexp} `{GoUuid}.

Lemma days_val n : Z.abs n ≤ 106751 → days n = n * 86400 * second.
Proof. intros Hn. unfold days, hour, second. rewrite (i64_small (n * 24)), i64_small by (width; lia). lia. Qed.

Lemma addSec_small ext d : in_i64 ext → in_i64 (ext + d) → addSec ext d = ext + d.
Proof.
  intros He Hs. unfold addSec. rewrite (i64_small (ext + d)) by done.
  destruct (Z.gtb_spec (ext + d) ext), (Z.gtb_spec d 0); simpl; lia.
Qed.

(** Adding whole seconds moves the seconds alone. *)
Lemma t_Add_seconds t n : time_wf t = true → in_i64 (t_sec t + n) →
  t_Add t (n * second) = mkTime (t_sec t + n) (t_nsec t) (t_loc t).
Proof.
  rewrite time_wf_iff. intros [Hs Hn] Hr. unfold t_Add.
  rewrite Z.quot_mul, Z.rem_mul by done. rewrite Z.add_0_r.
  destruct (Z.leb_spec second (t_nsec t)); [lia|]. destruct (Z.ltb_spec (t_nsec t) 0); [lia|].
  by rewrite addSec_small.
Qed.

(** Adding then subtracting: integers come back exactly, whatever the overflow;
    a date moved by up to 106751 days, the most a [time.Duration] holds, moves by
    86400 seconds a day and comes back. *)
Theorem add_sub_round_trip t n a b
    (Ht : time_wf t = true) (Hrange : Z.abs (t_sec t) ≤ 2 ^ 62) (Hn : Z.abs n ≤ 106751)
    (Ha : in_i64 a) :
  (∃ v, opADD (VInt a) (VInt b) = Ret v ∧ opSUB v (VInt b) = Ret (VInt a)) ∧
  (∃ v, opADD (VInt64 a) (VInt b) = Ret v ∧ opSUB v (VInt b) = Ret (VInt64 a)) ∧
  (∃ t', opADD (VTime t) (VInt n) = Ret (VTime t') ∧ opSUB (VTime t') (VInt n) = Ret (VTime t) ∧
         t_sec t' = t_sec t + 86400 * n ∧ t_nsec t' = t_nsec t).
Proof.
  unfold opADD, opSUB. cbn -[t_Add days d_neg]. split_and!.
  - eexists. split; [done|]. cbn. by rewrite i64_add_sub.
  - eexists. split; [done|]. cbn. by rewrite i64_add_sub.
  - rewrite days_val by done. pose proof Ht as [_ Hns]%time_wf_iff. rewrite t_Add_seconds by (done || (width; lia)).
    eexists. split; [done|]. cbn -[t_Add d_neg]. split; [|lia].
    unfold d_neg. rewrite i64_small by (unfold second; width; lia).
    replace (- (n * 86400 * second)) with (- (n * 86400) * second) by lia.
    rewrite t_Add_seconds; cbn [t_sec t_nsec t_loc]; [|apply time_wf_iff; simpl; split; [width; lia|lia]|width; lia].
    destruct t as [ts tn tl]; cbn [t_sec t_nsec t_loc]. do 3 f_equal. lia.
Qed.

(** Milliseconds since the epoch: [TO_DATE] of an [int64] gives the UTC time
    whose seconds and nanoseconds are that many milliseconds, negative counts
    included. *)
Theorem opToDate_millis ms (Hms : in_i64 ms) :
  ∃ t, opToDate (VInt64 ms) VNil = Ret (VTime t) ∧ time_wf t = true ∧ t_loc t = UTC ∧
       t_Unix t * 1000 + t_nsec t / 1000000 = ms.
Proof.
  eexists. split; [done|]. split; [exact (time_Unix_wf _ _)|]. split; [done|].
  unfold t_Unix, time_toUTC, time_Unix, second, unixToInternal. cbn [t_sec t_nsec].
  pose proof (Z.quot_rem' ms 1000). pose proof (Z.rem_bound_abs ms 1000 ltac:(done)).
  assert (Z.abs (Z.quot ms 1000) ≤ 2 ^ 60) by (width; Z.to_euclidean_division_equations; lia).
  rewrite (i64_small (Z.rem ms 1000 * 1000000)) by (width; lia).
  set (q := Z.quot ms 1000) in *. set (r := Z.rem ms 1000) in *. clearbody q r.
  destruct (Z.ltb_spec (r * 1000000) 0); cbn [orb].
  - replace (Z.quot (r * 1000000) 1000000000) with 0 by (symmetry; apply Z.quot_small_iff; lia).
    destruct (Z.ltb_spec (r * 1000000 - 0 * 1000000000) 0); [|lia]. cbn [t_sec t_nsec].
    rewrite !(i64_small (q + 0)), !(i64_small (q + 0 - 1)), (i64_small (q + 0 - 1 + 62135596800)), i64_small
      by (width; lia). Z.to_euclidean_division_equations; lia.
  - destruct (Z.leb_spec 1000000000 (r * 1000000)); [lia|]. cbn [t_sec t_nsec].
    rewrite (i64_small (q + 62135596800)), i64_small by (width; lia). Z.to_euclidean_division_equations; lia.
Qed.

(** ** The sort comparison *)

Lemma string_compare_antisym a b : str_Compare b a = - str_Compare a b.
Proof. unfold str_Compare. rewrite String.compare_antisym. by destruct (String.compare a b). Qed.

Lemma cmpInt64_antisym a b : cmpInt64 b a = - cmpInt64 a b.
Proof. unfold cmpInt64. destruct (Z.ltb_spec a b), (Z.ltb_spec b a), (Z.gtb_spec a b), (Z.gtb_spec b a); lia. Qed.
Lemma cmpInt64_le a b : cmpInt64 a b ≤ 0 ↔ a ≤ b.
Proof. unfold cmpInt64. destruct (Z.ltb_spec a b), (Z.gtb_spec a b); lia. Qed.

Lemma t_Before_spec a b :
  t_Before a b = true ↔ t_sec a < t_sec b ∨ (t_sec a = t_sec b ∧ t_nsec a < t_nsec b).
Proof. unfold t_Before. rewrite orb_true_iff, andb_true_iff, !Z.ltb_lt, Z.eqb_eq. tauto. Qed.
Lemma t_Compare_le a b :
  t_Compare a b ≤ 0 ↔ t_sec a < t_sec b ∨ (t_sec a = t_sec b ∧ t_nsec a ≤ t_nsec b).
Proof.
  unfold t_Compare. pose proof (t_Before_spec a b). pose proof (t_Before_spec b a).
  destruct (t_Before a b), (t_Before b a); split; intros; try lia.
Qed.
Lemma t_Compare_antisym a b : t_Compare b a = - t_Compare a b.
Proof.
  unfold t_Compare. pose proof (t_Before_spec a b). pose proof (t_Before_spec b a).
  destruct (t_Before a b), (t_Before b a); lia.
Qed.

Lemma string_compare_trans a : ∀ b c, str_Compare a b ≤ 0 → str_Compare b c ≤ 0 → str_Compare a c ≤ 0.
Proof.
  unfold str_Compare. induction a as [|x a IH]; intros [|y b] [|z c]; simpl; try lia.
  unfold Ascii.compare. specialize (IH b c).
  destruct (N.compare_spec (N_of_ascii x) (N_of_ascii y)), (N.compare_spec (N_of_ascii y) (N_of_ascii z)),
    (N.compare_spec (N_of_ascii x) (N_of_ascii z)); try lia; done.
Qed.

(** The values the sort compares within one order. *)
Inductive sort_kind := KText | KInteger | KTime.
Definition kind_of (v : any) : option sort_kind :=
  match v with
  | VStr _ => Some KText
  | VInt _ | VInt64 _ => Some KInteger
  | VTime _ => Some KTime
  | _ => None
  end.

(** The sort comparison is a total preorder on a column of one kind (text,
    signed integers of either width, or times): exchanging the operands negates the
    answer, and it is transitive. *)
Theorem CmpRecord_order k a b c
    (Ha : kind_of a = Some k) (Hb : kind_of b = Some k) (Hc : kind_of c = Some k) :
  CmpRecord b a = - CmpRecord a b ∧
  (CmpRecord a b ≤ 0 → CmpRecord b c ≤ 0 → CmpRecord a c ≤ 0).
Proof.
  destruct a, b, c; simpl in *; simplify_eq; unfold CmpRecord; cbn -[Z.le];
    rewrite ?cmpInt64_le, ?t_Compare_le.
  all: try (split; [apply cmpInt64_antisym|lia]).
  - split; [apply string_compare_antisym|apply string_compare_trans].
  - split; [apply t_Compare_antisym|lia].
Qed.

(** Across kinds it is not one: the text "10" sorts before the integer 9, and
    the integer 9 sorts before the text "10". *)
Theorem CmpRecord_mixed :
  CmpRecord (VStr "10") (VInt 9) = -1 ∧ CmpRecord (VInt 9) (VStr "10") = -1.
Proof. by split. Qed.
End round_trips.

(** ** Applications *)

(** A runtime for evaluation: formatting is left empty, a regular expression
    matches its own text, uuids count up. *)
#[global] Instance demo_fmt : GoFmt :=
  {| sprint_other _ := ""; sprintf f _ := f; time_Format _ f := f; FormatFloat _ := ""; FormatFloat32 _ := "" |}.
#[global] Instance demo_regexp : GoRegexp :=
  {| regexp := string; regexp_Compile := Some; FindString r s := if Contains s r then r else "" |}.
#[global] Instance demo_uuid : GoUuid := {| NewString n := Itoa (Z.of_nat n) |}.

Lemma comparison_total_witness :
  verdict (opLT (VInt 1) (VStr "x")) ∧
  (VInt 1 = VNil ∨ (VStr "x" = VNil ∧ OpLT ≠ OpNot) → opLT (VInt 1) (VStr "x") = Ret (VInt 0)).
Proof. apply (comparison_total OpLT opLT); reflexivity. Defined.

Lemma opEqual_sym_witness : VInt 1 = VInt 1.
Proof. apply (opEqual_sym (VStr "7.0") (VInt 7)); vm_compute; reflexivity. Defined.

Lemma integer_comparisons_witness :
  opEqual (VStr "8") (VInt64 9) = Ret (b2i false) ∧ opNotEqual (VStr "8") (VInt64 9) = Ret (b2i true) ∧
  opLT (VStr "8") (VInt64 9) = Ret (b2i true) ∧ opLE (VStr "8") (VInt64 9) = Ret (b2i true) ∧
  opGT (VStr "8") (VInt64 9) = Ret (b2i false) ∧ opGE (VStr "8") (VInt64 9) = Ret (b2i false).
Proof. apply (integer_comparisons (VStr "8") (VInt64 9) 8 9); [reflexivity|reflexivity|right; eexists; reflexivity]. Defined.

Lemma signed_unsigned_comparisons_witness :
  opEqual (VInt 0) (VUint 0) = Ret (b2i false) ∧ opLT (VInt 0) (VUint 0) = Ret (b2i false) ∧
  opLE (VInt64 0) (VUint 0) = Ret (b2i false).
Proof. apply (signed_unsigned_comparisons VUint 0 0); [left; reflexivity|width; lia|width; lia]. Defined.

Lemma double_text_comparison_reversed_witness :
  opLT (VF64 (f64_of_Z 1)) (VStr "2") = Ret (b2i false) ∧
  opLT (VF64 (f64_of_Z 1)) (VStr "2") = opLT (VF64 (f64_of_Z 2)) (VF64 (f64_of_Z 1)) ∧
  opLE (VF64 (f64_of_Z 1)) (VStr "2") = Ret (b2i false) ∧
  opLE (VF64 (f64_of_Z 1)) (VStr "2") = opLE (VF64 (f64_of_Z 2)) (VF64 (f64_of_Z 1)).
Proof. apply (double_text_comparison_reversed (f64_of_Z 1) "2" (f64_of_Z 2)). vm_compute. reflexivity. Defined.

Lemma add_sub_round_trip_witness :
  (∃ v, opADD (VInt 5) (VInt (two63 - 1)) = Ret v ∧ opSUB v (VInt (two63 - 1)) = Ret (VInt 5)) ∧
  (∃ v, opADD (VInt64 5) (VInt (two63 - 1)) = Ret v ∧ opSUB v (VInt (two63 - 1)) = Ret (VInt64 5)) ∧
  (∃ t', opADD (VTime (time_Date 2024 2 29 0 0 0 0)) (VInt (-30)) = Ret (VTime t') ∧
         opSUB (VTime t') (VInt (-30)) = Ret (VTime (time_Date 2024 2 29 0 0 0 0)) ∧
         t_sec t' = t_sec (time_Date 2024 2 29 0 0 0 0) + 86400 * -30 ∧
         t_nsec t' = t_nsec (time_Date 2024 2 29 0 0 0 0)).
Proof.
  apply add_sub_round_trip; [vm_compute; reflexivity|vm_compute; discriminate|vm_compute; discriminate|width; lia].
Defined.

Lemma opToDate_millis_witness :
  ∃ t, opToDate (VInt64 (-1)) VNil = Ret (VTime t) ∧ time_wf t = true ∧ t_loc t = UTC ∧
       t_Unix t * 1000 + t_nsec t / 1000000 = -1.
Proof. apply opToDate_millis. width. lia. Defined.

Lemma CmpRecord_order_witness :
  CmpRecord (VInt64 2) (VInt 1) = - CmpRecord (VInt 1) (VInt64 2) ∧
  (CmpRecord (VInt 1) (VInt64 2) ≤ 0 → CmpRecord (VInt64 2) (VInt 3) ≤ 0 → CmpRecord (VInt 1) (VInt 3) ≤ 0).
Proof. apply (CmpRecord_order KInteger); reflexivity. Defined.
