(* ===== verification/HashKey.v ===== *)
(** * Hash keys

    The preprocessing functions of a key (src/jets/compute_pipes/pipes_preprocessing_fnc.go)
    and the hash evaluator of column_evaluators_hash.go, which assigns a record to a
    partition or computes its domain key. *)
From stdpp Require Import base list strings gmap.
From Stdlib Require Import ZArith Lia Ascii.
From S2P Require Import Prelude GoFloat GoText GoValue DateParser EvalOperators Records.

#[local] Set Warnings "-register-all".

(** ** Preprocessing functions *)

Inductive PreprocessingFunction :=
| DefaultPF (inputPos : Z) (toUpper : bool)
| FormatDatePF (inputPos : Z)
| RemoveMiPF (inputPos : Z) (toUpper : bool).

(** The text before the first occurrence of a byte, and after it. *)
Fixpoint cut_byte (c : ascii) (s : string) : option (string * string) :=
  match s with
  | EmptyString => None
  | String d s' =>
      if ascii_dec d c then Some (EmptyString, s')
      else match cut_byte c s' with Some (a, b) => Some (String d a, b) | None => None end
  end.
Definition newline : ascii := ascii_of_N 10.

(** [^(.*?)\((.*?)\)$]: both groups are lazy and hold no newline, so the first one
    stops at the first parenthesis and the second one at the last byte. *)
Definition preprocessingFncRe (s : string) : option (string * string) :=
  if ContainsByte newline s then None else
  match cut_byte "(" s with
  | None => None
  | Some (f, rest) => if HasSuffix rest ")" then Some (f, TrimSuffix rest ")") else None
  end.

Section preprocessing.
Context `{GoUnicode} `{GoFmt} `{GoZone}.

Definition ParsePreprocessingExpression (expr : string) (toUpper : bool) (columns : gmap string Z)
  : res PreprocessingFunction :=
  match preprocessingFncRe expr with
  | None =>
      match columns !! expr with
      | None => Fail "error in ParsePreprocessingExpressions: column not found"
      | Some pos => Ret (DefaultPF pos toUpper)
      end
  | Some (fnc, column) =>
      match columns !! column with
      | None => Fail "error in ParsePreprocessingExpressions: column not found, taken from"
      | Some pos =>
          if String.eqb (ToLower fnc) "format_date" then Ret (FormatDatePF pos)
          else if String.eqb (ToLower fnc) "remove_mi" then Ret (RemoveMiPF pos toUpper)
          else Fail "error in ParsePreprocessingExpressions: key definition has an unknown preprocessing function"
      end
  end.
Fixpoint ParsePreprocessingExpressions (exprs : list string) (toUpper : bool) (columns : gmap string Z)
  : res (list PreprocessingFunction) :=
  match exprs with
  | [] => Ret []
  | e :: exprs' =>
      let! pf := ParsePreprocessingExpression e toUpper columns in
      let! pfs := ParsePreprocessingExpressions exprs' toUpper columns in
      Ret (pf :: pfs)
  end.

Definition upper_if (toUpper : bool) (s : string) : string := if toUpper then ToUpper s else s.
Definition format_ymd (y m d : Z) : string := Itoa y +:+ fmt_0d 2 m +:+ fmt_0d 2 d.

(** [value[:l-2]] when [value[l-2]] is a space. *)
Definition remove_mi (value : string) : string :=
  let l := String.length value in
  if (2 <? l)%nat then
    match String.get (l - 2) value with
    | Some c => if ascii_dec c " " then str_take (l - 2) value else value
    | None => value
    end
  else value.

(** What [ApplyPF] appends to the buffer. *)
Definition ApplyPF (pf : PreprocessingFunction) (input : record) : res string :=
  match pf with
  | DefaultPF pos toUpper =>
      let! v := at_pos input pos in
      Ret match v with
          | VStr vv => upper_if toUpper vv
          | VBytes vv => vv
          | VNil => EmptyString
          | VTime vv => Itoa (t_Unix vv)
          | _ => sprint_v v
          end
  | FormatDatePF pos =>
      let! v := at_pos input pos in
      match v with
      | VStr vv =>
          match ParseDateComponents vv with
          | Ret (y, m, d) => Ret (format_ymd y m d)
          | Fail _ => Ret EmptyString
          | Panic e => Panic e
          | Loop => Loop
          end
      | VBytes vv => Ret vv
      | VNil => Ret EmptyString
      | VTime vv => Ret (format_ymd (t_Year vv) (t_Month vv) (t_Day vv))
      | _ => Ret (sprint_v v)
      end
  | RemoveMiPF pos toUpper =>
      let! v := at_pos input pos in
      Ret match v with VStr value => remove_mi (upper_if toUpper value) | _ => EmptyString end
  end.

Fixpoint alternate_parts (delimit : string) (first : bool) (key : list PreprocessingFunction) (input : record) : res string :=
  match key with
  | [] => Ret EmptyString
  | pf :: key' =>
      let! s := ApplyPF pf input in
      let! rest := alternate_parts delimit false key' input in
      Ret ((if first then EmptyString else delimit) +:+ s +:+ rest)
  end.
Definition makeAlternateKey (compositeKey : list PreprocessingFunction) (delimit : string) (input : record) : res string :=
  alternate_parts delimit true compositeKey input.
End preprocessing.

(** ** Hashing *)

(** [fnv.New64a] *)
Definition fnv_offset : Z := 14695981039346656037.
Definition fnv_prime : Z := 1099511628211.
Fixpoint fnv64a (h : Z) (key : string) : Z :=
  match key with
  | EmptyString => h
  | String c key' => fnv64a (u64 (Z.lxor h (byte_of c) * fnv_prime)) key'
  end.

Definition partition (key partitions : Z) : Z := if 0 <? partitions then key mod partitions else key.
Definition Hash (key : string) (partitions : Z) : Z := partition (fnv64a fnv_offset key) partitions.

(** [math/rand]: the [k]-th number drawn below a positive bound. *)
Class GoRand := {
  rand_Int63n : nat → Z → Z;
  rand_bound k n : 0 < n → 0 ≤ rand_Int63n k n < n }.

(** The settings of the process for domain keys, from its environment, and the name
    based uuids under its seed. *)
Class DomainKeyEnv := {
  HashingAlgo : string;
  DomainKeyDelimit : string;
  uuid_NewSHA1 : string → string;
  uuid_NewMD5 : string → string }.

Inductive HashingAlgoEnum := HashingAlgo_None | HashingAlgo_SHA1 | HashingAlgo_MD5.

Record HashEvaluator := mkHashEvaluator {
  he_inputPos : Z; he_compositeInputKey : list PreprocessingFunction; he_partitions : Z;
  he_altInputKey : list PreprocessingFunction; he_computeDomainKey : bool;
  he_hashingAlgo : HashingAlgoEnum; he_delimit : string }.

Section hash.
Context `{GoArch} `{GoUnicode} `{GoFmt} `{GoZone} `{GoRand} `{DomainKeyEnv}.

(** [EvalHash], with the number of random numbers drawn so far. *)
Definition EvalHash (key : any) (partitions : Z) (n : nat) : nat * res Z :=
  match key with
  | VNil =>
      if 0 <? partitions then
        let bound := i64 partitions in
        if bound <=? 0 then (n, Panic "invalid argument to Int63n") else (S n, Ret (u64 (rand_Int63n n bound)))
      else (n, Ret 0)
  | VStr vv | VBytes vv => (n, Ret (Hash vv partitions))
  | VInt vv | VUint vv | VInt32 vv | VUint32 vv | VInt64 vv | VUint64 vv => (n, Ret (partition (u64 vv) partitions))
  | VBool vv => (n, Ret (if vv then 1 else 0))
  | VTime vv => (n, Ret (partition (u64 (t_Unix vv)) partitions))
  | _ => (n, Ret (Hash (sprint_v key) partitions))
  end.

Definition ComputeDomainKey (ctx : HashEvaluator) (input : record) : res any :=
  let! data :=
    if -1 <? he_inputPos ctx then
      if he_inputPos ctx <? Z.of_nat (length input) then
        let! v := at_pos input (he_inputPos ctx) in
        match v with
        | VStr inputVal => Ret inputVal
        | _ => Fail "error: ComputeDomainKey expected string value"
        end
      else Fail "error: ComputeDomainKey called with invalid read key position"
    else makeAlternateKey (he_compositeInputKey ctx) (he_delimit ctx) input in
  Ret (VStr match he_hashingAlgo ctx with
            | HashingAlgo_None => data
            | HashingAlgo_SHA1 => uuid_NewSHA1 data
            | HashingAlgo_MD5 => uuid_NewMD5 data
            end).

(** The value that is hashed: at a position, or the bytes of the composite key. *)
Definition hash_input (ctx : HashEvaluator) (input : record) : res any :=
  if -1 <? he_inputPos ctx then
    if he_inputPos ctx <? Z.of_nat (length input) then at_pos input (he_inputPos ctx)
    else Fail "error: HashEvaluator.ComputeHash called with invalid read key position"
  else match he_compositeInputKey ctx with
  | [] => Ret VNil
  | key => let! buf := wrap_err "while making composite key for HashEvaluator.ComputeHash" (makeAlternateKey key EmptyString input) in
           Ret (VBytes buf)
  end.

Definition hash_value (ctx : HashEvaluator) (input : record) : res any :=
  let! inputVal := hash_input ctx input in
  match inputVal, he_altInputKey ctx with
  | VNil, (_ :: _) as alt => let! buf := makeAlternateKey alt EmptyString input in Ret (VBytes buf)
  | _, _ => Ret inputVal
  end.

Definition ComputeHash (ctx : HashEvaluator) (input : record) (n : nat) : nat * res any :=
  if he_computeDomainKey ctx then (n, ComputeDomainKey ctx input)
  else match hash_value ctx input with
  | Ret inputVal => let '(n, h) := EvalHash inputVal (he_partitions ctx) n in (n, let! h := h in Ret (VUint64 h))
  | Fail e => (n, Fail e)
  | Panic e => (n, Panic e)
  | Loop => (n, Loop)
  end.

(** ** Building *)

Record HashExpression := mkHashExpr {
  hx_Expr : string; hx_CompositeExpr : list string; hx_DomainKey : string;
  hx_NbrJetsPartitionsAny : any; hx_MaxNbrJetsPartitionsAny : any; hx_MultiStepShardingMode : string;
  hx_AlternateCompositeExpr : list string; hx_NoPartitions : bool; hx_ComputeDomainKey : bool }.

Record ShardingInfo := mkShardingInfo { MultiStepSharding : Z; MaxNbrPartitions : Z; si_NbrPartitions : Z }.

Definition NbrPartitions (info : ShardingInfo) (mode : string) : Z :=
  let n := si_NbrPartitions info in
  if String.eqb mode "limited_range" then n
  else if String.eqb mode "full_range" then (if 0 <? MultiStepSharding info then i64 (n * n) else n)
  else if 0 <? MultiStepSharding info then
    (if MaxNbrPartitions info <? i64 (n * n) then MaxNbrPartitions info else i64 (n * n))
  else n.

Definition toInt (value : any) : res Z :=
  match ToInt value with Fail _ => Ret 0 | r => r end.

Definition is_empty (s : string) : bool := (String.length s =? 0)%nat.

(** The hashing algorithm of a domain key, and whether its parts are upper-cased. *)
Definition hashing_of (dk : option DomainKeysSpec) (keys : list string) : res (HashingAlgoEnum * bool) :=
  let '(algo, toUpper) :=
    match dk with
    | Some dk =>
        if is_empty (HashingOverride dk) then (HashingAlgo, true)
        else (HashingOverride dk,
              if String.eqb (HashingOverride dk) "none" then (1 <? length keys)%nat else true)
    | None => (HashingAlgo, true)
    end in
  if String.eqb algo "sha1" then Ret (HashingAlgo_SHA1, toUpper)
  else if String.eqb algo "md5" then Ret (HashingAlgo_MD5, toUpper)
  else if String.eqb algo "none" then Ret (HashingAlgo_None, toUpper)
  else Fail "error: unknown hashing algo for computing domain key, expecting sha1, md5 or none".

Definition hash_partitions (info : ShardingInfo) (spec : HashExpression) : res Z :=
  if hx_NoPartitions spec then Ret 0
  else if negb (is_nil (hx_NbrJetsPartitionsAny spec)) then toInt (hx_NbrJetsPartitionsAny spec)
  else
    let partitions := NbrPartitions info (hx_MultiStepShardingMode spec) in
    if is_nil (hx_MaxNbrJetsPartitionsAny spec) then Ret partitions
    else let! m := toInt (hx_MaxNbrJetsPartitionsAny spec) in Ret (Z.min partitions m).

(** The key columns of a composite key or of a domain key. *)
Definition hash_keys (source : InputChannel) (spec : HashExpression) : res (list string) :=
  let! keys :=
    if is_empty (hx_DomainKey spec) then Ret (hx_CompositeExpr spec)
    else match ic_DomainKeySpec source with
    | None => Fail "error: hash operator is configured with domain key but no domain key spec available"
    | Some dk => Ret (default [] (DomainKeys dk !! hx_DomainKey spec))
    end in
  match keys with
  | [] => Fail "error: hash operator configured as domain key or composite key has no columns"
  | _ => Ret keys
  end.

Definition set_spec (spec : HashExpression) (composite : list string) : HashExpression :=
  mkHashExpr (hx_Expr spec) composite (hx_DomainKey spec) (hx_NbrJetsPartitionsAny spec)
    (hx_MaxNbrJetsPartitionsAny spec) (hx_MultiStepShardingMode spec) (hx_AlternateCompositeExpr spec)
    (hx_NoPartitions spec || hx_ComputeDomainKey spec) (hx_ComputeDomainKey spec).

(** The evaluator, and the specification it is built from, which the builder writes. *)
Definition NewHashEvaluator (info : ShardingInfo) (source : InputChannel) (spec : HashExpression)
  : HashExpression * res HashEvaluator :=
  let exprLen := negb (is_empty (hx_Expr spec)) in
  let compositeLen := negb (length (hx_CompositeExpr spec) =? 0)%nat in
  let domainKeyLen := negb (is_empty (hx_DomainKey spec)) in
  if exprLen && (compositeLen || domainKeyLen) then
    (spec, Fail "error: HashExpression cannot have both Expr and CompositeExpr/DomainKey")
  else if compositeLen && domainKeyLen then
    (spec, Fail "error: HashExpression cannot have both CompositeExpr and DomainKey")
  else if negb exprLen && negb compositeLen && negb domainKeyLen then
    (spec, Fail "error: HashExpression must have one of Expr, CompositeExpr or DomainKey")
  else
    let found := if exprLen then ic_Columns source !! hx_Expr spec else None in
    let missing := exprLen && match found with None => true | Some _ => false end in
    let spec' := set_spec spec (if missing then [hx_Expr spec] else hx_CompositeExpr spec) in
    (spec',
     let! kind :=
       if missing || compositeLen || domainKeyLen then
         let! keys := hash_keys source spec' in
         let! algo := if hx_ComputeDomainKey spec then hashing_of (ic_DomainKeySpec source) keys
                      else Ret (HashingAlgo_None, true) in
         let! key := wrap_err "while calling ParsePreprocessingExpressions"
                       (ParsePreprocessingExpressions keys algo.2 (ic_Columns source)) in
         Ret (key, algo.1)
       else Ret ([], HashingAlgo_None) in
     let! partitions := hash_partitions info spec' in
     let! alt := wrap_err "in source name"
                   (ParsePreprocessingExpressions (hx_AlternateCompositeExpr spec) true (ic_Columns source)) in
     Ret (mkHashEvaluator (default (-1) found) kind.1 (u64 partitions) alt (hx_ComputeDomainKey spec) kind.2 DomainKeyDelimit)).
End hash.
