(* ===== verification/RdfCast.v ===== *)
(** * Casting record fields to a semantic type

    Models [CastToRdfType] and its cases, and the inverse [encodeRdfTypeToTxt], of
    src/jets/compute_pipes/jetrules_rdf.go, with [ParseBool] of
    src/jets/jetrules/rdf/ast.go.  The [*bool] that asks for an array is an
    [option bool]. *)
From stdpp Require Import base list strings.
From Stdlib Require Import ZArith Lia SpecFloat Ascii.
From S2P Require Import Prelude GoFloat GoText GoTextLaws GoValue DateParser EvalOperators EvalOperatorsLaws.

Section cast.
Context `{GoArch} `{GoUnicode} `{GoFmt} `{GoZone}.

Definition one_of (s : string) (l : list string) : bool := existsb (String.eqb s) l.

Definition ParseBool (value : string) : res bool :=
  let v := ToLower (TrimSpace value) in
  if one_of v ["true"; "t"; "yes"; "y"; "1"]%string then Ret true
  else if one_of v ["false"; "f"; "no"; "n"; "0"]%string then Ret false
  else if String.eqb v EmptyString then Fail "null bool"
  else Fail "is not a bool: expecting true, t, yes, y, 1 or false, f, no, n, 0".

Definition is_text t := one_of t ["text"; "string"]%string.
Definition is_double t := one_of t ["double"; "float64"]%string.
Definition is_int t := one_of t ["int"; "integer"; "int64"; "long"]%string.
Definition is_uint t := one_of t ["uint"; "uint64"; "ulong"]%string.

(** The single value of the last [switch] of [castToRdfTypeFromTxt]. *)
Definition cast_txt_single (inValue rdfType : string) : res any :=
  if one_of rdfType ["text"; "string"; "resource"]%string then Ret (VStr inValue)
  else if String.eqb rdfType "date" then
    let! dt := ParseDate inValue in Ret (VTime dt)
  else if is_double rdfType then
    let! v := float_or "strconv.ParseFloat" inValue in Ret (VF64 v)
  else if is_int rdfType then
    let! v := String2Int inValue in Ret (VInt v)
  else if is_uint rdfType then
    let! v := String2UInt inValue in Ret (VUint v)
  else if String.eqb rdfType "bool" then
    let! b := ParseBool inValue in Ret (b2i b)
  else if String.eqb rdfType "datetime" then
    let! dt := ParseDatetime inValue in Ret (VTime dt)
  else Fail "error: unknown rdfType for conversion from string".

(** [castToRdfTypeFromTxt(s, rdfType, new(false))]. *)
Definition cast_txt_scalar (inValue rdfType : string) : res any :=
  let inValue := TrimSpace inValue in
  if (String.length inValue =? 0)%nat then Ret VNil
  else cast_txt_single inValue rdfType.

Definition brace_open : string := "{".
Definition brace_close : string := "}".
Definition arr_open : string := String "{" (String dquote EmptyString).
Definition arr_close : string := String dquote "}".
Definition arr_sep : string := String dquote (String "," (String dquote EmptyString)).

(** The elements of a text array; null elements are dropped. *)
Fixpoint cast_txt_all (rdfType : string) (values : list string) : res (list any) :=
  match values with
  | [] => Ret []
  | x :: values' =>
      let! v := wrap_err "while casting array value" (cast_txt_scalar x rdfType) in
      let! vs := cast_txt_all rdfType values' in
      Ret (if is_nil v then vs else v :: vs)
  end.

Definition castToRdfTypeFromTxt (inValue rdfType : string) (isArray : option bool) : res any :=
  match isArray with
  | Some false => cast_txt_scalar inValue rdfType
  | _ =>
      let inValue := TrimSpace inValue in
      if (String.length inValue =? 0)%nat then Ret VNil
      else if HasPrefix inValue brace_open && HasSuffix inValue brace_close then
        if (String.length inValue =? 2)%nat then Ret VNil
        else
          let! vs := cast_txt_all rdfType
            (Split (TrimSuffix (TrimPrefix inValue arr_open) arr_close) arr_sep) in
          Ret (VSlice vs)
      else
        let! v := wrap_err "while casting array value(2)" (cast_txt_scalar inValue rdfType) in
        match isArray with
        | Some true => Ret (VSlice [v])
        | _ => Ret v
        end
  end.

(** [if isArray { return []any{v} } return v]. *)
Definition arrayed (isArray : option bool) (v : any) : any :=
  match isArray with Some true => VSlice [v] | _ => v end.

Definition castToRdfTypeFromInt (inValue : Z) (rdfType : string) (isArray : option bool) : res any :=
  if is_text rdfType then Ret (arrayed isArray (VStr (Itoa inValue)))
  else if is_double rdfType then Ret (arrayed isArray (VF64 (f64_of_Z inValue)))
  else if is_int rdfType then Ret (arrayed isArray (VInt inValue))
  else if is_uint rdfType then Ret (arrayed isArray (VUint (u64 inValue)))
  else if String.eqb rdfType "bool" then Ret (arrayed isArray (b2i (inValue >? 0)))
  else Fail "error: invalid rdfType for input value of type int".

Definition castToRdfTypeFromUInt (inValue : Z) (rdfType : string) (isArray : option bool) : res any :=
  if is_text rdfType then Ret (arrayed isArray (VStr (Itoa inValue)))
  else if is_double rdfType then Ret (arrayed isArray (VF64 (f64_of_Z inValue)))
  else if is_int rdfType then Ret (arrayed isArray (VInt (i64 inValue)))
  else if is_uint rdfType then Ret (arrayed isArray (VUint inValue))
  else if String.eqb rdfType "bool" then Ret (arrayed isArray (b2i (inValue >? 0)))
  else Fail "error: invalid rdfType for input value of type uint".

(** [Time.UnixMilli]. *)
Definition t_UnixMilli (t : Time) : Z := i64 (i64 (t_Unix t * 1000) + Z.quot (t_nsec t) 1000000).
Definition datetime_layout : string := "2006-01-02T15:04:05".

Definition castToRdfTypeFromTime (inValue : Time) (rdfType : string) (isArray : option bool) : res any :=
  if is_text rdfType then Ret (arrayed isArray (VStr (time_Format inValue datetime_layout)))
  else if is_int rdfType then Ret (arrayed isArray (VInt (t_UnixMilli inValue)))
  else if is_uint rdfType then Ret (arrayed isArray (VUint (u64 (t_UnixMilli inValue))))
  else if String.eqb rdfType "bool" then Ret (arrayed isArray (b2i (t_Unix inValue >? 0)))
  else Fail "error: invalid rdfType for input value of type time.Time".

Definition castToRdfTypeFromDouble (inValue : float64) (rdfType : string) (isArray : option bool) : res any :=
  if is_text rdfType then Ret (arrayed isArray (VStr (FormatFloat inValue)))
  else if is_double rdfType then Ret (arrayed isArray (VF64 inValue))
  else if is_int rdfType then Ret (arrayed isArray (VInt (f64_to_i64 inValue)))
  else if is_uint rdfType then Ret (arrayed isArray (VUint (f64_to_u64 inValue)))
  else if String.eqb rdfType "bool" then Ret (arrayed isArray (b2i (f64_lt f64_0 inValue)))
  else Fail "error: invalid rdfType for input value of type double".

(** ** Slices *)

Section slices.
(** [CastToRdfType(_, rdfType, new(false))]. *)
Variable cast : any → res any.

Fixpoint cast_all (l : list any) : res (list any) :=
  match l with
  | [] => Ret []
  | v :: l' =>
      if is_nil v then cast_all l'
      else
        let! elm := wrap_err "while casting an array elm" (cast v) in
        let! rest := cast_all l' in
        Ret (elm :: rest)
  end.

Fixpoint cast_first (l : list any) : res any :=
  match l with
  | [] => Ret VNil
  | v :: l' => if is_nil v then cast_first l' else cast v
  end.

Definition CastSliceToRdfType (inValue : list any) (isArray : option bool) : res any :=
  match inValue with
  | [] => Ret VNil
  | _ =>
      match isArray with
      | None =>
          let! result := cast_all inValue in
          Ret (match result with [v] => v | _ => VSlice result end)
      | Some true => let! result := cast_all inValue in Ret (VSlice result)
      | Some false => cast_first inValue
      end
  end.
End slices.

Fixpoint CastToRdfType (inValue : any) (rdfType : string) (isArray : option bool) : res any :=
  match inValue with
  | VNil => Ret VNil
  | VStr vv => castToRdfTypeFromTxt vv rdfType isArray
  | VSlice vv => CastSliceToRdfType (λ v, CastToRdfType v rdfType (Some false)) vv isArray
  | VInt vv | VInt32 vv | VInt64 vv => castToRdfTypeFromInt vv rdfType isArray
  | VUint vv | VUint32 vv | VUint64 vv => castToRdfTypeFromUInt vv rdfType isArray
  | VTime vv => castToRdfTypeFromTime vv rdfType isArray
  | VF64 vv | VF32 vv => castToRdfTypeFromDouble vv rdfType isArray
  | _ => Fail "error: unknown type for casting as rdfType"
  end.

(** ** Encoding *)

(** [Time.IsZero]. *)
Definition t_IsZero (t : Time) : bool := (t_sec t =? 0) && (t_nsec t =? 0).

Fixpoint encodeRdfTypeToTxt (inValue : any) : string :=
  match inValue with
  | VStr vv => vv
  | VNil => EmptyString
  | VSlice vv => arr_open +:+ join arr_sep (map encodeRdfTypeToTxt vv) +:+ arr_close
  | VInt vv | VInt32 vv | VInt64 vv | VUint vv | VUint32 vv | VUint64 vv => Itoa vv
  | VF64 vv => FormatFloat vv
  | VF32 vv => FormatFloat32 vv
  | VTime vv =>
      if t_IsZero vv then EmptyString
      else if (t_daysec vv =? 0) && (t_nsec vv =? 0) then time_Format vv "2006-01-02"
      else time_Format vv datetime_layout
  | VBool vv => if vv then "1" else "0"
  | VBytes vv => vv
  | VSet _ | VStrs _ | VStrSet _ | VOther _ => sprint_other inValue
  end.
End cast.

(** ** Laws *)

Section laws.
Context `{GoArch} `{GoUnicode} `{GoFmt} `{GoZone}.

(** The types a scalar cast is idempotent at. *)
Definition stable_type (rdfType : string) : bool :=
  is_double rdfType || is_int rdfType || is_uint rdfType || String.eqb rdfType "bool".

Lemma one_of_In s l : one_of s l = true ↔ In s l.
Proof.
  unfold one_of. rewrite existsb_exists. setoid_rewrite String.eqb_eq. split; [by intros (? & ? & <-)|eauto].
Qed.

Lemma stable_type_cases t : stable_type t = true →
  In t ["double"; "float64"; "int"; "integer"; "int64"; "long"; "uint"; "uint64"; "ulong"; "bool"]%string.
Proof.
  unfold stable_type, is_double, is_int, is_uint. rewrite !orb_true_iff, !one_of_In, String.eqb_eq.
  simpl. intuition congruence.
Qed.

(** The value a text cast makes has the Go type of its semantic type, and casting
    it again gives it back. *)
Lemma cast_txt_single_again s t v b : stable_type t = true → cast_txt_single s t = Ret v →
  CastToRdfType v t (Some b) = Ret (arrayed (Some b) v) ∧ CastToRdfType v t None = Ret v.
Proof.
  intros Ht%stable_type_cases. simpl in Ht.
  repeat destruct Ht as [<-|Ht]; try done; unfold cast_txt_single; cbn;
    intros (x & Hx & [= <-])%res_bind_Ret; cbn; split; try done; by destruct x.
Qed.

(** Casting is idempotent for numbers and booleans: a text cast to one of these
    types gives null, or a value which the same cast returns unchanged. *)
Theorem cast_idempotent s t v (Ht : stable_type t = true)
    (Hv : CastToRdfType (VStr s) t (Some false) = Ret v) :
  CastToRdfType v t (Some false) = Ret v ∧ CastToRdfType v t None = Ret v.
Proof.
  cbn in Hv. unfold cast_txt_scalar in Hv. cbv zeta in Hv. case_match; [by injection Hv as <-|].
  destruct (cast_txt_single_again (TrimSpace s) t v false Ht Hv) as [-> ->]. done.
Qed.

(** Casting a date again is an error: the [time.Time] a text cast to [date] or
    [datetime] gives is not accepted by the same cast. *)
Theorem cast_date_again s t v (Ht : t = "date"%string ∨ t = "datetime"%string)
    (Hv : CastToRdfType (VStr s) t (Some false) = Ret v) (Hnn : v ≠ VNil) :
  CastToRdfType v t (Some false) = Fail "error: invalid rdfType for input value of type time.Time".
Proof.
  cbn in Hv. unfold cast_txt_scalar in Hv. cbv zeta in Hv. case_match; [by injection Hv as <-|].
  unfold cast_txt_single in Hv. destruct Ht as [-> | ->]; cbn in Hv;
    apply res_bind_Ret in Hv as (x & _ & [= <-]); done.
Qed.

(** ** Text arrays *)

(** An element the encoding keeps: trimmed, non-empty ASCII without quotes. *)
Definition plain_elt (s : string) : bool :=
  isASCII s && free_of dquote s && negb (String.length s =? 0)%nat && String.eqb (TrimSpace s) s.

Lemma cast_txt_all_plain l : Forall (λ s, plain_elt s = true) l →
  cast_txt_all "text" l = Ret (VStr <$> l).
Proof.
  induction 1 as [|s l Hs _ IH]; [done|]. cbn [cast_txt_all]. unfold cast_txt_scalar.
  unfold plain_elt in Hs. rewrite !andb_true_iff, negb_true_iff, String.eqb_eq in Hs.
  destruct Hs as [[_ Hne] Ht]. rewrite Ht, Hne. cbn. by rewrite IH.
Qed.

Lemma join_ascii sep l : isASCII sep = true → Forall (λ s, isASCII s = true) l → isASCII (join sep l) = true.
Proof.
  intros Hsep. induction 1 as [|s l Hs Hl IH]; [done|]. destruct l as [|s' l]; [done|].
  change (join sep (s :: s' :: l)) with (s +:+ sep +:+ join sep (s' :: l)).
  unfold isASCII in *. by rewrite !str_all_app, Hs, Hsep, IH.
Qed.

Lemma chars_app a b : chars (a +:+ b) = chars a ++ chars b.
Proof. induction a as [|c a IH]; [done|]. rewrite str_app_cons. simpl. by rewrite IH. Qed.

Lemma TrimSpace_array body : isASCII body = true →
  TrimSpace (arr_open +:+ body +:+ arr_close) = arr_open +:+ body +:+ arr_close.
Proof.
  intros Hb. eapply TrimSpace_ends; [|reflexivity| | |].
  - unfold isASCII in *. by rewrite !str_all_app, Hb.
  - rewrite !chars_app, !rev_app_distr. reflexivity.
  - done.
  - done.
Qed.

(** Array round trip: a non-empty list of trimmed, non-empty ASCII texts without
    double quotes, encoded as a text array and cast back as an array of text, is
    the same list. *)
Theorem text_array_round_trip l (Hne : l ≠ []) (Hl : Forall (λ s, plain_elt s = true) l) :
  CastToRdfType (VStr (encodeRdfTypeToTxt (VSlice (VStr <$> l)))) "text" (Some true)
    = Ret (VSlice (VStr <$> l)).
Proof.
  assert (Hmap : map encodeRdfTypeToTxt (VStr <$> l) = l).
  { clear. induction l as [|s l IH]; [done|]. exact (f_equal (cons s) IH). }
  assert (Ha : isASCII (join arr_sep l) = true).
  { apply join_ascii; [done|]. eapply Forall_impl; [exact Hl|]. unfold plain_elt. intros s Hs.
    rewrite !andb_true_iff in Hs. tauto. }
  cbn [encodeRdfTypeToTxt CastToRdfType]. rewrite Hmap. unfold castToRdfTypeFromTxt.
  rewrite TrimSpace_array by done. cbv zeta. change (String.length (arr_open +:+ ?x) =? 0)%nat with false.
  assert (HasPrefix (arr_open +:+ join arr_sep l +:+ arr_close) brace_open = true) as -> by done.
  assert (HasSuffix (arr_open +:+ join arr_sep l +:+ arr_close) brace_close = true) as ->.
  { change arr_close with (String dquote EmptyString +:+ brace_close). rewrite !str_app_assoc. apply HasSuffix_app. }
  assert ((String.length (arr_open +:+ join arr_sep l +:+ arr_close) =? 2)%nat = false) as ->.
  { rewrite !str_length_app. simpl (String.length arr_open). simpl (String.length arr_close).
    apply Nat.eqb_neq. lia. }
  cbn [andb]. rewrite TrimPrefix_app, TrimSuffix_app. unfold arr_sep. rewrite (Split_join dquote) by
    (done || (eapply Forall_impl; [exact Hl|]; unfold plain_elt; intros s Hs; rewrite !andb_true_iff in Hs; tauto)).
  by rewrite cast_txt_all_plain.
Qed.

(** Integer round trip: the text of an integer, as the encoding writes it, casts
    back to that integer, and to its double and its text at those types. *)
Theorem integer_round_trip z (Hz : in_i64 z) :
  CastToRdfType (VStr (encodeRdfTypeToTxt (VInt z))) "int" None = Ret (VInt z) ∧
  CastToRdfType (VStr (encodeRdfTypeToTxt (VInt64 z))) "text" (Some false) = Ret (VStr (Itoa z)) ∧
  castToRdfTypeFromInt z "text" (Some false) = Ret (VStr (encodeRdfTypeToTxt (VInt z))).
Proof.
  cbn [encodeRdfTypeToTxt CastToRdfType]. destruct (Itoa_plain z) as (_ & _ & Hne).
  assert (Hlen : (String.length (Itoa z) =? 0)%nat = false).
  { by destruct (Itoa z). }
  split_and!.
  - unfold castToRdfTypeFromTxt, cast_txt_scalar. rewrite !TrimSpace_Itoa, Hlen.
    assert (HasPrefix (Itoa z) brace_open = false) as -> by apply Itoa_no_brace.
    cbn [andb]. unfold cast_txt_single. cbn. unfold String2Int. by rewrite Atoi_Itoa.
  - unfold castToRdfTypeFromTxt, cast_txt_scalar. by rewrite TrimSpace_Itoa, Hlen.
  - done.
Qed.
End laws.

Lemma cast_idempotent_witness :
  CastToRdfType (VInt 7) "int" (Some false) = Ret (VInt 7) ∧ CastToRdfType (VInt 7) "int" None = Ret (VInt 7).
Proof. apply (cast_idempotent " 7.0 " "int"); vm_compute; reflexivity. Defined.

Lemma cast_date_again_witness :
  CastToRdfType (VTime (time_Date 2024 2 29 0 0 0 0)) "date" (Some false)
    = Fail "error: invalid rdfType for input value of type time.Time".
Proof.
  apply (cast_date_again "2024-02-29" "date"); [left; reflexivity|vm_compute; reflexivity|discriminate].
Defined.

Lemma text_array_round_trip_witness :
  CastToRdfType (VStr (encodeRdfTypeToTxt (VSlice [VStr "a b"; VStr "c,d"]))) "text" (Some true)
    = Ret (VSlice [VStr "a b"; VStr "c,d"]).
Proof. apply (text_array_round_trip ["a b"; "c,d"]%string); [discriminate|repeat constructor]. Defined.

Lemma integer_round_trip_witness :
  CastToRdfType (VStr (encodeRdfTypeToTxt (VInt (-42)))) "int" None = Ret (VInt (-42)) ∧
  CastToRdfType (VStr (encodeRdfTypeToTxt (VInt64 (-42)))) "text" (Some false) = Ret (VStr (Itoa (-42))) ∧
  castToRdfTypeFromInt (-42) "text" (Some false) = Ret (VStr (encodeRdfTypeToTxt (VInt (-42)))).
Proof. apply integer_round_trip. width. lia. Defined.
