(* ===== verification/EvalExpression.v ===== *)
(** * Column expressions

    Models src/jets/compute_pipes/eval_expression.go: the evaluator nodes, the
    reading of literal values and of environment variables, and
    [BuildExprNodeEvaluator].

    An evaluator carries the state of its operators (the regular expression an
    APPLY_REGEX node keeps), so [Eval] returns the evaluator it leaves behind.
    The uuid generator is the supply of EvalOperators.v, threaded by a counter. *)
From stdpp Require Import base list strings gmap.
From Stdlib Require Import ZArith Lia SpecFloat Ascii.
From S2P Require Import Prelude GoFloat GoText GoTextLaws GoValue DateParser.
From S2P Require Import EvalOperators EvalOperatorsLaws RdfCast.

#[local] Set Warnings "-register-all".

(** ** The specification (pipesmodel/model.go) *)

Inductive ExpressionNode := mkNode {
  Type_ : string; Expr : string; ExprPos : option Z; ExprList : list string;
  MaxEnvVarSubstitution : Z; ExprEnvVarProxy : string; AsRdfType : string;
  Farg : list ExpressionNode; Arg : option ExpressionNode; Lhs : option ExpressionNode;
  Op : string; Rhs : option ExpressionNode; Default : option ExpressionNode }.

(** What the evaluator is given: a record, the environment, or anything else. *)
Inductive evalInput :=
| InRow (row : list any)
| InEnv (env : gmap string any)
| InOther.

(** ** Evaluators *)

(** [time.Now().Year()]. *)
Class GoClock := { current_year : Z }.

Inductive evalFunction := FncCurrentYear.

Section evaluators.
Context `{GoArch} `{GoUnicode} `{GoFmt} `{GoZone} `{GoRegexp} `{GoUuid} `{GoClock}.

Inductive evalExpression :=
| expressionNodeEvaluator (lhs : evalExpression) (op : evalOperator)
    (rhs dflt : option evalExpression)
| expressionFunctionEvaluator (args : list evalExpression) (fnc : evalFunction)
    (dflt : option evalExpression)
| expressionSelectLeaf (index : Z) (colName rdfType : string) (dflt : option evalExpression)
| expressionValueLeaf (value : any)
| expressionStaticListLeaf (values : list any).

Definition fnc_Eval (fnc : evalFunction) (args : list any) : res any :=
  match fnc with FncCurrentYear => Ret (VInt current_year) end.

(** The value that decides AND and OR on the left operand alone. *)
Definition short_circuit (op : evalOperator) (lhs : any) : option any :=
  match op with
  | OpAND => if ToBool lhs then None else Some (VInt 0)
  | OpOR => if ToBool lhs then Some (VInt 1) else None
  | _ => None
  end.

(** The column a select leaf reads; [None] for an input of another type. *)
Definition select_value (index : Z) (colName : string) (input : evalInput) : option (res any) :=
  match input with
  | InRow row => Some
      (if index >=? Z.of_nat (length row) then Fail "error expressionSelectLeaf index >= len(input)"
       else if index <? 0 then Panic "runtime error: index out of range"
       else Ret (default VNil (row !! Z.to_nat index)))
  | InEnv env => Some (Ret (default VNil (env !! colName)))
  | InOther => None
  end.

(** A call's result, with the evaluator and the supply it leaves. *)
Definition outcome : Type := evalExpression * nat * res any.

Section eval_list.
Variable eval : evalExpression → nat → outcome.
Fixpoint eval_args (args : list evalExpression) (n : nat) : list evalExpression * nat * res (list any) :=
  match args with
  | [] => ([], n, Ret [])
  | a :: args' =>
      let '(a', n, r) := eval a n in
      match r with
      | Ret v =>
          let '(args'', n, rs) := eval_args args' n in
          (a' :: args'', n, let! vs := rs in Ret (v :: vs))
      | Fail e => (a' :: args', n, Fail e)
      | Panic e => (a' :: args', n, Panic e)
      | Loop => (a' :: args', n, Loop)
      end
  end.
End eval_list.

Fixpoint Eval (node : evalExpression) (n : nat) (input : evalInput) : outcome :=
  match node with
  | expressionNodeEvaluator lhs op rhs dflt =>
      let '(lhs', n, l) := Eval lhs n input in
      match l with
      | Ret lv =>
          match short_circuit op lv with
          | Some v => (expressionNodeEvaluator lhs' op rhs dflt, n, Ret v)
          | None =>
              let '(rhs', n, r) :=
                match rhs with
                | Some e => let '(e', n, r) := Eval e n input in (Some e', n, r)
                | None => (None, n, Ret VNil)
                end in
              match r with
              | Ret rv =>
                  let '(op', n, result) := op_Eval op n lv rv in
                  match result, dflt with
                  | Fail _, Some d =>
                      let '(d', n, r) := Eval d n input in
                      (expressionNodeEvaluator lhs' op' rhs' (Some d'), n, r)
                  | _, _ => (expressionNodeEvaluator lhs' op' rhs' dflt, n, result)
                  end
              | err => (expressionNodeEvaluator lhs' op rhs' dflt, n, err)
              end
          end
      | err => (expressionNodeEvaluator lhs' op rhs dflt, n, err)
      end
  | expressionFunctionEvaluator args fnc dflt =>
      let '(args', n, rs) := eval_args (λ a n, Eval a n input) args n in
      let result := let! vs := rs in fnc_Eval fnc vs in
      match rs, result, dflt with
      | Ret _, Fail _, Some d =>
          let '(d', n, r) := Eval d n input in (expressionFunctionEvaluator args' fnc (Some d'), n, r)
      | _, _, _ => (expressionFunctionEvaluator args' fnc dflt, n, result)
      end
  | expressionSelectLeaf index colName rdfType dflt =>
      let on_default (err : res any) : outcome :=
        match dflt with
        | Some d => let '(d', n, r) := Eval d n input in (expressionSelectLeaf index colName rdfType (Some d'), n, r)
        | None => (node, n, err)
        end in
      match select_value index colName input with
      | None => on_default (Fail "error: invalid type passed to expression.Eval for input")
      | Some (Ret value) =>
          if String.eqb rdfType EmptyString then (node, n, Ret value)
          else match CastToRdfType value rdfType None with
               | Fail e => on_default (Fail e)
               | r => (node, n, r)
               end
      | Some err => (node, n, err)
      end
  | expressionValueLeaf value => (node, n, Ret value)
  | expressionStaticListLeaf values => (node, n, Ret (VSet values))
  end.
End evaluators.

(** ** Building *)

(** [json.Unmarshal] of the text of an expression. *)
Class GoJson := { json_ExpressionNode : string → option ExpressionNode }.

Section builder.
Context `{GoArch} `{GoUnicode} `{GoFmt} `{GoZone} `{GoRegexp} `{GoUuid} `{GoClock} `{GoJson}.

(** The builder context, and the order in which the [k]-th [range] loop over it
    visits its entries, which Go leaves open. *)
Variable ctx : gmap string any.
Variable range : nat → list (string * any).

Inductive substitution := Replaced (s : string) | Stopped (v : any).

(** One pass of the inner loop. *)
Fixpoint substitute (entries : list (string * any)) (valueStr : string) : substitution :=
  match entries with
  | [] => Replaced valueStr
  | (k, v) :: entries' =>
      match v with
      | VStr vstr => substitute entries' (ReplaceAll valueStr k vstr)
      | _ => if Contains valueStr k then Stopped v else substitute entries' valueStr
      end
  end.

(** [for strings.Contains(valueStr, "$") && lc < maxSubstitutions]. *)
Fixpoint substitutions (left : nat) (lc : nat) (valueStr : string) : any :=
  match left with
  | O => VStr valueStr
  | S left' =>
      if Contains valueStr "$" then
        match substitute (range lc) valueStr with
        | Replaced s => substitutions left' (S lc) s
        | Stopped v => v
        end
      else VStr valueStr
  end.

Definition parseValue (expr : string) (maxSubstitutions : Z) : res any :=
  let maxSubstitutions := if maxSubstitutions <=? 0 then 3 else maxSubstitutions in
  if one_of expr ["NULL"; "null"]%string then Ret VNil
  else if one_of expr ["NaN"; "NAN"]%string then Ret (VF64 f64_nan)
  else if HasPrefix expr "'" && HasSuffix expr "'" then
    Ret (VStr (TrimSuffix (TrimPrefix expr "'") "'"))
  else if Contains expr "$" then
    if maxSubstitutions =? 1 then
      match ctx !! expr with
      | Some v => Ret v
      | None => Fail "error: env var not found in context for value"
      end
    else Ret (substitutions (Z.to_nat maxSubstitutions) 0 expr)
  else if Contains expr "." then
    let! v := float_or "error: expecting a double" expr in Ret (VF64 v)
  else match ParseInt64 expr with
    | Some v => Ret (VInt64 v)
    | None => Fail "error: expecting an int"
    end.

Definition BuildFncEvaluator (fnc : string) : res evalFunction :=
  if String.eqb (ToUpper fnc) "CURRENT_YEAR" then Ret FncCurrentYear
  else Fail "error: unknown function".

(** The keys of a static list: writing an unhashable key panics. *)
Fixpoint static_list (exprs : list string) (maxSub : Z) : res (list any) :=
  match exprs with
  | [] => Ret []
  | v :: exprs' =>
      let! value := wrap_err "while parsing value of static_list" (parseValue v maxSub) in
      if hashable value then let! rest := static_list exprs' maxSub in Ret (value :: rest)
      else Panic "runtime error: hash of unhashable type"
  end.

Variable sourceName : string.
(** [None] is the nil map. *)
Variable columns : option (gmap string Z).

(** The column name of a select leaf, an environment variable or itself. *)
Definition select_name (expr : string) : res string :=
  if (match columns with Some _ => true | None => false end) && HasPrefix expr "$" then
    match ctx !! expr with
    | Some (VStr colName) => Ret colName
    | Some _ => Fail "error: env var does not contain a valid string for column name"
    | None => Ret expr
    end
  else Ret expr.

Definition build_value (spec : ExpressionNode) : res evalExpression :=
  if String.eqb (Expr spec) EmptyString then Fail "error: Type value must have Expr != nil"
  else
    let! value := parseValue (Expr spec) (MaxEnvVarSubstitution spec) in
    if String.eqb (AsRdfType spec) EmptyString then Ret (expressionValueLeaf value)
    else
      let! value := CastToRdfType value (AsRdfType spec) None in
      Ret (expressionValueLeaf value).

Definition build_select (spec : ExpressionNode) (defaultExpr : option evalExpression) : res evalExpression :=
  if negb (String.eqb (Expr spec) EmptyString) then
    let! name := select_name (Expr spec) in
    match columns with
    | None => Ret (expressionSelectLeaf 0 name (AsRdfType spec) defaultExpr)
    | Some columns =>
        match columns !! name with
        | Some inputPos => Ret (expressionSelectLeaf inputPos EmptyString (AsRdfType spec) defaultExpr)
        | None =>
            match defaultExpr with
            | Some d => Ret d
            | None => Fail "error column not found in input source"
            end
        end
    end
  else match ExprPos spec with
  | Some pos => Ret (expressionSelectLeaf pos EmptyString (AsRdfType spec) defaultExpr)
  | None => Fail "error: Type select must have Expr or ExprPos not nil"
  end.

Definition build_static_list (spec : ExpressionNode) : res evalExpression :=
  match ExprList spec with
  | [] => Fail "error: Type select must have non empty expr_list"
  | exprs =>
      let! values := static_list exprs (MaxEnvVarSubstitution spec) in
      Ret (expressionStaticListLeaf values)
  end.

(** The expression a proxy stands for. *)
Definition proxied (spec : ExpressionNode) : res ExpressionNode :=
  if String.eqb (ExprEnvVarProxy spec) EmptyString
  then Fail "error: Type expr_proxy must have ExprEnvVarProxy not nil"
  else match ctx !! ExprEnvVarProxy spec with
  | None => Fail "error: env var not found in context for expr_proxy"
  | Some (VStr exprStr) =>
      match json_ExpressionNode exprStr with
      | Some node => Ret node
      | None => Fail "error: failed to parse expr_proxy env var value as ExpressionNode"
      end
  | Some _ => Fail "error: env var does not contain a valid string for expr_proxy"
  end.

Definition upperExprList (spec : ExpressionNode) : ExpressionNode :=
  mkNode (Type_ spec) (Expr spec) (ExprPos spec) (ToUpper <$> ExprList spec) (MaxEnvVarSubstitution spec)
    (ExprEnvVarProxy spec) (AsRdfType spec) (Farg spec) (Arg spec) (Lhs spec) (Op spec) (Rhs spec) (Default spec).

(** The checks on the right operand of IN and IN_NO_CASE, and that operand. *)
Definition checked_rhs (op : string) (rhs : ExpressionNode) : res ExpressionNode :=
  if String.eqb (ToUpper op) "IN" && negb (String.eqb (ToUpper (Type_ rhs)) "STATIC_LIST")
  then Fail "error: operator IN must have static_list as rhs argument"
  else if String.eqb (ToUpper op) "IN_NO_CASE" then
    if negb (String.eqb (ToUpper (Type_ rhs)) "STATIC_LIST")
    then Fail "error: operator IN_NO_CASE must have static_list as rhs argument"
    else Ret (upperExprList rhs)
  else Ret rhs.

Section build_args.
Variable build : ExpressionNode → res evalExpression.
Fixpoint build_args (specs : list ExpressionNode) : res (list evalExpression) :=
  match specs with
  | [] => Ret []
  | s :: specs' =>
      let! e := wrap_err "error: failed to build evaluator for argument of function type expression" (build s) in
      let! es := build_args specs' in
      Ret (e :: es)
  end.
End build_args.

(** [fuel] bounds the depth of the recursion, which a proxy can make unbounded. *)
Fixpoint BuildExprNodeEvaluator (fuel : nat) (spec : ExpressionNode) : res evalExpression :=
  match fuel with
  | O => Loop
  | S fuel =>
      let! defaultExpr :=
        match Default spec with
        | None => Ret None
        | Some d => wrap_err "while building default expression"
                      (let! e := BuildExprNodeEvaluator fuel d in Ret (Some e))
        end in
      match Arg spec, Lhs spec with
      | Some arg, _ =>
          if String.eqb (Op spec) EmptyString
          then Fail "error: case unary operator node, must have arg, and op != nil"
          else
            let! arg := BuildExprNodeEvaluator fuel arg in
            let! op := BuildEvalOperator (Op spec) in
            Ret (expressionNodeEvaluator arg op None defaultExpr)
      | None, Some lhs =>
          match Rhs spec with
          | None => Fail "error: case node, must have lhs, rhs, and op != nil"
          | Some rhs =>
              if String.eqb (Op spec) EmptyString
              then Fail "error: case node, must have lhs, rhs, and op != nil"
              else
                let! rhs := checked_rhs (Op spec) rhs in
                let! lhs := BuildExprNodeEvaluator fuel lhs in
                let! rhs := BuildExprNodeEvaluator fuel rhs in
                let! op := BuildEvalOperator (Op spec) in
                Ret (expressionNodeEvaluator lhs op (Some rhs) defaultExpr)
          end
      | None, None =>
          let type := ToUpper (Type_ spec) in
          if String.eqb (Type_ spec) EmptyString
          then Fail "error BuildExprNodeEvaluator: cannot determine if expr is node or leaf? spec type"
          else if String.eqb type "VALUE" then build_value spec
          else if String.eqb type "SELECT" then build_select spec defaultExpr
          else if String.eqb type "STATIC_LIST" then build_static_list spec
          else if String.eqb type "EXPR_PROXY" then
            let! exprNode := proxied spec in BuildExprNodeEvaluator fuel exprNode
          else if String.eqb type "FUNCTION" then
            if String.eqb (Expr spec) EmptyString then Fail "error: Type function must have Expr not nil"
            else
              let! fnc := wrap_err "error: failed to build operator for function type expression"
                            (BuildFncEvaluator (Expr spec)) in
              let! args := build_args (BuildExprNodeEvaluator fuel) (Farg spec) in
              Ret (expressionFunctionEvaluator args fnc defaultExpr)
          else Fail "error: unknown expression leaf node type"
      end
  end.
End builder.
