(* ===== verification/EvalExpressionLaws.v ===== *)
(** * Laws of the column expressions

    What the builder accepts and the evaluators answer: short-circuit, the value of
    integer expressions at 64 bits, termination of the build and absence of panics. *)
From stdpp Require Import base list strings gmap.
From Stdlib Require Import ZArith Lia SpecFloat Ascii.
From S2P Require Import Prelude GoFloat GoText GoTextLaws GoValue DateParser.
From S2P Require Import EvalOperators EvalOperatorsLaws RdfCast EvalExpression.

Section eval_laws.
Context `{GoArch} `{GoUnicode} `{GoFmt} `{GoZone} `{GoRegexp} `{GoUuid} `{GoClock}.

(** The result of a call, without the state it leaves. *)
Definition result (o : outcome) : res any := o.2.

(** Truth tables: when both operands evaluate, an AND node is the conjunction of
    their truth values; an OR node is their disjunction except that a null left
    operand makes it 0 whatever the right one is.  When the left operand decides, the
    right one is not evaluated: its errors, panics and effects do not show. *)
Theorem and_or_nodes lhs rhs dflt n input lhs' n' lv
    (Hlhs : Eval lhs n input = (lhs', n', Ret lv)) :
  (∀ rv, result (Eval rhs n' input) = Ret rv →
    result (Eval (expressionNodeEvaluator lhs OpAND (Some rhs) dflt) n input)
      = Ret (b2i (ToBool lv && ToBool rv)) ∧
    result (Eval (expressionNodeEvaluator lhs OpOR (Some rhs) dflt) n input)
      = Ret (b2i (ToBool lv || (negb (is_nil lv) && ToBool rv)))) ∧
  (ToBool lv = false →
    Eval (expressionNodeEvaluator lhs OpAND (Some rhs) dflt) n input
      = (expressionNodeEvaluator lhs' OpAND (Some rhs) dflt, n', Ret (VInt 0))) ∧
  (ToBool lv = true →
    Eval (expressionNodeEvaluator lhs OpOR (Some rhs) dflt) n input
      = (expressionNodeEvaluator lhs' OpOR (Some rhs) dflt, n', Ret (VInt 1))).
Proof.
  unfold result. split_and!.
  - intros rv Hr. destruct (Eval rhs n' input) as [[rhs' n''] r] eqn:Hrhs. simpl in Hr. subst r.
    cbn [Eval]. rewrite Hlhs, Hrhs. unfold short_circuit. destruct (ToBool lv) eqn:Hb; cbn; split; try done;
      unfold opAND, opOR; rewrite ?Hb; destruct (is_nil lv) eqn:Hn; cbn; try done.
    + by destruct lv.
    + destruct (is_nil rv) eqn:Hrn; [by destruct rv|done].
    + destruct (is_nil rv) eqn:Hrn; [by destruct rv|done].
  - intros Hb. cbn [Eval]. rewrite Hlhs. unfold short_circuit. by rewrite Hb.
  - intros Hb. cbn [Eval]. rewrite Hlhs. unfold short_circuit. by rewrite Hb.
Qed.

(** ** No panic *)

(** An operator that cannot panic: all but the static list lookup. *)
Definition safe_op (op : evalOperator) : bool := match op with OpIn _ => false | _ => true end.

Fixpoint safe_expr (e : evalExpression) : bool :=
  let opt (d : option evalExpression) := match d with Some d => safe_expr d | None => true end in
  match e with
  | expressionNodeEvaluator lhs op rhs dflt => safe_expr lhs && safe_op op && opt rhs && opt dflt
  | expressionFunctionEvaluator args _ dflt => forallb safe_expr args && opt dflt
  | expressionSelectLeaf index _ _ dflt => (0 <=? index) && opt dflt
  | _ => true
  end.

Lemma returns_settles r : returns_wf r → settles r.
Proof. intros [[e ->]|(v & -> & _)]; eauto with go. Qed.

Lemma ParseDatetime_settles s : settles (ParseDatetime s).
Proof.
  unfold ParseDatetime. destruct (dateRe _) as [[[[t1 t2] t3] rest]|]; [|eauto with go]. cbv zeta.
  apply bind_settles; [apply readYMD_settles|intros [[y m] d]].
  apply bind_settles; [apply validateYMD_settles|intros _]. case_match; [eauto with go|].
  assert (Ho : ∀ m s, settles (opt_atoi m s)).
  { intros. unfold opt_atoi. case_match; [eauto with go|apply atoi_or_settles]. }
  repeat (apply bind_settles; [done|intros ?]).
  apply bind_settles.
  { unfold fraction. case_match; [eauto with go|]. cbv zeta. apply bind_settles; [apply atoi_or_settles|eauto with go]. }
  intros ?. apply bind_settles; [|eauto with go].
  case_match; [eauto with go|]. repeat (apply bind_settles; [first [apply atoi_or_settles|done]|intros ?]). eauto with go.
Qed.

Lemma ParseBool_settles s : settles (ParseBool s).
Proof. unfold ParseBool. repeat case_match; eauto with go. Qed.

Lemma cast_txt_single_settles s t : settles (cast_txt_single s t).
Proof.
  unfold cast_txt_single. repeat (case_match; [eauto using ParseDatetime_settles, ParseBool_settles with go|]).
  eauto with go.
Qed.
Lemma cast_txt_scalar_settles s t : settles (cast_txt_scalar s t).
Proof. unfold cast_txt_scalar. cbv zeta. case_match; [eauto with go|apply cast_txt_single_settles]. Qed.
Lemma cast_txt_all_settles t l : settles (cast_txt_all t l).
Proof. induction l as [|s l IH]; cbn; eauto 8 using cast_txt_scalar_settles with go. Qed.
Lemma castToRdfTypeFromTxt_settles s t a : settles (castToRdfTypeFromTxt s t a).
Proof.
  assert (Hopen : ∀ b, b ≠ Some false → settles (castToRdfTypeFromTxt s t b)).
  { intros b Hb. unfold castToRdfTypeFromTxt. destruct b as [[]|]; [|done|]; cbv zeta; repeat case_match;
      eauto 8 using cast_txt_scalar_settles, cast_txt_all_settles with go. }
  destruct a as [[]|]; [by apply Hopen|apply cast_txt_scalar_settles|by apply Hopen].
Qed.

Lemma scalar_casts_settle :
  (∀ z t a, settles (castToRdfTypeFromInt z t a)) ∧ (∀ z t a, settles (castToRdfTypeFromUInt z t a)) ∧
  (∀ z t a, settles (castToRdfTypeFromTime z t a)) ∧ (∀ z t a, settles (castToRdfTypeFromDouble z t a)).
Proof.
  split_and!; intros;
    unfold castToRdfTypeFromInt, castToRdfTypeFromUInt, castToRdfTypeFromTime, castToRdfTypeFromDouble;
    repeat (case_match; [by eauto with go|]); eauto with go.
Qed.

Lemma any_slice_ind (P : any → Prop) :
  (∀ l, Forall P l → P (VSlice l)) → (∀ v, (∀ l, v ≠ VSlice l) → P v) → ∀ v, P v.
Proof.
  intros Hs Ho. fix IH 1. intros v. destruct v as [| | | | | | | | | | | |l| | | | |]; try (by apply Ho).
  apply Hs. induction l as [|x l IHl]; constructor; [apply IH|exact IHl].
Qed.

Lemma CastToRdfType_settles v : ∀ t a, settles (CastToRdfType v t a).
Proof.
  destruct scalar_casts_settle as (Hi & Hu & Ht & Hd).
  induction v as [l Hl|v Hv] using any_slice_ind; intros t a.
  - cbn [CastToRdfType]. set (cast := λ v, CastToRdfType v t (Some false)).
    assert (Hall : settles (cast_all cast l)).
    { clear a. induction Hl as [|v l Hv _ IH]; cbn; [eauto with go|]. case_match; [done|].
      apply bind_settles; [apply wrap_err_settles, Hv|eauto with go]. }
    assert (Hfirst : settles (cast_first cast l)).
    { clear a Hall. induction Hl as [|v l Hv _ IH]; cbn; [eauto with go|]. case_match; [done|apply Hv]. }
    unfold CastSliceToRdfType. destruct l; [eauto with go|]. destruct a as [[]|]; [|done|];
      (apply bind_settles; [done|eauto with go]).
  - destruct v; cbn [CastToRdfType]; eauto using castToRdfTypeFromTxt_settles with go. by destruct (Hv l).
Qed.

Lemma opADD_settles lhs rhs : settles (opADD lhs rhs).
Proof. unfold opADD. case_match; [eauto with go|]. destruct lhs, rhs; cbn -[t_Add days]; eauto 6 with go. Qed.
Lemma opSUB_settles lhs rhs : settles (opSUB lhs rhs).
Proof. unfold opSUB. case_match; [eauto with go|]. destruct lhs, rhs; cbn -[t_Add days t_Sub d_Hours]; eauto 6 with go. Qed.
Lemma opMUL_settles lhs rhs : settles (opMUL lhs rhs).
Proof. unfold opMUL. case_match; [eauto with go|]. destruct lhs, rhs; cbn; eauto 6 with go. Qed.

Lemma op_Eval_settles op n lhs rhs : safe_op op = true →
  settles (op_Eval op n lhs rhs).2 ∧ safe_op (op_Eval op n lhs rhs).1.1 = true.
Proof.
  intros Hs. unfold op_Eval. destruct (pure_op op) as [f|] eqn:Hop.
  - split; [|done]. simpl.
    destruct op; simpl in *; simplify_eq; try done.
    all: first
      [ apply verdict_settles; first [apply opEqual_verdict|apply opLT_verdict|apply opLE_verdict]
      | apply returns_settles; first [apply opDIV_cases|apply opDMonths_cases|apply opFindAndReplace_cases
          |apply opToDate_cases]
      | idtac ].
    all: unfold opNotEqual, opIS, opGT, opGE, opAND, opOR, opNot, opABS, opContains, opLength, opToArray, opApplyFormat;
      repeat (case_match; try by eauto using opEqual_verdict, opLT_verdict, opLE_verdict, verdict_settles with go).
    + apply opADD_settles.
    + apply opSUB_settles.
    + apply opMUL_settles.
  - destruct op; try done; cbn; [eauto with go|]. unfold opApplyRegex, GetCompiledRegex.
    repeat (case_match; simplify_eq; cbn; try by eauto with go).
Qed.

(** Induction on an evaluator, through its options and lists. *)
Definition opt_all (P : evalExpression → Prop) (d : option evalExpression) : Prop :=
  match d with Some e => P e | None => True end.

Lemma evalExpression_nested_ind (P : evalExpression → Prop) :
  (∀ lhs op rhs dflt, P lhs → opt_all P rhs → opt_all P dflt → P (expressionNodeEvaluator lhs op rhs dflt)) →
  (∀ args fnc dflt, Forall P args → opt_all P dflt → P (expressionFunctionEvaluator args fnc dflt)) →
  (∀ index colName rdfType dflt, opt_all P dflt → P (expressionSelectLeaf index colName rdfType dflt)) →
  (∀ v, P (expressionValueLeaf v)) → (∀ l, P (expressionStaticListLeaf l)) → ∀ e, P e.
Proof.
  intros Hn Hf Hs Hv Hl. fix IH 1. intros [lhs op rhs dflt|args fnc dflt|i c t dflt|v|l].
  - apply Hn; [apply IH|destruct rhs; [apply IH|exact I]|destruct dflt; [apply IH|exact I]].
  - apply Hf; [|destruct dflt; [apply IH|exact I]].
    induction args as [|a args IHa]; constructor; [apply IH|exact IHa].
  - apply Hs. destruct dflt; [apply IH|exact I].
  - apply Hv.
  - apply Hl.
Qed.

(** ** Integer expressions *)

(** What a value is read as in an integer expression: null, an [int] or [int64], or a text
    that spells an integer. *)
Inductive reading := Null | Number (z : Z) | Text (z : Z).
Definition read_int (v : any) : option reading :=
  match v with
  | VNil => Some Null
  | VInt z | VInt64 z => if any_wf v then Some (Number z) else None
  | VStr s => match String2Int s with Ret z => Some (Text z) | _ => None end
  | _ => None
  end.
(** An exact operation on the integers: null when an operand is. Two texts are no integers. *)
Definition exact (f : Z → Z → Z) (a b : reading) : option reading :=
  match a, b with
  | Null, _ | _, Null => Some Null
  | Number x, Number y | Number x, Text y | Text x, Number y => Some (Number (f x y))
  | Text _, Text _ => None
  end.
Definition ring_op (op : evalOperator) : option (Z → Z → Z) := match op with OpADD => Some Z.add | OpSUB => Some Z.sub | OpMUL => Some Z.mul | _ => None end.
Definition order_op (op : evalOperator) : option (Z → Z → bool) :=
  match op with
  | OpEqual => Some Z.eqb | OpNotEqual => Some (λ a b, negb (a =? b)) | OpLT => Some Z.ltb | OpLE => Some Z.leb
  | OpGT => Some (λ a b, b <? a) | OpGE => Some (λ a b, b <=? a) | _ => None
  end.
(** The exact value of an expression over a row, with no bound on its integers; [None] when it
    is not made of columns, constants, sums, differences and products of integers. *)
Fixpoint exact_value (row : list any) (e : evalExpression) : option reading :=
  match e with
  | expressionValueLeaf v => read_int v
  | expressionSelectLeaf i _ rdfType _ =>
      if (0 <=? i) && (i <? Z.of_nat (length row)) then
        let v := default VNil (row !! Z.to_nat i) in
        if String.eqb rdfType EmptyString then read_int v else match CastToRdfType v rdfType None with Ret v => read_int v | _ => None end
      else None
  | expressionNodeEvaluator lhs op (Some rhs) _ =>
      match ring_op op, exact_value row lhs, exact_value row rhs with Some f, Some a, Some b => exact f a b | _, _, _ => None end
  | _ => None
  end.
(** The value that stands for a reading at 64 bits. *)
Definition stands_for (v : any) (a : reading) : Prop :=
  match a with Null => v = VNil | Number z => signed v = Some (i64 z) | Text z => ∃ s, v = VStr s ∧ String2Int s = Ret z end.
Definition at_width (a : reading) : Z := match a with Null => 0 | Number z => i64 z | Text z => z end.
Definition is_text (a : reading) : bool := match a with Text _ => true | _ => false end.

Lemma read_int_stands v a : read_int v = Some a → stands_for v a.
Proof.
  destruct v; cbn [read_int any_wf]; try done; try (case_bool_decide as Hw; [|done]; intros [= <-]; cbn; by rewrite i64_small).
  - by intros [= <-].
  - destruct (String2Int s) eqn:E; try done. intros [= <-]. by exists s.
Qed.
Lemma i64_ring f a b a' b' : i64 a = i64 a' → i64 b = i64 b' → f = Z.add ∨ f = Z.sub ∨ f = Z.mul → i64 (f a b) = i64 (f a' b').
Proof.
  intros Ea Eb Hf. assert (Hc : ∀ x y, i64 x = i64 y ↔ ∃ k, x = y + k * two64).
  { intros x y. split.
    - intros E. destruct (i64_congr x) as [k Hk], (i64_congr y) as [k' Hk']. exists (k' - k). lia.
    - intros [k ->]. apply i64_unique; [apply i64_range|]. destruct (i64_congr y) as [k' ->]. exists (k' - k). lia. }
  apply Hc in Ea as [k ->], Eb as [l ->]. apply Hc. destruct Hf as [->|[->| ->]]; [exists (k + l); lia|exists (k - l); lia|exists (a' * l + k * b' + k * l * two64); lia].
Qed.
Lemma i64_i64 z : i64 (i64 z) = i64 z.
Proof. apply i64_small, i64_range. Qed.
(** One operation, on whatever kinds of operands. *)
Lemma ring_op_exact op g f lv rv a b c : ring_op op = Some f → pure_op op = Some g → stands_for lv a → stands_for rv b → exact f a b = Some c →
  ∃ v, g lv rv = Ret v ∧ stands_for v c.
Proof.
  intros Ef Eg Ha Hb Hc. assert (Hf : f = Z.add ∨ f = Z.sub ∨ f = Z.mul) by (destruct op; naive_solver).
  assert (Hg : g = opADD ∧ f = Z.add ∨ g = opSUB ∧ f = Z.sub ∨ g = opMUL ∧ f = Z.mul) by (destruct op; naive_solver). clear op Ef Eg.
  destruct a as [|x|x], b as [|y|y]; cbn [exact] in Hc; try done; injection Hc as <-; cbn [stands_for] in *.
  all: repeat match goal with H : ∃ s, _ ∧ String2Int s = _ |- _ => destruct H as (? & -> & ?Es) end; subst.
  all: try (exists VNil; split; [|done]; destruct Hg as [[-> _]|[[-> _]|[-> _]]]; unfold opADD, opSUB, opMUL; cbn [is_nil]; by rewrite ?orb_true_r).
  all: destruct Hg as [[-> ->]|[[-> ->]|[-> ->]]]; repeat match goal with H : signed ?v = Some _ |- _ => destruct v; try done; injection H as -> end.
  all: unfold opADD, opSUB, opMUL; cbn; rewrite ?Es, ?Es0; cbn [wrap_err res_bind]; (eexists; split; [reflexivity|]); cbn [signed]; f_equal;
    apply (i64_ring _ _ _ _ _); rewrite ?i64_i64; auto.
Qed.
Lemma eval_exact row e : ∀ n a, exact_value row e = Some a → ∃ v, result (Eval e n (InRow row)) = Ret v ∧ stands_for v a.
Proof.
  induction e as [lhs op [rhs|] dflt IHl IHr _|args fnc dflt _ _|i c t dflt _|v|l] using evalExpression_nested_ind; intros n a Ha; cbn [exact_value] in Ha; try done.
  - destruct (ring_op op) as [f|] eqn:Ef; [|done]. destruct (exact_value row lhs) as [x|] eqn:El; [|done]. destruct (exact_value row rhs) as [y|] eqn:Er; [|done].
    destruct (IHl n x eq_refl) as (lv & Hl & Hx). unfold result in *. cbn [Eval]. destruct (Eval lhs n (InRow row)) as [[lhs' n1] l]. cbn in Hl. subst l.
    assert (short_circuit op lv = None) as -> by (by destruct op). destruct (IHr n1 y Er) as (rv & Hr & Hy). destruct (Eval rhs n1 (InRow row)) as [[rhs' n2] r]. cbn in Hr. subst r.
    destruct (pure_op op) as [g|] eqn:Eg; [|by destruct op]. destruct (ring_op_exact op g f lv rv x y a Ef Eg Hx Hy Ha) as (v & Hv & Hs). unfold op_Eval. rewrite Eg, Hv. by exists v.
  - destruct ((0 <=? i) && (i <? Z.of_nat (length row))) eqn:Ei; [|done]. apply andb_true_iff in Ei as [Hi0%Z.leb_le Hi%Z.ltb_lt]. unfold result. cbn [Eval select_value].
    rewrite Z.geb_leb, (proj2 (Z.leb_gt _ _) Hi), (proj2 (Z.ltb_ge _ _) Hi0). destruct (String.eqb t EmptyString); [eexists; split; [done|]; by apply read_int_stands|].
    destruct (CastToRdfType _ t None) as [v| | |]; try done. exists v. split; [done|]. by apply read_int_stands.
  - exists v. split; [done|]. by apply read_int_stands.
Qed.
Lemma signed_as_int v z : signed v = Some z → as_int v = Some z.
Proof. by destruct v. Qed.
Lemma order_op_exact op g c lv rv a b : order_op op = Some c → pure_op op = Some g → stands_for lv a → stands_for rv b → is_text a && is_text b = false →
  g lv rv = Ret (b2i (match a, b with Null, _ | _, Null => false | _, _ => c (at_width a) (at_width b) end)).
Proof.
  intros Ec Eg Ha Hb Ht. assert (Hn : lv = VNil ∨ (rv = VNil ∧ op ≠ OpNot) → g lv rv = Ret (VInt 0)).
  { intros Hnil. destruct (comparison_total op g lv rv Eg) as [_ Hz]; [by destruct op|]. by apply Hz. }
  assert (Hnot : op ≠ OpNot) by (by destruct op).
  destruct a as [|x|x]; cbn [stands_for at_width is_text andb] in *; [by apply Hn; left| |].
  all: destruct b as [|y|y]; cbn [stands_for at_width is_text andb] in *; [by apply Hn; right| |]; try done.
  all: repeat match goal with H : ∃ s, _ ∧ String2Int s = _ |- _ => destruct H as (? & -> & ?Es) end.
  all: match goal with |- _ ?l ?r = Ret (b2i (_ ?u ?v)) => destruct (integer_comparisons l r u v) as (E1 & E2 & E3 & E4 & E5 & E6);
    [solve [by apply signed_as_int|cbn; by rewrite ?Es]|solve [by apply signed_as_int|cbn; by rewrite ?Es]|by eauto|] end.
  all: destruct op; simpl in *; simplify_eq; done.
Qed.

(** C39. Integer expressions compute with integers. Take an expression made of columns and
    constants that are null, [int], [int64] or a text that spells an integer, and of sums,
    differences and products (not of two texts), nested at will. Its evaluation never fails:
    it is null when an operand is, and else the [int] or [int64] that the exact value has at 64
    bits, however the intermediate results overflow. A comparison of two of them (not both
    text) answers 1 when they stand in the order at 64 bits and 0 when not or when one is
    null. *)
Theorem integer_expressions row e n : 
  (∀ z, exact_value row e = Some (Number z) → ∃ v, result (Eval e n (InRow row)) = Ret v ∧ signed v = Some (i64 z)) ∧
  (exact_value row e = Some Null → result (Eval e n (InRow row)) = Ret VNil) ∧
  (∀ op c rhs dflt a b, order_op op = Some c → exact_value row e = Some a → exact_value row rhs = Some b → is_text a && is_text b = false →
    result (Eval (expressionNodeEvaluator e op (Some rhs) dflt) n (InRow row)) =
    Ret (b2i (match a, b with Null, _ | _, Null => false | _, _ => c (at_width a) (at_width b) end))).
Proof.
  split_and!.
  - intros z Hz. exact (eval_exact row e n (Number z) Hz).
  - intros Hz. destruct (eval_exact row e n Null Hz) as (v & Hv & ->). done.
  - intros op c rhs dflt a b Ec Ha Hb Ht. destruct (eval_exact row e n a Ha) as (lv & Hl & Hx). unfold result in *. cbn [Eval]. destruct (Eval e n (InRow row)) as [[e' n1] l]. cbn in Hl. subst l.
    assert (short_circuit op lv = None) as -> by (by destruct op). destruct (eval_exact row rhs n1 b Hb) as (rv & Hr & Hy). unfold result in Hr. destruct (Eval rhs n1 (InRow row)) as [[rhs' n2] r]. cbn in Hr. subst r.
    destruct (pure_op op) as [g|] eqn:Eg; [|by destruct op]. unfold op_Eval. rewrite Eg, (order_op_exact op g c lv rv a b Ec Eg Hx Hy Ht). done.
Qed.

(** An outcome that neither panics nor runs forever and leaves a safe evaluator. *)
Definition safe_outcome (o : outcome) : Prop := settles o.2 ∧ safe_expr o.1.1 = true.

Lemma select_value_settles i c input r : 0 ≤ i → select_value i c input = Some r → settles r.
Proof.
  intros Hi. destruct input; simpl; [|intros [= <-]; eauto with go|done].
  intros [= <-]. case_match; [eauto with go|]. destruct (Z.ltb_spec i 0); [lia|eauto with go].
Qed.

(** The recovery by the default expression keeps an outcome safe. *)
Definition IH_at (input : evalInput) (e : evalExpression) : Prop :=
  ∀ n, safe_expr e = true → safe_outcome (Eval e n input).

Lemma Eval_node_safe lhs op rhs dflt input n :
  IH_at input lhs → opt_all (IH_at input) rhs → opt_all (IH_at input) dflt →
  safe_expr (expressionNodeEvaluator lhs op rhs dflt) = true →
  safe_outcome (Eval (expressionNodeEvaluator lhs op rhs dflt) n input).
Proof.
  intros IHl IHr IHd He. cbn [safe_expr] in He. rewrite !andb_true_iff in He. destruct He as [[[Hl Ho] Hr] Hd].
  destruct (IHl n Hl) as [Sl Tl]. cbn [Eval]. destruct (Eval lhs n input) as [[lhs' n1] l]. simpl in Sl, Tl.
  unfold safe_outcome. destruct l as [lv|e|e|]; try (by destruct Sl as [|[? ?]]).
  2:{ cbn. by rewrite Tl, Ho, Hr, Hd. }
  destruct (short_circuit op lv) as [v|]; [cbn; rewrite Tl, Ho, Hr, Hd; eauto with go|].
  assert (Hrhs : ∃ rhs' n2 r, match rhs with
      | Some e => let '(e', n, r) := Eval e n1 input in (Some e', n, r)
      | None => (None, n1, Ret VNil) end = (rhs', n2, r) ∧ settles r ∧
      match rhs' with Some e => safe_expr e = true | None => True end).
  { destruct rhs as [r|]; [|eauto 8 with go]. destruct (IHr n1 Hr) as [Sr Tr].
    destruct (Eval r n1 input) as [[r' n2] rv]. eauto 8. }
  destruct Hrhs as (rhs' & n2 & r & -> & Sr & Tr).
  assert (Hr' : match rhs' with Some e => safe_expr e | None => true end = true) by (by destruct rhs').
  destruct r as [rv|e|e|]; try (by destruct Sr as [|[? ?]]).
  2:{ cbn. by rewrite Tl, Ho, Hr', Hd. }
  destruct (op_Eval_settles op n2 lv rv Ho) as [So To].
  destruct (op_Eval op n2 lv rv) as [[op' n3] res]. simpl in So, To.
  destruct res as [v|e|e|]; try (by destruct So as [|[? ?]]); [cbn; rewrite Tl, To, Hr', Hd; eauto with go|].
  destruct dflt as [d|]; [|cbn; rewrite Tl, To, Hr'; eauto with go].
  destruct (IHd n3 Hd) as [Sd Td]. destruct (Eval d n3 input) as [[d' n4] dv].
  cbn in *. by rewrite Tl, To, Hr', Td.
Qed.

Lemma eval_args_safe input args n : Forall (IH_at input) args → forallb safe_expr args = true →
  settles (eval_args (λ a n, Eval a n input) args n).2 ∧
  forallb safe_expr (eval_args (λ a n, Eval a n input) args n).1.1 = true.
Proof.
  intros Hall. revert n. induction Hall as [|a args Ha _ IH]; intros n; [intros _; split; [apply ret_settles|done]|].
  cbn [forallb]. intros [Sa Sargs]%andb_true_iff. cbn [eval_args]. destruct (Ha n Sa) as [Ta Ua].
  destruct (Eval a n input) as [[a' n1] r]. cbn in Ta, Ua.
  destruct r; try (by destruct Ta as [|[? ?]]); [|cbn; rewrite Ua, Sargs; eauto with go].
  specialize (IH n1 Sargs). destruct (eval_args _ args n1) as [[args' n2] rs]. cbn in *.
  destruct IH as [Ts Us]. rewrite Ua, Us. split; [apply bind_settles; eauto with go|done].
Qed.

Lemma Eval_function_safe args fnc dflt input n :
  Forall (IH_at input) args → opt_all (IH_at input) dflt →
  safe_expr (expressionFunctionEvaluator args fnc dflt) = true →
  safe_outcome (Eval (expressionFunctionEvaluator args fnc dflt) n input).
Proof.
  intros IHa IHd He. cbn [safe_expr] in He. apply andb_true_iff in He as [Ha Hd].
  destruct (eval_args_safe input args n IHa Ha) as [Sa Ta]. cbn [Eval].
  destruct (eval_args (λ a n, Eval a n input) args n) as [[args' n1] rs]. cbn in Sa, Ta.
  unfold safe_outcome. destruct fnc. destruct rs; try (by destruct Sa as [|[? ?]]); cbn; rewrite Ta, Hd; eauto with go.
Qed.

Lemma Eval_select_safe i c t dflt input n :
  opt_all (IH_at input) dflt → safe_expr (expressionSelectLeaf i c t dflt) = true →
  safe_outcome (Eval (expressionSelectLeaf i c t dflt) n input).
Proof.
  intros IHd He. pose proof He as He'. cbn [safe_expr] in He. apply andb_true_iff in He as [Hi%Z.leb_le Hd].
  assert (Hdef : ∀ err, settles err → safe_outcome
    match dflt with
    | Some d => let '(d', n, r) := Eval d n input in (expressionSelectLeaf i c t (Some d'), n, r)
    | None => (expressionSelectLeaf i c t dflt, n, err)
    end).
  { intros err Herr. destruct dflt as [d|]; [|by split]. destruct (IHd n Hd) as [Sd Td].
    destruct (Eval d n input) as [[d' n1] r]. split; [done|]. cbn in *. by rewrite Td, (proj2 (Z.leb_le 0 i)). }
  cbn [Eval]. destruct (select_value i c input) as [r|] eqn:Hsel; [|apply Hdef; eauto with go].
  pose proof (select_value_settles _ _ _ _ Hi Hsel) as Sr.
  destruct r as [v|e|e|]; try (by destruct Sr as [|[? ?]]); [|by split].
  destruct (String.eqb t EmptyString); [split; [apply ret_settles|done]|].
  pose proof (CastToRdfType_settles v t None) as Sc.
  destruct (CastToRdfType v t None); try (by destruct Sc as [|[? ?]]); [by split; [apply ret_settles|]|].
  apply Hdef. eauto with go.
Qed.

(** An evaluator without IN operators and negative column positions returns a value
    or an error on every input and leaves such an evaluator behind. *)
Lemma Eval_safe e n input (He : safe_expr e = true) : safe_outcome (Eval e n input).
Proof.
  revert n He. induction e as [lhs op rhs dflt IHl IHr IHd|args fnc dflt IHa IHd|i c t dflt IHd|v|l]
    using evalExpression_nested_ind; intros n He.
  - by apply Eval_node_safe.
  - by apply Eval_function_safe.
  - by apply Eval_select_safe.
  - split; [apply ret_settles|done].
  - split; [apply ret_settles|done].
Qed.
End eval_laws.

(** ** The builder *)

Section build_laws.
Context `{GoArch} `{GoUnicode} `{GoFmt} `{GoZone} `{GoRegexp} `{GoUuid} `{GoClock} `{GoJson}.
Variable ctx : gmap string any.
Variable range : nat → list (string * any).
Variable columns : option (gmap string Z).
Local Abbreviation build := (BuildExprNodeEvaluator ctx range columns).

Definition opt_nat (f : ExpressionNode → nat) (d : option ExpressionNode) : nat :=
  match d with Some s => f s | None => O end.
Definition opt_bool (f : ExpressionNode → bool) (d : option ExpressionNode) : bool :=
  match d with Some s => f s | None => true end.

(** The height of a specification. *)
Fixpoint height (spec : ExpressionNode) : nat :=
  S (max (opt_nat height (Default spec)) (max (opt_nat height (Arg spec))
    (max (opt_nat height (Lhs spec)) (max (opt_nat height (Rhs spec))
      (foldr max O (map height (Farg spec))))))).

(** No node of the specification is a proxy. *)
Fixpoint proxy_free (spec : ExpressionNode) : bool :=
  negb (String.eqb (ToUpper (Type_ spec)) "EXPR_PROXY") && opt_bool proxy_free (Default spec)
  && opt_bool proxy_free (Arg spec) && opt_bool proxy_free (Lhs spec) && opt_bool proxy_free (Rhs spec)
  && forallb proxy_free (Farg spec).

Definition halts {A} (r : res A) : Prop := r ≠ Loop.
Lemma halts_bind {A B} (r : res A) (k : A → res B) :
  halts r → (∀ a, r = Ret a → halts (k a)) → halts (res_bind r k).
Proof. unfold halts. destruct r; naive_solver. Qed.
Lemma halts_wrap {A} m (r : res A) : halts r → halts (wrap_err m r).
Proof. unfold halts. by destruct r. Qed.
Lemma halts_settles {A} (r : res A) : settles r → halts r.
Proof. unfold halts. intros [?|[e ->]]; [by destruct r|done]. Qed.
Lemma halts_ret {A} (a : A) : halts (Ret a).
Proof. done. Qed.
Lemma halts_fail {A} e : halts (Fail (A := A) e).
Proof. done. Qed.
#[local] Hint Resolve halts_bind halts_wrap halts_settles halts_ret halts_fail : go.

Lemma parseValue_settles expr m : settles (parseValue ctx range expr m).
Proof. unfold parseValue. cbv zeta. repeat (case_match; try by eauto with go). Qed.

Lemma static_list_halts exprs m : halts (static_list ctx range exprs m).
Proof.
  induction exprs as [|x exprs IH]; cbn; [eauto with go|].
  apply halts_bind; [apply halts_wrap, halts_settles, parseValue_settles|intros v _].
  case_match; [by eauto with go|done].
Qed.

Lemma leaf_builds_halt spec dflt : halts (build_value ctx range spec) ∧
  halts (build_select ctx columns spec dflt) ∧ halts (build_static_list ctx range spec).
Proof.
  split_and!.
  - unfold build_value. case_match; [done|]. apply halts_bind; [apply halts_settles, parseValue_settles|intros v _].
    case_match; [done|]. eauto using CastToRdfType_settles with go.
  - unfold build_select, select_name. repeat (case_match; cbn [res_bind]; try done).
  - unfold build_static_list. case_match; [done|]. apply halts_bind; [apply static_list_halts|done].
Qed.

Lemma checked_rhs_spec op rhs rhs' : checked_rhs op rhs = Ret rhs' →
  rhs' = rhs ∨ rhs' = upperExprList rhs.
Proof. unfold checked_rhs. repeat case_match; naive_solver. Qed.

Lemma proxy_free_upper s : proxy_free (upperExprList s) = proxy_free s ∧ height (upperExprList s) = height s.
Proof. by destruct s. Qed.

Lemma build_args_halts f specs : Forall (λ s, halts (f s)) specs → halts (build_args f specs).
Proof. induction 1; cbn; eauto 6 with go. Qed.

Lemma height_arg s l : In s l → (height s ≤ foldr max O (map height l))%nat.
Proof. induction l as [|x l IH]; [done|]. intros [->|Hin]; simpl; [lia|]. specialize (IH Hin). lia. Qed.

(** The build terminates: a specification without proxies is built, or refused,
    by a recursion no deeper than its height. *)
Theorem build_terminates fuel spec (Hfree : proxy_free spec = true) (Hfuel : (height spec ≤ fuel)%nat) :
  BuildExprNodeEvaluator ctx range columns fuel spec ≠ Loop.
Proof.
  fold (halts (build fuel spec)). revert spec Hfree Hfuel. induction fuel as [|fuel IH]; intros spec Hfree Hfuel.
  { destruct spec; simpl in Hfuel. lia. }
  assert (Hsub : ∀ s, proxy_free s = true → (S (height s) ≤ height spec)%nat → halts (build fuel s))
    by (intros s Hs Hh; apply IH; [done|lia]).
  destruct spec as [ty ex pos exl ms px rt farg arg lhs op rhs dflt].
  cbn [proxy_free Type_ Default Arg Lhs Rhs Farg] in Hfree. rewrite !andb_true_iff in Hfree.
  destruct Hfree as (((((Hty & Hd) & Ha) & Hl) & Hr) & Hf).
  cbn [height Default Arg Lhs Rhs Farg] in Hsub.
  cbn [BuildExprNodeEvaluator Default Arg Lhs Rhs Op Type_ Farg Expr].
  apply halts_bind.
  { destruct dflt as [d|]; [|done]. apply halts_wrap, halts_bind; [|done]. apply Hsub; [done|simpl; lia]. }
  intros defaultExpr _. destruct (leaf_builds_halt (mkNode ty ex pos exl ms px rt farg arg lhs op rhs dflt) defaultExpr)
    as (Hv & Hs & Hst).
  assert (Hop : ∀ o, halts (BuildEvalOperator o)) by (intros o; unfold BuildEvalOperator; by repeat case_match).
  destruct arg as [a|]; [|destruct lhs as [l|]].
  - case_match; [done|]. apply halts_bind; [apply Hsub; [done|simpl; lia]|intros ? _]. by apply halts_bind.
  - destruct rhs as [r|]; [|done]. case_match; [done|].
    apply halts_bind; [unfold checked_rhs; by repeat case_match|intros r' Hr'].
    assert (proxy_free r' = true ∧ height r' = height r) as [Hfr Hhr].
    { cbn [opt_bool] in Hr. destruct (proxy_free_upper r) as [Hu1 Hu2].
      destruct (checked_rhs_spec _ _ _ Hr') as [-> | ->]; split; congruence. }
    apply halts_bind; [apply Hsub; [done|simpl; lia]|intros ? _].
    apply halts_bind; [apply Hsub; [done|simpl; lia]|intros ? _]. by apply halts_bind.
  - apply negb_true_iff in Hty. rewrite Hty. repeat (case_match; [first [done|apply Hv|apply Hs|apply Hst]|]).
    case_match; [|done]. case_match; [done|].
    apply halts_bind; [unfold BuildFncEvaluator; by case_match|intros ? _].
    apply halts_bind; [|done]. apply build_args_halts, Forall_forall. intros s Hin%list_elem_of_In.
    apply Hsub; [rewrite forallb_forall in Hf; by apply Hf|]. pose proof (height_arg s farg Hin). simpl. lia.
Qed.

(** A proxy to itself: when the environment variable of a proxy holds that same
    proxy, the build never ends. *)
Theorem self_proxy_diverges js p spec fuel
    (Hctx : ctx !! p = Some (VStr js)) (Hjs : json_ExpressionNode js = Some spec)
    (Hspec : spec = mkNode "expr_proxy" "" None [] 0 p "" [] None None "" None None) (Hp : p ≠ EmptyString) :
  BuildExprNodeEvaluator ctx range columns fuel spec = Loop.
Proof.
  induction fuel as [|fuel IH]; [done|]. subst spec.
  cbn [BuildExprNodeEvaluator Default Arg Lhs res_bind Type_].
  change (ToUpper "expr_proxy") with "EXPR_PROXY"%string. cbn [String.eqb Ascii.eqb Bool.eqb].
  unfold proxied. cbn [ExprEnvVarProxy]. rewrite (proj2 (String.eqb_neq p EmptyString) Hp), Hctx, Hjs.
  exact IH.
Qed.

(** ** What is built is safe *)

(** No proxy, no IN, no negative column position. *)
Fixpoint spec_safe (spec : ExpressionNode) : bool :=
  negb (String.eqb (ToUpper (Type_ spec)) "EXPR_PROXY")
  && negb (one_of (ToUpper (Op spec)) ["IN"; "IN_NO_CASE"]%string)
  && match ExprPos spec with Some p => 0 <=? p | None => true end
  && opt_bool spec_safe (Default spec) && opt_bool spec_safe (Arg spec)
  && opt_bool spec_safe (Lhs spec) && opt_bool spec_safe (Rhs spec)
  && forallb spec_safe (Farg spec).

Definition columns_ok : bool :=
  match columns with
  | Some m => forallb (λ kv, 0 <=? kv.2) (map_to_list m)
  | None => true
  end.

Lemma columns_pos m name pos : columns = Some m → columns_ok = true → m !! name = Some pos → 0 ≤ pos.
Proof.
  unfold columns_ok. intros -> Hall Hlook. rewrite forallb_forall in Hall.
  apply Z.leb_le. apply (Hall (name, pos)). by apply list_elem_of_In, elem_of_map_to_list.
Qed.

Lemma built_op_safe name o : one_of (ToUpper name) ["IN"; "IN_NO_CASE"]%string = false →
  BuildEvalOperator name = Ret o → safe_op o = true.
Proof.
  intros Hnin. unfold BuildEvalOperator. destruct (List.find _ operator_table) as [[k o']|] eqn:Hf; [|done].
  intros [= <-]. apply List.find_some in Hf as [Hin Hk%String.eqb_eq]. simpl in Hk. subst k.
  simpl in Hin. repeat destruct Hin as [[= Hk <-]|Hin]; try done; rewrite <- Hk in Hnin; discriminate.
Qed.

Definition opt_safe (d : option evalExpression) : bool :=
  match d with Some d => safe_expr d | None => true end.

Lemma build_select_safe spec dflt e :
  columns_ok = true → match ExprPos spec with Some p => 0 <=? p | None => true end = true →
  opt_safe dflt = true → build_select ctx columns spec dflt = Ret e → safe_expr e = true.
Proof.
  intros Hcol Hpos Hd. unfold build_select. destruct (negb _).
  - intros (name & _ & Hb)%res_bind_Ret. destruct columns as [m|] eqn:Hc; [|injection Hb as <-; done].
    destruct (m !! name) as [pos|] eqn:Hlook.
    + injection Hb as <-. cbn. fold (opt_safe dflt). rewrite Hd, andb_true_r.
      apply Z.leb_le. eapply columns_pos; [|exact Hcol|exact Hlook]; done.
    + destruct dflt as [d|]; [by injection Hb as <-|done].
  - destruct (ExprPos spec); [|done]. intros [= <-]. cbn. fold (opt_safe dflt). by rewrite Hpos, Hd.
Qed.

Lemma build_value_safe spec e : build_value ctx range spec = Ret e → safe_expr e = true.
Proof.
  unfold build_value. destruct (String.eqb (Expr spec) EmptyString); [done|].
  intros (v & _ & Hrest)%res_bind_Ret. destruct (String.eqb (AsRdfType spec) EmptyString); [by injection Hrest as <-|].
  by apply res_bind_Ret in Hrest as (v' & _ & [= <-]).
Qed.

Lemma build_args_safe f specs es :
  (∀ s e, In s specs → f s = Ret e → safe_expr e = true) → build_args f specs = Ret es →
  forallb safe_expr es = true.
Proof.
  revert es. induction specs as [|s specs IH]; intros es Hf; cbn; [intros [= <-]; done|].
  intros (e & He%wrap_err_Ret & (es' & Hes & [= <-])%res_bind_Ret)%res_bind_Ret. cbn.
  rewrite (Hf s e); [|by left|done]. apply IH; [|done]. intros s' e' Hin. apply Hf. by right.
Qed.

Lemma build_safe fuel : ∀ spec e, columns_ok = true → spec_safe spec = true →
  build fuel spec = Ret e → safe_expr e = true.
Proof.
  induction fuel as [|fuel IH]; intros spec e Hcol Hspec; [done|].
  destruct spec as [ty ex pos exl ms px rt farg arg lhs op rhs dflt].
  cbn [spec_safe Type_ Op ExprPos Default Arg Lhs Rhs Farg] in Hspec. rewrite !andb_true_iff, !negb_true_iff in Hspec.
  destruct Hspec as (((((((Hty & Hop) & Hpos) & Hd) & Ha) & Hl) & Hr) & Hf).
  cbn [BuildExprNodeEvaluator Default Arg Lhs Rhs Op Type_ Farg Expr].
  intros (dv & Hdv & Hrest)%res_bind_Ret.
  assert (Hds : opt_safe dv = true).
  { destruct dflt as [d|]; [|by injection Hdv as <-].
    apply wrap_err_Ret, res_bind_Ret in Hdv as (d' & Hd' & [= <-]). by eapply IH. }
  destruct arg as [a|]; [|destruct lhs as [l|]].
  - destruct (String.eqb op EmptyString); [done|].
    apply res_bind_Ret in Hrest as (a' & Ha' & (o & Ho & [= <-])%res_bind_Ret). cbn. fold (opt_safe dv).
    rewrite (IH a a'), (built_op_safe op o) by done. done.
  - destruct rhs as [r|]; [|done]. destruct (String.eqb op EmptyString); [done|].
    apply res_bind_Ret in Hrest as (r' & Hr' & (l' & Hl' & (rr & Hrr & (o & Ho & [= <-])%res_bind_Ret)%res_bind_Ret)%res_bind_Ret).
    assert (spec_safe r' = true).
    { cbn [opt_bool] in Hr. destruct (checked_rhs_spec _ _ _ Hr') as [-> | ->]; [done|by destruct r]. }
    cbn. fold (opt_safe dv). rewrite (IH l l'), (IH r' rr), (built_op_safe op o) by done. done.
  - rewrite Hty in Hrest.
    destruct (String.eqb ty EmptyString); [done|].
    destruct (String.eqb (ToUpper ty) "VALUE"); [|destruct (String.eqb (ToUpper ty) "SELECT");
      [|destruct (String.eqb (ToUpper ty) "STATIC_LIST"); [|destruct (String.eqb (ToUpper ty) "FUNCTION"); [|done]]]].
    + by eapply build_value_safe.
    + eapply build_select_safe; [exact Hcol| |exact Hds|exact Hrest]. exact Hpos.
    + unfold build_static_list in Hrest. destruct (ExprList _); [done|].
      by apply res_bind_Ret in Hrest as (vs & _ & [= <-]).
    + destruct (String.eqb ex EmptyString); [done|].
      apply res_bind_Ret in Hrest as (fnc & _ & (es & Hes & [= <-])%res_bind_Ret). cbn. fold (opt_safe dv).
      rewrite Hds, andb_true_r. eapply build_args_safe; [|exact Hes].
      intros s e Hin. rewrite forallb_forall in Hf. apply IH; [done|by apply Hf].
Qed.

(** No panic: an expression built from a specification without proxies, IN
    operators and negative positions, over columns at non-negative positions,
    returns a value or an error on every record, environment or other input. *)
Theorem built_expression_safe fuel spec e n input
    (Hcol : columns_ok = true) (Hspec : spec_safe spec = true) (He : BuildExprNodeEvaluator ctx range columns fuel spec = Ret e) :
  settles (result (Eval e n input)).
Proof. apply Eval_safe. by eapply build_safe. Qed.

(** IN over integers: a column read as an integer is never found in a static
    list of integers, because the column is an [int] and the list holds [int64]. *)
Theorem in_integer_column i rdfType c zs row n z s
    (Hrow : row !! Z.to_nat i = Some (VStr s)) (Hi : 0 ≤ i) (Ht : is_int rdfType = true)
    (Hs : CastToRdfType (VStr s) rdfType None = Ret (VInt z)) :
  result (Eval (expressionNodeEvaluator (expressionSelectLeaf i EmptyString rdfType None) (OpIn c)
                  (Some (expressionStaticListLeaf (VInt64 <$> zs))) None) n (InRow row)) = Ret (VInt 0).
Proof.
  unfold result. cbn [Eval select_value].
  assert (Hlen : (i >=? Z.of_nat (length row)) = false).
  { apply lookup_lt_Some in Hrow. rewrite Z.geb_leb. apply Z.leb_gt. lia. }
  rewrite Hlen, (proj2 (Z.ltb_ge i 0) Hi), Hrow. change (default VNil (Some (VStr s))) with (VStr s).
  cbv iota beta.
  destruct (String.eqb rdfType EmptyString) eqn:He; [apply String.eqb_eq in He; by subst|].
  rewrite Hs. cbn. replace (existsb (key_eqb (VInt z)) (VInt64 <$> zs)) with false; [done|].
  induction zs as [|x zs IH]; done.
Qed.
End build_laws.

(** ** Applications *)

#[global] Instance demo_clock : GoClock := {| current_year := 2024 |}.

Definition self_proxy : ExpressionNode :=
  mkNode "expr_proxy" "" None [] 0 "$P" "" [] None None "" None None.
#[global] Instance demo_json : GoJson :=
  {| json_ExpressionNode s := if String.eqb s "self" then Some self_proxy else None |}.

Definition int_value (s : string) : ExpressionNode :=
  mkNode "value" s None [] 0 "" "" [] None None "" None None.
Definition sum_spec : ExpressionNode :=
  mkNode "" "" None [] 0 "" "" [] None (Some (int_value "1")) "+" (Some (int_value "2")) None.

Definition null_leaf : evalExpression := expressionValueLeaf VNil.
Definition one_leaf : evalExpression := expressionValueLeaf (VInt 1).

Lemma and_or_nodes_witness :
  (∀ rv, result (Eval one_leaf 0 InOther) = Ret rv →
    result (Eval (expressionNodeEvaluator null_leaf OpAND (Some one_leaf) None) 0 InOther)
      = Ret (b2i (false && ToBool rv)) ∧
    result (Eval (expressionNodeEvaluator null_leaf OpOR (Some one_leaf) None) 0 InOther)
      = Ret (b2i (false || (false && ToBool rv)))) ∧
  (ToBool VNil = false →
    Eval (expressionNodeEvaluator null_leaf OpAND (Some one_leaf) None) 0 InOther
      = (expressionNodeEvaluator null_leaf OpAND (Some one_leaf) None, 0%nat, Ret (VInt 0))) ∧
  (ToBool VNil = true →
    Eval (expressionNodeEvaluator null_leaf OpOR (Some one_leaf) None) 0 InOther
      = (expressionNodeEvaluator null_leaf OpOR (Some one_leaf) None, 0%nat, Ret (VInt 1))).
Proof. apply (and_or_nodes null_leaf one_leaf None 0 InOther null_leaf 0 VNil). reflexivity. Defined.

Lemma built_expression_safe_witness :
  settles (result (Eval (expressionNodeEvaluator (expressionValueLeaf (VInt64 1)) OpADD
                           (Some (expressionValueLeaf (VInt64 2))) None) 0 InOther)).
Proof.
  apply (built_expression_safe ∅ (λ _, []) None 5 sum_spec); vm_compute; reflexivity.
Defined.

Lemma build_terminates_witness : BuildExprNodeEvaluator ∅ (λ _, []) None 2 sum_spec ≠ Loop.
Proof. apply build_terminates; [vm_compute; reflexivity|simpl; lia]. Defined.

Lemma self_proxy_diverges_witness :
  BuildExprNodeEvaluator {["$P" := VStr "self"]} (λ _, []) None 100 self_proxy = Loop.
Proof.
  apply (self_proxy_diverges {["$P" := VStr "self"]} (λ _, []) None "self" "$P");
    [reflexivity|reflexivity|reflexivity|discriminate].
Defined.

(** 3 * (9223372036854775807 - -2) + "7", of a row with a column of each kind. *)
Definition overflowing : evalExpression :=
  expressionNodeEvaluator
    (expressionNodeEvaluator (expressionValueLeaf (VInt 3)) OpMUL
      (Some (expressionNodeEvaluator (expressionSelectLeaf 0 "" "" None) OpSUB (Some (expressionSelectLeaf 1 "" "" None)) None)) None)
    OpADD (Some (expressionSelectLeaf 2 "" "" None)) None.
Definition kinds_row : list any := [VInt64 (two63 - 1); VInt (-2); VStr "7"; VNil].
Lemma integer_expressions_witness : (∃ v, result (Eval overflowing 0 (InRow kinds_row)) = Ret v ∧ signed v = Some (- two63 + 10)) ∧
  result (Eval (expressionNodeEvaluator overflowing OpLT (Some (expressionSelectLeaf 1 "" "" None)) None) 0 (InRow kinds_row)) = Ret (VInt 1).
Proof.
  destruct (integer_expressions kinds_row overflowing 0) as (Hz & _ & Hc). split.
  - exact (Hz (3 * (two63 + 1) + 7) ltac:(vm_compute; reflexivity)).
  - exact (Hc OpLT Z.ltb (expressionSelectLeaf 1 "" "" None) None (Number (3 * (two63 + 1) + 7)) (Number (-2)) eq_refl ltac:(vm_compute; reflexivity) ltac:(vm_compute; reflexivity) eq_refl).
Defined.

Lemma in_integer_column_witness :
  result (Eval (expressionNodeEvaluator (expressionSelectLeaf 0 EmptyString "int" None) (OpIn false)
                  (Some (expressionStaticListLeaf (VInt64 <$> [5; 6]))) None) 0 (InRow [VStr "5"])) = Ret (VInt 0).
Proof.
  apply (in_integer_column 0 "int" false [5; 6] [VStr "5"] 0 5 "5");
    [reflexivity|lia|reflexivity|vm_compute; reflexivity].
Defined.
