(* ===== verification/SqlScript.v ===== *)
(** * Splitting a SQL script

    Models src/jets/sqlscript/split.go and validate.go: the boundary scanner that
    cuts a PostgreSQL script at its top-level semicolons, the statement built from
    each chunk, and the save-time check.

    A position in the script is the text that remains from it, so a scan takes the
    remaining text and gives back what it leaves.  A line number is a counter of
    newlines and a plain integer. *)
From stdpp Require Import base list strings.
From Stdlib Require Import ZArith Lia Ascii.
From S2P Require Import Prelude GoText GoTextLaws.

Record UnterminatedError := mkUnterminated { Construct : string; e_Line : Z }.
Record Comment := mkComment { c_Text : string; c_Line : Z }.
Record Statement := mkStatement {
  Text : string; Body : string; Comments : list Comment; Line : Z; BodyLine : Z }.

Definition nl : ascii := ascii_of_N 10.
Definition is_byte (c d : ascii) : bool := if ascii_dec c d then true else false.
Definition nl_count (c : ascii) : Z := if is_byte c nl then 1 else 0.

(** [strings.Count(s, "\n")]. *)
Fixpoint newlines (s : string) : Z :=
  match s with
  | EmptyString => 0
  | String c r => nl_count c + newlines r
  end.

(** What was read between the text [s] and the text [rest] left of it. *)
Definition taken (s rest : string) : string := str_take (String.length s - String.length rest) s.

Definition isIdentStart (c : ascii) : bool :=
  is_byte c "_" || between 97 122 (byte_of c) || between 65 90 (byte_of c) || (128 <=? byte_of c).
Definition isIdentCont (c : ascii) : bool := isIdentStart c || is_digit c || is_byte c "$".

(** ** Constructs

    Each scan gives the text after the construct and the line it ends on, or
    [None] when the construct is never closed. *)

Fixpoint skipBlockComment (s : string) (depth line : Z) : option (string * Z) :=
  match s with
  | String c (String c2 r2 as r) =>
      if is_byte c "/" && is_byte c2 "*" then skipBlockComment r2 (depth + 1) line
      else if is_byte c "*" && is_byte c2 "/" then
        if depth - 1 =? 0 then Some (r2, line) else skipBlockComment r2 (depth - 1) line
      else skipBlockComment r depth (line + nl_count c)
  | _ => None
  end.

Fixpoint skipQuoted (s : string) (line : Z) (quote : ascii) (backslash : bool) : option (string * Z) :=
  match s with
  | EmptyString => None
  | String c r =>
      match r with
      | String c2 r2 =>
          if backslash && is_byte c (ascii_of_N 92) then skipQuoted r2 (line + nl_count c2) quote backslash
          else if is_byte c quote then
            if is_byte c2 quote then skipQuoted r2 line quote backslash else Some (r, line)
          else skipQuoted r (line + nl_count c) quote backslash
      | EmptyString => if is_byte c quote then Some (r, line) else None
      end
  end.

Fixpoint run_length (p : ascii → bool) (s : string) : nat :=
  match s with
  | String c r => if p c then S (run_length p r) else O
  | EmptyString => O
  end.

(** The delimiter that opens a dollar-quoted string at the [$] at the head of [s]. *)
Definition dollarTag (s : string) : option string :=
  let r := str_drop 1 s in
  let k := match r with
    | String c r' => if isIdentStart c
                     then S (run_length (λ c, isIdentCont c && negb (is_byte c "$")) r') else O
    | EmptyString => O
    end in
  match str_drop k r with
  | String c _ => if is_byte c "$" then Some (str_take (k + 2) s) else None
  | EmptyString => None
  end.

Definition skipDollarQuoted (rest : string) (line : Z) (tag : string) : option (string * Z) :=
  match String.index 0 tag rest with
  | Some j =>
      let k := (j + String.length tag)%nat in
      Some (str_drop k rest, line + newlines (str_take k rest))
  | None => None
  end.

(** ** One pass of the loop *)

Definition unterminated (what : string) (line : Z) (r : option (string * Z))
  : UnterminatedError + string * Z :=
  match r with Some p => inr p | None => inl (mkUnterminated what line) end.

(** The text from the next newline on. *)
Fixpoint from_newline (s : string) : string :=
  match s with
  | String c r => if is_byte c nl then s else from_newline r
  | EmptyString => EmptyString
  end.

(** The cases of the switch other than [';'], at the byte [c] followed by [r];
    [prev] is the byte before it. *)
Definition token (prev c : ascii) (r : string) (line : Z) : UnterminatedError + string * Z :=
  let next p := match r with String d _ => p d | EmptyString => false end in
  if is_byte c nl then inr (r, line + 1)
  else if is_byte c "-" && next (λ d, is_byte d "-") then inr (from_newline r, line)
  else if is_byte c "/" && next (λ d, is_byte d "*") then
    unterminated "block comment" line (skipBlockComment (String c r) 0 line)
  else if is_byte c "'" then unterminated "string literal" line (skipQuoted r line "'" false)
  else if is_byte c (ascii_of_N 34) then
    unterminated "quoted identifier" line (skipQuoted r line (ascii_of_N 34) false)
  else if (is_byte c "e" || is_byte c "E") && next (λ d, is_byte d "'") && negb (isIdentCont prev) then
    unterminated "string literal" line (skipQuoted (str_drop 1 r) line "'" true)
  else if is_byte c "$" then
    match dollarTag (String c r) with
    | Some tag => unterminated ("dollar-quoted string " +:+ tag) line
                    (skipDollarQuoted (str_drop (String.length tag) (String c r)) line tag)
    | None => inr (r, line)
    end
  else if isIdentStart c then inr (str_drop (run_length isIdentCont r) r, line)
  else inr (r, line).

Fixpoint last_byte (d : ascii) (s : string) : ascii :=
  match s with EmptyString => d | String c r => last_byte c r end.

(** The chunks between the top-level semicolons, each with its start line.  [start]
    is the text from the start of the open chunk on; [None] is out of fuel. *)
Fixpoint chunks (fuel : nat) (prev : ascii) (s : string) (line : Z) (start : string) (startLine : Z)
  : option (UnterminatedError + list (string * Z)) :=
  match s with
  | EmptyString => Some (inr [(taken start s, startLine)])
  | String c r =>
      match fuel with
      | O => None
      | S fuel =>
          if is_byte c ";" then
            match chunks fuel c r line r line with
            | Some (inr cs) => Some (inr ((taken start s, startLine) :: cs))
            | o => o
            end
          else match token prev c r line with
          | inl e => Some (inl e)
          | inr (rest, line') => chunks fuel (last_byte prev (taken s rest)) rest line' start startLine
          end
      end
  end.

(** ** Statements *)

Definition blank (c : ascii) : bool := existsb (λ n, byte_of c =? n) [32; 9; 13; 11; 12].

(** The first text that is not whitespace, and its line. *)
Fixpoint skip_blank (chunk : string) (line : Z) : option (string * Z) :=
  match chunk with
  | EmptyString => None
  | String c r =>
      if is_byte c nl then skip_blank r (line + 1)
      else if blank c then skip_blank r line
      else Some (chunk, line)
  end.

(** [strings.TrimRight(s, " \t\r\n\v\f")]. *)
Fixpoint TrimRight (s : string) : string :=
  match s with
  | EmptyString => EmptyString
  | String c r =>
      match TrimRight r with
      | EmptyString => if blank c || is_byte c nl then EmptyString else String c EmptyString
      | r' => String c r'
      end
  end.

(** The comments at the head of [text], the body and the text it starts at. *)
Fixpoint leadingComments (fuel : nat) (text : string) (line : Z) : option (list Comment * string * string) :=
  match text with
  | EmptyString => Some ([], EmptyString, EmptyString)
  | String c r =>
      match fuel with
      | O => None
      | S fuel =>
          let cons_comment k o := match o with Some (cs, b, t) => Some (k :: cs, b, t) | None => None end in
          let next p := match r with String d _ => p d | EmptyString => false end in
          if is_byte c nl then leadingComments fuel r (line + 1)
          else if blank c then leadingComments fuel r line
          else if is_byte c "-" && next (λ d, is_byte d "-") then
            let rest := from_newline r in
            cons_comment (mkComment (TrimSpace (taken (str_drop 1 r) rest)) line) (leadingComments fuel rest line)
          else if is_byte c "/" && next (λ d, is_byte d "*") then
            match skipBlockComment text 0 line with
            | None => Some ([], TrimSpace text, text)
            | Some (rest, line') =>
                let inner := str_drop 2 (taken text rest) in
                cons_comment (mkComment (TrimSpace (str_take (String.length inner - 2) inner)) line)
                  (leadingComments fuel rest line')
            end
          else Some ([], TrimSpace text, text)
      end
  end.

(** [None] is out of fuel, [Some None] a chunk that holds nothing. *)
Definition statementOf (chunk : string) (chunkLine : Z) : option (option Statement) :=
  match skip_blank chunk chunkLine with
  | None => Some None
  | Some (chunk, chunkLine) =>
      let text := TrimRight chunk in
      match leadingComments (String.length text) text chunkLine with
      | None => None
      | Some (comments, body, at_) =>
          let bodyLine := if String.eqb body EmptyString then 0
                          else chunkLine + newlines (taken text at_) in
          Some (Some (mkStatement text body comments chunkLine bodyLine))
      end
  end.

Fixpoint statements (cs : list (string * Z)) : option (list Statement) :=
  match cs with
  | [] => Some []
  | (chunk, line) :: cs' =>
      match statementOf chunk line, statements cs' with
      | Some (Some st), Some sts => Some (st :: sts)
      | Some None, Some sts => Some sts
      | _, _ => None
      end
  end.

(** The chunks of a script; the byte before its first is 0. *)
Definition script_chunks (script : string) : option (UnterminatedError + list (string * Z)) :=
  chunks (String.length script) zero script 1 script 1.

Definition Split (script : string) : option (UnterminatedError + list Statement) :=
  match script_chunks script with
  | None => None
  | Some (inl e) => Some (inl e)
  | Some (inr cs) => inr <$> statements cs
  end.

(** ** [Locate] and [ValidateScript] *)

Fixpoint locate_from (rs : list (Z * string)) (position line col at_ : Z) : Z * Z :=
  match rs with
  | [] => if at_ =? position then (line, col) else (0, 0)
  | (r, _) :: rs' =>
      if at_ =? position then (line, col)
      else if r =? 10 then locate_from rs' position (line + 1) 1 (at_ + 1)
      else locate_from rs' position line (col + 1) (at_ + 1)
  end.
Definition Locate (script : string) (position : Z) : Z * Z :=
  if position <? 1 then (0, 0) else locate_from (runes script) position 1 1 1.

Record Finding := mkFinding { Severity : string; Code : string; Message : string; f_Line : Z }.

Definition ValidateScript (content : string) : option (list Finding) :=
  match Split content with
  | None => None
  | Some (inr _) => Some []
  | Some (inl e) => Some [mkFinding "error" "sqlUnterminated" ("unterminated " +:+ Construct e) (e_Line e)]
  end.

Example split_tests :
  script_chunks "a ';' ; $x$;$x$ b$c;/* ; /* */ */ --;" =
    Some (inr [("a ';' ", 1); (" $x$;$x$ b$c", 1); ("/* ; /* */ */ --;", 1)]%string) ∧
  script_chunks "a; 'b" = Some (inl (mkUnterminated "string literal" 1)).
Proof. vm_compute. split; reflexivity. Qed.

(** ** The scans consume a prefix and count its lines *)

Lemma newlines_app a b : newlines (a +:+ b) = newlines a + newlines b.
Proof. induction a as [|c a IH]; [done|]. rewrite str_app_cons. cbn [newlines]. lia. Qed.

Lemma taken_app p rest : taken (p +:+ rest) rest = p.
Proof. unfold taken. by rewrite suffix_length, str_take_app. Qed.

(** [rest] is what is left of [s] after [n] bytes or more, and [line'] counts the
    newlines of what was read. *)
Definition consumes (n : nat) (s : string) (line : Z) (rest : string) (line' : Z) : Prop :=
  ∃ p, s = p +:+ rest ∧ line' = line + newlines p ∧ (n ≤ String.length p)%nat.

Lemma consumes_step n c s line rest line' :
  consumes n s (line + nl_count c) rest line' → consumes (S n) (String c s) line rest line'.
Proof.
  intros (p & -> & -> & Hn). exists (String c p). rewrite str_app_cons. cbn [newlines String.length].
  split_and!; [done|lia|lia].
Qed.
Lemma consumes_weaken n m s line rest line' :
  consumes n s line rest line' → (m ≤ n)%nat → consumes m s line rest line'.
Proof. intros (p & ? & ? & ?) ?. exists p. split_and!; [done|done|lia]. Qed.
Lemma consumes_refl s line : consumes 0 s line s line.
Proof. exists EmptyString. split_and!; [done|simpl; lia|done]. Qed.
Lemma consumes_line n s line rest l l' : consumes n s line rest l → l = l' → consumes n s line rest l'.
Proof. by intros ? <-. Qed.

Lemma nl_count_not c d : is_byte c d = true → is_byte d nl = false → nl_count c = 0.
Proof. unfold nl_count, is_byte. destruct (ascii_dec c d) as [->|]; [|done]. by destruct (ascii_dec d nl). Qed.

Lemma skipBlockComment_consumes n : ∀ s depth line rest line', (String.length s ≤ n)%nat →
  skipBlockComment s depth line = Some (rest, line') → consumes 1 s line rest line'.
Proof.
  induction n as [|n IH]; intros s depth line rest line' Hn; [by destruct s; simpl in *; [|lia]|].
  destruct s as [|c [|c2 r2]]; [done|done|]. cbn [skipBlockComment].
  destruct (is_byte c "/" && is_byte c2 "*") eqn:Hopen; [|destruct (is_byte c "*" && is_byte c2 "/") eqn:Hclose].
  - intros Hrec%IH; [|simpl in *; lia]. apply andb_true_iff in Hopen as [Hc Hc2].
    eapply consumes_weaken; [apply consumes_step, consumes_step|].
    { rewrite (nl_count_not c "/"), (nl_count_not c2 "*"), !Z.add_0_r by done. exact Hrec. } lia.
  - apply andb_true_iff in Hclose as [Hc Hc2].
    assert (Hstep : consumes 0 r2 line rest line' → consumes 1 (String c (String c2 r2)) line rest line').
    { intros Hr. eapply consumes_weaken; [apply consumes_step, consumes_step|].
      { rewrite (nl_count_not c "*"), (nl_count_not c2 "/"), !Z.add_0_r by done. exact Hr. } lia. }
    destruct (depth - 1 =? 0); [intros [= -> ->]; apply Hstep, consumes_refl|].
    intros Hrec%IH; [|simpl in *; lia]. apply Hstep. eapply consumes_weaken; [done|lia].
  - intros Hrec. change (skipBlockComment (String c2 r2) depth (line + nl_count c) = Some (rest, line')) in Hrec.
    apply IH in Hrec; [|simpl in *; lia]. eapply consumes_weaken; [apply consumes_step; exact Hrec|lia].
Qed.

Lemma skipQuoted_consumes quote b (Hq : is_byte quote nl = false) n : ∀ s line rest line',
  (String.length s ≤ n)%nat → skipQuoted s line quote b = Some (rest, line') → consumes 0 s line rest line'.
Proof.
  induction n as [|n IH]; intros s line rest line' Hn; [by destruct s; simpl in *; [|lia]|].
  destruct s as [|c [|c2 r2]]; [done| |].
  { cbn [skipQuoted]. destruct (is_byte c quote) eqn:Hc; [|done]. intros [= <- <-].
    eapply consumes_weaken; [apply consumes_step|]; [|lia].
    rewrite (nl_count_not c quote) by done. rewrite Z.add_0_r. apply consumes_refl. }
  cbn [skipQuoted]. destruct (b && is_byte c (ascii_of_N 92)) eqn:Hb; [|destruct (is_byte c quote) eqn:Hc].
  - intros Hrec%IH; [|simpl in *; lia]. apply andb_true_iff in Hb as [_ Hb].
    eapply consumes_weaken; [apply consumes_step, consumes_step|].
    { rewrite (nl_count_not c (ascii_of_N 92)), Z.add_0_r by done. exact Hrec. } lia.
  - destruct (is_byte c2 quote) eqn:Hc2.
    + intros Hrec%IH; [|simpl in *; lia]. eapply consumes_weaken; [apply consumes_step, consumes_step|].
      { rewrite (nl_count_not c quote), (nl_count_not c2 quote), !Z.add_0_r by done. exact Hrec. } lia.
    + intros [= <- <-]. eapply consumes_weaken; [apply consumes_step|]; [|lia].
      rewrite (nl_count_not c quote), Z.add_0_r by done. apply consumes_refl.
  - intros Hrec. change (skipQuoted (String c2 r2) (line + nl_count c) quote b = Some (rest, line')) in Hrec.
    apply IH in Hrec; [|simpl in *; lia]. eapply consumes_weaken; [apply consumes_step; exact Hrec|lia].
Qed.

Lemma take_drop n s : str_take n s +:+ str_drop n s = s.
Proof. revert n. induction s as [|c s IH]; intros [|n]; try done. cbn. rewrite str_app_cons. by rewrite IH. Qed.

Lemma skipDollarQuoted_consumes s line tag rest line' :
  skipDollarQuoted s line tag = Some (rest, line') → consumes 0 s line rest line'.
Proof.
  unfold skipDollarQuoted. destruct (String.index 0 tag s); [|done]. intros [= <- <-].
  eexists. split; [by rewrite take_drop|]. split; [done|lia].
Qed.

Lemma from_newline_consumes s line : consumes 0 s line (from_newline s) line.
Proof.
  revert line. induction s as [|c s IH]; intros line; [apply consumes_refl|]. cbn [from_newline].
  destruct (is_byte c nl) eqn:Hc; [apply consumes_refl|]. eapply consumes_weaken; [apply consumes_step|]; [|lia].
  unfold nl_count. rewrite Hc, Z.add_0_r. apply IH.
Qed.

(** A run of bytes that are no newline. *)
Lemma run_consumes p s line : (∀ c, p c = true → is_byte c nl = false) →
  consumes 0 s line (str_drop (run_length p s) s) line.
Proof.
  intros Hp. revert line. induction s as [|c s IH]; intros line; [apply consumes_refl|]. cbn [run_length].
  destruct (p c) eqn:Hc; [|apply consumes_refl]. cbn [str_drop].
  eapply consumes_weaken; [apply consumes_step|]; [|lia].
  unfold nl_count. rewrite (Hp c Hc), Z.add_0_r. apply IH.
Qed.

Lemma ident_not_nl c : isIdentCont c = true → is_byte c nl = false.
Proof. by destruct c as [[] [] [] [] [] [] [] []]. Qed.

Lemma run_newlines p s : (∀ c, p c = true → is_byte c nl = false) →
  newlines (str_take (run_length p s) s) = 0.
Proof.
  intros Hp. induction s as [|c s IH]; [done|]. cbn [run_length]. destruct (p c) eqn:Hc; [|done].
  cbn [str_take newlines]. unfold nl_count. rewrite (Hp c Hc). lia.
Qed.

Lemma take_succ k s c t : str_drop k s = String c t → str_take (S k) s = str_take k s +:+ String c EmptyString.
Proof.
  revert s. induction k as [|k IH]; intros [|x s]; try done.
  - by intros [= -> ->].
  - intros Hd. change (str_take (S (S k)) (String x s)) with (String x (str_take (S k) s)).
    change (str_take (S k) (String x s)) with (String x (str_take k s)).
    by rewrite IH by done.
Qed.

Lemma str_take_length k s c t : str_drop k s = String c t → String.length (str_take k s) = k.
Proof.
  revert s. induction k as [|k IH]; intros [|x s]; try done. intros Hd. cbn [str_take String.length].
  f_equal. by apply IH.
Qed.

Lemma dollarTag_spec r tag : dollarTag (String "$" r) = Some tag →
  String "$" r = tag +:+ str_drop (String.length tag) (String "$" r) ∧ newlines tag = 0 ∧
  (1 ≤ String.length tag)%nat.
Proof.
  unfold dollarTag. change (str_drop 1 (String "$" r)) with r.
  set (k := match r with String c r' => _ | EmptyString => _ end).
  assert (Hk : newlines (str_take k r) = 0).
  { subst k. destruct r as [|c r']; [done|]. destruct (isIdentStart c) eqn:Hc; [|done].
    cbn [str_take newlines]. rewrite run_newlines; [|intros d [Hd _]%andb_true_iff; by apply ident_not_nl].
    unfold nl_count. rewrite ident_not_nl; [done|]. unfold isIdentCont. by rewrite Hc. }
  clearbody k. destruct (str_drop k r) as [|c t] eqn:Hd; [done|]. destruct (is_byte c "$") eqn:Hc; [|done].
  intros [= <-]. rewrite Nat.add_comm. change (str_take (2 + k) (String "$" r)) with (String "$" (str_take (S k) r)).
  rewrite (take_succ k r c t Hd). pose proof (str_take_length k r c t Hd) as Hlen.
  split_and!.
  - cbn [String.length]. rewrite str_length_app, Hlen. cbn [String.length str_drop].
    rewrite Nat.add_1_r, str_app_cons. f_equal. rewrite <- (take_succ k r c t Hd). by rewrite take_drop.
  - cbn [newlines]. rewrite newlines_app, Hk. cbn [newlines]. by rewrite (nl_count_not c "$").
  - cbn [String.length]. lia.
Qed.

Lemma consumes_app p s line rest line' :
  newlines p = 0 → consumes 0 s line rest line' → consumes (String.length p) (p +:+ s) line rest line'.
Proof.
  intros Hp (q & -> & -> & _). exists (p +:+ q). rewrite str_app_assoc, newlines_app, str_length_app.
  split_and!; [done|lia|lia].
Qed.

Lemma unterminated_inr what line r rest line' : unterminated what line r = inr (rest, line') → r = Some (rest, line').
Proof. destruct r as [[]|]; simpl; congruence. Qed.

Lemma is_byte_eq c d : is_byte c d = true → c = d.
Proof. unfold is_byte. by destruct (ascii_dec c d). Qed.

(** A pass of the loop reads at least the byte it stands on. *)
Lemma token_consumes prev c r line rest line' :
  token prev c r line = inr (rest, line') → consumes 1 (String c r) line rest line'.
Proof.
  assert (Hone : ∀ r' l, is_byte c nl = false → consumes 0 r line r' l → consumes 1 (String c r) line r' l).
  { intros r' l Hc Hr. apply consumes_step. unfold nl_count. by rewrite Hc, Z.add_0_r. }
  unfold token. destruct (is_byte c nl) eqn:Hnl.
  { intros [= <- <-]. apply consumes_step. unfold nl_count. rewrite Hnl. apply consumes_refl. }
  destruct (is_byte c "-" && _).
  { intros [= <- <-]. apply Hone; [done|apply from_newline_consumes]. }
  destruct (is_byte c "/" && _).
  { intros Hs%unterminated_inr. by eapply skipBlockComment_consumes. }
  destruct (is_byte c "'").
  { intros Hs%unterminated_inr. apply Hone; [done|]. refine (skipQuoted_consumes _ _ _ _ _ _ _ _ (le_n _) Hs). reflexivity. }
  destruct (is_byte c (ascii_of_N 34)).
  { intros Hs%unterminated_inr. apply Hone; [done|]. refine (skipQuoted_consumes _ _ _ _ _ _ _ _ (le_n _) Hs). reflexivity. }
  destruct ((is_byte c "e" || is_byte c "E") && _ && negb (isIdentCont prev)) eqn:He.
  { rewrite !andb_true_iff in He. destruct He as [[_ Hq] _]. destruct r as [|d r]; [done|].
    intros Hs%unterminated_inr. apply Hone; [done|]. eapply consumes_weaken; [apply consumes_step|]; [|lia].
    rewrite (nl_count_not d "'"), Z.add_0_r by done. refine (skipQuoted_consumes _ _ _ _ _ _ _ _ (le_n _) Hs). reflexivity. }
  destruct (is_byte c "$") eqn:Hd; [apply is_byte_eq in Hd; subst c|].
  { destruct (dollarTag (String "$" r)) as [tag|] eqn:Ht; [|intros [= <- <-]; apply Hone, consumes_refl; done].
    intros Hs%unterminated_inr%skipDollarQuoted_consumes. destruct (dollarTag_spec r tag Ht) as (Heq & Hz & Hlen).
    eapply consumes_weaken; [rewrite Heq; by apply consumes_app|done]. }
  destruct (isIdentStart c).
  { intros [= <- <-]. apply Hone; [done|]. apply run_consumes, ident_not_nl. }
  intros [= <- <-]. apply Hone, consumes_refl. done.
Qed.

Lemma token_error prev c r line e : token prev c r line = inl e → e_Line e = line.
Proof.
  unfold token, unterminated. repeat case_match; intros; simplify_eq; done.
Qed.

(** Each chunk starts on the line the newlines before it put it on. *)
Fixpoint lines_from (line : Z) (cs : list (string * Z)) : Prop :=
  match cs with
  | [] => True
  | (chunk, l) :: cs' => l = line ∧ lines_from (line + newlines chunk) cs'
  end.

Lemma chunks_spec fuel : ∀ prev s line pre startLine,
  (String.length s ≤ fuel)%nat → line = startLine + newlines pre →
  match chunks fuel prev s line (pre +:+ s) startLine with
  | None => False
  | Some (inl e) => ∃ p r, s = p +:+ r ∧ r ≠ EmptyString ∧ e_Line e = line + newlines p
  | Some (inr cs) => cs ≠ [] ∧ join ";" (map fst cs) = pre +:+ s ∧ lines_from startLine cs
  end.
Proof.
  induction fuel as [|fuel IH]; intros prev s line pre startLine Hlen Hline.
  all: destruct s as [|c r]; [cbn [chunks]; rewrite taken_app; cbn; rewrite str_app_nil; done|].
  { simpl in Hlen. lia. }
  cbn [chunks]. cbn [String.length] in Hlen. destruct (is_byte c ";") eqn:Hsemi.
  - apply is_byte_eq in Hsemi. subst c. specialize (IH ";"%char r line EmptyString line ltac:(lia) ltac:(simpl; lia)).
    change ("" +:+ r) with r in IH. destruct (chunks fuel ";" r line r line) as [[e|cs]|]; [| |done].
    + destruct IH as (p & q & -> & Hq & He). exists (String ";" p), q. cbn [newlines]. by rewrite He.
    + destruct IH as (Hne & Hjoin & Hl). rewrite taken_app. cbn [map fst].
      split_and!; [done| |].
      * destruct cs as [|[k l] cs]; [done|]. cbn [map fst join] in Hjoin |- *. by rewrite Hjoin.
      * cbn [lines_from]. split; [done|]. by rewrite <- Hline.
  - destruct (token prev c r line) as [e|[rest line']] eqn:Htok.
    + apply token_error in Htok. exists EmptyString, (String c r). split_and!; [done|done|simpl; lia].
    + apply token_consumes in Htok as (p & Heq & -> & Hp). rewrite Heq.
      rewrite taken_app, str_app_assoc.
      specialize (IH (last_byte prev p) rest (line + newlines p) (pre +:+ p) startLine).
      apply (f_equal String.length) in Heq as Hle. rewrite str_length_app in Hle. cbn [String.length] in Hle.
      specialize (IH ltac:(lia) ltac:(rewrite newlines_app; lia)).
      destruct (chunks fuel _ rest _ ((pre +:+ p) +:+ rest) startLine) as [[e|cs]|]; [| |done].
      * destruct IH as (p' & q & -> & Hq & He). exists (p +:+ p'), q. rewrite str_app_assoc, newlines_app.
        split_and!; [done|done|lia].
      * exact IH.
Qed.

(** ** Results *)

Lemma consumes_shorter n s line rest line' : consumes n s line rest line' →
  (String.length rest + n ≤ String.length s)%nat.
Proof. intros (p & -> & _ & Hp). rewrite str_length_app. lia. Qed.

Lemma leadingComments_total fuel : ∀ text line, (String.length text ≤ fuel)%nat →
  ∃ r, leadingComments fuel text line = Some r.
Proof.
  induction fuel as [|fuel IH]; intros [|c r] line Hlen; [by eexists|simpl in Hlen; lia|by eexists|].
  cbn [String.length] in Hlen. cbn [leadingComments].
  destruct (is_byte c nl); [apply IH; lia|]. destruct (blank c); [apply IH; lia|].
  destruct (is_byte c "-" && _).
  { destruct (IH (from_newline r) line) as [[[cs b] t] ->]; [|by eexists].
    pose proof (consumes_shorter _ _ _ _ _ (from_newline_consumes r line)). lia. }
  destruct (is_byte c "/" && _); [|by eexists].
  destruct (skipBlockComment (String c r) 0 line) as [[rest line']|] eqn:Hs; [|by eexists].
  apply (skipBlockComment_consumes _ _ _ _ _ _ (le_n _)) in Hs. apply consumes_shorter in Hs. cbn [String.length] in Hs.
  destruct (IH rest line') as [[[cs b] t] ->]; [lia|by eexists].
Qed.

Lemma statements_total cs : ∃ sts, statements cs = Some sts.
Proof.
  induction cs as [|[chunk line] cs [sts IH]]; [by eexists|]. cbn [statements]. rewrite IH. unfold statementOf.
  destruct (skip_blank chunk line) as [[chunk' line']|]; [|by eexists].
  destruct (leadingComments_total (String.length (TrimRight chunk')) (TrimRight chunk') line' (le_n _))
    as [[[cms b] t] ->]. by eexists.
Qed.

(** Cutting a script loses nothing: the scan always ends; when it cuts the script,
    the chunks joined by semicolons are the script, byte for byte, and each is
    labelled with the line it starts on. *)
Theorem script_chunks_lossless script :
  match script_chunks script with
  | Some (inr cs) => join ";" (map fst cs) = script ∧ lines_from 1 cs
  | Some (inl _) => True
  | None => False
  end.
Proof.
  pose proof (chunks_spec (String.length script) zero script 1 EmptyString 1 (le_n _) eq_refl) as Hspec.
  change ("" +:+ script) with script in Hspec. unfold script_chunks.
  destruct (chunks _ _ _ _ _ _) as [[e|cs]|]; tauto.
Qed.

(** The split answers every script with its statements or with the line of an
    unterminated construct, which is the line the construct opens on: one plus the
    newlines of the text before it.  The save-time check reports a script exactly
    when the split refuses it, on that line. *)
Theorem Split_total script :
  (∃ sts, Split script = Some (inr sts) ∧ ValidateScript script = Some []) ∨
  (∃ what before after, script = before +:+ after ∧ after ≠ EmptyString ∧
     Split script = Some (inl (mkUnterminated what (1 + newlines before))) ∧
     ValidateScript script =
       Some [mkFinding "error" "sqlUnterminated" ("unterminated " +:+ what) (1 + newlines before)]).
Proof.
  pose proof (chunks_spec (String.length script) zero script 1 EmptyString 1 (le_n _) eq_refl) as Hspec.
  change ("" +:+ script) with script in Hspec. unfold ValidateScript, Split, script_chunks.
  destruct (chunks _ _ _ _ _ _) as [[[what l]|cs]|]; [| |done].
  - right. destruct Hspec as (p & r & Heq & Hr & Hl). simpl in Hl. subst l. exists what, p, r. done.
  - left. destruct (statements_total cs) as [sts Hs]. exists sts. by rewrite Hs.
Qed.

(** ** Literals *)

(** The text of a SQL string literal: quotes doubled. *)
Fixpoint doubled (s : string) : string :=
  match s with
  | EmptyString => EmptyString
  | String c r => if is_byte c "'" then String "'" (String "'" (doubled r)) else String c (doubled r)
  end.

Lemma skipQuoted_doubled t after line :
  match after with String c _ => is_byte c "'" = false | EmptyString => True end →
  skipQuoted (doubled t +:+ String "'" after) line "'" false = Some (after, line + newlines t).
Proof.
  intros Hafter. revert line. induction t as [|c t IH]; intros line.
  - change (doubled "" +:+ String "'" after) with (String "'" after). cbn [newlines]. rewrite Z.add_0_r.
    destruct after as [|d after]; [done|]. cbn [skipQuoted]. by rewrite Hafter.
  - cbn [doubled newlines]. destruct (is_byte c "'") eqn:Hc.
    + rewrite !str_app_cons. cbn [skipQuoted andb]. rewrite IH, (nl_count_not c "'") by done. done.
    + rewrite str_app_cons. assert (Hne : ∃ d x, doubled t +:+ String "'" after = String d x).
      { destruct t as [|e t]; [by eexists _, _|]. cbn [doubled]. by destruct (is_byte e "'"); eexists _, _. }
      destruct Hne as (d & x & Hdx). rewrite Hdx. cbn [skipQuoted andb]. rewrite Hc.
      change (skipQuoted (String d x) (line + nl_count c) "'" false = Some (after, line + (nl_count c + newlines t))).
      rewrite <- Hdx, IH. do 2 f_equal. lia.
Qed.

(** Values are data: whatever text is put in a string literal with its quotes
    doubled, semicolons, comment marks and newlines included, the literal followed by
    a semicolon is one chunk. *)
Theorem literal_is_one_chunk t :
  script_chunks (String "'" (doubled t +:+ "';"))
    = Some (inr [(String "'" (doubled t +:+ "'"), 1); (EmptyString, 1 + newlines t)]).
Proof.
  unfold script_chunks. set (s := String "'" (doubled t +:+ "';")).
  assert (Hs : s = String "'" (doubled t +:+ "'") +:+ ";").
  { subst s. rewrite str_app_cons. f_equal. rewrite <- str_app_assoc. done. }
  assert (Hlen : ∃ n, String.length s = S (S n)).
  { rewrite Hs, str_length_app. cbn [String.length].
    rewrite Nat.add_1_r. by eexists. }
  destruct Hlen as [n ->]. subst s. cbn [chunks]. change (is_byte "'" ";") with false. cbv iota.
  assert (token zero "'" (doubled t +:+ "';") 1 = inr (";"%string, 1 + newlines t)) as ->.
  { unfold token. cbn. change "';" with (String "'" ";") at 1. by rewrite skipQuoted_doubled. }
  cbn [chunks]. change (is_byte ";" ";") with true. cbv iota. rewrite Hs.
  rewrite taken_app. by destruct n.
Qed.
