(* ===== verification/Csv.v ===== *)
(** * Delimited text (src/jets/csv)

    The reader and the writer of CSV records: reader.go and writer.go, which extend
    the ones of Go with other end-of-line bytes, files without quotes, quotes that
    are left open and the quoting of every field.

    The reader runs on a text: the rest of the input is part of its state, and the
    only error of the underlying reader is the end of the input. The bytes of the
    record buffer up to the last field index are the fields read so far, those after
    it the field being read. Without [ReuseRecord], [Read] is [readRecord]. *)
From stdpp Require Import base list strings.
From Stdlib Require Import Ascii ZArith Lia.
From S2P Require Import Prelude GoText GoTextLaws.
Local Open Scope string_scope.
Local Open Scope Z_scope.

(** ** Bytes *)
Definition LF : ascii := chr 10.
Definition CR : ascii := chr 13.
Definition QUOTE : ascii := chr 34.
Definition is_ascii (c d : ascii) : bool := if ascii_dec c d then true else false.
Definition one (c : ascii) : string := String c "".

(** The text before and after the first occurrence of [sep]: [bytes.IndexByte],
    [bytes.IndexRune]. *)
Fixpoint cut (sep s : string) : option (string * string) :=
  if String.prefix sep s then Some ("", str_drop (String.length sep) s) else
  match s with
  | "" => None
  | String c s => match cut sep s with Some (a, b) => Some (String c a, b) | None => None end
  end%string.

Fixpoint last_char (s : string) : option ascii :=
  match s with "" => None | String c "" => Some c | String _ s => last_char s end%string.
(** [s[:len(s)-1]] *)
Fixpoint but_last (s : string) : string :=
  match s with "" => "" | String c "" => "" | String c s => String c (but_last s) end%string.

(** ** The reader *)
Record Reader := mkReader {
  Comma : Z; EolByte : ascii; NoQuotes : bool; Comment : Z; KeepRawRecord : bool; FieldsPerRecord : Z;
  LazyQuotes : bool; LazyQuotesSpecial : bool; TrimLeadingSpace : bool;
  r_input : string; numLine : Z; r_offset : Z; rawRecordBuffer : string; fieldPositions : list (Z * Z) }.

Definition NewReader (text : string) : Reader :=
  mkReader 44 LF false 0 false 0 false false false text 0 0 "" [].

Inductive csv_error :=
| io_EOF
| errInvalidDelim
| errInvalidEolByte
| ParseError (StartLine Line Column : Z) (Err : string).
Definition ErrBareQuote := "bare " +:+ one QUOTE +:+ " in non-quoted-field".
Definition ErrQuote := "extraneous or missing " +:+ one QUOTE +:+ " in quoted-field".
Definition ErrFieldCount := "wrong number of fields".

Definition validDelim (r : Z) : bool :=
  negb (r =? 0) && negb (r =? 34) && negb (r =? 13) && negb (r =? 10) && ValidRune r && negb (r =? RuneError).
Definition validEol (eol : ascii) (delimit : Z) : bool :=
  negb (byte_of eol =? 0) && negb (is_ascii eol QUOTE) && negb (byte_of eol =? delimit).

Definition with_input (r : Reader) (input : string) (numLine offset : Z) : Reader :=
  mkReader (Comma r) (EolByte r) (NoQuotes r) (Comment r) (KeepRawRecord r) (FieldsPerRecord r) (LazyQuotes r)
    (LazyQuotesSpecial r) (TrimLeadingSpace r) input numLine offset (rawRecordBuffer r) (fieldPositions r).
Definition with_raw (r : Reader) (raw : string) : Reader :=
  mkReader (Comma r) (EolByte r) (NoQuotes r) (Comment r) (KeepRawRecord r) (FieldsPerRecord r) (LazyQuotes r)
    (LazyQuotesSpecial r) (TrimLeadingSpace r) (r_input r) (numLine r) (r_offset r) raw (fieldPositions r).
Definition with_positions (r : Reader) (p : list (Z * Z)) : Reader :=
  mkReader (Comma r) (EolByte r) (NoQuotes r) (Comment r) (KeepRawRecord r) (FieldsPerRecord r) (LazyQuotes r)
    (LazyQuotesSpecial r) (TrimLeadingSpace r) (r_input r) (numLine r) (r_offset r) (rawRecordBuffer r) p.
Definition with_fields (r : Reader) (n : Z) : Reader :=
  mkReader (Comma r) (EolByte r) (NoQuotes r) (Comment r) (KeepRawRecord r) n (LazyQuotes r)
    (LazyQuotesSpecial r) (TrimLeadingSpace r) (r_input r) (numLine r) (r_offset r) (rawRecordBuffer r) (fieldPositions r).
Definition with_lazy (r : Reader) : Reader :=
  mkReader (Comma r) (EolByte r) (NoQuotes r) (Comment r) (KeepRawRecord r) (FieldsPerRecord r)
    (LazyQuotesSpecial r || LazyQuotes r) (LazyQuotesSpecial r) (TrimLeadingSpace r) (r_input r) (numLine r) (r_offset r)
    (rawRecordBuffer r) (fieldPositions r).

(** [ReadSlice(eol)]: up to and including the first [eol]; without one, the rest
    and the end of the input. *)
Definition ReadSlice (eol : ascii) (s : string) : string * string * bool :=
  match cut (one eol) s with
  | Some (a, b) => (a +:+ one eol, b, false)
  | None => (s, "", true)
  end.

(** [line[n-2] == '\r' && line[n-1] == '\n'], and the line without the '\r'. *)
Definition drop_crlf (line : string) : string :=
  if bool_decide (last_char line = Some LF) && bool_decide (last_char (but_last line) = Some CR)
  then but_last (but_last line) +:+ one LF else line.

Definition readLine (r : Reader) : string * bool * Reader :=
  let '(line, rest, eof) := ReadSlice (EolByte r) (r_input r) in
  let readSize := Z.of_nat (String.length line) in
  let '(line, eof) :=
    if (0 <? readSize) && eof then
      ((if bool_decide (last_char line = Some CR) then but_last line else line), false)
    else (line, eof) in
  (drop_crlf line, eof, with_input r rest (numLine r + 1) (r_offset r + readSize)).

Definition lengthNL (r : Reader) (b : string) : Z :=
  if bool_decide (last_char b = Some (EolByte r)) then 1 else 0.
Definition nextRune (b : string) : Z := (DecodeRune b).1.

(** The line without its trailing end of line. *)
Definition drop_nl (r : Reader) (line : string) : string := if lengthNL r line =? 1 then but_last line else line.

(** The first line that is neither a comment nor empty. *)
Fixpoint skip_lines (fuel : nat) (r : Reader) : option (string * bool * Reader) :=
  match fuel with
  | O => None
  | S fuel =>
      let '(line, eof, r) := readLine r in
      if negb (Comment r =? 0) && (nextRune line =? Comment r) then
        (if eof then Some ("", eof, r) else skip_lines fuel r)
      else if negb eof && (Z.of_nat (String.length line) =? lengthNL r line) then skip_lines fuel r
      else Some (line, eof, r)
  end.

(** Where the parser is: at the start of a field, or in a quoted field, with what
    it has read of it and its position. *)
Inductive mode := AtField | InQuotes (buffer : string) (fieldPos : Z * Z).

Definition str_len (s : string) : Z := Z.of_nat (String.length s).

(** TrimLeadingSpace *)
Definition trim_leading (r : Reader) (line : string) (pos : Z * Z) : string * (Z * Z) :=
  if TrimLeadingSpace r then
    let line' := foldr (λ rb acc, rb.2 +:+ acc) "" (drop_spaces (runes line)) in
    let col := if String.eqb line' "" then pos.2 - lengthNL r line else pos.2 in
    (line', (pos.1, col + (str_len line - str_len line')))
  else (line, pos).

(** The loop [parseField] and the one inside it, one turn per unit of fuel. *)
Fixpoint parse (fuel : nat) (recLine : Z) (m : mode) (line : string) (pos : Z * Z) (fields : list string) (r : Reader)
    : option (list string * option csv_error * Reader) :=
  match fuel with
  | O => None
  | S fuel =>
      match m with
      | AtField =>
          let '(line, pos) := trim_leading r line pos in
          match (if NoQuotes r then None else match line with String c rest => if is_ascii c QUOTE then Some rest else None | _ => None end) with
          | None =>
              let i := cut (EncodeRune (Comma r)) line in
              let field := match i with Some (a, _) => a | None => drop_nl r line end in
              match (if LazyQuotes r || NoQuotes r then None else cut (one QUOTE) field) with
              | Some (before, _) =>
                  Some (fields, Some (ParseError recLine (numLine r) (pos.2 + str_len before) ErrBareQuote), r)
              | None =>
                  let r := with_positions r (fieldPositions r ++ [pos])%list in
                  match i with
                  | Some (a, rest) =>
                      parse fuel recLine AtField rest
                        (pos.1, pos.2 + str_len a + str_len (EncodeRune (Comma r))) (fields ++ [field])%list r
                  | None => Some ((fields ++ [field])%list, None, r)
                  end
              end
          | Some rest => parse fuel recLine (InQuotes "" pos) rest (pos.1, pos.2 + 1) fields r
          end
      | InQuotes buffer fieldPos =>
          let closed := with_positions r (fieldPositions r ++ [fieldPos])%list in
          match cut (one QUOTE) line with
          | Some (a, rest) =>
              let buffer := buffer +:+ a in
              let pos := (pos.1, pos.2 + str_len a + 1) in
              let rn := nextRune rest in
              if rn =? 34 then
                parse fuel recLine (InQuotes (buffer +:+ one QUOTE) fieldPos) (str_drop 1 rest) (pos.1, pos.2 + 1) fields r
              else if rn =? Comma r then
                let commaLen := String.length (EncodeRune (Comma r)) in
                parse fuel recLine AtField (str_drop commaLen rest) (pos.1, pos.2 + Z.of_nat commaLen)
                  (fields ++ [buffer])%list closed
              else if lengthNL r rest =? str_len rest then Some ((fields ++ [buffer])%list, None, closed)
              else if LazyQuotes r then parse fuel recLine (InQuotes (buffer +:+ one QUOTE) fieldPos) rest pos fields r
              else Some (fields, Some (ParseError recLine (numLine r) (pos.2 - 1) ErrQuote), r)
          | None =>
              if negb (String.eqb line "") then
                let line := if LazyQuotesSpecial r then drop_nl r line else line in
                let buffer := buffer +:+ line in
                if LazyQuotesSpecial r then Some ((fields ++ [buffer])%list, None, closed) else
                let pos := (pos.1, pos.2 + str_len line) in
                let '(line, _, r) := readLine r in
                let '(pos, r) := if String.eqb line "" then (pos, r) else
                  ((pos.1 + 1, 1), if KeepRawRecord r then with_raw r (rawRecordBuffer r +:+ line) else r) in
                parse fuel recLine (InQuotes buffer fieldPos) line pos fields r
              else if negb (LazyQuotes r) then Some (fields, Some (ParseError recLine pos.1 pos.2 ErrQuote), r)
              else Some ((fields ++ [buffer])%list, None, closed)
          end
      end
  end.

(** Every turn consumes a byte of the line or of the input. *)
Definition record_fuel (r : Reader) : nat := String.length (r_input r) + 2.

Definition readRecord (r : Reader) : option (list string * option csv_error * Reader) :=
  let r := with_lazy r in
  if (Comma r =? Comment r) || negb (validDelim (Comma r)) || (negb (Comment r =? 0) && negb (validDelim (Comment r))) then
    Some ([], Some errInvalidDelim, r)
  else if negb (validEol (EolByte r) (Comma r)) then Some ([], Some errInvalidEolByte, r)
  else
    match skip_lines (record_fuel r) r with
    | None => None
    | Some (line, eof, r) =>
        if eof then Some ([], Some io_EOF, r) else
        let recLine := numLine r in
        let r := with_positions (with_raw r (if KeepRawRecord r then line else "")) [] in
        match parse (S (String.length line) + record_fuel r) recLine AtField line (numLine r, 1) [] r with
        | None => None
        | Some (dst, err, r) =>
            if 0 <? FieldsPerRecord r then
              Some (dst, (if negb (Z.of_nat (length dst) =? FieldsPerRecord r) && bool_decide (err = None)
                          then Some (ParseError recLine recLine 1 ErrFieldCount) else err), r)
            else if FieldsPerRecord r =? 0 then Some (dst, err, with_fields r (Z.of_nat (length dst)))
            else Some (dst, err, r)
        end
    end.

(** [ReadAll]: the records, or the error that is not the end of the input. *)
Fixpoint read_all (fuel : nat) (r : Reader) (records : list (list string)) : option (csv_error + list (list string)) :=
  match fuel with
  | O => None
  | S fuel =>
      match readRecord r with
      | None => None
      | Some (_, Some io_EOF, _) => Some (inr records)
      | Some (_, Some e, _) => Some (inl e)
      | Some (record, None, r) => read_all fuel r (records ++ [record])%list
      end
  end.
Definition ReadAll (r : Reader) : option (csv_error + list (list string)) :=
  read_all (String.length (r_input r) + 1) r [].

(** A call out of range panics. *)
Definition FieldPos (r : Reader) (field : Z) : option (Z * Z) :=
  if (field <? 0) || (Z.of_nat (length (fieldPositions r)) <=? field) then None else fieldPositions r !! Z.to_nat field.
Definition InputOffset (r : Reader) : Z := r_offset r.
Definition LastRawRecord (r : Reader) : string := rawRecordBuffer r.

(** ** The writer

    The buffered writer underneath takes every byte. *)
Record Writer := mkWriter { w_Comma : Z; UseCRLF : bool; w_NoQuotes : bool; QuoteAll : bool }.

Definition NewWriter : Writer := mkWriter 44 false false false.

Definition fieldNeedsQuotes (w : Writer) (field : string) : bool :=
  if String.eqb field "" then false
  else if String.eqb field (String (chr 92) ".") then true
  else
    (if w_Comma w <? 128 then
       negb (str_all (λ c, negb (is_ascii c LF || is_ascii c CR || is_ascii c QUOTE || is_ascii c (chr (w_Comma w)))) field)
     else
       Contains field (EncodeRune (w_Comma w)) ||
       negb (str_all (λ c, negb (is_ascii c QUOTE || is_ascii c CR || is_ascii c LF)) field)) ||
    IsSpace (DecodeRune field).1.

(** The bytes of a quoted field, with the special ones encoded. *)
Fixpoint quoted_bytes (crlf : bool) (field : string) : string :=
  match field with
  | "" => ""
  | String c field =>
      (if is_ascii c QUOTE then String QUOTE (one QUOTE)
       else if is_ascii c CR then (if crlf then "" else one CR)
       else if is_ascii c LF then (if crlf then String CR (one LF) else one LF)
       else one c) +:+ quoted_bytes crlf field
  end%string.

Definition write_field (w : Writer) (field : string) : string :=
  if w_NoQuotes w || (negb (QuoteAll w) && negb (fieldNeedsQuotes w field)) then field
  else one QUOTE +:+ quoted_bytes (UseCRLF w) field +:+ one QUOTE.

Fixpoint write_fields (w : Writer) (n : nat) (record : list string) : string :=
  match record with
  | [] => ""
  | field :: record =>
      (if (0 <? n)%nat then EncodeRune (w_Comma w) else "") +:+ write_field w field +:+ write_fields w (S n) record
  end.

(** The text one call appends. *)
Definition Write (w : Writer) (record : list string) : csv_error + string :=
  if negb (validDelim (w_Comma w)) then inl errInvalidDelim
  else inr (write_fields w 0 record +:+ (if UseCRLF w then String CR (one LF) else one LF)).

Fixpoint WriteAll (w : Writer) (records : list (list string)) : csv_error + string :=
  match records with
  | [] => inr ""
  | record :: records =>
      match Write w record with
      | inl e => inl e
      | inr text => match WriteAll w records with inl e => inl e | inr rest => inr (text +:+ rest) end
      end
  end.
