(* ===== verification/CsvLaws.v ===== *)
(** * Reading what was written

    The reader of [Csv] answers every input, and reads the records the writer wrote.
    The reader turns every CR LF into LF, so it is followed on the text so normalised:
    the rest of its line together with the normal form of the rest of its input. *)
From stdpp Require Import base list strings.
From Stdlib Require Import Ascii ZArith Lia.
From S2P Require Import Prelude GoText GoTextLaws Csv.
Local Open Scope string_scope.
Local Open Scope Z_scope.

Local Abbreviation len := String.length.

(** ** Bytes *)
Lemma is_ascii_true c d : is_ascii c d = true ↔ c = d.
Proof. unfold is_ascii. by destruct (ascii_dec c d). Qed.
Lemma is_ascii_false c d : is_ascii c d = false ↔ c ≠ d.
Proof. unfold is_ascii. by destruct (ascii_dec c d). Qed.
Lemma is_ascii_refl c : is_ascii c c = true.
Proof. by apply is_ascii_true. Qed.

Lemma cut_len sep s a b : cut sep s = Some (a, b) → (len a + len sep + len b = len s)%nat.
Proof.
  revert a. induction s as [|c s IH]; intros a; cbn [cut].
  - destruct sep; simpl; [|done]. by intros [= <- <-].
  - destruct (String.prefix sep (String c s)) eqn:Hp.
    + intros [= <- <-]. rewrite str_drop_len. apply prefix_len in Hp. simpl in *. lia.
    + destruct (cut sep s) as [[a' b']|]; [|done]. intros [= <- <-]. specialize (IH a' eq_refl). simpl. lia.
Qed.

(** Cutting at a byte. *)
Lemma cut_one_here c s : cut (one c) (String c s) = Some ("", s).
Proof. unfold one. cbn [cut String.prefix String.length str_drop]. by destruct (ascii_dec c c), s. Qed.
Lemma cut_one_next c d s : d ≠ c → cut (one c) (String d s) =
  match cut (one c) s with Some (a, b) => Some (String d a, b) | None => None end.
Proof. intros Hne. unfold one. cbn [cut String.prefix]. by destruct (ascii_dec c d) as [->|]. Qed.
Lemma cut_one_app c a s : free_of c a = true → cut (one c) (a +:+ s) =
  match cut (one c) s with Some (x, b) => Some (a +:+ x, b) | None => None end.
Proof.
  unfold free_of. induction a as [|d a IH]; [change ("" +:+ s) with s; by destruct (cut (one c) s) as [[??]|]|].
  cbn [str_all]. intros [Hd Ha]%andb_true_iff. rewrite str_app_cons, cut_one_next, IH by (done || by destruct (ascii_dec d c)).
  destruct (cut (one c) s) as [[x b]|]; [by rewrite str_app_cons|done].
Qed.
Lemma cut_one_found c a s : free_of c a = true → cut (one c) (a +:+ String c s) = Some (a, s).
Proof. intros Ha. rewrite cut_one_app, cut_one_here by done. by rewrite str_app_nil. Qed.
Lemma cut_one_none c a : free_of c a = true → cut (one c) a = None.
Proof. intros Ha. rewrite <- (str_app_nil a). by rewrite cut_one_app by done. Qed.
Lemma cut_one_spec c s a b : cut (one c) s = Some (a, b) → s = a +:+ String c b ∧ free_of c a = true.
Proof.
  revert a. induction s as [|d s IH]; intros a; [done|]. destruct (ascii_dec d c) as [->|Hne].
  - rewrite cut_one_here. by intros [= <- <-].
  - rewrite cut_one_next by done. destruct (cut (one c) s) as [[a' b']|]; [|done]. intros [= <- <-].
    destruct (IH a' eq_refl) as [-> Hf]. split; [by rewrite str_app_cons|]. unfold free_of in *. cbn [str_all].
    rewrite Hf. by destruct (ascii_dec d c).
Qed.

Lemma last_char_snoc a c : last_char (a +:+ one c) = Some c.
Proof. induction a as [|d a IH]; [done|]. rewrite str_app_cons. simpl. rewrite IH. by destruct (a +:+ one c) eqn:E; [destruct a|]. Qed.
Lemma but_last_snoc a c : but_last (a +:+ one c) = a.
Proof.
  induction a as [|d a IH]; [done|]. rewrite str_app_cons. simpl. rewrite IH.
  destruct (a +:+ one c) eqn:E; [by destruct a|done].
Qed.
Lemma but_last_len s : (len (but_last s) ≤ len s)%nat.
Proof. induction s as [|c s IH]; [done|]. simpl. destruct s; simpl in *; lia. Qed.
Lemma str_len_app a b : (len (a +:+ b) = len a + len b)%nat.
Proof. apply str_length_app. Qed.

Lemma EncodeRune_len r : (1 ≤ len (EncodeRune r))%nat.
Proof. unfold EncodeRune. repeat case_match; simpl; lia. Qed.

(** ** The reader answers *)
Lemma ReadSlice_len eol s a b eof : ReadSlice eol s = (a, b, eof) →
  (len a + len b = len s)%nat ∧ (eof = false → 1 ≤ len a)%nat.
Proof.
  unfold ReadSlice. destruct (cut (one eol) s) as [[x y]|] eqn:E; intros [= <- <- <-].
  - apply cut_len in E. rewrite str_len_app. simpl in *. lia.
  - simpl. split; [lia|done].
Qed.

Lemma last_char_inv s c : last_char s = Some c → s = but_last s +:+ one c.
Proof.
  induction s as [|d s IH]; [done|]. destruct s as [|e s]; [by intros [= ->]|]. intros Hl. specialize (IH Hl).
  change (but_last (String d (String e s))) with (String d (but_last (String e s))).
  rewrite str_app_cons. by rewrite <- IH.
Qed.

Lemma drop_crlf_len s : (len (drop_crlf s) ≤ len s)%nat.
Proof.
  unfold drop_crlf. destruct (bool_decide _) eqn:E1; [|done]. destruct (bool_decide (last_char (but_last s) = _)) eqn:E2; [|done].
  apply bool_decide_eq_true in E1, E2. apply last_char_inv, (f_equal len) in E1, E2.
  rewrite str_len_app in E1, E2. unfold andb. rewrite str_len_app. simpl in *. lia.
Qed.

Lemma readLine_len r line eof r' : readLine r = (line, eof, r') →
  (len line + len (r_input r') ≤ len (r_input r))%nat ∧
  (eof = false → len (r_input r') < len (r_input r))%nat ∧ (eof = true → line = "").
Proof.
  unfold readLine. destruct (ReadSlice _ _) as [[a b] e] eqn:E.
  assert (Hempty : e = true → b = "").
  { unfold ReadSlice in E. case_match; [case_match|]; by simplify_eq. }
  apply ReadSlice_len in E as [Hlen Hpos].
  destruct e; [rewrite andb_true_r|rewrite andb_false_r].
  - destruct (Z.ltb_spec 0 (Z.of_nat (len a))) as [Ha|Ha]; intros [= <- <- <-]; simpl.
    + rewrite Hempty in * by done. pose proof (drop_crlf_len (if bool_decide (last_char a = Some CR) then but_last a else a)).
      pose proof (but_last_len a). split_and!; [|lia|done]. case_bool_decide; simpl in *; lia.
    + destruct a; [|simpl in Ha; lia]. split_and!; try done. simpl in *. lia.
  - intros [= <- <- <-]; simpl. pose proof (drop_crlf_len a). specialize (Hpos eq_refl). split_and!; [lia|lia|done].
Qed.

Lemma skip_lines_total fuel r : (len (r_input r) < fuel)%nat → ∃ line eof r',
  skip_lines fuel r = Some (line, eof, r') ∧ (len line + len (r_input r') ≤ len (r_input r))%nat ∧
  (eof = false → len (r_input r') < len (r_input r))%nat.
Proof.
  revert r. induction fuel as [|fuel IH]; intros r Hf; [lia|]. simpl.
  destruct (readLine r) as [[line eof] r1] eqn:E. apply readLine_len in E as (Hlen & Hpos & Heof).
  assert (Hnext : eof = false → ∃ line eof r', skip_lines fuel r1 = Some (line, eof, r') ∧
    (len line + len (r_input r') ≤ len (r_input r))%nat ∧ (eof = false → len (r_input r') < len (r_input r))%nat).
  { intros He. destruct (IH r1) as (l & e & r2 & -> & ? & ?); [specialize (Hpos He); lia|].
    exists l, e, r2. split_and!; [done|lia|]. intros. specialize (Hpos He). lia. }
  destruct (negb _ && _); [destruct eof; [|by apply Hnext]|].
  - eexists _, _, _. split_and!; [done| |done]. simpl. lia.
  - destruct (negb eof && _) eqn:Hc; [apply andb_true_iff in Hc as [?%negb_true_iff _]; by apply Hnext|].
    eexists _, _, _. by split_and!.
Qed.

Lemma drop_spaces_len l :
  (len (foldr (λ rb acc, rb.2 +:+ acc) "" (drop_spaces l)) ≤ len (foldr (λ (rb : Z * string) acc, rb.2 +:+ acc) "" l))%nat.
Proof.
  induction l as [|[r b] l IH]; [done|]. cbn [drop_spaces]. case_match; [|done]. cbn [foldr]. rewrite str_len_app. lia.
Qed.
Lemma runes_from_len k s : (len (foldr (λ (rb : Z * string) acc, rb.2 +:+ acc) "" (runes_from k s)) ≤ len s - k)%nat.
Proof.
  revert k. induction s as [|c s IH]; intros [|k]; [done|done| |]; cbn [runes_from].
  - destruct (DecodeRune (String c s)) as [rn w]. cbn [foldr]. rewrite str_len_app. cbn [snd].
    specialize (IH (w - 1)%nat). assert (len (str_take w (String c s)) ≤ Nat.min w (len (String c s)))%nat; [|simpl in *; lia].
    generalize (String c s). clear. induction w as [|w IH]; intros [|c s]; simpl; try lia. specialize (IH s). lia.
  - specialize (IH k). simpl. lia.
Qed.
Lemma trim_leading_len r line pos : (len (trim_leading r line pos).1 ≤ len line)%nat.
Proof.
  unfold trim_leading. destruct (TrimLeadingSpace r); [|done]. simpl. etrans; [apply drop_spaces_len|].
  pose proof (runes_from_len 0 line). unfold runes. lia.
Qed.

(** The parser stops with a result, having consumed input only. *)
Definition parse_stops (n : nat) (o : option (list string * option csv_error * Reader)) : Prop :=
  ∃ fs e r', o = Some (fs, e, r') ∧ (len (r_input r') ≤ n)%nat.
Lemma parse_stops_mono n n' o : (n ≤ n')%nat → parse_stops n o → parse_stops n' o.
Proof. intros Hn (fs & e & r' & -> & ?). exists fs, e, r'. split; [done|lia]. Qed.
Lemma parse_stops_now fs e r n : (len (r_input r) ≤ n)%nat → parse_stops n (Some (fs, e, r)).
Proof. intros. by exists fs, e, r. Qed.

Lemma parse_total fuel : ∀ recLine m line pos fields r, (len line + len (r_input r) < fuel)%nat →
  parse_stops (len (r_input r)) (parse fuel recLine m line pos fields r).
Proof.
  induction fuel as [|fuel IH]; intros recLine m line pos fields r Hf; [lia|]. cbn [parse]. destruct m as [|buffer fieldPos].
  - pose proof (trim_leading_len r line pos). destruct (trim_leading r line pos) as [line1 pos1]. simpl in *.
    destruct (if NoQuotes r then _ else _) as [rest|] eqn:Hq.
    { apply IH. destruct (NoQuotes r); [done|]. destruct line1; [done|]. case_match; simplify_eq/=. lia. }
    destruct (cut (EncodeRune (Comma r)) line1) as [[a b]|] eqn:Hc.
    + apply cut_len in Hc. pose proof (EncodeRune_len (Comma r)).
      destruct (if LazyQuotes r || NoQuotes r then _ else _) as [[??]|]; [by apply parse_stops_now|].
      apply (IH _ _ _ _ _ (with_positions r _)). simpl. lia.
    + destruct (if LazyQuotes r || NoQuotes r then _ else _) as [[??]|]; by apply parse_stops_now.
  - destruct (cut (one QUOTE) line) as [[a b]|] eqn:Hc.
    + apply cut_len in Hc. cbn [one String.length] in Hc. pose proof (str_drop_len 1 b).
      destruct (nextRune b =? 34); [apply IH; lia|].
      destruct (nextRune b =? Comma r).
      { apply (IH _ _ _ _ _ (with_positions r _)). rewrite str_drop_len. simpl. lia. }
      destruct (lengthNL r b =? str_len b); [by apply parse_stops_now|].
      destruct (LazyQuotes r); [apply IH; lia|by apply parse_stops_now].
    + destruct (String.eqb_spec line "") as [->|Hne]; simpl.
      { destruct (LazyQuotes r); by apply parse_stops_now. }
      destruct (LazyQuotesSpecial r); [by apply parse_stops_now|].
      destruct (readLine r) as [[line1 eof] r1] eqn:Hl. apply readLine_len in Hl as (Hlen & _ & _).
      assert (1 ≤ len line)%nat by (destruct line; [done|simpl; lia]).
      destruct (String.eqb line1 ""); [|destruct (KeepRawRecord r1)];
        (eapply parse_stops_mono; [|apply IH]; simpl; lia).
Qed.

Lemma parse_more fuel d : ∀ recLine m line pos fields r o,
  parse fuel recLine m line pos fields r = Some o → parse (fuel + d) recLine m line pos fields r = Some o.
Proof.
  induction fuel as [|fuel IH]; intros recLine m line pos fields r o; [done|]. cbn [parse Nat.add].
  destruct m; repeat (case_match; try done); by apply IH.
Qed.

Lemma readRecord_total r : ∃ fs e r', readRecord r = Some (fs, e, r') ∧
  (e = None → len (r_input r') < len (r_input r))%nat.
Proof.
  unfold readRecord. set (r0 := with_lazy r). change (r_input r) with (r_input r0).
  destruct (_ || _); [by eexists _, _, _|]. destruct (negb (validEol _ _)); [by eexists _, _, _|].
  destruct (skip_lines_total (record_fuel r0) r0) as (line & eof & r1 & -> & Hlen & Hpos); [unfold record_fuel; lia|].
  destruct eof; [by eexists _, _, _|]. specialize (Hpos eq_refl).
  set (r2 := with_positions _ _). change (r_input r1) with (r_input r2) in *.
  destruct (parse_total (S (len line) + record_fuel r2) (numLine r1) AtField line (numLine r2, 1) [] r2)
    as (fs & e & r3 & -> & Hr3); [unfold record_fuel; lia|].
  destruct (0 <? FieldsPerRecord r3); [|destruct (FieldsPerRecord r3 =? 0)];
    (eexists _, _, _; split; [done|]; intros _; cbn [r_input with_fields]; lia).
Qed.

(** Reading always answers: on every text and under every setting, reading all
    the records gives them or an error. *)
Theorem csv_reading_total r : ∃ out, ReadAll r = Some out.
Proof.
  unfold ReadAll. assert (Hf : (len (r_input r) < len (r_input r) + 1)%nat) by lia. revert Hf.
  generalize (len (r_input r) + 1)%nat as fuel. generalize (@nil (list string)). intros acc fuel. revert r acc.
  induction fuel as [|fuel IH]; intros r acc Hf; [lia|]. simpl.
  destruct (readRecord_total r) as (fs & e & r1 & -> & Hlt). destruct e as [[]|]; eauto.
  apply IH. specialize (Hlt eq_refl). lia.
Qed.

(** ** The normal form of a text *)
Fixpoint norm (s : string) : string :=
  match s with
  | String c ((String d _) as s') => if is_ascii c CR && is_ascii d LF then norm s' else String c (norm s')
  | _ => s
  end.

Lemma norm_step c d s : norm (String c (String d s)) =
  if is_ascii c CR && is_ascii d LF then norm (String d s) else String c (norm (String d s)).
Proof. done. Qed.
Lemma norm_cons c s : c ≠ CR → norm (String c s) = String c (norm s).
Proof. intros Hc%is_ascii_false. destruct s as [|d s]; [done|]. cbn [norm]. by rewrite Hc. Qed.
Lemma norm_crlf s : norm (String CR (String LF s)) = String LF (norm s).
Proof. change (norm (String LF s) = String LF (norm s)). by apply norm_cons. Qed.
Lemma norm_cr c s : c ≠ LF → norm (String CR (String c s)) = String CR (norm (String c s)).
Proof. intros Hc%is_ascii_false. cbn [norm]. by rewrite Hc, andb_false_r. Qed.
Lemma norm_empty s : norm s = "" → s = "".
Proof. induction s as [|c [|d s] IH]; [done|done|]. cbn [norm]. case_match; [|done]. intros Hn. by specialize (IH Hn). Qed.

Lemma norm_line a b : free_of LF a = true → norm (a +:+ String LF b) = drop_crlf (a +:+ one LF) +:+ norm b.
Proof.
  intros Ha. unfold drop_crlf. rewrite last_char_snoc, but_last_snoc, bool_decide_true by done. cbn [andb].
  induction a as [|c a IH].
  - change ("" +:+ String LF b) with (String LF b). rewrite norm_cons by done. done.
  - unfold free_of in Ha. cbn [str_all] in Ha. apply andb_true_iff in Ha as [Hc Ha]. specialize (IH Ha).
    rewrite str_app_cons. destruct (ascii_dec c CR) as [->|Hne].
    + destruct a as [|d a].
      * change ("" +:+ String LF b) with (String LF b). rewrite norm_crlf. done.
      * rewrite str_app_cons in *. cbn [str_all] in Ha. rewrite norm_cr by (intros ->; by apply andb_true_iff in Ha as [? _]).
        rewrite IH. change (last_char (String CR (String d a))) with (last_char (String d a)).
        change (but_last (String CR (String d a))) with (String CR (but_last (String d a))).
        case_bool_decide; by rewrite !str_app_cons.
    + rewrite norm_cons, IH by done. destruct a as [|d a].
      * rewrite (bool_decide_false (last_char (String c "") = Some CR)) by (intros [= ?]; done). by rewrite str_app_cons.
      * change (last_char (String c (String d a))) with (last_char (String d a)).
        change (but_last (String c (String d a))) with (String c (but_last (String d a))).
        case_bool_decide; by rewrite !str_app_cons.
Qed.

(** A line: its only LF is its last byte. *)
Definition is_line (s : string) : Prop := ∃ x, s = x +:+ one LF ∧ free_of LF x = true.

Lemma free_but_last c a : free_of c a = true → free_of c (but_last a) = true.
Proof.
  unfold free_of. induction a as [|d [|e a] IH]; [done|done|]. intros [Hd Ha]%andb_true_iff.
  change (but_last (String d (String e a))) with (String d (but_last (String e a))). apply andb_true_iff. split; [done|by apply IH].
Qed.
Lemma drop_crlf_line a : free_of LF a = true → is_line (drop_crlf (a +:+ one LF)).
Proof.
  intros Ha. unfold drop_crlf. case_match; [|by exists a]. exists (but_last a). rewrite but_last_snoc.
  split; [done|by apply free_but_last].
Qed.

Lemma norm_has_lf s : free_of LF s = true → free_of LF (norm s) = true.
Proof.
  unfold free_of. induction s as [|c [|d s] IH]; [done|done|]. intros [Hc Hs]%andb_true_iff. specialize (IH Hs).
  rewrite norm_step. destruct (is_ascii c CR && is_ascii d LF); [done|]. apply andb_true_iff. by split.
Qed.

(** A line is read off the normal form. *)
Lemma readLine_norm r t : EolByte r = LF → norm (r_input r) = t → free_of LF t = false →
  ∃ line r', readLine r = (line, false, r') ∧ is_line line ∧ line +:+ norm (r_input r') = t ∧
    r' = with_input r (r_input r') (numLine r') (r_offset r').
Proof.
  intros Heol Hn Hlf. unfold readLine, ReadSlice. rewrite Heol.
  destruct (cut (one LF) (r_input r)) as [[a b]|] eqn:E.
  - apply cut_one_spec in E as [E Ha]. rewrite andb_false_r. eexists _, _. split; [done|]. simpl.
    split; [by apply drop_crlf_line|]. split; [|done]. rewrite <- norm_line by done. by rewrite <- E.
  - exfalso. assert (Hfree : free_of LF (r_input r) = true); [|apply norm_has_lf in Hfree; congruence].
    clear -E. revert E. unfold free_of. induction (r_input r) as [|c s IH]; [done|].
    destruct (ascii_dec c LF) as [->|Hne]; [by rewrite cut_one_here|]. rewrite cut_one_next by done.
    destruct (cut (one LF) s) as [[??]|]; [done|]. intros _. cbn [str_all]. rewrite IH by done. by destruct (ascii_dec c LF).
Qed.

Lemma line_head_lf line rest t : is_line line → line +:+ rest = String LF t → line = one LF ∧ rest = t.
Proof.
  intros (x & -> & Hx). destruct x as [|c x].
  { change (("" +:+ one LF) +:+ rest) with (String LF rest). by intros [= ->]. }
  rewrite !str_app_cons. intros [= -> _].
  unfold free_of in Hx. cbn [str_all] in Hx. by apply andb_true_iff in Hx as [? _].
Qed.
Lemma line_head c line rest t : c ≠ LF → is_line line → line +:+ rest = String c t →
  ∃ line', line = String c line' ∧ is_line line' ∧ line' +:+ rest = t.
Proof.
  intros Hc (x & -> & Hx). destruct x as [|d x].
  { change (("" +:+ one LF) +:+ rest) with (String LF rest). by intros [= <- _]. }
  rewrite !str_app_cons. intros [= -> Ht].
  exists (x +:+ one LF). split; [done|]. split; [|done]. exists x. split; [done|].
  unfold free_of in *. cbn [str_all] in Hx. by apply andb_true_iff in Hx as [_ ?].
Qed.

(** ** Runs of the parser *)
Record pstate := mkState {
  ps_mode : mode; ps_line : string; ps_pos : Z * Z; ps_fields : list string; ps_reader : Reader }.
Definition run (fuel : nat) (recLine : Z) (p : pstate) :=
  parse fuel recLine (ps_mode p) (ps_line p) (ps_pos p) (ps_fields p) (ps_reader p).

(** The parser goes from one state to another. *)
Definition evolves (recLine : Z) (p p' : pstate) : Prop :=
  ∃ k, ∀ fuel, run (k + S fuel) recLine p = run (S fuel) recLine p'.
#[local] Instance evolves_preorder recLine : PreOrder (evolves recLine).
Proof.
  split; [by exists 0%nat|]. intros p1 p2 p3 [k1 H1] [k2 H2]. exists (k1 + k2)%nat. intros fuel.
  replace (k1 + k2 + S fuel)%nat with (k1 + S (k2 + fuel))%nat by lia. rewrite H1.
  by replace (S (k2 + fuel))%nat with (k2 + S fuel)%nat by lia.
Qed.

Section round_trip.
Context (comma fieldsPerRecord : Z).
Hypothesis Hcomma : validDelim comma = true.
Hypothesis Hascii : comma < 128.

Record reader_for (r : Reader) : Prop := {
  rf_comma : Comma r = comma; rf_eol : EolByte r = LF; rf_noquotes : NoQuotes r = false; rf_comment : Comment r = 0;
  rf_lazy : LazyQuotes r = false; rf_special : LazyQuotesSpecial r = false; rf_trim : TrimLeadingSpace r = false;
  rf_fields : FieldsPerRecord r = fieldsPerRecord }.

(** What the reader has yet to read, in the middle of a line. *)
Record ahead (line : string) (r : Reader) (t : string) : Prop := {
  ah_reader : reader_for r; ah_line : is_line line; ah_text : line +:+ norm (r_input r) = t }.

Lemma reader_for_input r input n o : reader_for r → reader_for (with_input r input n o).
Proof. by intros []. Qed.
Lemma reader_for_positions r l : reader_for r → reader_for (with_positions r l).
Proof. by intros []. Qed.
Lemma reader_for_raw r s : reader_for r → reader_for (with_raw r s).
Proof. by intros []. Qed.

Lemma comma_range : 0 < comma < 128 ∧ comma ≠ 34 ∧ comma ≠ 13 ∧ comma ≠ 10.
Proof.
  unfold validDelim, ValidRune, between in Hcomma. repeat rewrite andb_true_iff in Hcomma. rewrite !negb_true_iff, !Z.eqb_neq in Hcomma.
  destruct Hcomma as (((((? & ?) & ?) & ?) & Hr) & _). apply orb_true_iff in Hr. rewrite !andb_true_iff, !Z.leb_le in Hr. lia.
Qed.

Definition comma_byte : ascii := chr comma.
Lemma byte_of_chr z : 0 ≤ z < 256 → byte_of (chr z) = z.
Proof. intros Hz. unfold byte_of, chr. rewrite N_ascii_embedding by lia. lia. Qed.
Lemma EncodeRune_comma : EncodeRune comma = one comma_byte.
Proof. pose proof comma_range. unfold EncodeRune. by destruct (Z.ltb_spec comma 128); [|lia]. Qed.
Lemma comma_byte_not : comma_byte ≠ LF ∧ comma_byte ≠ CR ∧ comma_byte ≠ QUOTE.
Proof.
  pose proof comma_range. pose proof (byte_of_chr comma). unfold comma_byte.
  split_and!; intros E; rewrite E in *; unfold LF, CR, QUOTE in *; rewrite byte_of_chr in *; lia.
Qed.
Lemma nextRune_byte c s : byte_of c < 128 → nextRune (String c s) = byte_of c.
Proof. intros Hc. unfold nextRune. simpl. by destruct (Z.ltb_spec (byte_of c) 128); [|lia]. Qed.

Lemma nextRune_comma s : nextRune (String comma_byte s) = comma.
Proof. pose proof comma_range. unfold comma_byte. rewrite nextRune_byte; rewrite byte_of_chr; lia. Qed.

(** One byte of a quoted field. *)
Lemma quoted_byte recLine c buf fp line pos fields r :
  LazyQuotesSpecial r = false → c ≠ QUOTE → line ≠ "" →
  evolves recLine (mkState (InQuotes buf fp) (String c line) pos fields r)
    (mkState (InQuotes (buf +:+ one c) fp) line (pos.1, pos.2 + 1) fields r).
Proof.
  intros Hs Hc Hne. exists 0%nat. intros fuel. unfold run. cbn [ps_mode ps_line ps_pos ps_fields ps_reader Nat.add parse].
  rewrite cut_one_next by done.
  assert (Hbuf : ∀ a, buf +:+ String c a = (buf +:+ one c) +:+ a) by (intros; rewrite <- str_app_assoc; done).
  assert (Hlen : ∀ a, pos.2 + str_len (String c a) = pos.2 + 1 + str_len a) by (intros; unfold str_len; simpl; lia).
  destruct (cut (one QUOTE) line) as [[a b]|]; cbn [fst snd]; [by rewrite Hbuf, Hlen|].
  rewrite Hs. destruct (String.eqb_spec line ""); [done|]. cbn [negb String.eqb]. by rewrite Hbuf, Hlen.
Qed.

Lemma quoted_quote recLine buf fp line pos fields r :
  evolves recLine (mkState (InQuotes buf fp) (String QUOTE (String QUOTE line)) pos fields r)
    (mkState (InQuotes (buf +:+ one QUOTE) fp) line (pos.1, pos.2 + 2) fields r).
Proof.
  exists 1%nat. intros fuel. unfold run. cbn [ps_mode ps_line ps_pos ps_fields ps_reader Nat.add].
  remember (S fuel) as n. cbn [parse]. rewrite cut_one_here, nextRune_byte by done.
  change (byte_of QUOTE =? 34) with true. cbn [fst snd str_drop]. rewrite str_app_nil.
  replace (pos.2 + str_len "" + 1 + 1) with (pos.2 + 2) by (unfold str_len; simpl; lia). by destruct line.
Qed.

Lemma quoted_lf recLine buf fp pos fields r t : reader_for r → norm (r_input r) = t → free_of LF t = false →
  ∃ line' pos' r', ahead line' r' t ∧
  evolves recLine (mkState (InQuotes buf fp) (one LF) pos fields r)
    (mkState (InQuotes (buf +:+ one LF) fp) line' pos' fields r').
Proof.
  intros Hr Hn Hlf. destruct (readLine_norm r t) as (line & r1 & Hl & Hline & Ht & Hr1); [apply Hr|done|done|].
  assert (Hr1' : reader_for r1) by (rewrite Hr1; by apply reader_for_input).
  assert (line ≠ "") by (destruct Hline as (x & -> & _); by destruct x).
  exists line, (pos.1 + 1, 1), (if KeepRawRecord r1 then with_raw r1 (rawRecordBuffer r1 +:+ line) else r1).
  split; [destruct (KeepRawRecord r1); split; try done; by apply reader_for_raw|].
  exists 1%nat. intros fuel. unfold run. cbn [ps_mode ps_line ps_pos ps_fields ps_reader Nat.add].
  remember (S fuel) as n. cbn [parse]. rewrite cut_one_none by done. rewrite (rf_special _ Hr), Hl. cbn [String.eqb negb one].
  by destruct (String.eqb_spec line "").
Qed.

Lemma quoted_run recLine f : ∀ buf fp line pos fields r t, free_of LF t = false →
  ahead line r (quoted_bytes false f +:+ String QUOTE t) →
  ∃ line' pos' r', ahead line' r' (String QUOTE t) ∧
  evolves recLine (mkState (InQuotes buf fp) line pos fields r) (mkState (InQuotes (buf +:+ f) fp) line' pos' fields r').
Proof.
  induction f as [|c f IH]; intros buf fp line pos fields r t Hlf Ha.
  { exists line, pos, r. split; [exact Ha|]. by rewrite str_app_nil. }
  assert (Hbuf : buf +:+ String c f = (buf +:+ one c) +:+ f) by (rewrite <- str_app_assoc; done). rewrite Hbuf.
  destruct Ha as [Hr Hline Ht]. cbn [quoted_bytes] in Ht.
  destruct (ascii_dec c QUOTE) as [->|Hq]; [|destruct (ascii_dec c LF) as [->|Hc]].
  - change (is_ascii QUOTE QUOTE) with true in Ht. cbn iota in Ht. rewrite !str_app_cons in Ht.
    apply line_head in Ht as (l1 & -> & Hl1 & Ht); [|done|done]. rewrite ?str_app_cons in Ht.
    apply line_head in Ht as (l2 & -> & Hl2 & Ht); [|done|done].
    destruct (IH (buf +:+ one QUOTE) fp l2 (pos.1, pos.2 + 2) fields r t) as (l' & p' & r' & Ha & He); [done|by split|].
    exists l', p', r'. split; [done|]. etrans; [apply quoted_quote|done].
  - change (is_ascii LF QUOTE) with false in Ht. change (is_ascii LF CR) with false in Ht.
    change (is_ascii LF LF) with true in Ht. cbn iota in Ht. unfold one in Ht. rewrite !str_app_cons in Ht.
    apply line_head_lf in Ht as [-> Ht]; [|done].
    destruct (quoted_lf recLine buf fp pos fields r _ Hr Ht) as (l1 & p1 & r1 & Ha1 & He1).
    { change ("" +:+ ?s) with s. unfold free_of in *. rewrite str_all_app. cbn [str_all]. rewrite Hlf.
      by rewrite !andb_false_r. }
    destruct (IH (buf +:+ one LF) fp l1 p1 fields r1 t) as (l' & p' & r' & Ha & He); [done|exact Ha1|].
    exists l', p', r'. split; [done|]. by etrans.
  - assert (Ht' : line +:+ norm (r_input r) = String c (quoted_bytes false f +:+ String QUOTE t)).
    { rewrite Ht. apply is_ascii_false in Hq, Hc. rewrite Hq, Hc. destruct (is_ascii c CR) eqn:E; [apply is_ascii_true in E as ->|]; done. }
    apply line_head in Ht' as (l1 & -> & Hl1 & Ht'); [|done|done].
    destruct (IH (buf +:+ one c) fp l1 (pos.1, pos.2 + 1) fields r t) as (l' & p' & r' & Ha & He); [done|by split|].
    exists l', p', r'. split; [done|]. etrans; [|exact He]. apply quoted_byte; [apply Hr|done|].
    destruct Hl1 as (x & -> & _). by destruct x.
Qed.

(** ** Fields *)
Lemma str_all_weaken (p q : ascii → bool) s : (∀ c, p c = true → q c = true) → str_all p s = true → str_all q s = true.
Proof.
  intros Hpq. induction s as [|c s IH]; [done|]. cbn [str_all]. intros [Hc Hs]%andb_true_iff.
  by rewrite (Hpq _ Hc), IH.
Qed.

Lemma line_prefix f line rest t : free_of LF f = true → is_line line → line +:+ rest = f +:+ t →
  ∃ l, line = f +:+ l ∧ is_line l ∧ l +:+ rest = t.
Proof.
  unfold free_of. revert line. induction f as [|c f IH]; intros line Hf Hline Ht; [by exists line|].
  cbn [str_all] in Hf. apply andb_true_iff in Hf as [Hc Hf]. rewrite str_app_cons in Ht.
  apply line_head in Ht as (l1 & -> & Hl1 & Ht); [|by intros ->|done].
  destruct (IH l1 Hf Hl1 Ht) as (l & -> & ? & ?). exists l. by rewrite str_app_cons.
Qed.

(** The texts of a field, with each CR LF as LF: the field itself when it needs no
    quotes, or the field in quotes. *)
Definition plain (f : string) : Prop :=
  free_of LF f = true ∧ free_of CR f = true ∧ free_of QUOTE f = true ∧ free_of comma_byte f = true.
Definition in_quotes (f : string) : string := String QUOTE (quoted_bytes false f +:+ one QUOTE).
Definition field_text (f s : string) : Prop := s = f ∧ plain f ∨ s = in_quotes f.

Lemma unquoted_free w f : w_Comma w = comma → fieldNeedsQuotes w f = false → plain f.
Proof.
  intros Hw. unfold fieldNeedsQuotes. destruct (String.eqb_spec f "") as [->|_]; [done|].
  destruct (String.eqb f _); [done|]. rewrite Hw. destruct (Z.ltb_spec comma 128); [|lia].
  intros [Hall%negb_false_iff _]%orb_false_iff. unfold plain, free_of.
  split_and!; (eapply str_all_weaken; [|exact Hall]); intros c Hc; apply negb_true_iff in Hc;
    repeat rewrite orb_false_iff in Hc; rewrite !is_ascii_false in Hc; destruct_and!; by case_match.
Qed.

(** The opening quote. *)
Lemma open_quote recLine line pos fields r : reader_for r →
  evolves recLine (mkState AtField (String QUOTE line) pos fields r)
    (mkState (InQuotes "" pos) line (pos.1, pos.2 + 1) fields r).
Proof.
  intros Hr. exists 1%nat. intros fuel. unfold run. cbn [ps_mode ps_line ps_pos ps_fields ps_reader Nat.add].
  remember (S fuel) as n. cbn [parse]. unfold trim_leading. rewrite (rf_trim _ Hr), (rf_noquotes _ Hr).
  change (is_ascii QUOTE QUOTE) with true. done.
Qed.

Lemma quoted_field recLine f line pos fields r t : free_of LF t = false →
  ahead line r (in_quotes f +:+ t) →
  ∃ line' pos' r', ahead line' r' (String QUOTE t) ∧
  evolves recLine (mkState AtField line pos fields r) (mkState (InQuotes f pos) line' pos' fields r').
Proof.
  intros Hlf [Hr Hline Ht]. unfold in_quotes in Ht. rewrite str_app_cons, <- str_app_assoc in Ht.
  apply line_head in Ht as (l1 & -> & Hl1 & Ht); [|done|done].
  destruct (quoted_run recLine f "" pos l1 (pos.1, pos.2 + 1) fields r t) as (l' & p' & r' & Ha & He); [done|by split|].
  exists l', p', r'. split; [done|]. etrans; [by apply open_quote|exact He].
Qed.

(** A field that is not quoted is read up to the delimiter or the end of the line. *)
Lemma not_quote f c s : free_of QUOTE f = true → c ≠ QUOTE →
  match f +:+ String c s with String d rest => if is_ascii d QUOTE then Some rest else None | "" => None end%string = None.
Proof.
  intros Hf Hc. destruct f as [|d f].
  - change ("" +:+ String c s) with (String c s). cbn iota. apply is_ascii_false in Hc. by rewrite Hc.
  - rewrite str_app_cons. cbn iota. unfold free_of in Hf. cbn [str_all] in Hf. apply andb_true_iff in Hf as [Hd _].
    unfold is_ascii. by destruct (ascii_dec d QUOTE).
Qed.

Lemma field_comma recLine f s line pos fields r t : field_text f s → free_of LF t = false →
  ahead line r (s +:+ String comma_byte t) →
  ∃ line' pos' r', ahead line' r' t ∧
  evolves recLine (mkState AtField line pos fields r) (mkState AtField line' pos' (fields ++ [f])%list r').
Proof.
  intros [[-> (Hl & _ & Hq & Hc)]| -> ] Hlf Ha; destruct comma_byte_not as (Hcl & Hcc & Hcq); pose proof comma_range as Hcr.
  - destruct Ha as [Hr Hline Ht].
    destruct (line_prefix f line _ _ Hl Hline Ht) as (l & -> & Hl1 & Ht1).
    apply line_head in Ht1 as (l2 & -> & Hl2 & Ht2); [|done|done].
    eexists l2, _, (with_positions r (fieldPositions r ++ [pos])%list). split; [split; [by apply reader_for_positions|done|done]|].
    exists 1%nat. intros fuel. unfold run. cbn [ps_mode ps_line ps_pos ps_fields ps_reader Nat.add].
    remember (S fuel) as n. cbn [parse]. unfold trim_leading. rewrite (rf_trim _ Hr), (rf_noquotes _ Hr), not_quote by done.
    rewrite (rf_comma _ Hr), EncodeRune_comma, cut_one_found by done.
    rewrite (rf_lazy _ Hr), cut_one_none by done. done.
  - destruct (quoted_field recLine f line pos fields r (String comma_byte t)) as (l & p & r1 & [Hr1 Hl Ht] & He); [|done|].
    { unfold free_of in *. cbn [str_all]. by rewrite Hlf, andb_false_r. }
    apply line_head in Ht as (l1 & -> & Hl1 & Ht); [|done|done].
    apply line_head in Ht as (l2 & -> & Hl2 & Ht); [|done|done].
    eexists l2, _, (with_positions r1 (fieldPositions r1 ++ [pos])%list). split; [split; [by apply reader_for_positions|done|done]|].
    etrans; [exact He|]. exists 1%nat. intros fuel. unfold run. cbn [ps_mode ps_line ps_pos ps_fields ps_reader Nat.add].
    remember (S fuel) as n. cbn [parse]. rewrite cut_one_here, nextRune_comma.
    destruct (Z.eqb_spec comma 34); [lia|]. rewrite (rf_comma _ Hr1), Z.eqb_refl, EncodeRune_comma, str_app_nil.
    cbn [one String.length str_drop]. by destruct l2.
Qed.

Lemma field_last recLine f s line pos fields r t : field_text f s → ahead line r (s +:+ String LF t) →
  ∃ k r', (∀ fuel, run (k + S fuel) recLine (mkState AtField line pos fields r) = Some ((fields ++ [f])%list, None, r')) ∧
    reader_for r' ∧ norm (r_input r') = t.
Proof.
  intros [[-> (Hl & _ & Hq & Hc)]| -> ] Ha; destruct comma_byte_not as (Hcl & Hcc & Hcq); pose proof comma_range as Hcr.
  - destruct Ha as [Hr Hline Ht]. destruct (line_prefix f line _ _ Hl Hline Ht) as (l & -> & Hl1 & Ht1).
    apply line_head_lf in Ht1 as [-> Ht1]; [|done].
    exists 0%nat, (with_positions r (fieldPositions r ++ [pos])%list).
    split; [|split; [by apply reader_for_positions|done]].
    intros fuel. unfold run. cbn [ps_mode ps_line ps_pos ps_fields ps_reader Nat.add parse]. unfold trim_leading.
    assert (Hnot := not_quote f LF "" Hq ltac:(done)). fold (one LF) in Hnot.
    rewrite (rf_trim _ Hr), (rf_noquotes _ Hr), Hnot, (rf_comma _ Hr), EncodeRune_comma, cut_one_app by done.
    rewrite (cut_one_none comma_byte (one LF)) by (unfold free_of; cbn [str_all one]; by destruct (ascii_dec LF comma_byte)).
    unfold drop_nl, lengthNL. rewrite (rf_eol _ Hr), last_char_snoc, bool_decide_true by done.
    rewrite but_last_snoc, (rf_lazy _ Hr), cut_one_none by done. done.
  - destruct (quoted_field recLine f line pos fields r (String LF t)) as (l & p & r1 & [Hr1 Hl Ht] & [k He]); [done|done|].
    apply line_head in Ht as (l1 & -> & Hl1 & Ht); [|done|done].
    apply line_head_lf in Ht as [-> Ht]; [|done].
    exists k, (with_positions r1 (fieldPositions r1 ++ [pos])%list).
    split; [|split; [by apply reader_for_positions|done]].
    intros fuel. rewrite He. unfold run. cbn [ps_mode ps_line ps_pos ps_fields ps_reader parse].
    rewrite cut_one_here. change (nextRune (one LF)) with 10. rewrite (rf_comma _ Hr1). destruct (Z.eqb_spec 10 comma); [lia|].
    unfold lengthNL. rewrite (rf_eol _ Hr1). cbn iota. by rewrite str_app_nil.
Qed.
(** ** Records *)
(** The texts of the fields after the first one. *)
Definition after_first (texts : list string) : string := foldr (λ s acc, String comma_byte (s +:+ acc)) "" texts.

Lemma free_lf_app x t : free_of LF (x +:+ String LF t) = false.
Proof. unfold free_of. rewrite str_all_app. cbn [str_all]. by destruct (ascii_dec LF LF); rewrite ?andb_false_r. Qed.

Lemma fields_run recLine fs : ∀ f s texts line pos fields r t, field_text f s → Forall2 field_text fs texts →
  ahead line r (s +:+ after_first texts +:+ String LF t) →
  ∃ k r', (∀ fuel, run (k + S fuel) recLine (mkState AtField line pos fields r) = Some ((fields ++ f :: fs)%list, None, r')) ∧
    reader_for r' ∧ norm (r_input r') = t.
Proof.
  induction fs as [|g fs IH]; intros f s texts line pos fields r t Hf Hfs Ha.
  { apply Forall2_nil_inv_l in Hfs as ->. by eapply field_last. }
  apply Forall2_cons_inv_l in Hfs as (s' & texts' & Hg & Hfs & ->).
  cbn [after_first foldr] in Ha. rewrite str_app_cons, <- str_app_assoc in Ha.
  eapply field_comma in Ha as (l1 & p1 & r1 & Ha1 & k1 & He); [|done|by rewrite str_app_assoc; apply free_lf_app].
  destruct (IH g s' texts' l1 p1 (fields ++ [f])%list r1 t Hg Hfs Ha1) as (k2 & r' & Hrun & Hr' & Ht').
  exists (k1 + k2)%nat, r'. split; [|done]. intros fuel.
  replace (k1 + k2 + S fuel)%nat with (k1 + S (k2 + fuel))%nat by lia. rewrite He.
  replace (S (k2 + fuel))%nat with (k2 + S fuel)%nat by lia. rewrite Hrun. by rewrite <- app_assoc.
Qed.

Lemma record_head f s texts t : field_text f s → s ≠ "" ∨ texts ≠ [] →
  ∃ c u, c ≠ LF ∧ s +:+ after_first texts +:+ String LF t = String c u.
Proof.
  intros Hf Hne. destruct s as [|c s].
  - destruct texts as [|s' texts]; [by destruct Hne|]. eexists comma_byte, _. split; [apply comma_byte_not|done].
  - exists c. eexists. split; [|by rewrite str_app_cons]. destruct Hf as [[<- (Hl & _)]|[= -> _]]; [|done].
    intros ->. unfold free_of in Hl. cbn [str_all] in Hl. by apply andb_true_iff in Hl as [? _].
Qed.

(** The line of a record is not skipped. *)
Lemma skip_lines_record fuel r c u : reader_for r → norm (r_input r) = String c u → c ≠ LF → free_of LF (String c u) = false →
  ∃ line r', skip_lines (S fuel) r = Some (line, false, r') ∧ ahead line r' (String c u).
Proof.
  intros Hr Hn Hc Hlf. destruct (readLine_norm r (String c u)) as (line & r1 & Hl & Hline & Ht & Hr1); [apply Hr|done|done|].
  assert (Hr1' : reader_for r1) by (rewrite Hr1; by apply reader_for_input).
  exists line, r1. split; [|done]. cbn [skip_lines]. rewrite Hl, (rf_comment _ Hr1'). cbn [negb andb Z.eqb].
  unfold lengthNL. rewrite (rf_eol _ Hr1'). destruct Hline as (x & -> & Hx). rewrite last_char_snoc, bool_decide_true by done.
  destruct (Z.eqb_spec (Z.of_nat (len (x +:+ one LF))) 1) as [E|]; [|done]. exfalso.
  destruct x as [|d x]; [by injection Ht as <- _|]. rewrite str_len_app in E. simpl in E. lia.
Qed.

Definition fields_seen (n : nat) : Z := if fieldsPerRecord =? 0 then Z.of_nat n else fieldsPerRecord.
End round_trip.

Lemma reader_for_lazy comma n r : reader_for comma n r → reader_for comma n (with_lazy r).
Proof. intros []. split; try done. cbn. rewrite rf_special0. done. Qed.

Lemma validEol_LF comma : comma ≠ 10 → validEol LF comma = true.
Proof. intros Hne. unfold validEol. change (byte_of LF) with 10. by destruct (Z.eqb_spec 10 comma). Qed.

Lemma readRecord_text comma n r f s fs texts t : validDelim comma = true → comma < 128 → reader_for comma n r →
  field_text comma f s → Forall2 (field_text comma) fs texts → s ≠ "" ∨ texts ≠ [] →
  n ≤ 0 ∨ n = Z.of_nat (length (f :: fs)) →
  norm (r_input r) = s +:+ after_first comma texts +:+ String LF t →
  ∃ r', readRecord r = Some (f :: fs, None, r') ∧ reader_for comma (fields_seen n (length (f :: fs))) r' ∧ norm (r_input r') = t.
Proof.
  intros Hcomma Hascii Hr Hf Hfs Hne Hcount Hn. pose proof (comma_range comma Hcomma Hascii) as Hrange.
  unfold readRecord. apply reader_for_lazy in Hr. change (r_input r) with (r_input (with_lazy r)) in Hn.
  generalize dependent (with_lazy r). clear r. intros r Hr Hn.
  rewrite (rf_comma _ _ _ Hr), (rf_comment _ _ _ Hr), (rf_eol _ _ _ Hr), Hcomma.
  destruct (Z.eqb_spec comma 0); [lia|]. rewrite validEol_LF by lia. cbn [orb negb andb Z.eqb].
  destruct (record_head comma Hcomma Hascii f s texts t Hf Hne) as (c & u & Hc & Hu).
  unfold record_fuel at 1. rewrite Nat.add_comm. cbn [Nat.add].
  destruct (skip_lines_record comma n (S (len (r_input r))) r c u) as (line & r1 & -> & Ha).
  { done. } { by rewrite <- Hu. } { done. } { rewrite <- Hu, str_app_assoc. apply free_lf_app. }
  cbv zeta. set (r2 := with_positions _ _). set (F := S (len line + record_fuel r2)).
  assert (Ha2 : ahead comma n line r2 (s +:+ after_first comma texts +:+ String LF t)).
  { rewrite Hu. destruct Ha. split; [|done|done]. by apply reader_for_positions, reader_for_raw. }
  destruct (parse_total F (numLine r1) AtField line (numLine r2, 1) [] r2) as (o & e & r3 & Hp & _);
    [unfold F, record_fuel; lia|].
  destruct (fields_run comma n Hcomma Hascii (numLine r1) fs f s texts line (numLine r2, 1) [] r2 t Hf Hfs Ha2)
    as (k & r' & Hrun & Hr' & Ht).
  specialize (Hrun F). unfold run in Hrun. cbn [ps_mode ps_line ps_pos ps_fields ps_reader] in Hrun.
  replace (k + S F)%nat with (F + S k)%nat in Hrun by lia.
  rewrite (parse_more _ _ _ _ _ _ _ _ _ Hp) in Hrun. injection Hrun as -> -> ->.
  rewrite Hp. cbn [app]. rewrite (rf_fields _ _ _ Hr'). unfold fields_seen.
  destruct (Z.ltb_spec 0 n) as [Hpos|].
  - destruct (Z.eqb_spec n 0); [lia|]. destruct Hcount as [|Hcount]; [lia|].
    rewrite <- Hcount, Z.eqb_refl. by exists r'.
  - destruct (Z.eqb_spec n 0) as [->|]; [|by exists r']. eexists. split; [done|]. split; [|done]. by destruct Hr'.
Qed.


(** ** What the writer writes *)
Fixpoint strip_cr (s : string) : string :=
  match s with "" => "" | String c s => if is_ascii c CR then strip_cr s else String c (strip_cr s) end%string.
(** A field as it comes back: the line ends in it are LF, and a writer of CR LF
    leaves every other CR out. *)
Definition read_back (w : Writer) (f : string) : string := if UseCRLF w then strip_cr f else norm f.

Lemma free_of_cons c d s : free_of c (String d s) = true ↔ d ≠ c ∧ free_of c s = true.
Proof. unfold free_of. cbn [str_all]. rewrite andb_true_iff. destruct (ascii_dec d c); naive_solver. Qed.

Lemma norm_app_free f s : free_of CR f = true → norm (f +:+ s) = f +:+ norm s.
Proof.
  induction f as [|c f IH]; [done|]. intros [Hc Hf]%free_of_cons. rewrite !str_app_cons, norm_cons by done. by rewrite IH.
Qed.
Lemma read_back_free w f : free_of CR f = true → read_back w f = f.
Proof.
  intros Hf. unfold read_back. destruct (UseCRLF w).
  - induction f as [|c f IH]; [done|]. apply free_of_cons in Hf as [Hc Hf]. cbn [strip_cr].
    apply is_ascii_false in Hc. by rewrite Hc, IH.
  - rewrite <- (str_app_nil f) at 1. rewrite norm_app_free by done. apply str_app_nil.
Qed.

Lemma quoted_bytes_cons crlf c f : c ≠ CR → c ≠ LF →
  quoted_bytes crlf (String c f) = String c ((if is_ascii c QUOTE then one QUOTE else "") +:+ quoted_bytes crlf f).
Proof.
  intros Hr%is_ascii_false Hl%is_ascii_false. cbn [quoted_bytes]. rewrite Hr, Hl.
  destruct (is_ascii c QUOTE) eqn:E; [by apply is_ascii_true in E as ->|done].
Qed.
Lemma quoted_norm_step crlf c f s : c ≠ CR → c ≠ LF →
  norm (quoted_bytes crlf (String c f) +:+ s) =
  String c ((if is_ascii c QUOTE then one QUOTE else "") +:+ norm (quoted_bytes crlf f +:+ s)).
Proof.
  intros Hr Hl. rewrite quoted_bytes_cons, str_app_cons, <- str_app_assoc, norm_cons by done. f_equal.
  by case_match; rewrite norm_app_free.
Qed.

Lemma quoted_norm_crlf f s :
  norm (quoted_bytes true f +:+ String QUOTE s) = quoted_bytes false (strip_cr f) +:+ String QUOTE (norm s).
Proof.
  induction f as [|c f IH]; [by apply (norm_cons QUOTE)|].
  destruct (ascii_dec c CR) as [->|Hr]; [exact IH|]. destruct (ascii_dec c LF) as [->|Hl].
  { change (quoted_bytes true (String LF f) +:+ String QUOTE s) with (String CR (String LF (quoted_bytes true f +:+ String QUOTE s))).
    rewrite norm_crlf, IH. done. }
  rewrite quoted_norm_step, IH by done. cbn [strip_cr]. assert (Hr' := Hr). apply is_ascii_false in Hr' as ->.
  by rewrite quoted_bytes_cons, str_app_cons, <- str_app_assoc.
Qed.
Lemma quoted_head f : f = "" ∨ ∃ c f' u, f = String c f' ∧ quoted_bytes false f = String c u.
Proof.
  destruct f as [|c f]; [by left|right]. exists c, f. cbn [quoted_bytes].
  destruct (is_ascii c QUOTE) eqn:E1; [apply is_ascii_true in E1 as ->; by eexists|].
  destruct (is_ascii c CR) eqn:E2; [apply is_ascii_true in E2 as ->; by eexists|].
  destruct (is_ascii c LF) eqn:E3; [apply is_ascii_true in E3 as ->; by eexists|]. by eexists.
Qed.
Lemma quoted_norm_lf f s :
  norm (quoted_bytes false f +:+ String QUOTE s) = quoted_bytes false (norm f) +:+ String QUOTE (norm s).
Proof.
  induction f as [|c f IH]; [by apply (norm_cons QUOTE)|].
  destruct (ascii_dec c LF) as [->|Hl].
  { change (quoted_bytes false (String LF f) +:+ ?s) with (String LF (quoted_bytes false f +:+ s)).
    rewrite !norm_cons, IH by done. done. }
  destruct (ascii_dec c CR) as [->|Hr].
  - change (quoted_bytes false (String CR f) +:+ ?s) with (String CR (quoted_bytes false f +:+ s)).
    destruct (quoted_head f) as [->|(d & f' & u & -> & Hu)].
    { change (norm (String CR (String QUOTE s)) = String CR (String QUOTE (norm s))).
      rewrite norm_cr by done. by rewrite norm_cons. }
    rewrite Hu in *. rewrite str_app_cons in *. rewrite !norm_step. destruct (_ && _); [done|]. rewrite IH. done.
  - rewrite quoted_norm_step, IH, norm_cons by done. by rewrite quoted_bytes_cons, str_app_cons, <- str_app_assoc.
Qed.

Section written.
Context (w : Writer).
Hypothesis Hquotes : w_NoQuotes w = false.
Hypothesis Hascii : w_Comma w < 128.

Lemma write_field_norm f : ∃ s, field_text (w_Comma w) (read_back w f) s ∧ (write_field w f ≠ "" → s ≠ "") ∧
  ∀ rest, norm (write_field w f +:+ rest) = s +:+ norm rest.
Proof.
  unfold write_field. rewrite Hquotes. cbn [orb]. destruct (negb (QuoteAll w) && negb (fieldNeedsQuotes w f)) eqn:E.
  - apply andb_true_iff in E as [_ E%negb_true_iff]. apply (unquoted_free (w_Comma w)) in E; [|done|done].
    assert (Hcr : free_of CR f = true) by apply E. exists f. rewrite read_back_free by done.
    split_and!; [by left|done|]. intros rest. by apply norm_app_free.
  - exists (in_quotes (read_back w f)). split_and!; [by right|done|]. intros rest. unfold in_quotes.
    change (one QUOTE +:+ ?s) with (String QUOTE s). rewrite !str_app_cons, <- !str_app_assoc, norm_cons by done. f_equal.
    change (one QUOTE +:+ ?s) with (String QUOTE s). unfold read_back.
    destruct (UseCRLF w); [apply quoted_norm_crlf|apply quoted_norm_lf].
Qed.

Lemma write_fields_norm n fs : validDelim (w_Comma w) = true → ∃ texts, Forall2 (field_text (w_Comma w)) (map (read_back w) fs) texts ∧
  ∀ rest, norm (write_fields w (S n) fs +:+ rest) = after_first (w_Comma w) texts +:+ norm rest.
Proof.
  intros Hcomma. revert n. induction fs as [|f fs IH]; intros n; [by exists []|].
  destruct (write_field_norm f) as (s & Hs & _ & Hf). destruct (IH (S n)) as (texts & Ht & Hfs).
  exists (s :: texts). split; [by constructor|]. intros rest. cbn [write_fields]. rewrite EncodeRune_comma by done.
  change ((0 <? S n)%nat) with true. cbn iota. change (one ?c +:+ ?s) with (String c s).
  rewrite str_app_cons, <- str_app_assoc, norm_cons by (by apply comma_byte_not). rewrite Hf, Hfs.
  cbn [after_first foldr]. by rewrite str_app_cons, <- str_app_assoc.
Qed.

(** The line of a record is not blank. *)
Definition visible (record : list string) : bool :=
  match record with
  | [] => false
  | [f] => QuoteAll w || negb (String.eqb f "")
  | _ => true
  end.

Lemma Write_norm record text : visible record = true → Write w record = inr text →
  validDelim (w_Comma w) = true ∧ text ≠ "" ∧
  ∃ f fs s texts, map (read_back w) record = f :: fs ∧ field_text (w_Comma w) f s ∧ Forall2 (field_text (w_Comma w)) fs texts ∧
    (s ≠ "" ∨ texts ≠ []) ∧ ∀ rest, norm (text +:+ rest) = s +:+ after_first (w_Comma w) texts +:+ String LF (norm rest).
Proof.
  unfold Write. destruct (validDelim (w_Comma w)) eqn:Hcomma; [|done]. cbn [negb].
  destruct record as [|f fs]; [done|]. intros Hv [= <-]. split; [done|]. split.
  { intros E%(f_equal len). rewrite str_len_app in E. destruct (UseCRLF w); simpl in E; lia. }
  destruct (write_field_norm f) as (s & Hs & Hne & Hf). destruct (write_fields_norm 0 fs Hcomma) as (texts & Ht & Hfs).
  exists (read_back w f), (map (read_back w) fs), s, texts. split_and!; [done|done|done| |].
  - destruct fs as [|g fs]; [left|right; by intros ->; inversion Ht]. apply Hne. unfold write_field. rewrite Hquotes.
    cbn [visible] in Hv. destruct (QuoteAll w); cbn [orb negb andb] in *; [done|].
    destruct (fieldNeedsQuotes w f); [done|]. by destruct (String.eqb_spec f "").
  - intros rest. cbn [write_fields]. change ((0 <? 0)%nat) with false. change ("" +:+ ?s) with s.
    rewrite <- !str_app_assoc, Hf, Hfs. do 2 f_equal. destruct (UseCRLF w); [apply norm_crlf|by apply (norm_cons LF)].
Qed.
End written.

(** ** The round trip *)
Lemma map_fixed {A} (g : A → A) l : (∀ x, In x l → g x = x) → map g l = l.
Proof. intros Hg. induction l as [|x l IH]; [done|]. simpl. rewrite Hg, IH; [done| |by left]. intros y Hy. apply Hg. by right. Qed.

(** The check of the number of fields lets the records through. *)
Definition counts_fit (fieldsPerRecord : Z) (records : list (list string)) : Prop :=
  fieldsPerRecord < 0 ∨
  ∃ k, (fieldsPerRecord = 0 ∨ fieldsPerRecord = Z.of_nat k) ∧ Forall (λ record, length record = k) records.

Lemma counts_fit_first n record records : record ≠ [] → counts_fit n (record :: records) →
  (n ≤ 0 ∨ n = Z.of_nat (length record)) ∧ counts_fit (fields_seen n (length record)) records.
Proof.
  intros Hne. unfold counts_fit, fields_seen. intros [Hn|(k & Hk & [Hl Hf]%Forall_cons)].
  - destruct (Z.eqb_spec n 0); [lia|]. split; [lia|by left].
  - assert (length record ≠ 0)%nat by (by destruct record). subst k.
    split; [lia|]. right. exists (length record). split; [|done]. destruct (Z.eqb_spec n 0); lia.
Qed.

Lemma readRecord_end comma n r : validDelim comma = true → comma < 128 → reader_for comma n r → r_input r = "" →
  ∃ r', readRecord r = Some ([], Some io_EOF, r').
Proof.
  intros Hcomma Hascii Hr Hin. pose proof (comma_range comma Hcomma Hascii) as Hrange.
  unfold readRecord. apply reader_for_lazy in Hr. change (r_input r) with (r_input (with_lazy r)) in Hin.
  generalize dependent (with_lazy r). clear r. intros r Hr Hin.
  rewrite (rf_comma _ _ _ Hr), (rf_comment _ _ _ Hr), (rf_eol _ _ _ Hr), Hcomma.
  destruct (Z.eqb_spec comma 0); [lia|]. rewrite validEol_LF by lia. cbn [orb negb andb Z.eqb].
  unfold record_fuel. rewrite Hin. cbn [String.length Nat.add skip_lines].
  assert (Hl : readLine r = ("", true, with_input r "" (numLine r + 1) (r_offset r + 0))).
  { unfold readLine, ReadSlice. by rewrite Hin. }
  rewrite Hl. cbn [Comment with_input]. rewrite (rf_comment _ _ _ Hr). by eexists.
Qed.

Lemma read_all_written w records : w_NoQuotes w = false → w_Comma w < 128 → validDelim (w_Comma w) = true →
  Forall (λ record, visible w record = true) records →
  ∀ text, WriteAll w records = inr text → (length records ≤ len text)%nat ∧
  ∀ fuel n r acc, (length records < fuel)%nat → reader_for (w_Comma w) n r → counts_fit n records → norm (r_input r) = norm text →
  read_all fuel r acc = Some (inr (acc ++ map (map (read_back w)) records)%list).
Proof.
  intros Hq Ha Hc. induction records as [|record records IH]; intros Hv text Hw.
  - injection Hw as <-. split; [done|]. intros [|fuel] n r acc Hf Hr _ Hin; [lia|].
    destruct (readRecord_end _ _ _ Hc Ha Hr (norm_empty _ Hin)) as [r' E]. cbn [read_all]. rewrite E. by rewrite app_nil_r.
  - apply Forall_cons in Hv as [Hv Hvs]. cbn [WriteAll] in Hw.
    destruct (Write w record) as [|t1] eqn:E1; [done|]. destruct (WriteAll w records) as [|t2]; [done|]. injection Hw as <-.
    destruct (IH Hvs t2 eq_refl) as [Hlen Hread].
    destruct (Write_norm w Hq Ha record t1 Hv E1) as (_ & Hne & f & fs & s & texts & Hrec & Hs & Ht & Hsome & Hnorm).
    split; [destruct t1; [done|]; rewrite str_len_app; simpl; lia|].
    intros [|fuel] n r acc Hf Hr Hfit Hin; [lia|]. rewrite Hnorm in Hin.
    assert (Hl : length record = length (f :: fs)) by (rewrite <- Hrec; by rewrite length_map).
    apply counts_fit_first in Hfit as [Hcount Hfit]; [|by intros ->]. rewrite Hl in Hcount, Hfit.
    destruct (readRecord_text _ n r f s fs texts _ Hc Ha Hr Hs Ht Hsome Hcount Hin) as (r' & E & Hr' & Hin').
    cbn [read_all]. rewrite E. cbn [length] in Hf. rewrite (Hread fuel _ r' _ ltac:(lia) Hr' Hfit Hin').
    cbn [map]. by rewrite Hrec, <- app_assoc.
Qed.

(** C37. Written records are read back. The writer quotes, the delimiter is an ASCII one and
    valid; the reader has the same delimiter and no comment, trim or lazy setting, and the
    number of fields of the records is the one it expects; and no record is blank: one empty
    field alone, unless every field is quoted, is written as a bare line end, which the reader
    skips. Then the reader reads off the text the records that were written, whatever
    delimiters, quotes and line ends their fields hold. A CR LF in a field comes back as LF, a writer of CR LF line ends
    drops every other CR, and fields without CR come back as they are. *)
Theorem csv_round_trip w records text r :
  w_NoQuotes w = false → validDelim (w_Comma w) = true → w_Comma w < 128 → WriteAll w records = inr text →
  forallb (visible w) records = true →
  reader_for (w_Comma w) (FieldsPerRecord r) r → counts_fit (FieldsPerRecord r) records → r_input r = text →
  ReadAll r = Some (inr (map (map (read_back w)) records)) ∧
  (forallb (forallb (free_of CR)) records = true → ReadAll r = Some (inr records)).
Proof.
  intros Hq Hc Ha Hw Hv Hr Hfit Hin. assert (Hvis : Forall (λ record, visible w record = true) records)
    by (apply List.Forall_forall; by apply forallb_forall).
  destruct (read_all_written w records Hq Ha Hc Hvis text Hw) as [Hlen Hread].
  assert (Hall : ReadAll r = Some (inr (map (map (read_back w)) records))).
  { unfold ReadAll. apply (Hread _ (FieldsPerRecord r) r []); [rewrite Hin; lia|done|done|by rewrite Hin]. }
  split; [done|]. intros Hcr. rewrite Hall. do 2 f_equal. apply map_fixed. intros record Hrec.
  apply map_fixed. intros f Hf. apply read_back_free. rewrite forallb_forall in Hcr. specialize (Hcr _ Hrec).
  rewrite forallb_forall in Hcr. by apply Hcr.
Qed.

Lemma csv_round_trip_witness :
  let w := mkWriter 44 true false false in
  let records := [["a"; "b,c"; ""]; [String QUOTE "q"; String LF "x"; "  y"]] in
  match WriteAll w records with
  | inl _ => False
  | inr text => ReadAll (NewReader text) = Some (inr records)
  end.
Proof.
  cbv zeta. destruct (WriteAll _ _) as [e|text] eqn:E; [by vm_compute in E|].
  apply (csv_round_trip (mkWriter 44 true false false) _ text (NewReader text)); try done.
  right. exists 3%nat. split; [by left|]. by repeat constructor.
Defined.
