(* ===== verification/Cleansing.v ===== *)
(** * Cleansing functions

    The text functions of the mapping columns: src/jets/cleansing_functions
    (cleansing_functions.go, function_arguments.go, overpunch_number.go), whose
    arguments are read as CSV by src/jets/utils/jcsv. [log.Panicf] on a
    configuration error is a panic. *)
From stdpp Require Import base list strings gmap.
From Stdlib Require Import ZArith Lia Ascii.
From S2P Require Import Prelude GoFloat GoText GoValue DateParser EvalOperators Records HashKey Csv.
Local Open Scope string_scope.
Local Open Scope Z_scope.

#[local] Set Warnings "-register-all".

(** ** [jcsv.Parse] *)

(** [strings.Count] of a one-byte text. *)
Definition Count (c : ascii) (s : string) : nat := count_byte c s.

Definition DetectDelimiter (buf : string) : option Z :=
  let txt := str_take 2048 buf in
  let cn := Count "," txt in let pn := Count "|" txt in
  let tn := Count (ascii_of_N 9) txt in let td := Count "~" txt in
  (if (pn <? cn) && (tn <? cn) && (td <? cn) then Some 44%Z
   else if (cn <? pn) && (tn <? pn) && (td <? pn) then Some 124%Z
   else if (cn <? tn) && (pn <? tn) && (td <? tn) then Some 9%Z
   else if (cn <? td) && (pn <? td) && (tn <? td) then Some 126%Z
   else None)%nat.

Definition csv_reader (comma : Z) (text : string) : Reader :=
  mkReader comma LF false 0 false 0 false false false text 0 0 "" [].
(** [None] is an error of the reader. *)
Definition jcsv_Parse (csvBuf : string) : option (list (list string)) :=
  match ReadAll (csv_reader (default 44 (DetectDelimiter csvBuf)) csvBuf) with
  | Some (inr rows) => Some rows
  | _ => None
  end.

(** ** Digits *)

(** [unicode.IsDigit] above Latin-1. *)
Class GoDigits := { unicode_digit : Z → bool }.
Definition IsDigit `{GoDigits} (r : Z) : bool := if r <=? 255 then between 48 57 r else unicode_digit r.

Definition concat_bytes (l : list (Z * string)) : string := foldr (λ rb acc, rb.2 +:+ acc) "" l.

Definition filterDigits `{GoDigits} (str : string) : string :=
  concat_bytes (filter (λ rb, IsDigit rb.1 = true) (runes str)).
Definition filterDouble `{GoDigits} (str : string) : string :=
  concat_bytes (omap (λ rb : Z * string,
    if (rb.1 =? 40) || (rb.1 =? 45) then Some (45, "-")
    else if IsDigit rb.1 || (rb.1 =? 46) then Some rb else None) (runes str)).

(** ** Arguments *)

Record ConcatFunctionArg := mkConcatArg { Delimit : string; ColumnPositions : list Z }.
Record SubStringFunctionArg := mkSubArg { Start : Z; End_ : Z }.
Record FindReplaceFunctionArg := mkFindArg { Find : string; ReplaceWith : string }.
Record SliceInputFunctionArg := mkSliceArg { sa_Delimit : string; Values : option (list Z); From : option Z; To : option Z }.

(** What the cache of a context holds. *)
Inductive parsedArg :=
| PConcat (a : ConcatFunctionArg) | PSub (a : SubStringFunctionArg)
| PFind (a : FindReplaceFunctionArg) | PSlice (a : SliceInputFunctionArg).
Definition cache := gmap string parsedArg.
Definition interface_conversion : string := "interface conversion".

Definition null_argument : string := "unexpected null argument to function".

Fixpoint concat_columns (columns : gmap string Z) (names : list string) : res (list Z) :=
  match names with
  | [] => Ret []
  | name :: names' =>
      match columns !! name with
      | None => Fail "error:column-not-fount: argument is not an input column name"
      | Some pos => let! rest := concat_columns columns names' in Ret (pos :: rest)
      end
  end.

(** The fields of the first row of a CSV argument, when there is one. *)
Definition csv_fields (rawArg : string) : option (list string) :=
  match jcsv_Parse rawArg with Some ((f :: fs) :: _) => Some (f :: fs) | _ => None end.

Definition ParseConcatFunctionArgument (rawArg functionName : string) (columns : gmap string Z) (c : cache)
  : cache * res ConcatFunctionArg :=
  if is_empty rawArg then (c, Fail null_argument)
  else match c !! rawArg with
  | Some (PConcat a) => (c, Ret a)
  | Some _ => (c, Panic interface_conversion)
  | None =>
      match csv_fields rawArg with
      | None => (c, Fail "error:no-data: argument cannot be parsed as csv")
      | Some fields =>
          let '(delimit, names) :=
            match fields with
            | f :: names => if String.eqb functionName "concat_with" then (f, names) else ("", fields)
            | [] => ("", fields)
            end in
          match concat_columns columns names with
          | Ret ps => let a := mkConcatArg delimit ps in (<[rawArg := PConcat a]> c, Ret a)
          | Fail e => (c, Fail e)
          | Panic e => (c, Panic e)
          | Loop => (c, Loop)
          end
      end
  end.

Definition ParseSubStringFunctionArgument (rawArg : string) (c : cache) : cache * res SubStringFunctionArg :=
  if is_empty rawArg then (c, Fail null_argument)
  else match c !! rawArg with
  | Some (PSub a) => (c, Ret a)
  | Some _ => (c, Panic interface_conversion)
  | None =>
      match Split rawArg "," with
      | [s; e] =>
          match Atoi (TrimSpace s), Atoi (TrimSpace e) with
          | Some start, Some end_ =>
              if (0 <? end_) && (end_ <=? start) then (c, Fail "error: argument cannot be parsed as start,end")
              else let a := mkSubArg start end_ in (<[rawArg := PSub a]> c, Ret a)
          | _, _ => (c, Fail "error: argument cannot be parsed as start,end")
          end
      | _ => (c, Fail "error: argument cannot be parsed as start,end")
      end
  end.

Definition ParseFindReplaceFunctionArgument (rawArg : string) (c : cache) : cache * res FindReplaceFunctionArg :=
  if is_empty rawArg then (c, Fail null_argument)
  else match c !! rawArg with
  | Some (PFind a) => (c, Ret a)
  | Some _ => (c, Panic interface_conversion)
  | None =>
      match csv_fields rawArg with
      | Some [find; replaceWith] => let a := mkFindArg find replaceWith in (<[rawArg := PFind a]> c, Ret a)
      | _ => (c, Fail "error:no-data: argument cannot be parsed as csv")
      end
  end.

Fixpoint slice_positions (values : list string) : res (list Z) :=
  match values with
  | [] => Ret []
  | vstr :: values' =>
      match Atoi (TrimSpace vstr) with
      | None => Fail "error: invalid argument expecting int value as argument"
      | Some v =>
          if (v <? 0) then Fail "error: invalid argument expecting int value > 0 as argument"
          else let! rest := slice_positions values' in Ret (v :: rest)
      end
  end.

Definition slice_range (delimit from : string) (more : list string) : res SliceInputFunctionArg :=
  match Atoi (TrimSpace from) with
  | None => Fail "error: invalid argument expecting from (int) as second argument"
  | Some from =>
      if (from <? 0) then Fail "error: invalid argument must have from > 0" else
      match more with
      | [] => Ret (mkSliceArg delimit None (Some from) None)
      | [to_] =>
          match Atoi (TrimSpace to_) with
          | None => Fail "error: invalid argument expecting to (int) as forth argument"
          | Some to_ =>
              if (to_ <? 0) || (to_ <=? from) then Fail "error: invalid argument must have from and to > 0, and to > from"
              else Ret (mkSliceArg delimit None (Some from) (Some to_))
          end
      | _ => Fail "error: invalid argument expecting from, colon, to construct"
      end
  end.

Definition parse_slice_fields (fields : list string) : res SliceInputFunctionArg :=
  match fields with
  | [] => Fail "error: no-data: argument cannot be parsed as csv or is invalid"
  | [delimit] => Ret (mkSliceArg delimit None None None)
  | [delimit; v1] =>
      match Atoi (TrimSpace v1) with
      | None => Fail "error: invalid argument expecting int value as second argument"
      | Some v1 =>
          if (v1 <? 0) then Fail "error: invalid argument must have position >= 0"
          else Ret (mkSliceArg delimit (Some [v1]) None None)
      end
  | delimit :: v1 :: v2 :: more =>
      if String.eqb v2 ":" then slice_range delimit v1 more
      else let! values := slice_positions (v1 :: v2 :: more) in Ret (mkSliceArg delimit (Some values) None None)
  end.

Definition ParseSliceInputFunctionArgument (rawArg functionName : string) (c : cache) : cache * res SliceInputFunctionArg :=
  if is_empty rawArg then (c, Fail null_argument)
  else
    let key := functionName +:+ "(" +:+ rawArg +:+ ")" in
    match c !! key with
    | Some (PSlice a) => (c, Ret a)
    | Some _ => (c, Panic interface_conversion)
    | None =>
        match csv_fields rawArg with
        | None => (c, Fail "error: no-data: argument cannot be parsed as csv or is invalid")
        | Some fields =>
            match parse_slice_fields fields with
            | Ret a => (<[key := PSlice a]> c, Ret a)
            | Fail e => (c, Fail e)
            | Panic e => (c, Panic e)
            | Loop => (c, Loop)
            end
        end
    end.

(** ** Overpunch *)

Record Overpunch := mkOverpunch { Sign : string; Digit : string }.
Definition overpunchCharacters (r : ascii) : option Overpunch :=
  let k := byte_of r in
  if (k =? 123) then Some (mkOverpunch "+" "0")
  else if between 65 73 k then Some (mkOverpunch "+" (Itoa (k - 64)))
  else if (k =? 125) then Some (mkOverpunch "-" "0")
  else if between 74 82 k then Some (mkOverpunch "-" (Itoa (k - 73)))
  else None.

(** [s[:n]] and [s[n:]], which panic out of range. *)
Definition slice_bounds : string := "runtime error: slice bounds out of range".
Definition slice_to (s : string) (n : Z) : res string :=
  if (0 <=? n) && (n <=? Z.of_nat (String.length s)) then Ret (str_take (Z.to_nat n) s) else Panic slice_bounds.
Definition slice_from (s : string) (n : Z) : res string :=
  if (0 <=? n) && (n <=? Z.of_nat (String.length s)) then Ret (str_drop (Z.to_nat n) s) else Panic slice_bounds.
Definition slice_of (s : string) (a b : Z) : res string :=
  if (a <=? b) then let! s' := slice_to s b in slice_from s' a else Panic slice_bounds.

Definition OverpunchNumber (value : string) (decimalPlaces : Z) : res string :=
  if (decimalPlaces <? 0) then Fail "decimalPlaces must be >= 0" else
  match last_char value with
  | None => Ret ""
  | Some r =>
      let l := Z.of_nat (String.length value) in
      if is_digit r then
        if (decimalPlaces =? 0) then Ret value
        else
          let! a := slice_to value (l - decimalPlaces) in
          let! b := slice_from value (l - decimalPlaces) in
          Ret (a +:+ "." +:+ b)
      else match overpunchCharacters r with
      | None => Fail "unkown overpunch character"
      | Some oc =>
          if (decimalPlaces =? 0) then Ret (Sign oc +:+ but_last value +:+ Digit oc)
          else if (decimalPlaces =? 1) then Ret (Sign oc +:+ but_last value +:+ "." +:+ Digit oc)
          else
            let! a := slice_to value (l - decimalPlaces) in
            let! b := slice_of value (l - decimalPlaces) (l - 1) in
            Ret (Sign oc +:+ a +:+ "." +:+ b +:+ Digit oc)
      end
  end.

(** ** Functions on the value alone *)

Definition some_text (vv : string) : any := if is_empty vv then VNil else VStr vv.

Definition Ndc10To11 (inputValue : string) : any :=
  if is_empty inputValue then VNil
  else match Split inputValue "-" with
  | [a; b; c] =>
      let l1 := String.length a in let l2 := String.length b in let l3 := String.length c in
      (if (l1 =? 4) && (l2 =? 4) && (l3 =? 2) then VStr ("0" +:+ a +:+ b +:+ c)
       else if (l1 =? 5) && (l2 =? 3) && (l3 =? 2) then VStr (a +:+ "0" +:+ b +:+ c)
       else if (l1 =? 5) && (l2 =? 4) && (l3 =? 1) then VStr (a +:+ b +:+ "0" +:+ c)
       else VStr (a +:+ b +:+ c))%nat
  | _ => VStr inputValue
  end.

Definition SplitOn (inputValue argument : string) : any :=
  if is_empty inputValue || is_empty argument then VNil else VStrs (Split inputValue argument).

Definition ContainsRune (s : string) (r : Z) : bool := existsb (λ rb : Z * string, rb.1 =? r)(runes s).
Definition ScrubCharacters (inputValue argument : string) : any :=
  if is_empty inputValue || is_empty argument then VNil
  else VStr (foldr (λ (rb : Z * string) acc, if ContainsRune argument rb.1 then acc else EncodeRune rb.1 +:+ acc) "" (runes inputValue)).

Definition SliceInput (inputValue argument : string) (c : cache) : cache * res any :=
  if is_empty inputValue then (c, Ret VNil)
  else match ParseSliceInputFunctionArgument argument "slice_input" c with
  | (c, Ret a) =>
      let sliceValues := Split inputValue (sa_Delimit a) in
      let values (l : list string) := Ret match l with [] => VNil | _ => VStrs l end in
      (c, match sliceValues with
          | [] => Ret VNil
          | _ =>
              match Values a, From a, To a with
              | None, None, None => Ret (VStrs sliceValues)
              | Some vs, _, _ => values (omap (λ i, sliceValues !! Z.to_nat i) vs)
              | None, Some from, None => values (drop (Z.to_nat from) sliceValues)
              | None, Some from, Some to_ => values (drop (Z.to_nat from) (take (Z.to_nat to_) sliceValues))
              | None, None, Some _ => Panic "runtime error: invalid memory address or nil pointer dereference"
              end
          end)
  | (c, Fail _) => (c, Panic "while parsing arguments for cleansing function parse_input")
  | (c, Panic e) => (c, Panic e)
  | (c, Loop) => (c, Loop)
  end.

(** [map_order] is the order in which Go ranges over a map with these keys. *)
Definition UniqueSplitOn (map_order : list string → list string) (inputValue argument : string) : any :=
  if is_empty inputValue || is_empty argument then VNil
  else
    let vv := Split inputValue argument in
    VStrs (v ← map_order (remove_dups vv);
           imap (λ i v', v' +:+ "-" +:+ Itoa (Z.of_nat i)) (filter (λ x, x = v) vv)).

(** ** [ApplyCleasingFunction] *)

Section cleansing.
Context `{GoArch} `{GoUnicode} `{GoFmt} `{GoRegexp} `{GoDigits}.
Variable map_order : list string → list string.

Record CleansingFunctionContext := mkCleansing {
  reMap : gmap string regexp; argdMap : gmap string float64; parsedFunctionArguments : cache;
  inputColumns : gmap string Z }.
Definition NewCleansingFunctionContext (columns : gmap string Z) : CleansingFunctionContext := mkCleansing ∅ ∅ ∅ columns.
Definition with_cache (ctx : CleansingFunctionContext) (c : cache) : CleansingFunctionContext :=
  mkCleansing (reMap ctx) (argdMap ctx) c (inputColumns ctx).

(** An object and no error message, or no object and a message. *)
Definition obj (v : any) : res (any * option string) := Ret (v, None).
Definition err (e : string) : res (any * option string) := Ret (VNil, Some e).
Definition atoi_error : string := "strconv.Atoi: parsing".
Definition float_error : string := "strconv.ParseFloat: parsing".

(** The text, or no value when it is [none]. *)
Definition unless (none vv : string) : any := if String.eqb vv none then VNil else VStr vv.
Definition on_atoi (s : string) (k : Z → any) : res (any * option string) :=
  match Atoi s with Some v => obj (k v) | None => err atoi_error end.

Definition to_zip5 (inputValue : string) : res (any * option string) :=
  let inVal := filterDigits inputValue in
  let sz := String.length inVal in
  (if sz =? 0 then obj VNil
   else if sz <? 5 then on_atoi inVal (λ v, unless "00000" (fmt_0d 5 v))
   else if sz =? 5 then obj (unless "00000" inVal)
   else if sz <? 9 then on_atoi inVal (λ v, unless "00000" (str_take 5 (fmt_0d 9 v)))
   else if sz =? 9 then obj (unless "00000" (str_take 5 inVal))
   else obj VNil)%nat.

Definition to_zipext4_from_zip9 (inputValue : string) : res (any * option string) :=
  let inVal := filterDigits inputValue in
  let sz := String.length inVal in
  (if sz =? 0 then obj VNil
   else if (5 <? sz) && (sz <? 9) then on_atoi inVal (λ v, unless "0000" (str_drop 5 (fmt_0d 9 v)))
   else if sz =? 9 then obj (unless "0000" (str_drop 5 inVal))
   else obj VNil)%nat.

Definition to_zipext4 (inputValue : string) : res (any * option string) :=
  let inVal := filterDigits inputValue in
  let sz := String.length inVal in
  (if sz =? 0 then obj VNil
   else if sz <? 4 then on_atoi inVal (λ v, unless "0000" (fmt_0d 4 v))
   else if sz =? 4 then obj (unless "0000" inVal)
   else obj VNil)%nat.

(** [if inVal[0] == c { inVal = inVal[1:] }] *)
Definition drop_if (c : ascii) (s : string) : string :=
  match s with String d s' => if ascii_dec d c then s' else s | "" => "" end.
Definition starts_0_1 (s : string) : bool :=
  match s with String d _ => is_ascii d "0" || is_ascii d "1" | "" => false end.

Definition format_phone (argument inputValue : string) : res (any * option string) :=
  let inVal := filterDigits inputValue in
  if (String.length inVal <? 10)%nat then err "too few digits" else
  let inVal := drop_if "1" (drop_if "0" inVal) in
  if (String.length inVal <? 10)%nat then err "invalid sequence of digits" else
  let areaCode := str_take 3 inVal in
  let exchangeCode := str_take 3 (str_drop 3 inVal) in
  let subscriberNbr := str_take 4 (str_drop 6 inVal) in
  if starts_0_1 areaCode then err "invalid area code"
  else if starts_0_1 exchangeCode then err "invalid exchange code"
  else if is_empty argument then obj (VStr ("+1" +:+ areaCode +:+ exchangeCode +:+ subscriberNbr))
  else obj (VStr (sprintf argument [VStr areaCode; VStr exchangeCode; VStr subscriberNbr])).

Definition reformat0 (argument inputValue : string) : res (any * option string) :=
  let inVal := filterDigits inputValue in
  if is_empty inVal then obj VNil else on_atoi inVal (λ v, VStr (sprintf argument [VInt v])).

Definition overpunch_number (argument inputValue : string) : res (any * option string) :=
  match Atoi argument with
  | None => err atoi_error
  | Some npos =>
      match OverpunchNumber inputValue npos with
      | Ret vv => obj (some_text vv)
      | Fail e => err e
      | Panic e => Panic e
      | Loop => Loop
      end
  end.

Definition apply_regex (ctx : CleansingFunctionContext) (argument inputValue : string)
  : CleansingFunctionContext * res (any * option string) :=
  match (match reMap ctx !! argument with Some re => Some re | None => regexp_Compile argument end) with
  | None => (ctx, Panic "ERROR regex argument does not compile")
  | Some re =>
      (mkCleansing (<[argument := re]> (reMap ctx)) (argdMap ctx) (parsedFunctionArguments ctx) (inputColumns ctx),
       obj (some_text (FindString re inputValue)))
  end.

(** The divisor of [scale_units] and [parse_amount]. *)
Definition divisor (ctx : CleansingFunctionContext) (argument : string) : CleansingFunctionContext * res float64 :=
  match argdMap ctx !! argument with
  | Some d => (ctx, Ret d)
  | None =>
      match ParseFloat argument with
      | None => (ctx, Panic "ERROR divisor argument to function scale_units is not a double")
      | Some d => (mkCleansing (reMap ctx) (<[argument := d]> (argdMap ctx)) (parsedFunctionArguments ctx) (inputColumns ctx), Ret d)
      end
  end.
Definition divided (inVal : string) (k : float64 → float64) : res (any * option string) :=
  match ParseFloat inVal with
  | Some v => obj (VStr (sprintf "%f" [VF64 (k v)]))
  | None => err float_error
  end.

Definition scale_units (ctx : CleansingFunctionContext) (argument inputValue : string)
  : CleansingFunctionContext * res (any * option string) :=
  if String.eqb argument "1" then (ctx, obj (some_text (filterDouble inputValue)))
  else let '(ctx, d) := divisor ctx argument in
    (ctx, let! d := d in divided (filterDouble inputValue) (λ unit, f64_ceil (f64_div unit d))).

Definition parse_amount (ctx : CleansingFunctionContext) (argument inputValue : string)
  : CleansingFunctionContext * res (any * option string) :=
  let inVal := filterDouble inputValue in
  if is_empty inVal then (ctx, obj VNil)
  else if is_empty argument || String.eqb argument "1" then (ctx, obj (VStr inVal))
  else let '(ctx, d) := divisor ctx argument in
    (ctx, let! d := d in divided inVal (λ amt, f64_div amt d)).

(** The columns appended by [concat], without the null ones. *)
Fixpoint concat_values (delimit : string) (positions : list Z) (inputRow : record) : res string :=
  match positions with
  | [] => Ret ""
  | pos :: positions' =>
      let! v := at_pos inputRow pos in
      let! rest := concat_values delimit positions' inputRow in
      Ret (if is_nil v then rest else delimit +:+ sprint_v v +:+ rest)
  end.

(** The result of a function whose argument is parsed through the cache. *)
Definition on_parsed {A} (ctx : CleansingFunctionContext) (p : cache * res A) (k : A → res (any * option string))
  : CleansingFunctionContext * res (any * option string) :=
  (with_cache ctx p.1, match p.2 with Ret a => k a | Fail e => err e | Panic e => Panic e | Loop => Loop end).

Definition concat_fnc (ctx : CleansingFunctionContext) (functionName argument inputValue : string) (inputRow : record) :=
  on_parsed ctx (ParseConcatFunctionArgument argument functionName (inputColumns ctx) (parsedFunctionArguments ctx))
    (λ arg, let! rest := concat_values (Delimit arg) (ColumnPositions arg) inputRow in obj (some_text (inputValue +:+ rest))).

Definition find_and_replace (ctx : CleansingFunctionContext) (argument inputValue : string) :=
  on_parsed ctx (ParseFindReplaceFunctionArgument argument (parsedFunctionArguments ctx))
    (λ arg, obj (some_text (ReplaceAll inputValue (Find arg) (ReplaceWith arg)))).

Definition substring (ctx : CleansingFunctionContext) (argument inputValue : string) :=
  on_parsed ctx (ParseSubStringFunctionArgument argument (parsedFunctionArguments ctx))
    (λ arg,
      let l := Z.of_nat (String.length inputValue) in
      let end_ := if (End_ arg <? 0) then (l + End_ arg)else End_ arg in
      if (l <? end_) || (end_ <=? Start arg) then obj VNil
      else let! s := slice_of inputValue (Start arg) end_ in obj (VStr s)).

Definition missing_argument : string := "ERROR missing argument for function".
(** The functions that require an argument. *)
Definition with_argument (argument : string) (ctx : CleansingFunctionContext)
  (r : CleansingFunctionContext * res (any * option string)) : CleansingFunctionContext * res (any * option string) :=
  if is_empty argument then (ctx, Panic missing_argument) else r.

Definition ApplyCleasingFunction (ctx : CleansingFunctionContext) (functionName argument inputValue : string)
  (inputRow : record) : CleansingFunctionContext * res (any * option string) :=
  let fn s := String.eqb functionName s in
  if fn "trim" then (ctx, obj (some_text (TrimSpace inputValue)))
  else if fn "validate_date" then
    (ctx, match ParseDate inputValue with
          | Ret _ => obj (VStr inputValue) | Fail e => err e | Panic e => Panic e | Loop => Loop end)
  else if fn "to_upper" then (ctx, obj (VStr (ToUpper inputValue)))
  else if fn "to_zip5" then (ctx, to_zip5 inputValue)
  else if fn "to_zipext4_from_zip9" then (ctx, to_zipext4_from_zip9 inputValue)
  else if fn "to_zipext4" then (ctx, to_zipext4 inputValue)
  else if fn "format_phone" then (ctx, format_phone argument inputValue)
  else if fn "reformat0" then with_argument argument ctx (ctx, reformat0 argument inputValue)
  else if fn "overpunch_number" then with_argument argument ctx (ctx, overpunch_number argument inputValue)
  else if fn "apply_regex" then with_argument argument ctx (apply_regex ctx argument inputValue)
  else if fn "scale_units" then with_argument argument ctx (scale_units ctx argument inputValue)
  else if fn "parse_amount" then parse_amount ctx argument inputValue
  else if fn "concat" || fn "concat_with" then concat_fnc ctx functionName argument inputValue inputRow
  else if fn "find_and_replace" then find_and_replace ctx argument inputValue
  else if fn "scrub_characters" then with_argument argument ctx (ctx, obj (ScrubCharacters inputValue argument))
  else if fn "substring" then substring ctx argument inputValue
  else if fn "split_on" then with_argument argument ctx (ctx, obj (SplitOn inputValue argument))
  else if fn "unique_split_on" then with_argument argument ctx (ctx, obj (UniqueSplitOn map_order inputValue argument))
  else if fn "slice_input" then
    with_argument argument ctx
      (let '(c, r) := SliceInput inputValue argument (parsedFunctionArguments ctx) in
       (with_cache ctx c, let! v := r in obj v))
  else if fn "ndc10_to_11" then (ctx, obj (Ndc10To11 inputValue))
  else (ctx, Panic "ERROR unknown mapping function").
End cleansing.
