(* ===== verification/CleansingLaws.v ===== *)
(** * Partition keys and overpunch amounts

    The number of a partition is within bounds and a function of the key; an amount
    written with an overpunch character is read back with its sign, its digits and
    its decimal point. *)
From stdpp Require Import base list strings.
From Stdlib Require Import ZArith Lia SpecFloat Ascii.
From S2P Require Import Prelude GoFloat GoText GoTextLaws GoValue EvalOperators Records HashKey Csv CsvLaws Cleansing.
Local Open Scope string_scope.
Local Open Scope Z_scope.

#[local] Set Warnings "-register-all".

(** ** Partitions *)
Section hash.
Context `{GoArch} `{GoUnicode} `{GoFmt} `{GoZone} `{GoRand} `{DomainKeyEnv}.

Lemma partition_range key partitions : 0 < partitions → 0 ≤ partition key partitions < partitions.
Proof. intros Hp. unfold partition. rewrite (proj2 (Z.ltb_lt 0 partitions)) by done. by apply Z.mod_pos_bound. Qed.

(** The partition of a hash key is below the number of partitions, except for
    the boolean true with one partition, and the same key always has the same
    partition unless it is null, for which it is drawn at random. *)
Theorem EvalHash_range key partitions n (Hp : 0 < partitions < two63) :
  (∃ n' h, EvalHash key partitions n = (n', Ret h) ∧ (0 ≤ h < partitions ∨ key = VBool true ∧ partitions = 1 ∧ h = 1)) ∧
  (key ≠ VNil → ∀ n', EvalHash key partitions n' = (n', (EvalHash key partitions n).2)).
Proof.
  split.
  - unfold EvalHash. destruct key; try (eexists _, _; split; [done|]; left; apply partition_range; lia); try (by eexists _, _; split; [|left]).
    + rewrite (proj2 (Z.ltb_lt 0 partitions)) by lia. rewrite i64_small by (width; lia). rewrite (proj2 (Z.leb_gt partitions 0)) by lia.
      eexists _, _. split; [done|]. left. pose proof (rand_bound n partitions). rewrite u64_small; [lia|width; lia].
    +
      eexists _, _. split; [done|]. match goal with |- context [if ?b then _ else _] => destruct b end; [|lia]. destruct (decide (partitions = 1)); [by right|left; lia].
  - intros Hn n'. by destruct key.
Qed.
End hash.

(** ** Overpunch *)

(** The character for a sign and a last digit. *)
Definition overpunch_char (negative : bool) (d : Z) : ascii :=
  ascii_of_N (Z.to_N (if negative then (if d =? 0 then 125 else 73 + d) else (if d =? 0 then 123 else 64 + d))).
Definition sign_of (negative : bool) : string := if negative then "-" else "+".

Lemma overpunch_char_decodes negative d : 0 ≤ d ≤ 9 →
  is_digit (overpunch_char negative d) = false ∧
  overpunchCharacters (overpunch_char negative d) = Some (mkOverpunch (sign_of negative) (Itoa d)).
Proof.
  intros Hd. assert (d = 0 ∨ d = 1 ∨ d = 2 ∨ d = 3 ∨ d = 4 ∨ d = 5 ∨ d = 6 ∨ d = 7 ∨ d = 8 ∨ d = 9) as Hc by lia.
  destruct negative; repeat destruct Hc as [->|Hc]; try (by split; vm_compute); subst; by split; vm_compute.
Qed.

Lemma length_app_str a b : String.length (a +:+ b) = (String.length a + String.length b)%nat.
Proof. induction a as [|c a IH]; [done|]. rewrite str_app_cons. cbn [String.length]. by rewrite IH. Qed.

(** The overpunch decoder reads back an encoded number: the last character gives
    the last digit and the sign, the decimal point goes before the given number of
    decimals; more decimals than characters is a panic. *)
Theorem OverpunchNumber_decodes negative whole fraction d (Hd : 0 ≤ d ≤ 9) :
  let value := whole +:+ fraction +:+ one (overpunch_char negative d) in
  OverpunchNumber value (Z.of_nat (String.length fraction) + 1) =
    Ret (sign_of negative +:+ whole +:+ "." +:+ fraction +:+ Itoa d) ∧
  OverpunchNumber value 0 = Ret (sign_of negative +:+ whole +:+ fraction +:+ Itoa d) ∧
  (∀ decimals, 2 ≤ decimals → Z.of_nat (String.length value) < decimals → OverpunchNumber value decimals = Panic slice_bounds).
Proof.
  intros value. destruct (overpunch_char_decodes negative d Hd) as [Hdig Hoc].
  assert (Hlast : last_char value = Some (overpunch_char negative d)) by (unfold value; rewrite str_app_assoc; apply last_char_snoc).
  assert (Hbut : but_last value = whole +:+ fraction) by (unfold value; rewrite str_app_assoc; apply but_last_snoc).
  assert (Hlen : String.length value = (String.length whole + String.length fraction + 1)%nat).
  { unfold value. rewrite !length_app_str. cbn. lia. }
  assert (Ht1 : str_take (String.length whole) value = whole) by apply str_take_app.
  assert (Ht2 : str_take (String.length whole + String.length fraction) value = whole +:+ fraction)
    by (unfold value; rewrite <- length_app_str, str_app_assoc; apply str_take_app).
  unfold OverpunchNumber. rewrite Hlast, Hdig, Hoc. cbn [Sign Digit]. split_and!.
  - rewrite (proj2 (Z.ltb_ge _ 0)) by lia. rewrite (proj2 (Z.eqb_neq _ 0)) by lia.
    destruct (Z.eqb_spec (Z.of_nat (String.length fraction) + 1) 1) as [E|E].
    + rewrite Hbut. destruct fraction; [|cbn in E; lia]. by rewrite str_app_nil.
    + rewrite Hlen. replace (Z.of_nat (String.length whole + String.length fraction + 1) - (Z.of_nat (String.length fraction) + 1))
        with (Z.of_nat (String.length whole)) by lia.
      replace (Z.of_nat (String.length whole + String.length fraction + 1) - 1)
        with (Z.of_nat (String.length (whole +:+ fraction))) by (rewrite length_app_str; lia).
      unfold slice_of, slice_to, slice_from. rewrite Hlen, length_app_str.
      rewrite !(proj2 (Z.leb_le _ _)) by lia. cbn [andb res_bind]. rewrite !Nat2Z.id.
      rewrite Ht1, Ht2, length_app_str, !(proj2 (Z.leb_le _ _)) by lia. cbn [andb res_bind]. by rewrite str_drop_app.
  - cbn. by rewrite Hbut, !str_app_assoc.
  - intros decimals Hd2 Hlt. rewrite (proj2 (Z.ltb_ge _ 0)) by lia. rewrite !(proj2 (Z.eqb_neq _ _)) by lia.
    unfold slice_to. by rewrite (proj2 (Z.leb_gt 0 _)) by lia.
Qed.
