(* ===== verification/ColumnEval.v ===== *)
(** * Column evaluators

    The evaluators that compute the columns of an output record:
    src/jets/compute_pipes/column_evaluators.go and its siblings _aggregate, _map_reduce,
    _hash, _lookup, _mapping and _case_expr.

    An evaluator has state (the number of samples of an average, the intermediate
    records of a map_reduce, compiled expressions), so [Update] gives back the
    evaluator it leaves. The output record is updated in place: it is given back with
    an error too, since what was written before the error stays written. The input
    record is [None] when it is the output record itself, as when an operator updates
    its input in place; the supply counts the uuids and random numbers drawn. *)
From stdpp Require Import base list strings gmap.
From Stdlib Require Import ZArith Lia SpecFloat Ascii.
From S2P Require Import Prelude GoFloat GoText GoValue DateParser EvalOperators RdfCast EvalExpression.
From S2P Require Import Records HashKey Csv Cleansing.
Local Open Scope string_scope.
Local Open Scope Z_scope.

#[local] Set Warnings "-register-all".

(** ** Aggregate functions *)

Section aggregates.
Context `{GoArch} `{GoUnicode} `{GoFmt} `{GoZone}.

(** [castFnc.Cast] for an evaluator whose specification names a type, and the
    value as it is otherwise. *)
Definition cast_with (cast : option string) (v : any) : res any :=
  match cast with Some rdfType => CastToRdfType v rdfType (Some false) | None => Ret v end.

Definition unsupported : string := "called with unsupported types".

Definition add (lhs rhs : any) (cast : option string) : res any :=
  match rhs with
  | VNil => Ret lhs
  | _ =>
      match lhs with
      | VNil => cast_with cast rhs
      | VInt l =>
          match rhs with
          | VInt r => Ret (VInt (i64 (l + r)))
          | VInt64 r => Ret (VInt64 (i64 (l + r)))
          | VF64 r => Ret (VF64 (f64_add (f64_of_Z l) r))
          | VStr s => match Atoi s with Some r => Ret (VInt (i64 (l + r))) | None => Fail atoi_error end
          | _ => Fail unsupported
          end
      | VInt64 l =>
          match rhs with
          | VInt r | VInt64 r => Ret (VInt64 (i64 (l + r)))
          | VF64 r => Ret (VF64 (f64_add (f64_of_Z l) r))
          | VStr s => match ParseInt64 s with Some r => Ret (VInt64 (i64 (l + r))) | None => Fail atoi_error end
          | _ => Fail unsupported
          end
      | VF64 l =>
          match rhs with
          | VInt r | VInt64 r => Ret (VF64 (f64_add l (f64_of_Z r)))
          | VF64 r => Ret (VF64 (f64_add l r))
          | VStr s => match ParseFloat s with Some r => Ret (VF64 (f64_add l r)) | None => Fail float_error end
          | _ => Fail unsupported
          end
      | _ => Fail unsupported
      end
  end.

(** The value a failed cast to a single value returns along with its error. *)
Fixpoint cast_on_error (v : any) (rdfType : string) : any :=
  match v with
  | VStr s =>
      let s := TrimSpace s in
      if is_double rdfType then VF64 (float_on_error s)
      else if is_int rdfType then VInt 0 else if is_uint rdfType then VUint 0 else VNil
  | VSlice l =>
      (fix first (l : list any) : any :=
         match l with [] => VNil | v :: l' => if is_nil v then first l' else cast_on_error v rdfType end) l
  | _ => VNil
  end.

Definition str_min (isMin : bool) (l r : string) : any :=
  VStr (if (if isMin then str_lt l r else str_lt r l) then l else r).
Definition z_min (isMin : bool) (l r : Z) : Z := if isMin then Z.min l r else Z.max l r.
Definition f_min (isMin : bool) (l r : float64) : float64 := if isMin then f64_min l r else f64_max l r.
Definition t_min (isMin : bool) (l r : Time) : any :=
  VTime (if (if isMin then t_Before l r else t_Before r l) then l else r).

(** The value to write, and the error. *)
Definition minMaxAgg (lhs rhs : any) (cast : option string) (isMin : bool) : any * res unit :=
  let ok (v : any) := (v, Ret tt) in
  let bad : any * res unit := (VNil, Fail unsupported) in
  match rhs with
  | VNil => ok lhs
  | _ =>
      match lhs with
      | VNil =>
          match cast_with cast rhs, cast with
          | Ret v, _ => ok v
          | Fail e, Some t => (cast_on_error rhs t, Fail e)
          | Fail e, None => (VNil, Fail e)
          | Panic e, _ => (VNil, Panic e)
          | Loop, _ => (VNil, Loop)
          end
      | VStr l => match rhs with VStr r => ok (str_min isMin l r) | _ => ok (str_min isMin l (sprint_v rhs)) end
      | VInt l =>
          match rhs with
          | VInt r => ok (VInt (z_min isMin l r))
          | VInt64 r => ok (VInt64 (z_min isMin l r))
          | VF64 r => ok (VF64 (f_min isMin (f64_of_Z l) r))
          | VStr s =>
              match Atoi s with
              | Some r => ok (VInt (z_min isMin l r))
              | None => (VInt (z_min isMin l (atoi_on_error s)), Fail atoi_error)
              end
          | _ => bad
          end
      | VInt64 l =>
          match rhs with
          | VInt r | VInt64 r => ok (VInt64 (z_min isMin l r))
          | VF64 r => ok (VF64 (f_min isMin (f64_of_Z l) r))
          | VStr s =>
              match ParseInt64 s with
              | Some r => ok (VInt64 (z_min isMin l r))
              | None => (VInt64 (z_min isMin l (atoi_on_error s)), Fail atoi_error)
              end
          | _ => bad
          end
      | VF64 l =>
          match rhs with
          | VInt r | VInt64 r => ok (VF64 (f_min isMin l (f64_of_Z r)))
          | VF64 r => ok (VF64 (f_min isMin l r))
          | VStr s =>
              match ParseFloat s with
              | Some r => ok (VF64 (f_min isMin l r))
              | None => (VF64 (f_min isMin l (float_on_error s)), Fail float_error)
              end
          | _ => bad
          end
      | VTime l =>
          match rhs with
          | VTime r => ok (t_min isMin l r)
          | VStr s =>
              match ParseDate s with
              | Ret r => ok (t_min isMin l r)
              | Fail e => (VNil, Fail e)
              | Panic e => (VNil, Panic e)
              | Loop => (VNil, Loop)
              end
          | _ => bad
          end
      | _ => bad
      end
  end.

Definition alphaFactor (nbrSamples : Z) : float64 :=
  if nbrSamples <=? 1 then f64_1 else f64_div (f64_of_Z 2) (f64_add (f64_of_Z nbrSamples) f64_1).
Definition calcAvrg (nbrSamples : Z) (lhs rhs : float64) : float64 :=
  let alpha := alphaFactor nbrSamples in
  f64_add (f64_mul alpha rhs) (f64_mul (f64_sub f64_1 alpha) lhs).

Definition avrg (nbrSamples : Z) (lhs rhs : any) (cast : option string) : res any :=
  match rhs with
  | VNil => Ret lhs
  | _ =>
      match lhs, rhs with
      | VNil, _ => cast_with cast rhs
      | VF64 l, VF64 r => Ret (VF64 (calcAvrg nbrSamples l r))
      | VF64 l, VStr s => match ParseFloat s with Some r => Ret (VF64 (calcAvrg nbrSamples l r)) | None => Fail float_error end
      | _, _ => Fail unsupported
      end
  end.

(** The text under which [distinct_count] keeps a value. *)
Definition distinct_text (v : any) : string :=
  match v with VF64 f => FormatFloat f | _ => sprint_v v end.

(** The key under which [map_reduce] keeps the intermediate record. *)
Definition map_key (v : any) : string :=
  match v with VNil => "" | VBytes s => s | _ => sprint_v v end.
End aggregates.

(** ** Evaluators *)

Record LookupTable := mkLookup { lt_data : gmap string record; lt_columnsMap : gmap string Z; lt_isEmptyTable : bool }.
Definition Lookup (tbl : LookupTable) (key : string) : option record :=
  if lt_isEmptyTable tbl then None else lt_data tbl !! key.

Inductive lookupColumnEval :=
| lceSelect (inputPos outputPos : Z)
| lceValue (value : any) (outputPos : Z).

Record MapExpression := mkMapExpr {
  CleansingFunction : string; Argument : string; me_Default : string; ErrMsg : string;
  CodeValueMapping : option (gmap string string); RdfType : string }.

Section evaluators.
Context `{GoArch} `{GoUnicode} `{GoFmt} `{GoZone} `{GoRegexp} `{GoUuid} `{GoClock} `{GoRand} `{DomainKeyEnv} `{GoDigits}.
(** The order of a [range] over a map with these keys, which may change each time. *)
Variable map_order : nat → list string → list string.

Inductive columnEval :=
| evalExprColumnEval (expr : option evalExpression) (outputPos : Z)
| valueColumnEval (value : any) (outputPos : Z) (cast : option string)
| selectColumnEval (inputPos outputPos : Z) (cast : option string)
| multiSelectColumnEval (inputPos : list Z) (outputPos : Z) (cast : option string)
| countColumnEval (inputPos outputPos : Z) (where_ : option evalExpression)
| distinctCountColumnEval (inputPos outputPos : Z) (where_ : option evalExpression)
| sumColumnEval (inputPos outputPos : Z) (where_ : option evalExpression) (cast : option string)
| minMaxColumnEval (inputPos outputPos : Z) (where_ : option evalExpression) (isMin : bool) (cast : option string)
| avrgColumnEval (inputPos outputPos : Z) (where_ : option evalExpression) (nbrSamples : Z) (cast : option string)
| caseColumnEval (clauses : list (evalExpression * list columnEval)) (elseExpr : list columnEval)
| hashColumnEval (he : HashEvaluator) (outputPos : Z)
| mapReduceColumnEval (nbrIntermediate : nat) (mapOnColumnIdx : Z) (altInputKey : option (list PreprocessingFunction))
    (currentIntermediateValues : gmap string record) (mapEval reduceEval : list columnEval)
| lookupEval (tbl : LookupTable) (keyEvaluator valueEvaluator : list lookupColumnEval)
| mapColumnEval (inputPos outputPos : Z) (defaultValue : any) (mapConfig : MapExpression)
    (cleansingCtx : CleansingFunctionContext) (perRecord : bool).

(** The supply, the output record and the outcome of a call. *)
Record outcome := mkOutcome { o_n : nat; o_cur : record; o_res : res unit }.

Definition written (n : nat) (cur : record) (pos : Z) (v : any) : outcome :=
  match set_pos cur pos v with
  | Ret cur' => mkOutcome n cur' (Ret tt)
  | Fail e => mkOutcome n cur (Fail e)
  | Panic e => mkOutcome n cur (Panic e)
  | Loop => mkOutcome n cur Loop
  end.
Definition skipped (n : nat) (cur : record) : outcome := mkOutcome n cur (Ret tt).
(** [r] with its value written, or its error. *)
Definition write_res (n : nat) (cur : record) (pos : Z) (r : res any) : outcome :=
  match r with
  | Ret v => written n cur pos v
  | Fail e => mkOutcome n cur (Fail e)
  | Panic e => mkOutcome n cur (Panic e)
  | Loop => mkOutcome n cur Loop
  end.

(** The record the evaluator reads. *)
Definition input_of (input : option record) (cur : record) : record := default cur input.

(** The where clause: [w == nil || w.(int) != 1] skips the record. *)
Definition where_holds (w : option evalExpression) (n : nat) (input : record) : option evalExpression * nat * res bool :=
  match w with
  | None => (None, n, Ret true)
  | Some e =>
      let '(e', n, r) := Eval e n (InRow input) in
      (Some e', n,
       let! v := wrap_err "while evaluating where on aggregate" r in
       match v with VNil => Ret false | VInt k => Ret (k =? 1) | _ => Panic interface_conversion end)
  end.

(** The aggregates: the value at the input position, unless it is nil or the where
    clause skips the record, is combined with the value at the output position. The
    flag says whether it was. Only [count] takes a negative position, for the record
    itself. *)
Definition aggregate (star : bool) (inputPos : Z) (w : option evalExpression) (n : nat) (cur : record) (input : option record)
  (combine : nat → any → outcome) : option evalExpression * bool * outcome :=
  let row := input_of input cur in
  match (if star && (inputPos <? 0) then Ret (VInt 0) else at_pos row inputPos) with
  | Ret VNil => (w, false, skipped n cur)
  | Ret value =>
      let '(w', n, r) := where_holds w n row in
      match r with
      | Ret true => (w', true, combine n value)
      | Ret false => (w', false, skipped n cur)
      | Fail e => (w', false, mkOutcome n cur (Fail e))
      | Panic e => (w', false, mkOutcome n cur (Panic e))
      | Loop => (w', false, mkOutcome n cur Loop)
      end
  | Fail e => (w, false, mkOutcome n cur (Fail e))
  | Panic e => (w, false, mkOutcome n cur (Panic e))
  | Loop => (w, false, mkOutcome n cur Loop)
  end.

Definition count_value (c : any) : res any :=
  match c with
  | VNil => Ret (VInt64 1)
  | VInt64 count => Ret (VInt64 (i64 (count + 1)))
  | _ => Panic interface_conversion
  end.
Definition distinct_value (c : any) (text : string) : res any :=
  match c with
  | VNil => Ret (VStrSet [text])
  | VStrSet keys => Ret (VStrSet (if bool_decide (text ∈ keys) then keys else (keys ++ [text])%list))
  | _ => Panic interface_conversion
  end.

(** *** map *)

Definition blankToNil (value : any) : any :=
  match value with VStr s => if is_empty (TrimSpace s) then VNil else value | _ => value end.

Definition applyCodeValueMapping (mapConfig : MapExpression) (value : any) : any :=
  match CodeValueMapping mapConfig with
  | None => value
  | Some cvm =>
      if is_nil value then value else
      let valueStr := sprint_v value in
      VStr match cvm !! valueStr with
           | Some v => v
           | None => match cvm !! "__DEFAULT__" with Some v => v | None => valueStr end
           end
  end.
Definition mapped_default (mapConfig : MapExpression) (defaultValue : any) : any :=
  if is_nil defaultValue then VNil else blankToNil (applyCodeValueMapping mapConfig defaultValue).

(** A present input through the cleansing function, the cast and the code mapping:
    the value, and the error of a rejected one. *)
Definition map_present (mapConfig : MapExpression) (cctx : CleansingFunctionContext) (n : nat) (inputV : string) (row : record)
  : CleansingFunctionContext * res (any * option string) :=
  if is_empty (TrimSpace inputV) then (cctx, Ret (VNil, None)) else
  let '(cctx, cleansed) :=
    if is_empty (CleansingFunction mapConfig) then (cctx, Ret (VStr inputV, None))
    else
      let '(cctx, r) := ApplyCleasingFunction (map_order n) cctx (CleansingFunction mapConfig) (Argument mapConfig) inputV row in
      (cctx, let! o := r in
             Ret match o.2 with Some e => (VNil, Some "error mapping column at output position") | None => o end) in
  (cctx,
   let! o := cleansed in
   let v := blankToNil o.1 in
   if is_nil v then Ret (VNil, o.2) else
   match CastToRdfType v (RdfType mapConfig) None with
   | Ret v => Ret ((if is_nil v then VNil else blankToNil (applyCodeValueMapping mapConfig v)), None)
   | Fail _ => Ret (VNil, Some "while casting value to rdf type")
   | Panic e => Panic e
   | Loop => Loop
   end).

Definition map_err (mapConfig : MapExpression) : res unit :=
  if is_empty (ErrMsg mapConfig) then Ret tt else Fail (ErrMsg mapConfig).

Definition map_Update (inputPos outputPos : Z) (defaultValue : any) (mapConfig : MapExpression)
  (cctx : CleansingFunctionContext) (perRecord : bool) (n : nat) (cur : record) (input : option record)
  : CleansingFunctionContext * outcome :=
  let row := input_of input cur in
  match (if inputPos <? 0 then Ret VNil else at_pos row inputPos) with
  | Ret VNil =>
      (cctx,
       let d := mapped_default mapConfig defaultValue in
       if is_nil d then mkOutcome n cur (map_err mapConfig) else written n cur outputPos d)
  | Ret inputVal =>
      let '(cctx, r) := map_present mapConfig cctx n (sprint_v inputVal) row in
      (cctx,
       match r with
       | Ret (v, e) =>
           if is_nil v && negb perRecord then skipped n cur
           else if is_nil v then
             let d := mapped_default mapConfig defaultValue in
             let o := written n cur outputPos d in
             match o_res o with
             | Ret _ => mkOutcome n (o_cur o)
                 (if is_nil d then match e with Some e => Fail e | None => map_err mapConfig end else Ret tt)
             | _ => o
             end
           else written n cur outputPos v
       | Fail e => mkOutcome n cur (Fail e)
       | Panic e => mkOutcome n cur (Panic e)
       | Loop => mkOutcome n cur Loop
       end)
  | Fail e => (cctx, mkOutcome n cur (Fail e))
  | Panic e => (cctx, mkOutcome n cur (Panic e))
  | Loop => (cctx, mkOutcome n cur Loop)
  end.

(** *** lookup *)

Definition EvalKey (lce : lookupColumnEval) (input : record) : res string :=
  match lce with
  | lceSelect inputPos _ =>
      if Z.of_nat (length input) <=? inputPos then Fail "error lceSelect.EvalKey cannot have nil input or invalid column position"
      else let! v := at_pos input inputPos in Ret (sprint_v v)
  | lceValue value _ => Ret (sprint_v value)
  end.
Fixpoint lookup_key (keys : list lookupColumnEval) (input : record) : res string :=
  match keys with
  | [] => Ret ""
  | k :: keys' =>
      let! s := wrap_err "while making the lookup key" (EvalKey k input) in
      let! rest := lookup_key keys' input in
      Ret (s +:+ rest)
  end.
Definition EvalValue (lce : lookupColumnEval) (n : nat) (output input : record) : outcome :=
  match lce with
  | lceSelect inputPos outputPos =>
      if (Z.of_nat (length output) <=? outputPos) || (Z.of_nat (length input) <=? inputPos)
      then mkOutcome n output (Fail "error lceSelect.EvalValue invalid column position")
      else write_res n output outputPos (at_pos input inputPos)
  | lceValue value outputPos =>
      if Z.of_nat (length output) <=? outputPos then mkOutcome n output (Fail "error lceValue.EvalValue invalid column position")
      else written n output outputPos value
  end.
Fixpoint lookup_values (values : list lookupColumnEval) (n : nat) (output row : record) : outcome :=
  match values with
  | [] => skipped n output
  | v :: values' =>
      let o := EvalValue v n output row in
      match o_res o with Ret _ => lookup_values values' (o_n o) (o_cur o) row | _ => o end
  end.
Definition lookup_Update (tbl : LookupTable) (keys values : list lookupColumnEval) (n : nat) (cur : record) (input : option record) : outcome :=
  match lookup_key keys (input_of input cur) with
  | Ret key =>
      match Lookup tbl key with
      | None => skipped n cur
      | Some row => lookup_values values n cur row
      end
  | Fail e => mkOutcome n cur (Fail e)
  | Panic e => mkOutcome n cur (Panic e)
  | Loop => mkOutcome n cur Loop
  end.

(** *** multi_select *)
Fixpoint multi_values (positions : list Z) (cast : option string) (row : record) : res (list any) :=
  match positions with
  | [] => Ret []
  | pos :: positions' =>
      let! v := at_pos row pos in
      let! v := cast_with cast v in
      let! vs := multi_values positions' cast row in
      Ret (v :: vs)
  end.

(** *** Lists of evaluators *)
Section lists.
Variable Update : columnEval → nat → record → option record → columnEval * outcome.

(** Stops at the first error. *)
Fixpoint update_list (msg : string) (nodes : list columnEval) (n : nat) (cur : record) (input : option record)
  : list columnEval * outcome :=
  match nodes with
  | [] => ([], skipped n cur)
  | node :: nodes' =>
      let '(node', o) := Update node n cur input in
      match o_res o with
      | Ret _ => let '(nodes'', o) := update_list msg nodes' (o_n o) (o_cur o) input in (node' :: nodes'', o)
      | r => (node' :: nodes', mkOutcome (o_n o) (o_cur o) (wrap_err msg r))
      end
  end.

(** The first clause whose condition holds; the supply when none does. *)
Fixpoint update_case (clauses : list (evalExpression * list columnEval)) (n : nat) (cur : record) (input : option record)
  : list (evalExpression * list columnEval) * (nat + outcome) :=
  match clauses with
  | [] => ([], inl n)
  | (whenCase, thenCases) :: clauses' =>
      let '(when', n, r) := Eval whenCase n (InRow (input_of input cur)) in
      match wrap_err "while evaluating case_expr when clause" r with
      | Ret v =>
          if ToBool v then
            let '(then', o) := update_list "while evaluating case_expr then clause" thenCases n cur input in
            ((when', then') :: clauses', inr o)
          else
            let '(clauses'', o) := update_case clauses' n cur input in
            ((when', thenCases) :: clauses'', o)
      | Fail e => ((when', thenCases) :: clauses', inr (mkOutcome n cur (Fail e)))
      | Panic e => ((when', thenCases) :: clauses', inr (mkOutcome n cur (Panic e)))
      | Loop => ((when', thenCases) :: clauses', inr (mkOutcome n cur Loop))
      end
  end.
End lists.

Definition nil_expression : string := "runtime error: invalid memory address or nil pointer dereference".

(** The key of [map_reduce]: the column, or the alternate key when it is null. *)
Definition reduce_key (mapOnColumnIdx : Z) (alt : option (list PreprocessingFunction)) (row : record) : res string :=
  let! inputVal := at_pos row mapOnColumnIdx in
  match inputVal, alt with
  | VNil, Some alt => makeAlternateKey alt "" row
  | _, _ => Ret (map_key inputVal)
  end.

Fixpoint Update (ce : columnEval) (n : nat) (cur : record) (input : option record) {struct ce} : columnEval * outcome :=
  match ce with
  | evalExprColumnEval expr outputPos =>
      match expr with
      | None => (ce, mkOutcome n cur (Panic nil_expression))
      | Some e =>
          let '(e', n, r) := Eval e n (InRow (input_of input cur)) in
          (evalExprColumnEval (Some e') outputPos, write_res n cur outputPos r)
      end
  | valueColumnEval value outputPos cast => (ce, write_res n cur outputPos (cast_with cast value))
  | selectColumnEval inputPos outputPos cast =>
      (ce,
       if in_range (input_of input cur) inputPos
       then write_res n cur outputPos (let! v := at_pos (input_of input cur) inputPos in cast_with cast v)
       else mkOutcome n cur (Fail "error selectColumnEval.update inputPos out of range"))
  | multiSelectColumnEval inputPos outputPos cast =>
      (ce, write_res n cur outputPos (let! vs := multi_values inputPos cast (input_of input cur) in Ret (VSlice vs)))
  | countColumnEval inputPos outputPos w =>
      let '(w', _, o) := aggregate true inputPos w n cur input
        (λ n _, write_res n cur outputPos (let! c := at_pos cur outputPos in count_value c)) in
      (countColumnEval inputPos outputPos w', o)
  | distinctCountColumnEval inputPos outputPos w =>
      let '(w', _, o) := aggregate false inputPos w n cur input
        (λ n v, write_res n cur outputPos (let! c := at_pos cur outputPos in distinct_value c (distinct_text v))) in
      (distinctCountColumnEval inputPos outputPos w', o)
  | sumColumnEval inputPos outputPos w cast =>
      let '(w', _, o) := aggregate false inputPos w n cur input
        (λ n v, write_res n cur outputPos (let! c := at_pos cur outputPos in add c v cast)) in
      (sumColumnEval inputPos outputPos w' cast, o)
  | minMaxColumnEval inputPos outputPos w isMin cast =>
      let '(w', _, o) := aggregate false inputPos w n cur input
        (λ n v,
          match at_pos cur outputPos with
          | Ret c =>
              let '(v', r) := minMaxAgg c v cast isMin in
              let o := written n cur outputPos v' in
              match r with Ret _ | Fail _ => mkOutcome n (o_cur o) r | _ => mkOutcome n cur r end
          | Fail e => mkOutcome n cur (Fail e)
          | Panic e => mkOutcome n cur (Panic e)
          | Loop => mkOutcome n cur Loop
          end) in
      (minMaxColumnEval inputPos outputPos w' isMin cast, o)
  | avrgColumnEval inputPos outputPos w nbrSamples cast =>
      let sampled := i64 (nbrSamples + 1) in
      let '(w', reached, o) := aggregate false inputPos w n cur input
        (λ n v, write_res n cur outputPos (let! c := at_pos cur outputPos in avrg sampled c v cast)) in
      (avrgColumnEval inputPos outputPos w' (if reached then sampled else nbrSamples) cast, o)
  | caseColumnEval clauses elseExpr =>
      let '(clauses', o) := update_case Update clauses n cur input in
      match o with
      | inr o => (caseColumnEval clauses' elseExpr, o)
      | inl n =>
          let '(elseExpr', o) := update_list Update "while evaluating case_expr else clause" elseExpr n cur input in
          (caseColumnEval clauses' elseExpr', o)
      end
  | hashColumnEval he outputPos =>
      (ce,
       if outputPos <? Z.of_nat (length cur) then
         let '(n, r) := ComputeHash he (input_of input cur) n in write_res n cur outputPos r
       else mkOutcome n cur (Fail "error: EvalHash called with invalid write key position"))
  | mapReduceColumnEval k mapOnColumnIdx alt current mapEval reduceEval =>
      let row := input_of input cur in
      match reduce_key mapOnColumnIdx alt row with
      | Ret key =>
          if is_empty key then (ce, skipped n cur) else
          let intermediate := default (new_record k) (current !! key) in
          let '(mapEval', o) := update_list Update "while calling update on TransformationColumnEvaluator (map of map_reduce)"
                                  mapEval n intermediate (Some row) in
          (mapReduceColumnEval k mapOnColumnIdx alt (<[key := o_cur o]> current) mapEval' reduceEval,
           mkOutcome (o_n o) cur (o_res o))
      | Fail e => (ce, mkOutcome n cur (Fail e))
      | Panic e => (ce, mkOutcome n cur (Panic e))
      | Loop => (ce, mkOutcome n cur Loop)
      end
  | lookupEval tbl keys values => (ce, lookup_Update tbl keys values n cur input)
  | mapColumnEval inputPos outputPos defaultValue mapConfig cctx perRecord =>
      let '(cctx', o) := map_Update inputPos outputPos defaultValue mapConfig cctx perRecord n cur input in
      (mapColumnEval inputPos outputPos defaultValue mapConfig cctx' perRecord, o)
  end.

(** *** Done *)
Section done_lists.
Variable Done : columnEval → nat → record → columnEval * outcome.

Fixpoint done_list (msg : string) (nodes : list columnEval) (n : nat) (cur : record) : list columnEval * outcome :=
  match nodes with
  | [] => ([], skipped n cur)
  | node :: nodes' =>
      let '(node', o) := Done node n cur in
      match o_res o with
      | Ret _ => let '(nodes'', o) := done_list msg nodes' (o_n o) (o_cur o) in (node' :: nodes'', o)
      | r => (node' :: nodes', mkOutcome (o_n o) (o_cur o) (wrap_err msg r))
      end
  end.

(** The map part, on the intermediate record of each key. *)
Fixpoint done_map (mapEval : list columnEval) (keys : list string) (n : nat) (current : gmap string record)
  : list columnEval * nat * gmap string record * res unit :=
  match keys with
  | [] => (mapEval, n, current, Ret tt)
  | key :: keys' =>
      let '(mapEval, o) := done_list "while calling done on TransformationColumnEvaluator (map of map_reduce)"
                             mapEval n (default [] (current !! key)) in
      let current := <[key := o_cur o]> current in
      match o_res o with Ret _ => done_map mapEval keys' (o_n o) current | r => (mapEval, o_n o, current, r) end
  end.
End done_lists.

(** The reduce part: each intermediate record updates the output record. *)
Fixpoint reduce_keys (reduceEval : list columnEval) (keys : list string) (current : gmap string record) (n : nat) (cur : record)
  : list columnEval * outcome :=
  match keys with
  | [] => (reduceEval, skipped n cur)
  | key :: keys' =>
      let '(reduceEval, o) := update_list Update "while calling update on TransformationColumnEvaluator (reduce of map_reduce)"
                                reduceEval n cur (Some (default [] (current !! key))) in
      match o_res o with Ret _ => reduce_keys reduceEval keys' current (o_n o) (o_cur o) | _ => (reduceEval, o) end
  end.

Definition distinct_done (c : any) : res any :=
  match c with
  | VNil => Ret (VInt64 0)
  | VStrSet keys => Ret (VInt64 (Z.of_nat (length keys)))
  | _ => Panic interface_conversion
  end.

(** [fuel] bounds the nesting of map_reduce evaluators, [depth] below: the state of
    the evaluators changes on the way, their nesting does not. *)
Fixpoint Done (fuel : nat) (ce : columnEval) (n : nat) (cur : record) : columnEval * outcome :=
  match fuel with
  | O => (ce, mkOutcome n cur Loop)
  | S fuel =>
      match ce with
      | distinctCountColumnEval inputPos outputPos w =>
          (ce, write_res n cur outputPos (let! c := at_pos cur outputPos in distinct_done c))
      | mapReduceColumnEval k idx alt current mapEval reduceEval =>
          let keys := elements (dom current) in
          let '(mapEval, n, current, r) := done_map (Done fuel) mapEval (map_order n keys) (S n) current in
          match r with
          | Ret _ =>
              let '(reduceEval, o) := reduce_keys reduceEval (map_order n keys) current (S n) cur in
              match o_res o with
              | Ret _ =>
                  let '(reduceEval, o) := done_list (Done fuel) "while calling done on TransformationColumnEvaluator (reduce of map_reduce)"
                                            reduceEval (o_n o) (o_cur o) in
                  (mapReduceColumnEval k idx alt current mapEval reduceEval, o)
              | _ => (mapReduceColumnEval k idx alt current mapEval reduceEval, o)
              end
          | r => (mapReduceColumnEval k idx alt current mapEval reduceEval, mkOutcome n cur r)
          end
      | _ => (ce, skipped n cur)
      end
  end.

(** The depth of the map_reduce evaluators below an evaluator. *)
Fixpoint depth (ce : columnEval) : nat :=
  match ce with
  | mapReduceColumnEval _ _ _ _ mapEval reduceEval =>
      S (foldr Nat.max O (map depth mapEval) + foldr Nat.max O (map depth reduceEval))
  | _ => 1%nat
  end.

Definition column_Done (ce : columnEval) (n : nat) (cur : record) : columnEval * outcome := Done (depth ce) ce n cur.
End evaluators.
