(* ===== verification/ColumnLaws.v ===== *)
(** * The case column

    The first clause whose condition holds decides which columns are set. *)
From stdpp Require Import base list strings gmap.
From Stdlib Require Import ZArith Lia SpecFloat Ascii.
From S2P Require Import Prelude GoFloat GoText GoValue EvalOperators RdfCast EvalExpression.
From S2P Require Import Records HashKey Cleansing ColumnEval.
Local Open Scope string_scope.
Local Open Scope Z_scope.

#[local] Set Warnings "-register-all".

Section case_laws.
Context `{GoArch} `{GoUnicode} `{GoFmt} `{GoZone} `{GoRegexp} `{GoUuid} `{GoClock} `{GoRand} `{DomainKeyEnv} `{GoDigits}.
Variable map_order : nat → list string → list string.

(** The supply after a run of clauses whose conditions all evaluate to false; [None]
    if one of them does not. *)
Fixpoint all_false (clauses : list (evalExpression * list columnEval)) (n : nat) (row : record) : option nat :=
  match clauses with
  | [] => Some n
  | (whenCase, _) :: clauses' =>
      match Eval whenCase n (InRow row) with
      | (_, n', Ret v) => if ToBool v then None else all_false clauses' n' row
      | _ => None
      end
  end.

Lemma update_case_skips pre rest n n' cur input : all_false pre n (input_of input cur) = Some n' →
  (update_case (Update map_order) (pre ++ rest)%list n cur input).2 = (update_case (Update map_order) rest n' cur input).2.
Proof.
  revert n. induction pre as [|[w thens] pre IH]; intros n Hpre; cbn [all_false app update_case] in *; [by injection Hpre as ->|].
  destruct (Eval w n (InRow (input_of input cur))) as [[w' n1] [v| | |]]; try done. cbn [wrap_err].
  destruct (ToBool v); [done|]. rewrite <- (IH n1 Hpre). by destruct (update_case _ (pre ++ rest)%list n1 cur input).
Qed.

(** A case column: the columns of the first clause whose condition holds are
    applied, whatever the later clauses are; when no condition holds the else columns
    are applied. *)
Theorem case_first_match pre whenCase thens post elseExpr n n' cur input w n'' v :
  all_false pre n (input_of input cur) = Some n' →
  Eval whenCase n' (InRow (input_of input cur)) = (w, n'', Ret v) → ToBool v = true →
  (Update map_order (caseColumnEval (pre ++ (whenCase, thens) :: post)%list elseExpr) n cur input).2 =
    (update_list (Update map_order) "while evaluating case_expr then clause" thens n'' cur input).2 ∧
  (Update map_order (caseColumnEval pre elseExpr) n cur input).2 =
    (update_list (Update map_order) "while evaluating case_expr else clause" elseExpr n' cur input).2.
Proof.
  intros Hpre Hw Hv. split; cbn [Update].
  - pose proof (update_case_skips pre ((whenCase, thens) :: post) n n' cur input Hpre) as E. cbn [update_case] in E.
    rewrite Hw in E. cbn [wrap_err] in E. rewrite Hv in E.
    destruct (update_list (Update map_order) "while evaluating case_expr then clause" thens n'' cur input) as [thens' o].
    destruct (update_case _ (pre ++ _)%list n cur input) as [clauses' [n1|o1]]; cbn in E |- *; congruence.
  - pose proof (update_case_skips pre [] n n' cur input Hpre) as E. rewrite app_nil_r in E. cbn [update_case snd] in E.
    destruct (update_case _ pre n cur input) as [clauses' [n1|o1]]; cbn in E |- *; [|done]. injection E as ->.
    by destruct (update_list _ _ elseExpr n' cur input).
Qed.
End case_laws.
