(* ===== verification/ColumnBuild.v ===== *)
(** * Building column evaluators

    [BuildTransformationColumnEvaluator] of src/jets/compute_pipes/column_evaluators.go
    and the builders it calls, from the specification of a column
    (pipesmodel/model.go). The builder of a hash also writes into its specification
    ([NewHashEvaluator]); the specification it leaves is not given back here. *)
From stdpp Require Import base list strings gmap.
From Stdlib Require Import ZArith Lia SpecFloat Ascii.
From S2P Require Import Prelude GoFloat GoText GoValue DateParser EvalOperators RdfCast EvalExpression.
From S2P Require Import Records HashKey Cleansing ColumnEval.
Local Open Scope string_scope.
Local Open Scope Z_scope.

#[local] Set Warnings "-register-all".

Record LookupColumnSpec := mkLookupColumn {
  lc_Name : string; lc_Type : string; lc_Expr : option string; lc_MaxEnvVarSubstitution : Z }.

(** [tc_CaseExpr] is [None] for a nil slice; a clause is its condition and the
    columns it sets. *)
Inductive TransformationColumnSpec := mkColumn {
  tc_Name : string; tc_Type : string; tc_Expr : option string; tc_ExprArray : list string;
  tc_MapExpr : option MapExpression; tc_EvalExpr : option ExpressionNode; tc_HashExpr : option HashExpression;
  tc_Where : option ExpressionNode;
  tc_CaseExpr : option (list (ExpressionNode * list TransformationColumnSpec));
  tc_ElseExpr : list TransformationColumnSpec;
  tc_MapOn : option string; tc_AlternateMapOn : list string;
  tc_ApplyMap : list TransformationColumnSpec; tc_ApplyReduce : list TransformationColumnSpec;
  tc_LookupName : option string; tc_LookupKey : list LookupColumnSpec; tc_LookupValues : list LookupColumnSpec;
  tc_MaxEnvVarSubstitution : Z; tc_AsRdfType : string }.

Section builder.
Context `{GoArch} `{GoUnicode} `{GoFmt} `{GoZone} `{GoRegexp} `{GoUuid} `{GoClock} `{GoJson} `{GoRand} `{DomainKeyEnv} `{GoDigits}.
(** The builder context: the environment, the orders of the loops over it, the
    lookup tables, the sharding of the cluster. *)
Variable env : gmap string any.
Variable range : nat → list (string * any).
Variable lookupTables : gmap string LookupTable.
Variable sharding : ShardingInfo.
(** The depth to which expressions are built. *)
Variable expr_fuel : nat.

Definition build_expr (source : InputChannel) (spec : ExpressionNode) : res evalExpression :=
  BuildExprNodeEvaluator env range (Some (ic_Columns source)) expr_fuel spec.
(** A nil specification builds a nil evaluator. *)
Definition build_opt_expr (msg : string) (source : InputChannel) (spec : option ExpressionNode) : res (option evalExpression) :=
  match spec with
  | None => Ret None
  | Some spec => let! e := wrap_err msg (build_expr source spec) in Ret (Some e)
  end.

Definition column_of (msg : string) (columns : gmap string Z) (name : string) : res Z :=
  match columns !! name with Some pos => Ret pos | None => Fail msg end.
Definition input_column := column_of "error column not found in input source".
Definition output_column (outCh : OutputChannel) (name : string) : res Z :=
  column_of "error column not found in output source" (oc_Columns outCh) name.

Definition rdf_cast (spec : TransformationColumnSpec) : option string :=
  if is_empty (tc_AsRdfType spec) then None else Some (tc_AsRdfType spec).

Definition the_expr (msg : string) (spec : TransformationColumnSpec) : res string :=
  match tc_Expr spec with Some e => Ret e | None => Fail msg end.

(** An unknown column of multi_select is position 0, the zero value of the map. *)
Definition multi_positions (columns : gmap string Z) (names : list string) : list Z :=
  (λ name, default 0 (columns !! name)) <$> names.

(** The where clause, the input column and the output column of an aggregate. *)
Definition build_aggregate (msg : string) (source : InputChannel) (outCh : OutputChannel) (spec : TransformationColumnSpec)
  (k : Z → Z → option evalExpression → columnEval) : res columnEval :=
  let! expr := the_expr msg spec in
  let! inputPos := column_of "error, aggregate needs a valid column name" (ic_Columns source) expr in
  let! where_ := build_opt_expr "while building where expression" source (tc_Where spec) in
  let! outputPos := output_column outCh (tc_Name spec) in
  Ret (k inputPos outputPos where_).

Definition BuildCountTCEvaluator (source : InputChannel) (outCh : OutputChannel) (spec : TransformationColumnSpec) : res columnEval :=
  let! expr := the_expr "error: Type count must have Expr != nil" spec in
  let! inputPos := if String.eqb expr "*" then Ret (-1)
                   else column_of "error: count needs a valid column name or * to count all rows" (ic_Columns source) expr in
  let! where_ := build_opt_expr "while building where expression" source (tc_Where spec) in
  let! outputPos := output_column outCh (tc_Name spec) in
  Ret (countColumnEval inputPos outputPos where_).

Definition BuildDistinctCountTCEvaluator source outCh spec :=
  build_aggregate "error: Type distinct_count must have Expr != nil" source outCh spec distinctCountColumnEval.
Definition BuildSumTCEvaluator source outCh spec :=
  build_aggregate "error: Type sum must have Expr != nil" source outCh spec (λ i o w, sumColumnEval i o w (rdf_cast spec)).
Definition BuildMinMaxTCEvaluator source outCh spec (isMin : bool) :=
  build_aggregate "error: Type min or max must have Expr != nil" source outCh spec (λ i o w, minMaxColumnEval i o w isMin (rdf_cast spec)).
Definition BuildAvrgTCEvaluator source outCh spec :=
  build_aggregate "error: Type avrg must have Expr != nil" source outCh spec (λ i o w, avrgColumnEval i o w 0 (rdf_cast spec)).

(** The default of a map column: an unknown type has none, and so does a date that
    cannot be read. *)
Definition map_default (rdfType dflt : string) : res any :=
  if is_empty dflt then Ret VNil
  else if one_of rdfType ["int"; "bool"] then
    if one_of dflt ["true"; "TRUE"] then Ret (VInt 1)
    else if one_of dflt ["false"; "FALSE"] then Ret (VInt 0)
    else let! v := String2Int dflt in Ret (VInt v)
  else if is_double rdfType then let! v := float_or float_error dflt in Ret (VF64 v)
  else if is_text rdfType then Ret (VStr dflt)
  else if String.eqb rdfType "date" then
    match ParseDate dflt with Ret t => Ret (VTime t) | Fail _ => Ret VNil | Panic e => Panic e | Loop => Loop end
  else if String.eqb rdfType "datetime" then
    match ParseDatetime dflt with Ret t => Ret (VTime t) | Fail _ => Ret VNil | Panic e => Panic e | Loop => Loop end
  else if one_of rdfType ["int64"; "long"; "uint"; "uint64"] then let! v := String2Int dflt in Ret (VInt v)
  else Ret VNil.

Definition BuildMapTCEvaluator (source : InputChannel) (outCh : OutputChannel) (spec : TransformationColumnSpec) : res columnEval :=
  match tc_MapExpr spec with
  | None => Fail "error: Type map must have MapExpr != nil"
  | Some me =>
      let! defaultValue := map_default (RdfType me) (me_Default me) in
      let! _ :=
        match CodeValueMapping me with
        | Some _ => if negb (is_empty (RdfType me)) && negb (is_text (RdfType me))
                    then Fail "error: code value mapping is only supported for string/text rdf type" else Ret tt
        | None => Ret tt
        end in
      match tc_Expr spec with
      | None => Panic nil_expression
      | Some expr =>
          let! inputPos :=
            match ic_Columns source !! expr with
            | Some pos => Ret pos
            | None => if is_empty expr || String.eqb expr "jets:key" then Ret (-1)
                      else Fail "mapping column: error column not found in input source"
            end in
          let! outputPos := column_of "mapping column: error column not found in output source" (oc_Columns outCh) (tc_Name spec) in
          Ret (mapColumnEval inputPos outputPos defaultValue me (NewCleansingFunctionContext (ic_Columns source)) false)
      end
  end.

Definition BuildHashTCEvaluator (source : InputChannel) (outCh : OutputChannel) (spec : TransformationColumnSpec) : res columnEval :=
  match tc_HashExpr spec with
  | None => Fail "error: Type 'hash' must have field 'hash_expr' != nil"
  | Some he =>
      let! outputPos := output_column outCh (tc_Name spec) in
      let! he := (NewHashEvaluator sharding source he).2 in
      Ret (hashColumnEval he outputPos)
  end.

Fixpoint lookup_key_evals (source : InputChannel) (keys : list LookupColumnSpec) : res (list lookupColumnEval) :=
  match keys with
  | [] => Ret []
  | spec :: keys' =>
      match lc_Expr spec with
      | None => Fail "error: lookup key must have expr"
      | Some expr =>
          let! e :=
            if String.eqb (ToLower (lc_Type spec)) "select" then
              let! pos := column_of "error: lookup key column is not an input column" (ic_Columns source) expr in Ret (lceSelect pos 0)
            else if String.eqb (ToLower (lc_Type spec)) "value" then
              let! v := wrap_err "while building key evaluator of type 'value'"
                          (parseValue env range expr (lc_MaxEnvVarSubstitution spec)) in Ret (lceValue v 0)
            else Fail "error: unknown lookup key type (expecting select or value)" in
          let! rest := lookup_key_evals source keys' in
          Ret (e :: rest)
      end
  end.
Fixpoint lookup_value_evals (tbl : LookupTable) (outCh : OutputChannel) (values : list LookupColumnSpec) : res (list lookupColumnEval) :=
  match values with
  | [] => Ret []
  | spec :: values' =>
      match lc_Expr spec with
      | None => Fail "error: lookup value must have expr"
      | Some expr =>
          let! e :=
            if String.eqb (ToLower (lc_Type spec)) "select" then
              let! inputPos := column_of "error: lookup table does not have column" (lt_columnsMap tbl) expr in
              let! outputPos := column_of "error: output column is not valid for lookup table" (oc_Columns outCh) (lc_Name spec) in
              Ret (lceSelect inputPos outputPos)
            else if String.eqb (ToLower (lc_Type spec)) "value" then
              let! v := wrap_err "while building lookup value evaluator of type 'value'"
                          (parseValue env range expr (lc_MaxEnvVarSubstitution spec)) in
              let! outputPos := column_of "error: output column is not valid for lookup table" (oc_Columns outCh) (lc_Name spec) in
              Ret (lceValue v outputPos)
            else Fail "error: unknown lookup value type (expecting select or value)" in
          let! rest := lookup_value_evals tbl outCh values' in
          Ret (e :: rest)
      end
  end.
Definition BuildLookupTCEvaluator (source : InputChannel) (outCh : OutputChannel) (spec : TransformationColumnSpec) : res columnEval :=
  match tc_LookupName spec, tc_LookupKey spec, tc_LookupValues spec with
  | Some name, (_ :: _) as keys, (_ :: _) as values =>
      let! keyEvaluator := lookup_key_evals source keys in
      match lookupTables !! name with
      | None => Fail "error: lookup table not found in lookup table manager"
      | Some tbl =>
          let! valueEvaluator := if lt_isEmptyTable tbl then Ret [] else lookup_value_evals tbl outCh values in
          Ret (lookupEval tbl keyEvaluator valueEvaluator)
      end
  | _, _, _ => Fail "error: Type lookup must have LookupName, LookupKey and LookupValues not empty"
  end.

(** The positions of the columns of the map part. *)
Fixpoint intermediate_columns (i : Z) (specs : list TransformationColumnSpec) (m : gmap string Z) : gmap string Z :=
  match specs with [] => m | spec :: specs' => intermediate_columns (i + 1) specs' (<[tc_Name spec := i]> m) end.

Section lists.
Variable build : InputChannel → OutputChannel → TransformationColumnSpec → res columnEval.
Fixpoint build_list (msg : string) (source : InputChannel) (outCh : OutputChannel) (specs : list TransformationColumnSpec)
  : res (list columnEval) :=
  match specs with
  | [] => Ret []
  | spec :: specs' =>
      let! e := wrap_err msg (build source outCh spec) in
      let! es := build_list msg source outCh specs' in
      Ret (e :: es)
  end.
Fixpoint build_clauses (source : InputChannel) (outCh : OutputChannel)
  (clauses : list (ExpressionNode * list TransformationColumnSpec)) : res (list (evalExpression * list columnEval)) :=
  match clauses with
  | [] => Ret []
  | (when, thens) :: clauses' =>
      let! w := wrap_err "while building when clause" (build_expr source when) in
      let! ts := build_list "while building then clause" source outCh thens in
      let! rest := build_clauses source outCh clauses' in
      Ret ((w, ts) :: rest)
  end.

Definition BuildCaseExprTCEvaluator (source : InputChannel) (outCh : OutputChannel) (spec : TransformationColumnSpec) : res columnEval :=
  match tc_CaseExpr spec with
  | None => Fail "error: Type case_expr must have CaseExpr != nil"
  | Some clauses =>
      let! cs := build_clauses source outCh clauses in
      let! es := build_list "while building else clause for case_expr" source outCh (tc_ElseExpr spec) in
      Ret (caseColumnEval cs es)
  end.

Definition BuildMapReduceTCEvaluator (source : InputChannel) (outCh : OutputChannel) (spec : TransformationColumnSpec) : res columnEval :=
  match tc_MapOn spec, tc_ApplyMap spec, tc_ApplyReduce spec with
  | Some mapOn, (_ :: _) as applyMap, (_ :: _) as applyReduce =>
      let! mapOnColumnIdx := column_of "error column not found in input source" (ic_Columns source) mapOn in
      let! alt :=
        match tc_AlternateMapOn spec with
        | [] => Ret None
        | exprs => let! pfs := wrap_err "buildMapReduceEvaluator" (ParsePreprocessingExpressions exprs true (ic_Columns source)) in Ret (Some pfs)
        end in
      let columns := intermediate_columns 0 applyMap ∅ in
      let! mapEval := build_list "while building Column Transformation Evaluator (map of map_reduce)" source
                        (mkOutput "" columns [] (ic_ClassName source)) applyMap in
      let! reduceEval := build_list "while building Column Transformation Evaluator (reduce of map_reduce)"
                           (mkInput "" columns None [] (ic_ClassName source)) outCh applyReduce in
      Ret (mapReduceColumnEval (size columns) mapOnColumnIdx alt ∅ mapEval reduceEval)
  | _, _, _ => Fail "error: Type map_reduce must have MapOn, ApplyMap and ApplyReduce not empty"
  end.
End lists.

(** [fuel] bounds the nesting of the specification. *)
Fixpoint BuildTransformationColumnEvaluator (fuel : nat) (source : InputChannel) (outCh : OutputChannel)
  (spec : TransformationColumnSpec) : res columnEval :=
  match fuel with
  | O => Loop
  | S fuel =>
      let type := ToLower (tc_Type spec) in
      let is_type s := String.eqb type s in
      if is_type "select" then
        let! expr := the_expr "error: Type select must have Expr != nil" spec in
        let! inputPos := input_column (ic_Columns source) expr in
        let! outputPos := output_column outCh (tc_Name spec) in
        Ret (selectColumnEval inputPos outputPos (rdf_cast spec))
      else if is_type "multi_select" then
        match tc_ExprArray spec with
        | [] => Fail "error: Type multi_select must have expr_array specified"
        | names =>
            let! outputPos := output_column outCh (tc_Name spec) in
            Ret (multiSelectColumnEval (multi_positions (ic_Columns source) names) outputPos (rdf_cast spec))
        end
      else if is_type "value" then
        let! expr := the_expr "error: Type value must have Expr != nil" spec in
        let! value := parseValue env range expr (tc_MaxEnvVarSubstitution spec) in
        let! outputPos := output_column outCh (tc_Name spec) in
        Ret (valueColumnEval value outputPos (rdf_cast spec))
      else if is_type "eval" then
        let! e := build_opt_expr "while calling BuildExprNodeEvaluator" source (tc_EvalExpr spec) in
        let! outputPos := output_column outCh (tc_Name spec) in
        Ret (evalExprColumnEval e outputPos)
      else if is_type "map" then wrap_err "while calling BuildMapTCEvaluator" (BuildMapTCEvaluator source outCh spec)
      else if is_type "count" then wrap_err "while calling BuildCountTCEvaluator" (BuildCountTCEvaluator source outCh spec)
      else if is_type "distinct_count" then
        wrap_err "while calling BuildDistinctCountTCEvaluator" (BuildDistinctCountTCEvaluator source outCh spec)
      else if is_type "sum" then wrap_err "while calling BuildSumTCEvaluator" (BuildSumTCEvaluator source outCh spec)
      else if is_type "min" then wrap_err "while calling BuildMinMaxTCEvaluator" (BuildMinMaxTCEvaluator source outCh spec true)
      else if is_type "max" then wrap_err "while calling BuildMinMaxTCEvaluator" (BuildMinMaxTCEvaluator source outCh spec false)
      else if is_type "avrg" then wrap_err "while calling BuildAvrgTCEvaluator" (BuildAvrgTCEvaluator source outCh spec)
      else if is_type "case" then BuildCaseExprTCEvaluator (BuildTransformationColumnEvaluator fuel) source outCh spec
      else if is_type "hash" then BuildHashTCEvaluator source outCh spec
      else if is_type "map_reduce" then BuildMapReduceTCEvaluator (BuildTransformationColumnEvaluator fuel) source outCh spec
      else if is_type "lookup" then BuildLookupTCEvaluator source outCh spec
      else Fail "error: unknown TransformationColumnSpec Type"
  end.
End builder.
