(* ===== verification/Pipes.v ===== *)
(** * Pipe transformations

    The operators a pipe applies to its records: the files pipe_transformation_*.go of
    src/jets/compute_pipes for distinct, filter, map_record, aggregate, sort and
    group_by. MergePipe.v and SamplingPipes.v hold merge, shuffling and high_freq.

    An operator is a type of states with [Apply] and [Done]
    ([PipeTransformationEvaluator] of pipesmodel/model.go): what it sends to its output
    channel is given back, and so is the input record, which an operator may update in
    place. The consumer of the channel takes every record: the interruption by the
    done channel is not modelled, nor is the debug logging. *)
From stdpp Require Import base list strings gmap sorting.
From Stdlib Require Import ZArith Lia SpecFloat Ascii.
From S2P Require Import Prelude GoFloat GoText GoValue EvalOperators RdfCast EvalExpression.
From S2P Require Import Records HashKey Cleansing ColumnEval ColumnBuild.
Local Open Scope string_scope.
Local Open Scope Z_scope.

#[local] Set Warnings "-register-all".

(** The state after a call, the supply, the input record, the records sent. *)
Record pipe_out (S : Type) := mkPipeOut {
  po_state : S; po_n : nat; po_row : record; po_sent : list record; po_res : res unit }.
Arguments mkPipeOut {S}.
Arguments po_state {S}.
Arguments po_n {S}.
Arguments po_row {S}.
Arguments po_sent {S}.
Arguments po_res {S}.

Class PipeTransformationEvaluator (S : Type) := {
  Apply : S → nat → record → pipe_out S;
  pipe_Done : S → nat → pipe_out S }.

(** Nothing is sent. *)
Definition quiet {S} (s : S) (n : nat) (row : record) : pipe_out S := mkPipeOut s n row [] (Ret tt).
Definition failed {S A} (s : S) (n : nat) (row : record) (r : res A) : pipe_out S :=
  mkPipeOut s n row [] (let! _ := r in Ret tt).

(** The records of a channel through an operator, until an error: what is left of
    the state and the supply, and what is sent. *)
Fixpoint feed {S} `{PipeTransformationEvaluator S} (s : S) (n : nat) (rows : list record) : S * nat * list record * res unit :=
  match rows with
  | [] => (s, n, [], Ret tt)
  | row :: rows' =>
      let o := Apply s n row in
      match po_res o with
      | Ret _ =>
          let '(s', n', sent, r) := feed (po_state o) (po_n o) rows' in
          (s', n', (po_sent o ++ sent)%list, r)
      | r => (po_state o, po_n o, po_sent o, r)
      end
  end.
(** [Done] after the last record. *)
Definition run_pipe {S} `{PipeTransformationEvaluator S} (s : S) (n : nat) (rows : list record) : list record * res unit :=
  let '(s, n, sent, r) := feed s n rows in
  match r with
  | Ret _ => let o := pipe_Done s n in ((sent ++ po_sent o)%list, po_res o)
  | r => (sent, r)
  end.

(** [slices.SortFunc], and [sort.Slice]: a permutation, sorted when the comparison
    is a weak order on the elements. *)
Definition cmp_order {A} (cmp : A → A → Z) (l : list A) : Prop :=
  (∀ a b, a ∈ l → b ∈ l → cmp a b ≤ 0 ∨ cmp b a ≤ 0) ∧
  (∀ a b c, a ∈ l → b ∈ l → c ∈ l → cmp a b ≤ 0 → cmp b c ≤ 0 → cmp a c ≤ 0).
Class GoSort := {
  SortFunc : ∀ A, (A → A → Z) → list A → list A;
  SortFunc_perm A cmp l : SortFunc A cmp l ≡ₚ l;
  SortFunc_sorted A cmp l : cmp_order cmp l → StronglySorted (λ a b, cmp a b ≤ 0) (SortFunc A cmp l) }.
Arguments SortFunc {_ A}.

Section pipes.
Context `{GoArch} `{GoUnicode} `{GoFmt} `{GoZone} `{GoRegexp} `{GoUuid} `{GoClock} `{GoRand} `{DomainKeyEnv} `{GoDigits} `{GoSort}.
Variable map_order : nat → list string → list string.

(** ** distinct *)
Record DistinctTransformationPipe := mkDistinct {
  dt_nbrColumns : nat; dt_compositeKey : list Z; dt_distinctRows : gset string }.

(** The key is read at the positions 0, 1, ... of the record, as many as there are
    key columns. *)
Fixpoint distinct_key (i : nat) (compositeKey : list Z) (input : record) : res string :=
  match compositeKey with
  | [] => Ret ""
  | _ :: compositeKey' =>
      let! v := at_pos input (Z.of_nat i) in
      let! rest := distinct_key (S i) compositeKey' input in
      Ret (sprint_v v +:+ rest)
  end.

Definition distinct_Apply (ctx : DistinctTransformationPipe) (n : nat) (input : record) : pipe_out DistinctTransformationPipe :=
  if negb (length input =? dt_nbrColumns ctx)%nat then quiet ctx n input
  else match distinct_key 0 (dt_compositeKey ctx) input with
  | Ret key =>
      if bool_decide (key ∈ dt_distinctRows ctx) then quiet ctx n input
      else mkPipeOut (mkDistinct (dt_nbrColumns ctx) (dt_compositeKey ctx) ({[ key ]} ∪ dt_distinctRows ctx))
             n input [input] (Ret tt)
  | r => failed ctx n input r
  end.
#[global] Instance distinct_pipe : PipeTransformationEvaluator DistinctTransformationPipe :=
  {| Apply := distinct_Apply; pipe_Done s n := quiet s n [] |}.

Fixpoint distinct_positions (columns : gmap string Z) (names : list string) : res (list Z) :=
  match names with
  | [] => Ret []
  | c :: names' =>
      let! pos := column_of "error: key column is not in the input channel (distinct operator)" columns c in
      let! rest := distinct_positions columns names' in
      Ret (pos :: rest)
  end.
(** [None] is a missing configuration. *)
Definition NewDistinctTransformationPipe (source : InputChannel) (distinctOn : option (list string)) : res DistinctTransformationPipe :=
  match distinctOn with
  | None => Fail "error: Distinct Pipe Transformation spec is missing distinct_config element"
  | Some names =>
      let! key := distinct_positions (ic_Columns source) names in
      Ret (mkDistinct (length (ic_ConfigColumns source)) key ∅)
  end.

(** ** filter *)
Record FilterTransformationPipe := mkFilter {
  ft_nbrInput : nat; ft_nbrOutput : nat; ft_rowLengthStrict : bool; ft_whenExpr : option evalExpression;
  ft_maxOutputCount : Z; ft_nbrSentRows : Z; ft_newRecord : bool; ft_columnEvaluators : list columnEval }.

(** The record that is updated, and the one the evaluators read when it is another. *)
Definition target (newRecord : bool) (nbrOutput : nat) (input : record) : record * option record :=
  if newRecord then (new_record nbrOutput, Some input) else (input, None).
(** [currentValues[:n]] when it is longer. *)
Definition resized (newRecord : bool) (nbrOutput : nat) (row : record) : record :=
  if newRecord then row else take nbrOutput row.
(** The input record after the update of [row]. *)
Definition left_row (newRecord : bool) (input row : record) : record := if newRecord then input else row.

Definition filter_send (ctx : FilterTransformationPipe) (w : option evalExpression) (n : nat) (input : record) : pipe_out FilterTransformationPipe :=
  let '(row, inp) := target (ft_newRecord ctx) (ft_nbrOutput ctx) input in
  let '(evals, o) := update_list (Update map_order) "while calling column transformation from filter"
                       (ft_columnEvaluators ctx) n row inp in
  let ctx' sent := mkFilter (ft_nbrInput ctx) (ft_nbrOutput ctx) (ft_rowLengthStrict ctx) w (ft_maxOutputCount ctx)
                     sent (ft_newRecord ctx) evals in
  match o_res o with
  | Ret _ =>
      let row := resized (ft_newRecord ctx) (ft_nbrOutput ctx) (o_cur o) in
      mkPipeOut (ctx' (i64 (ft_nbrSentRows ctx + 1))) (o_n o) (left_row (ft_newRecord ctx) input row) [row] (Ret tt)
  | r => failed (ctx' (ft_nbrSentRows ctx)) (o_n o) (left_row (ft_newRecord ctx) input (o_cur o)) r
  end.

Definition filter_Apply (ctx : FilterTransformationPipe) (n : nat) (input : record) : pipe_out FilterTransformationPipe :=
  if ft_rowLengthStrict ctx && negb (length input =? ft_nbrInput ctx)%nat then quiet ctx n input
  else if (0 <? ft_maxOutputCount ctx) && (ft_maxOutputCount ctx <=? ft_nbrSentRows ctx) then quiet ctx n input
  else match ft_whenExpr ctx with
  | None => filter_send ctx None n input
  | Some e =>
      let '(e', n, r) := Eval e n (InRow input) in
      let ctx' := mkFilter (ft_nbrInput ctx) (ft_nbrOutput ctx) (ft_rowLengthStrict ctx) (Some e') (ft_maxOutputCount ctx)
                    (ft_nbrSentRows ctx) (ft_newRecord ctx) (ft_columnEvaluators ctx) in
      match wrap_err "while evaluating when clause of filter" r with
      | Ret v => if ToBool v then filter_send ctx' (Some e') n input else quiet ctx' n input
      | r => failed ctx' n input r
      end
  end.
#[global] Instance filter_pipe : PipeTransformationEvaluator FilterTransformationPipe :=
  {| Apply := filter_Apply; pipe_Done s n := quiet s n [] |}.

(** ** map_record *)
Inductive on_error := OnErrorPassThrough | OnErrorDrop | OnErrorFail.
#[global] Instance on_error_eq_dec : EqDecision on_error.
Proof. solve_decision. Defined.

Record MapRecordTransformationPipe := mkMapRecord {
  mr_outputCh : OutputChannel; mr_newRecord : bool; mr_columnEvaluators : list columnEval;
  mr_onError : on_error; mr_maxErrorCount : Z; mr_errorCount : Z; mr_hasErrorChannel : bool;
  mr_currentSourcePeriod : Z; mr_errors : list string }.

(** [%016x] *)
Definition hex_digit (k : Z) : ascii := ascii_of_N (Z.to_N (if k <? 10 then 48 + k else 87 + k)).
Fixpoint hex16 (n : nat) (z : Z) (acc : string) : string :=
  match n with O => acc | S n => hex16 n (z / 16) (String (hex_digit (z mod 16)) acc) end.

Definition row_text (v : any) : string :=
  match v with
  | VNil => ""
  | VF64 f => FormatFloat f
  | VF32 f => FormatFloat32 f
  | VTime t => if t_daysec t =? 0 then time_Format t "2006-01-02" else time_Format t datetime_layout
  | _ => sprint_v v
  end.
Definition ComputeRowHash (row : record) (sourcePeriod : Z) : string :=
  hex16 16 (fnv64a fnv_offset (Itoa sourcePeriod +:+ foldr (λ v acc, row_text v +:+ acc) "" row)) "".

(** The column evaluators, with the policy on errors: the record, whether an error
    occurred, the errors counted so far, those written to the error channel. *)
Fixpoint map_columns (ctx : MapRecordTransformationPipe) (nodes : list columnEval) (n : nat) (cur : record) (input : option record)
  (hadError : bool) (count : Z) (errors : list string)
  : list columnEval * nat * record * bool * Z * list string * res unit :=
  match nodes with
  | [] => ([], n, cur, hadError, count, errors, Ret tt)
  | node :: nodes' =>
      let '(node', o) := Update map_order node n cur input in
      match o_res o with
      | Ret _ =>
          let '(nodes'', n, cur, h, c, e, r) := map_columns ctx nodes' (o_n o) (o_cur o) input hadError count errors in
          (node' :: nodes'', n, cur, h, c, e, r)
      | Fail msg =>
          let count := i64 (count + 1) in
          let errors := if (count <=? mr_maxErrorCount ctx) && mr_hasErrorChannel ctx then (errors ++ [msg])%list else errors in
          if bool_decide (mr_onError ctx = OnErrorFail)
          then (node' :: nodes', o_n o, o_cur o, true, count, errors, Fail "error while applying column transformation")
          else
            let '(nodes'', n, cur, h, c, e, r) := map_columns ctx nodes' (o_n o) (o_cur o) input true count errors in
            (node' :: nodes'', n, cur, h, c, e, r)
      | r => (node' :: nodes', o_n o, o_cur o, hadError, count, errors, r)
      end
  end.

(** [rdf:type] and [jets:key] of a record of a class, when the mapping left them null. *)
Definition set_if_null (columns : gmap string Z) (name : string) (v : any) (row : record) : res record :=
  match columns !! name with
  | None => Ret row
  | Some pos => let! c := at_pos row pos in if is_nil c then set_pos row pos v else Ret row
  end.
Definition class_columns (ctx : MapRecordTransformationPipe) (rowHash : string) (row : record) : res record :=
  if is_empty (oc_ClassName (mr_outputCh ctx)) then Ret row
  else
    let! row := set_if_null (oc_Columns (mr_outputCh ctx)) "rdf:type"
                  (VStr (arr_open +:+ oc_ClassName (mr_outputCh ctx) +:+ arr_close)) row in
    set_if_null (oc_Columns (mr_outputCh ctx)) "jets:key" (VStr rowHash) row.

Definition map_record_Apply (ctx : MapRecordTransformationPipe) (n : nat) (input : record) : pipe_out MapRecordTransformationPipe :=
  let nbrOutput := length (oc_ConfigColumns (mr_outputCh ctx)) in
  let rowHash := ComputeRowHash input (mr_currentSourcePeriod ctx) in
  let '(row, inp) := target (mr_newRecord ctx) nbrOutput input in
  let '(evals, n, row, hadError, count, errors, r) :=
    map_columns ctx (mr_columnEvaluators ctx) n row inp false (mr_errorCount ctx) (mr_errors ctx) in
  let ctx' := mkMapRecord (mr_outputCh ctx) (mr_newRecord ctx) evals (mr_onError ctx) (mr_maxErrorCount ctx) count
                (mr_hasErrorChannel ctx) (mr_currentSourcePeriod ctx) errors in
  let left := left_row (mr_newRecord ctx) input in
  match r with
  | Ret _ =>
      if hadError && bool_decide (mr_onError ctx = OnErrorDrop) then quiet ctx' n (left row)
      else
        let row := resized (mr_newRecord ctx) nbrOutput row in
        match class_columns ctx rowHash row with
        | Ret row => mkPipeOut ctx' n (left row) [row] (Ret tt)
        | r => failed ctx' n (left row) r
        end
  | r => failed ctx' n (left row) r
  end.
#[global] Instance map_record_pipe : PipeTransformationEvaluator MapRecordTransformationPipe :=
  {| Apply := map_record_Apply; pipe_Done s n := quiet s n [] |}.

(** ** aggregate *)
Record AggregateTransformationPipe := mkAggregate { at_columnEvaluators : list columnEval; at_currentValues : record }.

Definition aggregate_Apply (ctx : AggregateTransformationPipe) (n : nat) (input : record) : pipe_out AggregateTransformationPipe :=
  let '(evals, o) := update_list (Update map_order) "while calling update on TransformationColumnEvaluator"
                       (at_columnEvaluators ctx) n (at_currentValues ctx) (Some input) in
  mkPipeOut (mkAggregate evals (o_cur o)) (o_n o) input [] (o_res o).
Definition aggregate_Done (ctx : AggregateTransformationPipe) (n : nat) : pipe_out AggregateTransformationPipe :=
  let '(evals, o) := done_list (column_Done map_order) "while calling done on column evaluator from AggregateTransformationPipe"
                       (at_columnEvaluators ctx) n (at_currentValues ctx) in
  let ctx' := mkAggregate evals (o_cur o) in
  match o_res o with
  | Ret _ => mkPipeOut ctx' (o_n o) [] [o_cur o] (Ret tt)
  | r => failed ctx' (o_n o) [] r
  end.
#[global] Instance aggregate_pipe : PipeTransformationEvaluator AggregateTransformationPipe :=
  {| Apply := aggregate_Apply; pipe_Done := aggregate_Done |}.

(** ** sort *)
Record SortTransformationPipe := mkSort { st_sortBy : list Z; st_inputRecords : list record }.

Fixpoint sort_cmp (sortBy : list Z) (sz : Z) (lhs rhs : record) : res Z :=
  match sortBy with
  | [] => Ret 0
  | pos :: sortBy' =>
      if sz <=? pos then Ret 0
      else
        let! l := at_pos lhs pos in
        let! r := at_pos rhs pos in
        let c := CmpRecord l r in
        if c =? 0 then sort_cmp sortBy' sz lhs rhs else Ret c
  end.
(** The positions come from the columns of a channel and are not negative, so the
    comparison does not panic. *)
Definition record_cmp (sortBy : list Z) (lhs rhs : record) : Z :=
  match sort_cmp sortBy (Z.of_nat (Nat.min (length lhs) (length rhs))) lhs rhs with Ret c => c | _ => 0 end.

Definition sort_Apply (ctx : SortTransformationPipe) (n : nat) (input : record) : pipe_out SortTransformationPipe :=
  mkPipeOut (mkSort (st_sortBy ctx) (st_inputRecords ctx ++ [input])%list) n input [] (Ret tt).
Definition sort_Done (ctx : SortTransformationPipe) (n : nat) : pipe_out SortTransformationPipe :=
  let sorted := SortFunc (record_cmp (st_sortBy ctx)) (st_inputRecords ctx) in
  mkPipeOut (mkSort (st_sortBy ctx) sorted) n [] sorted (Ret tt).
#[global] Instance sort_pipe : PipeTransformationEvaluator SortTransformationPipe :=
  {| Apply := sort_Apply; pipe_Done := sort_Done |}.

(** The columns of a domain key, or the ones named. *)
Definition domain_columns (msg : string) (source : InputChannel) (domainKey : string) (names : list string) : res (list string) :=
  if is_empty domainKey then Ret names
  else match ic_DomainKeySpec source with
  | None => Fail (msg +:+ " operator is configured with domain key but no domain key spec available")
  | Some dk =>
      match DomainKeys dk !! domainKey with
      | Some keyExpr => Ret keyExpr
      | None => Fail (msg +:+ " operator is configured with domain key, but no domain key defined")
      end
  end.
Fixpoint column_positions (msg : string) (columns : gmap string Z) (names : list string) : res (list Z) :=
  match names with
  | [] => Ret []
  | c :: names' =>
      let! pos := column_of msg columns c in
      let! rest := column_positions msg columns names' in
      Ret (pos :: rest)
  end.
Definition NewSortTransformationPipe (source : InputChannel) (domainKey : string) (sortByColumn : list string) : res SortTransformationPipe :=
  let! names := domain_columns "error: sort" source domainKey sortByColumn in
  let! sortBy := column_positions "error: sort key is not an input column" (ic_Columns source) names in
  match sortBy with
  | [] => Fail "error: sort operator has no sort key: set sort_config.domain_key or sort_config.sort_by"
  | _ => Ret (mkSort sortBy [])
  end.

(** ** group_by *)
Record GroupByTransformationPipe := mkGroupBy {
  gb_currentValue : any; gb_currentBundle : list record; gb_groupByCount : Z; gb_groupByPos : list Z }.

Fixpoint group_text (positions : list Z) (input : record) : res string :=
  match positions with
  | [] => Ret ""
  | i :: positions' =>
      let! v := at_pos input i in
      let! rest := group_text positions' input in
      Ret ((if is_nil v then "" else sprint_v v) +:+ rest)
  end.
Definition groupValueOf (ctx : GroupByTransformationPipe) (input : record) : res any :=
  match gb_groupByPos ctx with
  | [pos] => at_pos input pos
  | positions => let! s := group_text positions input in Ret (VStr s)
  end.

(** Go's [==] on interface values: values of the same type that cannot be compared
    panic. *)
Definition same_type (a b : any) : bool :=
  match a, b with
  | VSlice _, VSlice _ | VSet _, VSet _ | VBytes _, VBytes _ | VStrs _, VStrs _ | VStrSet _, VStrSet _ => true
  | _, _ => false
  end.
Definition iface_eq (a b : any) : res bool :=
  if same_type a b then Panic "runtime error: comparing uncomparable type" else Ret (key_eqb a b).

(** A bundle is sent as one record of records, when it is not empty. *)
Definition sendBundle (bundle : list record) : list record :=
  match bundle with [] => [] | _ => [VSlice <$> bundle] end.

Definition group_by_Apply (ctx : GroupByTransformationPipe) (n : nat) (input : record) : pipe_out GroupByTransformationPipe :=
  let with_bundle v bundle := mkGroupBy v bundle (gb_groupByCount ctx) (gb_groupByPos ctx) in
  let bundle := gb_currentBundle ctx in
  if 0 <? gb_groupByCount ctx then
    if Z.of_nat (length bundle) <? gb_groupByCount ctx
    then quiet (with_bundle (gb_currentValue ctx) (bundle ++ [input])%list) n input
    else mkPipeOut (with_bundle (gb_currentValue ctx) [input]) n input (sendBundle bundle) (Ret tt)
  else match groupValueOf ctx input with
  | Ret groupByValue =>
      if is_nil (gb_currentValue ctx) then quiet (with_bundle groupByValue (bundle ++ [input])%list) n input
      else match iface_eq (gb_currentValue ctx) groupByValue with
      | Ret false => mkPipeOut (with_bundle groupByValue [input]) n input (sendBundle bundle) (Ret tt)
      | Ret true => quiet (with_bundle (gb_currentValue ctx) (bundle ++ [input])%list) n input
      | r => failed ctx n input r
      end
  | r => failed ctx n input r
  end.
Definition group_by_Done (ctx : GroupByTransformationPipe) (n : nat) : pipe_out GroupByTransformationPipe :=
  mkPipeOut ctx n [] (sendBundle (gb_currentBundle ctx)) (Ret tt).
#[global] Instance group_by_pipe : PipeTransformationEvaluator GroupByTransformationPipe :=
  {| Apply := group_by_Apply; pipe_Done := group_by_Done |}.

Definition NewGroupByTransformationPipe (source : InputChannel) (domainKey : string) (groupByName : list string)
  (groupByPos : list Z) (groupByCount : Z) : res GroupByTransformationPipe :=
  let! names := domain_columns "error: group_by" source domainKey groupByName in
  let! positions :=
    if groupByCount =? 0 then
      match names with
      | [] => Ret groupByPos
      | _ => column_positions "error: group_by key is not an input column" (ic_Columns source) names
      end
    else Ret [] in
  if (groupByCount =? 0) && (length positions =? 0)%nat
  then Fail "error: group_by operator must specify one of: domain_key, group_by_name, group_by_pos, group_by_count"
  else Ret (mkGroupBy VNil [] groupByCount positions).
End pipes.

(** ** Running an operator *)
Lemma run_pipe_cons {S} `{PipeTransformationEvaluator S} (s : S) n row rows : po_res (Apply s n row) = Ret tt →
  run_pipe s n (row :: rows) =
  let '(sent, r) := run_pipe (po_state (Apply s n row)) (po_n (Apply s n row)) rows in
  ((po_sent (Apply s n row) ++ sent)%list, r).
Proof.
  intros Hr. unfold run_pipe. cbn [feed]. rewrite Hr.
  destruct (feed _ _ rows) as [[[s' n'] sent] [u|m|m|]]; [|done..]. by rewrite (assoc_L (++)%list).
Qed.
