(* ===== verification/PipeLaws.v ===== *)
(** * Properties of the operators

    sort sends a permutation of its records in the lexicographic order of its
    columns, group_by the maximal runs of records with one key, and the two together
    one bundle for each key. *)
From stdpp Require Import base list strings gmap sorting.
From Stdlib Require Import ZArith Lia SpecFloat Ascii.
From S2P Require Import Prelude GoFloat GoText GoValue EvalOperators EvalOperatorsLaws RdfCast EvalExpression.
From S2P Require Import Records HashKey ColumnEval ColumnBuild Pipes.
Local Open Scope string_scope.
Local Open Scope Z_scope.

#[local] Set Warnings "-register-all".

(** ** sort *)
Section sort.
Context `{GoFmt} `{GoSort}.

Definition field (row : record) (pos : Z) : any := default VNil (row !! Z.to_nat pos).
(** Every record has a value of the kind at the position. *)
Definition column_kind (rows : list record) (pos : Z) (k : sort_kind) : Prop :=
  0 ≤ pos ∧ ∀ row, row ∈ rows → (Z.to_nat pos < length row)%nat ∧ kind_of (field row pos) = Some k.
(** The order of the records: the first column on which they differ decides. *)
Fixpoint lex_le (sortBy : list Z) (a b : record) : Prop :=
  match sortBy with
  | [] => True
  | pos :: sortBy' => CmpRecord (field a pos) (field b pos) < 0 ∨ CmpRecord (field a pos) (field b pos) = 0 ∧ lex_le sortBy' a b
  end.

Fixpoint lex_cmp (sortBy : list Z) (a b : record) : Z :=
  match sortBy with
  | [] => 0
  | pos :: sortBy' => let c := CmpRecord (field a pos) (field b pos) in if c =? 0 then lex_cmp sortBy' a b else c
  end.
Lemma lex_cmp_le sortBy a b : lex_cmp sortBy a b ≤ 0 ↔ lex_le sortBy a b.
Proof.
  induction sortBy as [|pos sortBy IH]; simpl; [lia|]. destruct (Z.eqb_spec (CmpRecord (field a pos) (field b pos)) 0); [|lia].
  rewrite IH. intuition lia.
Qed.

Lemma at_pos_field row pos : 0 ≤ pos → (Z.to_nat pos < length row)%nat → at_pos row pos = Ret (field row pos).
Proof. intros Hp Hl. unfold at_pos, field. rewrite (proj2 (in_range_iff row pos)); [done|lia]. Qed.

Lemma record_cmp_lex rows sortBy kinds a b : Forall2 (column_kind rows) sortBy kinds → a ∈ rows → b ∈ rows →
  record_cmp sortBy a b = lex_cmp sortBy a b.
Proof.
  intros Hk Ha Hb. unfold record_cmp. set (sz := Z.of_nat _).
  assert (E : sort_cmp sortBy sz a b = Ret (lex_cmp sortBy a b)); [|by rewrite E].
  induction Hk as [|pos k sortBy kinds [Hp Hc] _ IH]; [done|]. destruct (Hc a Ha) as [La _]. destruct (Hc b Hb) as [Lb _].
  cbn [sort_cmp lex_cmp]. rewrite (proj2 (Z.leb_gt sz pos)) by (unfold sz; lia). rewrite !at_pos_field by done. cbn [res_bind].
  by destruct (_ =? 0).
Qed.

(** The lexicographic comparison on columns of one kind each. *)
Lemma lex_cmp_order rows sortBy kinds a b c : Forall2 (column_kind rows) sortBy kinds → a ∈ rows → b ∈ rows → c ∈ rows →
  lex_cmp sortBy b a = - lex_cmp sortBy a b ∧ (lex_cmp sortBy a b ≤ 0 → lex_cmp sortBy b c ≤ 0 → lex_cmp sortBy a c ≤ 0).
Proof.
  intros Hk Ha Hb Hc. induction Hk as [|pos k sortBy kinds [Hp Hcol] _ IH]; [done|].
  destruct (Hcol a Ha) as [_ Ka], (Hcol b Hb) as [_ Kb], (Hcol c Hc) as [_ Kc]. cbn [lex_cmp].
  destruct (CmpRecord_order k _ _ _ Ka Kb Kc) as [Eab Tabc]. destruct (CmpRecord_order k _ _ _ Kb Kc Ka) as [Ebc Tbca].
  destruct (CmpRecord_order k _ _ _ Kc Ka Kb) as [Eca Tcab]. destruct IH as [IHa IHt]. split.
  - rewrite Eab. set (x := CmpRecord _ _). destruct (Z.eqb_spec x 0), (Z.eqb_spec (- x) 0); lia.
  - revert Eab Ebc Eca Tabc Tbca Tcab.
    generalize (CmpRecord (field a pos) (field b pos)) (CmpRecord (field b pos) (field a pos)) (CmpRecord (field b pos) (field c pos))
      (CmpRecord (field c pos) (field b pos)) (CmpRecord (field a pos) (field c pos)) (CmpRecord (field c pos) (field a pos)).
    intros ab ba bc cb ac ca Eab Ebc Eca Tabc Tbca Tcab.
    destruct (Z.eqb_spec ab 0), (Z.eqb_spec bc 0), (Z.eqb_spec ac 0); lia.
Qed.

Lemma sort_feeds sortBy n rows : ∀ kept, feed (mkSort sortBy kept) n rows = (mkSort sortBy (kept ++ rows)%list, n, [], Ret tt).
Proof.
  induction rows as [|row rows IH]; intros kept; [by rewrite app_nil_r|]. cbn [feed]. cbn. rewrite IH. by rewrite <- (assoc_L (++)%list).
Qed.

Lemma sort_runs sortBy kinds n rows : Forall2 (column_kind rows) sortBy kinds →
  ∃ sorted, run_pipe (mkSort sortBy []) n rows = (sorted, Ret tt) ∧ sorted ≡ₚ rows ∧ StronglySorted (lex_le sortBy) sorted.
Proof.
  intros Hk. unfold run_pipe. rewrite sort_feeds. cbn. eexists. split; [done|]. split; [apply SortFunc_perm|].
  assert (Hs : StronglySorted (λ a b, record_cmp sortBy a b ≤ 0) (SortFunc (record_cmp sortBy) rows)).
  { apply SortFunc_sorted. split; [intros a b Ha Hb|intros a b c Ha Hb Hc]; rewrite !(record_cmp_lex rows sortBy kinds) by done.
    - destruct (lex_cmp_order rows sortBy kinds a b a Hk Ha Hb Ha) as [-> _]. lia.
    - apply (lex_cmp_order rows sortBy kinds a b c Hk Ha Hb Hc). }
  assert (Hin : Forall (.∈ rows) (SortFunc (record_cmp sortBy) rows)).
  { apply Forall_forall. intros x Hx. by rewrite SortFunc_perm in Hx. }
  induction Hs as [|a l _ IH Hle]; constructor; apply Forall_cons in Hin as [Ha Hin]; [by apply IH|].
  rewrite Forall_forall in Hle, Hin. apply Forall_forall. intros b Hb. apply lex_cmp_le.
  rewrite <- (record_cmp_lex rows sortBy kinds) by auto. by apply Hle.
Qed.
End sort.

(** ** group_by *)
Section group_by.
Context `{GoFmt} `{GoSort}.

(** The key of a record, when it has one that can be compared. *)
Definition group_key (positions : list Z) (row : record) : any :=
  match groupValueOf (mkGroupBy VNil [] 0 positions) row with Ret k => k | _ => VNil end.
Definition groupable (positions : list Z) (row : record) : Prop :=
  ∃ k, groupValueOf (mkGroupBy VNil [] 0 positions) row = Ret k ∧ k ≠ VNil ∧ hashable k = true.

(** A bundle as it is sent. *)
Definition as_bundle (b : list record) : record := VSlice <$> b.

(** Maximal runs: [bundles] cuts [rows], the keys of a bundle are that of its first
    record, and the next bundle begins where the key changes. *)
Inductive maximal_runs (key : record → any) : list record → list (list record) → Prop :=
| runs_nil : maximal_runs key [] []
| runs_last first rest :
    Forall (λ row, key_eqb (key first) (key row) = true) rest →
    maximal_runs key (first :: rest) [first :: rest]
| runs_next first rest next rows bundles :
    Forall (λ row, key_eqb (key first) (key row) = true) rest →
    key_eqb (key first) (key next) = false →
    maximal_runs key (next :: rows) bundles →
    maximal_runs key (first :: rest ++ next :: rows)%list ((first :: rest) :: bundles).

Lemma group_by_step positions v b n row : groupable positions row → v ≠ VNil →
  Apply (mkGroupBy v b 0 positions) n row =
  if key_eqb v (group_key positions row) then quiet (mkGroupBy v (b ++ [row])%list 0 positions) n row
  else mkPipeOut (mkGroupBy (group_key positions row) [row] 0 positions) n row (sendBundle b) (Ret tt).
Proof.
  intros (k & Hk & Hnil & Hh) Hv. unfold group_key. rewrite Hk. cbn [Apply group_by_pipe]. unfold group_by_Apply.
  cbn [gb_groupByCount gb_currentBundle gb_currentValue gb_groupByPos]. cbn [Z.ltb Z.compare].
  assert (groupValueOf (mkGroupBy v b 0 positions) row = Ret k) as -> by exact Hk.
  assert (is_nil v = false) as -> by by destruct v. unfold iface_eq.
  assert (same_type v k = false) as -> by (by destruct v, k). by destruct (key_eqb v k).
Qed.

Lemma group_by_rest positions rows : Forall (groupable positions) rows →
  ∀ first rest n, groupable positions first → Forall (λ row, key_eqb (group_key positions first) (group_key positions row) = true) rest →
  ∃ bundles, run_pipe (mkGroupBy (group_key positions first) (first :: rest) 0 positions) n rows = (as_bundle <$> bundles, Ret tt) ∧
    maximal_runs (group_key positions) (first :: rest ++ rows)%list bundles.
Proof.
  induction rows as [|row rows IH]; intros Hrows first rest n Hf Hrest.
  { exists [first :: rest]. rewrite app_nil_r. by split; [|constructor]. }
  apply Forall_cons in Hrows as [Hrow Hrows].
  assert (Hv : group_key positions first ≠ VNil) by (unfold group_key; by destruct Hf as (k & -> & ? & _)).
  pose proof (group_by_step positions (group_key positions first) (first :: rest) n row Hrow Hv) as E.
  destruct (key_eqb (group_key positions first) (group_key positions row)) eqn:Ek.
  - destruct (IH Hrows first (rest ++ [row])%list n Hf) as (bundles & Er & Hm).
    { apply Forall_app. by split; [|constructor]. }
    exists bundles. rewrite run_pipe_cons, E by by rewrite E. cbn [quiet po_state po_n po_sent]. change ((first :: rest) ++ [row])%list with (first :: (rest ++ [row])%list). rewrite Er.
    split; [done|]. by rewrite <- (assoc_L (++)%list) in Hm.
  - destruct (IH Hrows row [] n Hrow ltac:(constructor)) as (bundles & Er & Hm). cbn in Hm.
    exists ((first :: rest) :: bundles). rewrite run_pipe_cons, E by by rewrite E. cbn [po_state po_n po_sent]. rewrite Er.
    split; [done|]. by constructor.
Qed.
Lemma group_by_runs positions n rows : Forall (groupable positions) rows →
  ∃ bundles, run_pipe (mkGroupBy VNil [] 0 positions) n rows = (as_bundle <$> bundles, Ret tt) ∧
    maximal_runs (group_key positions) rows bundles.
Proof.
  destruct rows as [|row rows]; intros Hrows; [by exists []; split; [|constructor]|]. apply Forall_cons in Hrows as [Hrow Hrows].
  assert (E : Apply (mkGroupBy VNil [] 0 positions) n row = quiet (mkGroupBy (group_key positions row) [row] 0 positions) n row).
  { destruct Hrow as (k & Hk & _). unfold group_key. rewrite Hk. cbn [Apply group_by_pipe]. unfold group_by_Apply. cbn. by rewrite Hk. }
  destruct (group_by_rest positions rows Hrows row [] n Hrow ltac:(constructor)) as (bundles & Er & Hm).
  exists bundles. rewrite run_pipe_cons, E by by rewrite E. cbn [quiet po_state po_n po_sent]. by rewrite Er.
Qed.

Lemma maximal_runs_concat key rows bundles : maximal_runs key rows bundles → concat bundles = rows.
Proof. induction 1; simpl; rewrite ?app_nil_r; [done|done|]. by rewrite IHmaximal_runs. Qed.

(** ** sort, then group_by *)

(** The rows of a key of a column of texts are in one bundle when the rows are in
    order. *)
Definition bundle_of (pos : Z) (b : list record) (k : string) : Prop := b ≠ [] ∧ Forall (λ row, field row pos = VStr k) b.

Lemma text_le_eq a b : CmpRecord (VStr a) (VStr b) ≤ 0 → CmpRecord (VStr b) (VStr a) ≤ 0 → a = b.
Proof.
  cbn [CmpRecord is_nil orb]. rewrite (string_compare_antisym a b). intros ??. assert (str_Compare a b = 0) as E by lia. revert E.
  unfold str_Compare. destruct (String.compare a b) eqn:Ec; [|done|done]. intros _. by apply String.compare_eq_iff.
Qed.

Lemma text_field v : kind_of v = Some KText → ∃ k, v = VStr k.
Proof. destruct v; try done. eauto. Qed.

Lemma sorted_runs pos rows bundles :
  maximal_runs (λ row, field row pos) rows bundles → StronglySorted (lex_le [pos]) rows →
  Forall (λ row, kind_of (field row pos) = Some KText) rows →
  ∃ ks, Forall2 (bundle_of pos) bundles ks ∧ NoDup ks ∧ (∀ k, k ∈ ks → ∃ row, row ∈ rows ∧ field row pos = VStr k).
Proof.
  assert (Hrun : ∀ first rest, kind_of (field first pos) = Some KText →
    Forall (λ row, key_eqb (field first pos) (field row pos) = true) rest →
    ∃ k, field first pos = VStr k ∧ Forall (λ row, field row pos = VStr k) rest).
  { intros first rest Hk Hr. destruct (text_field _ Hk) as [k Ef]. exists k. split; [done|]. rewrite Ef in Hr.
    eapply Forall_impl; [exact Hr|]. intros row. cbn. destruct (field row pos); try done. cbn [key_eqb]. by intros ->%String.eqb_eq. }
  induction 1 as [|first rest Hr|first rest next rows bundles Hr Hne Hm IH]; intros Hs Hk.
  - exists []. split_and!; [constructor|constructor|]. by intros k ?%not_elem_of_nil.
  - apply Forall_cons in Hk as [Hk _]. destruct (Hrun first rest Hk Hr) as (k & Ef & Hrest). exists [k]. split_and!.
    + constructor; [|constructor]. split; [done|]. by constructor.
    + apply NoDup_singleton.
    + intros k' ->%list_elem_of_singleton. exists first. split; [by left|done].
  - apply Forall_cons in Hk as [Hk Hks]. apply Forall_app in Hks as [_ Hks].
    destruct (Hrun first rest Hk Hr) as (k & Ef & Hrest).
    apply StronglySorted_inv in Hs as [Hs Hle]. apply StronglySorted_app_1_r in Hs.
    apply Forall_app in Hle as [_ Hle]. destruct (IH Hs Hks) as (ks & Hb & Hnd & Hin).
    exists (k :: ks). split_and!.
    + constructor; [|done]. split; [done|]. by constructor.
    + constructor; [|done]. intros Hk'. destruct (Hin k Hk') as (row & Hrow & Efr).
      apply Forall_cons in Hks as [Hkn _]. destruct (text_field _ Hkn) as [kn En].
      assert (Hle1 : CmpRecord (VStr k) (VStr kn) ≤ 0).
      { apply Forall_cons in Hle as [Hn _]. cbn [lex_le] in Hn. rewrite Ef, En in Hn. lia. }
      assert (Hle2 : CmpRecord (VStr kn) (VStr k) ≤ 0).
      { apply elem_of_cons in Hrow as [->|Hrow]; [rewrite En in Efr; injection Efr as ->; rewrite Hle1; done|].
        apply StronglySorted_inv in Hs as [_ Hn]. rewrite Forall_forall in Hn. specialize (Hn _ Hrow). cbn [lex_le] in Hn. rewrite En, Efr in Hn. lia. }
      rewrite Ef, En in Hne. cbn [key_eqb] in Hne. rewrite (text_le_eq _ _ Hle1 Hle2), String.eqb_refl in Hne. done.
    + intros k' [->|Hk']%elem_of_cons.
      * exists first. split; [by left|done].
      * destruct (Hin k' Hk') as (row & Hrow & ?). exists row. split; [|done]. right. apply elem_of_app. by right.
Qed.
End group_by.

(** ** The operators as they are built *)
Section built.
Context `{GoFmt} `{GoSort}.

Lemma column_positions_spec msg columns names positions : column_positions msg columns names = Ret positions →
  Forall2 (λ name pos, columns !! name = Some pos) names positions.
Proof.
  revert positions. induction names as [|name names IH]; intros positions; cbn [column_positions]; [intros [= <-]; constructor|].
  intros (pos & Ep & (rest & Er & [= <-])%res_bind_Ret)%res_bind_Ret. constructor; [|by apply IH].
  unfold column_of in Ep. destruct (columns !! name); [congruence|done].
Qed.

(** The sort operator sends the records it received, each as many times as it
    came, in the lexicographic order of the configured columns, when a column holds
    values of one kind: text, integers or times. *)
Theorem sort_sends_in_order source names pipe kinds n rows :
  NewSortTransformationPipe source "" names = Ret pipe →
  Forall2 (λ name k, ∀ pos, ic_Columns source !! name = Some pos → column_kind rows pos k) names kinds →
  ∃ sorted sortBy, run_pipe pipe n rows = (sorted, Ret tt) ∧ sorted ≡ₚ rows ∧
    Forall2 (λ name pos, ic_Columns source !! name = Some pos) names sortBy ∧ StronglySorted (lex_le sortBy) sorted.
Proof.
  unfold NewSortTransformationPipe. cbn [domain_columns is_empty]. cbn. intros (sortBy & Es & Ep)%res_bind_Ret Hk.
  apply column_positions_spec in Es. assert (pipe = mkSort sortBy []) as -> by (destruct sortBy; [done|by injection Ep]).
  destruct (sort_runs sortBy kinds n rows) as (sorted & E & Hp & Hs); [|by exists sorted, sortBy].
  clear Ep. revert sortBy Es. induction Hk as [|name k names kinds Hname _ IH]; intros sortBy Es.
  - apply Forall2_nil_inv_l in Es as ->. constructor.
  - apply Forall2_cons_inv_l in Es as (pos & rest & Hpos & Hrest & ->). constructor; [by apply Hname|by apply IH].
Qed.

Lemma group_key_field pos row : 0 ≤ pos → group_key [pos] row = field row pos.
Proof.
  intros Hp. unfold group_key, field, groupValueOf, at_pos. cbn [gb_groupByPos]. destruct (in_range row pos) eqn:Hr; [done|].
  destruct (row !! Z.to_nat pos) as [v|] eqn:Hl; [|done]. apply lookup_lt_Some in Hl.
  rewrite (proj2 (in_range_iff row pos)) in Hr; [done|lia].
Qed.
Lemma maximal_runs_ext key key' rows bundles : (∀ row, key row = key' row) → maximal_runs key rows bundles → maximal_runs key' rows bundles.
Proof.
  intros He. induction 1 as [|first rest Hr|first rest next rows bundles Hr Hne _ IH]; constructor.
  all: try (eapply Forall_impl; [exact Hr|]; intros row; cbn beta; by rewrite !He).
  - by rewrite <- !He.
  - done.
Qed.
Lemma text_groupable rows pos row : column_kind rows pos KText → row ∈ rows → groupable [pos] row.
Proof.
  intros [Hp Hc] Hrow. destruct (Hc row Hrow) as [Hl Hk]. exists (field row pos). split; [by apply at_pos_field|].
  destruct (text_field _ Hk) as [k ->]. done.
Qed.

(** The group_by operator on columns: the bundles joined are the records in
    their order, the records of a bundle have one key, and neighbouring bundles have
    different keys. *)
Theorem group_by_maximal_runs source names pipe n rows :
  NewGroupByTransformationPipe source "" names [] 0 = Ret pipe →
  Forall (λ row, ∀ positions, Forall2 (λ name pos, ic_Columns source !! name = Some pos) names positions → groupable positions row) rows →
  ∃ bundles positions, run_pipe pipe n rows = (as_bundle <$> bundles, Ret tt) ∧
    Forall2 (λ name pos, ic_Columns source !! name = Some pos) names positions ∧
    concat bundles = rows ∧ maximal_runs (group_key positions) rows bundles.
Proof.
  unfold NewGroupByTransformationPipe. cbn [domain_columns is_empty]. cbn -[column_positions]. intros (positions & Es & Ep)%res_bind_Ret Hg.
  assert (Hpos : Forall2 (λ name pos, ic_Columns source !! name = Some pos) names positions).
  { destruct names; [injection Es as <-; constructor|]. by apply column_positions_spec in Es. }
  destruct (length positions =? 0)%nat; [done|]. injection Ep as <-.
  destruct (group_by_runs positions n rows) as (bundles & E & Hm).
  { eapply Forall_impl; [exact Hg|]. cbn beta. auto. }
  exists bundles, positions. split_and!; [done|done|by eapply maximal_runs_concat|done].
Qed.

(** C34. A sort followed by a group_by on the same text column: the records are those
    received, and every value of the column has exactly one bundle. *)
Theorem sort_then_group_by pos n n' rows : column_kind rows pos KText →
  ∃ sorted bundles ks, run_pipe (mkSort [pos] []) n rows = (sorted, Ret tt) ∧
    run_pipe (mkGroupBy VNil [] 0 [pos]) n' sorted = (as_bundle <$> bundles, Ret tt) ∧
    concat bundles ≡ₚ rows ∧ Forall2 (bundle_of pos) bundles ks ∧ NoDup ks.
Proof.
  intros Hc. destruct (sort_runs [pos] [KText] n rows) as (sorted & Es & Hp & Hs); [by constructor|].
  destruct Hc as [Hpos Hc].
  destruct (group_by_runs [pos] n' sorted) as (bundles & Eg & Hm).
  { apply Forall_forall. intros row Hrow. rewrite Hp in Hrow. by apply (text_groupable rows). }
  apply (maximal_runs_ext _ (λ row, field row pos)) in Hm; [|intros row; by apply group_key_field].
  destruct (sorted_runs pos sorted bundles Hm Hs) as (ks & Hb & Hnd & _).
  { apply Forall_forall. intros row Hrow. rewrite Hp in Hrow. by apply Hc. }
  exists sorted, bundles, ks. split_and!; [done|done| |done|done]. by rewrite (maximal_runs_concat _ _ _ Hm).
Qed.
End built.
