(* ===== verification/AggregateLaws.v ===== *)
(** * The aggregate operator

    The record an aggregate sends holds, at the position of each of its columns, the
    count, the number of distinct values, the sum, the least or the greatest of the
    values of a column of the input. A column evaluator is seen through the cell it
    owns: what a record does to it and what the end does to it ([cell_law]). *)
From stdpp Require Import base list strings gmap.
From Stdlib Require Import ZArith Lia SpecFloat Ascii.
From S2P Require Import Prelude GoFloat GoText GoValue EvalOperators RdfCast EvalExpression.
From S2P Require Import Records HashKey Cleansing ColumnEval ColumnBuild Pipes.
Local Open Scope string_scope.
Local Open Scope Z_scope.

#[local] Set Warnings "-register-all".

Section aggregate.
Context `{GoArch} `{GoUnicode} `{GoFmt} `{GoZone} `{GoRegexp} `{GoUuid} `{GoClock} `{GoRand} `{DomainKeyEnv} `{GoDigits}.
Variable map_order : nat → list string → list string.

(** ** Columns that own a cell *)
Record cell := mkCell {
  c_eval : columnEval; c_out : Z; c_valid : record → Prop; c_ok : any → Prop; c_step : any → record → any; c_fin : any → any }.
Record cell_law (c : cell) : Prop := {
  cl_nil : c_ok c VNil;
  cl_keeps v row : c_ok c v → c_valid c row → c_ok c (c_step c v row);
  cl_update n cur row v : at_pos cur (c_out c) = Ret v → c_ok c v → c_valid c row →
    Update map_order (c_eval c) n cur (Some row) = (c_eval c, mkOutcome n (<[Z.to_nat (c_out c) := c_step c v row]> cur) (Ret tt));
  cl_done n cur v : at_pos cur (c_out c) = Ret v → c_ok c v →
    column_Done map_order (c_eval c) n cur = (c_eval c, mkOutcome n (<[Z.to_nat (c_out c) := c_fin c v]> cur) (Ret tt)) }.

(** The cells of a record have values the columns accept. *)
Definition cells_ok (cells : list cell) (cur : record) : Prop := Forall (λ c, ∃ v, at_pos cur (c_out c) = Ret v ∧ c_ok c v) cells.

(** A step over the columns: each changes its own cell by [f]. *)
Definition moved (cells : list cell) (f : cell → any → any) (cur cur' : record) : Prop :=
  Forall (λ c, ∀ v, at_pos cur (c_out c) = Ret v → at_pos cur' (c_out c) = Ret (f c v)) cells ∧
  ∀ pos, 0 ≤ pos → pos ∉ (c_out <$> cells) → at_pos cur' pos = at_pos cur pos.

Lemma at_pos_range row pos v : at_pos row pos = Ret v → in_range row pos = true.
Proof. unfold at_pos. by destruct (in_range row pos). Qed.
Lemma at_pos_nonneg row pos v : at_pos row pos = Ret v → 0 ≤ pos.
Proof. intros Hv%at_pos_range%in_range_iff. lia. Qed.

Section moves.
Variable f : cell → any → any.
Variable P : cell → Prop.
Variable run : list columnEval → nat → record → list columnEval * outcome.
Hypothesis run_nil : ∀ n cur, run [] n cur = ([], mkOutcome n cur (Ret tt)).
Hypothesis run_cons : ∀ c n cur v cells, cell_law c → P c → at_pos cur (c_out c) = Ret v → c_ok c v →
  run (c_eval c :: cells) n cur =
  let '(cells', o) := run cells n (<[Z.to_nat (c_out c) := f c v]> cur) in (c_eval c :: cells', o).

Lemma run_cells cells : Forall cell_law cells → Forall P cells → NoDup (c_out <$> cells) →
  ∀ n cur, cells_ok cells cur →
  ∃ cur', run (c_eval <$> cells) n cur = (c_eval <$> cells, mkOutcome n cur' (Ret tt)) ∧ moved cells f cur cur'.
Proof.
  intros Hl HP. induction Hl as [|c cells Hc Hl IH]; intros Hnd n cur Hok.
  { exists cur. split; [apply run_nil|]. split; [constructor|done]. }
  apply NoDup_cons in Hnd as [Hni Hnd]. apply Forall_cons in Hok as [(v & Hv & Hokv) Hok]. apply Forall_cons in HP as [HPc HP].
  set (cur1 := <[Z.to_nat (c_out c) := f c v]> cur). pose proof (at_pos_nonneg _ _ _ Hv) as Hpos.
  assert (Hkeep : ∀ pos, 0 ≤ pos → pos ≠ c_out c → at_pos cur1 pos = at_pos cur pos) by (intros pos ??; by apply at_pos_insert_ne).
  assert (Hother : ∀ c', c' ∈ cells → c_out c' ≠ c_out c).
  { intros c' Hc' E. apply Hni. rewrite <- E. by apply list_elem_of_fmap_2. }
  destruct (IH HP Hnd n cur1) as (cur' & E & Hm & Hrest).
  { apply Forall_forall. intros c' Hc'. rewrite Forall_forall in Hok. destruct (Hok c' Hc') as (v' & Hv' & ?).
    exists v'. split; [|done]. rewrite Hkeep; [done|by eapply at_pos_nonneg|by apply Hother]. }
  exists cur'. rewrite fmap_cons, (run_cons c n cur v) by done. fold cur1. rewrite E. split; [done|]. split.
  - constructor.
    + intros v' Hv'. rewrite Hrest by done. rewrite Hv in Hv'. injection Hv' as <-. apply at_pos_insert_eq. by eapply at_pos_range.
    + rewrite Forall_forall in *. intros c' Hc' v' Hv'. apply Hm; [done|]. rewrite Hkeep; [done|by eapply at_pos_nonneg|by apply Hother].
  - intros pos Hp Hni'. rewrite fmap_cons, not_elem_of_cons in Hni'. destruct Hni' as [Hne Hni']. rewrite Hrest by done. by apply Hkeep.
Qed.
End moves.

Lemma update_cells msg cells n cur row : Forall cell_law cells → NoDup (c_out <$> cells) → cells_ok cells cur →
  Forall (λ c, c_valid c row) cells →
  ∃ cur', update_list (Update map_order) msg (c_eval <$> cells) n cur (Some row) = (c_eval <$> cells, mkOutcome n cur' (Ret tt)) ∧
    moved cells (λ c v, c_step c v row) cur cur'.
Proof.
  intros Hl Hnd Hok Hv.
  apply (run_cells (λ c v, c_step c v row) (λ c, c_valid c row) (λ evals n cur, update_list (Update map_order) msg evals n cur (Some row)));
    [done| |done..].
  intros c n' cur' v rest Hc Hvc Hcv Hokv. cbn [update_list]. by rewrite (cl_update c Hc n' cur' row v).
Qed.
Lemma done_cells msg cells n cur : Forall cell_law cells → NoDup (c_out <$> cells) → cells_ok cells cur →
  ∃ cur', done_list (column_Done map_order) msg (c_eval <$> cells) n cur = (c_eval <$> cells, mkOutcome n cur' (Ret tt)) ∧
    moved cells c_fin cur cur'.
Proof.
  intros Hl Hnd Hok.
  apply (run_cells c_fin (λ _, True) (λ evals n cur, done_list (column_Done map_order) msg evals n cur)); [done| |done| |done..].
  - intros c n' cur' v rest Hc _ Hcv Hokv. cbn [done_list]. by rewrite (cl_done c Hc n' cur' v).
  - by apply Forall_true.
Qed.

(** The records of the source, from a record whose cells are [start]. *)
Lemma aggregate_feeds cells rows : Forall cell_law cells → NoDup (c_out <$> cells) →
  Forall (λ row, Forall (λ c, c_valid c row) cells) rows → ∀ n cur, cells_ok cells cur →
  ∃ cur', feed (H := aggregate_pipe map_order) (mkAggregate (c_eval <$> cells) cur) n rows = (mkAggregate (c_eval <$> cells) cur', n, [], Ret tt) ∧
    cells_ok cells cur' ∧ moved cells (λ c v, foldl (c_step c) v rows) cur cur'.
Proof.
  intros Hl Hnd Hrows. induction Hrows as [|row rows Hrow Hrows IH]; intros n cur Hok.
  { exists cur. split_and!; [done|done|]. split; [|done]. apply Forall_forall. by intros c _ v. }
  destruct (update_cells "while calling update on TransformationColumnEvaluator" cells n cur row Hl Hnd Hok Hrow) as (cur1 & E & Hm & Hrest).
  destruct (IH n cur1) as (cur' & Ef & Hok' & Hm' & Hrest').
  { unfold cells_ok in *. rewrite Forall_forall in *. intros c Hc. destruct (Hok c Hc) as (v & Hv & Hokv).
    exists (c_step c v row). split; [by apply Hm|]. apply (cl_keeps c); [by apply Hl|done|by apply Hrow]. }
  exists cur'. cbn [feed Apply aggregate_pipe]. unfold aggregate_Apply. cbn [at_columnEvaluators at_currentValues].
  rewrite E. cbn [po_res po_state po_n po_sent o_res o_n o_cur]. rewrite Ef. split_and!; [done|done|]. split.
  - rewrite Forall_forall in *. intros c Hc v Hv. apply Hm'; [done|]. by apply Hm.
  - intros pos Hp Hni. rewrite Hrest' by done. by apply Hrest.
Qed.

Lemma aggregate_runs cells nbr n rows : Forall cell_law cells → NoDup (c_out <$> cells) →
  Forall (λ c, 0 ≤ c_out c < Z.of_nat nbr) cells → Forall (λ row, Forall (λ c, c_valid c row) cells) rows →
  ∃ out, run_pipe (H := aggregate_pipe map_order) (mkAggregate (c_eval <$> cells) (new_record nbr)) n rows = ([out], Ret tt) ∧
    Forall (λ c, at_pos out (c_out c) = Ret (c_fin c (foldl (c_step c) VNil rows))) cells ∧
    (∀ pos, 0 ≤ pos < Z.of_nat nbr → pos ∉ (c_out <$> cells) → at_pos out pos = Ret VNil).
Proof.
  intros Hl Hnd Hr Hrows.
  assert (Hnew : ∀ pos, 0 ≤ pos < Z.of_nat nbr → at_pos (new_record nbr) pos = Ret VNil).
  { intros pos Hp. unfold at_pos, new_record. rewrite (proj2 (in_range_iff _ pos)) by (rewrite repeat_length; lia).
    destruct (repeat VNil nbr !! Z.to_nat pos) as [v|] eqn:E; [|done]. apply list_elem_of_lookup_2, list_elem_of_In, repeat_spec in E. by subst. }
  destruct (aggregate_feeds cells rows Hl Hnd Hrows n (new_record nbr)) as (cur & E & Hok & Hm & Hrest).
  { unfold cells_ok. rewrite Forall_forall in *. intros c Hc. exists VNil. split; [by apply Hnew, Hr|]. by apply (cl_nil c), Hl. }
  destruct (done_cells "while calling done on column evaluator from AggregateTransformationPipe" cells n cur Hl Hnd Hok) as (out & Ed & Hmd & Hrd).
  exists out. unfold run_pipe. rewrite E. cbn [pipe_Done aggregate_pipe]. unfold aggregate_Done. cbn [at_columnEvaluators at_currentValues].
  rewrite Ed. cbn [o_res o_cur o_n po_sent po_res]. split_and!; [done| |].
  - rewrite Forall_forall in *. intros c Hc. apply Hmd; [done|]. apply Hm; [done|]. by apply Hnew, Hr.
  - intros pos Hp Hni. rewrite Hrd, Hrest by (done || lia). by apply Hnew.
Qed.

(** ** The aggregates and what they compute *)
Inductive agg := AggCount | AggDistinct | AggSum | AggMin | AggMax.
Definition agg_eval (a : agg) (i o : Z) : columnEval :=
  match a with
  | AggCount => countColumnEval i o None
  | AggDistinct => distinctCountColumnEval i o None
  | AggSum => sumColumnEval i o None None
  | AggMin => minMaxColumnEval i o None true None
  | AggMax => minMaxColumnEval i o None false None
  end.

(** The value of a record: a negative position stands for the record itself. *)
Definition agg_value (i : Z) (row : record) : any := if i <? 0 then VInt 0 else default VNil (row !! Z.to_nat i).
(** The values of the column that are not null, and those that are integers. *)
Definition present (i : Z) (rows : list record) : list any := List.filter (λ v, negb (is_nil v)) (agg_value i <$> rows).
Definition int_of (v : any) : option Z := match v with VInt64 z => Some z | _ => None end.

Definition agg_result (a : agg) (i : Z) (rows : list record) : any :=
  let vs := present i rows in
  match a with
  | AggCount => match vs with [] => VNil | _ => VInt64 (i64 (Z.of_nat (length vs))) end
  | AggDistinct => VInt64 (Z.of_nat (length (remove_dups (distinct_text <$> vs))))
  | AggSum => match omap int_of vs with [] => VNil | zs => VInt64 (i64 (foldr Z.add 0 zs)) end
  | AggMin => match omap int_of vs with [] => VNil | z :: zs => VInt64 (foldr Z.min z zs) end
  | AggMax => match omap int_of vs with [] => VNil | z :: zs => VInt64 (foldr Z.max z zs) end
  end.

(** The records an aggregate takes: the position is one of theirs, and the value of a
    sum, min or max is null or an int64. *)
Definition agg_valid (a : agg) (i : Z) (row : record) : Prop :=
  i < Z.of_nat (length row) ∧
  match a with
  | AggCount => True
  | AggDistinct => 0 ≤ i
  | _ => agg_value i row = VNil ∨ ∃ z, agg_value i row = VInt64 z ∧ in_i64 z
  end.

(** *** The cells *)
Definition agg_ok (a : agg) (v : any) : Prop :=
  v = VNil ∨ match a with AggDistinct => ∃ ks, v = VStrSet ks | _ => ∃ z, v = VInt64 z ∧ in_i64 z end.
Definition agg_combine (a : agg) (v x : any) : any :=
  match a, v, x with
  | AggCount, VInt64 c, _ => VInt64 (i64 (c + 1))
  | AggCount, _, _ => VInt64 1
  | AggDistinct, VStrSet ks, _ => VStrSet (if bool_decide (distinct_text x ∈ ks) then ks else (ks ++ [distinct_text x])%list)
  | AggDistinct, _, _ => VStrSet [distinct_text x]
  | AggSum, VInt64 c, VInt64 z => VInt64 (i64 (c + z))
  | AggMin, VInt64 c, VInt64 z => VInt64 (Z.min c z)
  | AggMax, VInt64 c, VInt64 z => VInt64 (Z.max c z)
  | _, _, _ => x
  end.
Definition agg_step (a : agg) (i : Z) (v : any) (row : record) : any :=
  if is_nil (agg_value i row) then v else agg_combine a v (agg_value i row).
Definition agg_fin (a : agg) (v : any) : any :=
  match a, v with AggDistinct, VStrSet ks => VInt64 (Z.of_nat (length ks)) | AggDistinct, _ => VInt64 0 | _, _ => v end.
Definition agg_cell (a : agg) (i o : Z) : cell := mkCell (agg_eval a i o) o (agg_valid a i) (agg_ok a) (agg_step a i) (agg_fin a).

Lemma insert_same row pos v : at_pos row pos = Ret v → <[Z.to_nat pos := v]> row = row.
Proof. intros [_ Hl]%at_pos_Ret. by apply list_insert_id. Qed.
Lemma write_at n cur pos v w : at_pos cur pos = Ret v → written n cur pos w = mkOutcome n (<[Z.to_nat pos := w]> cur) (Ret tt).
Proof. intros Hr%at_pos_range. unfold written. by rewrite set_pos_in. Qed.

(** The input value, and the skipped record. *)
Definition starred (a : agg) : bool := match a with AggCount => true | _ => false end.
Lemma agg_position a i row : agg_valid a i row → starred a = true ∨ 0 ≤ i.
Proof.
  intros [_ Hv]. destruct a; [by left|by right|right..]; revert Hv; unfold agg_value; destruct (Z.ltb_spec i 0); intros [|(z & ? & _)]; (done || lia).
Qed.
Lemma aggregate_value a i row n cur combine : agg_valid a i row →
  aggregate (starred a) i None n cur (Some row) combine =
  if is_nil (agg_value i row) then (None, false, skipped n cur) else (None, true, combine n (agg_value i row)).
Proof.
  intros Hv. pose proof (agg_position a i row Hv) as Hp. destruct Hv as [Hi _].
  unfold aggregate, agg_value, input_of. change (default cur (Some row)) with row.
  destruct (Z.ltb_spec i 0); [by destruct Hp as [->|]; [|lia]|rewrite andb_false_r].
  unfold at_pos. rewrite (proj2 (in_range_iff row i)) by lia. by destruct (default VNil (row !! Z.to_nat i)).
Qed.

Lemma agg_cell_law a i o : cell_law (agg_cell a i o).
Proof.
  split; cbn [agg_cell c_eval c_out c_valid c_ok c_step c_fin].
  - by left.
  - intros v row Hok [_ Hv]. unfold agg_step. destruct (is_nil (agg_value i row)) eqn:Hn; [done|]. right.
    destruct a; cbn [agg_combine].
    + destruct Hok as [->|(z & -> & _)]; eexists; (split; [done|]); first [by auto with go|width; lia].
    + destruct Hok as [->|(ks & ->)]; eauto.
    + destruct Hv as [Hv|(z & Hv & Hz)]; [by rewrite Hv in Hn|]. rewrite Hv. destruct Hok as [->|(c & -> & _)]; eexists; (split; [done|]); first [by auto with go|width; lia].
    + destruct Hv as [Hv|(z & Hv & Hz)]; [by rewrite Hv in Hn|]. rewrite Hv. destruct Hok as [->|(c & -> & Hc)]; eexists; (split; [done|]); [done|]. width. lia.
    + destruct Hv as [Hv|(z & Hv & Hz)]; [by rewrite Hv in Hn|]. rewrite Hv. destruct Hok as [->|(c & -> & Hc)]; eexists; (split; [done|]); [done|]. width. lia.
  - intros n cur row v Hat Hok Hvalid. destruct (Hvalid) as [Hi Hv]. unfold agg_step.
    pose proof (aggregate_value a i row n cur) as Hag. specialize (Hag) with (1 := Hvalid).
    destruct a; cbn [agg_eval Update starred] in *; rewrite Hag; destruct (is_nil (agg_value i row)) eqn:Hn;
      try (by rewrite insert_same); rewrite Hat; cbn [res_bind].
    + destruct Hok as [->|(c & -> & _)]; cbn [count_value write_res]; by erewrite write_at.
    + destruct Hok as [->|(ks & ->)]; cbn [distinct_value write_res]; by erewrite write_at.
    + destruct Hv as [Hv|(z & Hv & Hz)]; [by rewrite Hv in Hn|]. rewrite Hv.
      destruct Hok as [->|(c & -> & _)]; cbn [add cast_with write_res]; by erewrite write_at.
    + destruct Hv as [Hv|(z & Hv & Hz)]; [by rewrite Hv in Hn|]. rewrite Hv.
      destruct Hok as [->|(c & -> & _)]; cbn; by erewrite write_at.
    + destruct Hv as [Hv|(z & Hv & Hz)]; [by rewrite Hv in Hn|]. rewrite Hv.
      destruct Hok as [->|(c & -> & _)]; cbn; by erewrite write_at.
  - intros n cur v Hat Hok. destruct a; unfold column_Done; cbn [agg_eval depth Done agg_fin]; try (by rewrite insert_same).
    rewrite Hat. cbn [res_bind]. destruct Hok as [->|(ks & ->)]; cbn [distinct_done write_res]; by erewrite write_at.
Qed.

(** *** The folds *)
Lemma fold_present a i rows v : foldl (agg_step a i) v rows = foldl (agg_combine a) v (present i rows).
Proof.
  revert v. induction rows as [|row rows IH]; intros v; [done|]. cbn [foldl]. rewrite IH. unfold present, agg_step.
  rewrite fmap_cons. cbn [List.filter]. by destruct (is_nil (agg_value i row)).
Qed.
Lemma i64_add_i64 a b : i64 (i64 a + b) = i64 (a + b).
Proof.
  apply i64_unique; [apply i64_range|]. destruct (i64_congr a) as [k Hk], (i64_congr (a + b)) as [k' Hk'].
  exists (k' - k). rewrite Hk, Hk'. lia.
Qed.
Lemma i64_of_i64 z : i64 (i64 z) = i64 z.
Proof. apply i64_small, i64_range. Qed.

Lemma fold_count vs c : in_i64 c → foldl (agg_combine AggCount) (VInt64 c) vs = VInt64 (i64 (c + Z.of_nat (length vs))).
Proof.
  revert c. induction vs as [|v vs IH]; intros c Hc; cbn [foldl length agg_combine].
  - rewrite i64_small; [do 2 f_equal; lia|width; lia].
  - rewrite IH, i64_add_i64 by auto with go. do 2 f_equal. lia.
Qed.
Lemma fold_sum vs zs c : vs = VInt64 <$> zs → in_i64 c → foldl (agg_combine AggSum) (VInt64 c) vs = VInt64 (i64 (c + foldr Z.add 0 zs)).
Proof.
  intros ->. revert c. induction zs as [|z zs IH]; intros c Hc; cbn [foldl fmap list_fmap foldr agg_combine].
  - rewrite i64_small; [do 2 f_equal; lia|width; lia].
  - rewrite IH, i64_add_i64 by auto with go. do 2 f_equal. lia.
Qed.
Lemma fold_min vs zs c : vs = VInt64 <$> zs → foldl (agg_combine AggMin) (VInt64 c) vs = VInt64 (foldr Z.min c zs).
Proof.
  intros ->. revert c. induction zs as [|z zs IH]; intros c; cbn [foldl fmap list_fmap foldr agg_combine]; [done|].
  rewrite IH. f_equal. clear IH. induction zs as [|y zs IH]; cbn [foldr]; lia.
Qed.
Lemma fold_max vs zs c : vs = VInt64 <$> zs → foldl (agg_combine AggMax) (VInt64 c) vs = VInt64 (foldr Z.max c zs).
Proof.
  intros ->. revert c. induction zs as [|z zs IH]; intros c; cbn [foldl fmap list_fmap foldr agg_combine]; [done|].
  rewrite IH. f_equal. clear IH. induction zs as [|y zs IH]; cbn [foldr]; lia.
Qed.
Lemma fold_distinct vs ks : NoDup ks → ∃ ks', foldl (agg_combine AggDistinct) (VStrSet ks) vs = VStrSet ks' ∧ NoDup ks' ∧
  ∀ t, t ∈ ks' ↔ t ∈ ks ∨ t ∈ (distinct_text <$> vs).
Proof.
  revert ks. induction vs as [|v vs IH]; intros ks Hnd; cbn [foldl fmap list_fmap agg_combine].
  { exists ks. split_and!; [done|done|]. intros t. set_solver. }
  case_bool_decide as Hin.
  - destruct (IH ks Hnd) as (ks' & -> & ? & Hk). exists ks'. split_and!; [done|done|]. intros t. rewrite Hk. set_solver.
  - destruct (IH (ks ++ [distinct_text v])%list) as (ks' & -> & ? & Hk).
    { apply NoDup_app. split_and!; [done|set_solver|apply NoDup_singleton]. }
    exists ks'. split_and!; [done|done|]. intros t. rewrite Hk. set_solver.
Qed.

(** The values of a column of int64. *)
Lemma present_ints i rows a : Forall (agg_valid a i) rows → (a ≠ AggCount ∧ a ≠ AggDistinct) →
  ∃ zs, present i rows = VInt64 <$> zs ∧ Forall in_i64 zs ∧ omap int_of (present i rows) = zs.
Proof.
  intros Hv Ha. induction Hv as [|row rows Hrow _ (zs & Ez & Hz & Eo)]; [by exists []; split_and!|].
  destruct Hrow as [_ Hrow]. unfold present in *. rewrite fmap_cons. cbn [List.filter].
  assert (agg_value i row = VNil ∨ ∃ z, agg_value i row = VInt64 z ∧ in_i64 z) as [->|(z & -> & Hzi)] by by destruct a, Ha.
  - by exists zs.
  - exists (z :: zs). cbn [is_nil negb]. rewrite Ez in *. split_and!; [done|by constructor|].
    cbn [omap list_omap int_of]. f_equal. exact Eo.
Qed.

Lemma agg_folds a i rows : Forall (agg_valid a i) rows → agg_fin a (foldl (agg_step a i) VNil rows) = agg_result a i rows.
Proof.
  intros Hv. rewrite fold_present. unfold agg_result. destruct a.
  - destruct (present i rows) as [|v vs]; [done|]. cbn [foldl agg_combine agg_fin length].
    rewrite fold_count by (width; lia). do 2 f_equal. lia.
  - destruct (present i rows) as [|v vs]; [done|]. cbn [foldl agg_combine].
    destruct (fold_distinct vs [distinct_text v]) as (ks & -> & Hnd & Hk); [apply NoDup_singleton|]. cbn [agg_fin]. do 2 f_equal.
    apply Permutation_length, NoDup_Permutation; [done|apply NoDup_remove_dups|]. intros t. rewrite Hk, elem_of_remove_dups. set_solver.
  - destruct (present_ints i rows AggSum Hv) as (zs & Ez & Hz & ->); [done|]. rewrite Ez. destruct zs as [|z zs]; [done|].
    apply Forall_cons in Hz as [Hz _]. cbn [fmap list_fmap foldl agg_combine agg_fin]. by rewrite (fold_sum _ zs) by done.
  - destruct (present_ints i rows AggMin Hv) as (zs & Ez & Hz & ->); [done|]. rewrite Ez. destruct zs as [|z zs]; [done|].
    cbn [fmap list_fmap foldl agg_combine agg_fin]. by rewrite (fold_min _ zs) by done.
  - destruct (present_ints i rows AggMax Hv) as (zs & Ez & Hz & ->); [done|]. rewrite Ez. destruct zs as [|z zs]; [done|].
    cbn [fmap list_fmap foldl agg_combine agg_fin]. by rewrite (fold_max _ zs) by done.
Qed.

(** A column of an aggregate: the function, its input position, its output position. *)
Record agg_column := mkAggColumn { ac_agg : agg; ac_in : Z; ac_out : Z }.

(** C6. The aggregate operator sends one record after its last input. Its columns have no where
    clause and no cast, and distinct positions in the record; the values under a sum, a min or
    a max are [int64] or null. Then a count column holds the number of values of its input
    column that are not null (of records for position -1), and null, not 0, when there is none;
    a distinct count column the number of their distinct texts; a sum column their sum modulo
    2^64, a min or a max column the least or the greatest, and null when there is none; and a
    position without aggregate is null. *)
Theorem aggregate_results cols nbr n rows :
  NoDup (ac_out <$> cols) → Forall (λ c, 0 ≤ ac_out c < Z.of_nat nbr) cols →
  Forall (λ row, Forall (λ c, agg_valid (ac_agg c) (ac_in c) row) cols) rows →
  ∃ out, run_pipe (H := aggregate_pipe map_order) (mkAggregate ((λ c, agg_eval (ac_agg c) (ac_in c) (ac_out c)) <$> cols) (new_record nbr)) n rows
      = ([out], Ret tt) ∧
    Forall (λ c, at_pos out (ac_out c) = Ret (agg_result (ac_agg c) (ac_in c) rows)) cols ∧
    (∀ pos, 0 ≤ pos < Z.of_nat nbr → pos ∉ (ac_out <$> cols) → at_pos out pos = Ret VNil).
Proof.
  intros Hnd Hr Hv. set (cellof := λ c, agg_cell (ac_agg c) (ac_in c) (ac_out c)).
  assert (Eo : c_out <$> (cellof <$> cols) = ac_out <$> cols) by by rewrite <- list_fmap_compose.
  assert (Ee : c_eval <$> (cellof <$> cols) = (λ c, agg_eval (ac_agg c) (ac_in c) (ac_out c)) <$> cols) by by rewrite <- list_fmap_compose.
  destruct (aggregate_runs (cellof <$> cols) nbr n rows) as (out & E & Hc & Hrest).
  - apply Forall_fmap, Forall_true. intros c. apply agg_cell_law.
  - by rewrite Eo.
  - by apply Forall_fmap.
  - eapply Forall_impl; [exact Hv|]. intros row Hrow. by apply Forall_fmap.
  - exists out. rewrite Ee, Eo in *. split_and!; [done| |done]. apply Forall_fmap in Hc. rewrite Forall_forall in *. intros c Hin.
    specialize (Hc c Hin). cbn in Hc. rewrite Hc. f_equal. apply agg_folds. eapply Forall_impl; [exact Hv|].
    intros row Hrow. rewrite Forall_forall in Hrow. by apply Hrow.
Qed.
End aggregate.
