(* ===== verification/MapRecordLaws.v ===== *)
(** * Errors of the map_record operator

    The policy on errors over a whole source: which rows are sent, when the operator stops,
    what is counted and what is reported to the error channel, all told from what the columns
    make of each record on their own. *)
From stdpp Require Import base list strings gmap.
From Stdlib Require Import ZArith Lia SpecFloat Ascii.
From S2P Require Import Prelude GoFloat GoText GoValue EvalOperators RdfCast EvalExpression.
From S2P Require Import Records HashKey Cleansing ColumnEval ColumnBuild Pipes.
Local Open Scope string_scope.
Local Open Scope Z_scope.

#[local] Set Warnings "-register-all".

Section map_record.
Context `{GoArch} `{GoUnicode} `{GoFmt} `{GoZone} `{GoRegexp} `{GoUuid} `{GoClock} `{GoRand} `{DomainKeyEnv} `{GoDigits}.
Variable map_order : nat → list string → list string.

(** ** What the columns make of a record, without the policy

    Every column evaluator is applied in turn; the errors are kept and the next column is
    evaluated. Only a panic stops. *)
Fixpoint try_columns (nodes : list columnEval) (n : nat) (cur : record) (input : option record) : list columnEval * nat * record * list string * res unit :=
  match nodes with
  | [] => ([], n, cur, [], Ret tt)
  | node :: nodes =>
      let '(node', o) := Update map_order node n cur input in
      match o_res o with
      | Ret _ => let '(nodes', n, cur, errs, r) := try_columns nodes (o_n o) (o_cur o) input in (node' :: nodes', n, cur, errs, r)
      | Fail msg => let '(nodes', n, cur, errs, r) := try_columns nodes (o_n o) (o_cur o) input in (node' :: nodes', n, cur, msg :: errs, r)
      | r => (node' :: nodes, o_n o, o_cur o, [], r)
      end
  end.
(** A record: the errors of its columns, how the evaluators end, and the mapped row. *)
Record mapped := mkMapped { m_errors : list string; m_ends : res unit; m_row : res record }.
Fixpoint mapping (ctx : MapRecordTransformationPipe) (nodes : list columnEval) (n : nat) (rows : list record) : list mapped :=
  match rows with
  | [] => []
  | input :: rows =>
      let nbrOutput := length (oc_ConfigColumns (mr_outputCh ctx)) in
      let '(row, inp) := target (mr_newRecord ctx) nbrOutput input in
      let '(nodes, n, row, errs, r) := try_columns nodes n row inp in
      mkMapped errs r (class_columns ctx (ComputeRowHash input (mr_currentSourcePeriod ctx)) (resized (mr_newRecord ctx) nbrOutput row)) :: mapping ctx nodes n rows
  end.

(** ** The policy *)
Definition no_error (m : mapped) : bool := bool_decide (m_errors m = []).
(** The record is sent. *)
Definition is_sent (policy : on_error) (m : mapped) : bool := match policy with OnErrorDrop => no_error m | _ => true end.
(** The operator goes on with the next record. *)
Definition goes_on (policy : on_error) (m : mapped) : bool :=
  is_ret (m_ends m) && match policy with
  | OnErrorPassThrough => is_ret (m_row m)
  | OnErrorDrop => negb (no_error m) || is_ret (m_row m)
  | OnErrorFail => no_error m && is_ret (m_row m)
  end.
(** The errors that are counted: the operator that is to fail does so at the first. *)
Definition counted (policy : on_error) (m : mapped) : list string := match policy with OnErrorFail => take 1 (m_errors m) | _ => m_errors m end.
(** The records before the one that stops the operator, and with it. *)
Fixpoint through (policy : on_error) (ms : list mapped) : list mapped :=
  match ms with [] => [] | m :: ms => if goes_on policy m then m :: through policy ms else [] end.
Fixpoint reached (policy : on_error) (ms : list mapped) : list mapped :=
  match ms with [] => [] | m :: ms => m :: if goes_on policy m then reached policy ms else [] end.

(** The count and the reports of a list of errors. *)
Definition logged (ctx : MapRecordTransformationPipe) (total : list string) (count : Z) (errors : list string) : Prop :=
  count = Z.of_nat (length total) ∧ errors = if mr_hasErrorChannel ctx then take (Z.to_nat (mr_maxErrorCount ctx)) total else [].
Lemma logged_one ctx total count errors msg : logged ctx total count errors →
  logged ctx (total ++ [msg]) (count + 1) (if (count + 1 <=? mr_maxErrorCount ctx) && mr_hasErrorChannel ctx then (errors ++ [msg])%list else errors).
Proof.
  intros [-> ->]. split; [rewrite length_app; cbn; lia|]. destruct (mr_hasErrorChannel ctx); [|by rewrite andb_false_r]. rewrite andb_true_r.
  destruct (Z.leb_spec (Z.of_nat (length total) + 1) (mr_maxErrorCount ctx)).
  - rewrite (take_ge total), (take_ge (total ++ [msg])) by (rewrite ?length_app; cbn; lia). done.
  - by rewrite take_app_le by lia.
Qed.

Lemma try_columns_length nodes : ∀ n cur input nodes' n' cur' errs r, try_columns nodes n cur input = (nodes', n', cur', errs, r) →
  length nodes' = length nodes ∧ (length errs ≤ length nodes)%nat.
Proof.
  induction nodes as [|node nodes IH]; intros n cur input nodes' n' cur' errs r; cbn [try_columns]; [by intros [= <- _ _ <- _]|].
  destruct (Update map_order node n cur input) as [node' o]. destruct (try_columns nodes (o_n o) (o_cur o) input) as [[[[nodes2 n2] cur2] errs2] r2] eqn:E. apply IH in E as [? ?].
  destruct (o_res o); intros [= <- _ _ <- _]; cbn [length]; lia.
Qed.
(** The columns under the policy. *)
Lemma map_columns_spec ctx nodes : ∀ n cur input h count errors total nodes' n' cur' errs r,
  try_columns nodes n cur input = (nodes', n', cur', errs, r) → logged ctx total count errors → count + Z.of_nat (length nodes) < two63 →
  if bool_decide (mr_onError ctx = OnErrorFail) && negb (bool_decide (errs = []))
  then ∃ nodes1 n1 cur1 h1 count1 errors1 r1, map_columns map_order ctx nodes n cur input h count errors = (nodes1, n1, cur1, h1, count1, errors1, r1) ∧
    is_ret r1 = false ∧ logged ctx (total ++ take 1 errs) count1 errors1
  else ∃ count1 errors1, map_columns map_order ctx nodes n cur input h count errors = (nodes', n', cur', h || negb (bool_decide (errs = [])), count1, errors1, r) ∧
    logged ctx (total ++ errs) count1 errors1.
Proof.
  induction nodes as [|node nodes IH]; intros n cur input h count errors total nodes' n' cur' errs r; cbn [try_columns map_columns].
  { intros [= <- <- <- <- <-] Hl _. rewrite andb_false_r, orb_false_r. exists count, errors. by rewrite app_nil_r. }
  destruct (Update map_order node n cur input) as [node' o]. cbn [length]. intros E Hl Hb. destruct (o_res o) as [u|msg|msg|].
  - destruct (try_columns nodes (o_n o) (o_cur o) input) as [[[[nodes2 n2] cur2] errs2] r2] eqn:E2. injection E as <- <- <- <- <-.
    specialize (IH _ _ _ h count errors total _ _ _ _ _ E2 Hl ltac:(lia)). destruct (_ && _); [destruct IH as (? & ? & ? & ? & ? & ? & ? & -> & ? & ?)|destruct IH as (c & e & -> & ?)].
    + eexists _, _, _, _, _, _, _. by split_and!.
    + by exists c, e.
  - destruct (try_columns nodes (o_n o) (o_cur o) input) as [[[[nodes2 n2] cur2] errs2] r2] eqn:E2. injection E as <- <- <- <- <-.
    assert (Hc : 0 ≤ count) by (destruct Hl; lia). rewrite (i64_small (count + 1)) by (width; lia). pose proof (logged_one ctx total count errors msg Hl) as Hl1.
    set (errors1 := if (count + 1 <=? mr_maxErrorCount ctx) && mr_hasErrorChannel ctx then (errors ++ [msg])%list else errors) in *.
    change (bool_decide (msg :: errs2 = [])) with false. cbn [negb]. rewrite andb_true_r, orb_true_r. specialize (IH _ _ _ true (count + 1) errors1 _ _ _ _ _ _ E2 Hl1 ltac:(lia)).
    case_bool_decide as Hp; [eexists _, _, _, _, _, _, _; split_and!; [reflexivity|done|exact Hl1]|]. cbn [andb] in IH. destruct IH as (c & e & -> & Hl2). rewrite <- app_assoc in Hl2. by exists c, e.
  - injection E as <- <- <- <- <-. rewrite andb_false_r, orb_false_r. exists count, errors. by rewrite app_nil_r.
  - injection E as <- <- <- <- <-. rewrite andb_false_r, orb_false_r. exists count, errors. by rewrite app_nil_r.
Qed.

Definition same_setup (ctx ctx' : MapRecordTransformationPipe) : Prop :=
  mr_outputCh ctx' = mr_outputCh ctx ∧ mr_newRecord ctx' = mr_newRecord ctx ∧ mr_onError ctx' = mr_onError ctx ∧ mr_maxErrorCount ctx' = mr_maxErrorCount ctx ∧
  mr_hasErrorChannel ctx' = mr_hasErrorChannel ctx ∧ mr_currentSourcePeriod ctx' = mr_currentSourcePeriod ctx.
Lemma mapping_setup ctx ctx' rows : same_setup ctx ctx' → ∀ nodes n, mapping ctx' nodes n rows = mapping ctx nodes n rows.
Proof.
  intros (E1 & E2 & _ & _ & _ & E6). induction rows as [|row rows IH]; intros nodes n; [done|]. cbn [mapping]. rewrite E1, E2, E6. destruct (target _ _ _). destruct (try_columns _ _ _ _) as [[[[? ?] ?] ?] ?].
  unfold class_columns. rewrite E1. f_equal. apply IH.
Qed.
Lemma logged_setup ctx ctx' total count errors : same_setup ctx ctx' → logged ctx' total count errors ↔ logged ctx total count errors.
Proof. intros (_ & _ & _ & E4 & E5 & _). unfold logged. by rewrite E4, E5. Qed.

(** One record. *)
Lemma map_record_step ctx n input total : logged ctx total (mr_errorCount ctx) (mr_errors ctx) → mr_errorCount ctx + Z.of_nat (length (mr_columnEvaluators ctx)) < two63 →
  let o := map_record_Apply map_order ctx n input in
  ∃ m nodes' n', (∀ rows, mapping ctx (mr_columnEvaluators ctx) n (input :: rows) = m :: mapping ctx nodes' n' rows) ∧ same_setup ctx (po_state o) ∧
    logged ctx (total ++ counted (mr_onError ctx) m) (mr_errorCount (po_state o)) (mr_errors (po_state o)) ∧
    (length (m_errors m) ≤ length (mr_columnEvaluators ctx))%nat ∧
    if goes_on (mr_onError ctx) m
    then po_res o = Ret tt ∧ mr_columnEvaluators (po_state o) = nodes' ∧ po_n o = n' ∧ length nodes' = length (mr_columnEvaluators ctx) ∧
      Ret <$> po_sent o = (if is_sent (mr_onError ctx) m then [m_row m] else [])
    else is_ret (po_res o) = false ∧ po_sent o = [].
Proof.
  intros Hl Hb. unfold map_record_Apply. cbn [mapping]. destruct (target _ _ _) as [row inp].
  destruct (try_columns (mr_columnEvaluators ctx) n row inp) as [[[[nodes' n'] row'] errs] r] eqn:E. destruct (try_columns_length _ _ _ _ _ _ _ _ _ E) as [Hlen Hle].
  pose proof (map_columns_spec ctx _ _ _ _ false _ _ _ _ _ _ _ _ E Hl Hb) as Hs. set (rowr := class_columns ctx _ _). set (m := mkMapped errs r rowr). exists m, nodes', n'. split; [done|].
  destruct (bool_decide (mr_onError ctx = OnErrorFail) && negb (bool_decide (errs = []))) eqn:Ef.
  - apply andb_true_iff in Ef as [Ef%bool_decide_eq_true He%negb_true_iff]. destruct Hs as (nodes1 & n1 & cur1 & h1 & count1 & errors1 & r1 & -> & Hr1 & Hl1).
    assert (goes_on (mr_onError ctx) m = false) as -> by (rewrite Ef; unfold goes_on, no_error; cbn; by rewrite He, andb_false_r).
    assert (counted (mr_onError ctx) m = take 1 errs) as -> by (by rewrite Ef). by destruct r1.
  - destruct Hs as (count1 & errors1 & -> & Hl1). rewrite orb_false_l.
    assert (counted (mr_onError ctx) m = errs) as ->.
    { destruct (mr_onError ctx); [done|done|]. rewrite bool_decide_eq_true_2 in Ef by done. cbn [andb] in Ef. apply negb_false_iff, bool_decide_eq_true in Ef. unfold counted. cbn. by rewrite Ef. }
    set (drop := negb (bool_decide (errs = [])) && bool_decide (mr_onError ctx = OnErrorDrop)).
    assert (goes_on (mr_onError ctx) m = is_ret r && (drop || is_ret rowr)) as ->.
    { unfold goes_on, no_error, drop. cbn [m m_errors m_ends m_row]. destruct (mr_onError ctx); cbn [andb]; rewrite ?andb_true_r, ?andb_false_r in *; cbn in *; try done.
      all: rewrite ?andb_true_r, ?andb_false_r; try done. apply negb_false_iff in Ef. by rewrite Ef. }
    assert (is_sent (mr_onError ctx) m = negb drop) as ->.
    { unfold is_sent, no_error, drop. cbn [m m_errors]. destruct (mr_onError ctx); cbn; rewrite ?andb_true_r, ?andb_false_r; cbn; rewrite ?negb_involutive; done. }
    destruct r as [[]|e|e|]; cbn [is_ret andb]; [|done..]. destruct drop; cbn [orb negb]; [done|]. fold rowr. by destruct rowr.
Qed.

(** A whole source. *)
Lemma feed_spec rows : ∀ ctx n ctx' n' sent r total, logged ctx total (mr_errorCount ctx) (mr_errors ctx) →
  mr_errorCount ctx + Z.of_nat (length rows) * Z.of_nat (length (mr_columnEvaluators ctx)) < two63 →
  feed (H := map_record_pipe map_order) ctx n rows = (ctx', n', sent, r) →
  let ms := mapping ctx (mr_columnEvaluators ctx) n rows in let policy := mr_onError ctx in
  Ret <$> sent = m_row <$> List.filter (is_sent policy) (through policy ms) ∧ (r = Ret tt ↔ forallb (goes_on policy) ms = true) ∧
  logged ctx (total ++ concat (counted policy <$> reached policy ms)) (mr_errorCount ctx') (mr_errors ctx').
Proof.
  induction rows as [|row rows IH]; intros ctx n ctx' n' sent r total Hl Hb; cbn [feed].
  { intros [= <- <- <- <-]. cbn. by rewrite app_nil_r. }
  cbn [length] in Hb. destruct (map_record_step ctx n row total Hl ltac:(nia)) as (m & nodes' & n1 & Em & Hset & Hl1 & Hle & Hstep). cbn [Apply map_record_pipe].
  set (o := map_record_Apply map_order ctx n row) in *. rewrite Em. cbn [through reached forallb]. cbv zeta. destruct (goes_on (mr_onError ctx) m) eqn:Eg.
  - destruct Hstep as (Er & En & Enn & Hlen & Hsent). rewrite Er. destruct (feed (po_state o) (po_n o) rows) as [[[s2 n2] sent2] r2] eqn:Ef. intros [= <- <- <- <-].
    assert (Hcount : mr_errorCount (po_state o) ≤ mr_errorCount ctx + Z.of_nat (length (mr_columnEvaluators ctx))).
    { destruct Hl as [-> _], Hl1 as [-> _]. rewrite length_app. unfold counted. destruct (mr_onError ctx); rewrite ?length_take; lia. }
    destruct (IH _ _ _ _ _ _ _ (proj2 (logged_setup ctx (po_state o) _ _ _ Hset) Hl1) ltac:(rewrite En, Hlen; nia) Ef) as (Hs2 & Hr2 & Hl2).
    destruct (Hset) as (_ & _ & Ep & _). rewrite En, Enn, Ep, (mapping_setup ctx (po_state o) rows Hset) in *. cbn [andb fmap list_fmap concat List.filter]. split; [|split; [exact Hr2|]].
    + rewrite fmap_app, Hsent, Hs2. by destruct (is_sent (mr_onError ctx) m).
    + apply (logged_setup ctx (po_state o) _ _ _ Hset) in Hl2. by rewrite <- app_assoc in Hl2.
  - destruct Hstep as [Er Es]. cbn [andb fmap list_fmap concat]. rewrite app_nil_r. destruct (po_res o); [done| | |]; intros [= <- <- <- <-]; rewrite Es; split_and!; done.
Qed.

(** C35. Column errors of the map_record operator. Take what the columns make of each record on
    their own (the errors, whether an evaluator panics, the mapped row). Under drop exactly the
    rows of the records without a column error are sent, under pass-through and fail the rows
    of all records, in order, up to the record that stops the operator. It stops at an
    evaluator that panics, at a row whose class columns cannot be set, and under fail at a
    record with a column error; and it succeeds exactly when no record stops it. Every error of
    a record it reached is counted (under fail, the first), and the error channel, when there
    is one, receives the first of them up to the configured maximum, each once. *)
Theorem map_record_errors ctx n rows ctx' n' sent r :
  mr_errorCount ctx = 0 → mr_errors ctx = [] →
  Z.of_nat (length rows) * Z.of_nat (length (mr_columnEvaluators ctx)) < two63 →
  feed (H := map_record_pipe map_order) ctx n rows = (ctx', n', sent, r) →
  let policy := mr_onError ctx in let ms := mapping ctx (mr_columnEvaluators ctx) n rows in let errors := concat (counted policy <$> reached policy ms) in
  Ret <$> sent = m_row <$> List.filter (is_sent policy) (through policy ms) ∧ (r = Ret tt ↔ forallb (goes_on policy) ms = true) ∧
  mr_errorCount ctx' = Z.of_nat (length errors) ∧
  mr_errors ctx' = (if mr_hasErrorChannel ctx then take (Z.to_nat (mr_maxErrorCount ctx)) errors else []).
Proof.
  intros Hz He Hb E policy ms errors. destruct (feed_spec rows ctx n ctx' n' sent r []) as (Hs & Hr & Hl).
  - split; [by rewrite Hz|]. rewrite He. by destruct (mr_hasErrorChannel ctx); rewrite ?take_nil.
  - by rewrite Hz.
  - exact E.
  - done.
Qed.
End map_record.
