(* ===== verification/MergePipe.v ===== *)
(** * The merge operator

    src/jets/compute_pipes/pipe_transformation_merge.go joins the records of the main
    source with those of the merge sources: a bundle for each key of the main source.
    A merge source is the records it has yet to deliver and the one record that was
    read past the current key. The theorem states the join the operator computes when
    its sources are ordered by key. *)
From stdpp Require Import base list strings gmap sorting.
From Stdlib Require Import ZArith Lia SpecFloat Ascii.
From S2P Require Import Prelude GoFloat GoText GoValue EvalOperators EvalOperatorsLaws Records HashKey ColumnBuild Pipes.
Local Open Scope string_scope.
Local Open Scope Z_scope.

#[local] Set Warnings "-register-all".

(** The pending row, with its key: the value and its text. *)
Record MergeSource := mkMergeSource {
  ms_hashEvaluator : HashEvaluator; ms_rows : list record; ms_pending : option (string * record) }.
Record MergeTransformationPipe := mkMerge {
  mp_mainHashEvaluator : HashEvaluator; mp_mergeSources : list MergeSource;
  mp_currentValue : any; mp_currentBundle : list record }.

(** What a step over a source leaves: the source, the rows added to the bundle. *)
Record merged (A : Type) := mkMerged { mg_n : nat; mg_left : A; mg_added : list record; mg_res : res unit }.
Arguments mkMerged {A}.
Arguments mg_n {A}.
Arguments mg_left {A}.
Arguments mg_added {A}.
Arguments mg_res {A}.
Definition prepend {A B} (f : A → B) (added : list record) (m : merged A) : merged B :=
  mkMerged (mg_n m) (f (mg_left m)) (added ++ mg_added m)%list (mg_res m).

Section merge.
Context `{GoArch} `{GoUnicode} `{GoFmt} `{GoZone} `{GoRand} `{DomainKeyEnv}.

Definition mergeKeyOf (he : HashEvaluator) (input : record) (n : nat) : nat * res any := ComputeHash he input n.

Definition not_a_string : string := "error: MergeTransformationPipe key is not a string".
Definition key_text (v : any) : res string := match v with VStr s => Ret s | _ => Fail not_a_string end.

(** Reads the source up to the first key past [mainKey]: the rows left and the row
    read past it, if any. *)
Fixpoint advance (he : HashEvaluator) (mainKey : string) (pending : option (string * record)) (rows : list record) (n : nat)
  : merged (list record * option (string * record)) :=
  match rows with
  | [] => mkMerged n ([], pending) [] (Ret tt)
  | row :: rows' =>
      let '(n, k) := mergeKeyOf he row n in
      match (let! v := wrap_err "while computing merge key in MergeTransformationPipe" k in key_text v) with
      | Ret mergeKey =>
          match String.compare mergeKey mainKey with
          | Lt => advance he mainKey pending rows' n
          | Eq => prepend id [row] (advance he mainKey pending rows' n)
          | Gt => mkMerged n (rows', Some (mergeKey, row)) [] (Ret tt)
          end
      | r => mkMerged n (rows', pending) [] (let! _ := r in Ret tt)
      end
  end.

(** One turn of the loop over the sources. *)
Definition merge_source (mainKey : string) (s : MergeSource) (n : nat) : merged MergeSource :=
  let go pending consumed :=
    prepend (λ '(rows, p), mkMergeSource (ms_hashEvaluator s) rows p) consumed
      (advance (ms_hashEvaluator s) mainKey pending (ms_rows s) n) in
  match ms_pending s with
  | Some (key, row) =>
      match String.compare key mainKey with
      | Gt => mkMerged n s [] (Ret tt)
      | Eq => go None [row]
      | Lt => go (ms_pending s) []
      end
  | None => go None []
  end.
Fixpoint merge_sources (mainKey : string) (sources : list MergeSource) (n : nat) : merged (list MergeSource) :=
  match sources with
  | [] => mkMerged n [] [] (Ret tt)
  | s :: sources' =>
      let m := merge_source mainKey s n in
      match mg_res m with
      | Ret _ => prepend (cons (mg_left m)) (mg_added m) (merge_sources mainKey sources' (mg_n m))
      | r => mkMerged (mg_n m) (mg_left m :: sources') (mg_added m) r
      end
  end.

Definition merge_Apply (ctx : MergeTransformationPipe) (n : nat) (input : record) : pipe_out MergeTransformationPipe :=
  let '(n, k) := mergeKeyOf (mp_mainHashEvaluator ctx) input n in
  match wrap_err "while computing main merge key in MergeTransformationPipe" k with
  | Ret mainKey =>
      match (if is_nil (mp_currentValue ctx) then Ret false else iface_eq (mp_currentValue ctx) mainKey) with
      | Ret true =>
          quiet (mkMerge (mp_mainHashEvaluator ctx) (mp_mergeSources ctx) (mp_currentValue ctx)
                   (mp_currentBundle ctx ++ [input])%list) n input
      | Ret false =>
          let m := match key_text mainKey with
                   | Ret mainKeyTxt => merge_sources mainKeyTxt (mp_mergeSources ctx) n
                   | r => mkMerged n (mp_mergeSources ctx) [] (let! _ := r in Ret tt)
                   end in
          mkPipeOut (mkMerge (mp_mainHashEvaluator ctx) (mg_left m) mainKey (input :: mg_added m)) (mg_n m) input
            (sendBundle (mp_currentBundle ctx)) (mg_res m)
      | r => failed ctx n input r
      end
  | r => failed ctx n input r
  end.
Definition merge_Done (ctx : MergeTransformationPipe) (n : nat) : pipe_out MergeTransformationPipe :=
  mkPipeOut ctx n [] (sendBundle (mp_currentBundle ctx)) (Ret tt).
#[global] Instance merge_pipe : PipeTransformationEvaluator MergeTransformationPipe :=
  {| Apply := merge_Apply; pipe_Done := merge_Done |}.

(** ** Building *)
Record GroupBySpec := mkGroupBySpec { gs_GroupByName : list string; gs_GroupByPos : list Z; gs_DomainKey : string }.

(** The column at a position: the first one a [range] over the map meets. *)
Definition name_at (columns : list (string * Z)) (pos : Z) : list string :=
  match List.find (λ e, e.2 =? pos) columns with Some (name, _) => [name] | None => [] end.
Fixpoint names_at (columns : list (string * Z)) (positions : list Z) : res (list string) :=
  match positions with
  | [] => Ret []
  | pos :: positions' =>
      if (pos <? 0) || (Z.of_nat (length columns) <=? pos)
      then Fail "error: MergeTransformationPipe GroupByPos out of range for source"
      else let! rest := names_at columns positions' in Ret (name_at columns pos ++ rest)%list
  end.
(** [columns] in the order of the [range] over it. *)
Definition MakeHashExpressionFromGroupByConfig (columns : list (string * Z)) (config : GroupBySpec) : res HashExpression :=
  match gs_GroupByPos config, gs_GroupByName config with
  | _ :: _, _ :: _ => Fail "error: MergeTransformationPipe cannot have both GroupByPos and GroupByName"
  | positions, names =>
      let! names := match positions with [] => Ret names | _ => names_at columns positions end in
      let expr (e : string) (composite : list string) :=
        mkHashExpr e composite (gs_DomainKey config) VNil VNil "" [] true true in
      match names with
      | [] => if is_empty (gs_DomainKey config)
              then Fail "error: MergeTransformationPipe requires GroupByName, GroupByPos, or DomainKey"
              else Ret (expr "" [])
      | [name] => Ret (expr name [])
      | _ => Ret (expr "" names)
      end
  end.

(** The keys of the source are compared as texts: they are not hashed. *)
Definition unhashed (source : InputChannel) (dk : DomainKeysSpec) : InputChannel :=
  mkInput (ic_Name source) (ic_Columns source) (Some (mkDomainKeys "none" (DomainKeys dk))) (ic_ConfigColumns source) (ic_ClassName source).

Variable info : ShardingInfo.
Variable range : gmap string Z → list (string * Z).

(** The evaluators of the merge sources. Without a group_by of its own a source uses
    the expression of the main one, as the builders before it have written it; a
    group_by that is nil is dereferenced. *)
Fixpoint merge_evaluators (mainExpr : HashExpression) (groupBys : option (list (option GroupBySpec))) (sources : list (InputChannel * list record))
  : res (list MergeSource) :=
  match sources with
  | [] => Ret []
  | (source, rows) :: sources' =>
      match ic_DomainKeySpec source with
      | None => Fail "error: MergeTransformationPipe merge source does not have DomainKeySpec"
      | Some dk =>
          let! built :=
            match groupBys with
            | None => let '(mainExpr, he) := NewHashEvaluator info (unhashed source dk) mainExpr in Ret (mainExpr, he)
            | Some (Some config :: _) =>
                let! expr := wrap_err "while creating merge HashExpression for MergeTransformationPipe"
                               (MakeHashExpressionFromGroupByConfig (range (ic_Columns source)) config) in
                Ret (mainExpr, (NewHashEvaluator info (unhashed source dk) expr).2)
            | Some (None :: _) => Panic "runtime error: invalid memory address or nil pointer dereference"
            | Some [] => Panic out_of_range
            end in
          let! he := wrap_err "while creating merge HashEvaluator for MergeTransformationPipe" built.2 in
          let! rest := merge_evaluators built.1 (tail <$> groupBys) sources' in
          Ret (mkMergeSource he rows None :: rest)
      end
  end.
Definition MakeMergeTransformationPipe (mainSource : InputChannel) (mergeSources : list (InputChannel * list record))
    (mainGroupBy : GroupBySpec) (mergeGroupBy : list (option GroupBySpec)) : res MergeTransformationPipe :=
  let! mainSource :=
    if is_empty (gs_DomainKey mainGroupBy) then Ret mainSource
    else match ic_DomainKeySpec mainSource with
    | None => Fail "error: MergeTransformationPipe main source does not have DomainKeySpec"
    | Some dk => Ret (unhashed mainSource dk)
    end in
  let! expr := wrap_err "while creating main HashExpression for MergeTransformationPipe"
                 (MakeHashExpressionFromGroupByConfig (range (ic_Columns mainSource)) mainGroupBy) in
  let '(expr, he) := NewHashEvaluator info mainSource expr in
  let! he := wrap_err "while creating main HashEvaluator for MergeTransformationPipe" he in
  let own := if (length mergeGroupBy <? length mergeSources)%nat then None else Some mergeGroupBy in
  let! sources := merge_evaluators expr own mergeSources in
  Ret (mkMerge he sources VNil []).

(** A key that is not a column of the main source, but a function of one, is written
    into the expression as a composite key: no merge source can be built from it. *)
Lemma merge_on_function_refused mainSource name source rows rest pipe :
  ic_Columns mainSource !! name = None → is_empty name = false →
  MakeMergeTransformationPipe mainSource ((source, rows) :: rest) (mkGroupBySpec [name] [] "") [] ≠ Ret pipe.
Proof.
  intros Hn He Hp. unfold MakeMergeTransformationPipe in Hp.
  replace (is_empty (gs_DomainKey (mkGroupBySpec [name] [] ""))) with true in Hp by done.
  cbn -[is_empty NewHashEvaluator merge_evaluators] in Hp. match type of Hp with context [NewHashEvaluator info mainSource ?e] =>
    destruct (NewHashEvaluator info mainSource e) as [expr r] eqn:Ex end. unfold NewHashEvaluator in Ex.
  cbn -[is_empty] in Ex. rewrite He, Hn in Ex. cbn -[is_empty] in Ex. injection Ex as <- _.
  apply res_bind_Ret in Hp as (he & _ & (srcs & Hs & _)%res_bind_Ret). cbn [merge_evaluators] in Hs.
  destruct (ic_DomainKeySpec source); [|done]. unfold NewHashEvaluator in Hs. cbn -[is_empty merge_evaluators] in Hs. rewrite He in Hs. done.
Qed.
End merge.

(** ** Keys in order *)
Lemma str_compare_Gt a b : String.compare a b = Gt ↔ str_lt b a = true.
Proof. unfold str_lt. rewrite (String.compare_antisym a b). by destruct (String.compare b a). Qed.
Lemma str_compare_Eq a b : String.compare a b = Eq ↔ a = b.
Proof.
  split; [apply String.compare_eq_iff|]. intros ->. pose proof (String.compare_antisym b b). by destruct (String.compare b b).
Qed.
Lemma str_lt_Compare a b : str_lt a b = true ↔ ¬ str_Compare b a ≤ 0.
Proof. unfold str_lt, str_Compare. rewrite (String.compare_antisym a b). destruct (String.compare b a); simpl; lia || done. Qed.
Lemma str_le_lt_trans a b c : str_lt b a = false → str_lt b c = true → str_lt a c = true.
Proof.
  intros Hab Hbc. apply str_lt_Compare. intros Hca. apply str_lt_Compare in Hbc. apply Hbc.
  apply (string_compare_trans c a b Hca). destruct (Z.le_gt_cases (str_Compare a b) 0) as [|Hgt]; [done|].
  rewrite (proj2 (str_lt_Compare b a)) in Hab; [done|lia].
Qed.
Lemma str_lt_trans a b c : str_lt a b = true → str_lt b c = true → str_lt a c = true.
Proof.
  intros Hab Hbc. apply (str_le_lt_trans a b c); [|done]. apply not_true_iff_false. intros Hba.
  unfold str_lt in *. rewrite (String.compare_antisym b a) in Hba. by destruct (String.compare a b).
Qed.
Lemma str_lt_irrefl a : str_lt a a = false.
Proof. unfold str_lt. by rewrite (proj2 (str_compare_Eq a a)). Qed.
Lemma str_not_lt a b : str_lt a b = false → a = b ∨ str_lt b a = true.
Proof.
  rewrite <- str_compare_Gt. unfold str_lt. destruct (String.compare a b) eqn:E; [|done|by right].
  left. by apply str_compare_Eq.
Qed.

Lemma none_kept {A} (f : A → bool) l : (∀ x, x ∈ l → f x = false) → List.filter f l = [].
Proof. induction l as [|x l IH]; [done|]. intros Hf. simpl. rewrite Hf by set_solver. apply IH. set_solver. Qed.
Lemma all_kept {A} (f : A → bool) l : (∀ x, x ∈ l → f x = true) → List.filter f l = l.
Proof. induction l as [|x l IH]; [done|]. intros Hf. simpl. rewrite Hf by set_solver. f_equal. apply IH. set_solver. Qed.
Lemma filter_filter {A} (f g : A → bool) l : (∀ x, g x = true → f x = true) → List.filter g (List.filter f l) = List.filter g l.
Proof.
  intros Hfg. induction l as [|x l IH]; [done|]. simpl. destruct (f x) eqn:Hf; simpl; [by rewrite IH|].
  destruct (g x) eqn:Hg; [by rewrite Hfg in Hf|done].
Qed.

(** ** The join *)
Section join.
Context `{GoArch} `{GoUnicode} `{GoFmt} `{GoZone} `{GoRand} `{DomainKeyEnv}.

(** The text key of a record. *)
Definition key_of (he : HashEvaluator) (row : record) : string :=
  match ComputeDomainKey he row with Ret (VStr k) => k | _ => "" end.
Definition has_key (he : HashEvaluator) (row : record) : bool :=
  match ComputeDomainKey he row with Ret (VStr _) => true | _ => false end.

(** A source of records with text keys, in the order of their keys. *)
Record ordered (he : HashEvaluator) (rows : list record) : Prop := {
  or_domain : he_computeDomainKey he = true;
  or_keys : Forall (λ row, has_key he row = true) rows;
  or_sorted : StronglySorted (λ a b, str_lt (key_of he b) (key_of he a) = false) rows }.

Lemma key_computed he row n : he_computeDomainKey he = true → has_key he row = true →
  mergeKeyOf he row n = (n, Ret (VStr (key_of he row))).
Proof.
  intros Hd Hk. unfold mergeKeyOf, ComputeHash, key_of. rewrite Hd. unfold has_key in Hk.
  destruct (ComputeDomainKey he row) as [[]| | |]; done.
Qed.

Definition at_key (he : HashEvaluator) (k : string) (rows : list record) : list record :=
  List.filter (λ row, String.eqb (key_of he row) k) rows.
(** The rows past the last key, all of them before the first one. *)
Definition past (he : HashEvaluator) (last : option string) (rows : list record) : list record :=
  match last with None => rows | Some k => List.filter (λ row, str_lt k (key_of he row)) rows end.
Definition pending_past (last : option string) (p : option (string * record)) : list record :=
  match p, last with
  | Some (k, row), Some last => if str_lt last k then [row] else []
  | Some (_, row), None => [row]
  | None, _ => []
  end.

Lemma ordered_cons he row rows : ordered he (row :: rows) →
  ordered he rows ∧ has_key he row = true ∧ Forall (λ b, str_lt (key_of he b) (key_of he row) = false) rows.
Proof.
  intros [Hd [Hk Hks]%Forall_cons Hs]. apply StronglySorted_inv in Hs as [Hs Hle]. split_and!; [by split|done|done].
Qed.
Lemma ordered_app he l1 l2 : ordered he (l1 ++ l2)%list → ordered he l2.
Proof. induction l1 as [|x l1 IH]; [done|]. intros [Ho _]%ordered_cons. by apply IH. Qed.
Lemma ordered_filter he f rows : ordered he rows → ordered he (List.filter f rows).
Proof.
  intros [Hd Hk Hs]. split; [done| |].
  - rewrite List.Forall_forall in *. intros x [Hx _]%filter_In. by apply Hk.
  - induction Hs as [|x l Hs IH Hle]; [constructor|]. apply Forall_cons in Hk as [_ Hk]. specialize (IH Hk). simpl.
    destruct (f x); [|done]. constructor; [done|]. rewrite List.Forall_forall in *. intros y [Hy _]%filter_In. by apply Hle.
Qed.
Lemma ordered_past he last rows : ordered he rows → ordered he (past he last rows).
Proof. destruct last; [apply ordered_filter|done]. Qed.

(** The pending row goes with its key. *)
Definition pending_ok (he : HashEvaluator) (p : option (string * record)) : Prop :=
  ∀ k row, p = Some (k, row) → k = key_of he row.

Lemma advance_spec he k p rows n : ordered he rows → pending_ok he p → pending_past (Some k) p = [] →
  ∃ rows' p', advance he k p rows n = mkMerged n (rows', p') (at_key he k rows) (Ret tt) ∧ pending_ok he p' ∧
    past he (Some k) rows = (pending_past (Some k) p' ++ rows')%list.
Proof.
  intros Ho Hok Hp. induction rows as [|row rows IH]; [by exists [], p; rewrite Hp|].
  apply ordered_cons in Ho as (Ho & Hk & Hle). specialize (IH Ho) as (rows' & p' & E & Hok' & Hpast).
  cbn [advance]. rewrite key_computed by (done || apply Ho). cbn [wrap_err res_bind key_text].
  destruct (String.compare (key_of he row) k) eqn:Hc.
  - apply str_compare_Eq in Hc. exists rows', p'. rewrite E. unfold at_key, past in *. simpl.
    rewrite Hc, String.eqb_refl, str_lt_irrefl. split_and!; done.
  - exists rows', p'. rewrite E. unfold at_key, past in *. simpl.
    assert (Hlt : str_lt k (key_of he row) = false).
    { apply not_true_iff_false. rewrite <- str_compare_Gt, Hc. done. }
    rewrite Hlt. destruct (String.eqb_spec (key_of he row) k) as [Heq|_]; [|done].
    apply str_compare_Eq in Heq. congruence.
  - apply str_compare_Gt in Hc. exists rows, (Some (key_of he row, row)).
    rewrite List.Forall_forall in Hle.
    assert (Hgt : ∀ x, x ∈ row :: rows → str_lt k (key_of he x) = true).
    { intros x [->|Hx%list_elem_of_In]%elem_of_cons; [done|]. specialize (Hle x Hx).
      apply str_not_lt in Hle as [ -> |Hle]; [done|]. by apply (str_lt_trans _ (key_of he row)). }
    split_and!; [|by intros ?? [= <- <-]|].
    + f_equal. unfold at_key. symmetry. apply none_kept. intros x Hx. specialize (Hgt x Hx).
      destruct (String.eqb_spec (key_of he x) k) as [Heq|]; [|done]. by rewrite Heq, str_lt_irrefl in Hgt.
    + unfold past, pending_past. rewrite Hc. by apply all_kept.
Qed.

(** What a source has left after the last key. *)
Record tracks (he : HashEvaluator) (rows : list record) (last : option string) (s : MergeSource) : Prop := {
  tr_eval : ms_hashEvaluator s = he; tr_pending : pending_ok he (ms_pending s);
  tr_past : past he last rows = (pending_past last (ms_pending s) ++ ms_rows s)%list }.

Definition later (last : option string) (k : string) : Prop := match last with None => True | Some l => str_lt l k = true end.

Lemma at_key_past he last k rows : later last k → at_key he k (past he last rows) = at_key he k rows.
Proof.
  destruct last as [l|]; [|done]. intros Hl. apply filter_filter. intros x Hx. by apply String.eqb_eq in Hx as ->.
Qed.
Lemma past_past he last k rows : later last k → past he (Some k) (past he last rows) = past he (Some k) rows.
Proof. destruct last as [l|]; [|done]. intros Hl. apply filter_filter. intros x Hx. by apply (str_lt_trans _ k). Qed.

Lemma merge_source_spec he rows last s k n : ordered he rows → tracks he rows last s → later last k →
  ∃ s', merge_source k s n = mkMerged n s' (at_key he k rows) (Ret tt) ∧ tracks he rows (Some k) s'.
Proof.
  intros Ho [He Hok Hp] Hl. rewrite <- (at_key_past he last) by done.
  assert (Hpk := past_past he last k rows Hl).
  assert (Hol : ordered he (ms_rows s)) by (apply (ordered_app he (pending_past last (ms_pending s))); rewrite <- Hp; by apply ordered_past).
  assert (Hgo : ∀ p consumed extra, pending_ok he p → pending_past (Some k) p = [] →
    past he last rows = (extra ++ ms_rows s)%list → at_key he k extra = consumed → past he (Some k) extra = [] →
    ∃ s', prepend (λ '(rows, p), mkMergeSource (ms_hashEvaluator s) rows p) consumed
            (advance (ms_hashEvaluator s) k p (ms_rows s) n) = mkMerged n s' (at_key he k (past he last rows)) (Ret tt)
          ∧ tracks he rows (Some k) s').
  { intros p consumed extra Hokp Hpp Hsplit Hat Hex.
    destruct (advance_spec he k p (ms_rows s) n Hol Hokp Hpp) as (rows' & p' & E & Hok' & Hpast).
    rewrite He, E. eexists. split.
    - unfold prepend. cbn [mg_n mg_left mg_added mg_res]. f_equal. rewrite Hsplit. unfold at_key in *.
      by rewrite List.filter_app, Hat.
    - split; cbn [ms_hashEvaluator ms_pending ms_rows]; [done|done|]. rewrite <- Hpast, <- Hpk, Hsplit.
      unfold past in *. by rewrite List.filter_app, Hex. }
  unfold merge_source. destruct (ms_pending s) as [[kp row]|] eqn:Hm; [|by apply (Hgo None [] [])].
  specialize (Hok kp row eq_refl). subst kp. set (kp := key_of he row) in *.
  destruct (String.compare kp k) eqn:Hc.
  - apply str_compare_Eq in Hc. apply (Hgo None [row] [row]); [done|done| | |].
    + rewrite Hp. unfold pending_past. destruct last as [l|]; [|done]. rewrite Hc. simpl in Hl. by rewrite Hl.
    + unfold at_key. simpl. fold kp. by rewrite Hc, String.eqb_refl.
    + unfold past. simpl. fold kp. by rewrite Hc, str_lt_irrefl.
  - assert (Hlt : str_lt k kp = false) by (apply not_true_iff_false; rewrite <- str_compare_Gt, Hc; done).
    assert (Hne : String.eqb kp k = false).
    { destruct (String.eqb_spec kp k) as [Heq|]; [|done]. apply str_compare_Eq in Heq. congruence. }
    apply (Hgo (Some (kp, row)) [] (pending_past last (Some (kp, row)))); [by intros ?? [= <- <-]|by simpl; rewrite Hlt|done| |].
    + unfold pending_past. destruct last as [l|]; [destruct (str_lt l kp)|]; unfold at_key; simpl; fold kp; by rewrite ?Hne.
    + unfold pending_past. destruct last as [l|]; [destruct (str_lt l kp)|]; unfold past; simpl; fold kp; by rewrite ?Hlt.
  - apply str_compare_Gt in Hc. exists s.
    assert (Hrel : pending_past last (Some (kp, row)) = [row]).
    { unfold pending_past. destruct last as [l|]; [|done]. by rewrite (str_lt_trans l k kp). }
    assert (Hgt : ∀ x, x ∈ row :: ms_rows s → str_lt k (key_of he x) = true).
    { rewrite Hrel in Hp. pose proof (ordered_past he last rows Ho) as Hor. rewrite Hp in Hor.
      apply ordered_cons in Hor as (_ & _ & Hle). rewrite List.Forall_forall in Hle.
      intros x [->|Hx%list_elem_of_In]%elem_of_cons; [done|]. specialize (Hle x Hx).
      apply str_not_lt in Hle as [ -> |Hle]; [done|]. by apply (str_lt_trans _ kp). }
    split.
    + f_equal. rewrite Hp, Hrel. unfold at_key. symmetry. apply none_kept. intros x Hx. specialize (Hgt x Hx).
      destruct (String.eqb_spec (key_of he x) k) as [Heq|]; [|done]. by rewrite Heq, str_lt_irrefl in Hgt.
    + split; [done|by rewrite Hm; intros ?? [= <- <-]|]. rewrite Hm, <- Hpk, Hp, Hrel. cbn [pending_past]. rewrite Hc.
      unfold past. by apply all_kept.
Qed.

(** The sources, each with all its rows. *)
Abbreviation sources := (list (HashEvaluator * list record)).
Definition track_all (srcs : sources) (last : option string) (ss : list MergeSource) : Prop :=
  Forall2 (λ src s, tracks src.1 src.2 last s) srcs ss.
Definition all_at_key (srcs : sources) (k : string) : list record := concat ((λ src, at_key src.1 k src.2) <$> srcs).

Lemma merge_sources_spec srcs last ss k n : Forall (λ src, ordered src.1 src.2) srcs → track_all srcs last ss → later last k →
  ∃ ss', merge_sources k ss n = mkMerged n ss' (all_at_key srcs k) (Ret tt) ∧ track_all srcs (Some k) ss'.
Proof.
  intros Ho Ht Hl. induction Ht as [|src s srcs ss Ht _ IH]; [exists []; by split; constructor|].
  apply Forall_cons in Ho as [Ho Hos]. destruct (IH Hos) as (ss' & E & Hss').
  destruct (merge_source_spec _ _ _ _ k n Ho Ht Hl) as (s' & E1 & Hs').
  exists (s' :: ss'). cbn [merge_sources]. rewrite E1. cbn [mg_res mg_n]. rewrite E. split; [done|]. by constructor.
Qed.

(** The runs of equal keys of the main source, and the bundle of a run: its first
    row, the rows of the sources with the key, the other rows of the run. *)
Fixpoint runs (he : HashEvaluator) (rows : list record) : list (string * list record) :=
  match rows with
  | [] => []
  | row :: rows' =>
      match runs he rows' with
      | (k, g) :: gs => if String.eqb k (key_of he row) then (k, row :: g) :: gs else (key_of he row, [row]) :: (k, g) :: gs
      | [] => [(key_of he row, [row])]
      end
  end.
Definition joined (srcs : sources) (run : string * list record) : list record :=
  match run.2 with [] => [] | first :: rest => first :: all_at_key srcs run.1 ++ rest end%list.
Definition merge_join (srcs : sources) (gs : list (string * list record)) : list record :=
  (λ run, VSlice <$> joined srcs run) <$> gs.
(** The bundle that is open, [b] of key [k], before the runs to come. *)
Definition close (srcs : sources) (k : string) (b : list record) (gs : list (string * list record)) : list record :=
  match gs with
  | (k', g) :: gs' => if String.eqb k' k then (VSlice <$> b ++ g)%list :: merge_join srcs gs' else (VSlice <$> b) :: merge_join srcs gs
  | [] => [VSlice <$> b]
  end.

Lemma close_same srcs he k b row rows : key_of he row = k →
  close srcs k b (runs he (row :: rows)) = close srcs k (b ++ [row])%list (runs he rows).
Proof.
  intros Hk. cbn [runs]. destruct (runs he rows) as [|[k' g] gs]; rewrite Hk; unfold close; simpl; [by rewrite String.eqb_refl|].
  destruct (String.eqb k' k) eqn:E; [by rewrite E, <- (assoc_L app)|].
  by rewrite String.eqb_refl.
Qed.
Lemma close_next srcs he row rows :
  close srcs (key_of he row) (row :: all_at_key srcs (key_of he row)) (runs he rows) = merge_join srcs (runs he (row :: rows)).
Proof.
  cbn [runs]. unfold close, merge_join. destruct (runs he rows) as [|[k' g] gs]; simpl; [by rewrite app_nil_r|].
  destruct (String.eqb_spec k' (key_of he row)) as [->|]; simpl; [done|by rewrite app_nil_r].
Qed.
Lemma close_other srcs he k b row rows : key_of he row ≠ k →
  close srcs k b (runs he (row :: rows)) = (VSlice <$> b) :: merge_join srcs (runs he (row :: rows)).
Proof.
  intros Hk. unfold close. cbn [runs]. destruct (runs he rows) as [|[k' g] gs].
  - by rewrite (proj2 (String.eqb_neq _ _) Hk).
  - destruct (String.eqb_spec k' (key_of he row)) as [->|]; by rewrite (proj2 (String.eqb_neq _ _) Hk).
Qed.

Lemma merge_new_key he srcs last ss v b row n : he_computeDomainKey he = true → has_key he row = true →
  Forall (λ src, ordered src.1 src.2) srcs → track_all srcs last ss → later last (key_of he row) →
  v = from_option VStr VNil last →
  ∃ ss', Apply (mkMerge he ss v b) n row =
      mkPipeOut (mkMerge he ss' (VStr (key_of he row)) (row :: all_at_key srcs (key_of he row))) n row (sendBundle b) (Ret tt)
    ∧ track_all srcs (Some (key_of he row)) ss'.
Proof.
  intros Hd Hk Ho Ht Hl ->. destruct (merge_sources_spec srcs last ss _ n Ho Ht Hl) as (ss' & E & Ht').
  exists ss'. split; [|done]. cbn [Apply merge_pipe]. unfold merge_Apply. cbn [mp_mainHashEvaluator mp_currentValue mp_mergeSources mp_currentBundle].
  rewrite key_computed by done. cbn [wrap_err key_text].
  assert (Hne : (if is_nil (from_option VStr VNil last) then Ret false else iface_eq (from_option VStr VNil last) (VStr (key_of he row))) = Ret false).
  { destruct last as [l|]; [|done]. unfold iface_eq. cbn [from_option is_nil same_type key_eqb].
    f_equal. simpl in Hl. apply String.eqb_neq. intros ->. by rewrite str_lt_irrefl in Hl. }
  rewrite Hne, E. done.
Qed.

Lemma merge_rest he srcs rows : Forall (λ src, ordered src.1 src.2) srcs → ordered he rows →
  ∀ k ss b n, track_all srcs (Some k) ss → Forall (λ row, str_lt (key_of he row) k = false) rows → b ≠ [] →
  run_pipe (mkMerge he ss (VStr k) b) n rows = (close srcs k b (runs he rows), Ret tt).
Proof.
  intros Hos. induction rows as [|row rows IH]; intros Ho k ss b n Ht Hge Hb.
  { unfold run_pipe. simpl. by destruct b. }
  apply ordered_cons in Ho as (Ho & Hk & Hle). apply Forall_cons in Hge as [Hrow Hge].
  apply str_not_lt in Hrow as [Heq|Hlt].
  - assert (E : Apply (mkMerge he ss (VStr k) b) n row = quiet (mkMerge he ss (VStr k) (b ++ [row])%list) n row).
    { cbn [Apply merge_pipe]. unfold merge_Apply. cbn [mp_mainHashEvaluator mp_currentValue mp_mergeSources mp_currentBundle].
      rewrite key_computed by (done || apply Ho). cbn [wrap_err is_nil]. unfold iface_eq. cbn [same_type key_eqb].
      by rewrite Heq, String.eqb_refl. }
    rewrite run_pipe_cons, E by by rewrite E. cbn [quiet po_state po_n po_sent].
    rewrite IH, <- (close_same srcs he k) by (done || by destruct b). done.
  - destruct (merge_new_key he srcs (Some k) ss (VStr k) b row n) as (ss' & E & Ht'); [apply Ho|done..|].
    rewrite run_pipe_cons, E by by rewrite E. cbn [po_state po_n po_sent].
    rewrite IH by done. rewrite close_next, close_other; [by destruct b|].
    intros Heq. by rewrite Heq, str_lt_irrefl in Hlt.
Qed.

Definition start_merge (he : HashEvaluator) (srcs : sources) : MergeTransformationPipe :=
  mkMerge he ((λ src, mkMergeSource src.1 src.2 None) <$> srcs) VNil [].

(** C4. The merge operator is a join: when the main source and every merge source
    have text keys in order, it sends one bundle for each run of equal keys of the
    main source, with the rows of every merge source that have the key and no
    others, in the order of the sources. *)
Theorem merge_joins he srcs rows n : ordered he rows → Forall (λ src, ordered src.1 src.2) srcs →
  run_pipe (start_merge he srcs) n rows = (merge_join srcs (runs he rows), Ret tt).
Proof.
  intros Ho Hos. destruct rows as [|row rows]; [done|].
  apply ordered_cons in Ho as (Ho & Hk & Hle).
  destruct (merge_new_key he srcs None ((λ src, mkMergeSource src.1 src.2 None) <$> srcs) VNil [] row n) as (ss' & E & Ht');
    [apply Ho|done|done| |done|done|].
  { apply Forall2_fmap_r, Forall_Forall2_diag, Forall_true. intros src. by split. }
  unfold start_merge. rewrite run_pipe_cons, E by by rewrite E. cbn [po_state po_n po_sent].
  rewrite (merge_rest he srcs) by done. by rewrite close_next.
Qed.
End join.
