(* ===== verification/SamplingPipes.v ===== *)
(** * Sampling operators

    shuffling and high_freq of src/jets/compute_pipes: the operators that keep what
    they need of the records and send their result at the end. *)
From stdpp Require Import base list strings gmap sorting.
From Stdlib Require Import ZArith Lia SpecFloat Ascii.
From S2P Require Import Prelude GoFloat GoText GoValue EvalOperators RdfCast EvalExpression.
From S2P Require Import Records HashKey Cleansing ColumnEval ColumnBuild Pipes.
Local Open Scope string_scope.
Local Open Scope Z_scope.

#[local] Set Warnings "-register-all".

(** The submatches of a regular expression, the whole match first; none when it does
    not match. *)
Class GoSubmatch `{GoRegexp} := { FindStringSubmatch : regexp → string → list string }.

Section shuffling.
Context `{GoRand}.

(** ** shuffling *)
Record ShufflingTransformationPipe := mkShuffling {
  sh_nbrColumns : nat; sh_nbrOutput : nat; sh_sourceData : list record; sh_maxInputCount : Z;
  sh_padShortRows : bool; sh_inputColPos : list Z; sh_outputSampleSize : Z }.

Definition shuffling_Apply (ctx : ShufflingTransformationPipe) (n : nat) (input : record) : pipe_out ShufflingTransformationPipe :=
  match sh_inputColPos ctx with
  | [] => quiet ctx n input
  | _ =>
      if (length input <? sh_nbrColumns ctx)%nat && negb (sh_padShortRows ctx) then quiet ctx n input
      else
        let input := (input ++ repeat VNil (sh_nbrColumns ctx - length input))%list in
        quiet (if Z.of_nat (length (sh_sourceData ctx)) <? sh_maxInputCount ctx
               then mkShuffling (sh_nbrColumns ctx) (sh_nbrOutput ctx) (sh_sourceData ctx ++ [input])%list (sh_maxInputCount ctx)
                      (sh_padShortRows ctx) (sh_inputColPos ctx) (sh_outputSampleSize ctx)
               else ctx) n input
  end.

(** [rand.Intn] *)
Definition Intn (n : nat) (k : Z) : res Z :=
  if k <=? 0 then Panic "invalid argument to Intn" else Ret (rand_Int63n n k).

(** The columns from [jcol] on, [count] of them: each from a row of its own. *)
Fixpoint shuffled_row (ctx : ShufflingTransformationPipe) (jcol count : nat) (n : nat) : nat * res record :=
  match count with
  | O => (n, Ret [])
  | S count =>
      match Intn n (Z.of_nat (length (sh_sourceData ctx))) with
      | Ret i =>
          match (let! pos := match sh_inputColPos ctx !! jcol with Some pos => Ret pos | None => Panic out_of_range end in
                 match sh_sourceData ctx !! Z.to_nat i with Some row => at_pos row pos | None => Panic out_of_range end) with
          | Ret v => let '(n, rest) := shuffled_row ctx (S jcol) count (S n) in (n, let! rest := rest in Ret (v :: rest))
          | r => (S n, let! _ := r in Ret [])
          end
      | r => (n, let! _ := r in Ret [])
      end
  end.
Fixpoint shuffled_rows (ctx : ShufflingTransformationPipe) (count : nat) (n : nat) : nat * list record * res unit :=
  match count with
  | O => (n, [], Ret tt)
  | S count =>
      let '(n, row) := shuffled_row ctx 0 (sh_nbrOutput ctx) n in
      match row with
      | Ret row => let '(n, rows, r) := shuffled_rows ctx count n in (n, row :: rows, r)
      | r => (n, [], let! _ := r in Ret tt)
      end
  end.
Definition shuffling_Done (ctx : ShufflingTransformationPipe) (n : nat) : pipe_out ShufflingTransformationPipe :=
  match sh_inputColPos ctx with
  | [] => quiet ctx n []
  | _ => let '(n, rows, r) := shuffled_rows ctx (Z.to_nat (sh_outputSampleSize ctx)) n in mkPipeOut ctx n [] rows r
  end.
#[global] Instance shuffling_pipe : PipeTransformationEvaluator ShufflingTransformationPipe :=
  {| Apply := shuffling_Apply; pipe_Done := shuffling_Done |}.

Record FilterColumnSpec := mkFilterColumn {
  fc_LookupName : string; fc_ColumnName : string; fc_LookupColumn : string; fc_RetainOnValues : list string }.
Record ShufflingSpec := mkShufflingSpec {
  MaxInputSampleSize : Z; OutputSampleSize : Z; PadShortRowsWithNulls : bool; FilterColumns : option FilterColumnSpec }.

(** The positions kept, with the names of their output columns, by the row of the
    metadata table of each position from [ipos] on. *)
Fixpoint retained_columns (tbl : LookupTable) (lookupColumn lookupColumnName : Z) (retain : list string) (ipos count : nat)
  : res (list (Z * string)) :=
  match count with
  | O => Ret []
  | S count =>
      match Lookup tbl (Itoa (Z.of_nat ipos)) with
      | None => Fail "error: metadata row not found for column position"
      | Some metaRow =>
          let! value := at_pos metaRow lookupColumn in
          if negb (hashable value) then Panic "runtime error: hash of unhashable type"
          else
            let! kept :=
              if existsb (λ v, key_eqb value (VStr v)) retain then
                let! name := at_pos metaRow lookupColumnName in
                match name with VStr name => Ret [(Z.of_nat ipos, name)] | _ => Panic interface_conversion end
              else Ret [] in
            let! rest := retained_columns tbl lookupColumn lookupColumnName retain (S ipos) count in
            Ret (kept ++ rest)%list
      end
  end.
(** The channel is left with the retained columns, or with a placeholder. *)
Definition NewShufflingTransformationPipe (lookupTables : gmap string LookupTable) (source : InputChannel) (outputCh : OutputChannel)
  (config : ShufflingSpec) : res (OutputChannel * ShufflingTransformationPipe) :=
  let pipe (out : OutputChannel) (pos : list Z) :=
    (out, mkShuffling (length (ic_ConfigColumns source)) (length (oc_ConfigColumns out)) [] (MaxInputSampleSize config)
            (PadShortRowsWithNulls config) pos (OutputSampleSize config)) in
  match FilterColumns config with
  | None => Ret (pipe outputCh (Z.of_nat <$> seq 0 (length (ic_ConfigColumns source))))
  | Some fc =>
      match lookupTables !! fc_LookupName fc with
      | None => Fail "error: shuffling operator metadata lookup table not found"
      | Some tbl =>
          let! lookupColumn := column_of "error: shuffling operator metadata lookup table does not have column" (lt_columnsMap tbl) (fc_LookupColumn fc) in
          let! lookupColumnName := column_of "error: shuffling operator metadata lookup table does not have column" (lt_columnsMap tbl) (fc_ColumnName fc) in
          let! kept := retained_columns tbl lookupColumn lookupColumnName (fc_RetainOnValues fc) 0 (length (ic_ConfigColumns source)) in
          Ret match kept with
              | [] => pipe (mkOutput (oc_Name outputCh) (<["placeholder" := 0]> (oc_Columns outputCh)) ["placeholder"] (oc_ClassName outputCh)) []
              | _ => pipe (mkOutput (oc_Name outputCh) (oc_Columns outputCh) kept.*2 (oc_ClassName outputCh)) kept.*1
              end
      end
  end.
End shuffling.

Section high_freq.
Context `{GoArch} `{GoUnicode} `{GoFmt} `{GoZone} `{GoRegexp} `{!GoSubmatch} `{GoUuid} `{GoClock} `{GoJson} `{GoRand} `{DomainKeyEnv} `{GoDigits} `{GoSort}.
Variable map_order : nat → list string → list string.

(** ** high_freq *)
Record HighFreqSpec := mkHighFreqColumn {
  hf_Name : string; hf_re : option regexp; hf_TopPercentile : Z; hf_TopRank : Z }.
Abbreviation DistinctCount := (string * Z)%type.
Record HighFreqTransformationPipe := mkHighFreq {
  hf_source : InputChannel; hf_outputCh : OutputChannel; hf_highFreqState : gmap string (gmap string Z);
  hf_columnEvaluators : list columnEval; hf_firstInputRow : option record; hf_columns : list HighFreqSpec }.

(** The token counted for a value: none when it is null, or empty after the key
    extraction. *)
Definition high_freq_token (c : HighFreqSpec) (value : any) : option string :=
  match value with
  | VNil => None
  | _ =>
      let token := ToUpper (sprint_v value) in
      let token := match hf_re c with
                   | None => token
                   | Some re => match FindStringSubmatch re token with _ :: key :: _ => key | _ => "" end
                   end in
      if is_empty token then None else Some token
  end.
Definition count_token (m : gmap string Z) (token : string) : gmap string Z := <[token := i64 (default 0 (m !! token) + 1)]> m.
Fixpoint count_columns (source : InputChannel) (columns : list HighFreqSpec) (st : gmap string (gmap string Z)) (input : record)
  : res (gmap string (gmap string Z)) :=
  match columns with
  | [] => Ret st
  | c :: columns' =>
      let! value := at_pos input (default 0 (ic_Columns source !! hf_Name c)) in
      count_columns source columns'
        match high_freq_token c value with
        | None => st
        | Some token => <[hf_Name c := count_token (default ∅ (st !! hf_Name c)) token]> st
        end input
  end.
Definition high_freq_Apply (ctx : HighFreqTransformationPipe) (n : nat) (input : record) : pipe_out HighFreqTransformationPipe :=
  if negb (length input =? length (ic_ConfigColumns (hf_source ctx)))%nat then quiet ctx n input
  else
    let first := match hf_firstInputRow ctx with None => Some input | f => f end in
    match count_columns (hf_source ctx) (hf_columns ctx) (hf_highFreqState ctx) input with
    | Ret st => quiet (mkHighFreq (hf_source ctx) (hf_outputCh ctx) st (hf_columnEvaluators ctx) first (hf_columns ctx)) n input
    | r => failed ctx n input r
    end.

(** By descending count. *)
Definition count_cmp (a b : DistinctCount) : Z := if b.2 <? a.2 then -1 else if a.2 <? b.2 then 1 else 0.

Definition f64_half : float64 := f64_div (f64_of_Z 1) (f64_of_Z 2).
(** [int(float64(count)*float64(pct)/100 + 0.5)]: the factor is computed first. *)
Definition pct_of (count pct : Z) : Z :=
  f64_to_i64 (f64_add (f64_mul (f64_of_Z count) (f64_div (f64_of_Z pct) (f64_of_Z 100))) f64_half).
Definition max_total (c : HighFreqSpec) (totalCount : Z) : Z :=
  if 0 <? hf_TopPercentile c then pct_of totalCount (hf_TopPercentile c)
  else f64_to_i64 (f64_add (f64_mul (f64_of_Z totalCount) (f64_of_Z 1)) f64_half).
Definition max_distinct (c : HighFreqSpec) (nbrDistinctValues : Z) : Z :=
  if 0 <? hf_TopRank c then Z.min (i64 (nbrDistinctValues * pct_of nbrDistinctValues (hf_TopRank c))) nbrDistinctValues
  else nbrDistinctValues.

(** The row of a value before the carried over columns. *)
Definition freq_row (outputCh : OutputChannel) (name : string) (dc : DistinctCount) : res record :=
  let pos c := default 0 (oc_Columns outputCh !! c) in
  let! row := set_pos (new_record (size (oc_Columns outputCh))) (pos "column_name") (VStr name) in
  let! row := set_pos row (pos "freq_count") (VInt dc.2) in
  set_pos row (pos "freq_value") (VStr dc.1).

(** The values sent for a column, most frequent first: [valueCount] of the rows are
    covered already. *)
Fixpoint send_values (outputCh : OutputChannel) (first : option record) (name : string) (values : list DistinctCount)
  (maxTotalCount valueCount : Z) (evals : list columnEval) (n : nat) : list columnEval * nat * list record * res unit :=
  match values with
  | [] => (evals, n, [], Ret tt)
  | dc :: values' =>
      match freq_row outputCh name dc with
      | Ret row =>
          let '(evals, o) := update_list (Update map_order) "while calling column transformation from high_freq operator" evals n row first in
          match o_res o with
          | Ret _ =>
              let valueCount := i64 (valueCount + dc.2) in
              if maxTotalCount <? valueCount then (evals, o_n o, [o_cur o], Ret tt)
              else
                let '(evals, n, sent, r) := send_values outputCh first name values' maxTotalCount valueCount evals (o_n o) in
                (evals, n, o_cur o :: sent, r)
          | r => (evals, o_n o, [], r)
          end
      | r => (evals, n, [], let! _ := r in Ret tt)
      end
  end.
(** The values of a column that are considered, most frequent first. *)
Definition ranked (c : HighFreqSpec) (counts : gmap string Z) (n : nat) : list DistinctCount :=
  let slice := (λ k, (k, default 0 (counts !! k))) <$> map_order n (elements (dom counts)) in
  take (Z.to_nat (max_distinct c (Z.of_nat (size counts)))) (SortFunc count_cmp slice).
Definition total_count (counts : gmap string Z) (n : nat) : Z :=
  foldl (λ acc k, i64 (acc + default 0 (counts !! k))) 0 (map_order n (elements (dom counts))).
Fixpoint send_columns (ctx : HighFreqTransformationPipe) (columns : list HighFreqSpec) (evals : list columnEval) (n : nat)
  : list columnEval * nat * list record * res unit :=
  match columns with
  | [] => (evals, n, [], Ret tt)
  | c :: columns' =>
      let counts := default ∅ (hf_highFreqState ctx !! hf_Name c) in
      let '(evals, n, sent, r) :=
        send_values (hf_outputCh ctx) (hf_firstInputRow ctx) (hf_Name c) (ranked c counts n)
          (max_total c (total_count counts n)) 0 evals (S n) in
      match r with
      | Ret _ =>
          let '(evals, n, sent', r) := send_columns ctx columns' evals n in (evals, n, (sent ++ sent')%list, r)
      | r => (evals, n, sent, r)
      end
  end.
Definition high_freq_Done (ctx : HighFreqTransformationPipe) (n : nat) : pipe_out HighFreqTransformationPipe :=
  let '(evals, n, sent, r) := send_columns ctx (hf_columns ctx) (hf_columnEvaluators ctx) n in
  mkPipeOut (mkHighFreq (hf_source ctx) (hf_outputCh ctx) (hf_highFreqState ctx) evals (hf_firstInputRow ctx) (hf_columns ctx)) n [] sent r.
#[global] Instance high_freq_pipe : PipeTransformationEvaluator HighFreqTransformationPipe :=
  {| Apply := high_freq_Apply; pipe_Done := high_freq_Done |}.
End high_freq.
