(* ===== verification/PipeExec.v ===== *)
(** * Executors

    The two ways a pipe runs its operators: [StartFanOutPipe]
    (src/jets/compute_pipes/pipe_executor_fan_out.go) gives every record to every
    operator, [StartSplitterPipe] (pipe_executor_splitter.go) first splits the
    records between channels, each with operators of its own.

    What the operators of a pipe send is given by operator; the records of an
    operator reach its channel in that order, those of different operators in any
    order. The records of different partitions of a splitter are handled
    concurrently: what each partition receives, and what its handler sends, is given
    by partition. *)
From stdpp Require Import base list strings gmap.
From Stdlib Require Import ZArith Lia SpecFloat Ascii.
From S2P Require Import Prelude GoFloat GoText GoValue EvalOperators Records HashKey ColumnBuild Pipes.
Local Open Scope string_scope.
Local Open Scope Z_scope.

#[local] Set Warnings "-register-all".

(** ** Operators of any type *)
Record evaluator := mkEvaluator { ev_type : Type; ev_ops : PipeTransformationEvaluator ev_type; ev_state : ev_type }.
Arguments mkEvaluator {_ _}.

Definition ev_Apply (e : evaluator) (n : nat) (row : record) : pipe_out evaluator :=
  let o := @Apply _ (ev_ops e) (ev_state e) n row in
  mkPipeOut (@mkEvaluator _ (ev_ops e) (po_state o)) (po_n o) (po_row o) (po_sent o) (po_res o).
Definition ev_Done (e : evaluator) (n : nat) : pipe_out evaluator :=
  let o := @pipe_Done _ (ev_ops e) (ev_state e) n in
  mkPipeOut (@mkEvaluator _ (ev_ops e) (po_state o)) (po_n o) (po_row o) (po_sent o) (po_res o).

(** ** fan_out *)

(** One record through the operators, a nil one skipped: each gets the record the
    one before it left. *)
Fixpoint fan_row (msg : string) (evs : list (option evaluator)) (n : nat) (row : record)
  : list (option evaluator) * nat * list (list record) * res unit :=
  match evs with
  | [] => ([], n, [], Ret tt)
  | None :: evs' => let '(evs'', n, sent, r) := fan_row msg evs' n row in (None :: evs'', n, [] :: sent, r)
  | Some e :: evs' =>
      let o := ev_Apply e n row in
      match po_res o with
      | Ret _ =>
          let '(evs'', n, sent, r) := fan_row msg evs' (po_n o) (po_row o) in
          (Some (po_state o) :: evs'', n, po_sent o :: sent, r)
      | r => (Some (po_state o) :: evs', po_n o, po_sent o :: (const [] <$> evs'), wrap_err msg r)
      end
  end.
(** What two steps send, operator by operator. *)
Definition join_sent (a b : list (list record)) : list (list record) := zip_with (++)%list a b.
Definition none_sent (evs : list (option evaluator)) : list (list record) := const [] <$> evs.

Fixpoint fan_rows (msg : string) (evs : list (option evaluator)) (n : nat) (rows : list record)
  : list (option evaluator) * nat * list (list record) * res unit :=
  match rows with
  | [] => (evs, n, none_sent evs, Ret tt)
  | row :: rows' =>
      let '(evs, n, sent, r) := fan_row msg evs n row in
      match r with
      | Ret _ => let '(evs, n, sent', r) := fan_rows msg evs n rows' in (evs, n, join_sent sent sent', r)
      | r => (evs, n, sent, r)
      end
  end.
Fixpoint fan_done (msg : string) (evs : list (option evaluator)) (n : nat) : nat * list (list record) * res unit :=
  match evs with
  | [] => (n, [], Ret tt)
  | None :: evs' => let '(n, sent, r) := fan_done msg evs' n in (n, [] :: sent, r)
  | Some e :: evs' =>
      let o := ev_Done e n in
      match po_res o with
      | Ret _ => let '(n, sent, r) := fan_done msg evs' (po_n o) in (n, po_sent o :: sent, r)
      | r => (po_n o, po_sent o :: (const [] <$> evs'), wrap_err msg r)
      end
  end.
(** The records of the channel, then [Done] on every operator. *)
Definition fan_run (applyMsg doneMsg : string) (evs : list (option evaluator)) (n : nat) (rows : list record)
  : nat * list (list record) * res unit :=
  let '(evs, n, sent, r) := fan_rows applyMsg evs n rows in
  match r with
  | Ret _ => let '(n, sent', r) := fan_done doneMsg evs n in (n, join_sent sent sent', r)
  | r => (n, sent, r)
  end.

(** The operators are built in order; [build] of one gives nil when its condition
    does not hold. *)
Fixpoint build_all {A} (build : A → nat → nat * res (option evaluator)) (specs : list A) (n : nat)
  : nat * res (list (option evaluator)) :=
  match specs with
  | [] => (n, Ret [])
  | spec :: specs' =>
      let '(n, e) := build spec n in
      match wrap_err "while calling BuildPipeTransformationEvaluator" e with
      | Ret e => let '(n, es) := build_all build specs' n in (n, let! es := es in Ret (e :: es))
      | r => (n, let! _ := r in Ret [])
      end
  end.

(** What is sent and what goes to the error channel; a panic is recovered there too. *)
Definition reported (r : res unit) : option string :=
  match r with Ret _ => None | Fail e => Some e | Panic e => Some e | Loop => None end.

Definition StartFanOutPipe {A} (build : A → nat → nat * res (option evaluator)) (apply : list A) (n : nat) (rows : list record)
  : nat * list (list record) * res unit :=
  let '(n, evs) := build_all build apply n in
  match evs with
  | Ret evs =>
      fan_run "while calling Apply on PipeTransformationEvaluator (in fan_out)"
        "while calling done on PipeTransformationEvaluator (in fan_out)" evs n rows
  | r => (n, const [] <$> apply, let! _ := r in Ret tt)
  end.

(** ** splitter *)
Inductive splitOn :=
| splitOnColumn (spliterColumnIdx : Z)
| splitOnHash (hashEvaluator : HashEvaluator)
| splitOnDefault (value : string).

(** The channel of a base key: the rows of the current channel so far, its number,
    and the partition it feeds. *)
Record ChannelState := mkChannelState { rowCount : Z; extShard : Z; cs_partition : nat }.
(** A channel handler: its base key, its partition key, whether its source carries
    the domain keys of the splitter's source, the rows it is sent. *)
Record partition := mkPartition { pt_baseKey : any; pt_key : any; pt_domainKeys : bool; pt_rows : list record }.
Record splitter := mkSplitter { sp_chanState : list (any * ChannelState); sp_partitions : list partition }.

Section splitter.
Context `{GoArch} `{GoUnicode} `{GoFmt} `{GoZone} `{GoRand} `{DomainKeyEnv}.

Definition base_key (on : splitOn) (n : nat) (row : record) : nat * res any :=
  match on with
  | splitOnColumn idx => (n, at_pos row idx)
  | splitOnHash he =>
      let '(n, k) := ComputeHash he row n in
      (n, wrap_err "while computing hash key on input record in splitter" k)
  | splitOnDefault v => (n, Ret (VStr v))
  end.

(** [chanState.Get]; the keys of the table are hashed. *)
Fixpoint get_state (st : list (any * ChannelState)) (k : any) : option ChannelState :=
  match st with [] => None | (k', cs) :: st' => if key_eqb k' k then Some cs else get_state st' k end.
Fixpoint put_state (st : list (any * ChannelState)) (k : any) (cs : ChannelState) : list (any * ChannelState) :=
  match st with
  | [] => [(k, cs)]
  | (k', cs') :: st' => if key_eqb k' k then (k', cs) :: st' else (k', cs') :: put_state st' k cs
  end.

Definition first_key (extCount : bool) (baseKey : any) : any :=
  if extCount then match baseKey with VNil => VInt 0 | _ => VStr (sprint_v baseKey +:+ "|0") end else baseKey.
Definition ext_key (baseKey : any) (shard : Z) : any := VStr (sprint_v baseKey +:+ "|" +:+ Itoa shard).

(** The row is sent to the partition, and counted. *)
Definition send_row (s : splitter) (k : any) (cs : ChannelState) (row : record) : splitter :=
  mkSplitter (put_state (sp_chanState s) k (mkChannelState (i64 (rowCount cs + 1)) (extShard cs) (cs_partition cs)))
    (alter (λ p, mkPartition (pt_baseKey p) (pt_key p) (pt_domainKeys p) (pt_rows p ++ [row])%list) (cs_partition cs) (sp_partitions s)).

(** [partitionRowCount] is given for a splitter of type ext_count. *)
Definition split_row (partitionRowCount : option Z) (s : splitter) (baseKey : any) (row : record) : splitter :=
  let fresh := length (sp_partitions s) in
  let '(s, cs) := match get_state (sp_chanState s) baseKey with
                  | Some cs => (s, cs)
                  | None =>
                      (mkSplitter (sp_chanState s)
                         (sp_partitions s ++ [mkPartition baseKey (first_key (bool_decide (is_Some partitionRowCount)) baseKey) true []])%list,
                       mkChannelState 0 0 fresh)
                  end in
  match partitionRowCount with
  | Some max =>
      if max <=? rowCount cs then
        let shard := i64 (extShard cs + 1) in
        send_row (mkSplitter (sp_chanState s) (sp_partitions s ++ [mkPartition baseKey (ext_key baseKey shard) false []])%list)
          baseKey (mkChannelState 0 shard (length (sp_partitions s))) row
      else send_row s baseKey cs row
  | None => send_row s baseKey cs row
  end.

Fixpoint split_rows (on : splitOn) (partitionRowCount : option Z) (s : splitter) (n : nat) (rows : list record)
  : splitter * nat * res unit :=
  match rows with
  | [] => (s, n, Ret tt)
  | row :: rows' =>
      let '(n, k) := base_key on n row in
      match k with
      | Ret k =>
          if hashable k then split_rows on partitionRowCount (split_row partitionRowCount s k row) n rows'
          else (s, n, Panic "runtime error: hash of unhashable type")
      | r => (s, n, let! _ := r in Ret tt)
      end
  end.
(** The partitions and their rows, and the error that ended the loop. *)
Definition split_source (on : splitOn) (partitionRowCount : option Z) (n : nat) (rows : list record) : list partition * nat * res unit :=
  let '(s, n, r) := split_rows on partitionRowCount (mkSplitter [] []) n rows in (sp_partitions s, n, r).

(** ** The configuration of a splitter *)
Record SplitterSpec := mkSplitterSpec {
  sp_Type : string; sp_Column : string; sp_DefaultSplitterValue : string; sp_ShardOn : option HashExpression; sp_PartitionRowCount : Z }.

(** What the rows are split on: a column first, then a hash, then the default
    value. *)
Definition splitter_config (sharding : ShardingInfo) (ReplaceEnvVars : string → string) (source : InputChannel) (config : SplitterSpec)
  : res (splitOn * option Z) :=
  if is_empty (sp_Column config) && is_empty (sp_DefaultSplitterValue config) && negb (bool_decide (is_Some (sp_ShardOn config)))
  then Fail "error: invalid splitter_config, must specify column, shard_on or default_splitter_value"
  else
    let! count :=
      if is_empty (sp_Type config) || String.eqb (sp_Type config) "standard" then Ret None
      else if String.eqb (sp_Type config) "ext_count" then
        if sp_PartitionRowCount config =? 0 then Fail "error: splitter config type ext_count must have partition_row_count specified"
        else Ret (Some (sp_PartitionRowCount config))
      else Fail "error: unknown splitter config type" in
    let! column :=
      if is_empty (sp_Column config) then Ret None
      else let! idx := column_of "error: invalid column name for splitter" (ic_Columns source) (sp_Column config) in Ret (Some idx) in
    let! hash :=
      match sp_ShardOn config with
      | None => Ret None
      | Some spec =>
          let! he := wrap_err "while calling NewHashEvaluator for splitter" (NewHashEvaluator sharding source spec).2 in
          Ret (Some he)
      end in
    Ret (match column, hash with
         | Some idx, _ => splitOnColumn idx
         | None, Some he => splitOnHash he
         | None, None => splitOnDefault (ReplaceEnvVars (sp_DefaultSplitterValue config))
         end, count).
End splitter.

(** The channel a handler reads: its configuration has the class of the source, not
    its columns. *)
Definition split_channel (source : InputChannel) (p : partition) : InputChannel :=
  mkInput (ic_Name source) (ic_Columns source) (if pt_domainKeys p then ic_DomainKeySpec source else None) [] (ic_ClassName source).

(** A channel handler: operators of its own, built for the partition. *)
Definition startSplitterChannelHandler {A} (build : InputChannel → any → A → nat → nat * res (option evaluator))
  (apply : list A) (source : InputChannel) (p : partition) (n : nat) : nat * list (list record) * res unit :=
  let '(n, evs) := build_all (build (split_channel source p) (pt_key p)) apply n in
  match evs with
  | Ret evs =>
      fan_run "while calling Apply on PipeTransformationEvaluator (in startSplitterChannelHandler)"
        "while calling done on PipeTransformationEvaluator (in startSplitterChannelHandler)" evs n (pt_rows p)
  | r => (n, const [] <$> apply, let! _ := r in Ret tt)
  end.
