(* ===== verification/PipeExecLaws.v ===== *)
(** * Properties of the executors

    The splitter sends every record once, to a partition of its key, in order; with a
    row count it cuts the records of a key in full partitions. The operators of a
    fan_out that do not change the record are independent: each sends what it would
    send alone. *)
From stdpp Require Import base list strings gmap.
From Stdlib Require Import ZArith Lia SpecFloat Ascii.
From S2P Require Import Prelude GoFloat GoText GoValue EvalOperators Records HashKey ColumnBuild Pipes PipeExec.
Local Open Scope string_scope.
Local Open Scope Z_scope.

#[local] Set Warnings "-register-all".

(** ** Keys *)
Lemma f64_eq_true a b : f64_eq a b = true ↔
  (a = b ∧ a ≠ S754_nan) ∨ (∃ s s', a = S754_zero s ∧ b = S754_zero s').
Proof.
  split.
  - destruct a as [s|s| |s m e], b as [s'|s'| |s' m' e']; try (destruct s'); try (destruct s); cbn; try done;
      try (by intros; left); try (by intros; right; eauto).
    all: unfold f64_eq, SFeqb, SFcompare; destruct (e ?= e')%Z eqn:E; try done;
      apply Z.compare_eq in E as ->; destruct (Pos.compare_cont Eq m m') eqn:E'; try done;
      apply Pos.compare_eq in E' as ->; by left.
  - intros [[-> Hn]|(s & s' & -> & ->)]; [|done].
    destruct b as [s|[]| |[] m e]; try done; unfold f64_eq, SFeqb, SFcompare; by rewrite Z.compare_refl, Pos.compare_cont_refl.
Qed.
Lemma f64_eq_sym_true a b : f64_eq a b = true → f64_eq b a = true.
Proof. rewrite !f64_eq_true. intros [[-> ?]|(s & s' & -> & ->)]; [by left|right; eauto]. Qed.
Lemma f64_eq_trans a b c : f64_eq a b = true → f64_eq b c = true → f64_eq a c = true.
Proof. rewrite !f64_eq_true. intros [[-> ?]|(s & s' & -> & ->)] [[<- ?]|(t & t' & ? & ->)]; simplify_eq; eauto 10. Qed.

Lemma key_eqb_sym a b : key_eqb a b = key_eqb b a.
Proof.
  assert (Hs : ∀ a b, key_eqb a b = true → key_eqb b a = true).
  { clear. intros a b. destruct a, b; try done; cbn [key_eqb]; rewrite ?andb_true_iff, ?String.eqb_eq, ?Z.eqb_eq; intros; subst; try done.
    1-2: by apply f64_eq_sym_true.
    - by destruct b, b0.
    - destruct H as [[-> ->] H]. split_and!; [done|done|]. by destruct (t_loc t), (t_loc t0). }
  destruct (key_eqb a b) eqn:E; [by rewrite (Hs _ _ E)|]. destruct (key_eqb b a) eqn:E'; [|done]. apply Hs in E'. congruence.
Qed.
Lemma key_eqb_trans a b c : key_eqb a b = true → key_eqb b c = true → key_eqb a c = true.
Proof.
  destruct a, b; try done; destruct c; try done; cbn [key_eqb]; rewrite ?andb_true_iff, ?String.eqb_eq, ?Z.eqb_eq; intros; subst; try done.
  1-2: by eapply f64_eq_trans.
  - by destruct b, b0, b1.
  - destruct H as [[-> ->] H]; destruct H0 as [[-> ->] H0]. split_and!; [done|done|]. by destruct (t_loc t), (t_loc t0), (t_loc t1).
Qed.
(** Keys that are the same are the same as the same keys. *)
Lemma key_eqb_same a b c : key_eqb a b = true → key_eqb a c = key_eqb b c.
Proof.
  intros E. destruct (key_eqb b c) eqn:E'; [by eapply key_eqb_trans|].
  destruct (key_eqb a c) eqn:E''; [|done]. rewrite key_eqb_sym in E. by rewrite (key_eqb_trans _ _ _ E E'') in E'.
Qed.

Lemma get_put st k cs k' : get_state (put_state st k cs) k' = if key_eqb k k' then Some cs else get_state st k'.
Proof.
  induction st as [|[k0 cs0] st IH]; simpl; [done|]. destruct (key_eqb k0 k) eqn:E; simpl.
  - rewrite (key_eqb_same _ _ k' E). by destruct (key_eqb k k').
  - rewrite IH. destruct (key_eqb k0 k') eqn:E'; [|done]. destruct (key_eqb k k') eqn:E''; [|done].
    rewrite key_eqb_sym in E''. rewrite (key_eqb_trans _ _ _ E' E'') in E. done.
Qed.

(** ** The rows of a key *)
Definition of_key (k : any) (p : partition) : bool := key_eqb (pt_baseKey p) k.
Definition rows_at (k : any) (ps : list partition) : list record := concat (pt_rows <$> List.filter (of_key k) ps).
Definition keyed_at (k : any) (done : list (any * record)) : list record := (List.filter (λ e, key_eqb e.1 k) done).*2.

Definition add_row (row : record) (p : partition) : partition :=
  mkPartition (pt_baseKey p) (pt_key p) (pt_domainKeys p) (pt_rows p ++ [row])%list.

Lemma rows_at_app k l1 l2 : rows_at k (l1 ++ l2)%list = (rows_at k l1 ++ rows_at k l2)%list.
Proof. unfold rows_at. by rewrite List.filter_app, fmap_app, concat_app. Qed.
Lemma rows_at_cons k p ps : rows_at k (p :: ps) = ((if of_key k p then pt_rows p else []) ++ rows_at k ps)%list.
Proof. unfold rows_at. cbn [List.filter]. by destruct (of_key k p). Qed.
Lemma rows_at_none k ps : (∀ j q, ps !! j = Some q → of_key k q = false) → rows_at k ps = [].
Proof.
  intros Hn. induction ps as [|p ps IH]; [done|]. rewrite rows_at_cons, (Hn O p eq_refl). apply IH. intros j. apply (Hn (S j)).
Qed.
(** A row added to the last partition of its key. *)
Lemma rows_at_add ps i p k0 k row : ps !! i = Some p → of_key k0 p = true →
  (∀ j q, (i < j)%nat → ps !! j = Some q → of_key k0 q = false) →
  rows_at k (alter (add_row row) i ps) = (rows_at k ps ++ if key_eqb k0 k then [row] else [])%list.
Proof.
  unfold of_key. revert i. induction ps as [|p' ps IH]; [done|]. intros [|i] Hi Hk Hlast; cbn [alter list_alter].
  - simpl in Hi. injection Hi as ->. rewrite !rows_at_cons. unfold of_key. cbn [add_row pt_baseKey pt_rows].
    rewrite (key_eqb_same _ _ k Hk). destruct (key_eqb k0 k) eqn:E; [|by rewrite app_nil_r].
    rewrite (rows_at_none k ps); [by rewrite !app_nil_r|]. intros j q Hq. unfold of_key.
    rewrite key_eqb_sym, <- (key_eqb_same _ _ _ E), key_eqb_sym. apply (Hlast (S j)); [lia|done].
  - rewrite !rows_at_cons, (IH i Hi Hk), (assoc_L (++)%list); [done|]. intros j q Hj Hq. apply (Hlast (S j)); [lia|done].
Qed.
Lemma concat_add ps i p row : ps !! i = Some p → concat (pt_rows <$> alter (add_row row) i ps) ≡ₚ row :: concat (pt_rows <$> ps).
Proof.
  revert i. induction ps as [|p' ps IH]; [done|]. intros [|i] Hi; cbn [alter list_alter fmap list_fmap concat add_row pt_rows].
  - rewrite <- (assoc_L (++)%list). simpl. symmetry. apply Permutation_middle.
  - rewrite (IH i Hi). symmetry. apply Permutation_middle.
Qed.
Lemma keyed_at_app k l1 l2 : keyed_at k (l1 ++ l2)%list = (keyed_at k l1 ++ keyed_at k l2)%list.
Proof. unfold keyed_at. by rewrite List.filter_app, fmap_app. Qed.

(** ** The invariant of the splitter *)
Section invariant.
Context `{GoFmt}.

(** The channel of a key is the last partition of that key. *)
Definition current (ps : list partition) (k : any) (i : nat) : Prop :=
  (∃ p, ps !! i = Some p ∧ of_key k p = true) ∧ ∀ j q, (i < j)%nat → ps !! j = Some q → of_key k q = false.
Definition counted (prc : option Z) (ps : list partition) (cs : ChannelState) : Prop :=
  ∀ max p, prc = Some max → ps !! cs_partition cs = Some p → rowCount cs = Z.of_nat (length (pt_rows p)).
(** A partition is not empty and not over full; it is full when its key has a later
    one. *)
Definition sized (max : Z) (ps : list partition) : Prop :=
  ∀ i p, ps !! i = Some p → 1 ≤ Z.of_nat (length (pt_rows p)) ≤ max ∧
    ∀ j q, (i < j)%nat → ps !! j = Some q → of_key (pt_baseKey p) q = true → Z.of_nat (length (pt_rows p)) = max.

Record split_inv (prc : option Z) (s : splitter) (done : list (any * record)) : Prop := {
  si_known k cs : get_state (sp_chanState s) k = Some cs → current (sp_partitions s) k (cs_partition cs) ∧ counted prc (sp_partitions s) cs;
  si_unknown k : get_state (sp_chanState s) k = None → ∀ j q, sp_partitions s !! j = Some q → of_key k q = false;
  si_rows k : rows_at k (sp_partitions s) = keyed_at k done;
  si_all : concat (pt_rows <$> sp_partitions s) ≡ₚ done.*2;
  si_sized max : prc = Some max → sized max (sp_partitions s);
  si_single : prc = None → ∀ i j p q, (i < j)%nat → sp_partitions s !! i = Some p → sp_partitions s !! j = Some q →
    of_key (pt_baseKey p) q = false }.

Lemma split_inv_start prc : split_inv prc (mkSplitter [] []) [].
Proof. by split. Qed.

Lemma lookup_snoc (ps : list partition) x j q : (ps ++ [x])%list !! j = Some q → ps !! j = Some q ∨ j = length ps ∧ q = x.
Proof.
  intros Hj%lookup_app_Some. destruct Hj as [|[Hle Hj]]; [by left|right].
  apply list_lookup_singleton_Some in Hj as [? ->]. split; [lia|done].
Qed.
Lemma lookup_before (ps : list partition) i j p : ps !! i = Some p → (length ps < j)%nat → (i < j)%nat.
Proof. intros ?%lookup_lt_Some. lia. Qed.

(** A new partition with its first row. *)
Lemma split_inv_append prc s done k key dk row sh :
  split_inv prc s done →
  (∀ max, prc = Some max → 1 ≤ max ∧ ∀ i p, sp_partitions s !! i = Some p → of_key k p = true → Z.of_nat (length (pt_rows p)) = max) →
  (prc = None → ∀ i p, sp_partitions s !! i = Some p → of_key k p = false) →
  split_inv prc (mkSplitter (put_state (sp_chanState s) k (mkChannelState 1 sh (length (sp_partitions s))))
                   (sp_partitions s ++ [mkPartition k key dk [row]])%list) (done ++ [(k, row)])%list.
Proof.
  intros [Hkn Hun Hrows Hall Hsz Hsg] Hmax Hnone.
  assert (Hnew : ∀ k', of_key k' (mkPartition k key dk [row]) = key_eqb k k') by done.
  split; cbn [sp_chanState sp_partitions].
  - intros k' cs. rewrite get_put. destruct (key_eqb k k') eqn:E.
    + intros [= <-]. unfold current, counted. cbn [cs_partition rowCount].
      assert (Hl : (sp_partitions s ++ [mkPartition k key dk [row]])%list !! length (sp_partitions s) = Some (mkPartition k key dk [row]))
        by by rewrite lookup_app_r, Nat.sub_diag.
      split; [split|].
      * by eexists.
      * intros j q Hj Hq%lookup_lt_Some. rewrite length_app in Hq. simpl in Hq. lia.
      * intros max p _. rewrite Hl. by intros [= <-].
    + intros Hg. destruct (Hkn _ _ Hg) as [[(p & Hp & Hk) Hlast] Hc]. split; [split|].
      * exists p. split; [by apply lookup_app_l_Some|done].
      * intros j q Hj [Hq|[-> ->]]%lookup_snoc; [by eapply Hlast|]. by rewrite Hnew.
      * intros max p' Hm [Hq|[Hq _]]%lookup_snoc; [by apply (Hc max)|]. apply lookup_lt_Some in Hp. lia.
  - intros k'. rewrite get_put. destruct (key_eqb k k') eqn:E; [done|]. intros Hg j q [Hq|[_ ->]]%lookup_snoc; [by eapply Hun|by rewrite Hnew].
  - intros k'. rewrite rows_at_app, keyed_at_app, Hrows. f_equal. unfold rows_at, keyed_at, of_key. simpl. by destruct (key_eqb k k').
  - rewrite !fmap_app, concat_app, Hall. done.
  - intros max Hm. destruct (Hmax max Hm) as [H1 Hfull]. intros i p [Hp|[-> ->]]%lookup_snoc; cbn [pt_rows pt_baseKey length].
    + destruct (Hsz max Hm i p Hp) as [Hlen Hf]. split; [done|]. intros j q Hj [Hq|[-> ->]]%lookup_snoc; [by eapply Hf|].
      rewrite Hnew, key_eqb_sym. by apply (Hfull i).
    + split; [simpl; lia|]. intros j q Hj Hq%lookup_lt_Some. rewrite length_app in Hq. simpl in Hq. lia.
  - intros Hp i j p q Hij [Hi|[-> ->]]%lookup_snoc [Hj|[-> ->]]%lookup_snoc.
    + by eapply Hsg.
    + rewrite Hnew, key_eqb_sym. by apply (Hnone Hp i).
    + apply lookup_lt_Some in Hj. lia.
    + lia.
Qed.

Lemma alter_snoc (f : partition → partition) (l : list partition) x : alter f (length l) (l ++ [x])%list = (l ++ [f x])%list.
Proof. induction l as [|y l IH]; [done|]. cbn. by rewrite <- IH. Qed.

Lemma lookup_add row i (ps : list partition) j q : alter (add_row row) i ps !! j = Some q →
  ∃ p, ps !! j = Some p ∧ pt_baseKey q = pt_baseKey p ∧
    length (pt_rows q) = (length (pt_rows p) + if decide (i = j) then 1 else 0)%nat.
Proof.
  destruct (decide (i = j)) as [->|Hne].
  - rewrite list_lookup_alter_eq. intros (p & Hp & ->)%fmap_Some. exists p. cbn. rewrite length_app. done.
  - rewrite list_lookup_alter_ne by done. intros Hq. exists q. by rewrite Nat.add_0_r.
Qed.

(** A row for the current partition of its key. *)
Lemma split_inv_add prc s done k cs row : split_inv prc s done → get_state (sp_chanState s) k = Some cs →
  (∀ max, prc = Some max → rowCount cs < max < two63) →
  split_inv prc (send_row s k cs row) (done ++ [(k, row)])%list.
Proof.
  intros [Hkn Hun Hrows Hall Hsz Hsg] Hg Hmax. destruct (Hkn _ _ Hg) as [[(p & Hp & Hk) Hlast] Hc].
  unfold send_row.
  change (λ p, mkPartition (pt_baseKey p) (pt_key p) (pt_domainKeys p) (pt_rows p ++ [row])%list) with (add_row row).
  set (i := cs_partition cs) in *.
  assert (Hcur : ∀ k' i', current (sp_partitions s) k' i' → current (alter (add_row row) i (sp_partitions s)) k' i').
  { intros k' i' [(p' & Hp' & Hk') Hl']. split.
    - destruct (alter (add_row row) i (sp_partitions s) !! i') as [q|] eqn:Hq.
      + destruct (lookup_add _ _ _ _ _ Hq) as (p'' & Hp'' & Hb & _). exists q. split; [done|]. unfold of_key in *. congruence.
      + apply lookup_ge_None in Hq. rewrite length_alter in Hq. apply lookup_lt_Some in Hp'. lia.
    - intros j q Hj Hq. destruct (lookup_add _ _ _ _ _ Hq) as (p'' & Hp'' & Hb & _). unfold of_key. rewrite Hb. by apply (Hl' j). }
  split; cbn [sp_chanState sp_partitions].
  - intros k' cs'. rewrite get_put. destruct (key_eqb k k') eqn:E.
    + intros [= <-]. cbn [cs_partition]. split.
      * apply Hcur. split; [exists p; split; [done|]; by eapply key_eqb_trans|].
        intros j q Hj Hq. unfold of_key. rewrite key_eqb_sym, <- (key_eqb_same _ _ _ E), key_eqb_sym. by apply (Hlast j).
      * intros max q Hm Hq. cbn [cs_partition rowCount] in *. destruct (lookup_add _ _ _ _ _ Hq) as (p' & Hp' & _ & Hl).
        rewrite decide_True in Hl by done. rewrite Hl, (Hc max p' Hm Hp'). specialize (Hmax max Hm).
        rewrite (Hc max p' Hm Hp') in Hmax. rewrite i64_small; [lia|width; lia].
    + intros Hg'. destruct (Hkn _ _ Hg') as [Hcu Hco]. split; [by apply Hcur|]. intros max q Hm Hq.
      destruct (lookup_add _ _ _ _ _ Hq) as (p' & Hp' & Hb & Hl). rewrite (Hco max p' Hm Hp').
      rewrite decide_False in Hl; [lia|]. intros Hii.
      destruct Hcu as [(p'' & Hp'' & Hk'') _]. rewrite <- Hii in Hp''. assert (p'' = p) as -> by congruence. unfold of_key in *.
      rewrite (key_eqb_same _ _ k' Hk) in Hk''. congruence.
  - intros k'. rewrite get_put. destruct (key_eqb k k') eqn:E; [done|]. intros Hg' j q Hq.
    destruct (lookup_add _ _ _ _ _ Hq) as (p' & Hp' & Hb & _). unfold of_key. rewrite Hb. by apply (Hun k' Hg' j).
  - intros k'. rewrite keyed_at_app, <- Hrows, (rows_at_add _ _ p k) by done. f_equal. unfold keyed_at. simpl. by destruct (key_eqb k k').
  - rewrite (concat_add _ _ p) by done. rewrite fmap_app, Hall. apply Permutation_cons_append.
  - intros max Hm j q Hq. destruct (lookup_add _ _ _ _ _ Hq) as (p' & Hp' & Hb & Hl). rewrite Hl, Hb.
    destruct (Hsz max Hm j p' Hp') as [Hlen Hf]. specialize (Hmax max Hm). split.
    + destruct (decide (i = j)) as [<-|]; [|lia]. rewrite (Hc max p' Hm Hp') in Hmax. lia.
    + intros j' q' Hj' Hq' Hk'. destruct (lookup_add _ _ _ _ _ Hq') as (p'' & Hp'' & Hb' & _).
      unfold of_key in *. rewrite Hb' in Hk'. destruct (decide (i = j)) as [<-|].
      * simplify_eq. specialize (Hlast j' p'' Hj' Hp''). rewrite key_eqb_sym in Hk'. rewrite (key_eqb_same _ _ _ Hk') in Hk.
        congruence.
      * rewrite Nat.add_0_r. by eapply Hf.
  - intros Hn j j' q q' Hj Hq Hq'. destruct (lookup_add _ _ _ _ _ Hq) as (p' & Hp' & Hb & _).
    destruct (lookup_add _ _ _ _ _ Hq') as (p'' & Hp'' & Hb' & _). unfold of_key. rewrite Hb, Hb'. by eapply Hsg.
Qed.

Lemma split_inv_row prc s done k row : split_inv prc s done → (∀ max, prc = Some max → 1 ≤ max < two63) →
  split_inv prc (split_row prc s k row) (done ++ [(k, row)])%list.
Proof.
  intros Hi Hmax. pose proof Hi as [Hkn Hun _ _ Hsz _]. unfold split_row.
  destruct (get_state (sp_chanState s) k) as [cs|] eqn:Hg.
  - destruct prc as [max|]; [|by apply split_inv_add]. specialize (Hmax max eq_refl).
    destruct (Z.leb_spec max (rowCount cs)); [|apply split_inv_add; [done|done|]; intros ? [= <-]; lia].
    unfold send_row. cbn [sp_chanState sp_partitions rowCount extShard cs_partition]. rewrite alter_snoc.
    apply split_inv_append; [done| |done]. intros ? [= <-]. split; [lia|]. intros i p Hp Hk.
    destruct (Hkn _ _ Hg) as [[(p' & Hp' & Hk') Hlast] Hc].
    destruct (Nat.lt_trichotomy i (cs_partition cs)) as [Hlt|[->|Hgt]].
    + destruct (Hsz max eq_refl i p Hp) as [_ Hf]. apply (Hf _ _ Hlt Hp'). unfold of_key in *.
      rewrite key_eqb_sym in Hk. by eapply key_eqb_trans.
    + destruct (Hsz max eq_refl _ p Hp) as [Hlen _]. rewrite (Hc max p eq_refl Hp) in *. lia.
    + by rewrite (Hlast i p Hgt Hp) in Hk.
  - assert (Hno : ∀ i p, sp_partitions s !! i = Some p → of_key k p = false) by (intros; by eapply Hun).
    assert (Hcut : match prc with Some max => max <=? 0 | None => false end = false).
    { destruct prc as [max|]; [|done]. specialize (Hmax max eq_refl). lia. }
    set (key := first_key _ k).
    assert (Hs : split_inv prc (send_row (mkSplitter (sp_chanState s) (sp_partitions s ++ [mkPartition k key true []])%list) k
                                  (mkChannelState 0 0 (length (sp_partitions s))) row) (done ++ [(k, row)])%list).
    { unfold send_row. cbn [sp_chanState sp_partitions rowCount extShard cs_partition]. rewrite alter_snoc.
      apply split_inv_append; [done| |by intros _]. intros max Hm. split; [by apply Hmax|]. intros i p Hp Hk. by rewrite (Hno i p Hp) in Hk. }
    destruct prc as [max|]; [|done]. cbn [rowCount]. by rewrite Hcut.
Qed.
End invariant.

(** ** Splitting a source *)
Section splitting.
Context `{GoArch} `{GoUnicode} `{GoFmt} `{GoZone} `{GoRand} `{DomainKeyEnv}.

(** The base keys of the rows. *)
Fixpoint row_keys (on : splitOn) (n : nat) (rows : list record) : res (list any) :=
  match rows with
  | [] => Ret []
  | row :: rows' =>
      let '(n, k) := base_key on n row in
      let! k := k in
      let! ks := row_keys on n rows' in
      Ret (k :: ks)
  end.

Lemma row_keys_cons on n row rows ks : row_keys on n (row :: rows) = Ret ks →
  ∃ n' k ks', base_key on n row = (n', Ret k) ∧ row_keys on n' rows = Ret ks' ∧ ks = k :: ks'.
Proof.
  cbn [row_keys]. destruct (base_key on n row) as [n' k]. intros (k' & -> & (ks' & E & [= <-])%res_bind_Ret)%res_bind_Ret. eauto 10.
Qed.

Lemma split_rows_inv on prc rows : (∀ max, prc = Some max → 1 ≤ max < two63) →
  ∀ s n ks done, row_keys on n rows = Ret ks → Forall (λ k, hashable k = true) ks → split_inv prc s done →
  ∃ s' n', split_rows on prc s n rows = (s', n', Ret tt) ∧ split_inv prc s' (done ++ zip ks rows)%list ∧ (zip ks rows).*2 = rows.
Proof.
  intros Hmax. induction rows as [|row rows IH]; intros s n ks done Hk Hh Hi.
  { injection Hk as <-. exists s, n. by rewrite app_nil_r. }
  apply row_keys_cons in Hk as (n' & k & ks' & Eb & Hk & ->). apply Forall_cons in Hh as [Hh Hhs].
  destruct (IH (split_row prc s k row) n' ks' (done ++ [(k, row)])%list Hk Hhs) as (s' & n'' & E & Hi' & Hz); [by apply split_inv_row|].
  exists s', n''. cbn [split_rows zip zip_with]. rewrite Eb, Hh. split_and!; [done| |].
  - by rewrite <- (assoc_L (++)%list) in Hi'.
  - rewrite fmap_cons. f_equal. apply Hz.
Qed.

(** C5. The splitter: when every row has a key that can be hashed, no row is lost or
    sent twice, the partitions of a key hold its rows in the order of the source, no
    partition with a row limit is over full and a key opens a new one only when the
    last is full; without a limit a key has one partition. *)
Theorem splitter_partitions on prc n rows ks :
  row_keys on n rows = Ret ks → Forall (λ k, hashable k = true) ks → (∀ max, prc = Some max → 1 ≤ max < two63) →
  ∃ ps n', split_source on prc n rows = (ps, n', Ret tt) ∧
    concat (pt_rows <$> ps) ≡ₚ rows ∧
    (∀ k, rows_at k ps = keyed_at k (zip ks rows)) ∧
    (∀ max, prc = Some max → sized max ps) ∧
    (prc = None → ∀ i j p q, (i < j)%nat → ps !! i = Some p → ps !! j = Some q → key_eqb (pt_baseKey q) (pt_baseKey p) = false).
Proof.
  intros Hk Hh Hmax. destruct (split_rows_inv on prc rows Hmax _ n ks [] Hk Hh (split_inv_start prc)) as (s & n' & E & Hi & Hz).
  exists (sp_partitions s), n'. unfold split_source. rewrite E. destruct Hi as [_ _ Hr Ha Hs Hsg].
  split_and!; [done| |done|done|done].
  cbn in Ha. by rewrite Hz in Ha.
Qed.
End splitting.

(** ** Independent operators *)

(** The operator leaves the record and the supply as they are. *)
Class ReadOnly (S : Type) `{PipeTransformationEvaluator S} := {
  ro_row s n row : po_row (Apply s n row) = row;
  ro_n s n row : po_n (Apply s n row) = n;
  ro_done s n : po_n (pipe_Done s n) = n }.
Definition read_only (e : evaluator) : Prop := @ReadOnly (ev_type e) (ev_ops e).

(** What an operator does on its own. *)
Definition fed (n : nat) (rows : list record) (e : evaluator) : evaluator * nat * list record * res unit :=
  let '(s, n, sent, r) := @feed _ (ev_ops e) (ev_state e) n rows in (@mkEvaluator _ (ev_ops e) s, n, sent, r).
Arguments fed : simpl never.
Arguments ev_Apply : simpl never.
Arguments ev_Done : simpl never.
Definition alone (n : nat) (rows : list record) (e : evaluator) : list record * res unit :=
  @run_pipe _ (ev_ops e) (ev_state e) n rows.
Definition each {A} (f : evaluator → A) (skip : A) (evs : list (option evaluator)) : list A := from_option f skip <$> evs.
Definition every (P : evaluator → Prop) (evs : list (option evaluator)) : Prop := Forall (λ oe, from_option P True oe) evs.

Lemma every_cons P e evs : every P (e :: evs) → from_option P True e ∧ every P evs.
Proof. by intros [? ?]%Forall_cons. Qed.
Lemma every_impl (P Q : evaluator → Prop) evs : (∀ e, P e → Q e) → every P evs → every Q evs.
Proof. intros HPQ He. eapply Forall_impl; [exact He|]. intros [e|]; [apply HPQ|done]. Qed.

Lemma fan_row_each msg n row evs : every read_only evs → every (λ e, po_res (ev_Apply e n row) = Ret tt) evs →
  fan_row msg evs n row = (each (λ e, Some (po_state (ev_Apply e n row))) None evs, n, each (λ e, po_sent (ev_Apply e n row)) [] evs, Ret tt).
Proof.
  induction evs as [|[e|] evs IH]; intros Hro Hok; [done| |].
  - apply every_cons in Hro as [He Hro]. apply every_cons in Hok as [Ho Hok]. cbn [from_option] in He, Ho.
    cbn [fan_row]. rewrite Ho. assert (po_n (ev_Apply e n row) = n) as -> by apply (@ro_n _ _ He).
    assert (po_row (ev_Apply e n row) = row) as -> by apply (@ro_row _ _ He). by rewrite IH.
  - apply every_cons in Hro as [_ Hro]. apply every_cons in Hok as [_ Hok]. cbn [fan_row]. by rewrite IH.
Qed.

Lemma fed_nil n e : fed n [] e = (e, n, [], Ret tt).
Proof. by destruct e. Qed.
Lemma fed_cons n row rows e : read_only e → (fed n (row :: rows) e).2 = Ret tt →
  po_res (ev_Apply e n row) = Ret tt ∧ (fed n rows (po_state (ev_Apply e n row))).2 = Ret tt ∧
  fed n (row :: rows) e =
    let '(e', n', sent, r) := fed n rows (po_state (ev_Apply e n row)) in (e', n', (po_sent (ev_Apply e n row) ++ sent)%list, r).
Proof.
  intros Hro. unfold fed. cbn [feed]. unfold ev_Apply. cbn [po_res po_state po_sent ev_ops ev_state].
  destruct (po_res (Apply (ev_state e) n row)) as [[]|m|m|] eqn:Er; [|done..]. rewrite (@ro_n _ _ Hro).
  by destruct (feed _ n rows) as [[[s' n'] sent] r]; cbn.
Qed.
Lemma read_only_step n row e : read_only e → read_only (po_state (ev_Apply e n row)).
Proof. done. Qed.

Lemma fan_rows_each msg n rows : ∀ evs, every read_only evs → every (λ e, (fed n rows e).2 = Ret tt) evs →
  fan_rows msg evs n rows = (each (λ e, Some (fed n rows e).1.1.1) None evs, n, each (λ e, (fed n rows e).1.2) [] evs, Ret tt).
Proof.
  induction rows as [|row rows IH]; intros evs Hro Hok.
  - cbn [fan_rows]. f_equal. f_equal; [f_equal|]; unfold each, none_sent.
    + induction evs as [|[e|] evs IHe]; [done| |]; cbn; [rewrite fed_nil|]; cbn; f_equal; apply IHe;
        apply every_cons in Hro as [_ ?], Hok as [_ ?]; done.
    + apply list_fmap_ext. intros _ [e|] _; [cbn; by rewrite fed_nil|done].
  - cbn [fan_rows].
    assert (Hsteps : every (λ e, po_res (ev_Apply e n row) = Ret tt ∧ (fed n rows (po_state (ev_Apply e n row))).2 = Ret tt ∧
      fed n (row :: rows) e =
      let '(e', n', sent, r) := fed n rows (po_state (ev_Apply e n row)) in (e', n', (po_sent (ev_Apply e n row) ++ sent)%list, r)) evs).
    { unfold every in *. rewrite Forall_forall in *. intros [e|] He; [|done]. specialize (Hro _ He). specialize (Hok _ He). by apply fed_cons. }
    rewrite fan_row_each; [|done|by eapply every_impl; [|exact Hsteps]; intros e (? & _)].
    rewrite IH.
    + unfold each, join_sent. rewrite <- !list_fmap_compose. f_equal. f_equal; [f_equal|].
      * apply list_fmap_ext. intros i [e|] He; [|done]. cbn.
        pose proof (Forall_lookup_1 _ _ _ _ Hsteps He) as (_ & _ & ->). by destruct (fed n rows _) as [[[]]].
      * clear IH Hro Hok. induction Hsteps as [|[e|] evs E _ IHe]; [done| |]; cbn; f_equal; try done.
        destruct E as (_ & _ & ->). by destruct (fed n rows _) as [[[]]].
    + unfold every, each in *. apply Forall_fmap. eapply Forall_impl; [exact Hro|]. by intros [e|].
    + unfold every, each in *. apply Forall_fmap. eapply Forall_impl; [exact Hsteps|]. by intros [e|]; [intros (_ & ? & _)|].
Qed.

Lemma fan_done_each msg n evs : every read_only evs → every (λ e, po_res (ev_Done e n) = Ret tt) evs →
  fan_done msg evs n = (n, each (λ e, po_sent (ev_Done e n)) [] evs, Ret tt).
Proof.
  induction evs as [|[e|] evs IH]; intros Hro Hok; [done| |].
  - apply every_cons in Hro as [He Hro]. apply every_cons in Hok as [Ho Hok]. cbn [from_option] in He, Ho.
    cbn [fan_done]. rewrite Ho. assert (po_n (ev_Done e n) = n) as -> by apply (@ro_done _ _ He). by rewrite IH.
  - apply every_cons in Hro as [_ Hro]. apply every_cons in Hok as [_ Hok]. cbn [fan_done]. by rewrite IH.
Qed.

Lemma fed_n n rows e : read_only e → (fed n rows e).2 = Ret tt → (fed n rows e).1.1.2 = n.
Proof.
  intros Hro. revert e Hro. induction rows as [|row rows IH]; intros e Hro Hok; [by rewrite fed_nil|].
  destruct (fed_cons n row rows e Hro Hok) as (_ & Hok' & ->). specialize (IH _ (read_only_step n row e Hro) Hok').
  by destruct (fed n rows _) as [[[]]].
Qed.
Lemma alone_fed n rows e : read_only e → (alone n rows e).2 = Ret tt →
  (fed n rows e).2 = Ret tt ∧ po_res (ev_Done (fed n rows e).1.1.1 n) = Ret tt ∧
  (alone n rows e).1 = ((fed n rows e).1.2 ++ po_sent (ev_Done (fed n rows e).1.1.1 n))%list.
Proof.
  intros Hro Ha. assert (Hf : (fed n rows e).2 = Ret tt).
  { revert Ha. unfold alone, run_pipe, fed. by destruct (feed _ n rows) as [[[s' n'] sent] [[]| | |]]. }
  pose proof (fed_n n rows e Hro Hf) as Hn. revert Ha Hf Hn. unfold alone, run_pipe, fed.
  destruct (feed _ n rows) as [[[s' n'] sent] r]. cbn. by intros Ha -> ->.
Qed.

(** A fan-out of operators that do not change the record they are given: each of
    them sends what it would send alone on the same records, whatever the others
    are, and the operators whose condition does not hold send nothing. *)
Theorem fan_out_independent applyMsg doneMsg evs n rows :
  every read_only evs → every (λ e, (alone n rows e).2 = Ret tt) evs →
  fan_run applyMsg doneMsg evs n rows = (n, each (λ e, (alone n rows e).1) [] evs, Ret tt).
Proof.
  intros Hro Hok. unfold fan_run.
  assert (Hsteps : every (λ e, read_only e ∧ (fed n rows e).2 = Ret tt ∧ po_res (ev_Done (fed n rows e).1.1.1 n) = Ret tt ∧
    (alone n rows e).1 = ((fed n rows e).1.2 ++ po_sent (ev_Done (fed n rows e).1.1.1 n))%list) evs).
  { unfold every in *. rewrite Forall_forall in *. intros [e|] He; [|done]. split; [by apply Hro in He|]. apply alone_fed; [by apply Hro in He|by apply Hok in He]. }
  rewrite fan_rows_each; [|done|by eapply every_impl; [|exact Hsteps]; intros e (_ & ? & _)].
  rewrite fan_done_each.
  - f_equal. f_equal. clear Hro Hok. unfold each, join_sent. induction Hsteps as [|[e|] evs E _ IHe]; [done| |]; cbn; f_equal; try done.
    symmetry. apply E.
  - unfold every, each in *. apply Forall_fmap. eapply Forall_impl; [exact Hsteps|]. intros [e|]; [|done]. cbn. intros (He & _). unfold fed.
    destruct (feed _ n rows) as [[[]]]. exact He.
  - unfold every, each in *. apply Forall_fmap. eapply Forall_impl; [exact Hsteps|]. by intros [e|]; [intros (_ & _ & ? & _)|].
Qed.

(** The operators that only read. *)
Section read_only.
Context `{GoFmt} `{GoSort}.
#[global] Instance distinct_read_only : ReadOnly DistinctTransformationPipe.
Proof. split; [| |done]; intros s n row; cbn; unfold distinct_Apply; by repeat case_match. Qed.
#[global] Instance sort_read_only : ReadOnly SortTransformationPipe.
Proof. by split. Qed.
#[global] Instance group_by_read_only : ReadOnly GroupByTransformationPipe.
Proof. split; [| |done]; intros s n row; cbn; unfold group_by_Apply; by repeat case_match. Qed.
End read_only.
