(* ===== verification/StepConfig.v ===== *)
(** * The configuration of a step

    The part of a compute pipes document the start of a step reads and rewrites
    (src/jets/compute_pipes: actions_start_common.go, error_channel_default.go,
    site_operators.go, pipes_model.go): the pipes and their operators, the channels
    operators write to, the error channels and tables that are added by default, the
    checks made before the step starts, and the channels the executors close.

    The structs are those of pipes_model.go with the fields these functions read. *)
From stdpp Require Import base list strings gmap.
From Stdlib Require Import ZArith Lia Ascii.
From S2P Require Import Prelude GoText GoValue EvalExpression Records HashKey ColumnBuild SamplingPipes.
Local Open Scope string_scope.
Local Open Scope Z_scope.

#[local] Set Warnings "-register-all".

(** ** The document *)
Record OutputChannelConfig := mkOutputChannel {
  oc_Type : string; occ_Name : string; UseOriginalHeaders : bool; PutHeadersOnFirstPartition : bool;
  WriteStepId : string; OutputTableKey : string; SpecName : string }.
(** [None] is a pointer that is nil. *)
Abbreviation channel_ptr := (option OutputChannelConfig).

Record InputChannelConfig := mkInputChannel {
  icc_Type : string; icc_Name : string; ReadStepId : string; NbrRowsInRecord : Z; icc_PutHeadersOnFirstPartition : bool;
  QuoteAllRecords : bool; WriteDateLayout : string }.

Record MapRecordSpec := mkMapRecordSpec {
  FileMappingTableName : string; mrs_ErrorChannel : channel_ptr; OnError : string; mrs_MaxErrorCount : Z; FailOnError : bool }.
(** The error reporting of ollama_config, embed_config, vllm_config and
    render_config. *)
Record ReportingSpec := mkReporting { rs_ErrorChannel : channel_ptr; rs_MaxErrorCount : Z }.
Record JetrulesSpec := mkJetrules {
  jr_ProcessName : string; UseJetRulesGo : bool; jr_OutputChannels : list OutputChannelConfig; jr_MaxErrorCount : Z; jr_ErrorChannel : channel_ptr }.
Record AnalyzeSpec := mkAnalyze { LookupTokens : list string; DateFormatLookups : list (option string) }.
(** The tables of [deid_lookups] in the order of a [range] over the map. *)
Record AnonymizeSpec := mkAnonymize {
  an_Mode : string; an_LookupName : string; DeidLookups : list string; KeysOutputChannel : channel_ptr }.
Record ClusteringSpec := mkClustering { CorrelationOutputChannel : channel_ptr; TargetColumnsLookup : string }.
Record SiteOperatorSpec := mkSite { so_ErrorChannel : channel_ptr; so_OutputChannels : list OutputChannelConfig; Lookups : list string }.
Record FilterSpec := mkFilterSpec { RowLengthStrict : bool; fs_When : option ExpressionNode; MaxOutputCount : Z }.
Record SortSpec := mkSortSpec { so_DomainKey : string; SortByColumn : list string }.
Record GroupByConfig := mkGroupByConfig { GroupByName : list string; GroupByPos : list Z; GroupByCount : Z; gc_DomainKey : string }.
Record HighFreqColumn := mkHighFreqSpec { hc_Name : string; KeyRe : string; TopPercentile : Z; TopRank : Z }.

(** A conditional entry is its condition and the specification it applies. *)
Inductive TransformationSpec := mkTransformation {
  ts_Type : string; ts_NewRecord : bool; ts_Columns : list TransformationColumnSpec;
  ts_MapRecordConfig : option MapRecordSpec; ts_AnalyzeConfig : option AnalyzeSpec; ts_HighFreqColumns : list HighFreqColumn;
  ts_AnonymizeConfig : option AnonymizeSpec; ts_DistinctConfig : option (list string); ts_ShufflingConfig : option ShufflingSpec;
  ts_GroupByConfig : option GroupByConfig; ts_FilterConfig : option FilterSpec; ts_SortConfig : option SortSpec;
  ts_JetrulesConfig : option JetrulesSpec; ts_OllamaConfig : option ReportingSpec; ts_EmbedConfig : option ReportingSpec;
  ts_VllmConfig : option ReportingSpec; ts_RenderConfig : option ReportingSpec; ts_ClusteringConfig : option ClusteringSpec;
  ts_SiteConfig : option SiteOperatorSpec; ts_OutputChannel : OutputChannelConfig;
  ts_ConditionalConfig : list (ExpressionNode * TransformationSpec); ts_When : option ExpressionNode }.

(** [merge_channels], a list of input channels inside the input channel, is kept beside
    it. *)
Record PipeSpec := mkPipe { ps_Type : string; ps_InputChannel : InputChannelConfig; MergeChannels : list InputChannelConfig; ps_Apply : list TransformationSpec }.
Record ConditionalPipeSpec := mkConditionalPipe {
  StepName : string; UseEcsTasks : bool; UseEcsTasksWhen : option ExpressionNode; UsePythonNode : bool;
  UsePythonNodeWhen : option ExpressionNode; cp_PipesConfig : list PipeSpec; cp_When : option ExpressionNode }.
Record TableSpec := mkTable { tb_Key : string; tb_Name : string; ChannelSpecName : string }.
Record ChannelSpec := mkChannelSpec { ch_Name : string; ch_Columns : list string }.
Record ComputePipesConfig := mkConfig {
  OutputTables : list (option TableSpec); Channels : list ChannelSpec; PipesConfig : list PipeSpec;
  ReducingPipesConfig : list (list PipeSpec); ConditionalPipesConfig : list ConditionalPipeSpec }.

(** ** Setters *)
Definition set_map_record (ts : TransformationSpec) (c : option MapRecordSpec) : TransformationSpec :=
  mkTransformation (ts_Type ts) (ts_NewRecord ts) (ts_Columns ts) c (ts_AnalyzeConfig ts) (ts_HighFreqColumns ts)
    (ts_AnonymizeConfig ts) (ts_DistinctConfig ts) (ts_ShufflingConfig ts) (ts_GroupByConfig ts) (ts_FilterConfig ts) (ts_SortConfig ts)
    (ts_JetrulesConfig ts) (ts_OllamaConfig ts) (ts_EmbedConfig ts) (ts_VllmConfig ts) (ts_RenderConfig ts) (ts_ClusteringConfig ts)
    (ts_SiteConfig ts) (ts_OutputChannel ts) (ts_ConditionalConfig ts) (ts_When ts).
Definition set_jetrules (ts : TransformationSpec) (c : option JetrulesSpec) : TransformationSpec :=
  mkTransformation (ts_Type ts) (ts_NewRecord ts) (ts_Columns ts) (ts_MapRecordConfig ts) (ts_AnalyzeConfig ts) (ts_HighFreqColumns ts)
    (ts_AnonymizeConfig ts) (ts_DistinctConfig ts) (ts_ShufflingConfig ts) (ts_GroupByConfig ts) (ts_FilterConfig ts) (ts_SortConfig ts)
    c (ts_OllamaConfig ts) (ts_EmbedConfig ts) (ts_VllmConfig ts) (ts_RenderConfig ts) (ts_ClusteringConfig ts)
    (ts_SiteConfig ts) (ts_OutputChannel ts) (ts_ConditionalConfig ts) (ts_When ts).
(** The four that only report. *)
Definition set_reporting (ts : TransformationSpec) (ollama embed vllm render : option ReportingSpec) : TransformationSpec :=
  mkTransformation (ts_Type ts) (ts_NewRecord ts) (ts_Columns ts) (ts_MapRecordConfig ts) (ts_AnalyzeConfig ts) (ts_HighFreqColumns ts)
    (ts_AnonymizeConfig ts) (ts_DistinctConfig ts) (ts_ShufflingConfig ts) (ts_GroupByConfig ts) (ts_FilterConfig ts) (ts_SortConfig ts)
    (ts_JetrulesConfig ts) ollama embed vllm render (ts_ClusteringConfig ts)
    (ts_SiteConfig ts) (ts_OutputChannel ts) (ts_ConditionalConfig ts) (ts_When ts).
Definition with_apply (p : PipeSpec) (apply : list TransformationSpec) : PipeSpec :=
  mkPipe (ps_Type p) (ps_InputChannel p) (MergeChannels p) apply.

(** ** Operator types *)
Definition RenderOperatorType : string := "render".
Definition builtinOperatorTypes : list string :=
  ["map_record"; "aggregate"; "partition_writer"; "group_by"; "merge"; "distinct"; "filter"; "sort"; "jetrules"; "ollama"; "embed"; "vllm";
   "analyze"; "anonymize"; "clustering"; "high_freq"; "shuffling"; RenderOperatorType].
Definition reservedOperatorTypes : list string := (builtinOperatorTypes ++ ["infer"])%list.
Definition reserved (t : string) : bool := bool_decide (t ∈ reservedOperatorTypes).
(** The configuration of a site operator: a built-in has none. *)
Definition site_config (ts : TransformationSpec) : option SiteOperatorSpec := if reserved (ts_Type ts) then None else ts_SiteConfig ts.

Definition validateSiteOperatorSpec (ts : TransformationSpec) : res unit :=
  match ts_SiteConfig ts with
  | Some _ => if reserved (ts_Type ts) then Fail "configuration error: operator is a built-in and cannot carry a 'site_config'" else Ret tt
  | None => Ret tt
  end.

(** ** The channels of an operator *)
Definition errorChannelConfig (ts : TransformationSpec) : channel_ptr :=
  match site_config ts with
  | Some sc => so_ErrorChannel sc
  | None =>
      let t := ts_Type ts in
      if String.eqb t "map_record" then c ← ts_MapRecordConfig ts; mrs_ErrorChannel c
      else if String.eqb t "jetrules" then c ← ts_JetrulesConfig ts; jr_ErrorChannel c
      else if String.eqb t "ollama" then c ← ts_OllamaConfig ts; rs_ErrorChannel c
      else if String.eqb t "embed" then c ← ts_EmbedConfig ts; rs_ErrorChannel c
      else if String.eqb t "vllm" then c ← ts_VllmConfig ts; rs_ErrorChannel c
      else if String.eqb t RenderOperatorType then c ← ts_RenderConfig ts; rs_ErrorChannel c
      else None
  end.
Definition siteOutputChannelConfigs (ts : TransformationSpec) : list OutputChannelConfig := from_option so_OutputChannels [] (site_config ts).
Definition siteLookupKeys (ts : TransformationSpec) : list string := from_option Lookups [] (site_config ts).
Definition outputChannelConfigs (ts : TransformationSpec) : list OutputChannelConfig :=
  (ts_OutputChannel ts :: siteOutputChannelConfigs ts ++
   let t := ts_Type ts in
   if String.eqb t "jetrules" then from_option jr_OutputChannels [] (ts_JetrulesConfig ts)
   else if String.eqb t "anonymize" then option_list (c ← ts_AnonymizeConfig ts; KeysOutputChannel c)
   else if String.eqb t "clustering" then option_list (c ← ts_ClusteringConfig ts; CorrelationOutputChannel c)
   else [])%list.
(** The names that are not empty. *)
Definition names_of (channels : list OutputChannelConfig) : list string :=
  List.filter (λ name, negb (is_empty name)) (occ_Name <$> channels).
Definition outputChannelNames (ts : TransformationSpec) : list string := names_of (outputChannelConfigs ts).
Definition error_names (ts : TransformationSpec) : list string := names_of (option_list (errorChannelConfig ts)).

(** The operators of a step, pipe by pipe. *)
Definition operators (pipeConfig : list PipeSpec) : list TransformationSpec := concat (ps_Apply <$> pipeConfig).

(** ** One writer for an error channel *)
Fixpoint check_error_channels (outputs : gset string) (owners : gset string) (specs : list TransformationSpec) : res unit :=
  match specs with
  | [] => Ret tt
  | ts :: specs' =>
      match error_names ts with
      | name :: _ =>
          if bool_decide (name ∈ owners) then Fail "configuration error: two operators use the same error channel"
          else if bool_decide (name ∈ outputs)
          then Fail "configuration error: an error channel cannot be the output channel of an operator"
          else check_error_channels outputs ({[ name ]} ∪ owners) specs'
      | [] => check_error_channels outputs owners specs'
      end
  end.
Definition validateErrorChannels (pipeConfig : list PipeSpec) : res unit :=
  check_error_channels (list_to_set (concat (outputChannelNames <$> operators pipeConfig))) ∅ (operators pipeConfig).

(** ** Default error channels *)
Definition DefaultErrorChannelSpecName : string := "jets_process_errors".
Definition DefaultErrorTableKey : string := "jets_process_errors".
Definition DefaultErrorTableName : string := "jetsapi.process_errors".
Definition DefaultProcessErrorColumns : list string :=
  ["pipeline_execution_status_key"; "session_id"; "grouping_key"; "row_jets_key"; "input_column"; "error_message"; "rete_session_saved";
   "rete_session_triples"; "shard_id"; "cpipes_step_id"; "error_channel"; "operator_type"].

Section env_vars.
Context `{GoUnicode}.
(** From the value of the environment variable. *)
Definition defaultErrorReportingEnabled (v : string) : bool :=
  negb (bool_decide (ToLower (TrimSpace v) ∈ ["false"; "0"; "off"; "no"; "disabled"])).
Definition defaultErrorMaxCount (v : string) : Z :=
  let v := TrimSpace v in
  if is_empty v then 0 else match Atoi v with Some n => if n <? 1 then 0 else n | None => 0 end.
End env_vars.

Definition reportsRowLevelFailures (t : string) : bool :=
  bool_decide (t ∈ ["map_record"; "jetrules"; "ollama"; "embed"; "vllm"; RenderOperatorType]).

Definition report_to (ec : OutputChannelConfig) (c : option ReportingSpec) : option ReportingSpec :=
  (λ c, mkReporting (Some ec) (rs_MaxErrorCount c)) <$> c.
Definition report_max (n : Z) (c : option ReportingSpec) : option ReportingSpec :=
  (λ c, if rs_MaxErrorCount c =? 0 then mkReporting (rs_ErrorChannel c) n else c) <$> c.

(** [None] when the operator has no configuration to hold the channel. *)
Definition setErrorChannelConfig (ts : TransformationSpec) (ec : OutputChannelConfig) : option TransformationSpec :=
  let t := ts_Type ts in
  let ollama := ts_OllamaConfig ts in let embed := ts_EmbedConfig ts in
  let vllm := ts_VllmConfig ts in let render := ts_RenderConfig ts in
  if String.eqb t "map_record" then
    let c := default (mkMapRecordSpec "" None "" 0 false) (ts_MapRecordConfig ts) in
    Some (set_map_record ts (Some (mkMapRecordSpec (FileMappingTableName c) (Some ec) (OnError c) (mrs_MaxErrorCount c) (FailOnError c))))
  else if String.eqb t "jetrules" then
    c ← ts_JetrulesConfig ts;
    Some (set_jetrules ts (Some (mkJetrules (jr_ProcessName c) (UseJetRulesGo c) (jr_OutputChannels c) (jr_MaxErrorCount c) (Some ec))))
  else if String.eqb t "ollama" then _ ← ollama; Some (set_reporting ts (report_to ec ollama) embed vllm render)
  else if String.eqb t "embed" then _ ← embed; Some (set_reporting ts ollama (report_to ec embed) vllm render)
  else if String.eqb t "vllm" then _ ← vllm; Some (set_reporting ts ollama embed (report_to ec vllm) render)
  else if String.eqb t RenderOperatorType then _ ← render; Some (set_reporting ts ollama embed vllm (report_to ec render))
  else None.

Definition setDefaultMaxErrorCount (ts : TransformationSpec) (n : Z) : TransformationSpec :=
  let t := ts_Type ts in
  let ollama := ts_OllamaConfig ts in let embed := ts_EmbedConfig ts in
  let vllm := ts_VllmConfig ts in let render := ts_RenderConfig ts in
  if n <? 1 then ts
  else if String.eqb t "map_record" then
    set_map_record ts ((λ c, if mrs_MaxErrorCount c =? 0
                             then mkMapRecordSpec (FileMappingTableName c) (mrs_ErrorChannel c) (OnError c) n (FailOnError c) else c) <$> ts_MapRecordConfig ts)
  else if String.eqb t "jetrules" then
    set_jetrules ts ((λ c, if jr_MaxErrorCount c =? 0
                           then mkJetrules (jr_ProcessName c) (UseJetRulesGo c) (jr_OutputChannels c) n (jr_ErrorChannel c) else c) <$> ts_JetrulesConfig ts)
  else if String.eqb t "ollama" then set_reporting ts (report_max n ollama) embed vllm render
  else if String.eqb t "embed" then set_reporting ts ollama (report_max n embed) vllm render
  else if String.eqb t "vllm" then set_reporting ts ollama embed (report_max n vllm) render
  else if String.eqb t RenderOperatorType then set_reporting ts ollama embed vllm (report_max n render)
  else ts.

(** The first free name of [name], [name.2], [name.3], ...: [fuel] bounds the search,
    one more than the names taken. *)
Fixpoint free_name (fuel : nat) (name : string) (n : Z) (taken : gset string) : option string :=
  match fuel with
  | O => None
  | S fuel =>
      let candidate := name +:+ "." +:+ Itoa n in
      if bool_decide (candidate ∈ taken) then free_name fuel name (n + 1) taken else Some candidate
  end.
Definition defaultErrorChannelName (t : string) (pipeIdx applyIdx : nat) (taken : gset string) : option string :=
  let name := DefaultErrorChannelSpecName +:+ "." +:+ t +:+ "." +:+ Itoa (Z.of_nat pipeIdx) +:+ "." +:+ Itoa (Z.of_nat applyIdx) in
  if bool_decide (name ∈ taken) then free_name (S (size taken)) name 2 taken else Some name.

Definition default_channel (name : string) : OutputChannelConfig := mkOutputChannel "memory" name false false "" "" DefaultErrorChannelSpecName.

(** One operator: the specification it is left with, the names taken, whether a
    channel was added. [None] when no name was found. *)
Definition synthesize_one (maxErrorCount : Z) (i j : nat) (taken : gset string) (ts : TransformationSpec)
  : option (TransformationSpec * gset string * nat) :=
  if negb (reportsRowLevelFailures (ts_Type ts)) then Some (ts, taken, O)
  else match errorChannelConfig ts with
  | Some _ => Some (ts, taken, O)
  | None =>
      name ← defaultErrorChannelName (ts_Type ts) i j taken;
      let taken := {[ name ]} ∪ taken in
      match setErrorChannelConfig ts (default_channel name) with
      | None => Some (ts, taken, O)
      | Some ts' => Some (setDefaultMaxErrorCount ts' maxErrorCount, taken, 1%nat)
      end
  end.
Fixpoint synthesize_apply (maxErrorCount : Z) (i j : nat) (taken : gset string) (specs : list TransformationSpec)
  : option (list TransformationSpec * gset string * nat) :=
  match specs with
  | [] => Some ([], taken, O)
  | ts :: specs' =>
      '(ts', taken, k) ← synthesize_one maxErrorCount i j taken ts;
      '(specs'', taken, k') ← synthesize_apply maxErrorCount i (S j) taken specs';
      Some (ts' :: specs'', taken, (k + k')%nat)
  end.
Fixpoint synthesize_pipes (maxErrorCount : Z) (i : nat) (taken : gset string) (pipes : list PipeSpec) : option (list PipeSpec * gset string * nat) :=
  match pipes with
  | [] => Some ([], taken, O)
  | p :: pipes' =>
      '(apply, taken, k) ← synthesize_apply maxErrorCount i 0 taken (ps_Apply p);
      '(pipes'', taken, k') ← synthesize_pipes maxErrorCount (S i) taken pipes';
      Some (with_apply p apply :: pipes'', taken, (k + k')%nat)
  end.
(** The names in use before the synthesis. *)
Definition taken_names (cpConfig : ComputePipesConfig) (pipeConfig : list PipeSpec) : gset string :=
  list_to_set ((ch_Name <$> Channels cpConfig) ++
               concat ((λ ts, outputChannelNames ts ++ (occ_Name <$> option_list (errorChannelConfig ts))) <$> operators pipeConfig))%list.

Definition GetChannelSpec (cpConfig : ComputePipesConfig) (name : string) : option ChannelSpec :=
  List.find (λ ch, String.eqb (ch_Name ch) name) (Channels cpConfig).
Definition ensureDefaultErrorChannelSpec (cpConfig : ComputePipesConfig) : list ChannelSpec :=
  match GetChannelSpec cpConfig DefaultErrorChannelSpecName with
  | Some _ => Channels cpConfig
  | None => (Channels cpConfig ++ [mkChannelSpec DefaultErrorChannelSpecName DefaultProcessErrorColumns])%list
  end.
Definition defaultErrorTableIsActive (tables : list (option TableSpec)) : bool :=
  existsb (λ tbl, from_option (λ t, String.eqb (tb_Key t) DefaultErrorTableKey) false tbl) tables.
Definition ensureDefaultErrorTable (cpConfig : ComputePipesConfig) : list (option TableSpec) :=
  if defaultErrorTableIsActive (OutputTables cpConfig) then OutputTables cpConfig
  else (OutputTables cpConfig ++ [Some (mkTable DefaultErrorTableKey DefaultErrorTableName DefaultErrorChannelSpecName)])%list.

(** The configuration and the pipes of the step it leaves, and the number of channels
    added. *)
Definition SynthesizeDefaultErrorChannels (enabled : bool) (maxErrorCount : Z) (cpConfig : ComputePipesConfig) (pipeConfig : list PipeSpec)
  : option (ComputePipesConfig * list PipeSpec * nat) :=
  if negb enabled then Some (cpConfig, pipeConfig, O)
  else
    '(pipeConfig', _, k) ← synthesize_pipes maxErrorCount 0 (taken_names cpConfig pipeConfig) pipeConfig;
    Some (if (k =? 0)%nat then (cpConfig, pipeConfig', O)
          else (mkConfig (ensureDefaultErrorTable cpConfig) (ensureDefaultErrorChannelSpec cpConfig) (PipesConfig cpConfig)
                  (ReducingPipesConfig cpConfig) (ConditionalPipesConfig cpConfig), pipeConfig', k)).

Definition isDefaultErrorChannel (ec : channel_ptr) : bool :=
  match ec with
  | Some ec => String.eqb (SpecName ec) DefaultErrorChannelSpecName && negb (is_empty (occ_Name ec))
  | None => false
  end.
(** The error channels bound to the default table, each once, in order. *)
Fixpoint default_names (seen : list string) (specs : list TransformationSpec) : list string :=
  match specs with
  | [] => seen
  | ts :: specs' =>
      match errorChannelConfig ts with
      | Some ec =>
          if isDefaultErrorChannel (Some ec) && negb (bool_decide (occ_Name ec ∈ seen)) then default_names (seen ++ [occ_Name ec])%list specs'
          else default_names seen specs'
      | None => default_names seen specs'
      end
  end.
Definition defaultErrorChannelNames (pipeConfig : list PipeSpec) : list string := default_names [] (operators pipeConfig).

(** ** The tables of a step *)

(** The last entry of a key wins. *)
Definition table_of (tables : list (option TableSpec)) (key : string) : option TableSpec :=
  List.find (λ t, String.eqb (tb_Key t) key) (rev (omap id tables)).
Fixpoint add_tables (tables : list (option TableSpec)) (msg : string) (active : list TableSpec) (keys : list string) : res (list TableSpec) :=
  match keys with
  | [] => Ret active
  | key :: keys' =>
      if is_empty key || bool_decide (key ∈ (tb_Key <$> active)) then add_tables tables msg active keys'
      else match table_of tables key with
      | None => Fail msg
      | Some spec => add_tables tables msg (active ++ [spec])%list keys'
      end
  end.
Definition SelectActiveOutputTable (tables : list (option TableSpec)) (pipeConfig : list PipeSpec) : res (list TableSpec) :=
  let! active := add_tables tables "error: Output Table spec not found, is used in output_channel" []
                   ((λ ts, OutputTableKey (ts_OutputChannel ts)) <$> operators pipeConfig) in
  add_tables tables "error: Output Table spec not found, is used in a default error_channel" active
    (omap (λ ts, if isDefaultErrorChannel (errorChannelConfig ts) then Some DefaultErrorTableKey else None) (operators pipeConfig)).
