(* ===== verification/StepConfigLaws.v ===== *)
(** * Properties of the configuration of a step

    The error channels added by default leave a step valid: each operator that
    reports failures has a channel of its own. *)
From stdpp Require Import base list strings gmap pretty.
From Stdlib Require Import ZArith Lia Ascii.
From S2P Require Import Prelude GoText GoTextLaws GoValue EvalExpression Records HashKey ColumnBuild SamplingPipes StepConfig.
Local Open Scope string_scope.
Local Open Scope Z_scope.

#[local] Set Warnings "-register-all".

(** ** A free name is found *)
Definition candidates (name : string) (n : Z) (fuel : nat) : list string :=
  (λ k, name +:+ "." +:+ Itoa (n + Z.of_nat k)) <$> seq 0 fuel.
Lemma app_inj_l a b c : a +:+ b = a +:+ c → b = c.
Proof. induction a as [|x a IH]; [done|]. rewrite !str_app_cons. intros [= E]. auto. Qed.
Lemma candidates_NoDup name n fuel : NoDup (candidates name n fuel).
Proof.
  unfold candidates. apply NoDup_fmap_2_strong; [|apply NoDup_seq]. intros i j _ _ E.
  apply app_inj_l, app_inj_l in E. unfold Itoa in E. apply (inj pretty) in E. lia.
Qed.
Lemma candidates_S name n fuel : candidates name n (S fuel) = (name +:+ "." +:+ Itoa n) :: candidates name (n + 1) fuel.
Proof.
  unfold candidates. cbn [seq fmap list_fmap]. f_equal; [by rewrite Z.add_0_r|].
  rewrite <- fmap_S_seq, <- list_fmap_compose. apply list_fmap_ext. intros _ k _. cbn. by replace (n + Z.of_nat (S k)) with (n + 1 + Z.of_nat k) by lia.
Qed.
Lemma free_name_None fuel name n taken : free_name fuel name n taken = None → ∀ c, c ∈ candidates name n fuel → c ∈ taken.
Proof.
  revert n. induction fuel as [|fuel IH]; intros n; [by intros _ c ?%not_elem_of_nil|].
  rewrite candidates_S. cbn [free_name]. case_bool_decide as Hin; [|done]. intros E c [->|Hc]%elem_of_cons; [done|]. by apply (IH (n + 1)).
Qed.
Lemma free_name_Some fuel name n taken c : free_name fuel name n taken = Some c → (c ∉ taken) ∧ ∃ k, c = name +:+ "." +:+ Itoa k.
Proof.
  revert n. induction fuel as [|fuel IH]; intros n; [done|]. cbn [free_name]. case_bool_decide; [apply IH|]. intros [= <-]. eauto.
Qed.
(** More names are tried than are taken. *)
Lemma free_name_found name n taken : ∃ c, free_name (S (size taken)) name n taken = Some c.
Proof.
  destruct (free_name (S (size taken)) name n taken) as [c|] eqn:E; [by exists c|]. exfalso.
  pose proof (free_name_None _ _ _ _ E) as Hall.
  assert (Hsub : list_to_set (candidates name n (S (size taken))) ⊆ taken) by (intros c Hc%elem_of_list_to_set; by apply Hall).
  apply subseteq_size in Hsub. rewrite size_list_to_set in Hsub by apply candidates_NoDup.
  unfold candidates in Hsub. rewrite length_fmap, length_seq in Hsub. lia.
Qed.
Lemma defaultErrorChannelName_fresh t i j taken :
  ∃ name, defaultErrorChannelName t i j taken = Some name ∧ (name ∉ taken) ∧ is_empty name = false.
Proof.
  unfold defaultErrorChannelName. case_bool_decide as Hin; [|eexists; split_and!; done].
  destruct (free_name_found (DefaultErrorChannelSpecName +:+ "." +:+ t +:+ "." +:+ Itoa (Z.of_nat i) +:+ "." +:+ Itoa (Z.of_nat j)) 2 taken) as [c E].
  rewrite E. exists c. destruct (free_name_Some _ _ _ _ _ E) as (Hc & k & ->). split_and!; [done|done|done].
Qed.

(** ** The single writer rule *)
Definition errors_of (specs : list TransformationSpec) : list string := concat (error_names <$> specs).
Definition outputs_of (specs : list TransformationSpec) : list string := concat (outputChannelNames <$> specs).

Lemma error_names_short ts : error_names ts = [] ∨ ∃ name, error_names ts = [name] ∧ is_empty name = false.
Proof.
  unfold error_names, names_of. destruct (errorChannelConfig ts) as [ec|]; [|by left]. cbn.
  destruct (is_empty (occ_Name ec)) eqn:E; [by left|right]. cbn. eauto.
Qed.
Lemma check_error_channels_iff outputs owners specs : check_error_channels outputs owners specs = Ret tt ↔
  NoDup (errors_of specs) ∧ ∀ name, name ∈ errors_of specs → (name ∉ owners) ∧ (name ∉ outputs).
Proof.
  unfold errors_of. revert owners. induction specs as [|ts specs IH]; intros owners.
  { cbn. split; [|done]. intros _. split; [constructor|]. by intros name ?%not_elem_of_nil. }
  cbn [check_error_channels fmap list_fmap concat]. destruct (error_names_short ts) as [->|(name & -> & _)]; cbn [app]; [apply IH|].
  case_bool_decide as Ho; [|case_bool_decide as Hp].
  - split; [done|]. intros [_ Hn]. destruct (Hn name); [by left|done].
  - split; [done|]. intros [_ Hn]. destruct (Hn name); [by left|done].
  - rewrite IH, NoDup_cons. split.
    + intros [Hnd Hn]. split_and!; [|done|].
      * intros Hin. destruct (Hn _ Hin). set_solver.
      * intros n' [->|Hin]%elem_of_cons; [done|]. destruct (Hn _ Hin). set_solver.
    + intros [[Hni Hnd] Hn]. split; [done|]. intros n' Hin. destruct (Hn n'); [by right|]. set_solver.
Qed.
Lemma validateErrorChannels_iff pipes : validateErrorChannels pipes = Ret tt ↔
  NoDup (errors_of (operators pipes)) ∧ ∀ name, name ∈ errors_of (operators pipes) → name ∉ outputs_of (operators pipes).
Proof.
  unfold validateErrorChannels. rewrite check_error_channels_iff. fold (outputs_of (operators pipes)).
  split; intros [Hnd Hn]; (split; [done|]); intros name Hin; specialize (Hn name Hin); set_solver.
Qed.

(** ** One operator *)

(** It has a configuration that can hold an error channel. *)
Definition reports (ts : TransformationSpec) : Prop := reportsRowLevelFailures (ts_Type ts) = true ∧ is_Some (setErrorChannelConfig ts (default_channel "")).

Lemma reports_reserved t : reportsRowLevelFailures t = true → reserved t = true.
Proof. unfold reportsRowLevelFailures, reserved. rewrite !bool_decide_eq_true. unfold reservedOperatorTypes, builtinOperatorTypes. set_solver. Qed.

Lemma report_types t : reportsRowLevelFailures t = true →
  t = "map_record" ∨ t = "jetrules" ∨ t = "ollama" ∨ t = "embed" ∨ t = "vllm" ∨ t = "render".
Proof. unfold reportsRowLevelFailures, RenderOperatorType. rewrite bool_decide_eq_true. set_solver. Qed.
(** The cases of an operator that reports, by its type. *)
Ltac by_type Hr :=
  apply report_types in Hr;
  repeat (destruct Hr as [Hr|Hr]); rewrite ?Hr; cbn -[reserved].

Lemma setErrorChannelConfig_spec ts ec ts' : reportsRowLevelFailures (ts_Type ts) = true → setErrorChannelConfig ts ec = Some ts' →
  errorChannelConfig ts' = Some ec ∧ outputChannelConfigs ts' = outputChannelConfigs ts ∧ ts_Type ts' = ts_Type ts.
Proof.
  intros Ht. pose proof (reports_reserved _ Ht) as Hr.
  unfold setErrorChannelConfig, errorChannelConfig, outputChannelConfigs, siteOutputChannelConfigs, site_config. by_type Ht.
  1: by intros [= <-]; cbn -[reserved]; rewrite Hr, ?Ht.
  all: intros (c & Ec & [= <-])%bind_Some; cbn -[reserved]; by rewrite Hr, ?Ht, ?Ec.
Qed.
Lemma setErrorChannelConfig_any ts ec ec' : reportsRowLevelFailures (ts_Type ts) = true →
  is_Some (setErrorChannelConfig ts ec) → is_Some (setErrorChannelConfig ts ec').
Proof.
  intros Ht. unfold setErrorChannelConfig. by_type Ht; [done|..];
    by destruct (ts_JetrulesConfig ts), (ts_OllamaConfig ts), (ts_EmbedConfig ts), (ts_VllmConfig ts), (ts_RenderConfig ts).
Qed.

Lemma setDefaultMaxErrorCount_spec ts n : reportsRowLevelFailures (ts_Type ts) = true →
  errorChannelConfig (setDefaultMaxErrorCount ts n) = errorChannelConfig ts ∧
  outputChannelConfigs (setDefaultMaxErrorCount ts n) = outputChannelConfigs ts ∧ ts_Type (setDefaultMaxErrorCount ts n) = ts_Type ts.
Proof.
  intros Ht. pose proof (reports_reserved _ Ht) as Hr. unfold setDefaultMaxErrorCount. destruct (n <? 1); [done|].
  unfold errorChannelConfig, outputChannelConfigs, siteOutputChannelConfigs, site_config. by_type Ht; rewrite Hr, ?Ht; cbn.
  - destruct (ts_MapRecordConfig ts) as [c|]; [|done]. cbn. by destruct (_ =? 0).
  - destruct (ts_JetrulesConfig ts) as [c|]; [|done]. cbn. by destruct (_ =? 0).
  - destruct (ts_OllamaConfig ts) as [c|]; [|done]. cbn. by destruct (_ =? 0).
  - destruct (ts_EmbedConfig ts) as [c|]; [|done]. cbn. by destruct (_ =? 0).
  - destruct (ts_VllmConfig ts) as [c|]; [|done]. cbn. by destruct (_ =? 0).
  - destruct (ts_RenderConfig ts) as [c|]; [|done]. cbn. by destruct (_ =? 0).
Qed.

(** An operator before and after the synthesis, with the names taken. *)
Inductive synth_one (taken : gset string) (ts : TransformationSpec) : gset string → TransformationSpec → Prop :=
| synth_keep taken' : taken ⊆ taken' → (reports ts → is_Some (errorChannelConfig ts)) → synth_one taken ts taken' ts
| synth_add name ts' :
    name ∉ taken → is_empty name = false → errorChannelConfig ts = None → reportsRowLevelFailures (ts_Type ts) = true →
    errorChannelConfig ts' = Some (default_channel name) → outputChannelConfigs ts' = outputChannelConfigs ts → ts_Type ts' = ts_Type ts →
    synth_one taken ts ({[ name ]} ∪ taken) ts'.
Inductive synthesized : gset string → list TransformationSpec → gset string → list TransformationSpec → Prop :=
| synthesized_nil taken : synthesized taken [] taken []
| synthesized_cons taken ts taken1 ts' specs taken2 specs' :
    synth_one taken ts taken1 ts' → synthesized taken1 specs taken2 specs' → synthesized taken (ts :: specs) taken2 (ts' :: specs').

Lemma synthesize_one_spec max i j taken ts : ∃ ts' taken' k, synthesize_one max i j taken ts = Some (ts', taken', k) ∧ synth_one taken ts taken' ts'.
Proof.
  unfold synthesize_one. destruct (reportsRowLevelFailures (ts_Type ts)) eqn:Hr; cbn [negb].
  2:{ eexists _, _, _. split; [done|]. constructor; [done|]. intros [Hr' _]. congruence. }
  destruct (errorChannelConfig ts) as [ec|] eqn:He.
  { eexists _, _, _. split; [done|]. constructor; [done|]. by rewrite He. }
  destruct (defaultErrorChannelName_fresh (ts_Type ts) i j taken) as (name & -> & Hfresh & Hne). cbn [mbind option_bind].
  destruct (setErrorChannelConfig ts (default_channel name)) as [ts'|] eqn:Es.
  - destruct (setErrorChannelConfig_spec _ _ _ Hr Es) as (He' & Ho & Ht).
    assert (Hr' : reportsRowLevelFailures (ts_Type ts') = true) by by rewrite Ht.
    destruct (setDefaultMaxErrorCount_spec ts' max Hr') as (He2 & Ho2 & Ht2).
    eexists _, _, _. split; [done|]. apply synth_add; congruence.
  - eexists _, _, _. split; [done|]. constructor; [set_solver|]. intros [_ Hs].
    apply (setErrorChannelConfig_any ts _ (default_channel name)) in Hs; [|done]. rewrite Es in Hs. by destruct Hs.
Qed.
Lemma synthesize_apply_spec max i specs : ∀ j taken, ∃ specs' taken' k,
  synthesize_apply max i j taken specs = Some (specs', taken', k) ∧ synthesized taken specs taken' specs'.
Proof.
  induction specs as [|ts specs IH]; intros j taken; [eexists _, _, _; by split; [|constructor]|].
  destruct (synthesize_one_spec max i j taken ts) as (ts' & taken1 & k1 & E1 & H1).
  destruct (IH (S j) taken1) as (specs' & taken2 & k2 & E2 & H2).
  cbn [synthesize_apply]. rewrite E1. cbn [mbind option_bind]. rewrite E2. eexists _, _, _. split; [done|]. by econstructor.
Qed.
Lemma synthesized_app taken specs taken1 specs' rest taken2 rest' :
  synthesized taken specs taken1 specs' → synthesized taken1 rest taken2 rest' → synthesized taken (specs ++ rest)%list taken2 (specs' ++ rest')%list.
Proof. induction 1; [done|]. intros. econstructor; [done|]. by auto. Qed.
Lemma synthesize_pipes_spec max pipes : ∀ i taken, ∃ pipes' taken' k,
  synthesize_pipes max i taken pipes = Some (pipes', taken', k) ∧ synthesized taken (operators pipes) taken' (operators pipes').
Proof.
  induction pipes as [|p pipes IH]; intros i taken; [exists [], taken, O; by split; [|constructor]|].
  destruct (synthesize_apply_spec max i (ps_Apply p) O taken) as (apply & taken1 & k1 & E1 & H1).
  destruct (IH (S i) taken1) as (pipes' & taken2 & k2 & E2 & H2).
  cbn [synthesize_pipes]. rewrite E1. cbn [mbind option_bind]. rewrite E2. eexists _, _, _. split; [done|].
  unfold operators in *. cbn [fmap list_fmap concat with_apply ps_Apply]. by eapply synthesized_app.
Qed.

Lemma synthesized_outputs taken specs taken' specs' : synthesized taken specs taken' specs' → outputs_of specs' = outputs_of specs.
Proof.
  unfold outputs_of. induction 1 as [|taken ts taken1 ts' specs taken2 specs' H1 _ IH]; [done|]. cbn [fmap list_fmap concat]. rewrite IH. f_equal.
  destruct H1 as [|name ts' _ _ _ _ _ Ho _]; [done|]. unfold outputChannelNames. by rewrite Ho.
Qed.
Lemma synth_one_errors taken ts taken' ts' : synth_one taken ts taken' ts' →
  taken ⊆ taken' ∧ (error_names ts' = error_names ts ∨ ∃ name, error_names ts = [] ∧ error_names ts' = [name] ∧ (name ∉ taken) ∧ name ∈ taken').
Proof.
  intros [taken1 Hs _|name ts1 Hf Hne He _ He' _ _]; [by split; [|left]|]. split; [set_solver|]. right. exists name.
  unfold error_names, names_of. rewrite He, He'. cbn -[is_empty]. rewrite Hne. cbn. split_and!; [done|done|done|set_solver].
Qed.
Lemma synthesized_errors taken specs taken' specs' : synthesized taken specs taken' specs' →
  NoDup (errors_of specs) → (∀ name, name ∈ errors_of specs → name ∈ taken) →
  NoDup (errors_of specs') ∧ ∀ name, name ∈ errors_of specs' → name ∈ errors_of specs ∨ name ∉ taken.
Proof.
  unfold errors_of. induction 1 as [|taken ts taken1 ts' specs taken2 specs' H1 _ IH]; cbn [fmap list_fmap concat]; [by auto|].
  intros Hnd Hin. apply NoDup_app in Hnd as (Hnd1 & Hdis & Hnd2). apply synth_one_errors in H1 as [Hsub He].
  destruct IH as [Hnd' Hin']; [done|intros name Hn; apply Hsub, Hin; set_solver|].
  destruct He as [->|(name & Hnil & -> & Hf & Hf')].
  - split; [apply NoDup_app; split_and!; [done| |done]|]; [intros name Hn Hn'|intros name Hn]; set_solver.
  - rewrite Hnil in *. cbn [app] in *. split; [apply NoDup_cons; split; [|done]; intros Hn|intros n Hn]; set_solver.
Qed.

(** What the synthesis does to an operator, against the names first taken. *)
Definition given_channel (taken : gset string) (ts ts' : TransformationSpec) : Prop :=
  ts_Type ts' = ts_Type ts ∧ outputChannelNames ts' = outputChannelNames ts ∧
  (is_Some (errorChannelConfig ts) → ts' = ts) ∧
  (reports ts → ∃ ec, errorChannelConfig ts' = Some ec ∧
     (errorChannelConfig ts = None → SpecName ec = DefaultErrorChannelSpecName ∧ occ_Name ec ∉ taken)).
Lemma synthesized_given taken0 taken specs taken' specs' : synthesized taken specs taken' specs' → taken0 ⊆ taken →
  Forall2 (given_channel taken0) specs specs'.
Proof.
  induction 1 as [|taken ts taken1 ts' specs taken2 specs' H1 _ IH]; intros Hsub; constructor.
  - destruct H1 as [taken1 _ Hk|name ts' Hf Hne He Hr He' Ho Ht]; unfold given_channel.
    + split_and!; [done|done|done|]. intros Hr. destruct (Hk Hr) as [ec He]. exists ec. split; [done|congruence].
    + split_and!; [done|unfold outputChannelNames; by rewrite Ho|by rewrite He; intros []|]. intros _. exists (default_channel name).
      split_and!; [done|]. intros _. split; [done|]. cbn. set_solver.
  - apply IH. apply synth_one_errors in H1 as [? _]. set_solver.
Qed.

(** C29. Adding default error channels to a step that passes the check of its error
    channels gives a step that passes it: every operator that reports rows has an
    error channel, the added ones have names that were not taken, operators with a
    channel of their own are unchanged, and no output channel changes. *)
Theorem synthesis_keeps_steps_valid max cpConfig pipes : validateErrorChannels pipes = Ret tt →
  ∃ cpConfig' pipes' k, SynthesizeDefaultErrorChannels true max cpConfig pipes = Some (cpConfig', pipes', k) ∧
    validateErrorChannels pipes' = Ret tt ∧
    Forall2 (given_channel (taken_names cpConfig pipes)) (operators pipes) (operators pipes').
Proof.
  rewrite validateErrorChannels_iff. intros [Hnd Hdis].
  destruct (synthesize_pipes_spec max pipes O (taken_names cpConfig pipes)) as (pipes' & taken' & k & E & Hs).
  unfold SynthesizeDefaultErrorChannels. cbn [negb]. rewrite E. cbn [mbind option_bind].
  assert (Hto : ∀ name, name ∈ outputs_of (operators pipes) → name ∈ taken_names cpConfig pipes).
  { intros name. unfold outputs_of, taken_names. rewrite !list_elem_of_In, !in_concat. intros (l & Hl & Hn).
    apply elem_of_list_to_set, elem_of_app. right. apply list_elem_of_In, in_concat.
    apply list_elem_of_In, list_elem_of_fmap in Hl as (ts & -> & Hts). eexists. split; [apply list_elem_of_In, list_elem_of_fmap; by exists ts|].
    apply in_app_iff. by left. }
  assert (Hte : ∀ name, name ∈ errors_of (operators pipes) → name ∈ taken_names cpConfig pipes).
  { intros name. unfold errors_of, taken_names. rewrite !list_elem_of_In, !in_concat. intros (l & Hl & Hn).
    apply elem_of_list_to_set, elem_of_app. right. apply list_elem_of_In, in_concat.
    apply list_elem_of_In, list_elem_of_fmap in Hl as (ts & -> & Hts). eexists. split; [apply list_elem_of_In, list_elem_of_fmap; by exists ts|].
    apply in_app_iff. right. unfold error_names, names_of in Hn. by apply filter_In in Hn as [? _]. }
  destruct (synthesized_errors _ _ _ _ Hs Hnd Hte) as [Hnd' Hnew].
  assert (Hv : validateErrorChannels pipes' = Ret tt).
  { apply validateErrorChannels_iff. rewrite (synthesized_outputs _ _ _ _ Hs). split; [done|].
    intros name Hn. destruct (Hnew name Hn) as [Hold|Hfresh]; [by apply Hdis|]. intros Ho. by apply Hfresh, Hto. }
  pose proof (synthesized_given (taken_names cpConfig pipes) _ _ _ _ Hs ltac:(done)) as Hg.
  destruct (k =? 0)%nat; eexists _, _, _; (split; [done|]); by split.
Qed.
