(* ===== verification/ChannelLife.v ===== *)
(** * The life of the channels of a step

    The channel registry is made from the operators of the step
    ([StartComputePipes] of src/jets/compute_pipes/compute_pipes.go); the executors of
    the pipes close the channels their operators write to when the source of the pipe
    is exhausted, and the fan-in of the default error channels closes the channel of
    the errors table after them. A reader waits for its channel to close, so a channel
    that nothing closes makes the step wait forever: the theorem is that, in whatever
    order the pipes end, every channel ends closed. *)
From stdpp Require Import base list strings gmap relations.
From Stdlib Require Import ZArith Lia Ascii.
From S2P Require Import Prelude GoText GoValue EvalExpression Records HashKey ColumnBuild SamplingPipes StepConfig.
Local Open Scope string_scope.

#[local] Set Warnings "-register-all".

(** ** The registry *)
Definition nil_pointer : string := "runtime error: invalid memory address or nil pointer dereference".

(** The channels an operator adds to the registry. *)
Definition operator_channels (ts : TransformationSpec) : res (list OutputChannelConfig) :=
  let t := ts_Type ts in
  let! own :=
    if String.eqb t "anonymize" then
      match ts_AnonymizeConfig ts with
      | None => Panic nil_pointer
      | Some c => Ret (ts_OutputChannel ts :: option_list (KeysOutputChannel c))
      end
    else if String.eqb t "jetrules" then
      match ts_JetrulesConfig ts with
      | None => Fail "error: jetrules_config is required for transformation of type jetrules in PipesConfig"
      | Some c =>
          match jr_OutputChannels c with
          | [] => Fail "error: at least one output channel is required in jetrules_config for transformation of type jetrules in PipesConfig"
          | channels => Ret channels
          end
      end
    else if String.eqb t "clustering" then
      match (c ← ts_ClusteringConfig ts; CorrelationOutputChannel c) with
      | None => Panic nil_pointer
      | Some ch => Ret [ts_OutputChannel ts; ch]
      end
    else Ret [ts_OutputChannel ts] in
  let named := List.filter (λ ch, negb (is_empty (occ_Name ch))) in
  Ret (own ++ named (option_list (errorChannelConfig ts)) ++ named (siteOutputChannelConfigs ts))%list.
Fixpoint all_operator_channels (specs : list TransformationSpec) : res (list OutputChannelConfig) :=
  match specs with
  | [] => Ret []
  | ts :: specs' =>
      let! channels := operator_channels ts in
      let! rest := all_operator_channels specs' in
      Ret (channels ++ rest)%list
  end.
(** The names of the channels of the registry: those of the document, then those the
    operators write to. *)
Definition channel_registry (cpConfig : ComputePipesConfig) : res (list string) :=
  let! channels := all_operator_channels (operators (PipesConfig cpConfig)) in
  let specs := List.filter (λ name, negb (String.eqb name "input_row")) (ch_Name <$> Channels cpConfig) in
  match PipesConfig cpConfig with
  | [] => Panic out_of_range
  | p :: _ =>
      let known := (specs ++ if String.eqb (icc_Name (ps_InputChannel p)) "input_row" then ["input_row"] else [])%list in
      if forallb (λ ch, bool_decide (SpecName ch ∈ known)) channels then Ret (specs ++ (occ_Name <$> channels))%list
      else Fail "channel spec not found in Channel Registry"
  end.

(** ** Closing *)

(** The channels [StartFanOutPipe] closes at its end. *)
Definition fan_out_closing (ts : TransformationSpec) : list string :=
  (names_of [ts_OutputChannel ts] ++ names_of (siteOutputChannelConfigs ts) ++ error_names ts ++
   let t := ts_Type ts in
   if String.eqb t "jetrules" then occ_Name <$> from_option jr_OutputChannels [] (ts_JetrulesConfig ts)
   else if String.eqb t "clustering" then occ_Name <$> option_list (c ← ts_ClusteringConfig ts; CorrelationOutputChannel c)
   else [])%list.
(** [StartSplitterPipe] reads the configurations of jetrules and clustering without a
    check. *)
Definition splitter_closing (ts : TransformationSpec) : res (list string) :=
  let t := ts_Type ts in
  let common := (names_of [ts_OutputChannel ts] ++ names_of (siteOutputChannelConfigs ts) ++ error_names ts)%list in
  if String.eqb t "jetrules" then
    match ts_JetrulesConfig ts with None => Panic nil_pointer | Some c => Ret (common ++ (occ_Name <$> jr_OutputChannels c))%list end
  else if String.eqb t "clustering" then
    match (c ← ts_ClusteringConfig ts; CorrelationOutputChannel c) with None => Panic nil_pointer | Some ch => Ret (common ++ [occ_Name ch])%list end
  else Ret common.

(** The registry keeps the channels that are closed: a second close is skipped. *)
Definition CloseChannel (closed : gset string) (name : string) : gset string := {[ name ]} ∪ closed.
Definition close_all (closed : gset string) (names : list string) : gset string := foldl CloseChannel closed names.

(** The channel of the keys of an anonymize operator, closed by its [Finally]: only
    when it was built, in mode anonymization. *)
Definition finally_closing (built : TransformationSpec → bool) (ts : TransformationSpec) : list string :=
  if String.eqb (ts_Type ts) "anonymize" && built ts then
    match ts_AnonymizeConfig ts with
    | Some c => if String.eqb (an_Mode c) "anonymization" then occ_Name <$> option_list (KeysOutputChannel c) else []
    | None => []
    end
  else [].

(** ** A step at work *)
Section step.
Variable cpConfig : ComputePipesConfig.
(** The names of the registry, and the operators whose condition holds. *)
Variable registry : list string.
Variable built : TransformationSpec → bool.

Record run_state := mkRun { closed : gset string; finished : gset nat }.

(** The source of a pipe: that of the first pipe is the input of the step. *)
Definition source_of (i : nat) (p : PipeSpec) : string := if (i =? 0)%nat then "input_row" else icc_Name (ps_InputChannel p).
Definition pipe_closing (p : PipeSpec) : list string :=
  concat ((λ ts, finally_closing built ts ++ fan_out_closing ts)%list <$> ps_Apply p).
(** The error channels the fan-in copies. *)
Definition fan_in_sources : list string := List.filter (λ name, bool_decide (name ∈ registry)) (defaultErrorChannelNames (PipesConfig cpConfig)).

Inductive run_step : run_state → run_state → Prop :=
| pipe_ends i p s :
    PipesConfig cpConfig !! i = Some p → i ∉ finished s → source_of i p = "input_row" ∨ source_of i p ∈ closed s →
    run_step s (mkRun (close_all (closed s) (pipe_closing p)) ({[ i ]} ∪ finished s))
| fan_in_ends s :
    defaultErrorTableIsActive (OutputTables cpConfig) = true → DefaultErrorChannelSpecName ∈ registry →
    Forall (.∈ closed s) fan_in_sources → DefaultErrorChannelSpecName ∉ closed s →
    run_step s (mkRun (CloseChannel (closed s) DefaultErrorChannelSpecName) (finished s)).
Definition run_start : run_state := mkRun ∅ ∅.

(** Every pipe reads the input of the step or a channel an earlier pipe writes. *)
Definition pipes_in_order : Prop :=
  ∀ i p, PipesConfig cpConfig !! i = Some p → source_of i p = "input_row" ∨
    ∃ j q, (j < i)%nat ∧ PipesConfig cpConfig !! j = Some q ∧ source_of i p ∈ concat (fan_out_closing <$> ps_Apply q).

(** ** What is closed *)
Lemma close_all_spec names : ∀ cl name, name ∈ close_all cl names ↔ name ∈ cl ∨ name ∈ names.
Proof.
  induction names as [|n names IH]; intros cl name; cbn [close_all foldl]; [set_solver|].
  change (foldl CloseChannel (CloseChannel cl n) names) with (close_all (CloseChannel cl n) names). rewrite IH. unfold CloseChannel. set_solver.
Qed.

Definition run_inv (s : run_state) : Prop :=
  (∀ i p, PipesConfig cpConfig !! i = Some p → i ∈ finished s → ∀ name, name ∈ pipe_closing p → name ∈ closed s) ∧
  (∀ i, i ∈ finished s → is_Some (PipesConfig cpConfig !! i)).
Lemma run_inv_step s s' : run_step s s' → run_inv s → run_inv s'.
Proof.
  intros [i p s0 Hp Hn Hsrc|s0 Ht Hr Hall Hn] [Hc Hf]; split; cbn [closed finished].
  - intros j q Hq [->%elem_of_singleton|Hj]%elem_of_union name Hname; apply close_all_spec; [right; congruence|left; by eapply Hc].
  - intros j [->%elem_of_singleton|Hj]%elem_of_union; [by eexists|by apply Hf].
  - intros j q Hq Hj name Hname. unfold CloseChannel. apply elem_of_union. right. by eapply Hc.
  - done.
Qed.
Lemma run_inv_reachable s : rtc run_step run_start s → run_inv s.
Proof.
  intros Hr. assert (Hi : run_inv run_start) by (split; cbn; set_solver).
  revert Hi. induction Hr as [|s1 s2 s3 Hs _ IH]; [done|]. intros Hi. apply IH. by eapply run_inv_step.
Qed.

(** When nothing more can happen, every pipe has ended. *)
Lemma stuck_all_finished s : pipes_in_order → rtc run_step run_start s → (∀ s', ¬ run_step s s') →
  ∀ i p, PipesConfig cpConfig !! i = Some p → i ∈ finished s.
Proof.
  intros Hord Hr Hstuck. destruct (run_inv_reachable s Hr) as [Hc _].
  intros i. induction (lt_wf i) as [i _ IH]. intros p Hp. destruct (decide (i ∈ finished s)) as [|Hn]; [done|]. exfalso.
  eapply Hstuck, pipe_ends; [done..|]. destruct (Hord i p Hp) as [|(j & q & Hj & Hq & Hin)]; [by left|right].
  apply (Hc j q Hq (IH j Hj q Hq)). unfold pipe_closing.
  apply list_elem_of_In, in_concat in Hin as (l & Hl%list_elem_of_In & Hin). apply list_elem_of_fmap in Hl as (ts & -> & Hts).
  apply list_elem_of_In, in_concat. eexists. split; [apply list_elem_of_In, list_elem_of_fmap; by exists ts|]. apply in_app_iff. by right.
Qed.

Lemma closed_of_operator s i p ts name : run_inv s → PipesConfig cpConfig !! i = Some p → i ∈ finished s → ts ∈ ps_Apply p →
  name ∈ fan_out_closing ts ∨ name ∈ finally_closing built ts → name ∈ closed s.
Proof.
  intros [Hc _] Hp Hf Hts Hn. apply (Hc i p Hp Hf). unfold pipe_closing. apply list_elem_of_In, in_concat.
  eexists. split; [apply list_elem_of_In, list_elem_of_fmap; by exists ts|]. apply in_app_iff. rewrite <- !list_elem_of_In. tauto.
Qed.

(** Every step makes progress. *)
Definition unfinished (s : run_state) : gset nat := set_seq 0 (length (PipesConfig cpConfig)) ∖ finished s.
Definition remaining (s : run_state) : nat :=
  (size (unfinished s) + if decide (DefaultErrorChannelSpecName ∈ closed s) then 0 else 1)%nat.
Lemma run_step_progress s s' : run_step s s' → (remaining s' < remaining s)%nat.
Proof.
  unfold remaining, unfinished. intros [i p s0 Hp Hn Hsrc|s0 Ht Hr Hall Hn]; cbn [closed finished].
  - assert (Hsize : (size (set_seq (C := gset nat) 0 (length (PipesConfig cpConfig)) ∖ ({[ i ]} ∪ finished s0)) <
                     size (set_seq (C := gset nat) 0 (length (PipesConfig cpConfig)) ∖ finished s0))%nat).
    { apply subset_size. split; [set_solver|]. intros Hsub. apply lookup_lt_Some in Hp.
      assert (i ∈ set_seq (C := gset nat) 0 (length (PipesConfig cpConfig)) ∖ finished s0) as Hi%Hsub; [|set_solver].
      apply elem_of_difference. split; [|done]. apply elem_of_set_seq. lia. }
    destruct (decide (DefaultErrorChannelSpecName ∈ closed s0)) as [Hin|]; [|destruct (decide _); lia].
    rewrite decide_True; [lia|]. apply close_all_spec. by left.
  - rewrite (decide_False _ _ Hn), decide_True by (unfold CloseChannel; apply elem_of_union; left; by apply elem_of_singleton). lia.
Qed.
Lemma run_bounded n s s' : nsteps run_step n s s' → (n + remaining s' ≤ remaining s)%nat.
Proof. induction 1 as [|n s1 s2 s3 Hs%run_step_progress _ IH]; lia. Qed.
End step.

(** ** The channels an operator registers are closed *)
Lemma named_closed ch channels : ch ∈ List.filter (λ ch, negb (is_empty (occ_Name ch))) channels → occ_Name ch ∈ names_of channels.
Proof.
  intros [Hin Hne]%list_elem_of_In%filter_In. unfold names_of. apply list_elem_of_In, filter_In. split; [|done].
  apply list_elem_of_In, list_elem_of_fmap. by exists ch; rewrite list_elem_of_In.
Qed.
Lemma name_kept name channels : name ∈ (occ_Name <$> channels) → is_empty name = false → name ∈ names_of channels.
Proof. intros Hin Hne. unfold names_of. apply list_elem_of_In, filter_In. rewrite <- list_elem_of_In, Hne. done. Qed.

(** The keys of an anonymize operator that closes them not. *)
Definition keys_left_open (built : TransformationSpec → bool) (ts : TransformationSpec) (ch : OutputChannelConfig) : Prop :=
  ts_Type ts = "anonymize" ∧ ∃ c, ts_AnonymizeConfig ts = Some c ∧ KeysOutputChannel c = Some ch ∧
    (built ts = false ∨ an_Mode c ≠ "anonymization").

Lemma registered_closed built ts channels ch : operator_channels ts = Ret channels → ch ∈ channels → is_empty (occ_Name ch) = false →
  occ_Name ch ∈ fan_out_closing ts ∨ occ_Name ch ∈ finally_closing built ts ∨ keys_left_open built ts ch.
Proof.
  unfold operator_channels. intros (own & Eown & [= <-])%res_bind_Ret Hch Hne. unfold fan_out_closing.
  assert (Hout : ch = ts_OutputChannel ts → occ_Name ch ∈ names_of [ts_OutputChannel ts]).
  { intros ->. apply name_kept; [|done]. set_solver. }
  rewrite !elem_of_app in *. destruct Hch as [Hch|[Hch%named_closed|Hch%named_closed]]; [|tauto..].
  destruct (String.eqb_spec (ts_Type ts) "anonymize") as [Ht|Hna].
  - destruct (ts_AnonymizeConfig ts) as [c|] eqn:Ec; [|done]. injection Eown as <-. apply elem_of_cons in Hch as [Hch|Hch]; [left; auto|].
    destruct (KeysOutputChannel c) as [k|] eqn:Ek; [|by apply not_elem_of_nil in Hch]. apply list_elem_of_singleton in Hch as ->.
    right. unfold finally_closing. rewrite Ht, Ec. cbn [String.eqb Ascii.eqb Bool.eqb andb].
    destruct (built ts) eqn:Hb; [|right; split; [done|]; exists c; auto]. cbn.
    destruct (String.eqb_spec (an_Mode c) "anonymization") as [Hm|Hm]; [left; rewrite Ek; set_solver|right].
    split; [done|]. exists c. auto.
  - left. destruct (String.eqb_spec (ts_Type ts) "jetrules") as [Ht|Hnj].
    + destruct (ts_JetrulesConfig ts) as [c|]; [|done]. cbn [from_option]. destruct (jr_OutputChannels c) as [|ch0 channels0]; [done|].
      injection Eown as <-. right. right. right. by apply list_elem_of_fmap_2.
    + destruct (String.eqb_spec (ts_Type ts) "clustering") as [Ht|Hnc].
      * destruct (ts_ClusteringConfig ts ≫= _) as [k|]; [|done]. injection Eown as <-.
        apply elem_of_cons in Hch as [Hch|Hch]; [left; auto|]. apply list_elem_of_singleton in Hch as ->. right. right. right. set_solver.
      * injection Eown as <-. apply list_elem_of_singleton in Hch. left. auto.
Qed.

(** For an operator that is registered, the splitter closes what fan_out closes. *)
Lemma splitter_closes ts channels : operator_channels ts = Ret channels → splitter_closing ts = Ret (fan_out_closing ts).
Proof.
  unfold operator_channels, splitter_closing, fan_out_closing. intros (own & Eown & _)%res_bind_Ret.
  destruct (String.eqb_spec (ts_Type ts) "anonymize") as [->|]; [by cbn; rewrite ?app_nil_r|].
  destruct (String.eqb_spec (ts_Type ts) "jetrules").
  - destruct (ts_JetrulesConfig ts) as [c|]; [|done]. by rewrite <- !(assoc_L (++)%list).
  - destruct (String.eqb_spec (ts_Type ts) "clustering"); [|by rewrite !app_nil_r].
    destruct (ts_ClusteringConfig ts ≫= _) as [k|]; [|done]. by rewrite <- !(assoc_L (++)%list).
Qed.

Lemma all_channels_in specs : ∀ all ts, all_operator_channels specs = Ret all → ts ∈ specs →
  ∃ channels, operator_channels ts = Ret channels.
Proof.
  induction specs as [|ts0 specs IH]; intros all ts Hall Hts; [by apply not_elem_of_nil in Hts|].
  cbn [all_operator_channels] in Hall. apply res_bind_Ret in Hall as (ch0 & E0 & (rest & Er & _)%res_bind_Ret).
  apply elem_of_cons in Hts as [->|Hts]; [by exists ch0|by eapply IH].
Qed.
Lemma operators_elem ts pipes : ts ∈ operators pipes → ∃ i p, pipes !! i = Some p ∧ ts ∈ ps_Apply p.
Proof.
  unfold operators. intros (l & Hl & Hts)%list_elem_of_In%in_concat. apply list_elem_of_In, list_elem_of_fmap in Hl as (p & -> & Hp).
  apply list_elem_of_lookup in Hp as [i Hi]. exists i, p. by rewrite list_elem_of_In.
Qed.
Lemma default_names_error specs : ∀ seen name, name ∈ default_names seen specs → name ∈ seen ∨ ∃ ts, ts ∈ specs ∧ name ∈ error_names ts.
Proof.
  induction specs as [|ts specs IH]; intros seen name; cbn [default_names]; [by left|].
  assert (Hrest : ∀ seen, name ∈ default_names seen specs → name ∈ seen ∨ ∃ ts', ts' ∈ ts :: specs ∧ name ∈ error_names ts').
  { intros sn Hn. destruct (IH sn name Hn) as [|(ts' & ? & ?)]; [by left|right]. exists ts'. split; [by right|done]. }
  destruct (errorChannelConfig ts) as [ec|] eqn:Ee; [|apply Hrest]. cbn [isDefaultErrorChannel].
  destruct (String.eqb (SpecName ec) DefaultErrorChannelSpecName && negb (is_empty (occ_Name ec))) eqn:Ed; cbn [andb]; [|apply Hrest].
  destruct (bool_decide (occ_Name ec ∈ seen)); cbn [negb]; [apply Hrest|]. intros [Hn|Hn]%Hrest; [|by right].
  apply elem_of_app in Hn as [| ->%list_elem_of_singleton]; [by left|right]. exists ts. split; [by left|].
  unfold error_names. rewrite Ee. apply name_kept; [set_solver|]. apply andb_true_iff in Ed as [_ Ed]. by apply negb_true_iff.
Qed.

Lemma all_channels_from specs : ∀ all ch, all_operator_channels specs = Ret all → ch ∈ all → ∃ ts channels, ts ∈ specs ∧ operator_channels ts = Ret channels ∧ ch ∈ channels.
Proof.
  induction specs as [|ts specs IH]; intros all ch Hall Hch; cbn [all_operator_channels] in Hall; [injection Hall as <-; by apply not_elem_of_nil in Hch|].
  apply res_bind_Ret in Hall as (ch0 & E0 & (rest & Er & [= <-])%res_bind_Ret). apply elem_of_app in Hch as [Hch|Hch]; [exists ts, ch0; split_and!; [by left|done..]|].
  destruct (IH rest ch Er Hch) as (ts' & chs & ? & ? & ?). exists ts', chs. split_and!; [by right|done..].
Qed.
(** The registry holds the names of the channel specs and those of the channels of operators. *)
Lemma registry_names cpConfig registry name : channel_registry cpConfig = Ret registry → name ∈ registry →
  name ∈ (ch_Name <$> Channels cpConfig) ∨ ∃ ts channels ch, ts ∈ operators (PipesConfig cpConfig) ∧ operator_channels ts = Ret channels ∧ ch ∈ channels ∧ occ_Name ch = name.
Proof.
  unfold channel_registry. intros (all & Eall & Hreg)%res_bind_Ret Hn. destruct (PipesConfig cpConfig) as [|p ps] eqn:Ep; [done|]. case_match; [|done]. injection Hreg as <-.
  apply elem_of_app in Hn as [Hn|(ch & -> & Hch)%list_elem_of_fmap].
  - left. apply list_elem_of_In, filter_In in Hn as [Hn _]. by apply list_elem_of_In.
  - right. destruct (all_channels_from _ _ ch Eall Hch) as (ts & chs & ? & ? & ?). by exists ts, chs, ch.
Qed.

(** C2. A step whose pipes read the input or what an earlier pipe writes ends: at most one event
    per pipe and one for the fan-in of errors happen. When nothing more can happen, every
    named channel of an operator (its output, its error and site channels, the outputs of
    rules, correlations and keys) is closed, except the keys channel of an anonymize operator
    that was not built or does not run in mode anonymization, and so is the default error sink
    when it is active. The registry also holds the name of every channel spec, under which
    nothing is closed unless an operator writes to it: a name of the registry is closed, is
    the name of a spec, or is such a keys channel. *)
Theorem every_channel_closes cpConfig registry built :
  channel_registry cpConfig = Ret registry → pipes_in_order cpConfig →
  (∀ n s, nsteps (run_step cpConfig registry built) n run_start s → (n ≤ length (PipesConfig cpConfig) + 1)%nat) ∧
  (∀ s, rtc (run_step cpConfig registry built) run_start s → (∀ s', ¬ run_step cpConfig registry built s s') →
    (∀ ts, ts ∈ operators (PipesConfig cpConfig) → ∃ channels, operator_channels ts = Ret channels ∧
       splitter_closing ts = Ret (fan_out_closing ts) ∧
       ∀ ch, ch ∈ channels → is_empty (occ_Name ch) = false → occ_Name ch ∈ closed s ∨ keys_left_open built ts ch) ∧
    (∀ name, name ∈ registry → is_empty name = false → name ∈ closed s ∨ name ∈ (ch_Name <$> Channels cpConfig) ∨
       ∃ ts ch, ts ∈ operators (PipesConfig cpConfig) ∧ occ_Name ch = name ∧ keys_left_open built ts ch) ∧
    (defaultErrorTableIsActive (OutputTables cpConfig) = true → DefaultErrorChannelSpecName ∈ registry →
     DefaultErrorChannelSpecName ∈ closed s)).
Proof.
  intros Hreg Hord. split.
  - intros n s Hn%run_bounded. unfold remaining in Hn at 2. cbn [closed run_start] in Hn. rewrite decide_False in Hn by set_solver.
    assert (Hsz : size (unfinished cpConfig run_start) = length (PipesConfig cpConfig)).
    { unfold unfinished. cbn [finished run_start]. rewrite difference_empty_L. apply size_set_seq. }
    lia.
  - intros s Hr Hstuck. pose proof (stuck_all_finished cpConfig registry built s Hord Hr Hstuck) as Hfin.
    pose proof (run_inv_reachable cpConfig registry built s Hr) as Hinv.
    assert (Hops : ∀ ts, ts ∈ operators (PipesConfig cpConfig) → ∃ channels, operator_channels ts = Ret channels ∧ splitter_closing ts = Ret (fan_out_closing ts) ∧
      ∀ ch, ch ∈ channels → is_empty (occ_Name ch) = false → occ_Name ch ∈ closed s ∨ keys_left_open built ts ch).
    { intros ts Hts. pose proof Hreg as Hreg'. unfold channel_registry in Hreg'. apply res_bind_Ret in Hreg' as (all & Eall & _).
      destruct (all_channels_in _ _ _ Eall Hts) as [channels Ech]. exists channels. split_and!; [done|by eapply splitter_closes|].
      intros ch Hch Hne. destruct (operators_elem _ _ Hts) as (i & p & Hp & Hin).
      destruct (registered_closed built ts channels ch Ech Hch Hne) as [Hc|[Hc|Hc]]; [left|left|by right];
        eapply closed_of_operator; eauto. }
    split; [done|]. split.
    + intros name Hname Hne. destruct (registry_names _ _ _ Hreg Hname) as [|(ts & chs & ch & Hts & Ech & Hch & <-)]; [by right; left|].
      destruct (Hops ts Hts) as (chs' & Ech' & _ & Hall). rewrite Ech in Ech'. injection Ech' as <-. destruct (Hall ch Hch Hne) as [|Hk]; [by left|right; right; by exists ts, ch].
    + intros Ht Hsink. destruct (decide (DefaultErrorChannelSpecName ∈ closed s)) as [|Hn]; [done|]. exfalso.
      eapply Hstuck, fan_in_ends; [done..| |done]. apply Forall_forall. intros name Hname. unfold fan_in_sources in Hname.
      apply list_elem_of_In, filter_In in Hname as [Hname _]. apply list_elem_of_In, default_names_error in Hname as [Hname|(ts & Hts & Hname)];
        [by apply not_elem_of_nil in Hname|]. destruct (operators_elem _ _ Hts) as (i & p & Hp & Hin).
      eapply closed_of_operator; eauto. left. unfold fan_out_closing. rewrite !elem_of_app. tauto.
Qed.
