(* ===== verification/StagePath.v ===== *)
(** * Headers along the stages of a document

    [validateOriginalHeadersStagePath] of src/jets/compute_pipes/actions_start_common.go
    follows the stage channels backward from an output channel that takes the original
    headers. The theorem: the walk ends, and it accepts exactly when every stage
    channel that leads to the output carries both header flags. *)
From stdpp Require Import base list strings gmap.
From Stdlib Require Import ZArith Lia Ascii.
From S2P Require Import Prelude GoText GoValue EvalExpression Records HashKey ColumnBuild SamplingPipes StepConfig.
Local Open Scope string_scope.

#[local] Set Warnings "-register-all".

(** ** The steps of a document *)
Definition allComputePipesSteps (cpConfig : ComputePipesConfig) : list (list PipeSpec) :=
  (match PipesConfig cpConfig with [] => [] | pipes => [pipes] end ++
   ReducingPipesConfig cpConfig ++ (cp_PipesConfig <$> ConditionalPipesConfig cpConfig))%list.
Definition stageReadStepIds (step : list PipeSpec) : list string :=
  List.filter (λ id, negb (is_empty id))
    (ReadStepId <$> List.filter (λ ic, String.eqb (icc_Type ic) "stage") (ps_InputChannel <$> step)).

(** ** The walk *)
Definition both_headers (ch : OutputChannelConfig) : bool := UseOriginalHeaders ch && PutHeadersOnFirstPartition ch.
(** The stage channels of a step that write a step id. *)
Definition stage_writers (id : string) (step : list PipeSpec) : list OutputChannelConfig :=
  List.filter (λ ch, String.eqb (oc_Type ch) "stage" && String.eqb (WriteStepId ch) id)
    (concat (outputChannelConfigs <$> operators step)).

(** The step ids that the steps writing [id] read; [None] when a writer does not carry
    both flags. *)
Fixpoint visit_steps (id : string) (steps : list (list PipeSpec)) : option (list string) :=
  match steps with
  | [] => Some []
  | step :: steps' =>
      if forallb both_headers (stage_writers id step) then
        rest ← visit_steps id steps';
        Some ((match stage_writers id step with [] => [] | _ => stageReadStepIds step end) ++ rest)%list
      else None
  end.
Definition headers_error : string :=
  "configuration error: output_channel has both use_original_headers and put_headers_on_first_partition set, but a stage output_channel leading to it does not".

(** The ids still to visit are a stack, its top first. *)
Fixpoint walk (fuel : nat) (steps : list (list PipeSpec)) (visited : gset string) (pending : list string) : res unit :=
  match fuel with
  | O => Loop
  | S fuel =>
      match pending with
      | [] => Ret tt
      | id :: pending' =>
          if bool_decide (id ∈ visited) then walk fuel steps visited pending'
          else match visit_steps id steps with
          | None => Fail headers_error
          | Some ids => walk fuel steps ({[ id ]} ∪ visited) (rev ids ++ pending')%list
          end
      end
  end.
(** Every step id is visited once, and adds at most the ids the steps read. *)
Definition reads_of (steps : list (list PipeSpec)) : list string := concat (stageReadStepIds <$> steps).
Definition walk_fuel (steps : list (list PipeSpec)) (pending : list string) : nat :=
  S (length pending + (length pending + length (reads_of steps)) * length (reads_of steps)).

Fixpoint check_outputs (steps : list (list PipeSpec)) (reads : list string) (channels : list OutputChannelConfig) : res unit :=
  match channels with
  | [] => Ret tt
  | ch :: channels' =>
      let! _ := if String.eqb (oc_Type ch) "output" && both_headers ch then walk (walk_fuel steps reads) steps ∅ (rev reads) else Ret tt in
      check_outputs steps reads channels'
  end.
Definition validateOriginalHeadersStagePath (cpConfig : ComputePipesConfig) (pipeConfig : list PipeSpec) (ts : TransformationSpec) : res unit :=
  check_outputs (allComputePipesSteps cpConfig) (stageReadStepIds pipeConfig) (outputChannelConfigs ts).

Lemma size_list_to_set_le (l : list string) : (size (list_to_set (C := gset string) l) ≤ length l)%nat.
Proof.
  induction l as [|x l IH]; [by rewrite list_to_set_nil, size_empty|]. rewrite list_to_set_cons, size_union_alt, size_singleton. cbn [length].
  assert (size (list_to_set (C := gset string) l ∖ {[ x ]}) ≤ size (list_to_set (C := gset string) l))%nat by (apply subseteq_size; set_solver). lia.
Qed.

(** ** The stages that lead to a step *)
Section reach.
Variable steps : list (list PipeSpec).

Inductive leads (reads : list string) : string → Prop :=
| leads_read id : id ∈ reads → leads reads id
| leads_stage id step id' : leads reads id → step ∈ steps → stage_writers id step ≠ [] → id' ∈ stageReadStepIds step → leads reads id'.

(** Every writer of the id carries both flags. *)
Definition carried (id : string) : Prop := ∀ step ch, step ∈ steps → ch ∈ stage_writers id step → both_headers ch = true.

Lemma visit_steps_spec id ss : match visit_steps id ss with
  | Some ids => (∀ step ch, step ∈ ss → ch ∈ stage_writers id step → both_headers ch = true) ∧
                ∀ id', id' ∈ ids ↔ ∃ step, step ∈ ss ∧ stage_writers id step ≠ [] ∧ id' ∈ stageReadStepIds step
  | None => ∃ step ch, step ∈ ss ∧ ch ∈ stage_writers id step ∧ both_headers ch = false
  end.
Proof.
  induction ss as [|step ss IH]; cbn [visit_steps].
  { split; [by intros ?? ?%not_elem_of_nil|]. intros id'. split; [by intros ?%not_elem_of_nil|]. by intros (? & ?%not_elem_of_nil & _). }
  destruct (forallb both_headers (stage_writers id step)) eqn:Hf.
  - rewrite forallb_forall in Hf. destruct (visit_steps id ss) as [ids|]; cbn [mbind option_bind].
    + destruct IH as [Hc Hi]. split.
      * intros step' ch [->|Hs]%elem_of_cons Hch; [apply Hf; by apply list_elem_of_In|by eapply Hc].
      * intros id'. rewrite elem_of_app, Hi. split.
        -- intros [Hin|(step' & ? & ? & ?)]; [|exists step'; split_and!; [by right|done|done]].
           destruct (stage_writers id step) eqn:Ew; [by apply not_elem_of_nil in Hin|]. exists step. rewrite Ew. split_and!; [by left|done|done].
        -- intros (step' & [->|Hs]%elem_of_cons & Hw & Hin); [left; by destruct (stage_writers id step)|right; eauto].
    + destruct IH as (step' & ch & ? & ? & ?). exists step', ch. split_and!; [by right|done|done].
  - apply not_true_iff_false in Hf. rewrite forallb_forall in Hf.
    assert (Hex : Exists (λ ch, both_headers ch = false) (stage_writers id step)).
    { destruct (decide (Exists (λ ch, both_headers ch = false) (stage_writers id step))) as [|Hn]; [done|]. exfalso. apply Hf. intros ch Hch.
      apply not_false_iff_true. intros Hb. apply Hn, Exists_exists. exists ch. by rewrite list_elem_of_In. }
    apply Exists_exists in Hex as (ch & ? & ?). exists step, ch. split_and!; [by left|done|done].
Qed.

(** The ids visited carry the flags, and what leads on from them is visited or
    pending. *)
Definition walk_inv (visited : gset string) (pending : list string) : Prop :=
  ∀ id, id ∈ visited → carried id ∧
    ∀ step id', step ∈ steps → stage_writers id step ≠ [] → id' ∈ stageReadStepIds step → id' ∈ visited ∨ id' ∈ pending.

Lemma walk_accepts fuel : ∀ visited pending, walk fuel steps visited pending = Ret tt → walk_inv visited pending →
  ∃ all : gset string, visited ⊆ all ∧ (∀ id, id ∈ pending → id ∈ all) ∧ walk_inv all [].
Proof.
  induction fuel as [|fuel IH]; intros visited pending; [done|]. cbn [walk]. destruct pending as [|id pending].
  { intros _ Hinv. exists visited. split_and!; [done|by intros ? ?%not_elem_of_nil|done]. }
  case_bool_decide as Hin.
  - intros E Hinv. destruct (IH visited pending E) as (all & Hv & Hp & Ha).
    { intros id1 H1. destruct (Hinv id1 H1) as [Hc Hn]. split; [done|]. intros step id' Hs Hw Hr.
      destruct (Hn step id' Hs Hw Hr) as [|[->|]%elem_of_cons]; auto. }
    exists all. split_and!; [done| |done]. intros id' [->|Hid]%elem_of_cons; [by apply Hv|by apply Hp].
  - pose proof (visit_steps_spec id steps) as Hvs. destruct (visit_steps id steps) as [ids|]; [|done]. destruct Hvs as [Hc Hi].
    intros E Hinv. destruct (IH ({[ id ]} ∪ visited) (rev ids ++ pending)%list E) as (all & Hv & Hp & Ha).
    { intros id1 [->%elem_of_singleton|H1]%elem_of_union.
      - split; [done|]. intros step id' Hs Hw Hr. right. apply elem_of_app. left. rewrite list_elem_of_In, <- in_rev, <- list_elem_of_In. apply Hi. eauto.
      - destruct (Hinv id1 H1) as [Hc1 Hn]. split; [done|]. intros step id' Hs Hw Hr.
        destruct (Hn step id' Hs Hw Hr) as [|[->|]%elem_of_cons]; [left; set_solver|left; set_solver|right; set_solver]. }
    exists all. split_and!; [set_solver| |done]. intros id' [->|Hid]%elem_of_cons; [set_solver|]. apply Hp. set_solver.
Qed.
Lemma walk_refuses fuel reads : ∀ visited pending msg, walk fuel steps visited pending = Fail msg →
  (∀ id, id ∈ pending → leads reads id) → ∃ id, leads reads id ∧ ¬ carried id.
Proof.
  induction fuel as [|fuel IH]; intros visited pending msg; [done|]. cbn [walk]. destruct pending as [|id pending]; [done|].
  case_bool_decide as Hin; [intros E Hp; eapply IH; [done|]; set_solver|].
  pose proof (visit_steps_spec id steps) as Hvs. destruct (visit_steps id steps) as [ids|].
  - destruct Hvs as [_ Hi]. intros E Hp. eapply IH; [done|]. intros id' [Hid|Hid]%elem_of_app; [|apply Hp; by right].
    rewrite list_elem_of_In, <- in_rev, <- list_elem_of_In in Hid. apply Hi in Hid as (step & Hs & Hw & Hr).
    eapply leads_stage; [apply Hp; by left|done..].
  - destruct Hvs as (step & ch & Hs & Hw & Hb). intros _ Hp. exists id. split; [apply Hp; by left|].
    intros Hc. specialize (Hc step ch Hs Hw). congruence.
Qed.

(** The fuel is enough: a visit takes one of the ids the steps read. *)
Lemma walk_ends fuel : ∀ (visited : gset string) pending (universe : gset string),
  (∀ id, id ∈ pending → id ∈ universe) → (∀ id, id ∈ reads_of steps → id ∈ universe) →
  (length pending + size (universe ∖ visited) * length (reads_of steps) < fuel)%nat →
  walk fuel steps visited pending ≠ Loop.
Proof.
  induction fuel as [|fuel IH]; intros visited pending universe Hp Hu Hf; [lia|]. cbn [walk]. destruct pending as [|id pending]; [done|].
  cbn [length] in Hf. case_bool_decide as Hin; [apply (IH _ _ universe); [set_solver|done|lia]|].
  pose proof (visit_steps_spec id steps) as Hvs. destruct (visit_steps id steps) as [ids|] eqn:Ev; [|done]. destruct Hvs as [_ Hi].
  assert (Hlen : (length ids ≤ length (reads_of steps))%nat).
  { clear -Ev. unfold reads_of. revert ids Ev. induction steps as [|step ss IHs]; intros ids; cbn [visit_steps fmap list_fmap concat].
    - intros [= <-]. done.
    - destruct (forallb _ _); [|done]. destruct (visit_steps id ss) as [rest|]; [|done]. cbn. intros [= <-]. specialize (IHs rest eq_refl).
      rewrite !length_app. destruct (stage_writers id step); cbn [length]; lia. }
  assert (Hsz : (size (universe ∖ ({[ id ]} ∪ visited)) < size (universe ∖ visited))%nat).
  { apply subset_size. split; [set_solver|]. intros Hsub. assert (id ∈ universe ∖ visited) as Hid%Hsub by set_solver. set_solver. }
  apply (IH _ _ universe).
  - intros id' [Hid|Hid]%elem_of_app; [|apply Hp; by right]. rewrite list_elem_of_In, <- in_rev, <- list_elem_of_In in Hid.
    apply Hi in Hid as (step & Hs & _ & Hr). apply Hu. unfold reads_of. apply list_elem_of_In, in_concat.
    exists (stageReadStepIds step). rewrite <- !list_elem_of_In. split; [by apply list_elem_of_fmap_2|done].
  - done.
  - rewrite length_app, length_rev. nia.
Qed.

Lemma walk_decides reads :
  (walk (walk_fuel steps reads) steps ∅ (rev reads) = Ret tt ∧ ∀ id, leads reads id → carried id) ∨
  (walk (walk_fuel steps reads) steps ∅ (rev reads) = Fail headers_error ∧ ∃ id, leads reads id ∧ ¬ carried id).
Proof.
  assert (Hfail : ∀ fuel visited pending r, walk fuel steps visited pending = r → r = Ret tt ∨ r = Fail headers_error ∨ r = Loop).
  { induction fuel as [|fuel IH]; intros visited pending r; cbn [walk]; [by intros <-; auto|].
    destruct pending as [|id pending]; [by intros <-; auto|]. case_bool_decide; [apply IH|].
    destruct (visit_steps id steps); [apply IH|by intros <-; auto]. }
  destruct (Hfail (walk_fuel steps reads) ∅ (rev reads) _ eq_refl) as [E|[E|E]].
  - left. split; [done|]. destruct (walk_accepts _ _ _ E) as (all & _ & Hp & Ha); [by intros id ?%not_elem_of_empty|].
    assert (Hall : ∀ id, leads reads id → id ∈ all).
    { induction 1 as [id Hid|id step id' _ IHl Hs Hw Hr].
      - apply Hp. by rewrite list_elem_of_In, <- in_rev, <- list_elem_of_In.
      - destruct (Ha id IHl) as [_ Hn]. by destruct (Hn step id' Hs Hw Hr) as [|?%not_elem_of_nil]. }
    intros id Hl. by apply Ha, Hall.
  - right. split; [done|]. eapply walk_refuses; [done|]. intros id Hid. apply leads_read.
    by rewrite list_elem_of_In, <- in_rev, <- list_elem_of_In in Hid.
  - exfalso. eapply (walk_ends _ ∅ (rev reads) (list_to_set (reads ++ reads_of steps))); [| | |done].
    + intros id Hid. rewrite list_elem_of_In, <- in_rev, <- list_elem_of_In in Hid. apply elem_of_list_to_set, elem_of_app. by left.
    + intros id Hid. apply elem_of_list_to_set, elem_of_app. by right.
    + rewrite length_rev, difference_empty_L. unfold walk_fuel.
      assert (Hsz : (size (list_to_set (C := gset string) (reads ++ reads_of steps)%list) ≤ length reads + length (reads_of steps))%nat).
      { rewrite <- length_app. apply size_list_to_set_le. }
      nia.
Qed.
End reach.

(** C36. The check of the original headers ends and is exact: it refuses an output
    with the original headers exactly when a stage that leads to it, through any
    chain of steps, is written without them. *)
Theorem original_headers_path cpConfig pipeConfig ts :
  let wanted := ∃ ch, ch ∈ outputChannelConfigs ts ∧ oc_Type ch = "output" ∧ both_headers ch = true in
  let path_ok := ∀ id step ch, leads (allComputePipesSteps cpConfig) (stageReadStepIds pipeConfig) id →
    step ∈ allComputePipesSteps cpConfig → ch ∈ stage_writers id step → both_headers ch = true in
  (validateOriginalHeadersStagePath cpConfig pipeConfig ts = Ret tt ∧ (wanted → path_ok)) ∨
  (validateOriginalHeadersStagePath cpConfig pipeConfig ts = Fail headers_error ∧ wanted ∧ ¬ path_ok).
Proof.
  intros wanted path_ok. unfold wanted, validateOriginalHeadersStagePath. clear wanted.
  assert (Hw : (walk (walk_fuel (allComputePipesSteps cpConfig) (stageReadStepIds pipeConfig)) (allComputePipesSteps cpConfig) ∅
                  (rev (stageReadStepIds pipeConfig)) = Ret tt ∧ path_ok) ∨
               (walk (walk_fuel (allComputePipesSteps cpConfig) (stageReadStepIds pipeConfig)) (allComputePipesSteps cpConfig) ∅
                  (rev (stageReadStepIds pipeConfig)) = Fail headers_error ∧ ¬ path_ok)).
  { destruct (walk_decides (allComputePipesSteps cpConfig) (stageReadStepIds pipeConfig)) as [[E Hc]|[E (id & Hl & Hc)]].
    - left. split; [done|]. intros id step ch Hl Hs Hch. by apply (Hc id Hl step).
    - right. split; [done|]. intros Hok. apply Hc. intros step ch Hs Hch. by apply (Hok id step). }
  induction (outputChannelConfigs ts) as [|ch channels IH]; cbn [check_outputs].
  { left. split; [done|]. by intros (? & ?%not_elem_of_nil & _). }
  destruct (String.eqb (oc_Type ch) "output" && both_headers ch) eqn:Ew.
  - apply andb_true_iff in Ew as [Et%String.eqb_eq Eb]. destruct Hw as [[-> Hok]|[-> Hbad]]; cbn [res_bind].
    + destruct IH as [[E _]|(_ & _ & Hn)]; [by left|done].
    + right. split_and!; [done| |done]. exists ch. split_and!; [by left|done|done].
  - cbn [res_bind]. assert (Hnot : (∃ c, c ∈ ch :: channels ∧ oc_Type c = "output" ∧ both_headers c = true) →
      ∃ c, c ∈ channels ∧ oc_Type c = "output" ∧ both_headers c = true).
    { intros (c & [->|Hc]%elem_of_cons & Ht & Hb); [|eauto]. rewrite Ht, Hb in Ew. done. }
    destruct IH as [[E Hk]|(E & (c & Hc & ?) & Hn)].
    + left. split; [done|]. intros Hex. by apply Hk, Hnot.
    + right. split_and!; [done| |done]. exists c. split; [by right|done].
Qed.
