(* ===== verification/StepSelect.v ===== *)
(** * Which step runs, and where

    [GetComputePipes] selects the step of a document, [EvalUseEcsTask] and
    [EvalUsePythonNode] say where it runs, and [validateNoRulesOnCpipesSM] refuses a
    document whose rules would certainly run on a node that has no rule engine
    (src/jets/compute_pipes: pipes_model.go, actions_env_var_evaluator.go,
    actions_start_common.go). The theorem: what the check calls certain is so,
    whatever the environment of the run. *)
From stdpp Require Import base list strings gmap.
From Stdlib Require Import ZArith Lia Ascii.
From S2P Require Import Prelude GoFloat GoText GoValue EvalOperators EvalExpression Records HashKey ColumnBuild SamplingPipes StepConfig.
Local Open Scope string_scope.

#[local] Set Warnings "-register-all".

(** The environment variables a step adds: the clauses, then the else part; an
    assignment is a name and its expression. *)
Record ConditionalEnvVariable := mkEnvVar {
  ev_CaseExpr : list (ExpressionNode * list (string * ExpressionNode)); ev_ElseExpr : list (string * ExpressionNode) }.

Section select.
Context `{GoArch} `{GoUnicode} `{GoFmt} `{GoZone} `{GoRegexp} `{GoUuid} `{GoClock} `{GoJson}.
(** The order of the loops over an environment, and the depth to which expressions
    are built. *)
Variable range : gmap string any → nat → list (string * any).
Variable expr_fuel : nat.
(** [AddlEnv] of the conditional steps, by index. *)
Variable addl_env : nat → list ConditionalEnvVariable.

Abbreviation environment := (gmap string any).

Definition build_env_expr (env : environment) (spec : ExpressionNode) : res evalExpression :=
  BuildExprNodeEvaluator env (range env) None expr_fuel spec.
(** Builds and evaluates on the environment. *)
Definition eval_env (env : environment) (n : nat) (spec : ExpressionNode) : nat * res any :=
  match build_env_expr env spec with
  | Ret e => let '(_, n, r) := Eval e n (InEnv env) in (n, r)
  | Fail e => (n, Fail e)
  | Panic e => (n, Panic e)
  | Loop => (n, Loop)
  end.

(** ** Conditional environment variables *)
Fixpoint build_assignments (msg : string) (env : environment) (nodes : list (string * ExpressionNode)) : res (list (string * evalExpression)) :=
  match nodes with
  | [] => Ret []
  | (name, node) :: nodes' =>
      let! e := wrap_err msg (build_env_expr env node) in
      if is_empty name then Fail "error: missing env var name in clause of addl_env case operator"
      else let! rest := build_assignments msg env nodes' in Ret ((name, e) :: rest)
  end.
Fixpoint build_clauses (env : environment) (clauses : list (ExpressionNode * list (string * ExpressionNode)))
  : res (list (evalExpression * list (string * evalExpression))) :=
  match clauses with
  | [] => Ret []
  | (when, thens) :: clauses' =>
      let! w := wrap_err "while building when clause" (build_env_expr env when) in
      let! t := build_assignments "while building then clause" env thens in
      let! rest := build_clauses env clauses' in
      Ret ((w, t) :: rest)
  end.
Definition buildConditionalEnvVarEvaluator (env : environment) (spec : ConditionalEnvVariable)
  : res (list (evalExpression * list (string * evalExpression)) * list (string * evalExpression)) :=
  let! clauses := build_clauses env (ev_CaseExpr spec) in
  let! els := build_assignments "while building else clause of addl_env case_expr" env (ev_ElseExpr spec) in
  Ret (clauses, els).
(** An assignment sees the ones before it; those made before an error stay. *)
Fixpoint assign (env : environment) (n : nat) (nodes : list (string * evalExpression)) : environment * nat * res unit :=
  match nodes with
  | [] => (env, n, Ret tt)
  | (name, e) :: nodes' =>
      let '(_, n, r) := Eval e n (InEnv env) in
      match r with
      | Ret v => assign (<[name := v]> env) n nodes'
      | r => (env, n, let! _ := r in Ret tt)
      end
  end.
Fixpoint update_env (clauses : list (evalExpression * list (string * evalExpression))) (els : list (string * evalExpression))
  (env : environment) (n : nat) : environment * nat * res unit :=
  match clauses with
  | [] => assign env n els
  | (when, thens) :: clauses' =>
      let '(_, n, r) := Eval when n (InEnv env) in
      match r with
      | Ret v => if ToBool v then assign env n thens else update_env clauses' els env n
      | r => (env, n, let! _ := r in Ret tt)
      end
  end.
Fixpoint ApplyConditionalEnvVars (envVars : list ConditionalEnvVariable) (env : environment) (n : nat) : environment * nat * res unit :=
  match envVars with
  | [] => (env, n, Ret tt)
  | spec :: envVars' =>
      match buildConditionalEnvVarEvaluator env spec with
      | Ret (clauses, els) =>
          let '(env, n, r) := update_env clauses els env n in
          match r with Ret _ => ApplyConditionalEnvVars envVars' env n | r => (env, n, r) end
      | r => (env, n, let! _ := r in Ret tt)
      end
  end.

(** ** The step to run *)
Definition empty_step : string := "configuration error: conditional_pipes_config step has an empty pipes_config".
Definition selected (cp : ComputePipesConfig) (id : nat) (env : environment) (n : nat) : environment * nat * res (list PipeSpec * nat) :=
  match ConditionalPipesConfig cp !! id with
  | None => (env, n, Panic out_of_range)
  | Some c =>
      (* the error of the environment variables is dropped *)
      let '(env, n, _) := ApplyConditionalEnvVars (addl_env id) env n in
      (env, n, match cp_PipesConfig c with [] => Fail empty_step | pipes => Ret (pipes, id) end)
  end.
(** The steps from [id] on; the pipes are empty when there is none left. *)
Fixpoint select_step (fuel : nat) (cp : ComputePipesConfig) (id : nat) (env : environment) (n : nat) : environment * nat * res (list PipeSpec * nat) :=
  match fuel with
  | O => (env, n, Loop)
  | S fuel =>
      match ConditionalPipesConfig cp !! id with
      | None => (env, n, Panic out_of_range)
      | Some c =>
          match cp_When c with
          | None => selected cp id env n
          | Some when =>
              let '(n, v) := eval_env env n when in
              match v with
              | Ret v =>
                  if ToBool v then selected cp id env n
                  else if (length (ConditionalPipesConfig cp) =? S id)%nat then (env, n, Ret ([], S id))
                  else select_step fuel cp (S id) env n
              | r => (env, n, let! _ := r in Ret ([], 0%nat))
              end
          end
      end
  end.
Definition GetComputePipes (cp : ComputePipesConfig) (stepId : nat) (env : environment) (n : nat) : environment * nat * res (list PipeSpec * nat) :=
  match ReducingPipesConfig cp !! stepId with
  | Some pipes => (env, n, Ret (pipes, stepId))
  | None =>
      if (stepId <? length (ConditionalPipesConfig cp))%nat
      then select_step (length (ConditionalPipesConfig cp) - stepId) cp stepId env n
      else (env, n, Ret ([], stepId))
  end.

(** ** Where it runs *)
Definition eval_choice (choice : bool) (when : option ExpressionNode) (env : environment) (n : nat) : nat * res bool :=
  match when with
  | None => (n, Ret choice)
  | Some w => let '(n, v) := eval_env env n w in (n, let! v := v in Ret (ToBool v))
  end.
Definition EvalUseEcsTask (cp : ComputePipesConfig) (stepId : nat) (env : environment) (n : nat) : nat * res bool :=
  match ConditionalPipesConfig cp !! stepId with
  | Some c => eval_choice (UseEcsTasks c) (UseEcsTasksWhen c) env n
  | None => (n, Ret false)
  end.
Definition EvalUsePythonNode (cp : ComputePipesConfig) (stepId : nat) (env : environment) (n : nat) : nat * res bool :=
  match ConditionalPipesConfig cp !! stepId with
  | Some c => eval_choice (UsePythonNode c) (UsePythonNodeWhen c) env n
  | None => (n, Ret false)
  end.

(** ** The transformations of a document *)
Inductive section_ := pipes_config | reducing_pipes_config | conditional_pipes_config.
(** [ts_override] is the index of the conditional entry, if it is one. *)
Record transformationSite := mkTransformationSite { ts_section : section_; ts_step : nat; ts_override : option nat }.

Definition step_transformations (sec : section_) (step : nat) (pipes : list PipeSpec) : list (transformationSite * TransformationSpec) :=
  concat ((λ ts,
    (mkTransformationSite sec step None, ts) ::
    imap (λ k entry, (mkTransformationSite sec step (Some k), entry.2)) (ts_ConditionalConfig ts)) <$> operators pipes).
Definition transformations (cp : ComputePipesConfig) : list (transformationSite * TransformationSpec) :=
  (step_transformations pipes_config 0 (PipesConfig cp) ++
   concat (imap (step_transformations reducing_pipes_config) (ReducingPipesConfig cp)) ++
   concat (imap (λ i c, step_transformations conditional_pipes_config i (cp_PipesConfig c)) (ConditionalPipesConfig cp)))%list.
(** Stops at the first error. *)
Fixpoint forEachTransformation (sites : list (transformationSite * TransformationSpec)) (visit : transformationSite → TransformationSpec → res unit) : res unit :=
  match sites with
  | [] => Ret tt
  | (site, ts) :: sites' => let! _ := visit site ts in forEachTransformation sites' visit
  end.

Definition validateNoGoEngine (cp : ComputePipesConfig) : res unit :=
  forEachTransformation (transformations cp) (λ _ ts,
    if from_option UseJetRulesGo false (ts_JetrulesConfig ts)
    then Fail "configuration error: jetrules_config.use_jet_rules_go is set; remove it or set it to false" else Ret tt).

(** Whether the step chooses the ECS task or the Python node, when that is known. *)
Definition offNode (cp : ComputePipesConfig) (i : nat) : option bool :=
  match ConditionalPipesConfig cp !! i with
  | None => Some false
  | Some c =>
      match UseEcsTasksWhen c, UsePythonNodeWhen c with
      | None, None => Some (UseEcsTasks c || UsePythonNode c)
      | _, _ => None
      end
  end.
Definition runsOnNodeLambda (cp : ComputePipesConfig) (site : transformationSite) : bool :=
  let i := ts_step site in
  match ts_section site with
  | reducing_pipes_config => (i =? 0)%nat || bool_decide (offNode cp i = Some false)
  | conditional_pipes_config =>
      if (i <? length (ReducingPipesConfig cp))%nat || bool_decide (is_Some (ConditionalPipesConfig cp !! i ≫= cp_When)) then false
      else (i =? 0)%nat || bool_decide (offNode cp i = Some false)
  | pipes_config => false
  end.
Definition validateNoRulesOnCpipesSM (cp : ComputePipesConfig) (stateMachine : string) : res unit :=
  if negb (String.eqb stateMachine "cpipesSM") then Ret tt
  else forEachTransformation (transformations cp) (λ site ts,
    if String.eqb (ts_Type ts) "jetrules" && runsOnNodeLambda cp site
    then Fail "configuration error: a jetrules step runs on cp_node, which has no rule engine" else Ret tt).

(** ** What the check refuses *)
Lemma forEach_Fail sites visit msg : forEachTransformation sites visit = Fail msg → ∃ site ts, (site, ts) ∈ sites ∧ visit site ts = Fail msg.
Proof.
  induction sites as [|[site ts] sites IH]; [done|]. cbn [forEachTransformation]. destruct (visit site ts) as [[]|m|m|] eqn:E; try done.
  - intros Hf. destruct (IH Hf) as (s & t & Hin & Ht). exists s, t. split; [by right|done].
  - intros [= ->]. exists site, ts. split; [by left|done].
Qed.

(** The pipes of the step of a site. *)
Definition pipes_of (cp : ComputePipesConfig) (site : transformationSite) : option (list PipeSpec) :=
  match ts_section site with
  | pipes_config => None
  | reducing_pipes_config => ReducingPipesConfig cp !! ts_step site
  | conditional_pipes_config => cp_PipesConfig <$> ConditionalPipesConfig cp !! ts_step site
  end.
(** A transformation of the pipes, or an override of one. *)
Definition transforms (pipes : list PipeSpec) (ts : TransformationSpec) : Prop :=
  ∃ host, host ∈ operators pipes ∧ (ts = host ∨ ∃ when, (when, ts) ∈ ts_ConditionalConfig host).

Lemma step_transformations_elem sec step pipes site ts : (site, ts) ∈ step_transformations sec step pipes →
  ts_section site = sec ∧ ts_step site = step ∧ transforms pipes ts.
Proof.
  unfold step_transformations. intros (l & Hl & Hin)%list_elem_of_In%in_concat. apply list_elem_of_In, list_elem_of_fmap in Hl as (host & -> & Hh).
  apply list_elem_of_In, elem_of_cons in Hin as [[= -> ->]|Hin]; [split_and!; [done|done|]; exists host; auto|].
  apply elem_of_lookup_imap in Hin as (k & [when t] & [= -> ->] & Hk). split_and!; [done|done|]. exists host. split; [done|]. right.
  exists when. by apply list_elem_of_lookup_2 in Hk.
Qed.
Lemma transformations_elem cp site ts : (site, ts) ∈ transformations cp → ts_section site ≠ pipes_config →
  ∃ pipes, pipes_of cp site = Some pipes ∧ transforms pipes ts.
Proof.
  unfold transformations, pipes_of. rewrite !elem_of_app. intros [Hin|[Hin|Hin]] Hs.
  - by apply step_transformations_elem in Hin as (? & _).
  - apply list_elem_of_In, in_concat in Hin as (l & Hl%list_elem_of_In & Hin%list_elem_of_In).
    apply elem_of_lookup_imap in Hl as (i & pipes & -> & Hi). apply step_transformations_elem in Hin as (-> & -> & Ht). eauto.
  - apply list_elem_of_In, in_concat in Hin as (l & Hl%list_elem_of_In & Hin%list_elem_of_In).
    apply elem_of_lookup_imap in Hl as (i & c & -> & Hi). apply step_transformations_elem in Hin as (-> & -> & Ht).
    rewrite Hi. cbn. eauto.
Qed.

Lemma offNode_false cp i env n : offNode cp i = Some false → EvalUseEcsTask cp i env n = (n, Ret false) ∧ EvalUsePythonNode cp i env n = (n, Ret false).
Proof.
  unfold offNode, EvalUseEcsTask, EvalUsePythonNode. destruct (ConditionalPipesConfig cp !! i) as [c|]; [|done].
  destruct (UseEcsTasksWhen c), (UsePythonNodeWhen c); try done. cbn. destruct (UseEcsTasks c), (UsePythonNode c); done.
Qed.

(** The step is selected whatever the environment is, and its pipes are run, unless
    they are empty. *)
Definition certainly_selected (cp : ComputePipesConfig) (i : nat) (pipes : list PipeSpec) : Prop :=
  ∀ env n, (GetComputePipes cp i env n).2 = Ret (pipes, i).

Lemma transforms_not_empty pipes ts : transforms pipes ts → pipes ≠ [].
Proof. intros (host & Hh & _) ->. by apply not_elem_of_nil in Hh. Qed.

(** When the check refuses a rules step on the state machine of nodes, there is
    a step with a rules operator that is selected under every environment and runs
    neither on an ECS task nor on a python node. *)
Theorem refused_rules_run_on_the_node cp stateMachine msg : validateNoRulesOnCpipesSM cp stateMachine = Fail msg →
  stateMachine = "cpipesSM" ∧ ∃ i pipes ts, transforms pipes ts ∧ ts_Type ts = "jetrules" ∧ certainly_selected cp i pipes ∧
    (i = 0%nat ∨ ∀ env n, EvalUseEcsTask cp i env n = (n, Ret false) ∧ EvalUsePythonNode cp i env n = (n, Ret false)).
Proof.
  unfold validateNoRulesOnCpipesSM. destruct (String.eqb_spec stateMachine "cpipesSM") as [->|]; cbn [negb]; [|done]. intros Hf. split; [done|].
  apply forEach_Fail in Hf as (site & ts & Hin & Hv). destruct (String.eqb_spec (ts_Type ts) "jetrules") as [Ht|]; cbn [andb] in Hv; [|done].
  destruct (runsOnNodeLambda cp site) eqn:Hr; [|done]. unfold runsOnNodeLambda in Hr.
  assert (Hs : ts_section site ≠ pipes_config) by by destruct (ts_section site).
  destruct (transformations_elem cp site ts Hin Hs) as (pipes & Hp & Htr). pose proof (transforms_not_empty _ _ Htr) as Hne.
  unfold pipes_of in Hp. set (i := ts_step site) in *. exists i, pipes, ts.
  assert (Hwhere : (i =? 0)%nat || bool_decide (offNode cp i = Some false) = true →
    i = 0%nat ∨ ∀ env n, EvalUseEcsTask cp i env n = (n, Ret false) ∧ EvalUsePythonNode cp i env n = (n, Ret false)).
  { intros [Hi%Nat.eqb_eq|Ho%bool_decide_eq_true]%orb_true_iff; [by left|right]. intros env n. by apply offNode_false. }
  destruct (ts_section site); [done| |].
  - split_and!; [done|done| |by apply Hwhere]. intros env n. unfold GetComputePipes. by rewrite Hp.
  - destruct ((i <? length (ReducingPipesConfig cp))%nat || bool_decide (is_Some (ConditionalPipesConfig cp !! i ≫= cp_When))) eqn:Hc; [done|].
    apply orb_false_iff in Hc as [Hl%Nat.ltb_ge Hw%bool_decide_eq_false]. split_and!; [done|done| |by apply Hwhere].
    destruct (ConditionalPipesConfig cp !! i) as [c|] eqn:Ec; [|done]. cbn in Hp. injection Hp as <-.
    intros env n. unfold GetComputePipes. rewrite (proj2 (lookup_ge_None _ _)) by lia.
    pose proof (lookup_lt_Some _ _ _ Ec) as Hlt. rewrite (proj2 (Nat.ltb_lt _ _)) by lia.
    destruct (length (ConditionalPipesConfig cp) - i)%nat as [|fuel] eqn:El; [lia|]. cbn [select_step]. rewrite Ec.
    cbn in Hw. destruct (cp_When c); [by destruct Hw|]. unfold selected. rewrite Ec.
    destruct (ApplyConditionalEnvVars (addl_env i) env n) as [[env' n'] r]. cbn. by destruct (cp_PipesConfig c).
Qed.
End select.
