(* ===== verification/PipeBuild.v ===== *)
(** * Building the operators

    [BuildPipeTransformationEvaluator] of src/jets/compute_pipes/pipes_runtime_model.go
    and the constructors it calls for the operators that are modelled; the other
    operators are a parameter. Also the rewriting of the specifications at the start of
    a step: [ApplyAllConditionalTransformationSpec] and [SelectActiveLookupTable] of
    actions_start_common.go. *)
From stdpp Require Import base list strings gmap sorting.
From Stdlib Require Import ZArith Lia SpecFloat Ascii.
From S2P Require Import Prelude GoFloat GoText GoValue EvalOperators RdfCast EvalExpression.
From S2P Require Import Records HashKey Cleansing ColumnEval ColumnBuild Pipes MergePipe SamplingPipes PipeExec StepConfig StepSelect.
Local Open Scope string_scope.
Local Open Scope Z_scope.

#[local] Set Warnings "-register-all".

(** ** Conditional specifications *)
Definition override {A} (o host : option A) : option A := match o with Some _ => o | None => host end.
Definition override_list {A} (o host : list A) : list A := match o with [] => host | _ => o end.

(** The configuration of a partition_writer, which is not part of the model, is
    overridden in the same way. *)
Definition MergeTransformationSpec (host o : TransformationSpec) : TransformationSpec :=
  if negb (is_empty (ts_Type o)) then o
  else mkTransformation (ts_Type host) (ts_NewRecord host) (override_list (ts_Columns o) (ts_Columns host))
    (override (ts_MapRecordConfig o) (ts_MapRecordConfig host)) (override (ts_AnalyzeConfig o) (ts_AnalyzeConfig host))
    (override_list (ts_HighFreqColumns o) (ts_HighFreqColumns host)) (override (ts_AnonymizeConfig o) (ts_AnonymizeConfig host))
    (override (ts_DistinctConfig o) (ts_DistinctConfig host)) (override (ts_ShufflingConfig o) (ts_ShufflingConfig host))
    (override (ts_GroupByConfig o) (ts_GroupByConfig host)) (override (ts_FilterConfig o) (ts_FilterConfig host))
    (override (ts_SortConfig o) (ts_SortConfig host)) (override (ts_JetrulesConfig o) (ts_JetrulesConfig host))
    (ts_OllamaConfig host) (ts_EmbedConfig host) (ts_VllmConfig host) (ts_RenderConfig host)
    (override (ts_ClusteringConfig o) (ts_ClusteringConfig host)) (ts_SiteConfig host)
    (if is_empty (occ_Name (ts_OutputChannel o)) then ts_OutputChannel host else ts_OutputChannel o)
    (ts_ConditionalConfig host) (ts_When host).

Section conditional.
Context `{GoArch} `{GoUnicode} `{GoFmt} `{GoZone} `{GoRegexp} `{GoUuid} `{GoClock} `{GoJson}.
Variable range : gmap string any → nat → list (string * any).
Variable expr_fuel : nat.
Variable env : gmap string any.

(** The entries are those of the specification at the start; each applies to what the
    ones before it left. *)
Fixpoint apply_conditionals (entries : list (ExpressionNode * TransformationSpec)) (ts : TransformationSpec) (n : nat) : nat * res TransformationSpec :=
  match entries with
  | [] => (n, Ret ts)
  | (when, then_) :: entries' =>
      let '(n, v) := eval_env range expr_fuel env n when in
      match v with
      | Ret v => apply_conditionals entries' (if ToBool v then MergeTransformationSpec ts then_ else ts) n
      | r => (n, let! _ := wrap_err "error evaluating when condition for transformation" r in Ret ts)
      end
  end.
Fixpoint conditional_specs (specs : list TransformationSpec) (n : nat) : nat * res (list TransformationSpec) :=
  match specs with
  | [] => (n, Ret [])
  | ts :: specs' =>
      let '(n, r) := apply_conditionals (ts_ConditionalConfig ts) ts n in
      match r with
      | Ret ts' => let '(n, rest) := conditional_specs specs' n in (n, let! rest := rest in Ret (ts' :: rest))
      | r => (n, let! _ := r in Ret [])
      end
  end.
Fixpoint ApplyAllConditionalTransformationSpec (pipes : list PipeSpec) (n : nat) : nat * res (list PipeSpec) :=
  match pipes with
  | [] => (n, Ret [])
  | p :: pipes' =>
      let '(n, r) := conditional_specs (ps_Apply p) n in
      match r with
      | Ret apply =>
          let '(n, rest) := ApplyAllConditionalTransformationSpec pipes' n in (n, let! rest := rest in Ret (with_apply p apply :: rest))
      | r => (n, let! _ := r in Ret [])
      end
  end.
End conditional.

(** ** The lookup tables of a step *)
Record LookupSpec := mkLookupSpec { ls_Key : string }.

(** The tables an operator names, in the order they are read: of its columns, only
    those that are lookups themselves. *)
Definition non_empty (name : string) : list string := if is_empty name then [] else [name].
Definition operator_lookups (ts : TransformationSpec) : list string :=
  let t := ts_Type ts in
  (omap tc_LookupName (ts_Columns ts) ++ siteLookupKeys ts ++
   if String.eqb t "analyze" then from_option (λ c, LookupTokens c ++ omap id (DateFormatLookups c)) [] (ts_AnalyzeConfig ts)
   else if String.eqb t "anonymize" then from_option (λ c, non_empty (an_LookupName c) ++ DeidLookups c) [] (ts_AnonymizeConfig ts)
   else if String.eqb t "shuffling" then from_option (λ fc, non_empty (fc_LookupName fc)) [] (c ← ts_ShufflingConfig ts; FilterColumns c)
   else if String.eqb t "clustering" then from_option (λ c, non_empty (TargetColumnsLookup c)) [] (ts_ClusteringConfig ts)
   else [])%list.
(** The last entry of a key wins. *)
Definition lookup_spec (config : list (option LookupSpec)) (key : string) : option LookupSpec :=
  List.find (λ s, String.eqb (ls_Key s) key) (rev (omap id config)).
Fixpoint active_lookups (config : list (option LookupSpec)) (keys : list string) : res (list LookupSpec) :=
  match keys with
  | [] => Ret []
  | key :: keys' =>
      match lookup_spec config key with
      | None => Fail "error: lookup table is not defined, please verify the configuration"
      | Some spec => let! rest := active_lookups config keys' in Ret (spec :: rest)
      end
  end.
Definition SelectActiveLookupTable (config : list (option LookupSpec)) (pipes : list PipeSpec) : res (list LookupSpec) :=
  active_lookups config (concat (operator_lookups <$> operators pipes)).

(** ** The operators *)
Section build.
Context `{GoArch} `{GoUnicode} `{GoFmt} `{GoZone} `{GoRegexp} `{!GoSubmatch} `{GoUuid} `{GoClock} `{GoJson} `{GoRand} `{DomainKeyEnv} `{GoDigits} `{GoSort}.
Variable map_order : nat → list string → list string.
Variable env : gmap string any.
Variable range : nat → list (string * any).
Variable lookupTables : gmap string LookupTable.
Variable sharding : ShardingInfo.
Variable expr_fuel : nat.

Definition build_columns (msg : string) (source : InputChannel) (outCh : OutputChannel) (specs : list TransformationColumnSpec) : res (list columnEval) :=
  foldr (λ spec rest,
    let! ce := wrap_err msg (BuildTransformationColumnEvaluator env range lookupTables sharding expr_fuel expr_fuel source outCh spec) in
    let! rest := rest in Ret (ce :: rest)) (Ret []) specs.

Definition NewFilterTransformationPipe (source : InputChannel) (outCh : OutputChannel) (spec : TransformationSpec) : res FilterTransformationPipe :=
  let config := default (mkFilterSpec false None 0) (ts_FilterConfig spec) in
  let! when := build_opt_expr env range expr_fuel "while building when clause" source (fs_When config) in
  let! evals := build_columns "while BuildTransformationColumnEvaluator (in FilterTransformationPipe)" source outCh (ts_Columns spec) in
  Ret (mkFilter (length (ic_ConfigColumns source)) (length (oc_ConfigColumns outCh)) (RowLengthStrict config) when (MaxOutputCount config) 0
         (ts_NewRecord spec) evals).

Definition NewAggregateTransformationPipe (source : InputChannel) (outCh : OutputChannel) (spec : TransformationSpec) : res AggregateTransformationPipe :=
  if negb (ts_NewRecord spec) then Fail "error: must have new_record set to true for aggregate transform"
  else
    let! evals := build_columns "while BuildTransformationColumnEvaluator (in NewAggregateTransformationPipe)" source outCh (ts_Columns spec) in
    Ret (mkAggregate evals (new_record (length (oc_ConfigColumns outCh)))).

(** [int(vv)] of a float, the count of a text that is not a number. *)
Definition GetCurrentSourcePeriod : Z :=
  match env !! "${PERIOD_ID_TYPE}" with
  | Some (VStr pt) =>
      match env !! pt with
      | Some (VInt v) => v
      | Some (VF64 v) => f64_to_i64 v
      | Some (VStr s) => match Atoi s with Some v => v | None => atoi_on_error s end
      | _ => 0
      end
  | _ => 0
  end.

Definition markPerRecord (ce : columnEval) : columnEval :=
  match ce with
  | mapColumnEval inputPos outputPos defaultValue mapConfig cctx _ => mapColumnEval inputPos outputPos defaultValue mapConfig cctx true
  | _ => ce
  end.
Definition on_error_of (s : string) : res on_error :=
  if String.eqb s "pass_through" then Ret OnErrorPassThrough
  else if String.eqb s "drop" then Ret OnErrorDrop
  else if String.eqb s "fail" then Ret OnErrorFail
  else Fail "error: unknown map_record_config on_error".

(** The mapping of a table, its items as column specifications: read from the
    database, and empty when no table is named. *)
Variable file_mapping : string → res (list TransformationColumnSpec).
(** The names of the registry. *)
Variable channelRegistry : gmap string OutputChannel.

Definition NewMapRecordTransformationPipe (source : InputChannel) (outCh : OutputChannel) (spec : TransformationSpec) : res MapRecordTransformationPipe :=
  let config := ts_MapRecordConfig spec in
  let! mapped :=
    match config with
    | Some c => if is_empty (FileMappingTableName c) then Ret [] else file_mapping (FileMappingTableName c)
    | None => Ret []
    end in
  let! from_mapping := build_columns "while creating the map column evaluator (BuildMapTCEvaluator)" source outCh mapped in
  let! own := build_columns "while BuildTransformationColumnEvaluator (in NewMapRecordTransformationPipe)" source outCh (ts_Columns spec) in
  let! hasErrorChannel :=
    match (c ← config; mrs_ErrorChannel c) with
    | None => Ret false
    | Some ec =>
        if is_empty (occ_Name ec) then Fail "error: error_channel name cannot be empty"
        else if is_empty (SpecName ec) then Fail "error: error_channel spec name cannot be empty"
        else match channelRegistry !! occ_Name ec with Some _ => Ret true | None => Fail "error: output channel not found in ChannelRegistry" end
    end in
  let! onError :=
    match config with
    | None => Ret OnErrorPassThrough
    | Some c => if is_empty (OnError c) then Ret (if FailOnError c then OnErrorFail else OnErrorPassThrough) else on_error_of (OnError c)
    end in
  let maxErrorCount := match config with Some c => if 0 <? mrs_MaxErrorCount c then mrs_MaxErrorCount c else 20 | None => 20 end in
  Ret (mkMapRecord outCh (ts_NewRecord spec) (markPerRecord <$> (from_mapping ++ own)%list) onError maxErrorCount 0 hasErrorChannel
         GetCurrentSourcePeriod []).

Fixpoint high_freq_columns (source : InputChannel) (columns : list HighFreqColumn) : res (list HighFreqSpec) :=
  match columns with
  | [] => Ret []
  | c :: columns' =>
      let! _ := column_of "error: high_freq column is not an input column" (ic_Columns source) (hc_Name c) in
      let! re := if is_empty (KeyRe c) then Ret None
                 else match regexp_Compile (KeyRe c) with Some re => Ret (Some re) | None => Fail "while compiling regex" end in
      let! rest := high_freq_columns source columns' in
      Ret (mkHighFreqColumn (hc_Name c) re (TopPercentile c) (TopRank c) :: rest)
  end.
Definition NewHighFreqTransformationPipe (source : InputChannel) (outCh : OutputChannel) (spec : TransformationSpec) : res HighFreqTransformationPipe :=
  match ts_HighFreqColumns spec with
  | [] => Fail "error: High Freq Pipe Transformation spec is missing columns definition"
  | columns =>
      let! columns := high_freq_columns source columns in
      let! evals := build_columns "while BuildTransformationColumnEvaluator (in NewHighFreqTransformationPipe)" source outCh (ts_Columns spec) in
      Ret (mkHighFreq source outCh (list_to_map ((λ c, (hf_Name c, ∅)) <$> columns)) evals None columns)
  end.

(** The operators that are not modelled here: partition_writer, merge, jetrules, the
    inference operators, analyze, anonymize, clustering, render and those of a site. *)
Variable other_operator : InputChannel → any → option OutputChannel → TransformationSpec → res (option evaluator).

Definition built {S} `{PipeTransformationEvaluator S} (r : res S) : res (option evaluator) := let! s := r in Ret (Some (mkEvaluator s)).
(** An operator without an output channel panics when it reads it: an aggregate when
    it is built, the others at their first column or record; the panic is placed at the
    build. *)
Definition with_output {A} (outCh : option OutputChannel) (k : OutputChannel → res A) : res A :=
  match outCh with Some o => k o | None => Panic nil_expression end.

Definition BuildPipeTransformationEvaluator (source : InputChannel) (jetsPartitionKey : any) (spec : TransformationSpec) (n : nat)
  : nat * res (option evaluator) :=
  let name := occ_Name (ts_OutputChannel spec) in
  match (if is_empty name then Ret None
         else match channelRegistry !! name with Some o => Ret (Some o) | None => Fail "error: output channel not found in ChannelRegistry" end) with
  | Ret outCh =>
      let '(n, holds) :=
        match ts_When spec with
        | None => (n, Ret true)
        | Some w => let '(n, v) := eval_env (λ _, range) expr_fuel env n w in (n, let! v := v in Ret (ToBool v))
        end in
      match holds with
      | Ret false => (n, Ret None)
      | Ret true =>
          let t := ts_Type spec in
          (n,
           if String.eqb t "map_record" then
             with_output outCh (λ o, @built _ (map_record_pipe map_order) (NewMapRecordTransformationPipe source o spec))
           else if String.eqb t "aggregate" then
             with_output outCh (λ o, @built _ (aggregate_pipe map_order) (NewAggregateTransformationPipe source o spec))
           else if String.eqb t "group_by" then
             match ts_GroupByConfig spec with
             | None => Fail "error: Group By Pipe Transformation spec is missing group_by_config element"
             | Some c => built (NewGroupByTransformationPipe source (gc_DomainKey c) (GroupByName c) (GroupByPos c) (GroupByCount c))
             end
           else if String.eqb t "distinct" then built (NewDistinctTransformationPipe source (ts_DistinctConfig spec))
           else if String.eqb t "filter" then
             with_output outCh (λ o, @built _ (filter_pipe map_order) (NewFilterTransformationPipe source o spec))
           else if String.eqb t "sort" then
             match ts_SortConfig spec with
             | None => Fail "error: Sort Pipe Transformation spec is missing sort_config element"
             | Some c => built (NewSortTransformationPipe source (so_DomainKey c) (SortByColumn c))
             end
           else if String.eqb t "high_freq" then
             match outCh with
             | Some o => @built _ (high_freq_pipe map_order) (NewHighFreqTransformationPipe source o spec)
             | None => Fail "error: High Freq Pipe Transformation spec is missing source and/or outputCh channels"
             end
           else if String.eqb t "shuffling" then
             match ts_ShufflingConfig spec with
             | None => Fail "error: Shuffling Pipe Transformation spec is missing regex, lookup, and/or keywords definition"
             | Some c => with_output outCh (λ o, let! r := NewShufflingTransformationPipe lookupTables source o c in built (Ret r.2))
             end
           else other_operator source jetsPartitionKey outCh spec)
      | r => (n, let! _ := r in Ret None)
      end
  | r => (n, let! _ := r in Ret None)
  end.
End build.
