(* ===== verification/PipeDemo.v ===== *)
(** * The pipes at work

    A runtime for evaluation (random numbers, domain keys, digits and the sort of the
    language as concrete functions) and the theorems on pipes applied to small
    documents and records. *)
From stdpp Require Import base list strings gmap relations sorting.
From Stdlib Require Import ZArith Lia SpecFloat Ascii Sorted.
From S2P Require Import Prelude GoFloat GoText GoValue Records DateParser EvalOperators.
From S2P Require Import EvalOperatorsLaws HashKey EvalExpression EvalExpressionLaws Cleansing.
From S2P Require Import CleansingLaws ColumnEval ColumnLaws ColumnBuild Pipes PipeLaws AggregateLaws.
From S2P Require Import MapRecordLaws MergePipe SamplingPipes PipeExec PipeExecLaws StepConfig.
From S2P Require Import StepConfigLaws ChannelLife StagePath StepSelect.
Local Open Scope string_scope.
Local Open Scope Z_scope.

(** ** A runtime *)
#[global] Program Instance demo_rand : GoRand := {| rand_Int63n k n := Z.of_nat k mod n |}.
Next Obligation. intros k n Hn. by apply Z.mod_pos_bound. Qed.
#[global] Instance demo_domain_keys : DomainKeyEnv :=
  {| HashingAlgo := "none"; DomainKeyDelimit := "|"; uuid_NewSHA1 s := "sha1:" +:+ s; uuid_NewMD5 s := "md5:" +:+ s |}.
#[global] Instance ascii_digits : GoDigits := {| unicode_digit c := (48 <=? c) && (c <=? 57) |}.

(** The sort of the language: by insertion. *)
Fixpoint insert_by {A} (cmp : A → A → Z) (x : A) (l : list A) : list A :=
  match l with [] => [x] | y :: l' => if cmp x y <=? 0 then x :: y :: l' else y :: insert_by cmp x l' end.
Definition sort_by {A} (cmp : A → A → Z) (l : list A) : list A := foldr (insert_by cmp) [] l.

Lemma insert_by_perm {A} cmp (x : A) l : insert_by cmp x l ≡ₚ x :: l.
Proof. induction l as [|y l IH]; [done|]. simpl. destruct (cmp x y <=? 0); [done|]. rewrite IH. apply Permutation_swap. Qed.
Lemma sort_by_perm {A} cmp (l : list A) : sort_by cmp l ≡ₚ l.
Proof. induction l as [|x l IH]; [done|]. simpl. by rewrite insert_by_perm, IH. Qed.
Lemma insert_by_sorted {A} (cmp : A → A → Z) x l : cmp_order cmp (x :: l) →
  StronglySorted (λ a b, cmp a b ≤ 0) l → StronglySorted (λ a b, cmp a b ≤ 0) (insert_by cmp x l).
Proof.
  intros [Ht Htr] Hs. induction Hs as [|y l Hs IH Hle]; simpl; [repeat constructor|].
  destruct (Z.leb_spec (cmp x y) 0) as [Hxy|Hxy].
  - repeat (constructor; try done). rewrite List.Forall_forall in *. intros z Hz%list_elem_of_In.
    apply (Htr x y z); [set_solver..|done|]. by apply Hle, list_elem_of_In.
  - constructor.
    + apply IH; intros; [apply Ht|apply (Htr a b c)]; set_solver.
    + apply Forall_forall. intros z Hz. rewrite insert_by_perm in Hz. apply elem_of_cons in Hz as [->|Hz].
      * destruct (Ht x y) as [|]; [set_solver..|lia|done].
      * by eapply Forall_forall in Hle.
Qed.
#[global] Program Instance insertion_sort : GoSort := {| SortFunc A cmp l := sort_by cmp l |}.
Next Obligation. intros A cmp l. apply sort_by_perm. Qed.
Next Obligation.
  intros A cmp l. induction l as [|x l IH]; intros Ho; [constructor|]. change (sort_by cmp (x :: l)) with (insert_by cmp x (sort_by cmp l)).
  assert (Hin : ∀ z, z ∈ sort_by cmp l → z ∈ l) by (intros z; by rewrite sort_by_perm). destruct Ho as [Ht Htr].
  apply insert_by_sorted; [|apply IH]; (split; [intros a b Ha Hb; apply Ht|intros a b c Ha Hb Hc; apply (Htr a b c)]); set_solver.
Qed.

Definition in_order (n : nat) (names : list string) : list string := names.

(** ** Operators *)
Module Operators.
Definition by_first : HashEvaluator := mkHashEvaluator 0 [] 0 [] true HashingAlgo_None "".
Definition person (name : string) (age : Z) : record := [VStr name; VInt64 age].
Definition people : list record := [person "ann" 30; person "bob" 25; person "ann" 41].
Definition source : InputChannel := mkInput "people" {[ "name" := 0; "age" := 1 ]} None ["name"; "age"] "".

Ltac each_row := let row := fresh in let H := fresh in intros row H; repeat (apply elem_of_cons in H as [ -> |H]); try (by inversion H).
Ltac all_in := repeat (constructor; try by vm_compute).

Lemma merge_joins_witness :
  run_pipe (start_merge by_first [(by_first, [person "ann" 1; person "cid" 2]); (by_first, [person "bob" 3])]) 0 [person "ann" 30; person "bob" 25]
  = ([as_bundle [person "ann" 30; person "ann" 1]; as_bundle [person "bob" 25; person "bob" 3]], Ret tt).
Proof. rewrite merge_joins; [by vm_compute|split; all_in|]. repeat constructor; by vm_compute. Defined.

Lemma splitter_partitions_witness : ∃ ps n', split_source (splitOnColumn 0) (Some 1) 0 people = (ps, n', Ret tt) ∧
  concat (pt_rows <$> ps) ≡ₚ people ∧ rows_at (VStr "ann") ps = [person "ann" 30; person "ann" 41] ∧ sized 1 ps.
Proof.
  destruct (splitter_partitions (splitOnColumn 0) (Some 1) 0 people [VStr "ann"; VStr "bob"; VStr "ann"])
    as (ps & n' & E & Hp & Hk & Hz & _); [by vm_compute|all_in|intros max [= <-]; unfold two63; lia|].
  exists ps, n'. split_and!; [exact E|exact Hp|rewrite Hk; by vm_compute|by apply Hz].
Defined.

Lemma sort_sends_in_order_witness : ∃ pipe sorted sortBy, NewSortTransformationPipe source "" ["age"] = Ret pipe ∧
  run_pipe pipe 0 people = (sorted, Ret tt) ∧ sorted ≡ₚ people ∧
  Forall2 (λ name pos, ic_Columns source !! name = Some pos) ["age"] sortBy ∧ StronglySorted (lex_le sortBy) sorted.
Proof.
  eexists. destruct (sort_sends_in_order source ["age"] (mkSort [1] []) [KInteger] 0 people) as (sorted & sortBy & H); [by vm_compute| |].
  - constructor; [|constructor]. intros pos Hp. assert (pos = 1) as -> by (vm_compute in Hp; congruence).
    split; [done|]. each_row; (split; [simpl; lia|by vm_compute]).
  - exists sorted, sortBy. split; [by vm_compute|exact H].
Defined.

Lemma group_by_maximal_runs_witness : ∃ bundles positions,
  run_pipe (mkGroupBy VNil [] 0 [0]) 0 people = (as_bundle <$> bundles, Ret tt) ∧
  Forall2 (λ name pos, ic_Columns source !! name = Some pos) ["name"] positions ∧
  concat bundles = people ∧ maximal_runs (group_key positions) people bundles.
Proof.
  apply (group_by_maximal_runs source ["name"] (mkGroupBy VNil [] 0 [0]) 0 people); [by vm_compute|].
  apply Forall_forall. each_row; intros positions (pos & l & Hp & ->%Forall2_nil_inv_l & ->)%Forall2_cons_inv_l;
    (assert (pos = 0) as -> by (vm_compute in Hp; congruence)); eexists; (split; [by vm_compute|done]).
Defined.

Lemma sort_then_group_by_witness : ∃ sorted bundles ks, run_pipe (mkSort [0] []) 0 people = (sorted, Ret tt) ∧
  run_pipe (mkGroupBy VNil [] 0 [0]) 0 sorted = (as_bundle <$> bundles, Ret tt) ∧
  concat bundles ≡ₚ people ∧ Forall2 (bundle_of 0) bundles ks ∧ NoDup ks.
Proof. apply (sort_then_group_by 0 0 0 people). split; [done|]. each_row; (split; [simpl; lia|by vm_compute]). Defined.

Lemma fan_out_independent_witness :
  fan_run "apply" "done" [Some (mkEvaluator (mkSort [1] [])); None; Some (mkEvaluator (mkGroupBy VNil [] 2 []))] 0 people =
    (0%nat, [[person "bob" 25; person "ann" 30; person "ann" 41]; [];
      [as_bundle [person "ann" 30; person "bob" 25]; as_bundle [person "ann" 41]]], Ret tt).
Proof.
  rewrite fan_out_independent; [by vm_compute| |repeat apply Forall_cons_2; try apply Forall_nil_2; by vm_compute].
  repeat apply Forall_cons_2; try apply Forall_nil_2; [exact (sort_read_only)|done|exact (group_by_read_only)].
Defined.

Lemma aggregate_results_witness : ∃ out,
  run_pipe (H := aggregate_pipe in_order) (mkAggregate [countColumnEval 0 0 None; sumColumnEval 1 1 None None] (new_record 3)) 0 people = ([out], Ret tt) ∧
  Forall (λ c, at_pos out (ac_out c) = Ret (agg_result (ac_agg c) (ac_in c) people)) [mkAggColumn AggCount 0 0; mkAggColumn AggSum 1 1] ∧
  agg_result AggSum 1 people = VInt64 96 ∧ at_pos out 2 = Ret VNil.
Proof.
  destruct (aggregate_results in_order [mkAggColumn AggCount 0 0; mkAggColumn AggSum 1 1] 3 0 people) as (out & E & Hc & Hn).
  - repeat constructor; set_solver.
  - repeat constructor; simpl; lia.
  - repeat (apply Forall_nil_2 || apply Forall_cons_2); (split; [simpl; lia|]); try done; right; eexists; (split; [by vm_compute|split; by vm_compute]).
  - exists out. cbn [fmap list_fmap agg_eval ac_agg ac_in ac_out] in E. split; [exact E|]. split; [exact Hc|]. split; [by vm_compute|]. apply Hn; [lia|]. intros [H|[H|[]%list_elem_of_In]%elem_of_cons]%elem_of_cons; by vm_compute in H.
Defined.

Definition two_columns : MapRecordTransformationPipe :=
  mkMapRecord (mkOutput "out" ∅ ["a"; "b"] "") true
    [selectColumnEval 0 0 None; selectColumnEval 0 1 (Some "int")] OnErrorDrop 5 0 true 0 [].
Lemma map_record_errors_witness : ∃ ctx' n' sent,
  feed (H := map_record_pipe in_order) two_columns 0 [[VStr "12"]; [VStr "x"]; [VStr "7"]] = (ctx', n', sent, Ret tt) ∧
  Ret <$> sent = m_row <$> List.filter no_error (mapping in_order two_columns (mr_columnEvaluators two_columns) 0 [[VStr "12"]; [VStr "x"]; [VStr "7"]]) ∧
  length sent = 2%nat ∧ mr_errorCount ctx' = 1 ∧ length (mr_errors ctx') = 1%nat.
Proof.
  destruct (feed (H := map_record_pipe in_order) two_columns 0 [[VStr "12"]; [VStr "x"]; [VStr "7"]]) as [[[ctx' n'] sent] r] eqn:E.
  destruct (map_record_errors in_order two_columns 0 [[VStr "12"]; [VStr "x"]; [VStr "7"]] ctx' n' sent r eq_refl eq_refl ltac:(by vm_compute) E) as (Hs & Hr & Hc & He).
  assert (r = Ret tt) as -> by (vm_compute in E; congruence). exists ctx', n', sent. split; [reflexivity|]. split; [exact Hs|].
  split; [apply (f_equal length) in Hs; rewrite length_fmap in Hs; rewrite Hs; by vm_compute|]. split; [rewrite Hc; by vm_compute|rewrite He; by vm_compute].
Defined.

Lemma EvalHash_range_witness : ∃ n' h, EvalHash (VStr "key") 7 0 = (n', Ret h) ∧ 0 ≤ h < 7.
Proof.
  destruct (EvalHash_range (VStr "key") 7 0 ltac:(unfold two63; lia)) as [(n' & h & E & [Hh|(? & _)]) _]; [|done]. exists n', h. exact (conj E Hh).
Defined.

Lemma OverpunchNumber_decodes_witness : OverpunchNumber "123M" 2 = Ret "-12.34" ∧ OverpunchNumber "123M" 9 = Panic slice_bounds.
Proof.
  destruct (OverpunchNumber_decodes true "12" "3" 4 ltac:(lia)) as (E & _ & Hp). split; [exact E|by apply (Hp 9)].
Defined.

Lemma case_first_match_witness : let adult := expressionNodeEvaluator (expressionSelectLeaf 1 "age" "" None) OpGE (Some (expressionValueLeaf (VInt 18))) None in
  (Update in_order (caseColumnEval [(expressionValueLeaf (VInt 0), [valueColumnEval (VStr "never") 0 None]); (adult, [valueColumnEval (VStr "adult") 0 None])]
     [valueColumnEval (VStr "minor") 0 None]) 0 (new_record 1) (Some (person "ann" 30))).2 = mkOutcome 0 [VStr "adult"] (Ret tt).
Proof.
  intros adult.
  destruct (case_first_match in_order [(expressionValueLeaf (VInt 0), [valueColumnEval (VStr "never") 0 None])] adult
    [valueColumnEval (VStr "adult") 0 None] [] [valueColumnEval (VStr "minor") 0 None] 0 0 (new_record 1) (Some (person "ann" 30)) adult 0 (VInt 1))
    as [E _]; [by vm_compute..|].
  cbn [app] in E. rewrite E. by vm_compute.
Defined.
End Operators.

(** ** Documents *)
Module Documents.
Definition channel (type name spec : string) : OutputChannelConfig := mkOutputChannel type name false false "" "" spec.
Definition operator (type : string) (map_record : option MapRecordSpec) (jetrules : option JetrulesSpec) (ch : OutputChannelConfig) : TransformationSpec :=
  mkTransformation type false [] map_record None [] None None None None None None jetrules None None None None None None ch [] None.
Definition input (name : string) : InputChannelConfig := mkInputChannel "memory" name "" 0 false false "".
(** Two pipes: the second reads what the first writes; the second mapping has no
    error channel of its own. *)
Definition mapping : TransformationSpec :=
  operator "map_record" (Some (mkMapRecordSpec "" (Some (channel "memory" "errors" "errors_spec")) "" 0 false)) None (channel "memory" "mapped" "mapped_spec").
Definition second : TransformationSpec := operator "map_record" None None (channel "memory" "result" "mapped_spec").
Definition pipes : list PipeSpec := [mkPipe "fan_out" (input "input_row") [] [mapping]; mkPipe "fan_out" (input "mapped") [] [second]].
Definition document : ComputePipesConfig :=
  mkConfig [] [mkChannelSpec "mapped_spec" ["a"]; mkChannelSpec "errors_spec" ["e"]] pipes [] [].

Lemma synthesis_keeps_steps_valid_witness : ∃ cpConfig' pipes' k, SynthesizeDefaultErrorChannels true 10 document pipes = Some (cpConfig', pipes', k) ∧
  validateErrorChannels pipes' = Ret tt ∧ Forall2 (given_channel (taken_names document pipes)) (operators pipes) (operators pipes').
Proof. apply (synthesis_keeps_steps_valid 10 document pipes). by vm_compute. Defined.

Lemma every_channel_closes_witness : ∃ registry, channel_registry document = Ret registry ∧
  ∀ s, rtc (run_step document registry (λ _, true)) run_start s → (∀ s', ¬ run_step document registry (λ _, true) s s') →
    "errors" ∈ closed s ∧ "result" ∈ closed s.
Proof.
  eexists. split; [by vm_compute|]. intros s Hr Hs.
  destruct (every_channel_closes document ["mapped_spec"; "errors_spec"; "mapped"; "errors"; "result"] (λ _, true)) as [_ Hc]; [by vm_compute| |].
  - intros [|[|i]] p Hp; [by left|right|by destruct i]. exists 0%nat, (mkPipe "fan_out" (input "input_row") [] [mapping]).
    injection Hp as <-. split_and!; [lia|done|]. apply list_elem_of_In. left. reflexivity.
  - destruct (Hc s Hr Hs) as [Ht _].
    destruct (Ht mapping) as (chs & E & _ & H1); [apply list_elem_of_In; by left|].
    destruct (Ht second) as (chs' & E' & _ & H2); [apply list_elem_of_In; right; by left|].
    vm_compute in E, E'. injection E as <-. injection E' as <-.
    split; [destruct (H1 (channel "memory" "errors" "errors_spec")) as [|[? _]]|destruct (H2 (channel "memory" "result" "mapped_spec")) as [|[? _]]];
      try (apply list_elem_of_In; simpl; by auto); done.
Defined.

Definition rules : TransformationSpec := operator "jetrules" None (Some (mkJetrules "claims" true [] 0 None)) (channel "memory" "" "").
Definition rules_document : ComputePipesConfig := mkConfig [] [] [] [[mkPipe "fan_out" (input "input_row") [] [rules]]] [].
Lemma refused_rules_run_on_the_node_witness : ∃ i pipes ts, transforms pipes ts ∧ ts_Type ts = "jetrules" ∧
  certainly_selected (λ env _, map_to_list env) 10 (λ _, []) rules_document i pipes.
Proof.
  destruct (validateNoRulesOnCpipesSM rules_document "cpipesSM") as [u|msg|msg|] eqn:E; [by vm_compute in E| |by vm_compute in E..].
  destruct (refused_rules_run_on_the_node (λ env _, map_to_list env) 10 (λ _, []) rules_document "cpipesSM" msg E) as (_ & i & ps & ts & Ht & Hr & Hs & _).
  exists i, ps, ts. exact (conj Ht (conj Hr Hs)).
Defined.
End Documents.
