(* ===== verification/RuleCompiler.v ===== *)
(** * The rule compiler

    The rule compiler of src/jets/compilerv2/compiler from the parsed rule to the rule
    that is written in the rete network: the validation of a rule
    (jet_rule_listener_validation.go, jet_rule_listener_operators.go,
    jet_rule_listener_filter_writes.go), its labels, and the ordering of its
    antecedents by score (jet_rule_listener_optimization.go) or by estimated cost
    (jet_rule_listener_cost_order.go).

    A resource is held by its key in the table of the resource manager; reading a key
    that is not there dereferences nil. The report of the cost order and its trace are
    left out, and so is the text of the validation errors. *)
From stdpp Require Import base list strings gmap sorting.
From Stdlib Require Import ZArith Lia SpecFloat.
From S2P Require Import Prelude GoFloat GoText GoValue Records.
Local Open Scope string_scope.
Local Open Scope Z_scope.

#[local] Set Warnings "-register-all".

(** ** The model of a rule (src/jets/jetrules/rete) *)
Record ResourceNode := mkResourceNode { rn_Id : string; rn_Type : string; rn_Value : string; IsBinded : bool; VarPos : Z; rn_Vertex : Z }.
Definition mkResource (id type value : string) : ResourceNode := mkResourceNode id type value false 0 0.
Definition set_Id (r : ResourceNode) (id : string) : ResourceNode := mkResourceNode id (rn_Type r) (rn_Value r) (IsBinded r) (VarPos r) (rn_Vertex r).
Abbreviation resources := (gmap Z ResourceNode).

Inductive rete_ExpressionNode := mkExpression {
  ex_Type : string; ex_Op : string; ex_Arg : option rete_ExpressionNode; ex_Lhs : option rete_ExpressionNode;
  ex_Rhs : option rete_ExpressionNode; ex_Value : Z }.

Record RuleTerm := mkTerm {
  IsNot : bool; rt_NormalizedLabel : string; SubjectKey : Z; PredicateKey : Z; ObjectKey : Z;
  ObjectExpr : option rete_ExpressionNode; Filter : option rete_ExpressionNode }.
Record JetruleNode := mkJetrule {
  ru_Name : string; Properties : gmap string string; Optimization : bool; Salience : Z;
  Antecedents : list RuleTerm; Consequents : list RuleTerm;
  AuthoredLabel : string; NormalizedLabel : string; Label : string; IsValid : bool }.

Definition set_Filter (a : RuleTerm) (f : option rete_ExpressionNode) : RuleTerm :=
  mkTerm (IsNot a) (rt_NormalizedLabel a) (SubjectKey a) (PredicateKey a) (ObjectKey a) (ObjectExpr a) f.
Definition set_label (a : RuleTerm) (l : string) : RuleTerm :=
  mkTerm (IsNot a) l (SubjectKey a) (PredicateKey a) (ObjectKey a) (ObjectExpr a) (Filter a).

(** ** Variables *)
Definition is_var (r : ResourceNode) : bool := String.eqb (rn_Type r) "var".
(** [s.Resource(key)] and [ResourceByKey[key]], dereferenced. *)
Definition resource (rm : resources) (key : Z) : res ResourceNode :=
  match rm !! key with Some r => Ret r | None => Panic "runtime error: invalid memory address or nil pointer dereference" end.

Definition collect_key (rm : resources) (vars : gset string) (key : Z) : res (gset string) :=
  if 0 <? key then let! r := resource rm key in Ret (if is_var r then {[ rn_Id r ]} ∪ vars else vars) else Ret vars.
Definition collectVars (rm : resources) (vars : gset string) (a : RuleTerm) : res (gset string) :=
  let! vars := collect_key rm vars (SubjectKey a) in
  let! vars := collect_key rm vars (PredicateKey a) in
  collect_key rm vars (ObjectKey a).
Definition allVarsBinded (rm : resources) (bindedVars : gset string) (a : RuleTerm) : res bool :=
  let! vars := collectVars rm ∅ a in Ret (bool_decide (vars ⊆ bindedVars)).

(** The keys of the variables of an expression. *)
Fixpoint collectVarResourcesFromExpr (rm : resources) (e : rete_ExpressionNode) : gset Z :=
  let go o := match o with Some e => collectVarResourcesFromExpr rm e | None => ∅ end in
  (if String.eqb (ex_Type e) "identifier" && from_option is_var false (rm !! ex_Value e) then {[ ex_Value e ]} else ∅)
  ∪ go (ex_Lhs e) ∪ go (ex_Rhs e) ∪ go (ex_Arg e).
(** Their names: a key is collected only when its resource is there. *)
Definition var_ids (rm : resources) (keys : gset Z) : gset string := set_map (λ k, from_option rn_Id "" (rm !! k)) keys.
Definition filter_ids (rm : resources) (e : rete_ExpressionNode) : gset string := var_ids rm (collectVarResourcesFromExpr rm e).

(** ** Operators of the rule engine (operators.txt) *)
Record operatorSpec := mkOperator { exprType : string; op_name : string; writesGraph : bool }.
Definition engineOperators : list operatorSpec :=
  ((λ name, mkOperator "binary" name false) <$>
     ["+"; "-"; "/"; "*"; "max_of"; "min_of"; "sorted_head"; "sum_values"; "join_values"; "and"; "or"; "=="; "!="; "<"; "<="; ">"; ">=";
      "literal_regex"; "apply_format"; "contains"; "starts_with"; "ends_with"; "substring_of"; "char_at"; "replace_char_of";
      "size_of"; "exist"; "exist_not"; "age_as_of"; "age_in_months_as_of"]) ++
  ((λ name, mkOperator "binary" name true) <$> ["range"; "lookup"; "multi_lookup"]) ++
  ((λ name, mkOperator "unary" name false) <$>
     ["abs"; "to_int"; "to_double"; "to_text"; "to_timestamp"; "month_period_of"; "week_period_of"; "day_period_of"; "not"; "to_upper";
      "to_lower"; "trim"; "length_of"; "parse_usd_currency"; "uuid_md5"; "uuid_sha1"; "create_literal"; "create_resource";
      "create_uuid_resource"; "is_literal"; "is_resource"; "raise_exception"]) ++
  ((λ name, mkOperator "unary" name true) <$> ["create_entity"; "lookup_rand"; "multi_lookup_rand"]).
Definition lookupOperator (type name : string) : option operatorSpec :=
  List.find (λ op, String.eqb (exprType op) type && String.eqb (op_name op) name) engineOperators.
Definition isGraphWritingOperator (type name : string) : bool := from_option writesGraph false (lookupOperator type name).
Definition is_call (e : rete_ExpressionNode) : bool := String.eqb (ex_Type e) "binary" || String.eqb (ex_Type e) "unary".

Definition add_new (out : list string) (s : string) : list string := if bool_decide (s ∈ out) then out else (out ++ [s])%list.
(** In the order of the tree, without repeats. *)
Fixpoint unknown_in (out : list string) (e : rete_ExpressionNode) : list string :=
  let go o out := match o with Some e => unknown_in out e | None => out end in
  let out := if is_call e && negb (bool_decide (is_Some (lookupOperator (ex_Type e) (ex_Op e))))
             then add_new out (ex_Type e +:+ " " +:+ ex_Op e) else out in
  go (ex_Rhs e) (go (ex_Arg e) (go (ex_Lhs e) out)).
Definition unknownOperators (e : rete_ExpressionNode) : list string := unknown_in [] e.
Fixpoint writers_in (out : list string) (e : rete_ExpressionNode) : list string :=
  let go o out := match o with Some e => writers_in out e | None => out end in
  let out := if is_call e && isGraphWritingOperator (ex_Type e) (ex_Op e) then add_new out (ex_Op e) else out in
  go (ex_Rhs e) (go (ex_Arg e) (go (ex_Lhs e) out)).
Definition filterGraphWriters (e : rete_ExpressionNode) : list string := writers_in [] e.

Definition validateOperatorNames (rule : JetruleNode) : bool :=
  let unknown := foldl add_new [] (concat (unknownOperators <$> (omap Filter (Antecedents rule) ++ omap ObjectExpr (Consequents rule))%list)) in
  (length unknown =? 0)%nat.
Definition validateFilterWrites (rule : JetruleNode) : bool :=
  forallb (λ f, (length (filterGraphWriters f) =? 0)%nat) (omap Filter (Antecedents rule)).

(** ** Validation *)
Record visit := mkVisit { visitedVarSet : gset string; hasVar : bool; v_isValid : bool }.

(** The subject, the predicate or the object of an antecedent. *)
Definition visit_key (rm : resources) (isNot : bool) (v : visit) (key : Z) : res visit :=
  let! r := resource rm key in
  Ret (if is_var r then
         if isNot then mkVisit (visitedVarSet v) true (v_isValid v && bool_decide (rn_Id r ∈ visitedVarSet v))
         else mkVisit ({[ rn_Id r ]} ∪ visitedVarSet v) true (v_isValid v)
       else v).
Definition visit_antecedent (rm : resources) (st : gset string * bool) (a : RuleTerm) : res (gset string * bool) :=
  let! v := visit_key rm (IsNot a) (mkVisit st.1 false st.2) (SubjectKey a) in
  let! v := visit_key rm (IsNot a) v (PredicateKey a) in
  let! v := visit_key rm (IsNot a) v (ObjectKey a) in
  let filterOk := match Filter a with None => true | Some e => bool_decide (filter_ids rm e ⊆ visitedVarSet v) end in
  Ret (visitedVarSet v, v_isValid v && hasVar v && filterOk).
Definition visit_consequent (rm : resources) (visited : gset string) (c : RuleTerm) : res bool :=
  let bound r := negb (is_var r) || bool_decide (rn_Id r ∈ visited) in
  let! s := resource rm (SubjectKey c) in
  let! p := resource rm (PredicateKey c) in
  Ret (bound s && bound p && from_option bound true (rm !! ObjectKey c) &&
       match ObjectExpr c with None => true | Some e => bool_decide (filter_ids rm e ⊆ visited) end).

Fixpoint fold_res {A S} (f : S → A → res S) (s : S) (l : list A) : res S :=
  match l with [] => Ret s | a :: l' => let! s := f s a in fold_res f s l' end.
Fixpoint all_res {A} (f : A → res bool) (l : list A) : res bool :=
  match l with [] => Ret true | a :: l' => let! b := f a in let! bs := all_res f l' in Ret (b && bs) end.

Definition ValidateJetruleNode (rm : resources) (rule : JetruleNode) : res bool :=
  let! st := fold_res (visit_antecedent rm) (∅, true) (Antecedents rule) in
  let! consequents := all_res (visit_consequent rm st.1) (Consequents rule) in
  Ret (st.2 && consequents && validateOperatorNames rule && validateFilterWrites rule).

(** ** Properties and labels *)
Section properties.
Context `{GoUnicode}.

(** The rule, and the error of a salience that is not an integer. *)
Definition PostProcessJetruleProperties (rule : JetruleNode) : JetruleNode * list string :=
  let o := ToUpper (default "" (Properties rule !! "o")) in
  let optimization := negb (bool_decide (o ∈ ["FALSE"; "F"; "0"])) in
  let s := default "" (Properties rule !! "s") in
  let '(salience, errors) :=
    if (String.length s =? 0)%nat then (100, [])
    else match Atoi s with Some z => (z, []) | None => (100, ["** error: invalid salience value, must be an integer"]) end in
  (mkJetrule (ru_Name rule) (Properties rule) optimization salience (Antecedents rule) (Consequents rule)
     (AuthoredLabel rule) (NormalizedLabel rule) (Label rule) (IsValid rule), errors).
End properties.

Definition makeResourceLabel (r : option ResourceNode) (normalize : bool) : string :=
  match r with
  | None => "nil"
  | Some r =>
      if bool_decide (rn_Type r ∈ ["var"; "resource"; "volatile_resource"]) then if normalize then rn_Id r else rn_Value r
      else rn_Type r +:+ "(" +:+ rn_Value r +:+ ")"
  end.
Fixpoint makeExpressionLabel (rm : resources) (e : rete_ExpressionNode) (normalize : bool) : string :=
  let go o := match o with Some e => makeExpressionLabel rm e normalize | None => "" end in
  if String.eqb (ex_Type e) "binary" then "(" +:+ go (ex_Lhs e) +:+ " " +:+ ex_Op e +:+ " " +:+ go (ex_Rhs e) +:+ ")"
  else if String.eqb (ex_Type e) "unary" then ex_Op e +:+ "(" +:+ go (ex_Arg e) +:+ ")"
  else if String.eqb (ex_Type e) "identifier" then
    match rm !! ex_Value e with Some r => makeResourceLabel (Some r) normalize | None => "null" end
  else "".
Definition antecedent_label (rm : resources) (normalize : bool) (a : RuleTerm) : string :=
  let named key := makeResourceLabel (rm !! key) normalize in
  (if IsNot a then "not" else "") +:+ "(" +:+ named (SubjectKey a) +:+ " " +:+ named (PredicateKey a) +:+ " " +:+ named (ObjectKey a) +:+ ")" +:+
  match Filter a with Some e => ".[" +:+ makeExpressionLabel rm e normalize +:+ "]" | None => "" end.
Definition consequent_label (rm : resources) (normalize : bool) (c : RuleTerm) : string :=
  let named key := makeResourceLabel (rm !! key) normalize in
  "(" +:+ named (SubjectKey c) +:+ " " +:+ named (PredicateKey c) +:+ " " +:+
  match ObjectExpr c with Some e => makeExpressionLabel rm e normalize | None => named (ObjectKey c) end +:+ ")".
Fixpoint dotted (labels : list string) : string :=
  match labels with [] => "" | [l] => l | l :: labels' => l +:+ "." +:+ dotted labels' end.

#[local] Instance leb_dec : RelDecision (λ a b, String.leb a b = true).
Proof. intros a b. apply _. Defined.
(** The properties o, s and flag first, the others by name. *)
Definition property_label (props : gmap string string) : string :=
  let first := ["o"; "s"; "flag"] in
  let others := List.filter (λ k, negb (bool_decide (k ∈ first))) (merge_sort (λ a b, String.leb a b = true) (elements (dom props))) in
  foldr (λ k rest, match props !! k with Some v => ", " +:+ k +:+ "=" +:+ v +:+ rest | None => rest end) "" (first ++ others)%list.
Definition rule_label (rm : resources) (rule : JetruleNode) (normalize : bool) : string :=
  "[" +:+ ru_Name rule +:+ property_label (Properties rule) +:+ "]:" +:+ dotted (antecedent_label rm normalize <$> Antecedents rule) +:+
  " -> " +:+ dotted (consequent_label rm normalize <$> Consequents rule) +:+ ";".
(** [makeRuleLabel] with both settings: the normalized one also labels the terms. *)
Definition makeRuleLabels (rm : resources) (rule : JetruleNode) (authored : string) : JetruleNode :=
  mkJetrule (ru_Name rule) (Properties rule) (Optimization rule) (Salience rule)
    ((λ a, set_label a (antecedent_label rm true a)) <$> Antecedents rule) ((λ c, set_label c (consequent_label rm true c)) <$> Consequents rule)
    authored (rule_label rm rule true) (rule_label rm rule false) (IsValid rule).
Definition PostProcessJetruleNode (rm : resources) (rule : JetruleNode) : JetruleNode := makeRuleLabels rm rule (rule_label rm rule false).

(** ** The order by score *)
Definition evaluateScore (rm : resources) (bindedVars : gset string) (a : RuleTerm) : res Z :=
  let of_key key (boundVar freeVar : Z) (constant : ResourceNode → Z) : res Z :=
    if 0 <? key then
      let! r := resource rm key in
      Ret (if is_var r then if bool_decide (rn_Id r ∈ bindedVars) then boundVar else freeVar
           else if bool_decide (rn_Type r ∈ ["identifier"; "resource"; "volatile_resource"]) then constant r else 0)
    else Ret 0 in
  let! sscore := of_key (SubjectKey a) 240 20 (λ _, 100) in
  let! pscore := of_key (PredicateKey a) 200 0 (λ r, if String.eqb (rn_Value r) "rdf:type" then 240 else 140) in
  let! oscore := of_key (ObjectKey a) 100 20 (λ _, 120) in
  Ret (sscore + pscore + oscore).

Definition not_placed : string := "Internal error: no antecedent can be placed during rule optimization".

(** The antecedents that can be placed, with their priority. *)
Fixpoint priorities (rm : resources) (bindedVars : gset string) (i : nat) (antecedents : list RuleTerm) : res (list (nat * Z)) :=
  match antecedents with
  | [] => Ret []
  | a :: antecedents' =>
      let! ready := if IsNot a then allVarsBinded rm bindedVars a else Ret true in
      let! plist := if ready then let! score := evaluateScore rm bindedVars a in Ret [(i, 1000 - score)] else Ret [] in
      let! rest := priorities rm bindedVars (S i) antecedents' in
      Ret (plist ++ rest)%list
  end.
(** The head of the list after the stable sort: the first of the least. *)
Fixpoint first_least (plist : list (nat * Z)) : option (nat * Z) :=
  match plist with
  | [] => None
  | (i, p) :: plist' => match first_least plist' with Some (j, q) => if q <? p then Some (j, q) else Some (i, p) | None => Some (i, p) end
  end.
(** The antecedent to place, and what is logged. *)
Definition best_by_score (rm : resources) (bindedVars : gset string) (antecedents : list RuleTerm) : res (nat * list string) :=
  let! plist := priorities rm bindedVars 0 antecedents in
  Ret (match first_least plist with Some (i, _) => (i, []) | None => (0%nat, [not_placed]) end).

(** The loop of both orders: an antecedent is chosen, its variables are bound unless
    it is negated, and it is taken off the list. *)
Fixpoint place_terms (best : gset string → list RuleTerm → res (nat * list string)) (rm : resources) (fuel : nat)
    (bindedVars : gset string) (antecedents : list RuleTerm) : res (list RuleTerm * list string) :=
  match antecedents, fuel with
  | [], _ => Ret ([], [])
  | _, O => Loop
  | _, S fuel =>
      let! choice := best bindedVars antecedents in
      match antecedents !! choice.1 with
      | None => Panic out_of_range
      | Some a =>
          let! bindedVars := if IsNot a then Ret bindedVars else collectVars rm bindedVars a in
          let! rest := place_terms best rm fuel bindedVars (delete choice.1 antecedents) in
          Ret (a :: rest.1, choice.2 ++ rest.2)%list
      end
  end.
Definition orderByScore (rm : resources) (antecedents : list RuleTerm) : res (list RuleTerm * list string) :=
  place_terms (best_by_score rm) rm (length antecedents) ∅ antecedents.

(** ** The order by cost *)

(** What the statistics of a rule set give; a count that is missing is [None]. *)
Record RuleSetStatistics := mkStatistics {
  st_Has : string → bool; st_N : string → float64; st_DS : string → float64; st_DO : string → float64;
  SubjectCount : string → string → option float64; ObjectCount : string → string → option float64 }.

Section cost.
(** [strconv.Quote] *)
Variable Quote : string → string.
Variable rm : resources.
Variable st : RuleSetStatistics.

Definition VolatileName (text : string) : string := if HasPrefix text "_0:" then text else "_0:" +:+ text.
Definition TermKey (kind text : string) : option string :=
  if String.eqb kind "resource" then if String.eqb text "" then None else Some text
  else if String.eqb kind "volatile_resource" then if String.eqb text "" || String.eqb text "_0:" then None else Some (VolatileName text)
  else if String.eqb kind "text" then Some (Quote text)
  else if String.eqb kind "int" then n ← Atoi (TrimSpace text); Some (Itoa n +:+ "^^int")
  else None.
Definition termKey (r : ResourceNode) : option string := TermKey (rn_Type r) (rn_Value r).

(** The rule is ordered by cost: every positive antecedent has a predicate the file
    counts. *)
Definition newCostEstimator (antecedents : list RuleTerm) : bool :=
  forallb (λ a, IsNot a || match rm !! PredicateKey a with
                           | Some p => negb (is_var p) && from_option (st_Has st) false (termKey p)
                           | None => false
                           end) antecedents.

Definition rows (a : RuleTerm) (bound : gset string) : res float64 :=
  let key := default "" (p ← rm !! PredicateKey a; termKey p) in
  let! sub := resource rm (SubjectKey a) in
  let! obj := resource rm (ObjectKey a) in
  let subBound := negb (is_var sub) || bool_decide (rn_Id sub ∈ bound) in
  let objBound := negb (is_var obj) || bool_decide (rn_Id obj ∈ bound) in
  let counted (count : string → string → option float64) r := if is_var r then None else k ← termKey r; count key k in
  Ret (if subBound && objBound then
         if f64_eq (st_N st key) (S754_zero false) then S754_zero false
         else f64_min f64_1 (f64_div (st_N st key) (f64_mul (st_DS st key) (st_DO st key)))
       else if subBound then default (f64_div (st_N st key) (st_DS st key)) (counted (SubjectCount st) sub)
       else if objBound then default (f64_div (st_N st key) (st_DO st key)) (counted (ObjectCount st) obj)
       else st_N st key).

(** The first negation whose variables are bound. *)
Fixpoint ready_negation (bound : gset string) (i : nat) (left : list RuleTerm) : res (option nat) :=
  match left with
  | [] => Ret None
  | a :: left' =>
      let! ready := if IsNot a then allVarsBinded rm bound a else Ret false in
      if ready then Ret (Some i) else ready_negation bound (S i) left'
  end.
(** The first positive antecedent of the smallest estimate. *)
Fixpoint cheapest (bound : gset string) (i : nat) (left : list RuleTerm) (pick : option (nat * float64)) : res (option nat) :=
  match left with
  | [] => Ret (fst <$> pick)
  | a :: left' =>
      if IsNot a then cheapest bound (S i) left' pick
      else
        let! r := rows a bound in
        cheapest bound (S i) left'
          (match pick with Some (j, best) => if f64_lt r best then Some (i, r) else Some (j, best) | None => Some (i, r) end)
  end.
Definition best_by_cost (bound : gset string) (left : list RuleTerm) : res (nat * list string) :=
  let! negation := ready_negation bound 0 left in
  match negation with
  | Some i => Ret (i, [])
  | None => let! pick := cheapest bound 0 left None in Ret (match pick with Some i => (i, []) | None => (0%nat, [not_placed]) end)
  end.
Definition orderByCost (antecedents : list RuleTerm) : res (list RuleTerm * list string) :=
  place_terms best_by_cost rm (length antecedents) ∅ antecedents.
End cost.

(** ** Filters and names *)
Definition and_of (l r : rete_ExpressionNode) : rete_ExpressionNode := mkExpression "binary" "and" None (Some l) (Some r) 0.
(** The filters come off a stack, the last one first. *)
Definition combined (matched : list rete_ExpressionNode) : option rete_ExpressionNode :=
  match rev matched with [] => None | f :: fs => Some (foldl and_of f fs) end.
(** The antecedents with their filters, and the filters that are left. *)
Fixpoint place_filters (rm : resources) (bindedVars : gset string) (ordered : list RuleTerm) (filters : list rete_ExpressionNode)
  : res (list RuleTerm * list rete_ExpressionNode) :=
  match ordered with
  | [] => Ret ([], filters)
  | a :: ordered' =>
      let! bindedVars := if IsNot a then Ret bindedVars else collectVars rm bindedVars a in
      let applies f := bool_decide (filter_ids rm f ⊆ bindedVars) in
      let! rest := place_filters rm bindedVars ordered' (List.filter (λ f, negb (applies f)) filters) in
      Ret (set_Filter a (combined (List.filter applies filters)) :: rest.1, rest.2)
  end.

(** A variable met for the first time gets the next name. *)
Definition rename_key (st : resources * gmap Z string) (key : Z) : res (resources * gmap Z string) :=
  let '(rm, varIdByKey) := st in
  if (0 <? key) && negb (bool_decide (is_Some (varIdByKey !! key))) then
    let! r := resource rm key in
    Ret (if is_var r then
           let id := "?x" +:+ fmt_0d 2 (Z.of_nat (size varIdByKey) + 1) in
           (<[key := set_Id r id]> rm, <[key := id]> varIdByKey)
         else st)
  else Ret st.
Definition rename_term (st : resources * gmap Z string) (a : RuleTerm) : res (resources * gmap Z string) :=
  fold_res rename_key st [SubjectKey a; PredicateKey a; ObjectKey a].

(** A negation, and a filter, read what is bound before them. *)
Definition check_ordered (rm : resources) (st : gset string * bool) (a : RuleTerm) : res (gset string * bool) :=
  let! st := if IsNot a then let! vars := collectVars rm ∅ a in Ret (st.1, st.2 && bool_decide (vars ⊆ st.1))
             else let! bound := collectVars rm st.1 a in Ret (bound, st.2) in
  Ret (st.1, st.2 && match Filter a with None => true | Some e => bool_decide (filter_ids rm e ⊆ st.1) end).
Definition validateOrderedRule (rm : resources) (rule : JetruleNode) : res bool :=
  let! st := fold_res (check_ordered rm) (∅, true) (Antecedents rule) in Ret st.2.

Definition with_antecedents (rule : JetruleNode) (antecedents : list RuleTerm) (isValid : bool) : JetruleNode :=
  mkJetrule (ru_Name rule) (Properties rule) (Optimization rule) (Salience rule) antecedents (Consequents rule)
    (AuthoredLabel rule) (NormalizedLabel rule) (Label rule) isValid.

(** The cost order where the statistics cover the rule, else the score order. *)
Definition order_antecedents (Quote : string → string) (statistics : option RuleSetStatistics) (rm : resources) (antecedents : list RuleTerm)
  : res (list RuleTerm * list string) :=
  match statistics with
  | Some st => if newCostEstimator Quote rm st antecedents then orderByCost Quote rm st antecedents else orderByScore rm antecedents
  | None => orderByScore rm antecedents
  end.
Definition reallocate_filters (rm : resources) (ordered : list RuleTerm) (filters : list rete_ExpressionNode)
  : res (list RuleTerm * list rete_ExpressionNode) :=
  match filters with [] => Ret (ordered, []) | _ => place_filters rm ∅ ordered filters end.

(** The table of resources, the rule and what is logged as an internal error. *)
Definition OptimizeJetruleNode (Quote : string → string) (statistics : option RuleSetStatistics) (rm : resources) (rule : JetruleNode)
  : res (resources * JetruleNode * list string) :=
  if negb (Optimization rule) || negb (IsValid rule) || (length (Antecedents rule) <=? 1)%nat then Ret (rm, rule, [])
  else
    let filters := omap Filter (Antecedents rule) in
    let antecedents := (λ a, set_Filter a None) <$> Antecedents rule in
    let! order := order_antecedents Quote statistics rm antecedents in
    let! placed := reallocate_filters rm order.1 filters in
    let errors := (order.2 ++ match placed.2 with [] => [] | _ => ["Internal error: not all filters were reallocated during rule optimization"] end)%list in
    let! renamed := fold_res rename_term (rm, ∅) placed.1 in
    let rm := renamed.1 in
    let rule := makeRuleLabels rm (with_antecedents rule placed.1 (IsValid rule)) (AuthoredLabel rule) in
    let! ok := validateOrderedRule rm rule in
    Ret (rm, with_antecedents rule (Antecedents rule) (IsValid rule && ok), errors).

(** What [ExitJetRuleStmt] does with a rule that has been read. *)
Definition compile_rule `{GoUnicode} (Quote : string → string) (statistics : option RuleSetStatistics) (rm : resources) (rule : JetruleNode)
  : res (resources * JetruleNode * list string) :=
  let '(rule, errors) := PostProcessJetruleProperties rule in
  let! isValid := ValidateJetruleNode rm rule in
  let rule := PostProcessJetruleNode rm (with_antecedents rule (Antecedents rule) isValid) in
  let! done := OptimizeJetruleNode Quote statistics rm rule in
  Ret (done.1, errors ++ done.2)%list.
