(* ===== verification/RuleCompilerLaws.v ===== *)
(** * Properties of the rule compiler

    A rule that is valid as written stays valid when its antecedents are reordered:
    the order, by score or by cost, is a permutation that places a negation after the
    terms that bind its variables; every filter is placed, at an antecedent where its
    variables are bound; and the variables keep distinct names. *)
From stdpp Require Import base list strings gmap pretty.
From Stdlib Require Import ZArith Lia SpecFloat.
From S2P Require Import Prelude GoFloat GoText GoTextLaws GoValue Records DateParser StepConfigLaws RuleCompiler.
Local Open Scope string_scope.
Local Open Scope Z_scope.

#[local] Set Warnings "-register-all".

(** ** The order of a rule, over any kind of variable *)
Section order.
Context {K : Type} `{Countable K} (vars : RuleTerm → gset K) (reads : rete_ExpressionNode → gset K).

Definition binds (a : RuleTerm) (bound : gset K) : gset K := if IsNot a then bound else vars a ∪ bound.
Definition bound_by (bound : gset K) (l : list RuleTerm) : gset K := foldl (λ b a, binds a b) bound l.
(** A negation reads what is bound before it, a filter what is bound at its term. *)
Definition negation_ok (bound : gset K) (a : RuleTerm) : Prop := IsNot a = true → vars a ⊆ bound.
Definition filter_ok (bound : gset K) (a : RuleTerm) : Prop := from_option (λ e, reads e ⊆ bound) True (Filter a).
Fixpoint negations_ok (bound : gset K) (l : list RuleTerm) : Prop :=
  match l with [] => True | a :: l' => negation_ok bound a ∧ negations_ok (binds a bound) l' end.
Fixpoint filters_ok (bound : gset K) (l : list RuleTerm) : Prop :=
  match l with [] => True | a :: l' => filter_ok (binds a bound) a ∧ filters_ok (binds a bound) l' end.

#[global] Instance negation_ok_dec bound a : Decision (negation_ok bound a).
Proof. unfold negation_ok. apply _. Defined.
#[global] Instance filter_ok_dec bound a : Decision (filter_ok bound a).
Proof. unfold filter_ok. destruct (Filter a); cbn; apply _. Defined.

Lemma negation_ok_bool bound a : bool_decide (negation_ok bound a) = (negb (IsNot a) || bool_decide (vars a ⊆ bound)).
Proof.
  apply eq_true_iff_eq. rewrite bool_decide_eq_true. unfold negation_ok. rewrite orb_true_iff, negb_true_iff, bool_decide_eq_true. destruct (IsNot a); naive_solver.
Qed.
Lemma elem_of_bound_by l bound x : x ∈ bound_by bound l ↔ x ∈ bound ∨ ∃ a, a ∈ l ∧ IsNot a = false ∧ x ∈ vars a.
Proof.
  revert bound. induction l as [|a l IH]; intros bound; cbn [bound_by foldl].
  { split; [by left|]. intros [?|(a & Ha & _)]; [done|]. by apply not_elem_of_nil in Ha. }
  unfold bound_by in IH. rewrite IH. unfold binds. destruct (IsNot a) eqn:E; rewrite ?elem_of_union; split.
  - intros [?|(b & Hb & ?)]; [by left|right]. exists b. rewrite elem_of_cons. naive_solver.
  - intros [?|(b & Hb & Hp & ?)]; [by left|]. apply elem_of_cons in Hb as [->|Hb]; [congruence|]. right. eauto.
  - intros [[?|?]|(b & Hb & ?)]; [right|by left|right].
    + exists a. rewrite elem_of_cons. naive_solver.
    + exists b. rewrite elem_of_cons. naive_solver.
  - intros [?|(b & Hb & Hp & ?)]; [by left; right|]. apply elem_of_cons in Hb as [->|Hb]; [by left; left|]. right. eauto.
Qed.
Lemma bound_by_perm l l' bound : l ≡ₚ l' → bound_by bound l = bound_by bound l'.
Proof. intros Hp. apply set_eq. intros x. rewrite !elem_of_bound_by. by setoid_rewrite Hp. Qed.
Lemma bound_by_mono l bound bound' : bound ⊆ bound' → bound_by bound l ⊆ bound_by bound' l.
Proof. intros Hb x. rewrite !elem_of_bound_by. intros [?|?]; [left; by apply Hb|by right]. Qed.
Lemma binds_bound_by a l bound : bound_by (binds a bound) l = bound_by bound (a :: l).
Proof. done. Qed.
Lemma bound_by_ge l bound : bound ⊆ bound_by bound l.
Proof. intros x Hx. apply elem_of_bound_by. by left. Qed.

(** What is read anywhere is bound in the end. *)
Lemma negations_ok_all l bound a : negations_ok bound l → a ∈ l → negation_ok (bound_by bound l) a.
Proof.
  revert bound. induction l as [|b l IH]; intros bound; [by intros _ ?%not_elem_of_nil|]. cbn [negations_ok].
  intros [Hb Hl] [->|Ha]%elem_of_cons Hn; [|by eapply IH].
  etrans; [by apply Hb|]. apply bound_by_ge.
Qed.
Lemma filters_ok_all l bound a : filters_ok bound l → a ∈ l → filter_ok (bound_by bound l) a.
Proof.
  revert bound. induction l as [|b l IH]; intros bound; [by intros _ ?%not_elem_of_nil|]. cbn [filters_ok].
  intros [Hb Hl] [->|Ha]%elem_of_cons; [|by eapply IH]. unfold filter_ok in *. destruct (Filter b); [|done]. cbn [from_option] in *.
  etrans; [by apply Hb|]. rewrite <- binds_bound_by. apply bound_by_ge.
Qed.
End order.

(** The same variables under other names. *)
Section transfer.
Context {K L : Type} `{Countable K} `{Countable L} (f : K → L) (U : gset K).
Hypothesis f_inj : ∀ x y, x ∈ U → y ∈ U → f x = f y → x = y.

Lemma map_subseteq (X Y : gset K) : X ⊆ U → Y ⊆ U → (set_map f X : gset L) ⊆ set_map f Y ↔ X ⊆ Y.
Proof.
  intros HX HY. split; [|apply set_map_mono; done]. intros Hs x Hx.
  assert (Hfx : f x ∈ (set_map f Y : gset L)) by (apply Hs, elem_of_map; eauto).
  apply elem_of_map in Hfx as (y & E & Hy). rewrite (f_inj x y); auto.
Qed.

Context (vars : RuleTerm → gset K) (reads : rete_ExpressionNode → gset K).
Let vars' a : gset L := set_map f (vars a).
Let reads' e : gset L := set_map f (reads e).
Definition within (a : RuleTerm) : Prop := vars a ⊆ U ∧ from_option (λ e, reads e ⊆ U) True (Filter a).

Lemma binds_map a bound : binds vars' a (set_map f bound) = set_map f (binds vars a bound).
Proof. unfold binds, vars'. destruct (IsNot a); [done|]. by rewrite set_map_union_L. Qed.
Lemma bound_by_map l bound : bound_by vars' (set_map f bound) l = set_map f (bound_by vars bound l).
Proof. revert bound. induction l as [|a l IH]; intros bound; [done|]. cbn [bound_by foldl]. rewrite binds_map. apply IH. Qed.
Lemma binds_within a bound : within a → bound ⊆ U → binds vars a bound ⊆ U.
Proof. unfold binds. intros [Ha _] Hb. destruct (IsNot a); [done|]. by apply union_least. Qed.
Lemma negation_ok_map a bound : within a → bound ⊆ U → negation_ok vars' (set_map f bound) a ↔ negation_ok vars bound a.
Proof. intros [Ha _] Hb. unfold negation_ok, vars'. by rewrite map_subseteq. Qed.
Lemma filter_ok_map a bound : within a → bound ⊆ U → filter_ok reads' (set_map f bound) a ↔ filter_ok reads bound a.
Proof. intros [_ Ha] Hb. unfold filter_ok, reads'. destruct (Filter a); [|done]. cbn in *. by rewrite map_subseteq. Qed.
Lemma order_map l bound : Forall within l → bound ⊆ U →
  (negations_ok vars' (set_map f bound) l ↔ negations_ok vars bound l) ∧
  (filters_ok vars' reads' (set_map f bound) l ↔ filters_ok vars reads bound l).
Proof.
  intros Hl. revert bound. induction Hl as [|a l Ha Hl IH]; intros bound Hb; [done|]. cbn [negations_ok filters_ok].
  rewrite binds_map, negation_ok_map by done. pose proof (binds_within a bound Ha Hb) as Hb'. rewrite filter_ok_map by done.
  destruct (IH _ Hb') as [-> ->]. done.
Qed.
End transfer.

(** ** The variables of a term *)
Definition var_key (rm : resources) (k : Z) : bool := from_option is_var false (rm !! k).
Definition term_keys (a : RuleTerm) : list Z := [SubjectKey a; PredicateKey a; ObjectKey a].
Definition var_keys (rm : resources) (a : RuleTerm) : gset Z := list_to_set (List.filter (var_key rm) (term_keys a)).
Definition ids (rm : resources) (a : RuleTerm) : gset string := var_ids rm (var_keys rm a).
(** The keys of the term are resources. *)
Definition known (rm : resources) (k : Z) : Prop := 0 < k ∧ is_Some (rm !! k).
Definition term_wf (rm : resources) (a : RuleTerm) : Prop := Forall (known rm) (term_keys a).
Definition has_var (rm : resources) (a : RuleTerm) : Prop := var_keys rm a ≠ ∅.

Section variables.
Variable rm : resources.

Lemma var_ids_union X Y : var_ids rm (X ∪ Y) = var_ids rm X ∪ var_ids rm Y.
Proof. apply set_map_union_L. Qed.
Definition key_ids (k : Z) : gset string := if var_key rm k then {[ from_option rn_Id "" (rm !! k) ]} else ∅.
Lemma ids_keys a : ids rm a = key_ids (SubjectKey a) ∪ (key_ids (PredicateKey a) ∪ key_ids (ObjectKey a)).
Proof.
  unfold ids, var_keys, term_keys, key_ids. cbn [List.filter].
  destruct (var_key rm (SubjectKey a)), (var_key rm (PredicateKey a)), (var_key rm (ObjectKey a)); cbn [list_to_set];
    rewrite ?var_ids_union; unfold var_ids; rewrite ?set_map_singleton_L, ?set_map_empty, ?(left_id_L ∅ (∪)), ?(right_id_L ∅ (∪)); done.
Qed.
Lemma known_resource k : known rm k → ∃ r, resource rm k = Ret r ∧ var_key rm k = is_var r ∧ rn_Id r = from_option rn_Id "" (rm !! k).
Proof. intros [_ [r Hr]]. exists r. unfold resource, var_key. by rewrite Hr. Qed.

Lemma collect_key_known k vars : known rm k → collect_key rm vars k = Ret (key_ids k ∪ vars).
Proof.
  intros Hk. destruct (known_resource k Hk) as (r & Hr & Hv & Hid). unfold collect_key, key_ids. rewrite Hv, <- Hid.
  destruct Hk as [->%Z.ltb_lt _]. rewrite Hr. cbn [res_bind]. destruct (is_var r); [done|]. by rewrite (left_id_L ∅ (∪)).
Qed.
Lemma term_wf_keys a : term_wf rm a → known rm (SubjectKey a) ∧ known rm (PredicateKey a) ∧ known rm (ObjectKey a).
Proof. unfold term_wf, term_keys. rewrite !Forall_cons. tauto. Qed.
Lemma collectVars_wf a vars : term_wf rm a → collectVars rm vars a = Ret (ids rm a ∪ vars).
Proof.
  intros Ha. destruct (term_wf_keys a Ha) as (Hs & Hp & Ho). unfold collectVars. rewrite collect_key_known by done. cbn [res_bind].
  rewrite collect_key_known by done. cbn [res_bind]. rewrite collect_key_known by done. rewrite ids_keys. f_equal.
  apply set_eq. intros x. rewrite !elem_of_union. tauto.
Qed.
Lemma allVarsBinded_wf a bound : term_wf rm a → allVarsBinded rm bound a = Ret (bool_decide (ids rm a ⊆ bound)).
Proof. intros Ha. unfold allVarsBinded. rewrite collectVars_wf by done. cbn [res_bind]. by rewrite (right_id_L ∅ (∪)). Qed.
Lemma bind_vars_wf a bound : term_wf rm a →
  (if IsNot a then Ret bound else collectVars rm bound a) = Ret (binds (ids rm) a bound).
Proof. intros Ha. unfold binds. destruct (IsNot a); [done|]. by apply collectVars_wf. Qed.
End variables.

(** ** What the validations check *)
Section validation.
Variable rm : resources.
Abbreviation vars := (ids rm).
Abbreviation reads := (filter_ids rm).

Lemma filter_ok_match bound a :
  match Filter a with None => true | Some e => bool_decide (reads e ⊆ bound) end = bool_decide (filter_ok reads bound a).
Proof.
  pose proof (bool_decide_reflect (filter_ok reads bound a)) as Hd. unfold filter_ok in Hd at 1.
  destruct (Filter a); cbn [from_option] in Hd; destruct Hd; rewrite ?bool_decide_eq_true, ?bool_decide_eq_false; naive_solver.
Qed.

Lemma check_ordered_wf a bound ok : term_wf rm a → check_ordered rm (bound, ok) a =
  Ret (binds vars a bound, ok && bool_decide (negation_ok vars bound a) && bool_decide (filter_ok reads (binds vars a bound) a)).
Proof.
  intros Ha. rewrite negation_ok_bool. unfold check_ordered, binds. destruct (IsNot a); rewrite collectVars_wf by done; cbn [res_bind fst snd negb orb];
    rewrite filter_ok_match; [by rewrite (right_id_L ∅ (∪))|by rewrite andb_true_r].
Qed.

Definition key_ok (isNot : bool) (bound : gset string) (k : Z) : bool := negb isNot || bool_decide (key_ids rm k ⊆ bound).
Lemma visit_key_known isNot v k : known rm k → visit_key rm isNot v k =
  Ret (mkVisit (if isNot then visitedVarSet v else key_ids rm k ∪ visitedVarSet v) (hasVar v || var_key rm k)
    (v_isValid v && key_ok isNot (visitedVarSet v) k)).
Proof.
  intros Hk. destruct (known_resource rm k Hk) as (r & Hr & Hv & Hid). unfold visit_key, key_ok, key_ids. rewrite Hr, Hv, <- Hid. cbn [res_bind].
  destruct v as [bound has ok], (is_var r), isNot; cbn [negb orb andb visitedVarSet hasVar v_isValid];
    rewrite ?orb_true_r, ?orb_false_r, ?andb_true_r, ?(left_id_L ∅ (∪)); try done.
  - do 3 f_equal. apply bool_decide_ext. by rewrite singleton_subseteq_l.
  - rewrite bool_decide_eq_true_2 by apply empty_subseteq. by rewrite andb_true_r.
Qed.
Lemma has_var_orb a : (var_key rm (SubjectKey a) || var_key rm (PredicateKey a) || var_key rm (ObjectKey a))%bool = bool_decide (has_var rm a).
Proof.
  unfold has_var, var_keys, term_keys. cbn [List.filter].
  destruct (var_key rm (SubjectKey a)), (var_key rm (PredicateKey a)), (var_key rm (ObjectKey a)); cbn [list_to_set orb]; symmetry;
    first [apply bool_decide_eq_false_2; by intros []|apply bool_decide_eq_true_2; intros [?%non_empty_singleton_L _]%empty_union_L; done].
Qed.
Lemma visit_antecedent_wf a bound ok : term_wf rm a → visit_antecedent rm (bound, ok) a =
  Ret (binds vars a bound,
       ok && bool_decide (negation_ok vars bound a) && bool_decide (has_var rm a) && bool_decide (filter_ok reads (binds vars a bound) a)).
Proof.
  intros Ha. destruct (term_wf_keys rm a Ha) as (Hs & Hp & Ho). unfold visit_antecedent.
  rewrite visit_key_known by done. cbn [res_bind visitedVarSet hasVar v_isValid fst snd]. rewrite visit_key_known by done.
  cbn [res_bind visitedVarSet hasVar v_isValid]. rewrite visit_key_known by done. cbn [res_bind visitedVarSet hasVar v_isValid orb].
  rewrite has_var_orb. rewrite filter_ok_match.
  assert (Hb : (if IsNot a then bound else key_ids rm (ObjectKey a) ∪ (key_ids rm (PredicateKey a) ∪ (key_ids rm (SubjectKey a) ∪ bound)))
               = binds vars a bound).
  { unfold binds. destruct (IsNot a); [done|]. rewrite ids_keys. apply set_eq. intros x. rewrite !elem_of_union. tauto. }
  assert (Hn : (key_ok (IsNot a) bound (SubjectKey a) && key_ok (IsNot a) bound (PredicateKey a) && key_ok (IsNot a) bound (ObjectKey a))%bool
               = bool_decide (negation_ok vars bound a)).
  { rewrite negation_ok_bool, ids_keys. unfold key_ok. destruct (IsNot a); cbn [negb orb andb].
    - rewrite <- !bool_decide_and. apply bool_decide_ext. rewrite !union_subseteq. tauto.
    - done. }
  rewrite <- Hn. unfold key_ok. destruct (IsNot a); [rewrite <- Hb|rewrite Hb]; cbn [negb orb andb]; by rewrite ?andb_true_r, ?andb_assoc.
Qed.

Lemma check_all l bound ok : Forall (term_wf rm) l → ∃ ok',
  fold_res (check_ordered rm) (bound, ok) l = Ret (bound_by vars bound l, ok') ∧
  (ok' = true ↔ ok = true ∧ negations_ok vars bound l ∧ filters_ok vars reads bound l).
Proof.
  intros Hl. revert bound ok. induction Hl as [|a l Ha Hl IH]; intros bound ok; cbn [fold_res]; [exists ok; cbn; tauto|].
  rewrite check_ordered_wf by done. cbn [res_bind].
  destruct (IH (binds vars a bound) (ok && bool_decide (negation_ok vars bound a) && bool_decide (filter_ok reads (binds vars a bound) a)))
    as (ok' & E & Hok). exists ok'. split; [done|]. rewrite Hok, !andb_true_iff, !bool_decide_eq_true. cbn [negations_ok filters_ok]. tauto.
Qed.
Lemma visit_all l bound ok : Forall (term_wf rm) l → ∃ ok',
  fold_res (visit_antecedent rm) (bound, ok) l = Ret (bound_by vars bound l, ok') ∧
  (ok' = true ↔ ok = true ∧ negations_ok vars bound l ∧ filters_ok vars reads bound l ∧ Forall (has_var rm) l).
Proof.
  intros Hl. revert bound ok. induction Hl as [|a l Ha Hl IH]; intros bound ok; cbn [fold_res]; [exists ok; rewrite Forall_nil; cbn; tauto|].
  rewrite visit_antecedent_wf by done. cbn [res_bind].
  destruct (IH (binds vars a bound) (ok && bool_decide (negation_ok vars bound a) && bool_decide (has_var rm a) &&
    bool_decide (filter_ok reads (binds vars a bound) a))) as (ok' & E & Hok). exists ok'. split; [done|].
  rewrite Hok, !andb_true_iff, !bool_decide_eq_true, Forall_cons. cbn [negations_ok filters_ok]. tauto.
Qed.

Definition consequent_ok (bound : gset string) (c : RuleTerm) : Prop :=
  ids rm c ⊆ bound ∧ from_option (λ e, reads e ⊆ bound) True (ObjectExpr c).
Definition consequent_wf (c : RuleTerm) : Prop := is_Some (rm !! SubjectKey c) ∧ is_Some (rm !! PredicateKey c).
Lemma bound_key k bound : from_option (λ r, negb (is_var r) || bool_decide (rn_Id r ∈ bound))%bool true (rm !! k) = bool_decide (key_ids rm k ⊆ bound).
Proof.
  unfold key_ids, var_key. destruct (rm !! k) as [r|]; cbn [from_option]; [|by rewrite bool_decide_eq_true_2 by apply empty_subseteq].
  destruct (is_var r); cbn [negb orb]; [|by rewrite bool_decide_eq_true_2 by apply empty_subseteq].
  apply bool_decide_ext. by rewrite singleton_subseteq_l.
Qed.
Lemma visit_consequent_wf bound c : consequent_wf c → ∃ b, visit_consequent rm bound c = Ret b ∧ (b = true ↔ consequent_ok bound c).
Proof.
  intros [[s Hs] [p Hp]]. unfold visit_consequent, resource. rewrite Hs, Hp. cbn [res_bind]. eexists. split; [done|].
  pose proof (bound_key (SubjectKey c) bound) as Es. pose proof (bound_key (PredicateKey c) bound) as Ep. rewrite Hs in Es. rewrite Hp in Ep.
  cbn [from_option] in Es, Ep. rewrite Es, Ep, bound_key. unfold consequent_ok. rewrite ids_keys, !union_subseteq, !andb_true_iff, !bool_decide_eq_true.
  destruct (ObjectExpr c); cbn [from_option]; rewrite ?bool_decide_eq_true; tauto.
Qed.
Lemma consequents_wf bound cs : Forall consequent_wf cs →
  ∃ b, all_res (visit_consequent rm bound) cs = Ret b ∧ (b = true ↔ Forall (consequent_ok bound) cs).
Proof.
  induction 1 as [|c cs Hc Hcs (bs & Ebs & Hbs)]; cbn [all_res]; [exists true; by rewrite Forall_nil|].
  destruct (visit_consequent_wf bound c Hc) as (b & Eb & Hb). rewrite Eb. cbn [res_bind]. rewrite Ebs. cbn [res_bind].
  eexists. split; [done|]. rewrite andb_true_iff, Hb, Hbs, Forall_cons. done.
Qed.

(** What it is for a rule to be valid. *)
Definition keys_wf (rule : JetruleNode) : Prop := Forall (term_wf rm) (Antecedents rule) ∧ Forall consequent_wf (Consequents rule).
Definition rule_ok (rule : JetruleNode) : Prop :=
  negations_ok vars ∅ (Antecedents rule) ∧ filters_ok vars reads ∅ (Antecedents rule) ∧ Forall (has_var rm) (Antecedents rule) ∧
  Forall (consequent_ok (bound_by vars ∅ (Antecedents rule))) (Consequents rule) ∧
  validateOperatorNames rule = true ∧ validateFilterWrites rule = true.
Lemma ValidateJetruleNode_wf rule : keys_wf rule → ∃ b, ValidateJetruleNode rm rule = Ret b ∧ (b = true ↔ rule_ok rule).
Proof.
  intros [Ha Hc]. unfold ValidateJetruleNode. destruct (visit_all (Antecedents rule) ∅ true Ha) as (ok & -> & Hok). cbn [res_bind fst snd].
  destruct (consequents_wf (bound_by vars ∅ (Antecedents rule)) _ Hc) as (b & -> & Hb). cbn [res_bind].
  eexists. split; [done|]. rewrite !andb_true_iff, Hok, Hb. unfold rule_ok. tauto.
Qed.
Lemma validateOrderedRule_wf rule : keys_wf rule → rule_ok rule → validateOrderedRule rm rule = Ret true.
Proof.
  intros [Ha _] (Hn & Hf & _). unfold validateOrderedRule. destruct (check_all (Antecedents rule) ∅ true Ha) as (ok & -> & Hok).
  cbn [res_bind snd]. f_equal. by apply Hok.
Qed.
End validation.

(** ** Both orders place a negation once its variables are bound *)
Section ordering.
Variable rm : resources.
Abbreviation vars := (ids rm).

(** Position [j] of a list that starts at position [i]. *)
Definition placed_at (bound : gset string) (l : list RuleTerm) (i j : nat) : Prop :=
  ∃ a, (i ≤ j)%nat ∧ l !! (j - i)%nat = Some a ∧ negation_ok vars bound a.
Lemma placed_at_cons bound a l i j : placed_at bound l (S i) j → placed_at bound (a :: l) i j.
Proof. intros (b & Hj & Hb & ?). exists b. split; [lia|]. replace (j - i)%nat with (S (j - S i)) by lia. done. Qed.
Lemma placed_at_head bound a l i : negation_ok vars bound a → placed_at bound (a :: l) i i.
Proof. intros Ha. exists a. split; [lia|]. by rewrite Nat.sub_diag. Qed.

(** The choice of the next antecedent, when one can be placed. *)
Definition chooses (best : gset string → list RuleTerm → res (nat * list string)) : Prop :=
  ∀ bound l, Forall (term_wf rm) l → Exists (negation_ok vars bound) l → ∃ i, best bound l = Ret (i, []) ∧ placed_at bound l 0 i.

Lemma ready_exists bound l : l ≠ [] → Forall (negation_ok vars (bound_by vars bound l)) l → Exists (negation_ok vars bound) l.
Proof.
  intros Hne Hl. destruct (decide (Exists (λ a, IsNot a = false) l)) as [Hp|Hp].
  { apply (Exists_impl _ _ _ Hp). intros a E. unfold negation_ok. congruence. }
  destruct l as [|a l]; [done|]. apply Exists_cons_hd. apply Forall_cons in Hl as [Ha _]. intros Hn. etrans; [by apply Ha|].
  intros x [?|(b & Hb & E & _)]%elem_of_bound_by; [done|]. destruct Hp. rewrite Exists_exists. eauto.
Qed.
Lemma place_terms_ok best : chooses best → ∀ fuel bound l, (length l ≤ fuel)%nat → Forall (term_wf rm) l →
  Forall (negation_ok vars (bound_by vars bound l)) l →
  ∃ l', place_terms best rm fuel bound l = Ret (l', []) ∧ l' ≡ₚ l ∧ negations_ok vars bound l'.
Proof.
  intros Hbest. induction fuel as [|fuel IH]; intros bound l Hlen Hwf Hl; (destruct (decide (l = [])) as [->|Hne]; [by exists []|]).
  { destruct l; [done|cbn in Hlen; lia]. }
  destruct (Hbest bound l Hwf (ready_exists bound l Hne Hl)) as (i & Ei & a & _ & Ha & Hready). rewrite Nat.sub_0_r in Ha.
  pose proof (delete_Permutation l i a Ha) as Hperm. pose proof Hwf as Hwf'. rewrite Hperm in Hwf'. apply Forall_cons in Hwf' as [Hwfa Hwfl].
  destruct (IH (binds vars a bound) (delete i l)) as (l' & El & Hl' & Hn).
  - apply Permutation_length in Hperm. cbn in Hperm. lia.
  - done.
  - rewrite binds_bound_by, <- (bound_by_perm vars _ _ bound Hperm). rewrite Hperm in Hl at 2. by apply Forall_cons in Hl as [_ Hl].
  - exists (a :: l'). split; [|split; [by rewrite Hl', <- Hperm|done]].
    destruct l as [|b l]; [done|]. cbn [place_terms]. rewrite Ei. cbn [res_bind fst snd]. rewrite Ha, bind_vars_wf by done. cbn [res_bind].
    rewrite El. done.
Qed.

Lemma evaluateScore_wf bound a : term_wf rm a → ∃ z, evaluateScore rm bound a = Ret z.
Proof.
  intros Ha. destruct (term_wf_keys rm a Ha) as (Hs & Hp & Ho). unfold evaluateScore.
  destruct (known_resource rm _ Hs) as (s & -> & _), (known_resource rm _ Hp) as (p & -> & _), (known_resource rm _ Ho) as (o & -> & _).
  destruct Hs as [->%Z.ltb_lt _], Hp as [->%Z.ltb_lt _], Ho as [->%Z.ltb_lt _]. cbn [res_bind]. by eexists.
Qed.
Lemma priorities_wf bound l i : Forall (term_wf rm) l → ∃ plist, priorities rm bound i l = Ret plist ∧
  (∀ x, x ∈ plist → placed_at bound l i x.1) ∧ (Exists (negation_ok vars bound) l → plist ≠ []).
Proof.
  intros Hl. revert i. induction Hl as [|a l Ha Hl IH]; intros i; cbn [priorities].
  { exists []. split; [done|]. split; [by intros x ?%not_elem_of_nil|]. by intros ?%Exists_nil. }
  destruct (IH (S i)) as (rest & Er & Hin & Hne). destruct (evaluateScore_wf bound a Ha) as [z Ez].
  assert (Eready : (if IsNot a then allVarsBinded rm bound a else Ret true) = Ret (bool_decide (negation_ok vars bound a))).
  { rewrite negation_ok_bool. destruct (IsNot a); [by apply allVarsBinded_wf|done]. }
  rewrite Eready. cbn [res_bind]. case_bool_decide as Hready.
  - rewrite Ez. cbn [res_bind]. rewrite Er. cbn [res_bind]. eexists. split; [done|]. split; [|done].
    intros x [->|Hx]%elem_of_cons; [by apply placed_at_head|by apply placed_at_cons, Hin].
  - cbn [res_bind]. rewrite Er. cbn [res_bind]. eexists. split; [done|]. split; [intros x Hx; by apply placed_at_cons, Hin|].
    intros [?|?]%Exists_cons; [done|]. by apply Hne.
Qed.
Lemma first_least_in plist : plist ≠ [] → ∃ x, first_least plist = Some x ∧ x ∈ plist.
Proof.
  induction plist as [|[i p] plist IH]; [done|]. intros _. cbn [first_least]. destruct plist as [|y plist]; [exists (i, p); by rewrite elem_of_cons; auto|].
  destruct IH as ([j q] & -> & Hin); [done|]. destruct (q <? p); eexists; (split; [done|]); rewrite elem_of_cons; auto.
Qed.
Lemma best_by_score_chooses : chooses (best_by_score rm).
Proof.
  intros bound l Hl Hex. unfold best_by_score. destruct (priorities_wf bound l 0 Hl) as (plist & -> & Hin & Hne). cbn [res_bind].
  destruct (first_least_in plist (Hne Hex)) as ([i p] & -> & Hi). exists i. split; [done|]. by apply (Hin _ Hi).
Qed.
End ordering.

Section cost.
Variable Quote : string → string.
Variable rm : resources.
Variable st : RuleSetStatistics.
Abbreviation vars := (ids rm).

Lemma rows_wf a bound : term_wf rm a → ∃ r, rows Quote rm st a bound = Ret r.
Proof.
  intros Ha. destruct (term_wf_keys rm a Ha) as (Hs & _ & Ho). unfold rows.
  destruct (known_resource rm _ Hs) as (s & -> & _), (known_resource rm _ Ho) as (o & -> & _). cbn [res_bind]. by eexists.
Qed.
Lemma ready_negation_wf bound l i : Forall (term_wf rm) l → ∃ o, ready_negation rm bound i l = Ret o ∧
  match o with Some j => placed_at rm bound l i j | None => ∀ a, a ∈ l → negation_ok vars bound a → IsNot a = false end.
Proof.
  intros Hl. revert i. induction Hl as [|a l Ha Hl IH]; intros i; cbn [ready_negation].
  { exists None. split; [done|]. by intros a ?%not_elem_of_nil. }
  destruct (IH (S i)) as (o & Eo & Ho). destruct (IsNot a) eqn:E; cbn [res_bind].
  - rewrite allVarsBinded_wf by done. cbn [res_bind]. case_bool_decide as Hv.
    + exists (Some i). split; [done|]. apply placed_at_head. by intros _.
    + exists o. split; [done|]. destruct o as [j|]; [by apply placed_at_cons|].
      intros b [->|Hb]%elem_of_cons Hok; [by destruct Hv; apply Hok|by apply Ho].
  - exists o. split; [done|]. destruct o as [j|]; [by apply placed_at_cons|]. intros b [->|Hb]%elem_of_cons Hok; [done|by apply Ho].
Qed.
Lemma cheapest_wf bound l i pick : Forall (term_wf rm) l → ∃ o, cheapest Quote rm st bound i l pick = Ret o ∧
  (∀ j, o = Some j → fst <$> pick = Some j ∨ placed_at rm bound l i j) ∧
  (is_Some pick ∨ Exists (λ a, IsNot a = false) l → is_Some o).
Proof.
  intros Hl. revert i pick. induction Hl as [|a l Ha Hl IH]; intros i pick; cbn [cheapest].
  { eexists. split; [done|]. split; [by left|]. intros [[x ->]|[]%Exists_nil]. by eexists. }
  destruct (IsNot a) eqn:E.
  - destruct (IH (S i) pick) as (o & Eo & Hin & Hsome). exists o. split; [done|]. split.
    + intros j Hj. destruct (Hin j Hj); [by left|right; by apply placed_at_cons].
    + intros [?|Hex]; [by auto|]. apply Exists_cons in Hex as [?|?]; [congruence|by auto].
  - destruct (rows_wf a bound Ha) as [r ->]. cbn [res_bind].
    assert (Hpick : ∃ j x, match pick with Some (j, best) => if f64_lt r best then Some (i, r) else Some (j, best) | None => Some (i, r) end
      = Some (j, x) ∧ (fst <$> pick = Some j ∨ j = i)).
    { destruct pick as [[j best]|]; [destruct (f64_lt r best)|]; eauto 10. }
    destruct Hpick as (k & x & -> & Hk). destruct (IH (S i) (Some (k, x))) as (o & Eo & Hin & Hsome). exists o. split; [done|]. split.
    + intros j Hj. destruct (Hin j Hj) as [[= <-]|]; [|right; by apply placed_at_cons]. destruct Hk as [Hk| ->]; [by left|right].
      apply placed_at_head. unfold negation_ok. congruence.
    + intros _. apply Hsome. left. by eexists.
Qed.
Lemma best_by_cost_chooses : chooses rm (best_by_cost Quote rm st).
Proof.
  intros bound l Hl Hex. unfold best_by_cost. destruct (ready_negation_wf bound l 0 Hl) as ([j|] & -> & Ho); cbn [res_bind]; [by exists j|].
  destruct (cheapest_wf bound l 0 None Hl) as (o & -> & Hin & [j ->]); cbn [res_bind].
  - right. apply Exists_exists in Hex as (a & Ha & Hok). apply Exists_exists. eauto.
  - exists j. split; [done|]. by destruct (Hin j eq_refl).
Qed.
End cost.

(** ** Every filter is placed *)

(** The conjuncts of a filter: what has to hold for it to hold. *)
Fixpoint conjuncts (e : rete_ExpressionNode) : list rete_ExpressionNode :=
  let go o := match o with Some e => conjuncts e | None => [] end in
  if String.eqb (ex_Type e) "binary" && String.eqb (ex_Op e) "and" then (go (ex_Lhs e) ++ go (ex_Rhs e))%list else [e].
Definition all_conjuncts (l : list RuleTerm) : list rete_ExpressionNode := concat (conjuncts <$> omap Filter l).

Lemma combined_Forall (P : rete_ExpressionNode → Prop) : (∀ l r, P l → P r → P (and_of l r)) →
  ∀ matched e, combined matched = Some e → Forall P matched → P e.
Proof.
  intros Hand matched e. unfold combined. rewrite (Permutation_rev matched) at 2.
  destruct (rev matched) as [|f fs]; [done|]. intros [= <-] [Hf Hfs]%Forall_cons.
  revert f Hf. induction Hfs as [|g fs Hg Hfs IH]; intros f Hf; [done|]. apply IH. by apply Hand.
Qed.
Lemma combined_conjuncts matched : concat (conjuncts <$> option_list (combined matched)) ≡ₚ concat (conjuncts <$> matched).
Proof.
  unfold combined. rewrite (Permutation_rev matched) at 2. destruct (rev matched) as [|f fs]; [done|]. cbn. rewrite app_nil_r.
  revert f. induction fs as [|g fs IH]; intros f; cbn; [by rewrite app_nil_r|]. rewrite IH. cbn. by rewrite <- app_assoc.
Qed.

(** What a filter must be for the rule to be valid, apart from its variables. *)
Definition expr_ok (e : rete_ExpressionNode) : Prop := unknownOperators e = [] ∧ filterGraphWriters e = [].
Lemma expr_ok_and l r : expr_ok l → expr_ok r → expr_ok (and_of l r).
Proof.
  intros [Ul Wl] [Ur Wr]. unfold expr_ok, unknownOperators, filterGraphWriters in *.
  assert (Eu : unknown_in [] (and_of l r) = unknown_in (unknown_in [] l) r) by (unfold and_of; cbn [unknown_in]; done).
  assert (Ew : writers_in [] (and_of l r) = writers_in (writers_in [] l) r) by (unfold and_of; cbn [writers_in]; done).
  by rewrite Eu, Ew, Ul, Wl.
Qed.
Lemma add_new_nil out s : add_new out s ≠ [].
Proof. unfold add_new. case_bool_decide as Hs; [|by destruct out]. intros ->. by apply not_elem_of_nil in Hs. Qed.
Lemma fold_add_new l out : foldl add_new out l = [] ↔ out = [] ∧ l = [].
Proof.
  revert out. induction l as [|s l IH]; intros out; cbn [foldl]; [tauto|]. rewrite IH.
  split; [intros [?%add_new_nil _]; done|by intros [_ ?]].
Qed.
Lemma concat_nil {A} (ls : list (list A)) : concat ls = [] ↔ Forall (λ l, l = []) ls.
Proof.
  induction ls as [|l ls IH]; cbn [concat]; [by rewrite Forall_nil|]. rewrite Forall_cons, <- IH. split; [apply app_nil|].
  by intros [-> ->].
Qed.
Lemma validate_operators rule : validateOperatorNames rule = true ∧ validateFilterWrites rule = true ↔
  Forall expr_ok (omap Filter (Antecedents rule)) ∧ Forall (λ e, unknownOperators e = []) (omap ObjectExpr (Consequents rule)).
Proof.
  unfold validateOperatorNames, validateFilterWrites. rewrite Nat.eqb_eq, length_zero_iff_nil, fold_add_new, concat_nil, Forall_fmap, Forall_app.
  assert (Hw : ∀ fs, forallb (λ f, (length (filterGraphWriters f) =? 0)%nat) fs = true ↔ Forall (λ f, filterGraphWriters f = []) fs).
  { intros fs. rewrite forallb_forall, Forall_forall. setoid_rewrite Nat.eqb_eq. setoid_rewrite length_zero_iff_nil.
    by setoid_rewrite list_elem_of_In. }
  rewrite Hw. unfold expr_ok. rewrite Forall_and. unfold compose. tauto.
Qed.

(** What the optimizer does not change of a term: its sign and its triple. *)
Definition shape (a : RuleTerm) : bool * Z * Z * Z := (IsNot a, SubjectKey a, PredicateKey a, ObjectKey a).
Definition same_term (a b : RuleTerm) : Prop := shape a = shape b ∧ Filter a = Filter b.

Section shapes.
Variable rm : resources.
Abbreviation vars := (ids rm).
Abbreviation reads := (filter_ids rm).

Lemma shape_ids a b : shape a = shape b → ids rm a = ids rm b ∧ IsNot a = IsNot b.
Proof. intros [= E1 E2 E3 E4]. unfold ids, var_keys, term_keys. by rewrite E1, E2, E3, E4. Qed.
Lemma shape_binds a b bound : shape a = shape b → binds vars a bound = binds vars b bound.
Proof. intros [E1 E2]%shape_ids. unfold binds. by rewrite E1, E2. Qed.
Lemma shape_negations l l' bound : shape <$> l = shape <$> l' → negations_ok vars bound l → negations_ok vars bound l'.
Proof.
  revert l' bound. induction l as [|a l IH]; intros [|b l'] bound; [done..|]. intros E. injection E as E1 E2 E3 E4 El.
  assert (Es : shape a = shape b) by (unfold shape; congruence). cbn [negations_ok]. rewrite <- (shape_binds a b bound Es). intros [Ha Hl]. split; [|by apply IH].
  unfold negation_ok in *. destruct (shape_ids a b Es) as [<- <-]. done.
Qed.
Lemma shape_bound l l' bound : shape <$> l = shape <$> l' → bound_by vars bound l = bound_by vars bound l'.
Proof.
  revert l' bound. induction l as [|a l IH]; intros [|b l'] bound; [done..|]. intros E. injection E as E1 E2 E3 E4 El.
  assert (Es : shape a = shape b) by (unfold shape; congruence). rewrite <- !binds_bound_by, (shape_binds a b bound Es). by apply IH.
Qed.
Lemma same_filters l l' bound : Forall2 same_term l l' → filters_ok vars reads bound l → filters_ok vars reads bound l'.
Proof.
  intros Hl. revert bound. induction Hl as [|a b l l' [Es Ef] Hl IH]; intros bound; [done|]. cbn [filters_ok].
  rewrite <- (shape_binds a b bound Es). intros [Ha Hrest]. split; [|by apply IH]. unfold filter_ok in *. by rewrite <- Ef.
Qed.

Lemma reads_and l r : reads (and_of l r) = reads l ∪ reads r.
Proof.
  unfold filter_ids. rewrite <- var_ids_union. f_equal. unfold and_of. cbn [collectVarResourcesFromExpr ex_Type ex_Lhs ex_Rhs ex_Arg]. cbn [String.eqb Ascii.eqb Bool.eqb andb].
  by rewrite (left_id_L ∅ (∪)), (right_id_L ∅ (∪)).
Qed.
Lemma filter_split (p : rete_ExpressionNode → bool) fs : fs ≡ₚ (List.filter p fs ++ List.filter (λ f, negb (p f)) fs)%list.
Proof.
  induction fs as [|f fs IH]; [done|]. cbn [List.filter]. destruct (p f); cbn [negb]; [by rewrite IH at 1|].
  rewrite <- Permutation_middle. by rewrite IH at 1.
Qed.
Lemma place_filters_ok (P : rete_ExpressionNode → Prop) l bound filters : (∀ e f, P e → P f → P (and_of e f)) → Forall (term_wf rm) l → Forall (λ f, reads f ⊆ bound_by vars bound l) filters →
  Forall P filters → (l = [] → filters = []) → ∃ l', place_filters rm bound l filters = Ret (l', []) ∧
    shape <$> l' = shape <$> l ∧ filters_ok vars reads bound l' ∧ Forall P (omap Filter l') ∧
    all_conjuncts l' ≡ₚ concat (conjuncts <$> filters).
Proof.
  intros Hand Hl. revert bound filters. induction Hl as [|a l Ha Hl IH]; intros bound filters Hr Hok Hne; cbn [place_filters].
  { rewrite Hne by done. by exists []. }
  rewrite bind_vars_wf by done. cbn [res_bind]. set (applies := λ f, bool_decide (reads f ⊆ binds vars a bound)).
  change (λ f, negb (bool_decide (reads f ⊆ binds vars a bound))) with (λ f, negb (applies f)).
  pose proof (filter_split applies filters) as Hsplit. pose proof Hr as Hr'. rewrite Hsplit in Hr', Hok.
  apply Forall_app in Hr' as [_ Hr'], Hok as [Hok1 Hok2].
  destruct (IH (binds vars a bound) (List.filter (λ f, negb (applies f)) filters)) as (l' & -> & Hs & Hf & Hx & Hc); [done|done| |].
  { intros ->. destruct (List.filter (λ f, negb (applies f)) filters) as [|f fs] eqn:E; [done|]. exfalso.
    assert (Hin : f ∈ List.filter (λ f, negb (applies f)) filters) by (rewrite E; apply elem_of_cons; by left).
    apply list_elem_of_In, filter_In in Hin as [Hin Hn]. apply negb_true_iff, bool_decide_eq_false in Hn. apply Hn.
    rewrite Forall_forall in Hr. by apply Hr, list_elem_of_In. }
  cbn [res_bind fst snd]. set (m := combined (List.filter applies filters)). exists (set_Filter a m :: l').
  assert (Hm : ∀ e, m = Some e → reads e ⊆ binds vars a bound ∧ P e).
  { intros e Em. apply (combined_Forall (λ e, reads e ⊆ binds vars a bound ∧ P e)) with (2 := Em).
    { intros f g [] []. rewrite reads_and. split; [by apply union_least|by apply Hand]. }
    apply Forall_and. split; [|done]. rewrite Forall_forall. intros f Hin%list_elem_of_In. apply filter_In in Hin as [_ Hin]. by apply bool_decide_eq_true in Hin. }
  split; [done|]. split; [cbn; by rewrite Hs|]. split; [|split].
  - cbn [filters_ok]. split; [|done]. unfold filter_ok. cbn [Filter set_Filter]. destruct m as [e|]; [|done]. by apply Hm.
  - cbn [omap list_omap Filter set_Filter]. destruct m as [e|]; [|done]. apply Forall_cons. split; [|done]. by apply (Hm e).
  - rewrite Hsplit, fmap_app, concat_app, <- Hc, <- combined_conjuncts. fold m. unfold all_conjuncts. cbn [omap list_omap Filter set_Filter].
    destruct m as [e|]; [|done]. cbn. by rewrite app_nil_r.
Qed.
End shapes.

(** ** The variables get distinct names *)
Definition var_name (n : Z) : string := "?x" +:+ fmt_0d 2 n.
Lemma var_name_inj n m : 0 < n → 0 < m → var_name n = var_name m → n = m.
Proof.
  assert (Hval : ∀ z, 0 < z → digits_val 0 (fmt_0d 2 z) = Some z).
  { intros z Hz. unfold fmt_0d. rewrite (proj2 (Z.ltb_ge z 0)) by lia. unfold pad0. rewrite digits_val_zeros.
    destruct z as [|p|p]; [lia| |lia]. destruct (parse_digits_pretty (Npos p)) as (Hv & _ & Hne).
    unfold Itoa. change (pretty (Zpos p)) with (pretty (Npos p)). unfold parse_digits in Hv. by destruct (pretty (Npos p)). }
  intros Hn Hm E%app_inj_l. pose proof (Hval n Hn) as En. rewrite E, (Hval m Hm) in En. congruence.
Qed.

Lemma expr_ind' (P : rete_ExpressionNode → Prop) : (∀ t op arg lhs rhs v, from_option P True arg → from_option P True lhs →
  from_option P True rhs → P (mkExpression t op arg lhs rhs v)) → ∀ e, P e.
Proof.
  intros Hstep. fix IH 1. intros [t op arg lhs rhs v]. apply Hstep; [destruct arg|destruct lhs|destruct rhs]; cbn; [apply IH|done..|apply IH|done|apply IH|done].
Qed.

Section renaming.
Variable rm : resources.

Definition with_id (r : ResourceNode) (id : option string) : ResourceNode :=
  match id with Some id => set_Id r id | None => r end.
Record renamed (rm' : resources) (m : gmap Z string) : Prop := {
  re_lookup : ∀ k, rm' !! k = (λ r, with_id r (m !! k)) <$> rm !! k;
  re_var : ∀ k id, m !! k = Some id → var_key rm k = true ∧ ∃ n, 0 < n ≤ Z.of_nat (size m) ∧ id = var_name n;
  re_inj : ∀ k k' id, m !! k = Some id → m !! k' = Some id → k = k' }.

Lemma renamed_nil : renamed rm ∅.
Proof. split; [|done..]. intros k. rewrite lookup_empty. by destruct (rm !! k). Qed.
Lemma renamed_key rm' m k : renamed rm' m → known rm k → ∃ rm'' m', rename_key (rm', m) k = Ret (rm'', m') ∧ renamed rm'' m' ∧
  (∀ j, j ∈ dom m' ↔ j ∈ dom m ∨ (j = k ∧ var_key rm k = true)).
Proof.
  intros [Hl Hv Hi] [Hk [r Hr]]. unfold rename_key. rewrite (proj2 (Z.ltb_lt 0 k) Hk). cbn [andb].
  case_bool_decide as Hin; cbn [negb].
  { exists rm', m. split; [done|]. split; [done|]. intros j. split; [by left|]. intros [?|[-> _]]; [done|]. by apply elem_of_dom. }
  apply eq_None_not_Some in Hin. unfold resource. rewrite Hl, Hr, Hin. cbn [fmap option_fmap option_map with_id res_bind].
  assert (Ev : var_key rm k = is_var r) by (unfold var_key; by rewrite Hr). destruct (is_var r) eqn:E.
  - eexists _, _. split; [done|]. fold (var_name (Z.of_nat (size m) + 1)). set (id := var_name (Z.of_nat (size m) + 1)). split; [split|].
    + intros j. destruct (decide (k = j)) as [<-|Hne]; [by rewrite !lookup_insert_eq, Hr|by rewrite !lookup_insert_ne].
    + intros j id'. rewrite map_size_insert_None by done. destruct (decide (k = j)) as [<-|Hne].
      * rewrite lookup_insert_eq. intros [= <-]. split; [done|]. exists (Z.of_nat (size m) + 1). split; [lia|done].
      * rewrite lookup_insert_ne by done. intros Hj. destruct (Hv _ _ Hj) as (? & n & ? & ?). split; [done|]. exists n. split; [lia|done].
    + assert (Hfresh : ∀ j, m !! j = Some id → False).
      { intros j Hj. destruct (Hv _ _ Hj) as (_ & n & Hn & En). unfold id in En. apply var_name_inj in En; lia. }
      clearbody id. intros j j' id' Hj Hj'.
      apply lookup_insert_Some in Hj as [[Ek Ei]|[Hne Hj]], Hj' as [[Ek' Ei']|[Hne' Hj']]; subst; naive_solver.
    + intros j. rewrite dom_insert_L, elem_of_union, elem_of_singleton. rewrite Ev. tauto.
  - exists rm', m. split; [done|]. split; [done|]. intros j. rewrite Ev. naive_solver.
Qed.
Lemma renamed_keys keys : Forall (known rm) keys → ∀ rm' m, renamed rm' m → ∃ rm'' m', fold_res rename_key (rm', m) keys = Ret (rm'', m') ∧
  renamed rm'' m' ∧ (∀ j, j ∈ dom m' ↔ j ∈ dom m ∨ (j ∈ keys ∧ var_key rm j = true)).
Proof.
  induction 1 as [|k keys Hk Hkeys IH]; intros rm' m Hm; cbn [fold_res].
  { exists rm', m. split; [done|]. split; [done|]. intros j. rewrite elem_of_nil. tauto. }
  destruct (renamed_key rm' m k Hm Hk) as (rm1 & m1 & -> & Hm1 & Hd1). cbn [res_bind].
  destruct (IH rm1 m1 Hm1) as (rm2 & m2 & -> & Hm2 & Hd2). exists rm2, m2. split; [done|]. split; [done|].
  intros j. rewrite Hd2, Hd1, elem_of_cons. naive_solver.
Qed.
Lemma fold_res_app {A S} (f : S → A → res S) s l l' : fold_res f s (l ++ l')%list = let! s := fold_res f s l in fold_res f s l'.
Proof. revert s. induction l as [|a l IH]; intros s; [done|]. cbn. destruct (f s a); cbn; [apply IH|done..]. Qed.
Lemma rename_terms l st : fold_res rename_term st l = fold_res rename_key st (l ≫= term_keys).
Proof.
  revert st. induction l as [|a l IH]; intros st; [done|]. rewrite bind_cons, fold_res_app. cbn [fold_res]. unfold rename_term at 1.
  fold (term_keys a). destruct (fold_res rename_key st (term_keys a)); cbn [res_bind]; [apply IH|done..].
Qed.

Section after.
Context (rm' : resources) (m : gmap Z string).
Hypothesis Hm : renamed rm' m.

Lemma renamed_var_key k : var_key rm' k = var_key rm k.
Proof. unfold var_key. rewrite (re_lookup _ _ Hm). destruct (rm !! k) as [r|]; [|done]. cbn. by destruct (m !! k). Qed.
Lemma renamed_Some k : is_Some (rm' !! k) ↔ is_Some (rm !! k).
Proof. rewrite (re_lookup _ _ Hm). apply fmap_is_Some. Qed.
Lemma renamed_var_keys a : var_keys rm' a = var_keys rm a.
Proof. unfold var_keys, term_keys. cbn [List.filter]. by rewrite !renamed_var_key. Qed.
Lemma renamed_reads e : collectVarResourcesFromExpr rm' e = collectVarResourcesFromExpr rm e.
Proof.
  induction e as [t op arg lhs rhs v Ha Hl Hr] using expr_ind'. cbn [collectVarResourcesFromExpr ex_Type ex_Value ex_Lhs ex_Rhs ex_Arg].
  fold (var_key rm' v) (var_key rm v). rewrite renamed_var_key.
  f_equal; [f_equal; [f_equal|]|]; [destruct lhs|destruct rhs|destruct arg]; done.
Qed.
Lemma renamed_inj k k' : k ∈ dom m → k' ∈ dom m → from_option rn_Id "" (rm' !! k) = from_option rn_Id "" (rm' !! k') → k = k'.
Proof.
  intros [id Hid]%elem_of_dom [id' Hid']%elem_of_dom. rewrite !(re_lookup _ _ Hm), Hid, Hid'.
  destruct (re_var _ _ Hm _ _ Hid) as [Hk _], (re_var _ _ Hm _ _ Hid') as [Hk' _]. unfold var_key in Hk, Hk'.
  destruct (rm !! k); [|done]. destruct (rm !! k'); [|done]. cbn. intros <-. by apply (re_inj _ _ Hm k k' id).
Qed.
End after.
End renaming.

(** ** The optimizer *)
Abbreviation expr_keys := collectVarResourcesFromExpr.
Definition reads_of (rm : resources) (e : option rete_ExpressionNode) : gset Z := from_option (expr_keys rm) ∅ e.
(** The variables of a rule, by their keys. *)
Definition rule_keys (rm : resources) (rule : JetruleNode) : gset Z :=
  ⋃ ((λ a, var_keys rm a ∪ reads_of rm (Filter a)) <$> Antecedents rule) ∪ ⋃ ((λ c, var_keys rm c ∪ reads_of rm (ObjectExpr c)) <$> Consequents rule).
Definition var_id (rm : resources) (k : Z) : string := from_option rn_Id "" (rm !! k).
(** Every key of the rule is a resource, and its variables have distinct names. *)
Definition rule_wf (rm : resources) (rule : JetruleNode) : Prop :=
  keys_wf rm rule ∧ ∀ k k', k ∈ rule_keys rm rule → k' ∈ rule_keys rm rule → var_id rm k = var_id rm k' → k = k'.

(** Validity over the keys. *)
Definition terms_ok (rm : resources) (ants cons : list RuleTerm) : Prop :=
  negations_ok (var_keys rm) ∅ ants ∧ filters_ok (var_keys rm) (expr_keys rm) ∅ ants ∧
  Forall (λ c, var_keys rm c ∪ reads_of rm (ObjectExpr c) ⊆ bound_by (var_keys rm) ∅ ants) cons.
Definition named_ok (rm : resources) (ants cons : list RuleTerm) : Prop :=
  negations_ok (ids rm) ∅ ants ∧ filters_ok (ids rm) (filter_ids rm) ∅ ants ∧ Forall (consequent_ok rm (bound_by (ids rm) ∅ ants)) cons.

Lemma named_terms rm U ants cons : (∀ k k', k ∈ U → k' ∈ U → var_id rm k = var_id rm k' → k = k') →
  Forall (λ a, var_keys rm a ∪ reads_of rm (Filter a) ⊆ U) ants → Forall (λ c, var_keys rm c ∪ reads_of rm (ObjectExpr c) ⊆ U) cons →
  named_ok rm ants cons ↔ terms_ok rm ants cons.
Proof.
  intros Hinj Ha Hc.
  assert (Hw : Forall (within U (var_keys rm) (expr_keys rm)) ants).
  { apply (Forall_impl _ _ _ Ha). intros a [Hv Hr]%union_subseteq. split; [done|]. unfold reads_of in Hr. by destruct (Filter a). }
  pose proof (order_map (L := string) (var_id rm) U Hinj (var_keys rm) (expr_keys rm) ants ∅ Hw (empty_subseteq _)) as [Hn Hf].
  pose proof (bound_by_map (L := string) (var_id rm) (var_keys rm) ants ∅) as Hb. rewrite set_map_empty in Hn, Hf, Hb.
  unfold named_ok, terms_ok. change (ids rm) with (λ a, set_map (D := gset string) (var_id rm) (var_keys rm a)).
  change (filter_ids rm) with (λ e, set_map (D := gset string) (var_id rm) (expr_keys rm e)). rewrite Hn, Hf, Hb.
  assert (HU : bound_by (var_keys rm) ∅ ants ⊆ U).
  { intros x [?%not_elem_of_empty|(a & Hin & _ & Hx)]%elem_of_bound_by; [done|]. rewrite Forall_forall in Ha. apply (Ha a Hin), elem_of_union. by left. }
  do 2 (apply and_iff_compat_l). rewrite !Forall_forall. rewrite Forall_forall in Hc. apply forall_proper. intros c.
  split; intros H Hin; specialize (H Hin); specialize (Hc c Hin); apply union_subseteq in Hc as [Hv Hr].
  - destruct H as [H1 H2]. apply union_least; [by apply (map_subseteq (var_id rm) U Hinj)|]. unfold reads_of in *.
    destruct (ObjectExpr c); [by apply (map_subseteq (var_id rm) U Hinj)|apply empty_subseteq].
  - apply union_subseteq in H as [H1 H2]. split; [by apply (map_subseteq (var_id rm) U Hinj)|]. unfold reads_of in *.
    destruct (ObjectExpr c); [by apply (map_subseteq (var_id rm) U Hinj)|done].
Qed.
Lemma rule_ok_named rm rule : rule_ok rm rule ↔ named_ok rm (Antecedents rule) (Consequents rule) ∧ Forall (has_var rm) (Antecedents rule) ∧
  Forall expr_ok (omap Filter (Antecedents rule)) ∧ Forall (λ e, unknownOperators e = []) (omap ObjectExpr (Consequents rule)).
Proof. unfold rule_ok, named_ok. rewrite <- validate_operators. tauto. Qed.

Lemma shape_wf rm : (∀ a b, shape a = shape b → term_wf rm a → term_wf rm b) ∧ (∀ a b, shape a = shape b → has_var rm a → has_var rm b).
Proof.
  split; intros a b [= E1 E2 E3 E4]; unfold term_wf, has_var, var_keys, term_keys; by rewrite E2, E3, E4.
Qed.
Lemma shape_elem l l' a : shape <$> l ≡ₚ shape <$> l' → a ∈ l → ∃ b, b ∈ l' ∧ shape a = shape b.
Proof.
  intros Hp Ha. assert (Hs : shape a ∈ shape <$> l') by (rewrite <- Hp; by apply list_elem_of_fmap_2).
  apply list_elem_of_fmap in Hs as (b & E & Hb). eauto.
Qed.
Lemma shape_bound_perm rm l l' bound : shape <$> l ≡ₚ shape <$> l' → bound_by (ids rm) bound l = bound_by (ids rm) bound l'.
Proof.
  intros Hp. apply set_eq. intros x. rewrite !elem_of_bound_by. apply or_iff_compat_l.
  split; intros (a & Ha & Hn & Hx); [|symmetry in Hp]; destruct (shape_elem _ _ a Hp Ha) as (b & Hb & Es);
    destruct (shape_ids rm a b Es) as [Ei En]; exists b; by rewrite <- Ei, <- En.
Qed.
Lemma shape_Forall (P : RuleTerm → Prop) l l' : (∀ a b, shape a = shape b → P a → P b) → shape <$> l ≡ₚ shape <$> l' → Forall P l → Forall P l'.
Proof.
  intros Hshape Hp. rewrite !Forall_forall. intros Hl b Hb.
  symmetry in Hp. destruct (shape_elem _ _ b Hp Hb) as (a & Ha & E). apply (Hshape a b); [done|by apply Hl].
Qed.

Section optimizer.
Context (Quote : string → string) (statistics : option RuleSetStatistics) (rm : resources).
Abbreviation vars := (ids rm).
Abbreviation reads := (filter_ids rm).

Lemma order_antecedents_ok l : Forall (term_wf rm) l → negations_ok vars ∅ l →
  ∃ l', order_antecedents Quote statistics rm l = Ret (l', []) ∧ l' ≡ₚ l ∧ negations_ok vars ∅ l'.
Proof.
  intros Hwf Hn. assert (Hall : Forall (negation_ok vars (bound_by vars ∅ l)) l).
  { apply Forall_forall. intros a Ha. by apply negations_ok_all. }
  unfold order_antecedents, orderByCost, orderByScore.
  destruct statistics as [st|]; [destruct (newCostEstimator Quote rm st l)|];
    apply place_terms_ok; auto using best_by_score_chooses, best_by_cost_chooses.
Qed.
Lemma reallocate_filters_ok (P : rete_ExpressionNode → Prop) l filters : (∀ e f, P e → P f → P (and_of e f)) → Forall (term_wf rm) l → l ≠ [] →
  Forall (λ a, Filter a = None) l → Forall (λ f, reads f ⊆ bound_by vars ∅ l) filters → Forall P filters →
  ∃ l', reallocate_filters rm l filters = Ret (l', []) ∧ shape <$> l' = shape <$> l ∧ filters_ok vars reads ∅ l' ∧ Forall P (omap Filter l') ∧
    all_conjuncts l' ≡ₚ concat (conjuncts <$> filters).
Proof.
  intros Hand Hwf Hne Hnone Hr HP. destruct filters as [|f fs]; [|by apply place_filters_ok].
  exists l. assert (Hno : omap Filter l = []).
  { clear -Hnone. induction Hnone as [|a l Ha Hl IH]; [done|]. cbn [omap list_omap]. by rewrite Ha. }
  unfold all_conjuncts. rewrite Hno. split; [done|]. split; [done|]. split; [|done].
  clear -Hnone. generalize (∅ : gset string). induction Hnone as [|a l Ha Hl IH]; intros bound; [done|].
  split; [|apply IH]. unfold filter_ok. by rewrite Ha.
Qed.

Lemma terms_placed (P : rete_ExpressionNode → Prop) ants : (∀ e f, P e → P f → P (and_of e f)) → ants ≠ [] → Forall (term_wf rm) ants →
  negations_ok vars ∅ ants → filters_ok vars reads ∅ ants → Forall P (omap Filter ants) →
  ∃ l1 l2, order_antecedents Quote statistics rm ((λ a, set_Filter a None) <$> ants) = Ret (l1, []) ∧
    reallocate_filters rm l1 (omap Filter ants) = Ret (l2, []) ∧ shape <$> l2 ≡ₚ shape <$> ants ∧ negations_ok vars ∅ l2 ∧
    filters_ok vars reads ∅ l2 ∧ Forall P (omap Filter l2) ∧ all_conjuncts l2 ≡ₚ all_conjuncts ants.
Proof.
  intros Hand Hne Hwf Hn Hf HP. set (l0 := (λ a, set_Filter a None) <$> ants).
  assert (E0 : shape <$> ants = shape <$> l0) by (unfold l0; by rewrite <- list_fmap_compose).
  assert (Hwf0 : Forall (term_wf rm) l0) by (unfold l0; by rewrite Forall_fmap).
  destruct (order_antecedents_ok l0 Hwf0) as (l1 & E1 & Hp1 & Hn1); [by apply (shape_negations rm ants)|].
  assert (Eb : bound_by vars ∅ l1 = bound_by vars ∅ ants) by (rewrite (bound_by_perm vars _ _ ∅ Hp1); symmetry; by apply shape_bound).
  destruct (reallocate_filters_ok P l1 (omap Filter ants)) as (l2 & E2 & Hs2 & Hf2 & HP2 & Hc2); [done| | | | |done|].
  - by rewrite Hp1.
  - intros ->. apply Permutation_nil_l in Hp1. unfold l0 in Hp1. by destruct ants.
  - rewrite Hp1. unfold l0. rewrite Forall_fmap. by apply Forall_forall.
  - rewrite Eb. apply Forall_forall. intros f (a & Ha & Efa)%list_elem_of_omap. pose proof (filters_ok_all _ _ _ _ a Hf Ha) as Hok.
    unfold filter_ok in Hok. by rewrite Efa in Hok.
  - exists l1, l2. split; [done|]. split; [done|]. split; [by rewrite Hs2, Hp1, <- E0|]. split; [by apply (shape_negations rm l1)|]. done.
Qed.
End optimizer.

(** Under the new names the rule is valid, and well formed again. *)
Section renamed_rule.
Context (rm rm' : resources) (m : gmap Z string) (ants cons : list RuleTerm).
Hypothesis Hm : renamed rm rm' m.
Hypothesis Hdom : ∀ a, a ∈ ants → var_keys rm a ⊆ dom m.
Hypothesis Hok : terms_ok rm ants cons.

Lemma bound_in_dom : bound_by (var_keys rm) ∅ ants ⊆ dom m.
Proof. intros x [?%not_elem_of_empty|(a & Ha & _ & Hx)]%elem_of_bound_by; [done|]. by apply (Hdom a). Qed.
Lemma terms_in_dom : Forall (λ a, var_keys rm a ∪ reads_of rm (Filter a) ⊆ dom m) ants ∧
  Forall (λ c, var_keys rm c ∪ reads_of rm (ObjectExpr c) ⊆ dom m) cons.
Proof.
  destruct Hok as (Hn & Hf & Hc). split; apply Forall_forall.
  - intros a Ha. apply union_least; [by apply Hdom|]. pose proof (filters_ok_all _ _ _ _ a Hf Ha) as Hr. unfold filter_ok in Hr. unfold reads_of.
    destruct (Filter a); [|apply empty_subseteq]. etrans; [exact Hr|apply bound_in_dom].
  - intros c Hin. rewrite Forall_forall in Hc. etrans; [by apply Hc|apply bound_in_dom].
Qed.
Lemma renamed_reads_of e : reads_of rm' e = reads_of rm e.
Proof. destruct e; [|done]. by apply (renamed_reads rm rm' m). Qed.
Lemma terms_ok_renamed : terms_ok rm' ants cons.
Proof.
  assert (Ev : ∀ a, var_keys rm' a = var_keys rm a) by (intros; by apply (renamed_var_keys rm rm' m)).
  assert (Er : ∀ e, expr_keys rm' e = expr_keys rm e) by (intros; by apply (renamed_reads rm rm' m)).
  assert (Eb : ∀ a bound, binds (var_keys rm') a bound = binds (var_keys rm) a bound) by (intros; unfold binds; by rewrite Ev).
  assert (Ebs : ∀ l bound, bound_by (var_keys rm') bound l = bound_by (var_keys rm) bound l).
  { induction l as [|a l IH]; intros bound; [done|]. rewrite <- !binds_bound_by, Eb. apply IH. }
  destruct Hok as (Hn & Hf & Hc). split; [|split].
  - revert Hn. generalize (∅ : gset Z). clear -Ev Eb. induction ants as [|a l IH]; intros bound; [done|]. cbn [negations_ok].
    rewrite Eb. unfold negation_ok. rewrite Ev. intros [? ?]. auto.
  - revert Hf. generalize (∅ : gset Z). clear -Ev Er Eb. induction ants as [|a l IH]; intros bound; [done|]. cbn [filters_ok].
    rewrite Eb. unfold filter_ok. intros [Ha ?]. split; [|by auto]. destruct (Filter a); [|done]. cbn [from_option] in *. by rewrite Er.
  - rewrite Ebs. apply (Forall_impl _ _ _ Hc). intros c. by rewrite Ev, renamed_reads_of.
Qed.
Lemma distinct_in_dom k k' : k ∈ dom m → k' ∈ dom m → var_id rm' k = var_id rm' k' → k = k'.
Proof. by apply renamed_inj with (rm := rm). Qed.
Lemma named_ok_renamed : named_ok rm' ants cons.
Proof.
  destruct terms_in_dom as [Ha Hc]. apply (named_terms rm' (dom m)); [apply distinct_in_dom| | |apply terms_ok_renamed].
  - apply (Forall_impl _ _ _ Ha). intros a. by rewrite (renamed_var_keys rm rm' m Hm), renamed_reads_of.
  - apply (Forall_impl _ _ _ Hc). intros c. by rewrite (renamed_var_keys rm rm' m Hm), renamed_reads_of.
Qed.
End renamed_rule.

Definition triple_of (c : RuleTerm) : (bool * Z * Z * Z) * option rete_ExpressionNode := (shape c, ObjectExpr c).
(** What the optimizer keeps of a rule and of the resources. *)
Record same_rule (rm : resources) (rule : JetruleNode) (rm' : resources) (rule' : JetruleNode) : Prop := {
  sr_terms : shape <$> Antecedents rule' ≡ₚ shape <$> Antecedents rule;
  sr_filters : all_conjuncts (Antecedents rule') ≡ₚ all_conjuncts (Antecedents rule);
  sr_consequents : triple_of <$> Consequents rule' = triple_of <$> Consequents rule;
  sr_resources : ∀ k, (λ r, (rn_Type r, rn_Value r)) <$> rm' !! k = (λ r, (rn_Type r, rn_Value r)) <$> rm !! k;
  sr_others : ∀ k, k ∉ rule_keys rm rule → rm' !! k = rm !! k }.

(** The labels are no part of what is checked. *)
Lemma omap_label {B} (get : RuleTerm → option B) f (l : list RuleTerm) : (∀ a x, get (set_label a x) = get a) → omap get ((λ a, set_label a (f a)) <$> l) = omap get l.
Proof. intros Hget. induction l as [|a l IH]; [done|]. cbn. by rewrite Hget, <- IH. Qed.
Lemma named_ok_label rm f g l cons : named_ok rm l cons → named_ok rm ((λ a, set_label a (f a)) <$> l) ((λ c, set_label c (g c)) <$> cons).
Proof.
  intros (Hn & Hf & Hc).
  assert (Es : shape <$> l = shape <$> ((λ a, set_label a (f a)) <$> l)) by (by rewrite <- list_fmap_compose).
  split; [by apply (shape_negations rm l)|]. split.
  - apply (same_filters rm l); [|done]. apply Forall2_fmap_r, Forall_Forall2_diag, Forall_forall. done.
  - rewrite <- (shape_bound rm _ _ ∅ Es), Forall_fmap. exact Hc.
Qed.

Section rename_rule.
Context (rm : resources) (rule : JetruleNode) (l : list RuleTerm) (authored : string).
Hypothesis Hwf : rule_wf rm rule.
Hypothesis Hok : rule_ok rm rule.
Hypothesis Hshape : shape <$> l ≡ₚ shape <$> Antecedents rule.
Hypothesis Hneg : negations_ok (ids rm) ∅ l.
Hypothesis Hfil : filters_ok (ids rm) (filter_ids rm) ∅ l.
Hypothesis Hexpr : Forall (λ e, expr_ok e ∧ expr_keys rm e ⊆ rule_keys rm rule) (omap Filter l).
Hypothesis Hconj : all_conjuncts l ≡ₚ all_conjuncts (Antecedents rule).

Lemma l_wf : Forall (term_wf rm) l ∧ Forall (has_var rm) l.
Proof.
  destruct Hwf as [[Ha _] _], (proj1 (rule_ok_named rm rule) Hok) as (_ & Hv & _), (shape_wf rm) as [S1 S2].
  split; (eapply shape_Forall; [|symmetry; exact Hshape|]); eauto.
Qed.
Lemma l_keys a : a ∈ l → var_keys rm a ⊆ rule_keys rm rule.
Proof.
  intros Ha x Hx. destruct (shape_elem _ _ a Hshape Ha) as (b & Hb & [= E1 E2 E3 E4]). unfold rule_keys. apply elem_of_union. left. apply elem_of_union_list.
  eexists. split; [by apply list_elem_of_fmap_2|]. apply elem_of_union. left. unfold var_keys, term_keys in *. by rewrite <- E2, <- E3, <- E4.
Qed.
Lemma consequent_keys c : c ∈ Consequents rule → var_keys rm c ∪ reads_of rm (ObjectExpr c) ⊆ rule_keys rm rule.
Proof.
  intros Hc x Hx. unfold rule_keys. apply elem_of_union. right. apply elem_of_union_list. eexists. split; [by apply (list_elem_of_fmap_2 (λ c, var_keys rm c ∪ reads_of rm (ObjectExpr c)))|done].
Qed.
Lemma l_terms_ok : terms_ok rm l (Consequents rule).
Proof.
  apply (named_terms rm (rule_keys rm rule)).
  - apply Hwf.
  - apply Forall_forall. intros a Ha. apply union_least; [by apply l_keys|]. destruct (Filter a) as [e|] eqn:E; [|apply empty_subseteq].
    rewrite Forall_forall in Hexpr. apply (Hexpr e). apply list_elem_of_omap. eauto.
  - apply Forall_forall. apply consequent_keys.
  - split; [done|]. split; [done|]. destruct (proj1 (rule_ok_named rm rule) Hok) as ((_ & _ & Hc) & _).
    by rewrite (shape_bound_perm rm _ _ ∅ Hshape).
Qed.

Section names.
Context (rm' : resources) (m : gmap Z string).
Hypothesis Hm : renamed rm rm' m.
Hypothesis Hd : ∀ j, j ∈ dom m ↔ j ∈ l ≫= term_keys ∧ var_key rm j = true.
Let rule' := makeRuleLabels rm' (with_antecedents rule l (IsValid rule)) authored.

Lemma in_dom_keys x : x ∈ dom m ↔ ∃ a, a ∈ l ∧ x ∈ var_keys rm a.
Proof.
  rewrite Hd, list_elem_of_bind. unfold var_keys. setoid_rewrite elem_of_list_to_set. setoid_rewrite list_elem_of_In. setoid_rewrite filter_In.
  setoid_rewrite <- list_elem_of_In. naive_solver.
Qed.
Lemma l_in_dom a : a ∈ l → var_keys rm a ⊆ dom m.
Proof. intros Ha x Hx. apply in_dom_keys. eauto. Qed.
Lemma l_renamed_ok : rule_ok rm' rule'.
Proof.
  destruct (proj1 (rule_ok_named rm rule) Hok) as (_ & _ & _ & Hu). apply rule_ok_named. split; [|split; [|split]].
  - apply named_ok_label. apply (named_ok_renamed rm rm' m); [done|exact l_in_dom|exact l_terms_ok].
  - cbn. rewrite Forall_fmap. apply (Forall_impl _ _ _ (proj2 l_wf)). intros a Ha. unfold compose, has_var.
    change (var_keys rm' a ≠ ∅). by rewrite (renamed_var_keys rm rm' m Hm).
  - cbn. rewrite omap_label by done. apply (Forall_impl _ _ _ Hexpr). tauto.
  - cbn. by rewrite omap_label.
Qed.
Lemma l_renamed_wf : rule_wf rm' rule'.
Proof.
  destruct (terms_in_dom rm m l (Consequents rule) l_in_dom l_terms_ok) as [Ha Hc]. split; [split|].
  - cbn. rewrite Forall_fmap. apply (Forall_impl _ _ _ (proj1 l_wf)). intros a Ha'. change (term_wf rm' a).
    apply (Forall_impl _ _ _ Ha'). intros k [Hk HS]. split; [done|]. by apply (renamed_Some rm rm' m Hm).
  - cbn. rewrite Forall_fmap. destruct Hwf as [[_ Hcw] _]. apply (Forall_impl _ _ _ Hcw). intros c. unfold consequent_wf, compose. cbn.
    by rewrite !(renamed_Some rm rm' m Hm).
  - assert (Hin : rule_keys rm' rule' ⊆ dom m).
    { rewrite Forall_forall in Ha, Hc. unfold rule_keys. cbn. rewrite <- !list_fmap_compose.
      intros x [Hx|Hx]%elem_of_union; apply elem_of_union_list in Hx as (X & HX & Hx); apply list_elem_of_fmap in HX as (a & -> & Hin); unfold compose in Hx; cbn in Hx.
      - apply (Ha a Hin). change (x ∈ var_keys rm' a ∪ reads_of rm' (Filter a)) in Hx.
        by rewrite (renamed_var_keys rm rm' m Hm), (renamed_reads_of rm rm' m Hm) in Hx.
      - apply (Hc a Hin). change (x ∈ var_keys rm' a ∪ reads_of rm' (ObjectExpr a)) in Hx.
        by rewrite (renamed_var_keys rm rm' m Hm), (renamed_reads_of rm rm' m Hm) in Hx. }
    intros k k' Hk Hk'. apply (distinct_in_dom rm rm' m Hm); auto.
Qed.
Lemma l_same_rule : same_rule rm rule rm' rule'.
Proof.
  split; cbn.
  - by rewrite <- list_fmap_compose.
  - unfold all_conjuncts. rewrite omap_label by done. exact Hconj.
  - by rewrite <- list_fmap_compose.
  - intros k. rewrite (re_lookup _ _ _ Hm). destruct (rm !! k); [|done]. cbn. by destruct (m !! k).
  - intros k Hk. rewrite (re_lookup _ _ _ Hm). destruct (m !! k) as [id|] eqn:E; [|by destruct (rm !! k)].
    destruct Hk. assert (Hin : k ∈ dom m) by (apply elem_of_dom; eauto). apply in_dom_keys in Hin as (a & Ha & Hka). by apply (l_keys a).
Qed.
End names.

Lemma rename_rule : ∃ rm' m, fold_res rename_term (rm, ∅) l = Ret (rm', m) ∧
  let rule' := makeRuleLabels rm' (with_antecedents rule l (IsValid rule)) authored in
  rule_ok rm' rule' ∧ rule_wf rm' rule' ∧ same_rule rm rule rm' rule'.
Proof.
  destruct l_wf as [Hlwf _]. rewrite rename_terms.
  destruct (renamed_keys rm (l ≫= term_keys)) with (rm' := rm) (m := ∅ : gmap Z string) as (rm' & m & E & Hm & Hd).
  { rewrite Forall_forall in Hlwf. apply Forall_forall. intros k (a & Hk & Ha)%list_elem_of_bind. specialize (Hlwf a Ha).
    unfold term_wf in Hlwf. rewrite Forall_forall in Hlwf. by apply Hlwf. }
  { apply renamed_nil. }
  setoid_rewrite dom_empty_L in Hd. setoid_rewrite elem_of_empty in Hd. assert (Hd' : ∀ j, j ∈ dom m ↔ j ∈ l ≫= term_keys ∧ var_key rm j = true) by naive_solver.
  exists rm', m. split; [exact E|]. cbv zeta. split; [by apply (l_renamed_ok rm' m)|]. split; [by apply (l_renamed_wf rm' m)|by apply (l_same_rule rm' m)].
Qed.
End rename_rule.

(** ** A rule that is compiled *)
Lemma expr_keys_and rm l r (X : gset Z) : expr_keys rm (and_of l r) ⊆ X ↔ expr_keys rm l ⊆ X ∧ expr_keys rm r ⊆ X.
Proof.
  unfold and_of. cbn [collectVarResourcesFromExpr ex_Type ex_Lhs ex_Rhs ex_Arg String.eqb Ascii.eqb Bool.eqb andb].
  rewrite !union_subseteq. pose proof (empty_subseteq X). tauto.
Qed.
Lemma filters_in_rule rm rule : Forall (λ e, expr_keys rm e ⊆ rule_keys rm rule) (omap Filter (Antecedents rule)).
Proof.
  apply Forall_forall. intros e (a & Ha & E)%list_elem_of_omap. intros x Hx. unfold rule_keys. apply elem_of_union. left. apply elem_of_union_list.
  eexists. split; [by apply (list_elem_of_fmap_2 (λ a, var_keys rm a ∪ reads_of rm (Filter a)))|]. rewrite E. apply elem_of_union. by right.
Qed.
Lemma optimizer_ok Quote statistics rm rule : rule_wf rm rule → IsValid rule = true → ValidateJetruleNode rm rule = Ret true →
  ∃ rm' rule', OptimizeJetruleNode Quote statistics rm rule = Ret (rm', rule', []) ∧ IsValid rule' = true ∧
    ValidateJetruleNode rm' rule' = Ret true ∧ rule_wf rm' rule' ∧ same_rule rm rule rm' rule'.
Proof.
  intros Hwf Hvalid Hv. unfold OptimizeJetruleNode. case_match eqn:Egd; [by exists rm, rule|].
  apply orb_false_iff in Egd as [_ Hlen%Nat.leb_gt].
  destruct (ValidateJetruleNode_wf rm rule (proj1 Hwf)) as (b & Eb & Hb). assert (Hok : rule_ok rm rule) by (apply Hb; congruence).
  destruct (proj1 (rule_ok_named rm rule) Hok) as ((Hn & Hf & _) & _ & Hx & _).
  destruct (terms_placed Quote statistics rm (λ e, expr_ok e ∧ expr_keys rm e ⊆ rule_keys rm rule) (Antecedents rule))
    as (l1 & l2 & E1 & E2 & Hs & Hn2 & Hf2 & Hx2 & Hc2); [| |apply Hwf|done|done| |].
  { intros e f [He1 He2] [Hf1 Hf2]. split; [by apply expr_ok_and|]. apply expr_keys_and. by split. }
  { intros E. rewrite E in Hlen. cbn in Hlen. lia. }
  { apply Forall_and. split; [done|]. apply filters_in_rule. }
  rewrite E1. cbn [res_bind fst snd]. rewrite E2. cbn [res_bind fst snd].
  destruct (rename_rule rm rule l2 (AuthoredLabel rule) Hwf Hok Hs Hn2 Hf2 Hx2 Hc2) as (rm' & m & E3 & Hok' & Hwf' & Hsame).
  rewrite E3. cbn [res_bind fst snd app]. rewrite (validateOrderedRule_wf rm' _ (proj1 Hwf') Hok'). cbn [res_bind].
  eexists _, _. split; [done|]. cbn [IsValid with_antecedents]. rewrite andb_true_r. split; [done|].
  destruct (ValidateJetruleNode_wf rm' _ (proj1 Hwf')) as (b' & Eb' & Hb'). split; [|by split].
  transitivity (Ret b'); [exact Eb'|]. f_equal. by apply Hb'.
Qed.

Lemma fold_res_fmap {A B S} (f : S → B → res S) (g : A → B) s l : fold_res f s (g <$> l) = fold_res (λ s a, f s (g a)) s l.
Proof. revert s. induction l as [|a l IH]; intros s; [done|]. cbn. destruct (f s (g a)); cbn; [apply IH|done..]. Qed.
Lemma all_res_fmap {A B} (f : B → res bool) (g : A → B) l : all_res f (g <$> l) = all_res (λ a, f (g a)) l.
Proof. induction l as [|a l IH]; [done|]. cbn. destruct (f (g a)); cbn; [|done..]. change (g <$> l) with (list_fmap _ _ g l) in *. by rewrite IH. Qed.
(** The rule with its properties read and its labels written. *)
Lemma ValidateJetruleNode_labels rm rule authored : ValidateJetruleNode rm (makeRuleLabels rm rule authored) = ValidateJetruleNode rm rule.
Proof.
  unfold ValidateJetruleNode, validateOperatorNames, validateFilterWrites. cbn [makeRuleLabels Antecedents Consequents].
  rewrite fold_res_fmap, !omap_label by done. change (λ s a, visit_antecedent rm s (set_label a (antecedent_label rm true a))) with (visit_antecedent rm).
  destruct (fold_res (visit_antecedent rm) (∅, true) (Antecedents rule)); [|done..]. cbn [res_bind]. rewrite all_res_fmap. done.
Qed.
Lemma rule_keys_labels rm rule authored : rule_keys rm (makeRuleLabels rm rule authored) = rule_keys rm rule.
Proof. unfold rule_keys. cbn. by rewrite <- !list_fmap_compose. Qed.
Lemma rule_wf_labels rm rule authored : rule_wf rm rule → rule_wf rm (makeRuleLabels rm rule authored).
Proof.
  intros [[Ha Hc] Hi]. split; [split; cbn; by rewrite Forall_fmap|]. by rewrite rule_keys_labels.
Qed.
Lemma same_rule_labels rm rule rm' rule' authored : same_rule rm (makeRuleLabels rm rule authored) rm' rule' → same_rule rm rule rm' rule'.
Proof.
  intros [Ht Hf Hc Hr Ho]. cbn [makeRuleLabels Antecedents Consequents] in *. rewrite <- list_fmap_compose in Ht, Hc. unfold all_conjuncts in Hf. cbn in Hf.
  rewrite omap_label in Hf by done. rewrite rule_keys_labels in Ho. by split.
Qed.

(** C30. A rule is compiled without a panic or an internal error, whatever the statistics
    of its rule set say, when its keys are resources and its variables have distinct names;
    and what the validation found of the rule as it was written it finds again of the rule
    that is compiled, the mark on the rule being that answer. The reordering is a
    permutation of the signed triples that keeps each conjunct of each filter and the
    consequents, gives the variables distinct names, and changes nothing else in the table
    of resources. *)
Theorem compiled_rules_stay_valid `{GoUnicode} Quote statistics rm rule : rule_wf rm rule →
  ∃ v rm' rule', ValidateJetruleNode rm rule = Ret v ∧
    compile_rule Quote statistics rm rule = Ret (rm', rule', (PostProcessJetruleProperties rule).2) ∧
    IsValid rule' = v ∧ ValidateJetruleNode rm' rule' = Ret v ∧ rule_wf rm' rule' ∧ same_rule rm rule rm' rule'.
Proof.
  intros Hwf. destruct (ValidateJetruleNode_wf rm rule (proj1 Hwf)) as (v & Ev & _). exists v. unfold compile_rule.
  destruct (PostProcessJetruleProperties rule) as [rule0 errors] eqn:E0.
  assert (Ea : Antecedents rule0 = Antecedents rule ∧ Consequents rule0 = Consequents rule).
  { unfold PostProcessJetruleProperties in E0. repeat case_match; by injection E0 as <- <-. }
  assert (Esame : ∀ b, ValidateJetruleNode rm (with_antecedents rule0 (Antecedents rule0) b) = Ret v ∧ rule_wf rm (with_antecedents rule0 (Antecedents rule0) b) ∧
    ∀ rm' rule', same_rule rm (with_antecedents rule0 (Antecedents rule0) b) rm' rule' → same_rule rm rule rm' rule').
  { intros b. destruct Ea as [Ea Ec]. destruct rule0, rule. cbn in *. subst. split; [exact Ev|]. split; [exact Hwf|]. intros rm' rule' []. by split. }
  assert (Ev0 : ValidateJetruleNode rm rule0 = Ret v) by (destruct Ea as [Ea Ec], rule0, rule; cbn in *; subst; exact Ev).
  rewrite Ev0. cbn [res_bind]. destruct (Esame v) as (E1 & Hwf1 & Hsame). set (rule1 := with_antecedents rule0 (Antecedents rule0) v) in *.
  unfold PostProcessJetruleNode. set (authored := rule_label rm rule1 false).
  pose proof (ValidateJetruleNode_labels rm rule1 authored) as E2. rewrite E1 in E2. pose proof (rule_wf_labels rm rule1 authored Hwf1) as Hwf2.
  destruct v.
  - destruct (optimizer_ok Quote statistics rm _ Hwf2 eq_refl E2) as (rm' & rule' & -> & HV & HV' & Hwf' & Hs). cbn [res_bind fst snd].
    exists rm', rule'. rewrite app_nil_r. do 2 (split; [done|]). split; [done|]. do 2 (split; [done|]). apply Hsame. by apply same_rule_labels in Hs.
  - exists rm, (makeRuleLabels rm rule1 authored). unfold OptimizeJetruleNode. cbn [IsValid makeRuleLabels with_antecedents rule1]. rewrite orb_true_r. cbn [orb res_bind fst snd].
    rewrite app_nil_r. do 2 (split; [done|]). split; [done|]. do 2 (split; [done|]). apply Hsame. by apply same_rule_labels with (authored := authored).
Qed.

(** (?x01 owned_by ?x02) and (?x02 rdf:type person) with a filter on ?x01, and no
    (?x02 barred ?x01). *)
Definition demo_resources : resources :=
  list_to_map [(1, mkResource "?x01" "var" "?car"); (2, mkResource "?x02" "var" "?owner"); (3, mkResource "owned_by" "resource" "owned_by");
    (4, mkResource "rdf:type" "resource" "rdf:type"); (5, mkResource "person" "resource" "person");
    (6, mkResource "barred" "resource" "barred"); (7, mkResource "parked" "resource" "parked")].
Definition demo_filter : rete_ExpressionNode :=
  mkExpression "unary" "is_resource" (Some (mkExpression "identifier" "" None None None 1)) None None 0.
Definition demo_rule : JetruleNode :=
  mkJetrule "demo" {["s" := "40"]} false 0
    [mkTerm false "" 1 3 2 None (Some demo_filter); mkTerm true "" 2 6 1 None None; mkTerm false "" 2 4 5 None None]
    [mkTerm false "" 2 7 1 None None] "" "" "" false.
Lemma demo_wf : rule_wf demo_resources demo_rule.
Proof.
  split; [split; repeat (constructor; [repeat (constructor; try (by vm_compute)); by eexists|]); constructor|].
  assert (Hk : rule_keys demo_resources demo_rule ⊆ list_to_set [1; 2]) by (by vm_compute).
  intros k k' Hk1%Hk Hk2%Hk. apply elem_of_list_to_set in Hk1, Hk2.
  repeat (apply elem_of_cons in Hk1 as [ -> |Hk1]; [|try (by apply not_elem_of_nil in Hk1)]);
    repeat (apply elem_of_cons in Hk2 as [ -> |Hk2]; [|try (by apply not_elem_of_nil in Hk2)]); done.
Defined.

Definition compiled_label (statistics : option RuleSetStatistics) : option (string * bool) :=
  match compile_rule (λ s, s) statistics demo_resources demo_rule with Ret (_, r, _) => Some (NormalizedLabel r, IsValid r) | _ => None end.
(** The owners are read first by score; the cars when the statistics say there are fewer. *)
Example by_score : compiled_label None =
  Some ("[demo, s=40]:(?x01 rdf:type person).(?x02 owned_by ?x01).[is_resource(?x02)].not(?x01 barred ?x02) -> (?x01 parked ?x02);", true).
Proof. by vm_compute. Qed.
Definition demo_statistics : RuleSetStatistics :=
  mkStatistics (λ _, true) (λ p, if String.eqb p "rdf:type" then f64_of_Z 1000 else f64_of_Z 4) (λ _, f64_of_Z 2) (λ _, f64_of_Z 2) (λ _ _, None) (λ _ _, None).
Example by_cost : compiled_label (Some demo_statistics) =
  Some ("[demo, s=40]:(?x01 owned_by ?x02).[is_resource(?x01)].not(?x02 barred ?x01).(?x02 rdf:type person) -> (?x02 parked ?x01);", true).
Proof. by vm_compute. Qed.
Lemma compiled_rules_stay_valid_witness : rule_wf demo_resources demo_rule ∧ ∃ v rm' rule',
  ValidateJetruleNode demo_resources demo_rule = Ret v ∧
  compile_rule (λ s, s) (Some demo_statistics) demo_resources demo_rule = Ret (rm', rule', (PostProcessJetruleProperties demo_rule).2) ∧
  IsValid rule' = v ∧ ValidateJetruleNode rm' rule' = Ret v ∧ rule_wf rm' rule' ∧ same_rule demo_resources demo_rule rm' rule'.
Proof. split; [exact demo_wf|]. apply (compiled_rules_stay_valid (λ s, s) (Some demo_statistics) demo_resources demo_rule demo_wf). Defined.
