(* ===== verification/ReteNetwork.v ===== *)
(** * The rule network

    How the rules that were compiled are put together in one network
    (BuildReteNetwork of src/jets/compilerv2/compiler/jet_rule_listener_rete.go): a tree of
    antecedents under a head node, in which rules share the nodes of the antecedents they
    have in common, and the consequents of a rule hang on the vertex of its last antecedent.
    The beta nodes that are computed on the tree afterwards are in BetaNodes.v.

    The terms of a rule are shared with the network: a rule that was placed holds the
    vertices of its antecedents, and a node is changed where it is in the list. *)
From stdpp Require Import base list strings gmap.
From Stdlib Require Import ZArith Lia.
From S2P Require Import Prelude GoText GoValue Records RuleCompiler.
Local Open Scope string_scope.
Local Open Scope Z_scope.

#[local] Set Warnings "-register-all".

(** A variable of the rows that reach a node: its place in the row of the parent, or in the
    triple. *)
Record BetaVarNode := mkBetaVar { bv_Id : string; bv_IsBinded : bool; bv_VarPos : Z; bv_Vertex : Z }.
Record Beta := mkBeta { BetaRelationVars : list string; PrunedVars : list string; BetaVarNodes : list BetaVarNode }.
Definition no_beta : Beta := mkBeta [] [] [].

(** An antecedent of the network. Its vertex is its place in the list of nodes. *)
Record ReteNode := mkNode {
  nd_Term : RuleTerm; nd_Label : string; Vertex : nat; ParentVertex : Z; ChildrenVertexes : list nat;
  nd_Rules : list string; nd_Salience : list Z; nd_Beta : Beta }.
(** A consequent, with the vertex it hangs on. *)
Record ConsequentNode := mkConsequent {
  cn_Term : RuleTerm; cn_Vertex : nat; ConsequentForRule : string; ConsequentSalience : Z; ConsequentSeq : Z }.
(** A rule whose antecedents are nodes. *)
Record PlacedRule := mkPlaced { pr_Name : string; pr_Salience : Z; pr_Antecedents : list nat; pr_Vertex : nat; pr_Consequents : list ConsequentNode }.
Record Network := mkNetwork { ReteNodes : list ReteNode; consequentsByVertex : gmap nat (list ConsequentNode); placedRules : list PlacedRule }.

Definition head_node : ReteNode := mkNode (mkTerm false "" 0 0 0 None None) "head_node" 0 (-1) [] [] [] no_beta.
Definition add_child (child : nat) (n : ReteNode) : ReteNode :=
  mkNode (nd_Term n) (nd_Label n) (Vertex n) (ParentVertex n) (ChildrenVertexes n ++ [child])%list (nd_Rules n) (nd_Salience n) (nd_Beta n).
Definition end_rule (name : string) (salience : Z) (n : ReteNode) : ReteNode :=
  mkNode (nd_Term n) (nd_Label n) (Vertex n) (ParentVertex n) (ChildrenVertexes n) (nd_Rules n ++ [name])%list (nd_Salience n ++ [salience])%list (nd_Beta n).

Definition under (parentVertex : nat) (label : string) (n : ReteNode) : bool :=
  (ParentVertex n =? Z.of_nat parentVertex) && String.eqb (nd_Label n) label.
Definition reteNodeByNormalizedLabel (nodes : list ReteNode) (parentVertex : nat) (label : string) : option ReteNode :=
  List.find (under parentVertex label) nodes.
Definition ends_at (salience : Z) (n : ReteNode) : bool := negb (existsb (λ s, negb (s =? salience)) (nd_Salience n)).
Definition terminalReteNode (nodes : list ReteNode) (parentVertex : nat) (label : string) (salience : Z) : option ReteNode :=
  List.find (λ n, under parentVertex label n && ends_at salience n) nodes.

(** One antecedent: the node it is, found or added. *)
Definition place_antecedent (nodes : list ReteNode) (salience : Z) (isLast : bool) (parentVertex : nat) (a : RuleTerm) : res (list ReteNode * nat) :=
  match nodes !! parentVertex with
  | None => Panic out_of_range
  | Some _ =>
      let label := rt_NormalizedLabel a in
      match (if isLast then terminalReteNode nodes parentVertex label salience else reteNodeByNormalizedLabel nodes parentVertex label) with
      | Some n => Ret (nodes, Vertex n)
      | None =>
          let vertex := length nodes in
          Ret (alter (add_child vertex) parentVertex (nodes ++ [mkNode a label vertex (Z.of_nat parentVertex) [] [] [] no_beta])%list, vertex)
      end
  end.
(** The nodes, the vertices of the antecedents and the last of them. *)
Fixpoint place_antecedents (nodes : list ReteNode) (salience : Z) (parentVertex : nat) (ants : list RuleTerm) : res (list ReteNode * list nat * nat) :=
  match ants with
  | [] => Ret (nodes, [], parentVertex)
  | a :: ants' =>
      let! st := place_antecedent nodes salience (bool_decide (ants' = [])) parentVertex a in
      let '(nodes, vertex) := st in
      let! rest := place_antecedents nodes salience vertex ants' in
      let '(nodes, vertices, last) := rest in Ret (nodes, vertex :: vertices, last)
  end.

Definition number_consequents (rule : JetruleNode) (vertex offset : nat) : list ConsequentNode :=
  imap (λ i c, mkConsequent c vertex (ru_Name rule) (Salience rule) (Z.of_nat offset + Z.of_nat i + 1)) (Consequents rule).
Definition add_rule (net : Network) (rule : JetruleNode) : res Network :=
  let! st := place_antecedents (ReteNodes net) (Salience rule) 0 (Antecedents rule) in
  let '(nodes, vertices, vertex) := st in
  match nodes !! vertex with
  | None => Panic out_of_range
  | Some _ =>
      let before := default [] (consequentsByVertex net !! vertex) in
      let consequents := number_consequents rule vertex (length before) in
      Ret (mkNetwork (alter (end_rule (ru_Name rule) (Salience rule)) vertex nodes)
             (<[vertex := before ++ consequents]> (consequentsByVertex net))%list
             (placedRules net ++ [mkPlaced (ru_Name rule) (Salience rule) vertices vertex consequents]))%list
  end.
(** The antecedents of the network; the consequents of the rules, in the order of the
    rules, follow them in the list of nodes. *)
Definition BuildReteNetwork (rules : list JetruleNode) : res Network := fold_res add_rule (mkNetwork [head_node] ∅ []) rules.
Definition consequent_nodes (net : Network) : list ConsequentNode := concat (pr_Consequents <$> placedRules net).

(** ** The antecedents read from the head node to a vertex *)
Fixpoint path (nodes : list ReteNode) (fuel vertex : nat) : option (list string) :=
  match vertex, fuel with
  | O, _ => Some []
  | S _, O => None
  | S _, S fuel => n ← nodes !! vertex; labels ← path nodes fuel (Z.to_nat (ParentVertex n)); Some (labels ++ [nd_Label n])%list
  end.
Definition labels (rule : JetruleNode) : list string := rt_NormalizedLabel <$> Antecedents rule.

(** The search for the vertex of a list of antecedents. *)
Fixpoint walk (nodes : list ReteNode) (salience : Z) (vertex : nat) (labels : list string) : option nat :=
  match labels with
  | [] => Some vertex
  | label :: labels' =>
      n ← if bool_decide (labels' = []) then terminalReteNode nodes vertex label salience else reteNodeByNormalizedLabel nodes vertex label;
      walk nodes salience (Vertex n) labels'
  end.

(** ** Nodes keep their place *)
Lemma filter_agree {A} (P Q : A → Prop) `{∀ x, Decision (P x)} `{∀ x, Decision (Q x)} (l : list A) :
  (∀ x, x ∈ l → P x ↔ Q x) → filter P l = filter Q l.
Proof.
  induction l as [|a l IH]; intros Hl; [done|]. rewrite !filter_cons, IH by (intros x Hx; apply Hl, elem_of_cons; by right).
  pose proof (Hl a ltac:(apply elem_of_cons; by left)). repeat case_decide; tauto.
Qed.
Lemma filter_nothing {A} (P : A → Prop) `{∀ x, Decision (P x)} (l : list A) : (∀ x, x ∈ l → ¬ P x) → filter P l = [].
Proof.
  intros Hl. rewrite (filter_agree P (λ _, False)) by (intros x Hx; split; [by apply Hl|done]). induction l as [|a l IH]; [done|]. rewrite filter_cons, decide_False by tauto. apply IH.
  intros x Hx. apply Hl, elem_of_cons. by right.
Qed.
Definition child_of (nodes : list ReteNode) (i j : nat) : Prop := ParentVertex <$> nodes !! j = Some (Z.of_nat i).
#[global] Instance child_of_dec nodes i j : Decision (child_of nodes i j) := decide (ParentVertex <$> nodes !! j = Some (Z.of_nat i)).
Record nodes_ok (nodes : list ReteNode) : Prop := {
  no_head : ∃ n, nodes !! 0%nat = Some n ∧ ParentVertex n = -1 ∧ (nd_Term n, nd_Beta n) = (nd_Term head_node, no_beta);
  no_tree : ∀ i n, nodes !! i = Some n → Vertex n = i ∧ (i = 0%nat ∨ 0 ≤ ParentVertex n < Z.of_nat i);
  no_salience : ∀ i n s, nodes !! i = Some n → i ≠ 0%nat → s ∈ nd_Salience n → ends_at s n = true;
  no_children : ∀ i n, nodes !! i = Some n → ChildrenVertexes n = filter (child_of nodes i) (seq 0 (length nodes)) }.
Definition later (n n' : ReteNode) : Prop :=
  Vertex n' = Vertex n ∧ ParentVertex n' = ParentVertex n ∧ nd_Label n' = nd_Label n ∧ nd_Salience n ⊆ nd_Salience n' ∧ (nd_Term n', nd_Beta n') = (nd_Term n, nd_Beta n).
Definition extends (nodes nodes' : list ReteNode) : Prop := ∀ i n, nodes !! i = Some n → ∃ n', nodes' !! i = Some n' ∧ later n n'.

#[global] Instance later_preorder : PreOrder later.
Proof.
  split; [by intros n; repeat split|]. intros n1 n2 n3 (E1 & E2 & E3 & E4 & E5) (F1 & F2 & F3 & F4 & F5). repeat split; try congruence. by etrans.
Qed.
#[global] Instance extends_preorder : PreOrder extends.
Proof.
  split; [intros nodes i n Hi; by exists n|]. intros l1 l2 l3 H12 H23 i n Hi. destruct (H12 i n Hi) as (n2 & H2 & L2), (H23 i n2 H2) as (n3 & H3 & L3).
  exists n3. split; [done|]. by etrans.
Qed.

Lemma ends_at_spec s n : ends_at s n = true ↔ ∀ s', s' ∈ nd_Salience n → s' = s.
Proof.
  unfold ends_at. rewrite negb_true_iff, <- not_true_iff_false, existsb_exists. setoid_rewrite negb_true_iff. setoid_rewrite Z.eqb_neq.
  setoid_rewrite list_elem_of_In. split; [|naive_solver]. intros H s' Hs. destruct (decide (s' = s)); [done|]. destruct H. eauto.
Qed.
Lemma later_under p label n n' : later n n' → under p label n' = under p label n.
Proof. intros (_ & E & El & _). unfold under. by rewrite E, El. Qed.
Lemma later_ends s n n' : later n n' → ends_at s n' = true → ends_at s n = true.
Proof. intros (_ & _ & _ & Hs & _). rewrite !ends_at_spec. intros H s' Hs'. by apply H, Hs. Qed.

(** The first node of a list with a property. *)
Definition first_at (p : ReteNode → bool) (nodes : list ReteNode) (v : nat) : Prop :=
  (∃ n, nodes !! v = Some n ∧ p n = true) ∧ ∀ j n, (j < v)%nat → nodes !! j = Some n → p n = false.
Lemma find_first p nodes n : List.find p nodes = Some n ↔ ∃ v, first_at p nodes v ∧ nodes !! v = Some n.
Proof.
  unfold first_at. split.
  - induction nodes as [|m nodes IH]; [done|]. cbn [List.find]. destruct (p m) eqn:E.
    + intros [= ->]. exists 0%nat. (split; [split; [by eauto|lia]|done]).
    + intros (v & ((n' & Hn & Hp) & Hv) & Hl)%IH. exists (S v). split; [split; [by eauto|]|done]. intros [|j] n'' Hj Hlk; [by injection Hlk as <-|]. apply (Hv j); [lia|done].
  - intros (v & ((n' & Hn & Hp) & Hv) & Hl). rewrite Hl in Hn. injection Hn as <-. revert v Hv Hl.
    induction nodes as [|m nodes IH]; intros [|v] Hv Hl; try done; cbn [List.find].
    + injection Hl as ->. by rewrite Hp.
    + rewrite (Hv 0%nat m) by (lia || done). apply (IH v); [|done]. intros j n' Hj Hn'. apply (Hv (S j)); [lia|done].
Qed.
Lemma first_at_later p p' nodes nodes' v : extends nodes nodes' → (∀ n n', later n n' → p n = false → p' n' = false) → first_at p nodes v →
  (∀ n', nodes' !! v = Some n' → p' n' = true) → first_at p' nodes' v.
Proof.
  intros Hext Hf [(n & Hn & Hp) Hv] Hp'. destruct (Hext v n Hn) as (n' & Hn' & _). split; [by eauto|]. intros j m' Hj Hm'.
  destruct (nodes !! j) as [m|] eqn:Hm; [|apply lookup_ge_None in Hm; apply lookup_lt_Some in Hn; lia].
  destruct (Hext j m Hm) as (m2 & Hm2 & Hl). rewrite Hm' in Hm2. injection Hm2 as <-. by apply (Hf m m'), (Hv j).
Qed.
Lemma find_later p p' nodes nodes' n : nodes_ok nodes → extends nodes nodes' → (∀ n n', later n n' → p n = false → p' n' = false) → List.find p nodes = Some n →
  (∀ n', nodes' !! Vertex n = Some n' → later n n' → p' n' = true) → ∃ n', List.find p' nodes' = Some n' ∧ Vertex n' = Vertex n.
Proof.
  intros Hok Hext Hf (v & Hv & Hn)%find_first Hp'. destruct (no_tree _ Hok v n Hn) as [<- _]. destruct (Hext _ n Hn) as (n' & Hn' & Hl).
  exists n'. split; [|apply Hl]. apply find_first. exists (Vertex n). split; [|done]. apply (first_at_later p p' nodes); [done..|].
  intros m Hm. rewrite Hn' in Hm. injection Hm as <-. by apply Hp'.
Qed.

(** A search that found a vertex finds it later, when what ends there is of the same salience. *)
Lemma walk_later nodes nodes' s : nodes_ok nodes → extends nodes nodes' → ∀ ls p v, walk nodes s p ls = Some v →
  (ls ≠ [] → ∀ n', nodes' !! v = Some n' → ends_at s n' = true) → walk nodes' s p ls = Some v.
Proof.
  intros Hok Hext. induction ls as [|l ls IH]; intros p v; [done|]. cbn [walk]. case_bool_decide as Hls; [subst ls; clear IH|]; intros Hw Hv.
  - destruct (terminalReteNode nodes p l s) as [n|] eqn:E; [|done]. injection Hw as <-.
    destruct (find_later (λ n, under p l n && ends_at s n) (λ n, under p l n && ends_at s n) nodes nodes' n Hok Hext) with (2 := E) as (n' & En & Ev).
    + intros m m' Hm. rewrite (later_under _ _ _ _ Hm). destruct (under p l m); [|done]. cbn. intros Hends. apply not_true_iff_false. intros Ht.
      by rewrite (later_ends _ _ _ Hm Ht) in Hends.
    + intros n' Hn' Hl. rewrite (later_under _ _ _ _ Hl). apply find_some in E as [_ [-> _]%andb_true_iff]. cbn. by apply Hv.
    + unfold terminalReteNode. rewrite En. cbn. by rewrite Ev.
  - destruct (reteNodeByNormalizedLabel nodes p l) as [n|] eqn:E; [|done]. cbn in Hw.
    destruct (find_later (under p l) (under p l) nodes nodes' n Hok Hext) with (2 := E) as (n' & En & Ev).
    + intros m m' Hm. by rewrite (later_under _ _ _ _ Hm).
    + intros n' Hn' Hl. rewrite (later_under _ _ _ _ Hl). by apply find_some in E as [_ E].
    + unfold reteNodeByNormalizedLabel. rewrite En. cbn. rewrite Ev. apply IH; auto.
Qed.

(** What ends at each vertex. *)
Definition ending (nodes : list ReteNode) (i : nat) : list string * list Z := from_option (λ n, (nd_Rules n, nd_Salience n)) ([], []) (nodes !! i).

Lemma added_lookup nodes p x i : (p < length nodes)%nat →
  alter (add_child (length nodes)) p (nodes ++ [x])%list !! i =
  if decide (i = p) then add_child (length nodes) <$> nodes !! p else if decide (i = length nodes) then Some x else nodes !! i.
Proof.
  intros Hp. destruct (decide (i = p)) as [->|Hne]; [by rewrite list_lookup_alter_eq, lookup_app_l|]. rewrite list_lookup_alter_ne by done.
  destruct (decide (i = length nodes)) as [->|Hne']; [by rewrite list_lookup_middle|].
  destruct (decide (i < length nodes)%nat); [by rewrite lookup_app_l|]. rewrite !lookup_ge_None_2; [done|lia|rewrite length_app; cbn; lia].
Qed.

Section added.
Context (nodes : list ReteNode) (p : nat) (x : ReteNode).
Hypothesis Hok : nodes_ok nodes.
Hypothesis Hp : (p < length nodes)%nat.
Hypothesis Hx : Vertex x = length nodes ∧ ParentVertex x = Z.of_nat p ∧ nd_Rules x = [] ∧ nd_Salience x = [].
Hypothesis Hxc : ChildrenVertexes x = [].
Let nodes' := alter (add_child (length nodes)) p (nodes ++ [x])%list.

Lemma added_inv i n' : nodes' !! i = Some n' → (∃ n, nodes !! i = Some n ∧ later n n' ∧ nd_Rules n' = nd_Rules n ∧ nd_Salience n' = nd_Salience n) ∨ (i = length nodes ∧ n' = x).
Proof.
  unfold nodes'. rewrite added_lookup by done. destruct (decide (i = p)) as [->|Hne].
  { destruct (nodes !! p) as [n|]; [|done]. intros [= <-]. left. exists n. by repeat split. }
  destruct (decide (i = length nodes)) as [->|Hne']; [intros [= <-]; by right|]. intros Hi. left. exists n'. by repeat split.
Qed.
Lemma added_extends : extends nodes nodes'.
Proof.
  intros i n Hi. pose proof (lookup_lt_Some _ _ _ Hi) as Hlt. unfold nodes'. rewrite added_lookup by done. destruct (decide (i = p)) as [->|Hne].
  { rewrite Hi. eexists. split; [done|]. by repeat split. }
  rewrite decide_False by lia. exists n. by repeat split.
Qed.
Lemma added_children i : filter (child_of nodes' i) (seq 0 (length nodes')) =
  (filter (child_of nodes i) (seq 0 (length nodes)) ++ if decide (i = p) then [length nodes] else [])%list.
Proof.
  unfold nodes'. rewrite length_alter, length_app, Nat.add_1_r, seq_S, filter_app. fold nodes'. f_equal.
  - apply filter_agree. intros j Hj%elem_of_seq. destruct (lookup_lt_is_Some_2 nodes j) as [n Hn]; [lia|].
    destruct (added_extends j n Hn) as (n' & Hn' & (_ & E & _)). unfold child_of. rewrite Hn, Hn'. cbn. by rewrite E.
  - destruct Hx as (_ & Ep & _). pose proof (added_lookup nodes p x (length nodes) Hp) as El. rewrite decide_False, decide_True in El by lia.
    fold nodes' in El. change (0 + length nodes)%nat with (length nodes). assert (Hc : child_of nodes' i (length nodes) ↔ i = p).
    { unfold child_of. rewrite El. cbn. rewrite Ep. split; [|by intros ->]. intros [= E]. lia. }
    rewrite filter_cons, filter_nil. repeat case_decide; tauto.
Qed.
Lemma added_ok : nodes_ok nodes'.
Proof.
  destruct Hok as [(h & Hh & Eh & Eht) Ht Hs Hc]. destruct Hx as (E1 & E2 & E3 & E4). split.
  - destruct (added_extends 0%nat h Hh) as (h' & Hh' & (_ & E & _ & _ & Et)). exists h'. split; [done|split; congruence].
  - intros i n' [(n & Hn & (F1 & F2 & _) & _)|[-> ->]]%added_inv; [rewrite F1, F2; by apply Ht|]. split; [done|]. right. lia.
  - intros i n' s [(n & Hn & Hl & _ & Es)|[-> ->]]%added_inv Hi Hin; [|rewrite E4 in Hin; by apply not_elem_of_nil in Hin].
    rewrite Es in Hin. pose proof (Hs i n s Hn Hi Hin) as He. unfold ends_at in *. by rewrite Es.
  - intros i n' Hn'. rewrite added_children. unfold nodes' in Hn'. rewrite added_lookup in Hn' by done. destruct (decide (i = p)) as [->|Hne].
    { destruct (nodes !! p) as [n|] eqn:En; [|done]. injection Hn' as <-. cbn. by rewrite (Hc p n En). }
    rewrite app_nil_r. destruct (decide (i = length nodes)) as [->|]; [|by apply Hc]. injection Hn' as <-. rewrite Hxc. symmetry. apply filter_nothing. intros j Hj%elem_of_seq Hch.
    destruct (lookup_lt_is_Some_2 nodes j) as [n Hn]; [lia|]. unfold child_of in Hch. rewrite Hn in Hch. injection Hch as Hch. destruct (Ht j n Hn) as [_ [->|?]]; [|lia].
    rewrite Hn in Hh. injection Hh as <-. lia.
Qed.
Lemma added_ending i : ending nodes' i = ending nodes i.
Proof.
  destruct Hx as (E1 & E2 & E3 & E4). unfold ending. destruct (nodes' !! i) as [n'|] eqn:E.
  - destruct (added_inv i n' E) as [(n & -> & _ & Er & Es)|[-> ->]]; [cbn; by rewrite Er, Es|]. rewrite lookup_ge_None_2 by lia. cbn. by rewrite E3, E4.
  - destruct (nodes !! i) as [n|] eqn:En; [|done]. destruct (added_extends i n En) as (n' & En' & _). congruence.
Qed.
Lemma added_find q : q x = true → (∀ n n', later n n' → nd_Salience n' = nd_Salience n → q n' = q n) → List.find q nodes = None → List.find q nodes' = Some x.
Proof.
  intros Hq Hsame Hnone. apply find_first. assert (El : nodes' !! length nodes = Some x).
  { unfold nodes'. rewrite added_lookup by done. rewrite decide_False by lia. by rewrite decide_True. }
  exists (length nodes). split; [|done]. split; [by eauto|]. intros j n' Hj [(n & Hn & Hl & _ & Es)|[-> _]]%added_inv; [|lia].
  rewrite (Hsame n n' Hl Es). apply (find_none _ _ Hnone). apply list_elem_of_In. by apply list_elem_of_lookup_2 in Hn.
Qed.
End added.

(** ** The antecedents of a rule *)
Definition lookup_node (nodes : list ReteNode) (s : Z) (isLast : bool) (p : nat) (label : string) : option ReteNode :=
  if isLast then terminalReteNode nodes p label s else reteNodeByNormalizedLabel nodes p label.
Lemma lookup_node_find nodes s isLast p label :
  lookup_node nodes s isLast p label = List.find (λ n, under p label n && (negb isLast || ends_at s n)) nodes.
Proof.
  destruct isLast; [done|]. cbn. unfold reteNodeByNormalizedLabel. induction nodes as [|n nodes IH]; [done|]. cbn [List.find].
  rewrite andb_true_r. by destruct (under p label n).
Qed.
Lemma lookup_node_at nodes s isLast p label n : nodes_ok nodes → lookup_node nodes s isLast p label = Some n →
  nodes !! Vertex n = Some n ∧ Vertex n ≠ 0%nat ∧ ParentVertex n = Z.of_nat p ∧ nd_Label n = label ∧ (isLast = true → ends_at s n = true).
Proof.
  intros Hok. rewrite lookup_node_find. intros Hf. pose proof (find_some _ _ Hf) as [_ [[Hp Hl]%andb_true_iff He]%andb_true_iff].
  apply Z.eqb_eq in Hp. apply String.eqb_eq in Hl. apply find_first in Hf as (v & _ & Hn). destruct (no_tree _ Hok v n Hn) as [<- _].
  split; [done|]. split; [|split; [done|split; [done|by intros ->]]]. intros E. destruct (no_head _ Hok) as (h & Hh & Eh & _). rewrite <- E in Hh. rewrite Hn in Hh. injection Hh as <-. lia.
Qed.
Lemma place_antecedent_ok nodes s isLast p a : nodes_ok nodes → (p < length nodes)%nat → ∃ nodes' n,
  place_antecedent nodes s isLast p a = Ret (nodes', Vertex n) ∧ nodes_ok nodes' ∧ extends nodes nodes' ∧ (∀ i, ending nodes' i = ending nodes i) ∧
  lookup_node nodes' s isLast p (rt_NormalizedLabel a) = Some n.
Proof.
  intros Hok Hp. unfold place_antecedent. destruct (lookup_lt_is_Some_2 _ _ Hp) as [parent ->]. fold (lookup_node nodes s isLast p (rt_NormalizedLabel a)).
  destruct (lookup_node nodes s isLast p (rt_NormalizedLabel a)) as [n|] eqn:E; [by exists nodes, n|].
  set (x := mkNode a (rt_NormalizedLabel a) (length nodes) (Z.of_nat p) [] [] [] no_beta). eexists _, x. split; [done|].
  split; [by apply added_ok|]. split; [by apply added_extends|]. split; [by apply added_ending|]. rewrite lookup_node_find in *.
  apply added_find; [done|done| | |exact E].
  - unfold under, ends_at. cbn. by rewrite Z.eqb_refl, String.eqb_refl, orb_true_r.
  - intros m m' Hl Es. rewrite (later_under _ _ _ _ Hl). unfold ends_at. by rewrite Es.
Qed.
Lemma place_antecedents_ok s ants : ∀ nodes p, nodes_ok nodes → (p < length nodes)%nat → ∃ nodes' vs v,
  place_antecedents nodes s p ants = Ret (nodes', vs, v) ∧ nodes_ok nodes' ∧ extends nodes nodes' ∧ (∀ i, ending nodes' i = ending nodes i) ∧
  (v < length nodes')%nat ∧ walk nodes' s p (rt_NormalizedLabel <$> ants) = Some v ∧
  (ants ≠ [] → v ≠ 0%nat ∧ ∀ n, nodes' !! v = Some n → ends_at s n = true).
Proof.
  induction ants as [|a ants IH]; intros nodes p Hok Hp; cbn [place_antecedents]; [by exists nodes, [], p|].
  destruct (place_antecedent_ok nodes s (bool_decide (ants = [])) p a Hok Hp) as (nodes1 & n & -> & Hok1 & Hext1 & He1 & Hn). cbn [res_bind].
  destruct (lookup_node_at _ _ _ _ _ _ Hok1 Hn) as (Hat & Hne & _ & _ & Hends). pose proof (lookup_lt_Some _ _ _ Hat) as Hlt.
  destruct (IH nodes1 (Vertex n) Hok1 Hlt) as (nodes2 & vs & v & E2 & Hok2 & Hext2 & He2 & Hv & Hw & Hterm). rewrite E2. cbn [res_bind].
  exists nodes2, (Vertex n :: vs), v. split; [done|]. split; [done|]. split; [by etrans|]. split; [intros i; by rewrite He2|]. split; [done|].
  destruct ants as [|b ants].
  - injection E2 as <- <- <-. rewrite bool_decide_eq_true_2 in Hn, Hends by done. split; [cbn; cbn in Hn; by rewrite Hn|].
    intros _. split; [done|]. intros m Hm. rewrite Hat in Hm. injection Hm as <-. by apply Hends.
  - rewrite bool_decide_eq_false_2 in Hn by done. split; [|intros _; by apply Hterm]. cbn [lookup_node] in Hn.
    destruct (find_later (under p (rt_NormalizedLabel a)) (under p (rt_NormalizedLabel a)) nodes1 nodes2 n Hok1 Hext2) with (2 := Hn) as (n' & En & Ev).
    + intros m m' Hm. by rewrite (later_under _ _ _ _ Hm).
    + intros n' _ Hl. rewrite (later_under _ _ _ _ Hl). by apply find_some in Hn as [_ Hn].
    + rewrite fmap_cons. cbn [walk]. rewrite bool_decide_eq_false_2 by done. unfold reteNodeByNormalizedLabel. rewrite En. cbn [mbind option_bind]. by rewrite Ev.
Qed.

(** ** The path of a vertex that was found *)
Lemma path_fuel nodes : nodes_ok nodes → ∀ f f' v ls, path nodes f v = Some ls → (v ≤ f')%nat → path nodes f' v = Some ls.
Proof.
  intros Hok. induction f as [|f IH]; intros f' v ls; destruct v as [|v], f' as [|f']; try done; [intros; lia|]. cbn [path]. intros Hp Hle.
  destruct (nodes !! S v) as [n|] eqn:E; [|done]. cbn in *. destruct (no_tree _ Hok _ _ E) as [_ [?|Ht]]; [done|].
  destruct (path nodes f (Z.to_nat (ParentVertex n))) as [ls'|] eqn:Ep; [|done]. rewrite (IH f' _ ls' Ep); [done|lia].
Qed.
Lemma walk_reads nodes s : nodes_ok nodes → ∀ ls p v pls, path nodes p p = Some pls → walk nodes s p ls = Some v → path nodes v v = Some (pls ++ ls)%list.
Proof.
  intros Hok. induction ls as [|l ls IH]; intros p v pls Hp; cbn [walk]; [intros [= <-]; by rewrite app_nil_r|].
  fold (lookup_node nodes s (bool_decide (ls = [])) p l). destruct (lookup_node nodes s (bool_decide (ls = [])) p l) as [n|] eqn:E; [|done]. cbn [mbind option_bind].
  intros Hw. rewrite (cons_middle l pls ls), (app_assoc pls [l] ls). apply (IH (Vertex n)); [|done].
  destruct (lookup_node_at _ _ _ _ _ _ Hok E) as (Hat & Hne & Epar & <- & _). destruct (no_tree _ Hok _ _ Hat) as [_ [?|Ht]]; [done|].
  destruct (Vertex n) as [|v'] eqn:Ev; [done|]. cbn [path]. rewrite Hat. cbn. rewrite Epar, Nat2Z.id. rewrite (path_fuel nodes Hok p v' p pls Hp); [done|lia].
Qed.
Lemma walk_nonzero nodes s : nodes_ok nodes → ∀ ls p v, walk nodes s p ls = Some v → ls ≠ [] → v ≠ 0%nat.
Proof.
  intros Hok. induction ls as [|l ls IH]; intros p v; [done|]. cbn [walk]. fold (lookup_node nodes s (bool_decide (ls = [])) p l).
  destruct (lookup_node nodes s (bool_decide (ls = [])) p l) as [n|] eqn:E; [|done]. cbn. intros Hw _.
  destruct ls as [|l' ls]; [|by eapply IH]. injection Hw as <-. by destruct (lookup_node_at _ _ _ _ _ _ Hok E) as (_ & ? & _).
Qed.

(** ** A rule that ends at a vertex *)
Section ended.
Context (nodes : list ReteNode) (v : nat) (name : string) (s : Z).
Hypothesis Hok : nodes_ok nodes.
Hypothesis Hv : (v < length nodes)%nat.
Let nodes' := alter (end_rule name s) v nodes.

Lemma ended_lookup i : nodes' !! i = (if decide (i = v) then end_rule name s else id) <$> nodes !! i.
Proof.
  unfold nodes'. destruct (decide (i = v)) as [->|Hne]; [apply list_lookup_alter_eq|]. rewrite list_lookup_alter_ne by done. by destruct (nodes !! i).
Qed.
Lemma ended_extends : extends nodes nodes'.
Proof.
  intros i n Hi. rewrite ended_lookup, Hi. eexists. split; [done|]. destruct (decide (i = v)); repeat split; cbn; [|done].
  intros x Hx. apply elem_of_app. by left.
Qed.
Lemma ended_ok : (v ≠ 0%nat → ∀ n, nodes !! v = Some n → ends_at s n = true) → nodes_ok nodes'.
Proof.
  intros Hends. destruct Hok as [(h & Hh & Eh & Eht) Ht Hs Hc]. split.
  - destruct (ended_extends 0%nat h Hh) as (h' & Hh' & (_ & E & _ & _ & Et)). exists h'. split; [done|split; congruence].
  - intros i n'. rewrite ended_lookup. destruct (nodes !! i) as [n|] eqn:E; [|done]. intros [= <-]. destruct (decide (i = v)); exact (Ht i n E).
  - intros i n' s'. rewrite ended_lookup. destruct (nodes !! i) as [n|] eqn:E; [|done]. intros [= <-] Hi. destruct (decide (i = v)) as [->|Hne]; [|exact (Hs i n s' E Hi)].
    pose proof (proj1 (ends_at_spec _ _) (Hends Hi n E)) as Hall. cbn. intros Hs'. apply ends_at_spec. cbn. intros s2 Hs2.
    rewrite elem_of_app, list_elem_of_singleton in Hs', Hs2. destruct Hs' as [?%Hall| -> ], Hs2 as [?%Hall| -> ]; congruence.
  - intros i n'. rewrite ended_lookup. destruct (nodes !! i) as [n|] eqn:E; [|done]. intros [= <-].
    transitivity (ChildrenVertexes n); [by destruct (decide (i = v))|]. rewrite (Hc i n E). unfold nodes'. rewrite length_alter. fold nodes'.
    apply filter_agree. intros j _. unfold child_of. rewrite ended_lookup. by destruct (decide (j = v)), (nodes !! j).
Qed.
Lemma ended_ending i : ending nodes' i = if decide (i = v) then ((ending nodes i).1 ++ [name], (ending nodes i).2 ++ [s])%list else ending nodes i.
Proof.
  unfold ending. rewrite ended_lookup. destruct (decide (i = v)) as [->|]; [|by destruct (nodes !! i)].
  destruct (lookup_lt_is_Some_2 _ _ Hv) as [n ->]. done.
Qed.
End ended.

(** ** The network of a list of rules *)
Definition ends (v : nat) (pr : PlacedRule) : Prop := pr_Vertex pr = v.
#[global] Instance ends_dec v pr : Decision (ends v pr) := decide (pr_Vertex pr = v).
Definition ending_at (net : Network) (v : nat) : list PlacedRule := filter (ends v) (placedRules net).

Record is_placed (nodes : list ReteNode) (rule : JetruleNode) (pr : PlacedRule) : Prop := {
  ip_name : pr_Name pr = ru_Name rule;
  ip_salience : pr_Salience pr = Salience rule;
  ip_consequents : cn_Term <$> pr_Consequents pr = Consequents rule;
  ip_walk : walk nodes (Salience rule) 0 (labels rule) = Some (pr_Vertex pr) }.
Record net_ok (rules : list JetruleNode) (net : Network) : Prop := {
  nk_nodes : nodes_ok (ReteNodes net);
  nk_rules : Forall2 (is_placed (ReteNodes net)) rules (placedRules net);
  nk_ending : ∀ v, ending (ReteNodes net) v = (pr_Name <$> ending_at net v, pr_Salience <$> ending_at net v);
  nk_consequents : ∀ v, default [] (consequentsByVertex net !! v) = concat (pr_Consequents <$> ending_at net v);
  nk_numbers : ∀ v, ConsequentSeq <$> default [] (consequentsByVertex net !! v) = Z.of_nat <$> seq 1 (length (default [] (consequentsByVertex net !! v))) }.

Lemma head_ok : net_ok [] (mkNetwork [head_node] ∅ []).
Proof.
  split; [split| | | |]; cbn; try done.
  - by exists head_node.
  - intros [|[|i]] n; [intros [= <-]; by auto|done..].
  - intros [|[|i]] n s; done.
  - intros [|[|i]] n; [intros [= <-]; by vm_compute|done..].
  - by intros [|[|v]].
Qed.
Lemma number_consequents_terms rule v off : cn_Term <$> number_consequents rule v off = Consequents rule ∧
  ConsequentSeq <$> number_consequents rule v off = Z.of_nat <$> seq (S off) (length (number_consequents rule v off)).
Proof.
  unfold number_consequents. rewrite length_imap, !fmap_imap. split.
  - rewrite <- (list_fmap_id (Consequents rule)) at 2. rewrite <- imap_const. done.
  - revert off. induction (Consequents rule) as [|c cs IH]; intros off; [done|]. cbn. f_equal; [lia|].
    rewrite <- (IH (S off)). apply imap_ext. intros. cbn. lia.
Qed.
Lemma ending_snoc v l pr : filter (ends v) (l ++ [pr])%list = (filter (ends v) l ++ (if decide (v = pr_Vertex pr) then [pr] else []))%list.
Proof. rewrite filter_app. f_equal. cbn. unfold ends. repeat case_decide; congruence. Qed.

(** What ends at the vertex of a rule has its salience. *)
Lemma placed_salience rules net rule pr : net_ok rules net → rule ∈ rules → is_placed (ReteNodes net) rule pr → pr ∈ placedRules net →
  labels rule ≠ [] → ∃ n, ReteNodes net !! pr_Vertex pr = Some n ∧ Salience rule ∈ nd_Salience n ∧ ends_at (Salience rule) n = true.
Proof.
  intros Hnet Hr [Ename Esal _ Ew] Hpr Hne. pose proof (walk_nonzero _ _ (nk_nodes _ _ Hnet) _ _ _ Ew Hne) as Hnz.
  pose proof (nk_ending _ _ Hnet (pr_Vertex pr)) as He. unfold ending in He.
  assert (Hin : Salience rule ∈ pr_Salience <$> ending_at net (pr_Vertex pr)).
  { rewrite <- Esal. apply list_elem_of_fmap_2. apply list_elem_of_filter. done. }
  destruct (ReteNodes net !! pr_Vertex pr) as [n|] eqn:E; cbn in He; injection He as _ Es; [|rewrite <- Es in Hin; by apply not_elem_of_nil in Hin].
  exists n. split; [done|]. split; [by rewrite Es|]. eapply no_salience; [apply (nk_nodes _ _ Hnet)|done|done|by rewrite Es].
Qed.

Lemma add_rule_ok rules net rule : net_ok rules net → ∃ net', add_rule net rule = Ret net' ∧ net_ok (rules ++ [rule])%list net'.
Proof.
  intros Hnet. pose proof (nk_nodes _ _ Hnet) as Hok. destruct (no_head _ Hok) as (h & Hh & _). pose proof (lookup_lt_Some _ _ _ Hh) as Hlt.
  unfold add_rule. destruct (place_antecedents_ok (Salience rule) (Antecedents rule) (ReteNodes net) 0 Hok Hlt)
    as (nodes & vs & v & -> & Hok1 & Hext1 & Hend1 & Hv & Hw & Hterm). cbn [res_bind].
  destruct (lookup_lt_is_Some_2 _ _ Hv) as [n En]. rewrite En. eexists. split; [done|].
  set (nodes' := alter (end_rule (ru_Name rule) (Salience rule)) v nodes). set (before := default [] (consequentsByVertex net !! v)).
  destruct (number_consequents_terms rule v (length before)) as [Hterms Hnums]. set (cons := number_consequents rule v (length before)) in *.
  assert (Hne : v ≠ 0%nat → Antecedents rule ≠ []).
  { intros Hv0 E. rewrite E in Hw. injection Hw as <-. done. }
  assert (Hok' : nodes_ok nodes') by (apply ended_ok; [done|]; intros Hv0; apply Hterm, Hne, Hv0).
  assert (Hext' : extends nodes nodes') by (by apply ended_extends). assert (Hext : extends (ReteNodes net) nodes') by (by etrans).
  split; cbn [ReteNodes placedRules consequentsByVertex]; fold nodes'.
  - done.
  - apply Forall2_app; [|apply Forall2_cons; split; [|done]; split; [done|done|done|]].
    + pose proof (nk_rules _ _ Hnet) as Hrules. apply Forall2_same_length_lookup. split; [by eapply Forall2_length|].
      intros i r pr Hi Hpr. pose proof (Forall2_lookup_lr _ _ _ _ _ _ Hrules Hi Hpr) as Hpl. destruct Hpl as [E1 E2 E3 E4] eqn:Heq. clear Heq. split; [done..|].
      apply (walk_later _ _ _ Hok Hext _ _ _ E4). intros Hls n' Hn'.
      destruct (placed_salience rules net r pr Hnet) as (m & Hm & Hs & _); [by eapply list_elem_of_lookup_2|done|by eapply list_elem_of_lookup_2|done|].
      destruct (Hext _ _ Hm) as (m' & Hm' & (_ & _ & _ & Hsub & _)). rewrite Hn' in Hm'. injection Hm' as <-.
      eapply (no_salience _ Hok'); [done|exact (walk_nonzero _ _ Hok _ _ _ E4 Hls)|by apply Hsub].
    + apply (walk_later _ _ _ Hok1 Hext' _ _ _ Hw). intros Hls n'. unfold nodes'. rewrite ended_lookup, decide_True, En by done. intros [= <-].
      apply ends_at_spec. cbn. intros s. rewrite elem_of_app, list_elem_of_singleton. intros [Hs|Hs]; [|done].
      apply (proj1 (ends_at_spec _ _) (proj2 (Hterm ltac:(by intros E; apply Hls; unfold labels; rewrite E)) n En)). done.
  - intros w. unfold nodes', ending_at. cbn [placedRules]. rewrite ended_ending, ending_snoc, Hend1, (nk_ending _ _ Hnet) by done. cbn [pr_Vertex fst snd].
    destruct (decide (w = v)); rewrite !fmap_app; cbn; rewrite ?app_nil_r; done.
  - intros w. unfold ending_at. cbn [placedRules]. rewrite ending_snoc. cbn [pr_Vertex]. destruct (decide (w = v)) as [->|Hwv].
    + rewrite lookup_insert_eq. cbn. rewrite fmap_app, concat_app. cbn. rewrite app_nil_r. f_equal. apply (nk_consequents _ _ Hnet).
    + rewrite lookup_insert_ne, app_nil_r by done. apply (nk_consequents _ _ Hnet).
  - intros w. destruct (decide (w = v)) as [->|Hwv]; [|rewrite lookup_insert_ne by done; apply (nk_numbers _ _ Hnet)].
    rewrite lookup_insert_eq. cbn. rewrite fmap_app, Hnums, length_app, seq_app, fmap_app. f_equal. apply (nk_numbers _ _ Hnet).
Qed.
Lemma BuildReteNetwork_ok rules : ∃ net, BuildReteNetwork rules = Ret net ∧ net_ok rules net.
Proof.
  unfold BuildReteNetwork. change rules with ([] ++ rules)%list at 2. generalize head_ok. generalize (mkNetwork [head_node] ∅ []). generalize (@nil JetruleNode).
  induction rules as [|r rules IH]; intros done net Hnet; cbn [fold_res]; [exists net; by rewrite app_nil_r|].
  destruct (add_rule_ok done net r Hnet) as (net' & -> & Hnet'). cbn [res_bind]. destruct (IH _ _ Hnet') as (net2 & E & H2). exists net2.
  split; [done|]. by rewrite <- app_assoc in H2.
Qed.


(** Two rules share the vertex of (a, b); the one of another salience has its own. *)
Definition small_rule (name : string) (salience : Z) (ants : list string) : JetruleNode :=
  mkJetrule name ∅ true salience ((λ l, mkTerm false l 1 2 3 None None) <$> ants) [mkTerm false name 1 2 3 None None] "" "" "" true.
Example small_network :
  match BuildReteNetwork [small_rule "r1" 100 ["a"; "b"]; small_rule "r2" 50 ["a"; "b"]; small_rule "r3" 100 ["a"; "b"]; small_rule "r4" 100 ["a"]] with
  | Ret net => Some (pr_Vertex <$> placedRules net, ChildrenVertexes <$> ReteNodes net, (λ c, (cn_Vertex c, ConsequentSeq c)) <$> consequent_nodes net)
  | _ => None
  end = Some ([2; 3; 2; 1]%nat, [[1]; [2; 3]; []; []]%nat, [(2%nat, 1); (3%nat, 1); (2%nat, 2); (1%nat, 1)]).
Proof. by vm_compute. Qed.

(** A label does not tell where a text constant ends, so that antecedents with different
    objects and filters may have one label, and share a node. *)
Definition colliding_resources : resources :=
  list_to_map [(1, mkResource "?x01" "var" "?v"); (2, mkResource "p" "resource" "p"); (3, mkResource "" "text" "a"); (4, mkResource "" "text" "X)).[(?x01 == text(b");
    (5, mkResource "" "text" "a)).[(?x01 == text(X"); (6, mkResource "" "text" "b")].
Definition equals (x y : Z) : option rete_ExpressionNode :=
  let leaf k := Some (mkExpression "identifier" "" None None None k) in Some (mkExpression "binary" "==" None (leaf x) (leaf y) 0).
Example labels_collide :
  antecedent_label colliding_resources true (mkTerm false "" 1 2 3 None (equals 1 4)) =
  antecedent_label colliding_resources true (mkTerm false "" 1 2 5 None (equals 1 6)).
Proof. by vm_compute. Qed.
