(* ===== verification/BetaNodes.v ===== *)
(** * The rows of the rule network

    The last part of BuildReteNetwork (src/jets/compilerv2/compiler/jet_rule_listener_rete.go):
    for every node, the variables of the rows that reach it, and the references to variables
    in triples, filters and consequents replaced by their places in these rows.

    The nodes and the consequents are changed in place ([beta_state]); the new references are
    resources that are shared by domain key. The map of replacements is one for all the
    descendants of a child of the head node, and is handed from node to node. *)
From stdpp Require Import base list strings gmap sorting.
From Stdlib Require Import ZArith Lia.
From S2P Require Import Prelude GoText GoTextLaws GoValue Records RuleCompiler ReteNetwork.
Local Open Scope string_scope.
Local Open Scope Z_scope.

#[local] Set Warnings "-register-all".

(** ** The resources made for variables *)

(** The table of resources, the variables by domain key, and the last key given. *)
Record Manager := mkManager { ResourceByKey : resources; varResources : gmap string (Z * ResourceNode); NextKey : Z }.
Definition domain_key (vertex : Z) (id : string) (pos : Z) (isBinded : bool) : string :=
  "var|" +:+ Itoa vertex +:+ "|" +:+ id +:+ "|" +:+ Itoa pos +:+ "|" +:+ (if isBinded then "true" else "false").
Definition addVarResourceByDomainKey (m : Manager) (id : string) (isBinded : bool) (vertex pos : Z) : Manager * (Z * ResourceNode) :=
  let dkey := domain_key vertex id pos isBinded in
  match varResources m !! dkey with
  | Some res => (m, res)
  | None =>
      let key := NextKey m + 1 in
      let r := mkResourceNode id "var" "" isBinded pos vertex in
      (mkManager (<[key := r]> (ResourceByKey m)) (<[dkey := (key, r)]> (varResources m)) key, (key, r))
  end.

(** ** The variables a node needs *)
Definition opt_ids (rm : resources) (e : option rete_ExpressionNode) : gset string := from_option (filter_ids rm) ∅ e.
Definition collect_term (rm : resources) (triples : bool) (vars : gset string) (a : RuleTerm) : res (gset string) :=
  let! vars := if triples then collectVars rm vars a else Ret vars in
  Ret (opt_ids rm (ObjectExpr a) ∪ (opt_ids rm (Filter a) ∪ vars)).
Fixpoint CollectDescendentsReqVars (rm : resources) (nodes : list ReteNode) (cons : gmap nat (list ConsequentNode)) (fuel : nat)
    (vars : gset string) (vertex : nat) (doNodeTriples : bool) : res (gset string) :=
  match fuel, nodes !! vertex with
  | O, _ => Loop
  | _, None => Panic out_of_range
  | S fuel, Some r =>
      let! vars := collect_term rm doNodeTriples vars (nd_Term r) in
      let! vars := fold_res (λ vars child, CollectDescendentsReqVars rm nodes cons fuel vars child true) vars (ChildrenVertexes r) in
      fold_res (λ vars c, collect_term rm true vars (cn_Term c)) vars (default [] (cons !! Vertex r))
  end.

(** The place of a variable in the triple; the last one when there are several. *)
Definition pos_of_key (rm : resources) (selfVars : gmap string Z) (key pos : Z) : res (gmap string Z) :=
  if 0 <? key then let! r := resource rm key in Ret (if is_var r then <[rn_Id r := pos]> selfVars else selfVars) else Ret selfVars.
Definition getVarPosition (rm : resources) (a : RuleTerm) : res (gmap string Z) :=
  let! selfVars := pos_of_key rm ∅ (SubjectKey a) 0 in
  let! selfVars := pos_of_key rm selfVars (PredicateKey a) 1 in
  pos_of_key rm selfVars (ObjectKey a) 2.

Fixpoint pos_in (varId : string) (i : Z) (vars : list string) : Z :=
  match vars with [] => -1 | v :: vars' => if String.eqb v varId then i else pos_in varId (i + 1) vars' end.
Definition getPosInBetaRelationVars (varId : string) (betaRelationVars : list string) : Z := pos_in varId 0 betaRelationVars.

#[local] Instance leb_dec : RelDecision (λ a b, String.leb a b = true).
Proof. intros a b. apply _. Defined.
(** [sort.Strings] of the keys of a map. *)
Definition sorted_strings (vars : gset string) : list string := merge_sort (λ a b, String.leb a b = true) (elements vars).

(** ** References *)
Definition not_in_parent : string := "** internal error: var %s is not found in parent BetaRelationVars".
Definition not_in_triple : string := "** internal error: var %s is binded but is not found in varPos of current triple".
Definition not_in_node : string := "** internal error: var %s is not found in node BetaRelationVars".
Definition not_replaced : string := "** internal error: var %s is not found in replacement resource".

(** A key that names a variable gives way to the one that replaces it. *)
Definition replace_key (rm : resources) (newVars : gmap string Z) (key : Z) : res (Z * list string) :=
  if 0 <? key then
    let! r := resource rm key in
    Ret (if is_var r then match newVars !! rn_Id r with Some key' => (key', []) | None => (key, [not_replaced]) end else (key, []))
  else Ret (key, []).
Definition replaceVarInTerm (rm : resources) (newVars : gmap string Z) (a : RuleTerm) : res (RuleTerm * list string) :=
  let! s := replace_key rm newVars (SubjectKey a) in
  let! p := replace_key rm newVars (PredicateKey a) in
  let! o := replace_key rm newVars (ObjectKey a) in
  Ret (mkTerm (IsNot a) (rt_NormalizedLabel a) s.1 p.1 o.1 (ObjectExpr a) (Filter a), s.2 ++ p.2 ++ o.2)%list.
Fixpoint replaceVarInExpr (rm : resources) (newVars : gmap string Z) (e : rete_ExpressionNode) : res (rete_ExpressionNode * list string) :=
  let go o := match o with Some e => let! r := replaceVarInExpr rm newVars e in Ret (Some r.1, r.2) | None => Ret (None, []) end in
  let! l := go (ex_Lhs e) in
  let! r := go (ex_Rhs e) in
  let! a := go (ex_Arg e) in
  let! v := replace_key rm newVars (ex_Value e) in
  Ret (mkExpression (ex_Type e) (ex_Op e) a.1 l.1 r.1 v.1, l.2 ++ r.2 ++ a.2 ++ v.2)%list.
Definition replace_opt (rm : resources) (newVars : gmap string Z) (e : option rete_ExpressionNode) : res (option rete_ExpressionNode * list string) :=
  match e with Some e => let! r := replaceVarInExpr rm newVars e in Ret (Some r.1, r.2) | None => Ret (None, []) end.
(** A consequent: its triple and its expression. *)
Definition replace_consequent (rm : resources) (newVars : gmap string Z) (c : ConsequentNode) : res (ConsequentNode * list string) :=
  let! t := replaceVarInTerm rm newVars (cn_Term c) in
  let! e := replace_opt rm newVars (ObjectExpr t.1) in
  let a := t.1 in
  Ret (mkConsequent (mkTerm (IsNot a) (rt_NormalizedLabel a) (SubjectKey a) (PredicateKey a) (ObjectKey a) e.1 (Filter a))
         (cn_Vertex c) (ConsequentForRule c) (ConsequentSalience c) (ConsequentSeq c), t.2 ++ e.2)%list.
Fixpoint replace_consequents (rm : resources) (newVars : gmap string Z) (cs : list ConsequentNode) : res (list ConsequentNode * list string) :=
  match cs with
  | [] => Ret ([], [])
  | c :: cs' =>
      let! r := replace_consequent rm newVars c in
      let! rest := replace_consequents rm newVars cs' in
      Ret (r.1 :: rest.1, r.2 ++ rest.2)%list
  end.

(** ** The rows of a node *)
Record beta_state := mkState { bs_manager : Manager; bs_nodes : list ReteNode; bs_consequents : gmap nat (list ConsequentNode); bs_log : list string }.

(** What the loop over the variables of a row builds. *)
Record var_loop := mkLoop { vl_manager : Manager; vl_nodes : list BetaVarNode; newVars : gmap string Z; replacements : gmap string Z; vl_log : list string }.
(** The place of a variable: in the row of the parent when it is bound there, else in the
    triple. *)
Definition place_of (nodes : list ReteNode) (node : ReteNode) (bindedVars : gset string) (varPos : gmap string Z) (bvar : string) : res (Z * list string) :=
  if bool_decide (bvar ∈ bindedVars) then
    match nodes !! Z.to_nat (ParentVertex node) with
    | None => Panic out_of_range
    | Some parent =>
        let parentPos := getPosInBetaRelationVars bvar (BetaRelationVars (nd_Beta parent)) in
        Ret (if parentPos =? -1 then (0, [not_in_parent]) else (parentPos, []))
    end
  else Ret (match varPos !! bvar with Some pos => (pos, []) | None => (0, [not_in_triple]) end).
Definition beta_var (nodes : list ReteNode) (node : ReteNode) (relation : list string) (bindedVars : gset string) (varPos : gmap string Z)
    (st : var_loop) (bvar : string) : res var_loop :=
  let isBinded := bool_decide (bvar ∈ bindedVars) in
  let vertex := Z.of_nat (Vertex node) in
  let! place := place_of nodes node bindedVars varPos bvar in
  let '(m, r) := addVarResourceByDomainKey (vl_manager st) bvar isBinded vertex place.1 in
  let pos := getPosInBetaRelationVars bvar relation in
  let '(m, bindedR) := addVarResourceByDomainKey m bvar true vertex pos in
  Ret (mkLoop m (vl_nodes st ++ [mkBetaVar bvar isBinded place.1 vertex]) (<[rn_Id r.2 := r.1]> (newVars st)) (<[rn_Id bindedR.2 := bindedR.1]> (replacements st))
         (vl_log st ++ place.2 ++ if pos =? -1 then [not_in_node] else []))%list.

Definition set_node (n : ReteNode) (a : RuleTerm) (b : Beta) : ReteNode :=
  mkNode a (nd_Label n) (Vertex n) (ParentVertex n) (ChildrenVertexes n) (nd_Rules n) (nd_Salience n) b.
(** A node without its descendants: the state, the variables bound for the children, and
    the replacements. *)
Definition build_node (fuel : nat) (st : beta_state) (vertex : nat) (bindedVars : gset string) (repl : gmap string Z)
  : res (beta_state * gset string * gmap string Z) :=
  match bs_nodes st !! vertex with
  | None => Panic out_of_range
  | Some node =>
      let rm := ResourceByKey (bs_manager st) in
      let! required := CollectDescendentsReqVars rm (bs_nodes st) (bs_consequents st) fuel ∅ vertex false in
      let! varPos := getVarPosition rm (nd_Term node) in
      let relation := sorted_strings (filter (λ v, v ∈ required ∨ is_Some (varPos !! v)) bindedVars ∪ (dom varPos ∖ bindedVars)) in
      let pruned := filter (λ v, ¬ (v ∈ required ∨ is_Some (varPos !! v))) bindedVars in
      let kept := bindedVars ∖ pruned in
      let! loop := fold_res (beta_var (bs_nodes st) node relation kept varPos) (mkLoop (bs_manager st) [] ∅ repl []) relation in
      let rm := ResourceByKey (vl_manager loop) in
      let! term := replaceVarInTerm rm (newVars loop) (nd_Term node) in
      let! f := replace_opt rm (replacements loop) (Filter term.1) in
      let! o := replace_opt rm (replacements loop) (ObjectExpr term.1) in
      let! cs := replace_consequents rm (replacements loop) (default [] (bs_consequents st !! Vertex node)) in
      let a := term.1 in
      let a := mkTerm (IsNot a) (rt_NormalizedLabel a) (SubjectKey a) (PredicateKey a) (ObjectKey a) o.1 f.1 in
      Ret (mkState (vl_manager loop) (<[vertex := set_node node a (mkBeta relation (sorted_strings pruned) (vl_nodes loop))]> (bs_nodes st))
             (if bool_decide (is_Some (bs_consequents st !! Vertex node)) then <[Vertex node := cs.1]> (bs_consequents st) else bs_consequents st)
             (bs_log st ++ vl_log loop ++ term.2 ++ f.2 ++ o.2 ++ cs.2),
           kept ∪ dom varPos, replacements loop)%list
  end.
Fixpoint BuildBetaNodesRecursively (fuel : nat) (st : beta_state) (vertex : nat) (bindedVars : gset string) (repl : gmap string Z)
  : res (beta_state * gmap string Z) :=
  match fuel with
  | O => Loop
  | S fuel' =>
      let! done := build_node fuel st vertex bindedVars repl in
      let '(st, bindedVars, repl) := done in
      match bs_nodes st !! vertex with
      | None => Panic out_of_range
      | Some node => fold_res (λ s child, BuildBetaNodesRecursively fuel' s.1 child bindedVars s.2) (st, repl) (ChildrenVertexes node)
      end
  end.
(** The children of the head node, each with maps of its own. *)
Definition BuildBetaNodes (m : Manager) (net : Network) : res beta_state :=
  let st := mkState m (ReteNodes net) (consequentsByVertex net) [] in
  match ReteNodes net !! 0%nat with
  | None => Panic out_of_range
  | Some root =>
      fold_res (λ st child, let! done := BuildBetaNodesRecursively (length (ReteNodes net)) st child ∅ ∅ in Ret done.1) st (ChildrenVertexes root)
  end.
