(* ===== verification/BetaLaws.v ===== *)
(** * Properties of the rows of the rule network

    When every variable of a filter or of a consequent is a variable of an antecedent on
    the path to its vertex, the rows are computed without an internal error. The row of a
    vertex holds exactly the variables of its path that the triple of the vertex, a filter
    or a consequent at or below it, or a triple below it reads; and every reference to a
    variable is the place of that variable in a row. *)
From stdpp Require Import base list strings gmap pretty sorting.
From Stdlib Require Import ZArith Lia Ascii.
From S2P Require Import Prelude GoText GoTextLaws GoValue Records StepConfigLaws RuleCompiler RuleCompilerLaws ReteNetwork BetaNodes.
Local Open Scope string_scope.
Local Open Scope Z_scope.

#[local] Set Warnings "-register-all".

(** ** Domain keys *)
Abbreviation no_bar := (str_all (λ c, negb (Ascii.eqb c "|"))).
Lemma Itoa_no_bar z : no_bar (Itoa z) = true.
Proof.
  assert (Hdig : ∀ s, str_all is_digit s = true → no_bar s = true).
  { induction s as [|c s IH]; [done|]. cbn [str_all]. intros [Hc Hs]%andb_true_iff. rewrite (IH Hs), andb_true_r. by destruct c as [[] [] [] [] [] [] [] []]. }
  unfold Itoa. destruct z as [|p|p]; [done| |]; destruct (parse_digits_pretty (Npos p)) as (_ & Hd & _).
  - by apply Hdig.
  - change (pretty (Zneg p)) with (String "-" (pretty (Npos p))). exact (Hdig _ Hd).
Qed.
Lemma bar_inj_l a a' b b' : no_bar a = true → no_bar a' = true → a +:+ ("|" +:+ b) = a' +:+ ("|" +:+ b') → a = a' ∧ b = b'.
Proof. apply sep_inj. Qed.
Lemma bar_inj_r a a' b b' : no_bar b = true → no_bar b' = true → a +:+ ("|" +:+ b) = a' +:+ ("|" +:+ b') → a = a' ∧ b = b'.
Proof.
  intros Hb Hb'. revert a'. induction a as [|c a IH]; intros [|c' a']; rewrite ?str_app_cons.
  - intros [= E]. by split.
  - intros [= _ E]. change (EmptyString +:+ b)%string with b in E. rewrite E, str_all_app in Hb. apply andb_true_iff in Hb as [_ Hb]. done.
  - intros [= _ E]. change (EmptyString +:+ b')%string with b' in E. rewrite <- E, str_all_app in Hb'. apply andb_true_iff in Hb' as [_ Hb']. done.
  - intros [= -> E]. destruct (IH a' E) as [-> ->]. done.
Qed.
Lemma domain_key_inj v v' id id' pos pos' b b' : domain_key v id pos b = domain_key v' id' pos' b' → v = v' ∧ id = id' ∧ pos = pos' ∧ b = b'.
Proof.
  unfold domain_key. intros E%app_inj_l. apply bar_inj_l in E as [Ev E]; [|apply Itoa_no_bar..].
  assert (Ea : ∀ i p t, i +:+ ("|" +:+ (p +:+ ("|" +:+ t))) = (i +:+ ("|" +:+ p)) +:+ ("|" +:+ t)) by (intros; by rewrite <- !str_app_assoc).
  rewrite !Ea in E. apply bar_inj_r in E as [E Eb]; [|by destruct b|by destruct b']. apply bar_inj_r in E as [Ei Ep]; [|apply Itoa_no_bar..].
  unfold Itoa in Ev, Ep. apply (inj pretty) in Ev, Ep. repeat split; try done. by destruct b, b'.
Qed.

(** ** The manager *)
Record manager_ok (m : Manager) : Prop := {
  mo_keys : ∀ k r, ResourceByKey m !! k = Some r → 0 < k ≤ NextKey m;
  mo_next : 0 ≤ NextKey m;
  mo_vars : ∀ dk k r, varResources m !! dk = Some (k, r) → ResourceByKey m !! k = Some r ∧ r = mkResourceNode (rn_Id r) "var" "" (IsBinded r) (VarPos r) (rn_Vertex r) ∧
    dk = domain_key (rn_Vertex r) (rn_Id r) (VarPos r) (IsBinded r) }.
Definition grows (m m' : Manager) : Prop := ResourceByKey m ⊆ ResourceByKey m'.
#[global] Instance grows_preorder : PreOrder grows.
Proof. split; [by intros m; unfold grows|]. intros m1 m2 m3 H1 H2. unfold grows in *. by etrans. Qed.
Lemma grows_lookup m m' k r : grows m m' → ResourceByKey m !! k = Some r → ResourceByKey m' !! k = Some r.
Proof. intros Hg Hk. by apply (lookup_weaken _ _ _ _ Hk). Qed.

Lemma addVar_ok m id b v pos : manager_ok m → ∃ m' k, let r := mkResourceNode id "var" "" b pos v in
  addVarResourceByDomainKey m id b v pos = (m', (k, r)) ∧ manager_ok m' ∧ grows m m' ∧ ResourceByKey m' !! k = Some r.
Proof.
  intros Hm. unfold addVarResourceByDomainKey. destruct (varResources m !! domain_key v id pos b) as [[k r]|] eqn:E.
  - destruct (mo_vars _ Hm _ _ _ E) as (Hk & Er & (Ev & Ei & Ep & Eb)%domain_key_inj). exists m, k. rewrite Ev, Ei, Ep, Eb, <- Er. done.
  - eexists _, _. split; [done|]. assert (Hnew : ResourceByKey m !! (NextKey m + 1) = None).
    { destruct (ResourceByKey m !! (NextKey m + 1)) as [r|] eqn:Er; [|done]. pose proof (mo_keys _ Hm _ _ Er). lia. }
    pose proof (mo_next _ Hm). split; [split|split]; cbn.
    + intros k r [[<- _]|[_ Hk]]%lookup_insert_Some; [lia|]. pose proof (mo_keys _ Hm _ _ Hk). lia.
    + lia.
    + intros dk k r [[<- [= <- <-]]|[Hne Hdk]]%lookup_insert_Some; [by rewrite lookup_insert_eq|].
      destruct (mo_vars _ Hm _ _ _ Hdk) as (Hk & Hr). split; [|done]. rewrite lookup_insert_ne; [done|]. intros <-. congruence.
    + by apply insert_subseteq.
    + by rewrite lookup_insert_eq.
Qed.

(** ** References *)
Definition keyed (rm : resources) (k : Z) : Prop := 0 < k → is_Some (rm !! k).
Definition positive_keys (rm : resources) : Prop := ∀ k r, rm !! k = Some r → 0 < k.
Fixpoint expr_wf (rm : resources) (e : rete_ExpressionNode) : Prop :=
  let go o := match o with Some e => expr_wf rm e | None => True end in
  keyed rm (ex_Value e) ∧ (var_key rm (ex_Value e) = true → ex_Type e = "identifier") ∧ go (ex_Lhs e) ∧ go (ex_Rhs e) ∧ go (ex_Arg e).
Definition wf_term (rm : resources) (a : RuleTerm) : Prop :=
  keyed rm (SubjectKey a) ∧ keyed rm (PredicateKey a) ∧ keyed rm (ObjectKey a) ∧
  from_option (expr_wf rm) True (ObjectExpr a) ∧ from_option (expr_wf rm) True (Filter a).

(** A key that names a variable of [rm] refers to the resource of its place in [rm']. *)
Definition refers (rm rm' : resources) (place : string → ResourceNode) (k k' : Z) : Prop :=
  if var_key rm k then rm' !! k' = Some (place (var_id rm k)) else k' = k.
Fixpoint refers_expr (rm rm' : resources) (place : string → ResourceNode) (e e' : rete_ExpressionNode) : Prop :=
  let go o o' := match o, o' with Some e, Some e' => refers_expr rm rm' place e e' | None, None => True | _, _ => False end in
  ex_Type e' = ex_Type e ∧ ex_Op e' = ex_Op e ∧ refers rm rm' place (ex_Value e) (ex_Value e') ∧
  go (ex_Lhs e) (ex_Lhs e') ∧ go (ex_Rhs e) (ex_Rhs e') ∧ go (ex_Arg e) (ex_Arg e').
Definition refers_opt (rm rm' : resources) (place : string → ResourceNode) (o o' : option rete_ExpressionNode) : Prop :=
  match o, o' with Some e, Some e' => refers_expr rm rm' place e e' | None, None => True | _, _ => False end.
Definition refers_triple (rm rm' : resources) (place : string → ResourceNode) (a a' : RuleTerm) : Prop :=
  IsNot a' = IsNot a ∧ rt_NormalizedLabel a' = rt_NormalizedLabel a ∧ refers rm rm' place (SubjectKey a) (SubjectKey a') ∧
  refers rm rm' place (PredicateKey a) (PredicateKey a') ∧ refers rm rm' place (ObjectKey a) (ObjectKey a').

Lemma refers_grows rm rm1 rm2 place : rm1 ⊆ rm2 → ∀ k k', refers rm rm1 place k k' → refers rm rm2 place k k'.
Proof. intros Hs k k'. unfold refers. destruct (var_key rm k); [|done]. intros E. by eapply lookup_weaken. Qed.
Lemma refers_expr_grows rm rm1 rm2 place : rm1 ⊆ rm2 → ∀ e e', refers_expr rm rm1 place e e' → refers_expr rm rm2 place e e'.
Proof.
  intros Hs e. induction e as [t op arg lhs rhs v Ha Hl Hr] using expr_ind'. intros e'. cbn [refers_expr ex_Type ex_Op ex_Value ex_Lhs ex_Rhs ex_Arg].
  intros (E1 & E2 & E3 & E4 & E5 & E6). split; [done|]. split; [done|]. split; [by apply (refers_grows _ rm1)|].
  destruct lhs, rhs, arg; cbn [from_option] in *; repeat case_match; try done; auto.
Qed.

Lemma refers_opt_grows rm rm1 rm2 place o o' : rm1 ⊆ rm2 → refers_opt rm rm1 place o o' → refers_opt rm rm2 place o o'.
Proof. intros Hs. unfold refers_opt. destruct o, o'; try done. by apply refers_expr_grows. Qed.

(** ** What replaces the variables *)
Section replaced.
Context (rm rm' : resources) (newVars : gmap string Z) (place : string → ResourceNode) (X : gset string).
Hypothesis Hpos : positive_keys rm.
Hypothesis Hsub : rm ⊆ rm'.
Hypothesis Hnew : ∀ x, x ∈ X → ∃ k', newVars !! x = Some k' ∧ rm' !! k' = Some (place x).

Lemma replace_key_ok k : keyed rm k → key_ids rm k ⊆ X → ∃ k', replace_key rm' newVars k = Ret (k', []) ∧ refers rm rm' place k k'.
Proof.
  intros Hk HX. unfold replace_key, refers. destruct (0 <? k) eqn:E.
  - apply Z.ltb_lt in E. destruct (Hk E) as [r Hr]. unfold resource. rewrite (lookup_weaken _ _ _ _ Hr Hsub). cbn [res_bind].
    unfold key_ids, var_id in *. assert (Ev : var_key rm k = is_var r) by (unfold var_key; by rewrite Hr). rewrite Ev, Hr in *. cbn [from_option] in *.
    destruct (is_var r); [|by eexists]. destruct (Hnew (rn_Id r)) as (k' & -> & Hk'); [by apply HX, elem_of_singleton|]. by exists k'.
  - apply Z.ltb_ge in E. exists k. split; [done|]. unfold var_key. destruct (rm !! k) as [r|] eqn:Hr; [|done]. apply Hpos in Hr. lia.
Qed.
Lemma replaceVarInTerm_ok a : wf_term rm a → ids rm a ⊆ X → ∃ a', replaceVarInTerm rm' newVars a = Ret (a', []) ∧ refers_triple rm rm' place a a' ∧
  ObjectExpr a' = ObjectExpr a ∧ Filter a' = Filter a.
Proof.
  intros (Hs & Hp & Ho & _) HX. rewrite ids_keys, !union_subseteq in HX. destruct HX as (X1 & X2 & X3). unfold replaceVarInTerm.
  destruct (replace_key_ok _ Hs X1) as (s & -> & Rs). cbn [res_bind fst snd]. destruct (replace_key_ok _ Hp X2) as (p & -> & Rp). cbn [res_bind fst snd].
  destruct (replace_key_ok _ Ho X3) as (o & -> & Ro). cbn [res_bind fst snd app]. eexists. split; [done|]. by repeat split.
Qed.
Lemma filter_ids_expr t op arg lhs rhs v : let e := mkExpression t op arg lhs rhs v in filter_ids rm e =
  (if String.eqb t "identifier" && var_key rm v then {[ var_id rm v ]} else ∅) ∪ opt_ids rm lhs ∪ opt_ids rm rhs ∪ opt_ids rm arg.
Proof.
  cbv zeta. unfold filter_ids. cbn [collectVarResourcesFromExpr ex_Type ex_Value ex_Lhs ex_Rhs ex_Arg]. rewrite !var_ids_union. fold (var_key rm v).
  f_equal; [f_equal; [f_equal|]|].
  - unfold var_ids. destruct (String.eqb t "identifier" && var_key rm v); [by rewrite set_map_singleton_L|by rewrite set_map_empty].
  - destruct lhs; [done|]. unfold var_ids. by rewrite set_map_empty.
  - destruct rhs; [done|]. unfold var_ids. by rewrite set_map_empty.
  - destruct arg; [done|]. unfold var_ids. by rewrite set_map_empty.
Qed.
Lemma replaceVarInExpr_ok e : expr_wf rm e → filter_ids rm e ⊆ X → ∃ e', replaceVarInExpr rm' newVars e = Ret (e', []) ∧ refers_expr rm rm' place e e'.
Proof.
  induction e as [t op arg lhs rhs v Ha Hl Hr] using expr_ind'. intros (Hk & Ht & Wl & Wr & Wa) HX. rewrite filter_ids_expr, !union_subseteq in HX.
  destruct HX as [[[X0 Xl] Xr] Xa]. cbn [ex_Type ex_Op ex_Value ex_Lhs ex_Rhs ex_Arg] in *.
  assert (Hopt : ∀ o, from_option (λ e, expr_wf rm e → filter_ids rm e ⊆ X → ∃ e', replaceVarInExpr rm' newVars e = Ret (e', []) ∧ refers_expr rm rm' place e e') True o →
    match o with Some e => expr_wf rm e | None => True end → opt_ids rm o ⊆ X →
    ∃ o', match o with Some e => let! r := replaceVarInExpr rm' newVars e in Ret (Some r.1, r.2) | None => Ret (None, []) end = Ret (o', []) ∧ refers_opt rm rm' place o o').
  { intros [e|] IH W Xe; [|by exists None]. destruct (IH W Xe) as (e' & -> & Re). by exists (Some e'). }
  cbn [replaceVarInExpr ex_Type ex_Op ex_Value ex_Lhs ex_Rhs ex_Arg].
  destruct (Hopt lhs Hl Wl Xl) as (l' & -> & Rl). cbn [res_bind fst snd]. destruct (Hopt rhs Hr Wr Xr) as (r' & -> & Rr). cbn [res_bind fst snd].
  destruct (Hopt arg Ha Wa Xa) as (a' & -> & Ra). cbn [res_bind fst snd].
  destruct (replace_key_ok v Hk) as (v' & -> & Rv).
  { unfold key_ids. destruct (var_key rm v) eqn:Ev; [|apply empty_subseteq]. rewrite (Ht eq_refl) in X0. exact X0. }
  cbn [res_bind fst snd app]. eexists. split; [done|]. by repeat split.
Qed.
Lemma replace_opt_ok o : from_option (expr_wf rm) True o → opt_ids rm o ⊆ X → ∃ o', replace_opt rm' newVars o = Ret (o', []) ∧ refers_opt rm rm' place o o'.
Proof.
  intros W Xo. destruct o as [e|]; [|by exists None]. destruct (replaceVarInExpr_ok e W Xo) as (e' & E & Re). exists (Some e'). cbn. by rewrite E.
Qed.
End replaced.

Record refers_consequent (rm rm' : resources) (place : string → ResourceNode) (c c' : ConsequentNode) : Prop := {
  rc_rule : (cn_Vertex c', ConsequentForRule c', ConsequentSalience c', ConsequentSeq c') = (cn_Vertex c, ConsequentForRule c, ConsequentSalience c, ConsequentSeq c);
  rc_triple : refers_triple rm rm' place (cn_Term c) (cn_Term c');
  rc_expr : refers_opt rm rm' place (ObjectExpr (cn_Term c)) (ObjectExpr (cn_Term c')) }.
Definition term_reads (rm : resources) (a : RuleTerm) : gset string := opt_ids rm (ObjectExpr a) ∪ opt_ids rm (Filter a).
Definition all_ids (rm : resources) (a : RuleTerm) : gset string := ids rm a ∪ term_reads rm a.

Lemma replace_consequents_ok rm rm' newVars place X cs : positive_keys rm → rm ⊆ rm' →
  (∀ x, x ∈ X → ∃ k', newVars !! x = Some k' ∧ rm' !! k' = Some (place x)) →
  Forall (λ c, wf_term rm (cn_Term c) ∧ all_ids rm (cn_Term c) ⊆ X) cs →
  ∃ cs', replace_consequents rm' newVars cs = Ret (cs', []) ∧ Forall2 (refers_consequent rm rm' place) cs cs'.
Proof.
  intros Hpos Hsub Hnew. induction 1 as [|c cs [W HX] Hcs (cs' & E & R)]; [by exists []|]. cbn [replace_consequents]. unfold replace_consequent.
  unfold all_ids, term_reads in HX. rewrite !union_subseteq in HX. destruct HX as (X1 & X2 & _).
  destruct (replaceVarInTerm_ok rm rm' newVars place X Hpos Hsub Hnew _ W X1) as (a & -> & Ra & Eo & Ef). cbn [res_bind fst snd]. rewrite Eo.
  destruct W as (_ & _ & _ & We & _). destruct (replace_opt_ok rm rm' newVars place X Hpos Hsub Hnew _ We X2) as (o & -> & Ro). cbn [res_bind fst snd].
  rewrite E. cbn [res_bind fst snd app]. eexists. split; [done|]. constructor; [|done]. by split.
Qed.

(** ** The variables of terms *)
Section collected.
Variable rm : resources.
Hypothesis Hpos : positive_keys rm.

Lemma key_none k : ¬ 0 < k → key_ids rm k = ∅.
Proof. intros Hk. unfold key_ids, var_key. destruct (rm !! k) as [r|] eqn:E; [|done]. by apply Hpos in E. Qed.
Lemma collect_keyed k vars : keyed rm k → collect_key rm vars k = Ret (key_ids rm k ∪ vars).
Proof.
  intros Hk. destruct (decide (0 < k)) as [Hlt|Hlt]; [by apply collect_key_known; split; auto|].
  unfold collect_key. rewrite (proj2 (Z.ltb_ge 0 k)) by lia. rewrite (key_none k Hlt). by rewrite (left_id_L ∅ (∪)).
Qed.
Lemma collectVars_keyed a vars : wf_term rm a → collectVars rm vars a = Ret (ids rm a ∪ vars).
Proof.
  intros (Hs & Hp & Ho & _). unfold collectVars. rewrite collect_keyed by done. cbn [res_bind]. rewrite collect_keyed by done. cbn [res_bind].
  rewrite collect_keyed by done. rewrite ids_keys. f_equal. apply set_eq. intros x. rewrite !elem_of_union. tauto.
Qed.
Lemma collect_term_ok a b vars : wf_term rm a → ∃ s, collect_term rm b vars a = Ret s ∧
  ∀ x, x ∈ s ↔ x ∈ vars ∨ (b = true ∧ x ∈ ids rm a) ∨ x ∈ term_reads rm a.
Proof.
  intros W. unfold collect_term, term_reads. destruct b; [rewrite collectVars_keyed by done|]; cbn [res_bind]; eexists; (split; [done|]);
    intros x; rewrite !elem_of_union; naive_solver.
Qed.

(** The key of a triple at a position. *)
Definition key_at (a : RuleTerm) (pos : Z) : Z := if pos =? 0 then SubjectKey a else if pos =? 1 then PredicateKey a else ObjectKey a.
Definition at_place (a : RuleTerm) (x : string) (pos : Z) : Prop := 0 ≤ pos ≤ 2 ∧ var_key rm (key_at a pos) = true ∧ var_id rm (key_at a pos) = x.
Lemma pos_of_keyed m k pos : keyed rm k → pos_of_key rm m k pos = Ret (if var_key rm k then <[var_id rm k := pos]> m else m).
Proof.
  intros Hk. unfold pos_of_key. destruct (decide (0 < k)) as [Hlt|Hlt].
  - rewrite (proj2 (Z.ltb_lt 0 k) Hlt). destruct (Hk Hlt) as [r Hr]. unfold resource, var_key, var_id. rewrite Hr. done.
  - rewrite (proj2 (Z.ltb_ge 0 k)) by lia. unfold var_key. destruct (rm !! k) as [r|] eqn:E; [|done]. by apply Hpos in E.
Qed.
Lemma getVarPosition_ok a : wf_term rm a → ∃ m, getVarPosition rm a = Ret m ∧ dom m = ids rm a ∧ ∀ x pos, m !! x = Some pos → at_place a x pos.
Proof.
  intros (Hs & Hp & Ho & _). unfold getVarPosition. rewrite pos_of_keyed by done. cbn [res_bind]. rewrite pos_of_keyed by done. cbn [res_bind]. rewrite pos_of_keyed by done.
  eexists. split; [done|]. split.
  - rewrite ids_keys. unfold key_ids. fold (var_id rm (SubjectKey a)) (var_id rm (PredicateKey a)) (var_id rm (ObjectKey a)).
    destruct (var_key rm (SubjectKey a)), (var_key rm (PredicateKey a)), (var_key rm (ObjectKey a)); rewrite ?dom_insert_L, ?dom_empty_L; apply set_eq; intros x;
      rewrite ?elem_of_union, ?elem_of_singleton, ?elem_of_empty; tauto.
  - assert (Hput : ∀ (m : gmap string Z) k p x pos, (∀ x pos, m !! x = Some pos → at_place a x pos) → k = key_at a p → 0 ≤ p ≤ 2 →
      (if var_key rm k then <[var_id rm k := p]> m else m) !! x = Some pos → at_place a x pos).
    { intros m k p x pos IH -> Hp'. destruct (var_key rm (key_at a p)) eqn:E; [|apply IH]. intros [[<- <-]|[_ Hx]]%lookup_insert_Some; [by split|by apply IH]. }
    intros x pos. apply Hput; [|done|lia]. intros. eapply (Hput _ _ 1); [|done|lia|done]. intros. eapply (Hput _ _ 0); [|done|lia|done]. done.
Qed.
End collected.

(** ** Places in a row *)
Lemma pos_in_ok x i l : x ∈ l → ∃ j, pos_in x i l = i + Z.of_nat j ∧ l !! j = Some x.
Proof.
  revert i. induction l as [|y l IH]; intros i; [by intros ?%not_elem_of_nil|]. cbn [pos_in]. destruct (String.eqb y x) eqn:E.
  - apply String.eqb_eq in E as ->. intros _. exists 0%nat. split; [lia|done].
  - intros [->|Hx]%elem_of_cons; [by rewrite String.eqb_refl in E|]. destruct (IH (i + 1) Hx) as (j & -> & Hj). exists (S j). split; [lia|done].
Qed.
Lemma elem_of_sorted_strings x X : x ∈ sorted_strings X ↔ x ∈ X.
Proof. unfold sorted_strings. rewrite merge_sort_Permutation. apply elem_of_elements. Qed.
Lemma sorted_strings_NoDup X : NoDup (sorted_strings X).
Proof. unfold sorted_strings. rewrite merge_sort_Permutation. apply NoDup_elements. Qed.

(** ** The loop over the variables of a row *)
Section row.
Context (nodes : list ReteNode) (node : ReteNode) (relation : list string) (kept : gset string) (varPos : gmap string Z) (prow : list string).
Hypothesis Hparent : ∀ x, x ∈ kept → x ∈ prow ∧ ∃ p, nodes !! Z.to_nat (ParentVertex node) = Some p ∧ BetaRelationVars (nd_Beta p) = prow.
Hypothesis Hcover : ∀ x, x ∈ relation → x ∈ kept ∨ is_Some (varPos !! x).

(** Whether a variable is bound before the node, and where it is then found. *)
Definition loc (x : string) : bool * Z :=
  if bool_decide (x ∈ kept) then (true, getPosInBetaRelationVars x prow) else (false, default 0 (varPos !! x)).
Definition vertex_of : Z := Z.of_nat (Vertex node).
Definition own_place (x : string) : ResourceNode := mkResourceNode x "var" "" (loc x).1 (loc x).2 vertex_of.
Definition row_place (x : string) : ResourceNode := mkResourceNode x "var" "" true (getPosInBetaRelationVars x relation) vertex_of.
Definition beta_var_of (x : string) : BetaVarNode := mkBetaVar x (loc x).1 (loc x).2 vertex_of.

Lemma pos_found x l : x ∈ l → (getPosInBetaRelationVars x l =? -1) = false.
Proof. intros Hx. unfold getPosInBetaRelationVars. destruct (pos_in_ok x 0 l Hx) as (j & -> & _). apply Z.eqb_neq. lia. Qed.
Lemma place_of_ok x : x ∈ relation → place_of nodes node kept varPos x = Ret ((loc x).2, []).
Proof.
  intros Hx. unfold place_of, loc. case_bool_decide as Hk; cbn [fst snd].
  - destruct (Hparent x Hk) as (Hp & p & -> & ->). by rewrite pos_found.
  - destruct (Hcover x Hx) as [?|[pos ->]]; done.
Qed.
Definition holds (m : gmap string Z) (rm : resources) (place : string → ResourceNode) (x : string) : Prop :=
  ∃ k, m !! x = Some k ∧ rm !! k = Some (place x).
Lemma holds_put m rm rm' place x k (l : list string) : rm ⊆ rm' → rm' !! k = Some (place x) → Forall (holds m rm place) l → Forall (holds (<[x := k]> m) rm' place) (x :: l).
Proof.
  intros Hs Hk Hl. constructor; [exists k; by rewrite lookup_insert_eq|]. apply (Forall_impl _ _ _ Hl). intros y (k' & Hy & Hk').
  destruct (decide (x = y)) as [->|Hne]; [exists k; by rewrite lookup_insert_eq|]. exists k'. rewrite lookup_insert_ne by done. split; [done|]. by eapply lookup_weaken.
Qed.
Lemma holds_grows m rm rm' place (l : list string) : rm ⊆ rm' → Forall (holds m rm place) l → Forall (holds m rm' place) l.
Proof. intros Hs Hl. apply (Forall_impl _ _ _ Hl). intros y (k' & Hy & Hk'). exists k'. split; [done|]. by eapply lookup_weaken. Qed.

Lemma beta_vars_ok l seen st : (∀ x, x ∈ l → x ∈ relation) → manager_ok (vl_manager st) → vl_log st = [] →
  Forall (holds (newVars st) (ResourceByKey (vl_manager st)) own_place) seen → Forall (holds (replacements st) (ResourceByKey (vl_manager st)) row_place) seen →
  ∃ st', fold_res (beta_var nodes node relation kept varPos) st l = Ret st' ∧ manager_ok (vl_manager st') ∧ grows (vl_manager st) (vl_manager st') ∧ vl_log st' = [] ∧
    vl_nodes st' = (vl_nodes st ++ (beta_var_of <$> l))%list ∧
    Forall (holds (newVars st') (ResourceByKey (vl_manager st')) own_place) (rev l ++ seen) ∧
    Forall (holds (replacements st') (ResourceByKey (vl_manager st')) row_place) (rev l ++ seen).
Proof.
  revert seen st. induction l as [|x l IH]; intros seen st Hl Hm Hlog H1 H2; cbn [fold_res].
  { exists st. rewrite app_nil_r. repeat (split; [done|]). done. }
  assert (Hx : x ∈ relation) by (apply Hl, elem_of_cons; by left). unfold beta_var at 1. rewrite place_of_ok by done. cbn [res_bind fst snd].
  destruct (addVar_ok (vl_manager st) x (bool_decide (x ∈ kept)) vertex_of (loc x).2 Hm) as (m1 & k1 & E1 & Hm1 & G1 & K1). fold vertex_of. rewrite E1. cbn [fst snd rn_Id].
  destruct (addVar_ok m1 x true vertex_of (getPosInBetaRelationVars x relation) Hm1) as (m2 & k2 & E2 & Hm2 & G2 & K2). rewrite E2. cbn [fst snd rn_Id].
  rewrite Hlog, pos_found by done. cbn [app res_bind].
  destruct (IH (x :: seen) (mkLoop m2 (vl_nodes st ++ [mkBetaVar x (bool_decide (x ∈ kept)) (loc x).2 vertex_of])%list (<[x := k1]> (newVars st)) (<[x := k2]> (replacements st)) []))
    as (st' & E & Hm' & G & L & Nn & N1 & N2); cbn [vl_manager vl_log newVars replacements vl_nodes] in *.
  - intros y Hy. apply Hl, elem_of_cons. by right.
  - done.
  - done.
  - apply (holds_put _ (ResourceByKey (vl_manager st))); [unfold grows in *; by etrans| |done]. assert (Eo : own_place x = mkResourceNode x "var" "" (bool_decide (x ∈ kept)) (loc x).2 vertex_of).
    { unfold own_place, loc. by case_bool_decide. } rewrite Eo. by eapply grows_lookup.
  - apply (holds_put _ (ResourceByKey (vl_manager st))); [unfold grows in *; by etrans|done|done].
  - exists st'. split; [done|]. split; [done|]. split; [unfold grows in *; etrans; [exact G1|]; etrans; [exact G2|exact G]|]. split; [done|]. split.
    + rewrite Nn, <- app_assoc. do 2 f_equal. cbn. f_equal. unfold beta_var_of, loc. by case_bool_decide.
    + cbn [rev]. rewrite <- !app_assoc. done.
Qed.
End row.

(** ** Terms in a larger table *)
Section larger.
Context (rm rm' : resources).
Hypothesis Hpos : positive_keys rm.
Hypothesis Hpos' : positive_keys rm'.
Hypothesis Hsub : rm ⊆ rm'.

Lemma keyed_lookup k : keyed rm k → rm' !! k = rm !! k.
Proof.
  intros Hk. destruct (decide (0 < k)) as [Hlt|Hlt].
  - destruct (Hk Hlt) as [r Hr]. rewrite Hr. by eapply lookup_weaken.
  - destruct (rm' !! k) as [r|] eqn:E; [by apply Hpos' in E|]. destruct (rm !! k) as [r|] eqn:E'; [by apply Hpos in E'|done].
Qed.
Lemma keyed_larger k : keyed rm k → keyed rm' k ∧ var_key rm' k = var_key rm k ∧ var_id rm' k = var_id rm k.
Proof. intros Hk. unfold keyed, var_key, var_id in *. rewrite (keyed_lookup k Hk). done. Qed.
Lemma expr_larger e : expr_wf rm e → expr_wf rm' e ∧ filter_ids rm' e = filter_ids rm e.
Proof.
  induction e as [t op arg lhs rhs v Ha Hl Hr] using expr_ind'. intros (Hk & Ht & Wl & Wr & Wa). cbn [ex_Type ex_Op ex_Value ex_Lhs ex_Rhs ex_Arg] in *.
  destruct (keyed_larger v Hk) as (Hk' & Ev & Ei).
  assert (Hopt : ∀ o, from_option (λ e, expr_wf rm e → expr_wf rm' e ∧ filter_ids rm' e = filter_ids rm e) True o → match o with Some e => expr_wf rm e | None => True end →
    match o with Some e => expr_wf rm' e | None => True end ∧ opt_ids rm' o = opt_ids rm o) by (intros [e|] IH W; [by apply IH|done]).
  destruct (Hopt lhs Hl Wl) as [Wl' El], (Hopt rhs Hr Wr) as [Wr' Er], (Hopt arg Ha Wa) as [Wa' Ea].
  rewrite !filter_ids_expr, Ev, Ei, El, Er, Ea. split; [|done]. split; [done|]. split; [|done]. cbn [ex_Value ex_Type]. by rewrite Ev.
Qed.
Lemma term_larger a : wf_term rm a → wf_term rm' a ∧ ids rm' a = ids rm a ∧ term_reads rm' a = term_reads rm a.
Proof.
  intros (Hs & Hp & Ho & We & Wf). destruct (keyed_larger _ Hs) as (Hs' & Es & Is), (keyed_larger _ Hp) as (Hp' & Ep & Ip), (keyed_larger _ Ho) as (Ho' & Eo & Io).
  assert (Hopt : ∀ o, from_option (expr_wf rm) True o → from_option (expr_wf rm') True o ∧ opt_ids rm' o = opt_ids rm o) by (intros [e|] W; [by apply expr_larger|done]).
  destruct (Hopt _ We) as [We' Ee], (Hopt _ Wf) as [Wf' Ef]. split; [done|]. split; [|unfold term_reads; by rewrite Ee, Ef].
  rewrite !ids_keys. unfold key_ids. rewrite Es, Ep, Eo. unfold var_id in *. by rewrite Is, Ip, Io.
Qed.
End larger.
Lemma manager_positive m : manager_ok m → positive_keys (ResourceByKey m).
Proof. intros Hm k r Hk. apply (mo_keys _ Hm _ _ Hk). Qed.

(** ** The tree of the network *)
Inductive anc (nodes : list ReteNode) (v : nat) : nat → Prop :=
  | anc_refl : anc nodes v v
  | anc_step p u : anc nodes v p → child_of nodes p u → anc nodes v u.
Create HintDb rete.
#[export] Hint Constructors anc : rete.

Section tree.
Variable nodes : list ReteNode.
Hypothesis Hok : nodes_ok nodes.

Lemma child_lt p u : child_of nodes p u → (p < u)%nat.
Proof.
  unfold child_of. destruct (nodes !! u) as [n|] eqn:E; [|done]. intros [= Ep]. destruct (no_tree _ Hok _ _ E) as [_ [->|?]]; [|lia].
  destruct (no_head _ Hok) as (h & Hh & Eh & _). rewrite E in Hh. injection Hh as <-. lia.
Qed.
Lemma child_parent p q u : child_of nodes p u → child_of nodes q u → p = q.
Proof. unfold child_of. intros -> [= E]. lia. Qed.
Lemma anc_le v u : anc nodes v u → (v ≤ u)%nat.
Proof. induction 1 as [|p u _ IH Hc]; [done|]. apply child_lt in Hc. lia. Qed.
Lemma anc_trans v w u : anc nodes v w → anc nodes w u → anc nodes v u.
Proof. intros Hv. induction 1; eauto with rete. Qed.
Lemma anc_down v u : anc nodes v u ↔ u = v ∨ ∃ c, child_of nodes v c ∧ anc nodes c u.
Proof.
  split.
  - induction 1 as [|p u _ IH Hc]; [by left|right]. destruct IH as [->|(c & Hvc & Hcp)]; eauto with rete.
  - intros [->|(c & Hc & Hu)]; [constructor|]. apply (anc_trans v c); eauto with rete.
Qed.
Lemma anc_chain v w u : anc nodes v u → anc nodes w u → anc nodes v w ∨ anc nodes w v.
Proof.
  intros Hv. revert w. induction Hv as [|p u Hp IH Hc]; intros w Hw; [by right|].
  inversion Hw as [|q u' Hq Hc' E]; subst; [left; eauto with rete|]. rewrite (child_parent _ _ _ Hc' Hc) in Hq. by apply IH.
Qed.
Lemma siblings_apart p c d u : child_of nodes p c → child_of nodes p d → anc nodes c u → anc nodes d u → c = d.
Proof.
  assert (Hone : ∀ c d, child_of nodes p c → child_of nodes p d → anc nodes c d → c = d).
  { intros c' d' Hc Hd Ha. inversion Ha as [|q d'' Hq Hd' E]; subst; [done|]. rewrite (child_parent _ _ _ Hd' Hd) in Hq. apply anc_le in Hq. apply child_lt in Hc. lia. }
  intros Hc Hd Hcu Hdu. destruct (anc_chain _ _ _ Hcu Hdu); [by apply Hone|symmetry; by apply Hone].
Qed.
Lemma elem_of_children i n c : nodes !! i = Some n → c ∈ ChildrenVertexes n ↔ child_of nodes i c.
Proof.
  intros Hn. rewrite (no_children _ Hok _ _ Hn), list_elem_of_filter, elem_of_seq. split; [tauto|]. intros Hc. split; [done|]. split; [lia|].
  unfold child_of in Hc. destruct (nodes !! c) eqn:E; [|done]. apply lookup_lt_Some in E. lia.
Qed.
Lemma children_NoDup i n : nodes !! i = Some n → NoDup (ChildrenVertexes n).
Proof. intros Hn. rewrite (no_children _ Hok _ _ Hn). apply NoDup_filter, NoDup_seq. Qed.
Lemma anc_lookup v u n : anc nodes v u → nodes !! v = Some n → is_Some (nodes !! u).
Proof. intros Ha Hn. destruct Ha as [|p u _ Hc]; [by eexists|]. unfold child_of in Hc. by destruct (nodes !! u). Qed.
Lemma anc_head v n : nodes !! v = Some n → anc nodes 0 v.
Proof.
  revert n. induction v as [v IH] using (well_founded_induction Nat.lt_wf_0). intros n Hn. destruct (no_tree _ Hok _ _ Hn) as [_ [->|Ht]]; [constructor|].
  destruct (lookup_lt_is_Some_2 nodes (Z.to_nat (ParentVertex n))) as [q Hq]; [apply lookup_lt_Some in Hn; lia|].
  apply (anc_step _ _ (Z.to_nat (ParentVertex n))); [apply (IH (Z.to_nat (ParentVertex n)) ltac:(lia) q Hq)|]. unfold child_of. rewrite Hn. cbn. f_equal. lia.
Qed.
End tree.

(** ** What a vertex needs *)
Section needs.
Context (rm : resources) (nodes : list ReteNode) (cons : gmap nat (list ConsequentNode)).

Definition own (u : nat) (x : string) : Prop := ∃ n, nodes !! u = Some n ∧ x ∈ ids rm (nd_Term n).
(** The variables of the filters and of the consequents of a vertex. *)
Definition reads_at (u : nat) (x : string) : Prop :=
  (∃ n, nodes !! u = Some n ∧ x ∈ term_reads rm (nd_Term n)) ∨ ∃ c, c ∈ default [] (cons !! u) ∧ x ∈ all_ids rm (cn_Term c).
Definition need (v : nat) (x : string) : Prop := ∃ u, anc nodes v u ∧ (reads_at u x ∨ (u ≠ v ∧ own u x)).
Definition on_path (v : nat) (x : string) : Prop := ∃ u, anc nodes u v ∧ own u x.
(** The row of a vertex. *)
Definition in_row (v : nat) (x : string) : Prop := on_path v x ∧ (own v x ∨ need v x).
Definition terms_wf : Prop :=
  (∀ u n, nodes !! u = Some n → wf_term rm (nd_Term n)) ∧ (∀ u c, c ∈ default [] (cons !! u) → wf_term rm (cn_Term c)).
(** No variable is read that the path does not bind. *)
Definition covered : Prop := ∀ u x, reads_at u x → on_path u x.

Hypothesis Hok : nodes_ok nodes.
Lemma need_down v x : need v x ↔ reads_at v x ∨ ∃ c, child_of nodes v c ∧ (own c x ∨ need c x).
Proof.
  split.
  - intros (u & Ha & Hx). apply anc_down in Ha as [->|(c & Hc & Hcu)]; [naive_solver|]. destruct (decide (u = c)) as [->|Hne].
    + right. exists c. split; [done|]. destruct Hx as [Hx|[_ Hx]]; [right; exists c; eauto with rete|by left].
    + right. exists c. split; [done|]. right. exists u. naive_solver.
  - intros [Hx|(c & Hc & Hx)]; [exists v; eauto with rete|]. destruct Hx as [Hx|(u & Hu & Hx)].
    + exists c. split; [eauto with rete|]. right. split; [|done]. apply child_lt in Hc; [lia|done].
    + exists u. split; [apply (anc_trans nodes v c); eauto with rete|]. destruct Hx as [?|[_ ?]]; [by left|right]. split; [|done].
      apply child_lt in Hc; [|done]. apply anc_le in Hu; [lia|done].
Qed.
Lemma on_path_up v p x : child_of nodes p v → on_path v x ↔ own v x ∨ on_path p x.
Proof.
  intros Hc. split.
  - intros (u & Ha & Hx). inversion Ha as [|q u' Hq Hc' E]; subst; [by left|right]. exists u. rewrite (child_parent _ _ _ _ Hc Hc'). done.
  - intros [Hx|(u & Ha & Hx)]; [exists v|exists u]; eauto with rete.
Qed.
(** The row of a vertex: its own variables, and those of the row of the parent that are
    needed from it. *)
Lemma in_row_up v p x : child_of nodes p v → covered → in_row v x ↔ own v x ∨ (in_row p x ∧ need v x).
Proof.
  intros Hc Hcov. unfold in_row. rewrite (on_path_up v p x Hc). split.
  - intros [[Hx|Hx] [Ho|Hn]]; [by left..|by left|right]. split; [|done]. split; [done|]. right. apply need_down. right. exists v. eauto.
  - intros [Hx|[[Hp _] Hn]]; [|tauto]. tauto.
Qed.
Lemma reads_in_row v x : covered → reads_at v x → in_row v x.
Proof. intros Hcov Hx. split; [by apply Hcov|]. right. exists v. eauto with rete. Qed.
End needs.

Lemma fold_collect {A} (f : gset string → A → res (gset string)) (Q : A → string → Prop) l : (∀ a vars, a ∈ l → ∃ s, f vars a = Ret s ∧ ∀ x, x ∈ s ↔ x ∈ vars ∨ Q a x) →
  ∀ vars, ∃ s, fold_res f vars l = Ret s ∧ ∀ x, x ∈ s ↔ x ∈ vars ∨ ∃ a, a ∈ l ∧ Q a x.
Proof.
  induction l as [|a l IH]; intros Hf vars; cbn [fold_res].
  { exists vars. split; [done|]. intros x. split; [by left|]. intros [?|(a & Ha & _)]; [done|]. by apply not_elem_of_nil in Ha. }
  destruct (Hf a vars ltac:(apply elem_of_cons; by left)) as (s & -> & Hs). cbn [res_bind].
  destruct (IH (λ b vs Hb, Hf b vs (proj2 (elem_of_cons _ _ _) (or_intror Hb))) s) as (s' & -> & Hs'). exists s'. split; [done|].
  intros x. rewrite Hs', Hs. setoid_rewrite elem_of_cons. naive_solver.
Qed.

Section collect.
Context (rm0 : resources) (nodes0 : list ReteNode) (cons0 : gmap nat (list ConsequentNode)).
Hypothesis Hok : nodes_ok nodes0.
Hypothesis Hpos0 : positive_keys rm0.
Hypothesis Hwf : terms_wf rm0 nodes0 cons0.
Context (rm : resources) (nodes : list ReteNode) (cons : gmap nat (list ConsequentNode)).
Hypothesis Hpos : positive_keys rm.
Hypothesis Hsub : rm0 ⊆ rm.

Lemma collect_term_larger a b vars : wf_term rm0 a → ∃ s, collect_term rm b vars a = Ret s ∧ ∀ x, x ∈ s ↔ x ∈ vars ∨ (b = true ∧ x ∈ ids rm0 a) ∨ x ∈ term_reads rm0 a.
Proof.
  intros W. destruct (term_larger rm0 rm Hpos0 Hpos Hsub a W) as (W' & Ei & Er). destruct (collect_term_ok rm Hpos a b vars W') as (s & Es & Hs).
  exists s. split; [done|]. intros x. by rewrite Hs, Ei, Er.
Qed.
(** On a part of the tree that was not changed yet. *)
Lemma collect_ok fuel : ∀ v vars b, (length nodes0 ≤ v + fuel)%nat → (v < length nodes0)%nat → (∀ u, anc nodes0 v u → nodes !! u = nodes0 !! u ∧ cons !! u = cons0 !! u) →
  ∃ s, CollectDescendentsReqVars rm nodes cons fuel vars v b = Ret s ∧ ∀ x, x ∈ s ↔ x ∈ vars ∨ (b = true ∧ own rm0 nodes0 v x) ∨ need rm0 nodes0 cons0 v x.
Proof.
  induction fuel as [|fuel IH]; intros v vars b Hf Hv Hsame; [lia|]. cbn [CollectDescendentsReqVars].
  destruct (Hsame v (anc_refl _ _)) as [-> Hcv]. destruct (lookup_lt_is_Some_2 _ _ Hv) as [n Hn]. rewrite Hn. destruct (no_tree _ Hok _ _ Hn) as [-> _].
  destruct (collect_term_larger (nd_Term n) b vars (proj1 Hwf v n Hn)) as (s1 & -> & H1). cbn [res_bind].
  destruct (fold_collect (λ vars child, CollectDescendentsReqVars rm nodes cons fuel vars child true) (λ c x, own rm0 nodes0 c x ∨ need rm0 nodes0 cons0 c x) (ChildrenVertexes n))
    with (vars := s1) as (s2 & -> & H2).
  { intros c vs Hc. apply (elem_of_children nodes0 Hok v n c Hn) in Hc. pose proof (child_lt nodes0 Hok _ _ Hc) as Hlt. destruct (IH c vs true) as (s & Es & Hs); [lia| | |].
    - unfold child_of in Hc. destruct (nodes0 !! c) eqn:E; [|done]. by apply lookup_lt_Some in E.
    - intros u Hu. apply Hsame. apply (anc_trans nodes0 v c); eauto with rete.
    - exists s. split; [done|]. intros x. rewrite Hs. naive_solver. }
  cbn [res_bind]. rewrite Hcv.
  destruct (fold_collect (λ vars c, collect_term rm true vars (cn_Term c)) (λ c x, x ∈ all_ids rm0 (cn_Term c)) (default [] (cons0 !! v))) with (vars := s2) as (s3 & -> & H3).
  { intros c vs Hc. destruct (collect_term_larger (cn_Term c) true vs (proj2 Hwf v c Hc)) as (s & Es & Hs). exists s. split; [done|]. intros x. rewrite Hs.
    unfold all_ids. rewrite elem_of_union. tauto. }
  exists s3. split; [done|]. intros x. rewrite H3, H2, H1, need_down by done.
  assert (Hch : (∃ a, a ∈ ChildrenVertexes n ∧ (own rm0 nodes0 a x ∨ need rm0 nodes0 cons0 a x)) ↔ ∃ c, child_of nodes0 v c ∧ (own rm0 nodes0 c x ∨ need rm0 nodes0 cons0 c x)).
  { setoid_rewrite (λ c, elem_of_children nodes0 Hok v n c Hn). done. }
  assert (Eown : own rm0 nodes0 v x ↔ x ∈ ids rm0 (nd_Term n)).
  { unfold own. rewrite Hn. split; [intros (m & [= <-] & Hx); done|by exists n]. }
  assert (Ereads : (∃ m, nodes0 !! v = Some m ∧ x ∈ term_reads rm0 (nd_Term m)) ↔ x ∈ term_reads rm0 (nd_Term n)).
  { rewrite Hn. split; [intros (m & [= <-] & Hx); done|by exists n]. }
  rewrite Hch. unfold reads_at. rewrite Eown, Ereads. tauto.
Qed.
End collect.

(** ** A vertex whose row is computed *)
Definition row_of (nodes : list ReteNode) (v : nat) : list string := from_option (λ n, BetaRelationVars (nd_Beta n)) [] (nodes !! v).
(** The reference to a variable by its place in the row of a vertex. *)
Definition row_ref (row : list string) (v : nat) (x : string) : ResourceNode := mkResourceNode x "var" "" true (getPosInBetaRelationVars x row) (Z.of_nat v).

Section network.
Context (rm0 : resources) (nodes0 : list ReteNode) (cons0 : gmap nat (list ConsequentNode)).

Record vertex_done (st : beta_state) (p v : nat) (n0 : ReteNode) (place : string → ResourceNode) (n : ReteNode) : Prop := {
  vd_node : bs_nodes st !! v = Some n ∧ n = set_node n0 (nd_Term n) (nd_Beta n);
  vd_row : NoDup (row_of (bs_nodes st) v) ∧ ∀ x, x ∈ row_of (bs_nodes st) v ↔ in_row rm0 nodes0 cons0 v x;
  vd_pruned : ∀ x, x ∈ PrunedVars (nd_Beta n) ↔ x ∈ row_of (bs_nodes st) p ∧ x ∉ row_of (bs_nodes st) v;
  vd_vars : BetaVarNodes (nd_Beta n) = (λ x, mkBetaVar x (IsBinded (place x)) (VarPos (place x)) (Z.of_nat v)) <$> row_of (bs_nodes st) v;
  vd_place : ∀ x, x ∈ row_of (bs_nodes st) v → place x = mkResourceNode x "var" "" (IsBinded (place x)) (VarPos (place x)) (Z.of_nat v) ∧
    if IsBinded (place x) then 0 ≤ VarPos (place x) ∧ row_of (bs_nodes st) p !! Z.to_nat (VarPos (place x)) = Some x
    else (x ∉ row_of (bs_nodes st) p) ∧ at_place rm0 (nd_Term n0) x (VarPos (place x));
  vd_triple : refers_triple rm0 (ResourceByKey (bs_manager st)) place (nd_Term n0) (nd_Term n);
  vd_filter : refers_opt rm0 (ResourceByKey (bs_manager st)) (row_ref (row_of (bs_nodes st) v) v) (Filter (nd_Term n0)) (Filter (nd_Term n));
  vd_expr : refers_opt rm0 (ResourceByKey (bs_manager st)) (row_ref (row_of (bs_nodes st) v) v) (ObjectExpr (nd_Term n0)) (ObjectExpr (nd_Term n));
  vd_consequents : Forall2 (refers_consequent rm0 (ResourceByKey (bs_manager st)) (row_ref (row_of (bs_nodes st) v) v))
    (default [] (cons0 !! v)) (default [] (bs_consequents st !! v)) }.
Definition is_done (st : beta_state) (v : nat) : Prop := ∀ n0 p, nodes0 !! v = Some n0 → child_of nodes0 p v → ∃ place n, vertex_done st p v n0 place n.

Record inv (D : nat → Prop) (st : beta_state) : Prop := {
  iv_manager : manager_ok (bs_manager st);
  iv_grows : rm0 ⊆ ResourceByKey (bs_manager st);
  iv_log : bs_log st = [];
  iv_todo : ∀ u, ¬ D u → bs_nodes st !! u = nodes0 !! u ∧ bs_consequents st !! u = cons0 !! u;
  iv_done : ∀ u, D u → u ≠ 0%nat ∧ is_done st u;
  iv_closed : ∀ u p, D u → child_of nodes0 p u → p = 0%nat ∨ D p }.

(** What was computed stays when another vertex is. *)
Lemma refers_consequent_grows rm1 rm2 place c c' : rm1 ⊆ rm2 → refers_consequent rm0 rm1 place c c' → refers_consequent rm0 rm2 place c c'.
Proof.
  intros Hs [Hr (E1 & E2 & R1 & R2 & R3) He]. split; [done| |].
  - repeat split; try done; by apply (refers_grows _ rm1).
  - by apply (refers_opt_grows _ rm1).
Qed.
Lemma done_later st st' p v n0 place n : ResourceByKey (bs_manager st) ⊆ ResourceByKey (bs_manager st') →
  bs_nodes st' !! v = bs_nodes st !! v → bs_nodes st' !! p = bs_nodes st !! p → bs_consequents st' !! v = bs_consequents st !! v →
  vertex_done st p v n0 place n → vertex_done st' p v n0 place n.
Proof.
  intros Hs Ev Ep Ec [D1 D2 D3 D4 D5 (E1 & E2 & R1 & R2 & R3) D6 D7 D8].
  assert (Er : row_of (bs_nodes st') v = row_of (bs_nodes st) v) by (unfold row_of; by rewrite Ev).
  assert (Erp : row_of (bs_nodes st') p = row_of (bs_nodes st) p) by (unfold row_of; by rewrite Ep).
  split; rewrite ?Er, ?Erp, ?Ev, ?Ec; try done.
  - repeat split; try done; by apply (refers_grows _ (ResourceByKey (bs_manager st))).
  - by apply (refers_opt_grows _ (ResourceByKey (bs_manager st))).
  - by apply (refers_opt_grows _ (ResourceByKey (bs_manager st))).
  - eapply Forall2_impl; [exact D8|]. intros c c'. by apply refers_consequent_grows.
Qed.
End network.

Section build.
Context (rm0 : resources) (nodes0 : list ReteNode) (cons0 : gmap nat (list ConsequentNode)).
Hypothesis Hok : nodes_ok nodes0.
Hypothesis Hpos0 : positive_keys rm0.
Hypothesis Hwf : terms_wf rm0 nodes0 cons0.
Hypothesis Hcov : covered rm0 nodes0 cons0.

Lemma head_owns_nothing x : ¬ own rm0 nodes0 0 x.
Proof.
  intros (n & Hn & Hx). destruct (no_head _ Hok) as (h & Hh & _ & Et). rewrite Hn in Hh. injection Hh as <-. injection Et as Et _. rewrite Et in Hx. revert Hx.
  rewrite ids_keys. cbn. rewrite !(key_none rm0 Hpos0 0) by lia. rewrite !elem_of_union, elem_of_empty. tauto.
Qed.
Lemma head_row x : ¬ in_row rm0 nodes0 cons0 0 x.
Proof. intros [(u & Ha & Hx) _]. apply anc_le in Ha; [|done]. assert (u = 0%nat) as -> by lia. by apply head_owns_nothing in Hx. Qed.

(** The row of the parent, when a vertex comes up. *)
Lemma parent_row D st p v : inv rm0 nodes0 cons0 D st → ¬ D v → child_of nodes0 p v → (p = 0%nat ∨ D p) →
  ∀ x, x ∈ row_of (bs_nodes st) p ↔ in_row rm0 nodes0 cons0 p x.
Proof.
  intros Hinv Hv Hc [->|Hp] x.
  - destruct (iv_todo _ _ _ _ _ Hinv 0%nat) as [E _]; [by intros [? _]%(iv_done _ _ _ _ _ Hinv)|]. unfold row_of. rewrite E.
    destruct (no_head _ Hok) as (h & Hh & _ & Et). rewrite Hh. injection Et as _ Eb. cbn. rewrite Eb. cbn. rewrite elem_of_nil.
    split; [done|apply head_row].
  - destruct (iv_done _ _ _ _ _ Hinv p Hp) as [Hne Hdone]. unfold child_of in Hc. destruct (nodes0 !! v) as [nv|] eqn:Ev; [|done]. injection Hc as Epar.
    destruct (no_tree _ Hok _ _ Ev) as [_ [->|Hlt]]; [destruct (no_head _ Hok) as (h & Hh & Eh & _); rewrite Ev in Hh; injection Hh as <-; lia|].
    destruct (lookup_lt_is_Some_2 nodes0 p) as [np Hnp]. { apply lookup_lt_Some in Ev. lia. }
    destruct (no_tree _ Hok _ _ Hnp) as [_ [?|Hpp]]; [done|].
    destruct (Hdone np (Z.to_nat (ParentVertex np)) Hnp) as (place & n & Hvd); [unfold child_of; rewrite Hnp; cbn; f_equal; lia|]. apply (vd_row _ _ _ _ _ _ _ _ _ Hvd).
Qed.

(** The variables of a node, as sets: what is kept of the bound ones, the row, and what is
    pruned. *)
Section sets.
Context (v p : nat) (bound required : gset string) (varPos : gmap string Z).
Hypothesis Hc : child_of nodes0 p v.
Hypothesis Hbound : ∀ x, x ∈ bound ↔ in_row rm0 nodes0 cons0 p x.
Hypothesis Hreq : ∀ x, x ∈ required ↔ need rm0 nodes0 cons0 v x.
Hypothesis Hpos : ∀ x, is_Some (varPos !! x) ↔ own rm0 nodes0 v x.
Abbreviation wanted := (λ x, x ∈ required ∨ is_Some (varPos !! x)).

Lemma row_set x : x ∈ filter wanted bound ∪ (dom varPos ∖ bound) ↔ in_row rm0 nodes0 cons0 v x.
Proof.
  rewrite elem_of_union, elem_of_filter, elem_of_difference, elem_of_dom, Hreq, Hpos, (in_row_up _ _ _ Hok v p x Hc Hcov), <- Hbound.
  destruct (decide (x ∈ bound)); tauto.
Qed.
Lemma kept_set x : x ∈ bound ∖ filter (λ x, ¬ wanted x) bound ↔ x ∈ bound ∧ in_row rm0 nodes0 cons0 v x.
Proof.
  rewrite elem_of_difference, elem_of_filter, <- row_set, elem_of_union, elem_of_filter, elem_of_difference, elem_of_dom.
  destruct (decide (wanted x)); tauto.
Qed.
Lemma pruned_set x : x ∈ filter (λ x, ¬ wanted x) bound ↔ x ∈ bound ∧ ¬ in_row rm0 nodes0 cons0 v x.
Proof. rewrite <- row_set, elem_of_filter, elem_of_union, elem_of_filter, elem_of_difference, elem_of_dom. tauto. Qed.
Lemma bound_set x : x ∈ (bound ∖ filter (λ x, ¬ wanted x) bound) ∪ dom varPos ↔ in_row rm0 nodes0 cons0 v x.
Proof.
  rewrite elem_of_union, kept_set, <- row_set, elem_of_union, elem_of_filter, elem_of_difference, elem_of_dom. destruct (decide (x ∈ bound)); tauto.
Qed.
End sets.

(** The positions of the variables of a triple. *)
Lemma varPos_ok rm v n0 : positive_keys rm → rm0 ⊆ rm → nodes0 !! v = Some n0 → ∃ m, getVarPosition rm (nd_Term n0) = Ret m ∧
  (∀ x, is_Some (m !! x) ↔ own rm0 nodes0 v x) ∧ ∀ x pos, m !! x = Some pos → at_place rm0 (nd_Term n0) x pos.
Proof.
  intros Hpos Hsub Hn. pose proof (proj1 Hwf v n0 Hn) as W. destruct (term_larger rm0 rm Hpos0 Hpos Hsub _ W) as (W' & Ei & _).
  destruct (getVarPosition_ok rm Hpos _ W') as (m & Em & Ed & Hm). exists m. split; [done|]. split.
  - intros x. rewrite <- elem_of_dom, Ed, Ei. unfold own. rewrite Hn. split; [by exists n0|by intros (? & [= <-] & ?)].
  - intros x pos Hx. destruct (Hm x pos Hx) as (Hp & Hv & Hi). destruct W as (Ks & Kp & Ko & _).
    assert (Hk : keyed rm0 (key_at (nd_Term n0) pos)) by (unfold key_at; by repeat case_match).
    destruct (keyed_larger rm0 rm Hpos0 Hpos Hsub _ Hk) as (_ & Ev & Ei'). rewrite Ev in Hv. rewrite Ei' in Hi. by split.
Qed.
Lemma parent_of v p n0 : nodes0 !! v = Some n0 → child_of nodes0 p v → Z.to_nat (ParentVertex n0) = p.
Proof. intros Hn Hc. unfold child_of in Hc. rewrite Hn in Hc. injection Hc as Hc. lia. Qed.
Lemma own_in_row v n0 x : nodes0 !! v = Some n0 → x ∈ ids rm0 (nd_Term n0) → in_row rm0 nodes0 cons0 v x.
Proof. intros Hn Hx. assert (own rm0 nodes0 v x) by by exists n0. split; [exists v; eauto with rete|by left]. Qed.

(** The places of the variables of a row. *)
Lemma places_ok st v p n0 kept varPos (relation : list string) :
  let place := own_place n0 kept varPos (row_of (bs_nodes st) p) in
  Vertex n0 = v → (∀ x, x ∈ relation → x ∈ kept ↔ x ∈ row_of (bs_nodes st) p) → (∀ x pos, varPos !! x = Some pos → at_place rm0 (nd_Term n0) x pos) →
  (∀ x, x ∈ relation → x ∈ kept ∨ is_Some (varPos !! x)) →
  ∀ x, x ∈ relation → place x = mkResourceNode x "var" "" (IsBinded (place x)) (VarPos (place x)) (Z.of_nat v) ∧
    if IsBinded (place x) then 0 ≤ VarPos (place x) ∧ row_of (bs_nodes st) p !! Z.to_nat (VarPos (place x)) = Some x
    else (x ∉ row_of (bs_nodes st) p) ∧ at_place rm0 (nd_Term n0) x (VarPos (place x)).
Proof.
  intros place Ev Hk Hpos Hcov' x Hx. split; [unfold place, own_place, vertex_of; by rewrite Ev|].
  unfold place, own_place, loc. cbn [IsBinded VarPos]. case_bool_decide as Hkx; cbn [fst snd].
  - apply Hk in Hkx; [|done]. unfold getPosInBetaRelationVars. destruct (pos_in_ok x 0 _ Hkx) as (j & -> & Hj).
    split; [lia|]. by replace (Z.to_nat (0 + Z.of_nat j)) with j by lia.
  - split; [by rewrite <- Hk|]. destruct (Hcov' x Hx) as [?|[pos Hp]]; [done|]. rewrite Hp. by apply Hpos.
Qed.

(** The terms of a vertex refer to the rows: [newVars] for the triple, [repl] for the rest. *)
Lemma terms_ok rm v n0 newVars repl own_place row_place (relation : list string) : nodes0 !! v = Some n0 → rm0 ⊆ rm →
  (∀ x, x ∈ relation ↔ in_row rm0 nodes0 cons0 v x) → Forall (holds newVars rm own_place) relation → Forall (holds repl rm row_place) relation →
  ∃ a f o cs, replaceVarInTerm rm newVars (nd_Term n0) = Ret (a, []) ∧ replace_opt rm repl (Filter a) = Ret (f, []) ∧ replace_opt rm repl (ObjectExpr a) = Ret (o, []) ∧
    replace_consequents rm repl (default [] (cons0 !! v)) = Ret (cs, []) ∧ refers_triple rm0 rm own_place (nd_Term n0) a ∧
    refers_opt rm0 rm row_place (Filter (nd_Term n0)) f ∧ refers_opt rm0 rm row_place (ObjectExpr (nd_Term n0)) o ∧
    Forall2 (refers_consequent rm0 rm row_place) (default [] (cons0 !! v)) cs.
Proof.
  intros Hn Hsub Hrow H1 H2. set (X := list_to_set relation : gset string). assert (HX : ∀ x, x ∈ X ↔ in_row rm0 nodes0 cons0 v x).
  { intros x. unfold X. by rewrite elem_of_list_to_set. }
  assert (N1 : ∀ x, x ∈ X → holds newVars rm own_place x) by (intros x Hx; rewrite HX, <- Hrow in Hx; by apply (proj1 (Forall_forall _ _) H1)).
  assert (N2 : ∀ x, x ∈ X → holds repl rm row_place x) by (intros x Hx; rewrite HX, <- Hrow in Hx; by apply (proj1 (Forall_forall _ _) H2)).
  pose proof (proj1 Hwf v n0 Hn) as W. assert (Hreads : term_reads rm0 (nd_Term n0) ⊆ X).
  { intros x Hx. apply HX, reads_in_row; [done|]. left. by exists n0. }
  unfold term_reads in Hreads. apply union_subseteq in Hreads as [Ho Hf].
  destruct (replaceVarInTerm_ok rm0 rm newVars own_place X Hpos0 Hsub N1 _ W) as (a & Ea & Ra & Eo & Ef); [intros x Hx; by apply HX, (own_in_row v n0)|].
  destruct W as (_ & _ & _ & Wo & Wf). rewrite <- Eo in Wo, Ho. rewrite <- Ef in Wf, Hf.
  destruct (replace_opt_ok rm0 rm repl row_place X Hpos0 Hsub N2 _ Wf Hf) as (f & Ef' & Rf), (replace_opt_ok rm0 rm repl row_place X Hpos0 Hsub N2 _ Wo Ho) as (o & Eo' & Ro).
  destruct (replace_consequents_ok rm0 rm repl row_place X (default [] (cons0 !! v)) Hpos0 Hsub N2) as (cs & Ecs & Rcs).
  { apply Forall_forall. intros c Hin. split; [by apply (proj2 Hwf v)|]. intros x Hx. apply HX, reads_in_row; [done|]. right. by exists c. }
  exists a, f, o, cs. rewrite <- Ef, <- Eo. done.
Qed.

(** The state after a vertex: its row, its places and its terms are as they should be. *)
Section after.
Context (st : beta_state) (p v : nat) (n0 : ReteNode) (m : Manager) (relation pruned : list string) (kept : gset string) (varPos : gmap string Z)
  (a : RuleTerm) (f o : option rete_ExpressionNode) (cs : list ConsequentNode).
Hypothesis Hn : nodes0 !! v = Some n0.
Hypothesis Hst : bs_nodes st !! v = Some n0.
Hypothesis Hc : child_of nodes0 p v.
Hypothesis Hnodup : NoDup relation.
Hypothesis Hrow : ∀ x, x ∈ relation ↔ in_row rm0 nodes0 cons0 v x.
Hypothesis Hkept : ∀ x, x ∈ relation → x ∈ kept ↔ x ∈ row_of (bs_nodes st) p.
Hypothesis Hcover : ∀ x, x ∈ relation → x ∈ kept ∨ is_Some (varPos !! x).
Hypothesis Hat : ∀ x pos, varPos !! x = Some pos → at_place rm0 (nd_Term n0) x pos.
Hypothesis Hpruned : ∀ x, x ∈ pruned ↔ x ∈ row_of (bs_nodes st) p ∧ ¬ in_row rm0 nodes0 cons0 v x.
Let place := own_place n0 kept varPos (row_of (bs_nodes st) p).
Let row := row_place n0 relation.
Hypothesis Ra : refers_triple rm0 (ResourceByKey m) place (nd_Term n0) a.
Hypothesis Rf : refers_opt rm0 (ResourceByKey m) row (Filter (nd_Term n0)) f.
Hypothesis Ro : refers_opt rm0 (ResourceByKey m) row (ObjectExpr (nd_Term n0)) o.
Hypothesis Rcs : Forall2 (refers_consequent rm0 (ResourceByKey m) row) (default [] (cons0 !! v)) cs.

Definition state_after : beta_state :=
  mkState m (<[v := set_node n0 (mkTerm (IsNot a) (rt_NormalizedLabel a) (SubjectKey a) (PredicateKey a) (ObjectKey a) o f)
    (mkBeta relation pruned (beta_var_of n0 kept varPos (row_of (bs_nodes st) p) <$> relation))]> (bs_nodes st))
    (if bool_decide (is_Some (cons0 !! v)) then <[v := cs]> (bs_consequents st) else bs_consequents st) [].
Lemma after_row : row_of (bs_nodes state_after) v = relation.
Proof. unfold row_of, state_after. cbn [bs_nodes]. rewrite list_lookup_insert_eq by (by apply lookup_lt_Some in Hst). done. Qed.
Lemma after_done : bs_consequents st !! v = cons0 !! v → is_done rm0 nodes0 cons0 state_after v.
Proof.
  intros Ecv n0' p' Hn' Hc'. rewrite Hn in Hn'. injection Hn' as <-. rewrite (child_parent _ _ _ _ Hc' Hc). pose proof (child_lt _ Hok _ _ Hc) as Hlt.
  destruct (no_tree _ Hok _ _ Hn) as [Evx _].
  assert (Erow : row = row_ref relation v) by (unfold row, row_place, row_ref, vertex_of; by rewrite Evx).
  assert (Ep : row_of (bs_nodes state_after) p = row_of (bs_nodes st) p) by (unfold row_of, state_after; cbn; by rewrite list_lookup_insert_ne by lia).
  eexists place, _. split; rewrite ?after_row, ?Ep, <- ?Erow.
  - split; [by apply list_lookup_insert_eq; apply lookup_lt_Some in Hst|done].
  - done.
  - intros x. cbn. by rewrite Hpruned, Hrow.
  - cbn. apply list_fmap_ext. intros i x _. unfold beta_var_of, vertex_of. by rewrite Evx.
  - by apply places_ok.
  - destruct Ra as (E1 & E2 & R1 & R2 & R3). by repeat split.
  - done.
  - done.
  - unfold state_after. cbn [bs_consequents bs_manager]. case_bool_decide as Hs; [by rewrite lookup_insert_eq|]. apply eq_None_not_Some in Hs.
    rewrite Hs in Rcs. rewrite Ecv, Hs. cbn in Rcs. by inversion Rcs.
Qed.
End after.

(** A vertex that comes up is computed, and nothing else changes. *)
Lemma build_node_done D st p v bound repl fuel : inv rm0 nodes0 cons0 D st → child_of nodes0 p v → (p = 0%nat ∨ D p) → (∀ u, anc nodes0 v u → ¬ D u) →
  (∀ x, x ∈ bound ↔ x ∈ row_of (bs_nodes st) p) → (length nodes0 ≤ v + fuel)%nat →
  ∃ st' bound' repl', build_node fuel st v bound repl = Ret (st', bound', repl') ∧ is_done rm0 nodes0 cons0 st' v ∧
    manager_ok (bs_manager st') ∧ grows (bs_manager st) (bs_manager st') ∧ bs_log st' = [] ∧
    (∀ u, u ≠ v → bs_nodes st' !! u = bs_nodes st !! u ∧ bs_consequents st' !! u = bs_consequents st !! u) ∧ ∀ x, x ∈ bound' ↔ x ∈ row_of (bs_nodes st') v.
Proof.
  intros Hinv Hc Hp Hbelow Hbound Hfuel. pose proof (Hbelow v (anc_refl _ _)) as Hv. pose proof (child_lt _ Hok _ _ Hc) as Hlt.
  destruct (nodes0 !! v) as [n0|] eqn:Hn; [|unfold child_of in Hc; by rewrite Hn in Hc]. destruct (no_tree _ Hok _ _ Hn) as [Evx _].
  destruct (iv_todo _ _ _ _ _ Hinv v Hv) as [Env Ecv]. pose proof (lookup_lt_Some _ _ _ Hn) as Hlen. pose proof (manager_positive _ (iv_manager _ _ _ _ _ Hinv)) as Hpos.
  pose proof (parent_row D st p v Hinv Hv Hc Hp) as Hprow. pose proof (iv_grows _ _ _ _ _ Hinv) as Hsub.
  assert (Hrow : ∀ x, x ∈ bound ↔ in_row rm0 nodes0 cons0 p x) by (intros x; by rewrite Hbound).
  unfold build_node. rewrite Env, Hn.
  destruct (collect_ok rm0 nodes0 cons0 Hok Hpos0 Hwf (ResourceByKey (bs_manager st)) (bs_nodes st) (bs_consequents st) Hpos Hsub fuel v ∅ false Hfuel Hlen) as (required & -> & Hreq').
  { intros u Hu. apply (iv_todo _ _ _ _ _ Hinv). by apply Hbelow. }
  assert (Hreq : ∀ x, x ∈ required ↔ need rm0 nodes0 cons0 v x).
  { intros x. rewrite Hreq', elem_of_empty. split; [intros [[]|[[? _]|?]]; done|tauto]. } clear Hreq'.
  cbn [res_bind]. destruct (varPos_ok _ v n0 Hpos Hsub Hn) as (varPos & -> & Hvp & Hat). cbn [res_bind].
  pose proof (row_set v p bound required varPos Hc Hrow Hreq Hvp) as Rrow. pose proof (kept_set v p bound required varPos Hc Hrow Hreq Hvp) as Rkept.
  pose proof (pruned_set v p bound required varPos Hc Hrow Hreq Hvp) as Rpruned. pose proof (bound_set v p bound required varPos Hc Hrow Hreq Hvp) as Rbound.
  set (pruned := filter (λ x, ¬ (x ∈ required ∨ is_Some (varPos !! x))) bound) in *. set (kept := bound ∖ pruned) in *.
  set (relation := sorted_strings (filter (λ x, x ∈ required ∨ is_Some (varPos !! x)) bound ∪ (dom varPos ∖ bound))) in *.
  assert (Rrel : ∀ x, x ∈ relation ↔ in_row rm0 nodes0 cons0 v x) by (intros x; unfold relation; by rewrite elem_of_sorted_strings).
  assert (Hcover : ∀ x, x ∈ relation → x ∈ kept ∨ is_Some (varPos !! x)).
  { intros x Hx. apply Rrel in Hx. pose proof (proj2 (Rbound x) Hx) as Hb. apply elem_of_union in Hb as [?|?]; [by left|right]. by apply elem_of_dom. }
  destruct (beta_vars_ok (bs_nodes st) n0 relation kept varPos (row_of (bs_nodes st) p)) with (l := relation) (seen := @nil string) (st := mkLoop (bs_manager st) [] ∅ repl [])
    as (loop & -> & Hm & Hg & Hlog & Hvn & N1 & N2); [|done|done|by apply (iv_manager _ _ _ _ _ Hinv)|done|by constructor..|].
  { intros x [Hx _]%Rkept. rewrite (parent_of v p n0 Hn Hc). apply Hbound in Hx. split; [done|]. unfold row_of in *.
    destruct (bs_nodes st !! p) as [np|]; [by exists np|by apply not_elem_of_nil in Hx]. }
  rewrite app_nil_r in N1, N2. apply Forall_rev in N1, N2. rewrite rev_involutive in N1, N2. cbn [res_bind]. cbn [vl_manager vl_nodes app] in *.
  assert (Hs' : rm0 ⊆ ResourceByKey (vl_manager loop)) by (unfold grows in Hg; by etrans). rewrite Evx, Ecv.
  destruct (terms_ok _ v n0 _ _ _ _ relation Hn Hs' Rrel N1 N2) as (a & f & o & cs & -> & Ef & Eo & Ecs & Ra & Rf & Ro & Rcs). cbn [res_bind fst snd].
  rewrite Ef. cbn [res_bind fst snd]. rewrite Eo. cbn [res_bind fst snd]. rewrite Ecs. cbn [res_bind fst snd].
  rewrite (iv_log _ _ _ _ _ Hinv), Hlog, Hvn. cbn [app].
  exists (state_after st p v n0 (vl_manager loop) relation (sorted_strings pruned) kept varPos a f o cs), (kept ∪ dom varPos), (replacements loop). split; [done|].
  assert (Hpr : ∀ x, x ∈ sorted_strings pruned ↔ x ∈ row_of (bs_nodes st) p ∧ ¬ in_row rm0 nodes0 cons0 v x).
  { intros x. rewrite elem_of_sorted_strings, <- Hbound. exact (Rpruned x). }
  assert (Hkept : ∀ x, x ∈ relation → x ∈ kept ↔ x ∈ row_of (bs_nodes st) p).
  { intros x Hx%Rrel. rewrite <- Hbound. transitivity (x ∈ bound ∧ in_row rm0 nodes0 cons0 v x); [exact (Rkept x)|tauto]. }
  split; [apply after_done; try done; [by rewrite Env|apply sorted_strings_NoDup]|].
  split; [done|]. split; [done|]. split; [done|]. split.
  - intros u Hu. split; [by apply list_lookup_insert_ne|]. unfold state_after. cbn [bs_consequents]. case_bool_decide; [by apply lookup_insert_ne|done].
  - intros x. rewrite after_row by (by rewrite Env). rewrite Rrel. exact (Rbound x).
Qed.

Lemma inv_ext D D' st : (∀ u, D u ↔ D' u) → inv rm0 nodes0 cons0 D st → inv rm0 nodes0 cons0 D' st.
Proof. intros E [I1 I2 I3 I4 I5 I6]. split; try done; setoid_rewrite <- E; done. Qed.
Lemma build_node_ok D st p v bound repl fuel : inv rm0 nodes0 cons0 D st → child_of nodes0 p v → (p = 0%nat ∨ D p) → (∀ u, anc nodes0 v u → ¬ D u) →
  (∀ x, x ∈ bound ↔ in_row rm0 nodes0 cons0 p x) → (length nodes0 ≤ v + fuel)%nat →
  ∃ st' bound' repl' n0 n, build_node fuel st v bound repl = Ret (st', bound', repl') ∧ inv rm0 nodes0 cons0 (λ u, D u ∨ u = v) st' ∧
    (∀ x, x ∈ bound' ↔ in_row rm0 nodes0 cons0 v x) ∧ nodes0 !! v = Some n0 ∧ bs_nodes st' !! v = Some n ∧ ChildrenVertexes n = ChildrenVertexes n0.
Proof.
  intros Hinv Hc Hp Hbelow Hbound Hfuel. pose proof (Hbelow v (anc_refl _ _)) as Hv. pose proof (child_lt _ Hok _ _ Hc) as Hlt.
  pose proof (parent_row D st p v Hinv Hv Hc Hp) as Hprow.
  destruct (build_node_done D st p v bound repl fuel) as (st' & bound' & repl' & E & Hdone & Hm & Hg & Hlog & Hsame & Hb'); try done; [intros x; by rewrite Hprow|].
  destruct (nodes0 !! v) as [n0|] eqn:Hn; [|unfold child_of in Hc; by rewrite Hn in Hc]. destruct (Hdone n0 p Hn Hc) as (place & n & Hvd).
  destruct (vd_node _ _ _ _ _ _ _ _ _ Hvd) as [Hn' En]. exists st', bound', repl', n0, n. split; [done|]. split; [|split; [|split; [done|]; split; [done|]; by rewrite En]].
  2: { intros x. rewrite Hb'. apply (vd_row _ _ _ _ _ _ _ _ _ Hvd). }
  split; [done| |done| | |].
  - etrans; [exact (iv_grows _ _ _ _ _ Hinv)|exact Hg].
  - intros u Hu. destruct (Hsame u) as [-> ->]; [naive_solver|]. apply (iv_todo _ _ _ _ _ Hinv). naive_solver.
  - intros u [Hu| ->]; [|split; [lia|done]]. destruct (iv_done _ _ _ _ _ Hinv u Hu) as [Hne Hd]. split; [done|]. intros n1 q Hn1 Hcq.
    destruct (Hd n1 q Hn1 Hcq) as (place' & n' & Hvd'). exists place', n'. assert (u ≠ v) by congruence.
    destruct (Hsame u) as [S1 S2]; [done|]. destruct (Hsame q) as [S3 _]; [destruct (iv_closed _ _ _ _ _ Hinv u q Hu Hcq); [lia|congruence]|].
    by apply (done_later _ _ _ st st').
  - intros u q [Hu| ->] Hcq; [destruct (iv_closed _ _ _ _ _ Hinv u q Hu Hcq); naive_solver|]. rewrite (child_parent _ _ _ _ Hcq Hc). naive_solver.
Qed.

(** A loop over children that are apart, each step of which computes a part of the tree. *)
Lemma fold_children {S} (step : S → nat → res S) (state : S → beta_state) p l :
  (∀ D s c, c ∈ l → inv rm0 nodes0 cons0 D (state s) → child_of nodes0 p c → (p = 0%nat ∨ D p) → (∀ u, anc nodes0 c u → ¬ D u) →
    ∃ s', step s c = Ret s' ∧ inv rm0 nodes0 cons0 (λ u, D u ∨ anc nodes0 c u) (state s')) →
  NoDup l → (∀ c, c ∈ l → child_of nodes0 p c) → ∀ D s, inv rm0 nodes0 cons0 D (state s) → (p = 0%nat ∨ D p) → (∀ c u, c ∈ l → anc nodes0 c u → ¬ D u) →
  ∃ s', fold_res step s l = Ret s' ∧ inv rm0 nodes0 cons0 (λ u, D u ∨ ∃ c, c ∈ l ∧ anc nodes0 c u) (state s').
Proof.
  intros Hstep. induction l as [|c l IH]; intros Hnd Hch D s Hinv Hp Hl; cbn [fold_res].
  { exists s. split; [done|]. apply (inv_ext D); [|done]. intros u. split; [by left|]. intros [?|(c & Hc & _)]; [done|]. by apply not_elem_of_nil in Hc. }
  apply NoDup_cons in Hnd as [Hnew Hnd]. assert (Hin : c ∈ c :: l) by (apply elem_of_cons; by left). assert (Hsub : ∀ d, d ∈ l → d ∈ c :: l) by (intros; apply elem_of_cons; by right).
  destruct (Hstep D s c Hin Hinv (Hch c Hin) Hp) as (s1 & -> & Hinv1); [intros u; by apply Hl|]. cbn [res_bind].
  destruct (IH (λ D s d Hd, Hstep D s d (Hsub d Hd)) Hnd (λ d Hd, Hch d (Hsub d Hd)) (λ u, D u ∨ anc nodes0 c u) s1 Hinv1) as (s' & -> & Hinv').
  - tauto.
  - intros d u Hd Hu [HD|Hcu]; [by apply (Hl d u (Hsub d Hd))|]. destruct Hnew. by rewrite (siblings_apart _ Hok p c d u (Hch c Hin) (Hch d (Hsub d Hd)) Hcu Hu).
  - exists s'. split; [done|]. apply (inv_ext _ _ _ (λ u, conj (λ H, H) (λ H, H))) in Hinv'. revert Hinv'. apply inv_ext. intros u. setoid_rewrite elem_of_cons. naive_solver.
Qed.
Lemma BuildBetaNodesRecursively_ok fuel : ∀ D st p v bound repl, inv rm0 nodes0 cons0 D st → child_of nodes0 p v → (p = 0%nat ∨ D p) →
  (∀ u, anc nodes0 v u → ¬ D u) → (∀ x, x ∈ bound ↔ in_row rm0 nodes0 cons0 p x) → (length nodes0 ≤ v + fuel)%nat →
  ∃ st' repl', BuildBetaNodesRecursively fuel st v bound repl = Ret (st', repl') ∧ inv rm0 nodes0 cons0 (λ u, D u ∨ anc nodes0 v u) st'.
Proof.
  induction fuel as [|fuel IH]; intros D st p v bound repl Hinv Hc Hp Hbelow Hbound Hfuel.
  { unfold child_of in Hc. destruct (nodes0 !! v) eqn:E; [apply lookup_lt_Some in E; lia|done]. }
  cbn [BuildBetaNodesRecursively]. destruct (build_node_ok D st p v bound repl (S fuel)) as (st1 & bound1 & repl1 & n0 & n & -> & Hinv1 & Hb1 & Hn0 & Hn & Ech); try done.
  cbn [res_bind]. rewrite Hn, Ech.
  destruct (fold_children (λ s child, BuildBetaNodesRecursively fuel s.1 child bound1 s.2) fst v (ChildrenVertexes n0)) with (D := λ u, D u ∨ u = v) (s := (st1, repl1))
    as ([st' repl'] & -> & Hinv').
  - intros D' [s r] c Hin Hi Hvc Hp' Hb. pose proof (child_lt _ Hok _ _ Hvc). destruct (IH D' s v c bound1 r) as (s' & r' & E & Hi'); try done; [lia|]. by exists (s', r').
  - by apply (children_NoDup _ Hok v).
  - intros c. by apply (elem_of_children _ Hok v).
  - done.
  - tauto.
  - intros c u Hin Hu. apply (elem_of_children _ Hok v n0 c Hn0) in Hin. pose proof (child_lt _ Hok _ _ Hin). pose proof (anc_le _ Hok _ _ Hu).
    intros [HD| ->]; [|lia]. apply (Hbelow u); [|done]. apply (anc_trans _ v c); eauto with rete.
  - exists st', repl'. split; [done|]. revert Hinv'. apply inv_ext. intros u. rewrite (anc_down nodes0 v u). setoid_rewrite (λ c, elem_of_children _ Hok v n0 c Hn0). tauto.
Qed.
End build.

(** The rows of all the vertices are computed, without an internal error. *)
Lemma BuildBetaNodes_ok m net : let rm0 := ResourceByKey m in let nodes0 := ReteNodes net in let cons0 := consequentsByVertex net in
  nodes_ok nodes0 → manager_ok m → terms_wf rm0 nodes0 cons0 → covered rm0 nodes0 cons0 →
  ∃ st, BuildBetaNodes m net = Ret st ∧ manager_ok (bs_manager st) ∧ rm0 ⊆ ResourceByKey (bs_manager st) ∧ bs_log st = [] ∧
    ∀ v n0 p, nodes0 !! v = Some n0 → child_of nodes0 p v → ∃ place n, vertex_done rm0 nodes0 cons0 st p v n0 place n.
Proof.
  intros rm0 nodes0 cons0 Hok Hm Hwf Hcov. pose proof (manager_positive m Hm) as Hpos0. unfold BuildBetaNodes. destruct (no_head _ Hok) as (h & Hh & Eh & _).
  fold nodes0. rewrite Hh. set (st0 := mkState m nodes0 (consequentsByVertex net) []).
  destruct (fold_children rm0 nodes0 cons0 Hok (λ st child, let! done := BuildBetaNodesRecursively (length nodes0) st child ∅ ∅ in Ret done.1) id 0 (ChildrenVertexes h))
    with (D := λ _ : nat, False) (s := st0) as (st & -> & Hinv).
  - intros D st c Hin Hi Hc Hp Hb. destruct (BuildBetaNodesRecursively_ok rm0 nodes0 cons0 Hok Hpos0 Hwf Hcov (length nodes0) D st 0 c ∅ ∅) as (st' & r & -> & Hi'); try done.
    + intros x. rewrite elem_of_empty. split; [done|by apply head_row].
    + lia.
    + by exists st'.
  - by apply (children_NoDup _ Hok 0).
  - intros c. by apply (elem_of_children _ Hok 0).
  - by split.
  - by left.
  - tauto.
  - exists st. cbn [id] in Hinv. split; [done|]. split; [by apply (iv_manager _ _ _ _ _ Hinv)|]. split; [by apply (iv_grows _ _ _ _ _ Hinv)|].
    split; [by apply (iv_log _ _ _ _ _ Hinv)|]. intros v n0 p Hn Hc. pose proof (child_lt _ Hok _ _ Hc) as Hlt. assert (Hv : anc nodes0 0 v) by (by apply (anc_head _ Hok v n0)).
    apply anc_down in Hv as [?|(c & H0c & Hcv)]; [lia|]. apply (elem_of_children _ Hok 0 h c Hh) in H0c.
    destruct (iv_done _ _ _ _ _ Hinv v) as [_ Hd]; [right; by exists c|]. by apply Hd.
Qed.
