(* ===== verification/ReteRows.v ===== *)
(** * From valid rules to the rows of the network

    BuildReteNetwork as a whole (src/jets/compilerv2/compiler/jet_rule_listener_rete.go): the
    tree of ReteNetwork.v, then the rows of BetaNodes.v. The antecedent of a node is the one of
    the rule that added it; the rules that share the node have an antecedent of the same
    label. When antecedents of the same label read the same variables, the rows of the
    network of valid rules are as BetaLaws.v says. *)
From stdpp Require Import base list strings gmap.
From Stdlib Require Import ZArith Lia.
From S2P Require Import Prelude GoText GoValue Records RuleCompiler RuleCompilerLaws ReteNetwork BetaNodes BetaLaws.
Local Open Scope string_scope.
Local Open Scope Z_scope.

#[local] Set Warnings "-register-all".

(** ** Where a node comes from *)

(** The node is the antecedent of a rule that was read up to it. *)
Definition is_antecedent (rules : list JetruleNode) (nodes : list ReteNode) (v : nat) (n : ReteNode) : Prop :=
  nd_Label n = rt_NormalizedLabel (nd_Term n) ∧
  ∃ rule i, rule ∈ rules ∧ Antecedents rule !! i = Some (nd_Term n) ∧ path nodes v v = Some (take (S i) (labels rule)).
Definition from_rules (rules : list JetruleNode) (nodes : list ReteNode) : Prop := ∀ v n, nodes !! v = Some n → v ≠ 0%nat → is_antecedent rules nodes v n.

Lemma path_later nodes nodes' : extends nodes nodes' → ∀ f v ls, path nodes f v = Some ls → path nodes' f v = Some ls.
Proof.
  intros Hext. induction f as [|f IH]; intros [|v] ls; try done. cbn [path]. destruct (nodes !! S v) as [n|] eqn:E; [|done]. cbn [mbind option_bind].
  destruct (Hext _ _ E) as (n' & -> & (_ & Ep & El & _)). cbn [mbind option_bind]. rewrite Ep, El.
  destruct (path nodes f (Z.to_nat (ParentVertex n))) as [ls'|] eqn:Er; [|done]. by rewrite (IH _ _ Er).
Qed.
Lemma from_rules_later rules rules' nodes nodes' v n n' : rules ⊆ rules' → extends nodes nodes' → later n n' →
  is_antecedent rules nodes v n → is_antecedent rules' nodes' v n'.
Proof.
  intros Hr Hext (_ & _ & El & _ & [= Et _]) (E & rule & i & Hin & Ha & Hp). split; [by rewrite El, Et|]. exists rule, i. split; [by apply Hr|]. rewrite Et. split; [done|].
  by apply (path_later nodes).
Qed.
Lemma child_path nodes v n p ls : nodes_ok nodes → nodes !! v = Some n → v ≠ 0%nat → ParentVertex n = Z.of_nat p → path nodes p p = Some ls →
  path nodes v v = Some (ls ++ [nd_Label n])%list.
Proof.
  intros Hok Hn Hv Ep Hp. destruct (no_tree _ Hok _ _ Hn) as [_ [?|Ht]]; [done|]. destruct v as [|v]; [done|]. cbn [path]. rewrite Hn. cbn [mbind option_bind].
  rewrite Ep, Nat2Z.id, (path_fuel nodes Hok p v p ls Hp) by lia. done.
Qed.

(** An antecedent of a rule is placed under the antecedents before it. *)
Lemma place_antecedent_from rules rule nodes s isLast p a i nodes' v : nodes_ok nodes → rule ∈ rules → Antecedents rule !! i = Some a →
  path nodes p p = Some (take i (labels rule)) → from_rules rules nodes → place_antecedent nodes s isLast p a = Ret (nodes', v) →
  nodes_ok nodes' ∧ from_rules rules nodes' ∧ path nodes' v v = Some (take (S i) (labels rule)).
Proof.
  intros Hok Hin Ha Hp Hfrom E. assert (Hlt : (p < length nodes)%nat).
  { unfold place_antecedent in E. destruct (nodes !! p) eqn:En; [|done]. by apply lookup_lt_Some in En. }
  destruct (place_antecedent_ok nodes s isLast p a Hok Hlt) as (nodes1 & n & E1 & Hok1 & Hext & _ & Hn). rewrite E in E1. injection E1 as <- ->.
  assert (Hlab : take (S i) (labels rule) = (take i (labels rule) ++ [rt_NormalizedLabel a])%list).
  { apply take_S_r. unfold labels. by rewrite list_lookup_fmap, Ha. }
  destruct (lookup_node_at _ _ _ _ _ _ Hok1 Hn) as (Hat & Hne & Epar & El & _).
  assert (Hpath : path nodes' (Vertex n) (Vertex n) = Some (take (S i) (labels rule))).
  { rewrite Hlab, <- El. apply (child_path nodes' _ n p); try done. by apply (path_later nodes). }
  split; [done|]. split; [|done]. intros v' n' Hn' Hv'. unfold place_antecedent in E. destruct (nodes !! p) as [q|]; [|done].
  fold (lookup_node nodes s isLast p (rt_NormalizedLabel a)) in E. destruct (lookup_node nodes s isLast p (rt_NormalizedLabel a)) as [m|]; [injection E as <- _; by apply Hfrom|].
  injection E as <- Ev. destruct (added_inv nodes p _ Hlt v' n' Hn') as [(n0 & Hn0 & Hl & _)|[-> ->]].
  - apply (from_rules_later rules rules nodes _ v' n0 n'); [done|done|done|]. by apply Hfrom.
  - split; [done|]. exists rule, i. split; [done|]. split; [done|]. by rewrite <- Ev in Hpath.
Qed.
Lemma place_antecedents_from rules rule s : rule ∈ rules → ∀ ants nodes i p nodes' vs v, nodes_ok nodes → drop i (Antecedents rule) = ants →
  path nodes p p = Some (take i (labels rule)) → from_rules rules nodes → place_antecedents nodes s p ants = Ret (nodes', vs, v) → from_rules rules nodes'.
Proof.
  intros Hin. induction ants as [|a ants IH]; intros nodes i p nodes' vs v Hok Hd Hp Hfrom; cbn [place_antecedents]; [by intros [= <- _ _]|].
  destruct (place_antecedent nodes s (bool_decide (ants = [])) p a) as [[nodes1 v1]| | |] eqn:E; [|done..]. cbn [res_bind].
  assert (Ha : Antecedents rule !! i = Some a) by (rewrite <- (Nat.add_0_r i), <- lookup_drop, Hd; done).
  destruct (place_antecedent_from rules rule nodes s _ p a i nodes1 v1 Hok Hin Ha Hp Hfrom E) as (Hok1 & Hfrom1 & Hp1).
  destruct (place_antecedents nodes1 s v1 ants) as [[[nodes2 vs2] v2]| | |] eqn:E2; [|done..]. cbn [res_bind]. intros [= <- _ _].
  apply (IH nodes1 (S i) v1 _ _ _ Hok1) in E2; [done| |done|done]. by rewrite <- Nat.add_1_r, <- drop_drop, Hd.
Qed.
Lemma add_rule_from rules net rule net' : net_ok rules net → from_rules rules (ReteNodes net) → add_rule net rule = Ret net' → from_rules (rules ++ [rule])%list (ReteNodes net').
Proof.
  intros Hnet Hfrom. pose proof (nk_nodes _ _ Hnet) as Hok. assert (Hsub : rules ⊆ (rules ++ [rule])%list) by (intros x Hx; apply elem_of_app; by left). unfold add_rule.
  destruct (place_antecedents (ReteNodes net) (Salience rule) 0 (Antecedents rule)) as [[[nodes vs] v]| | |] eqn:E; [|done..]. cbn [res_bind].
  destruct (nodes !! v) as [n|] eqn:Ev; [|done]. intros [= <-]. cbn [ReteNodes].
  assert (Hf : from_rules (rules ++ [rule])%list nodes).
  { apply (place_antecedents_from (rules ++ [rule])%list rule (Salience rule)) with (i := 0%nat) in E; try done; [apply elem_of_app; right; by apply list_elem_of_singleton|].
    intros w m Hm Hw. apply (from_rules_later rules _ (ReteNodes net) _ w m m); try done. by apply Hfrom. }
  intros w m Hm Hw. destruct (nodes !! w) as [m0|] eqn:Em; [|by rewrite ended_lookup, Em in Hm].
  destruct (ended_extends nodes v (ru_Name rule) (Salience rule) w m0 Em) as (m' & Hm' & Hl). rewrite Hm in Hm'. injection Hm' as <-.
  apply (from_rules_later (rules ++ [rule])%list _ nodes _ w m0); [done|by apply ended_extends|done|by apply Hf].
Qed.
Lemma BuildReteNetwork_from rules : ∃ net, BuildReteNetwork rules = Ret net ∧ net_ok rules net ∧ from_rules rules (ReteNodes net).
Proof.
  unfold BuildReteNetwork. change rules with ([] ++ rules)%list at 2 3. assert (H0 : from_rules [] [head_node]) by (by intros [|[|v]] n).
  change [head_node] with (ReteNodes (mkNetwork [head_node] ∅ [])) in H0. revert H0. generalize head_ok. generalize (mkNetwork [head_node] ∅ []). generalize (@nil JetruleNode).
  induction rules as [|r rules IH]; intros done net Hnet Hf; cbn [fold_res]; [exists net; by rewrite app_nil_r|].
  destruct (add_rule_ok done net r Hnet) as (net' & E & Hnet'). rewrite E. cbn [res_bind]. destruct (IH _ _ Hnet' (add_rule_from done net r net' Hnet Hf E)) as (net2 & E2 & H2).
  exists net2. split; [done|]. by rewrite <- app_assoc in H2.
Qed.

(** ** Valid rules bind what they read *)
Record rules_ok (rm : resources) (rules : list JetruleNode) : Prop := {
  ro_valid : ∀ rule, rule ∈ rules → ValidateJetruleNode rm rule = Ret true;
  ro_keys : ∀ rule, rule ∈ rules → keys_wf rm rule;
  ro_antecedents : ∀ rule a, rule ∈ rules → a ∈ Antecedents rule → wf_term rm a ∧ ObjectExpr a = None;
  ro_consequents : ∀ rule c, rule ∈ rules → c ∈ Consequents rule → wf_term rm c ∧ Filter c = None;
  ro_labels : ∀ rule rule' a a', rule ∈ rules → rule' ∈ rules → a ∈ Antecedents rule → a' ∈ Antecedents rule' →
    rt_NormalizedLabel a = rt_NormalizedLabel a' → ids rm a = ids rm a' }.

Lemma filters_ok_at {K} `{Countable K} (vars : RuleTerm → gset K) reads l bound i a : filters_ok vars reads bound l → l !! i = Some a →
  filter_ok reads (bound_by vars bound (take (S i) l)) a.
Proof.
  revert bound i. induction l as [|b l IH]; intros bound [|i]; [done..| |]; cbn [filters_ok]; intros [Hb Hl]; [by intros [= <-]|].
  intros Ha. change (take (S (S i)) (b :: l)) with (b :: take (S i) l). rewrite <- binds_bound_by. by apply IH.
Qed.
Lemma path_on nodes f v ls l : nodes_ok nodes → path nodes f v = Some ls → l ∈ ls → ∃ u n, anc nodes u v ∧ nodes !! u = Some n ∧ u ≠ 0%nat ∧ nd_Label n = l.
Proof.
  intros Hok. revert v ls. induction f as [|f IH]; intros [|v] ls; cbn [path]; [by intros [= <-] ?%not_elem_of_nil|done|by intros [= <-] ?%not_elem_of_nil|].
  destruct (nodes !! S v) as [n|] eqn:E; [|done]. cbn [mbind option_bind]. destruct (path nodes f (Z.to_nat (ParentVertex n))) as [ls'|] eqn:Ep; [|done].
  cbn [mbind option_bind]. intros [= <-] [Hl|Hl%list_elem_of_singleton]%elem_of_app; [|exists (S v), n; by eauto with rete].
  destruct (IH _ _ Ep Hl) as (u & m & Ha & Hm). exists u, m. split; [|done]. apply (anc_step _ _ _ _ Ha). unfold child_of. rewrite E. cbn. f_equal.
  destruct (no_tree _ Hok _ _ E) as [_ [?|?]]; [done|lia].
Qed.

Section valid.
Context (rm : resources) (rules : list JetruleNode) (net : Network).
Hypothesis Hpos : positive_keys rm.
Hypothesis Hrules : rules_ok rm rules.
Hypothesis Hnet : net_ok rules net.
Hypothesis Hfrom : from_rules rules (ReteNodes net).
Let nodes := ReteNodes net.
Let cons := consequentsByVertex net.

(** What the antecedents of a path bind is a variable of a node of the path. *)
Lemma path_binds rule ants u x : rule ∈ rules → ants ⊆ Antecedents rule → path nodes u u = Some (rt_NormalizedLabel <$> ants) → x ∈ bound_by (ids rm) ∅ ants →
  on_path rm nodes u x.
Proof.
  intros Hin Hsub Hp [?%not_elem_of_empty|(a & Ha & _ & Hx)]%elem_of_bound_by; [done|]. pose proof (nk_nodes _ _ Hnet) as Hok.
  destruct (path_on nodes u u _ (rt_NormalizedLabel a) Hok Hp) as (w & n & Hanc & Hn & Hw & El); [by apply list_elem_of_fmap_2|].
  exists w. split; [done|]. exists n. split; [done|]. destruct (Hfrom w n Hn Hw) as (El' & rule' & i & Hin' & Ha' & _).
  rewrite (ro_labels _ _ Hrules rule' rule (nd_Term n) a); [done|done|done|by eapply list_elem_of_lookup_2|by apply Hsub|congruence].
Qed.
Lemma consequent_from u c : c ∈ default [] (cons !! u) → ∃ rule, rule ∈ rules ∧ cn_Term c ∈ Consequents rule ∧ path nodes u u = Some (labels rule).
Proof.
  unfold cons. rewrite (nk_consequents _ _ Hnet u). rewrite list_elem_of_In, in_concat. intros (l & Hl%list_elem_of_In & Hc%list_elem_of_In). apply list_elem_of_fmap in Hl as (pr & -> & Hpr).
  apply list_elem_of_filter in Hpr as [Ev Hpr]. apply list_elem_of_lookup in Hpr as [i Hpr].
  destruct (Forall2_lookup_r _ _ _ _ _ (nk_rules _ _ Hnet) Hpr) as (rule & Hr & Hplaced). exists rule. split; [by eapply list_elem_of_lookup_2|]. split.
  - rewrite <- (ip_consequents _ _ _ Hplaced). by apply list_elem_of_fmap_2.
  - rewrite <- Ev. apply (walk_reads _ (Salience rule) (nk_nodes _ _ Hnet) (labels rule) 0 _ []); [done|by apply ip_walk].
Qed.
Lemma rule_valid rule : rule ∈ rules → rule_ok rm rule.
Proof.
  intros Hin. destruct (ValidateJetruleNode_wf rm rule (ro_keys _ _ Hrules rule Hin)) as (b & Eb & Hb). rewrite (ro_valid _ _ Hrules rule Hin) in Eb. injection Eb as <-. by apply Hb.
Qed.
Lemma valid_terms_wf : terms_wf rm nodes cons.
Proof.
  split.
  - intros u n Hn. destruct (decide (u = 0%nat)) as [->|Hu].
    + destruct (no_head _ (nk_nodes _ _ Hnet)) as (h & Hh & _ & [= Et _]). unfold nodes in Hn. rewrite Hn in Hh. injection Hh as <-. rewrite Et. unfold wf_term, keyed. cbn. repeat split; lia.
    + destruct (Hfrom u n Hn Hu) as (_ & rule & i & Hin & Ha & _). apply (ro_antecedents _ _ Hrules rule); [done|by eapply list_elem_of_lookup_2].
  - intros u c Hc. destruct (consequent_from u c Hc) as (rule & Hin & Hct & _). by apply (ro_consequents _ _ Hrules rule).
Qed.
Lemma valid_covered : covered rm nodes cons.
Proof.
  intros u x [(n & Hn & Hx)|(c & Hc & Hx)].
  - destruct (decide (u = 0%nat)) as [->|Hu].
    { destruct (no_head _ (nk_nodes _ _ Hnet)) as (h & Hh & _ & [= Et _]). unfold nodes in Hn. rewrite Hn in Hh. injection Hh as <-. by rewrite Et in Hx. }
    destruct (Hfrom u n Hn Hu) as (_ & rule & i & Hin & Ha & Hp). destruct (rule_valid rule Hin) as (_ & Hf & _).
    apply (path_binds rule (take (S i) (Antecedents rule))); [done| |by rewrite fmap_take|].
    { intros a. rewrite <- (take_drop (S i) (Antecedents rule)) at 2. rewrite elem_of_app. by left. }
    destruct (ro_antecedents _ _ Hrules rule (nd_Term n) Hin) as [_ Eo]; [by eapply list_elem_of_lookup_2|].
    pose proof (filters_ok_at _ _ _ _ _ _ Hf Ha) as Hfa. unfold filter_ok in Hfa. unfold term_reads in Hx. rewrite Eo in Hx.
    apply elem_of_union in Hx as [?%not_elem_of_empty|Hx]; [done|]. unfold opt_ids in Hx. destruct (Filter (nd_Term n)); [by apply Hfa|by apply not_elem_of_empty in Hx].
  - destruct (consequent_from u c Hc) as (rule & Hin & Hct & Hp). destruct (rule_valid rule Hin) as (_ & _ & _ & Hcs & _).
    apply (path_binds rule (Antecedents rule)); [done|done|done|]. destruct (proj1 (Forall_forall _ _) Hcs _ Hct) as [Hi He].
    destruct (ro_consequents _ _ Hrules rule (cn_Term c) Hin Hct) as [_ Ef]. unfold all_ids, term_reads in Hx. rewrite Ef, !elem_of_union in Hx.
    destruct Hx as [Hx|[Hx|Hx%not_elem_of_empty]]; [by apply Hi| |done]. unfold opt_ids in Hx. destruct (ObjectExpr (cn_Term c)); [by apply He|by apply not_elem_of_empty in Hx].
Qed.
End valid.

(** ** The network *)

(** The tree, then its rows. *)
Definition build_network (m : Manager) (rules : list JetruleNode) : res (Network * beta_state) :=
  let! net := BuildReteNetwork rules in let! st := BuildBetaNodes m net in Ret (net, st).

(** C33. The network of valid rules is built with its rows, and no internal error is logged.
    The row of a vertex has, once each, the variables of its path that its triple, a filter or
    a consequent at or below it, or a triple below it reads; what is pruned is what the row of
    its parent has besides. A variable of the triple is the place of the variable in the row
    of the parent when it is there, and otherwise a place in the triple itself that holds it;
    a variable of the filter or of a consequent is its place in the row of the vertex. *)
Theorem rows_of_valid_rules m rules : manager_ok m → rules_ok (ResourceByKey m) rules →
  ∃ net st, build_network m rules = Ret (net, st) ∧ bs_log st = [] ∧ ResourceByKey m ⊆ ResourceByKey (bs_manager st) ∧
    ∀ v n0 p, ReteNodes net !! v = Some n0 → child_of (ReteNodes net) p v →
      ∃ place n, vertex_done (ResourceByKey m) (ReteNodes net) (consequentsByVertex net) st p v n0 place n.
Proof.
  intros Hm Hrules. destruct (BuildReteNetwork_from rules) as (net & E & Hnet & Hfrom). pose proof (manager_positive m Hm) as Hpos. unfold build_network. rewrite E. cbn [res_bind].
  destruct (BuildBetaNodes_ok m net) as (st & Est & _ & Hsub & Hlog & Hdone); [apply Hnet|done|by apply (valid_terms_wf _ rules)|by apply (valid_covered _ rules)|].
  rewrite Est. by exists net, st.
Qed.

(** (?x01 owned_by ?x02).[is_resource(?x02)].(?x02 rdf:type person) -> (?x02 parked ?x01), and
    a rule that shares the first antecedent. *)
Definition row_manager : Manager := mkManager demo_resources ∅ 7.
Definition on_owner : rete_ExpressionNode := mkExpression "unary" "is_resource" (Some (mkExpression "identifier" "" None None None 2)) None None 0.
Definition owned : RuleTerm := mkTerm false "(?x01 owned_by ?x02).[is_resource(?x02)]" 1 3 2 None (Some on_owner).
Definition row_rules : list JetruleNode :=
  [mkJetrule "parking" ∅ true 40 [owned; mkTerm false "(?x02 rdf:type person)" 2 4 5 None None] [mkTerm false "(?x02 parked ?x01)" 2 7 1 None None] "" "" "" true;
   mkJetrule "owners" ∅ true 40 [owned; mkTerm true "not(?x02 barred person)" 2 6 5 None None] [mkTerm false "(?x02 rdf:type person)" 2 4 5 None None] "" "" "" true].
Lemma row_manager_ok : manager_ok row_manager.
Proof.
  split; [|done|done].
  assert (H : map_Forall (λ k _, 0 < k ≤ 7) demo_resources) by (by apply (bool_decide_eq_true_1 _); vm_compute). intros k r Hk. exact (H k r Hk).
Defined.
Ltac each_member := repeat match goal with H : _ ∈ _ :: _ |- _ => apply elem_of_cons in H as [ -> |H] | H : _ ∈ [] |- _ => by apply not_elem_of_nil in H end.
Lemma row_rules_ok : rules_ok demo_resources row_rules.
Proof.
  split; unfold row_rules.
  - intros rule Hr. each_member; by vm_compute.
  - intros rule Hr. each_member; (split; repeat (constructor; [repeat (constructor; try (by vm_compute)); by eexists|]); constructor).
  - intros rule a Hr Ha. each_member; cbn in Ha; each_member; (split; [|done]); repeat split; cbn; try done; intros; by eexists.
  - intros rule c Hr Hc. each_member; cbn in Hc; each_member; (split; [|done]); repeat split; cbn; try done; intros; by eexists.
  - intros rule rule' a a' Hr Hr' Ha Ha'. each_member; cbn in Ha, Ha'; each_member; cbn; done.
Defined.
Definition rows_built (built : res (Network * beta_state)) : list (list string) :=
  match built with Ret (_, st) => (BetaRelationVars ∘ nd_Beta) <$> bs_nodes st | _ => [] end.
Lemma row_rules_rows : rows_built (build_network row_manager row_rules) = [[]; ["?x01"; "?x02"]; ["?x01"; "?x02"]; ["?x02"]].
Proof. by vm_compute. Defined.
Lemma rows_of_valid_rules_witness : manager_ok row_manager ∧ rules_ok demo_resources row_rules ∧ ∃ net st, build_network row_manager row_rules = Ret (net, st) ∧
  (BetaRelationVars ∘ nd_Beta) <$> bs_nodes st = [[]; ["?x01"; "?x02"]; ["?x01"; "?x02"]; ["?x02"]] ∧ bs_log st = [].
Proof.
  split; [exact row_manager_ok|]. split; [exact row_rules_ok|].
  destruct (rows_of_valid_rules row_manager row_rules row_manager_ok row_rules_ok) as (net & st & E & Hlog & _). exists net, st. split; [exact E|]. split; [|exact Hlog].
  rewrite <- row_rules_rows, E. reflexivity.
Defined.
