(* ===== verification/ExecutionRecord.v ===== *)
(** * The execution record and its detectors

    What the agentic services read of a run (src/jets/agentic/observe): the tables of the
    execution record, the queries on them as functions of their rows, the configuration a run
    left behind, and the two detectors with the anomalies they insert.

    A table that is not deployed has no rows to give, and a query on it fails. An instant is
    the nanoseconds since the first of January of year 1, so that the zero time is 0. The
    column that holds a configuration is what json.Unmarshal makes of its text. A text that
    only a person reads (a basis, a note) is represented by its opening words. *)
From stdpp Require Import base list strings gmap sorting.
From Stdlib Require Import ZArith Lia SpecFloat.
From S2P Require Import Prelude GoFloat GoText.
Local Open Scope string_scope.
Local Open Scope Z_scope.

#[local] Set Warnings "-register-all".

Abbreviation instant := Z.

(** ** Tables *)

(** A JSON document, decoded: a number is a float64. *)
Inductive doc :=
| DNull
| DBool (b : bool)
| DNum (f : float64)
| DStr (s : string)
| DArr (l : list doc)
| DObj (members : list (string * doc)).
Inductive config_column := EmptyConfig | NotJson | Config (d : doc).

Record status_row := mkStatusRow {
  sr_key : Z; sr_session_id : string; sr_client : string; sr_process_name : string; sr_main_object_type : string;
  sr_status : string; sr_failure_details : option string; sr_start_time : instant; sr_last_update : instant }.
Record details_row := mkDetailsRow {
  dr_key : Z; dr_status_key : Z; dr_session_id : string; dr_client : string; dr_process_name : string;
  dr_source_period_key : Z; dr_shard_id : Z; dr_jets_partition : string; dr_cpipes_step_id : option string;
  dr_status : string; dr_error_message : option string;
  dr_input_records : option Z; dr_input_bad_records : option Z; dr_input_files_count : option Z;
  dr_input_files_size_mb : option Z; dr_rete_sessions : option Z; dr_output_records : option Z;
  dr_start_time : instant; dr_last_update : instant }.
Record channel_row := mkChannelRow {
  cr_key : Z; cr_details_key : Z; cr_session_id : string; cr_input_channel : string; cr_output_channel : string;
  cr_output_type : string; cr_output_entity : string; cr_output_location : string; cr_sinks_count : Z;
  cr_output_records : option Z; cr_error_message : option string }.
Record error_row := mkErrorRow {
  er_session_id : string; er_shard_id : Z; er_input_column : option string; er_rete_session_saved : option string; er_last_update : instant }.

(** One row of jetsapi.anomaly. *)
Record Anomaly := mkAnomaly {
  an_AnomalyId : string; an_DetectedAt : instant; an_SessionId : string; an_SubjectType : string; an_SubjectRef : string;
  an_SignalType : string; an_ObservedValue : string; an_ExpectedMin : option string; an_ExpectedMax : option string;
  an_ExpectedBasis : string; an_DeviationMagnitude : option float64; an_Confounders : list string; an_DetectorRef : string }.

(** The tables of the schema, each of them deployed or not. *)
Record tables := mkTables {
  execution_status : option (list status_row); execution_details : option (list details_row);
  channel_details : option (list channel_row); process_errors : option (list error_row);
  cpipes_execution_status : option (list (string * config_column)); anomaly : option (list Anomaly) }.
Definition no_relation : string := "relation does not exist".
Definition query {A} (t : option (list A)) : res (list A) := match t with Some rows => Ret rows | None => Fail no_relation end.
Definition deployed {A} (t : option A) : bool := match t with Some _ => true | None => false end.

(** ** Vocabularies *)
Definition SignalVolume := "volume".
Definition SignalStepRegression := "step_regression".
Definition SignalWorkerStall := "worker_stall".
Definition SignalArrival := "arrival".
Definition SignalRejectionRate := "rejection_rate".
Definition signalTypes : list string :=
  [SignalVolume; "freshness"; "schema"; "distribution"; "rule_breach"; "cost"; "duration"; SignalRejectionRate; "cardinality";
   "referential"; SignalStepRegression; SignalWorkerStall; SignalArrival].
Definition SubjectWorker := "worker".
Definition subjectTypes : list string := ["feed"; "pipeline"; "stage"; "run"; "table"; "column"; SubjectWorker; "edge"].

Definition ConfounderParseErrorsOnly := "parse_errors_only".
Definition ConfounderParquetInput := "parquet_input".
Definition ConfounderOnErrorDrop := "on_error_drop".
Definition ConfounderMaxInputCount := "max_input_count".
Definition ConfounderSamplingCap := "sampling_cap".
Definition ConfounderDeviceWriterOutput := "device_writer_output".
Definition ConfounderMergeRowCountUnknown := "merge_row_count_unknown".
Definition ConfounderStepLabelAmbiguous := "step_label_ambiguous".
Definition ConfounderStallCauseUnknown := "stall_cause_unknown".
Definition ConfounderCrossStepJoinUnavailable := "cross_step_join_unavailable".
Definition ConfounderHistoryTruncated := "history_truncated".
Definition ConfounderNoPhysicalLocation := "no_physical_location".
Definition ConfounderStagePrefixReused := "stage_prefix_reused".
Definition ConfounderLocationAimedNotReached := "location_aimed_not_reached".
Definition confounders : list string :=
  [ConfounderParseErrorsOnly; ConfounderParquetInput; ConfounderOnErrorDrop; ConfounderMaxInputCount; ConfounderSamplingCap;
   ConfounderDeviceWriterOutput; ConfounderMergeRowCountUnknown; ConfounderStepLabelAmbiguous; ConfounderStallCauseUnknown;
   ConfounderCrossStepJoinUnavailable; ConfounderHistoryTruncated; ConfounderNoPhysicalLocation; ConfounderStagePrefixReused;
   ConfounderLocationAimedNotReached].
Definition contains (l : list string) (s : string) : bool := existsb (String.eqb s) l.
Definition IsConfounder (name : string) : bool := contains confounders name.

Definition StatusInProgress := "in progress".
Definition StatusCompleted := "completed".
Definition StatusFailed := "failed".
Definition terminalRunStatuses : list string := ["completed"; "failed"; "timed_out"; "recovered"; "interrupted"; "errors"].

(** ** Windows and the extent of the record *)
Record Window := mkWindow { w_Since : instant; w_Until : instant; w_Client : string; w_ProcessName : string; w_SessionId : string; w_Limit : Z }.
Definition until (now : instant) (w : Window) : instant := if w_Until w =? 0 then now else w_Until w.
Definition optional (want got : string) : bool := String.eqb want "" || String.eqb got want.
Definition in_window (now : instant) (w : Window) (d : details_row) : bool :=
  (w_Since w <=? dr_start_time d) && (dr_start_time d <? until now w) && optional (w_Client w) (dr_client d) && optional (w_ProcessName w) (dr_process_name d).

Record Extent := mkExtent {
  Headers : Z; OldestHeader : instant; OldestWorker : instant; ExecutionRecord : bool; ChannelDetails : bool; Anomalies : bool }.
(** [min] of a column, or the zero time of no rows. *)
Definition oldest (l : list instant) : instant := match l with [] => 0 | t :: l' => foldr Z.min t l' end.
Definition ReadExtent (db : tables) : Extent :=
  match execution_status db, execution_details db with
  | Some headers, Some workers =>
      mkExtent (Z.of_nat (length headers)) (oldest (sr_start_time <$> headers)) (oldest (dr_start_time <$> workers)) true
        (deployed (channel_details db)) (deployed (anomaly db))
  | _, _ => mkExtent 0 0 0 false (deployed (channel_details db)) (deployed (anomaly db))
  end.

(** ** Worker rows *)
Record WorkerRow := mkWorkerRow {
  wr_Key : Z; wr_ExecutionStatusKey : Z; wr_SessionId : string; wr_Client : string; wr_ProcessName : string; wr_SourcePeriodKey : Z;
  wr_ShardId : Z; wr_JetsPartition : string; wr_StepId : string; wr_Status : string; wr_ErrorMessage : string;
  wr_InputRecords : option Z; wr_InputBadRecords : option Z; wr_InputFilesCount : option Z; wr_InputFilesSizeMb : option Z;
  wr_ReteSessions : option Z; wr_OutputRecords : option Z; wr_StartTime : instant; wr_LastUpdate : instant;
  wr_HasHeader : bool; wr_MainObjectType : string; wr_RunStatus : string }.
Definition header_of (headers : list status_row) (d : details_row) : option status_row := List.find (λ h, sr_key h =? dr_status_key d) headers.
(** The left join of workersSQL. *)
Definition worker_of (headers : list status_row) (d : details_row) : WorkerRow :=
  let h := header_of headers d in
  mkWorkerRow (dr_key d) (dr_status_key d) (dr_session_id d) (dr_client d) (dr_process_name d) (dr_source_period_key d) (dr_shard_id d)
    (dr_jets_partition d) (default "" (dr_cpipes_step_id d)) (dr_status d) (default "" (dr_error_message d)) (dr_input_records d)
    (dr_input_bad_records d) (dr_input_files_count d) (dr_input_files_size_mb d) (dr_rete_sessions d) (dr_output_records d)
    (dr_start_time d) (dr_last_update d) (deployed h) (from_option sr_main_object_type "" h) (from_option sr_status "" h).
Definition Stalled (w : WorkerRow) : bool := wr_HasHeader w && String.eqb (wr_Status w) StatusInProgress && contains terminalRunStatuses (wr_RunStatus w).

Record WorkerSet := mkWorkerSet { ws_Window : Window; ws_Rows : list WorkerRow; ws_Headerless : Z; ws_Truncated : bool }.
Definition started_before (a b : details_row) : Prop := dr_start_time a < dr_start_time b ∨ (dr_start_time a = dr_start_time b ∧ dr_key a ≤ dr_key b).
#[global] Instance started_before_dec : RelDecision started_before.
Proof. intros a b. unfold started_before. apply _. Defined.
Definition headerless (rows : list WorkerRow) : Z := Z.of_nat (length (List.filter (λ r, negb (wr_HasHeader r)) rows)).
Definition Workers (db : tables) (now : instant) (w : Window) : res WorkerSet :=
  let! details := query (execution_details db) in
  let! headers := query (execution_status db) in
  let selected := merge_sort started_before (List.filter (λ d, in_window now w d && optional (w_SessionId w) (dr_session_id d)) details) in
  let read := if 0 <? w_Limit w then take (Z.to_nat (w_Limit w + 1)) selected else selected in
  let rows := worker_of headers <$> read in
  if (0 <? w_Limit w) && (w_Limit w <? Z.of_nat (length rows))
  then let kept := take (Z.to_nat (w_Limit w)) rows in Ret (mkWorkerSet w kept (headerless kept) true)
  else Ret (mkWorkerSet w rows (headerless rows) false).

(** ** The history of a step *)
Record StepBaseline := mkBaseline {
  b_Client : string; b_ProcessName : string; b_MainObjectType : string; b_StepId : string; b_Runs : Z; b_Workers : Z; b_Completed : Z;
  b_Failed : Z; b_InProgress : Z; b_FirstSeen : instant; b_LastSeen : instant; b_LastSuccess : option instant; b_LastFailure : option instant;
  b_Confounders : list string }.
Record BaselineSet := mkBaselineSet { bs_Window : Window; bs_Baselines : list StepBaseline; bs_Headerless : Z; bs_Extent : option Extent }.
Definition bs_Truncated (s : BaselineSet) : bool :=
  match bs_Extent s with Some e => negb (OldestWorker e =? 0) && (w_Since (bs_Window s) <? OldestWorker e) | None => false end.
Definition EverSucceeded (b : StepBaseline) : bool := 0 <? b_Completed b.
Definition baselineConfounders (stepId : string) (set : BaselineSet) : list string :=
  ((if String.eqb stepId "" then [ConfounderStepLabelAmbiguous] else []) ++
   (if (0 <? bs_Headerless set) || bs_Truncated set then [ConfounderHistoryTruncated] else []) ++
   (match bs_Extent set with Some e => if negb (ChannelDetails e) then [ConfounderCrossStepJoinUnavailable] else [] | None => [] end))%list.

(** The source of a row: client, process, object type and step. *)
Abbreviation source := (string * string * string * string)%type.
Definition baseline_source (d : details_row) (h : status_row) : source :=
  (dr_client d, dr_process_name d, sr_main_object_type h, default "" (dr_cpipes_step_id d)).
(** The inner join of stepBaselineSQL: the rows that have a header, with their source. *)
Definition joined_rows (headers : list status_row) (rows : list details_row) : list (source * details_row) :=
  omap (λ d, h ← header_of headers d; Some (baseline_source d h, d)) rows.
Definition source_le (a b : source) : Prop :=
  let '(a1, a2, a3, a4) := a in let '(b1, b2, b3, b4) := b in
  match String.compare a1 b1, String.compare a2 b2, String.compare a3 b3 with
  | Lt, _, _ => True | Gt, _, _ => False
  | Eq, Lt, _ => True | Eq, Gt, _ => False
  | Eq, Eq, Lt => True | Eq, Eq, Gt => False
  | Eq, Eq, Eq => String.leb a4 b4 = true
  end.
#[global] Instance source_le_dec : RelDecision source_le.
Proof. intros [[[a1 a2] a3] a4] [[[b1 b2] b3] b4]. unfold source_le. repeat case_match; apply _. Defined.
Definition with_status (status : string) (rows : list details_row) : list details_row := List.filter (λ d, String.eqb (dr_status d) status) rows.
Definition latest (l : list instant) : option instant := match l with [] => None | t :: l' => Some (foldr Z.max t l') end.
Definition baseline_of (set : BaselineSet) (s : source) (rows : list details_row) : StepBaseline :=
  let '(client, process, objectType, step) := s in
  let count status := Z.of_nat (length (with_status status rows)) in
  mkBaseline client process objectType step (Z.of_nat (length (remove_dups (dr_status_key <$> rows)))) (Z.of_nat (length rows))
    (count StatusCompleted) (count StatusFailed) (count StatusInProgress) (oldest (dr_start_time <$> rows)) (default 0 (latest (dr_start_time <$> rows)))
    (latest (dr_start_time <$> with_status StatusCompleted rows)) (latest (dr_start_time <$> with_status StatusFailed rows))
    (baselineConfounders step set).
(** GROUP BY source, ORDER BY source. *)
Definition group_rows (s : source) (l : list (source * details_row)) : list details_row := snd <$> List.filter (λ sd, bool_decide (sd.1 = s)) l.
Definition StepBaselines (db : tables) (now : instant) (w : Window) : res BaselineSet :=
  let extent := ReadExtent db in
  let! details := query (execution_details db) in
  let! headers := query (execution_status db) in
  let rows := List.filter (in_window now w) details in
  let set := mkBaselineSet w [] (Z.of_nat (length (List.filter (λ d, negb (deployed (header_of headers d))) rows))) (Some extent) in
  let groups := joined_rows headers rows in
  let sources := merge_sort source_le (remove_dups (groups.*1)) in
  Ret (mkBaselineSet w ((λ s, baseline_of set s (group_rows s groups)) <$> sources) (bs_Headerless set) (bs_Extent set)).

(** ** The configuration of a run *)
Record ConfigConfounders := mkConfigConfounders { cc_SessionId : string; cc_Read : bool; cc_Found : list string; cc_Note : string }.
Definition Has (c : option ConfigConfounders) (name : string) : bool := match c with Some c => cc_Read c && contains (cc_Found c) name | None => false end.
Definition Bearing (c : option ConfigConfounders) (want : list string) : list string := List.filter (Has c) want.
Definition positiveNumber (v : doc) : bool := match v with DNum f => f64_lt (f64_of_Z 0) f | _ => false end.
(** What one member of an object says. *)
Definition member_says (k : string) (v : doc) : list string :=
  if String.eqb k "on_error" then match v with DStr s => if String.eqb s "drop" then [ConfounderOnErrorDrop] else [] | _ => [] end
  else if String.eqb k "max_input_count" then if positiveNumber v then [ConfounderMaxInputCount] else []
  else if String.eqb k "sampling_max_count" then if positiveNumber v then [ConfounderSamplingCap] else []
  else if String.eqb k "device_writer_type" then match v with DStr s => if negb (String.eqb s "") then [ConfounderDeviceWriterOutput] else [] | _ => [] end
  else if String.eqb k "format" then match v with DStr s => if contains ["parquet"; "parquet_select"] s then [ConfounderParquetInput] else [] | _ => [] end
  else [].
Fixpoint scan (node : doc) : list string :=
  match node with
  | DObj members => (fix go l := match l with [] => [] | (k, v) :: l' => member_says k v ++ scan v ++ go l' end) members
  | DArr l => (fix go l := match l with [] => [] | v :: l' => scan v ++ go l' end) l
  | _ => []
  end%list.
Definition scanConfigConfounders (d : doc) : list string :=
  List.filter (contains (scan d))
    [ConfounderOnErrorDrop; ConfounderMaxInputCount; ConfounderSamplingCap; ConfounderDeviceWriterOutput; ConfounderParquetInput].
Definition ReadConfigConfounders (db : tables) (sessionId : string) : res ConfigConfounders :=
  let unread note := Ret (mkConfigConfounders sessionId false [] note) in
  if String.eqb sessionId "" then unread "no session id, so no configuration was read"
  else
    let! rows := query (cpipes_execution_status db) in
    match List.find (λ r, String.eqb r.1 sessionId) rows with
    | None => unread "no cpipes_execution_status row for session %q"
    | Some (_, EmptyConfig) => unread "session %q has an empty cpipes_config_json"
    | Some (_, NotJson) => unread "session %q has a cpipes_config_json that does not parse"
    | Some (_, Config d) => Ret (mkConfigConfounders sessionId true (scanConfigConfounders d) "configuration read from cpipes_execution_status")
    end.

(** ** Anomalies *)
Definition Anomaly_Validate (a : Anomaly) : option string :=
  if String.eqb (an_AnomalyId a) "" then Some "anomaly_id is required"
  else if String.eqb (an_SessionId a) "" then Some "anomaly_session_id is required"
  else if String.eqb (an_SubjectRef a) "" then Some "anomaly_subject_ref is required"
  else if String.eqb (an_ObservedValue a) "" then Some "anomaly_observed_value is required"
  else if String.eqb (an_ExpectedBasis a) "" then Some "anomaly_expected_basis is required"
  else if String.eqb (an_DetectorRef a) "" then Some "anomaly_detector_ref is required"
  else if negb (contains signalTypes (an_SignalType a)) then Some "anomaly_signal_type %q is not in the vocabulary"
  else if negb (contains subjectTypes (an_SubjectType a)) then Some "anomaly_subject_type %q is not in the vocabulary"
  else if negb (forallb IsConfounder (an_Confounders a)) then Some "anomaly_confounders holds %q, which is not in the vocabulary"
  else None.
Definition set_anomalies (db : tables) (t : option (list Anomaly)) : tables :=
  mkTables (execution_status db) (execution_details db) (channel_details db) (process_errors db) (cpipes_execution_status db) t.
Definition stamped (now : instant) (a : Anomaly) : Anomaly :=
  mkAnomaly (an_AnomalyId a) (if an_DetectedAt a =? 0 then now else an_DetectedAt a) (an_SessionId a) (an_SubjectType a) (an_SubjectRef a)
    (an_SignalType a) (an_ObservedValue a) (an_ExpectedMin a) (an_ExpectedMax a) (an_ExpectedBasis a) (an_DeviationMagnitude a) (an_Confounders a)
    (an_DetectorRef a).
(** ON CONFLICT (anomaly_id) DO NOTHING: the state, and whether the row is new. *)
Definition InsertAnomalyIfNew (db : tables) (now : instant) (a : Anomaly) : res (tables * bool) :=
  match Anomaly_Validate a with
  | Some e => Fail e
  | None =>
      let! rows := query (anomaly db) in
      if existsb (λ b, String.eqb (an_AnomalyId b) (an_AnomalyId a)) rows then Ret (db, false)
      else Ret (set_anomalies db (Some (rows ++ [stamped now a])%list), true)
  end.
Definition detected_before (a b : Anomaly) : Prop :=
  an_DetectedAt a < an_DetectedAt b ∨ (an_DetectedAt a = an_DetectedAt b ∧ String.leb (an_AnomalyId a) (an_AnomalyId b) = true).
#[global] Instance detected_before_dec : RelDecision detected_before.
Proof. intros a b. unfold detected_before. apply _. Defined.
Definition ReadAnomalies (db : tables) (sessionId : string) : res (list Anomaly) :=
  let! rows := query (anomaly db) in Ret (merge_sort detected_before (List.filter (λ a, String.eqb (an_SessionId a) sessionId) rows)).

(** ** The detectors *)
Record obs_Evidence := mkObsEvidence {
  oe_Extent : option Extent; oe_Workers : option WorkerSet; oe_Prior : option BaselineSet; oe_Configs : gmap string (option ConfigConfounders) }.
(** The configuration of a session: a missing entry and a nil one read alike. *)
Definition config_of (ev : obs_Evidence) (sessionId : string) : option ConfigConfounders := default None (oe_Configs ev !! sessionId).
Definition read_configs (db : tables) (configs : gmap string (option ConfigConfounders)) (rows : list WorkerRow) : res (gmap string (option ConfigConfounders)) :=
  foldl (λ acc r, let! configs := acc in
    if bool_decide (is_Some (configs !! wr_SessionId r)) then Ret configs
    else let! cc := ReadConfigConfounders db (wr_SessionId r) in Ret (<[wr_SessionId r := Some cc]> configs)) (Ret configs) rows.
Definition obs_Gather (db : tables) (now : instant) (detect : Window) (baselineFor : Z) : res obs_Evidence :=
  let! workers := Workers db now detect in
  let! prior :=
    if 0 <? baselineFor then
      let! b := StepBaselines db now (mkWindow (w_Since detect - baselineFor) (w_Since detect) (w_Client detect) (w_ProcessName detect) "" 0) in Ret (Some b)
    else Ret None in
  let! configs := read_configs db ∅ (ws_Rows workers) in
  Ret (mkObsEvidence (Some (ReadExtent db)) (Some workers) prior configs).

Record VolumeCollapse := mkVolumeCollapse { MinRatio : float64; MinInput : Z; vc_Generation : Z }.
Definition half : float64 := f64_div (f64_of_Z 1) (f64_of_Z 2).
Definition DefaultVolumeCollapse : VolumeCollapse := mkVolumeCollapse half 1000 1.
Definition volume_Ref (d : VolumeCollapse) : string := "volume_collapse@" +:+ Itoa (vc_Generation d).
Definition VolumeCollapseConfounders : list string := [ConfounderOnErrorDrop; ConfounderMaxInputCount; ConfounderSamplingCap; ConfounderDeviceWriterOutput].
Definition recordConfounders (r : WorkerRow) (workers : WorkerSet) (extent : option Extent) : list string :=
  ((if String.eqb (wr_StepId r) "" then [ConfounderStepLabelAmbiguous] else []) ++
   (if ws_Truncated workers then [ConfounderHistoryTruncated] else []) ++
   (match extent with Some e => if negb (ChannelDetails e) then [ConfounderCrossStepJoinUnavailable] else [] | None => [] end))%list.
Definition volume_basis (cc : option ConfigConfounders) : string :=
  "worker row %d of session %s, step %s, shard %d" +:+
  match cc with
  | None => ". No configuration was consulted"
  | Some c => ". " +:+ cc_Note c +:+ (if cc_Read c && (length (Bearing cc VolumeCollapseConfounders) =? 0)%nat then "; none of on_error: drop" else "")
  end.
(** The counts of a row whose output collapsed. *)
Definition collapsed (d : VolumeCollapse) (r : WorkerRow) : option (Z * Z * float64) :=
  if negb (String.eqb (wr_Status r) StatusCompleted) then None
  else match wr_InputRecords r, wr_OutputRecords r with
    | Some read, Some got =>
        if read <? MinInput d then None
        else let ratio := f64_div (f64_of_Z got) (f64_of_Z read) in if f64_le (MinRatio d) ratio then None else Some (read, got, ratio)
    | _, _ => None
    end.
Definition volume_anomaly `{GoArch} (d : VolumeCollapse) (now : instant) (ev : obs_Evidence) (workers : WorkerSet) (r : WorkerRow) : option Anomaly :=
  '(read, got, ratio) ← collapsed d r;
  let cc := config_of ev (wr_SessionId r) in
  Some (mkAnomaly (volume_Ref d +:+ "/" +:+ Itoa (wr_Key r)) now (wr_SessionId r) SubjectWorker (Itoa (wr_Key r)) SignalVolume (Itoa got)
          (Some (Itoa (f64_to_i64 (f64_mul (MinRatio d) (f64_of_Z read))))) None (volume_basis cc) (Some (f64_sub (f64_of_Z 1) ratio))
          (recordConfounders r workers (oe_Extent ev) ++ Bearing cc VolumeCollapseConfounders) (volume_Ref d))%list.
Definition volume_Detect `{GoArch} (d : VolumeCollapse) (now : instant) (ev : obs_Evidence) : list Anomaly :=
  match oe_Workers ev with Some workers => omap (volume_anomaly d now ev workers) (ws_Rows workers) | None => [] end.

Record StepRegression := mkStepRegression { MinPriorRuns : Z; sg_Generation : Z }.
Definition DefaultStepRegression : StepRegression := mkStepRegression 3 1.
Definition regression_Ref (d : StepRegression) : string := "step_regression@" +:+ Itoa (sg_Generation d).
Definition NUL : string := String (Ascii.ascii_of_nat 0) "".
Definition baselineKey (client process objectType stepId : string) : string := client +:+ NUL +:+ process +:+ NUL +:+ objectType +:+ NUL +:+ stepId.
Definition baseline_index (prior : BaselineSet) : gmap string StepBaseline :=
  foldl (λ m b, <[baselineKey (b_Client b) (b_ProcessName b) (b_MainObjectType b) (b_StepId b) := b]> m) ∅ (bs_Baselines prior).
Definition regression_basis (b : StepBaseline) : string :=
  "worker row %d of session %s failed" +:+ (if deployed (b_LastSuccess b) then "; the step last completed at %s" else "") +:+
  (if 0 <? b_Failed b then "; it had already failed %d times in that window" else "").
Definition regression_anomaly (d : StepRegression) (now : instant) (index : gmap string StepBaseline) (r : WorkerRow) : option Anomaly :=
  if negb (String.eqb (wr_Status r) StatusFailed) || negb (wr_HasHeader r) then None
  else
    b ← index !! baselineKey (wr_Client r) (wr_ProcessName r) (wr_MainObjectType r) (wr_StepId r);
    if negb (EverSucceeded b) || (b_Runs b <? MinPriorRuns d) then None
    else Some (mkAnomaly (regression_Ref d +:+ "/" +:+ Itoa (wr_Key r)) now (wr_SessionId r) SubjectWorker (Itoa (wr_Key r)) SignalStepRegression StatusFailed
                 None None (regression_basis b) None (b_Confounders b) (regression_Ref d)).
Definition own_precedent : string := "the baseline window ends at %s, after the detection window opens at %s: a baseline that contains the run being judged makes this run its own precedent".
Definition regression_Detect (d : StepRegression) (now : instant) (ev : obs_Evidence) : res (list Anomaly) :=
  match oe_Workers ev, oe_Prior ev with
  | Some current, Some prior =>
      if w_Since (ws_Window current) <? until now (bs_Window prior) then Fail own_precedent
      else Ret (omap (regression_anomaly d now (baseline_index prior)) (ws_Rows current))
  | _, _ => Ret []
  end.

(** ** A run of the detectors *)
Record detect_flags := mkFlags {
  fl_since : Z; fl_baseline : Z; fl_client : string; fl_process : string; fl_session : string; fl_dryRun : bool;
  fl_minRatio : float64; fl_minInput : Z; fl_minPriorRuns : Z; fl_generation : Z }.
(** What is found, written and already recorded. *)
Record summary := mkSummary { Found : Z; Written : Z; Already : Z }.
Definition insert_all (now : instant) (dryRun : bool) (st : tables * summary) (found : list Anomaly) : res (tables * summary) :=
  foldl (λ acc a, let! st := acc in
    if dryRun then Ret st
    else let! r := InsertAnomalyIfNew st.1 now a in
      Ret (r.1, if r.2 then mkSummary (Found st.2) (Written st.2 + 1) (Already st.2) else mkSummary (Found st.2) (Written st.2) (Already st.2 + 1))) (Ret st) found.
Definition detect_window (fl : detect_flags) (now : instant) : Window := mkWindow (now - fl_since fl) 0 (fl_client fl) (fl_process fl) (fl_session fl) 0.
Definition doJob `{GoArch} (db : tables) (now : instant) (fl : detect_flags) : res (tables * summary) :=
  let! ev := obs_Gather db now (detect_window fl now) (fl_baseline fl) in
  let! reg := match oe_Prior ev with Some _ => regression_Detect (mkStepRegression (fl_minPriorRuns fl) (fl_generation fl)) now ev | None => Ret [] end in
  let found := (volume_Detect (mkVolumeCollapse (fl_minRatio fl) (fl_minInput fl) (fl_generation fl)) now ev ++ reg)%list in
  insert_all now (fl_dryRun fl) (db, mkSummary (Z.of_nat (length found)) 0 0) found.
Definition detect_run `{GoArch} (db : tables) (now : instant) (fl : detect_flags) : res (tables * summary) :=
  let extent := ReadExtent db in
  if negb (ExecutionRecord extent) then Fail "jetsapi.pipeline_execution_status and jetsapi.pipeline_execution_details are not both present in this database"
  else if negb (Anomalies extent) then Fail "jetsapi.anomaly does not exist in this database"
  else doJob db now fl.
