(* ===== verification/Triage.v ===== *)
(** * Triage of a run

    The classification of one run into the nine loci (src/jets/agentic/triage): the evidence
    that is gathered from the execution record, and the nine predicates on it, each of which
    is present, absent, or could not be asked. *)
From stdpp Require Import base list strings gmap sorting.
From Stdlib Require Import ZArith Lia SpecFloat.
From S2P Require Import Prelude GoFloat GoText ExecutionRecord.
Local Open Scope string_scope.
Local Open Scope Z_scope.

#[local] Set Warnings "-register-all".

(** ** The evidence *)
Record triage_Extent := mkTriageExtent { te_Extent : Extent; ProcessErrors : bool; CpipesStatus : bool }.
Definition triage_ReadExtent (db : tables) : triage_Extent := mkTriageExtent (ReadExtent db) (deployed (process_errors db)) (deployed (cpipes_execution_status db)).

Record RunHeader := mkRunHeader {
  rh_Key : Z; rh_SessionId : string; rh_Client : string; rh_ProcessName : string; rh_MainObjectType : string; rh_Status : string;
  rh_FailureDetails : string; rh_StartTime : instant; rh_LastUpdate : instant }.
Definition header_Terminal (h : RunHeader) : bool := contains terminalRunStatuses (rh_Status h).
Definition run_header (h : status_row) : RunHeader :=
  mkRunHeader (sr_key h) (sr_session_id h) (sr_client h) (sr_process_name h) (sr_main_object_type h) (sr_status h)
    (default "" (sr_failure_details h)) (sr_start_time h) (sr_last_update h).
Definition ReadHeader (db : tables) (sessionId : string) : res (option RunHeader) :=
  let! rows := query (execution_status db) in Ret (run_header <$> List.find (λ h, String.eqb (sr_session_id h) sessionId) rows).

Record ErrorSummary := mkErrorSummary { es_Rows : Z; es_Shards : Z; WithInputColumn : Z; WithReteSession : Z; es_First : instant; es_Last : instant }.
Definition filled (o : option string) : bool := negb (String.eqb (default "" o) "").
Definition ReadErrorSummary (db : tables) (sessionId : string) : res ErrorSummary :=
  let! rows := query (process_errors db) in
  let mine := List.filter (λ e, String.eqb (er_session_id e) sessionId) rows in
  let count p := Z.of_nat (length (List.filter p mine)) in
  Ret (mkErrorSummary (Z.of_nat (length mine)) (Z.of_nat (length (remove_dups (er_shard_id <$> mine)))) (count (filled ∘ er_input_column))
    (count (filled ∘ er_rete_session_saved)) (oldest (er_last_update <$> mine)) (default 0 (latest (er_last_update <$> mine)))).

Record Edge := mkEdge {
  ed_Key : Z; ed_ParentKey : Z; ed_SessionId : string; ed_InputChannel : string; ed_OutputChan : string; ed_OutputType : string;
  ed_OutputEntity : string; ed_OutputLocation : string; ed_SinksCount : Z; ed_OutputRecords : option Z; ed_ErrorMessage : string;
  ed_ParentStatus : string; ed_ParentStepId : string; ed_ParentShard : option Z }.
Definition edge_of (details : list details_row) (c : channel_row) : Edge :=
  let parent := List.find (λ d, dr_key d =? cr_details_key c) details in
  mkEdge (cr_key c) (cr_details_key c) (cr_session_id c) (cr_input_channel c) (cr_output_channel c) (cr_output_type c) (cr_output_entity c)
    (cr_output_location c) (cr_sinks_count c) (cr_output_records c) (default "" (cr_error_message c)) (from_option dr_status "" parent)
    (default "" (parent ≫= dr_cpipes_step_id)) (dr_shard_id <$> parent).
Definition edge_key_le (a b : channel_row) : Prop := cr_key a ≤ cr_key b.
#[global] Instance edge_key_le_dec : RelDecision edge_key_le.
Proof. intros a b. unfold edge_key_le. apply _. Defined.
Definition ReadEdges (db : tables) (sessionId : string) : res (list Edge) :=
  let! rows := query (channel_details db) in
  let! details := query (execution_details db) in
  Ret (edge_of details <$> merge_sort edge_key_le (List.filter (λ c, String.eqb (cr_session_id c) sessionId) rows)).

(** ** The operators of a configuration *)
Definition errorChannelOperators : list string := ["map_record"; "jetrules"; "ollama"; "embed"; "vllm"].
Definition isErrorChannelOperator (t : string) : bool := contains errorChannelOperators t.
Record OperatorInstances := mkInstances { WithChannel : gmap string Z; WithoutChannel : gmap string Z; Others : Z }.
Definition sum_counts (m : gmap string Z) : Z := map_fold (λ _ c n, n + c) 0 m.
Definition Total (o : OperatorInstances) : Z := sum_counts (WithChannel o) + sum_counts (WithoutChannel o).
Definition Unreportable (o : OperatorInstances) : Z := sum_counts (WithoutChannel o).
(** A member of an object; of several with one name json.Unmarshal keeps the last. *)
Fixpoint object_field (k : string) (l : list (string * doc)) : option doc :=
  match l with
  | [] => None
  | (k', v) :: l' => match object_field k l' with Some w => Some w | None => if String.eqb k' k then Some v else None end
  end.
Definition named_channel (members : list (string * doc)) : bool :=
  match object_field "error_channel" members with
  | Some (DObj ec) => match object_field "name" ec with Some (DStr name) => negb (String.eqb name "") | _ => false end
  | _ => false
  end.
Fixpoint hasNamedErrorChannel (node : doc) : bool :=
  match node with
  | DObj members => named_channel members || (fix go l := match l with [] => false | (_, v) :: l' => hasNamedErrorChannel v || go l' end) members
  | DArr l => (fix go l := match l with [] => false | v :: l' => hasNamedErrorChannel v || go l' end) l
  | _ => false
  end.
Definition bump (t : string) (m : gmap string Z) : gmap string Z := <[t := default 0 (m !! t) + 1]> m.
Definition survey_object (out : OperatorInstances) (members : list (string * doc)) : OperatorInstances :=
  match object_field "type" members with
  | Some (DStr t) =>
      if isErrorChannelOperator t then
        if hasNamedErrorChannel (DObj members) then mkInstances (bump t (WithChannel out)) (WithoutChannel out) (Others out)
        else mkInstances (WithChannel out) (bump t (WithoutChannel out)) (Others out)
      else if deployed (object_field "output_channel" members) then mkInstances (WithChannel out) (WithoutChannel out) (Others out + 1) else out
  | _ => out
  end.
Fixpoint survey_walk (out : OperatorInstances) (node : doc) : OperatorInstances :=
  match node with
  | DObj members => (fix go out l := match l with [] => out | (_, v) :: l' => go (survey_walk out v) l' end) (survey_object out members) members
  | DArr l => (fix go out l := match l with [] => out | v :: l' => go (survey_walk out v) l' end) out l
  | _ => out
  end.
Definition surveyOperators (d : doc) : OperatorInstances := survey_walk (mkInstances ∅ ∅ 0) d.
Record ConfigSurvey := mkSurvey { sv_SessionId : string; sv_Read : bool; sv_Operators : OperatorInstances; sv_Note : string }.
Definition ReadConfigSurvey (db : tables) (sessionId : string) : res ConfigSurvey :=
  let unread note := Ret (mkSurvey sessionId false (mkInstances ∅ ∅ 0) note) in
  if String.eqb sessionId "" then unread "no session id, so no configuration was read"
  else
    let! rows := query (cpipes_execution_status db) in
    match List.find (λ r, String.eqb r.1 sessionId) rows with
    | None => unread "no cpipes_execution_status row for session %q"
    | Some (_, EmptyConfig) => unread "session %q has an empty cpipes_config_json"
    | Some (_, NotJson) => unread "session %q has a cpipes_config_json that does not parse"
    | Some (_, Config d) => Ret (mkSurvey sessionId true (surveyOperators d) "configuration read from cpipes_execution_status")
    end.

(** ** Gather *)
Record triage_Evidence := mkEvidence {
  ev_SessionId : string; ev_Extent : option triage_Extent; ev_Header : option RunHeader; ev_Workers : option WorkerSet; ev_Prior : option BaselineSet;
  ev_Errors : option ErrorSummary; ev_Edges : list Edge; ev_Config : option ConfigConfounders; ev_Survey : option ConfigSurvey }.
Definition workerRows (ev : triage_Evidence) : list WorkerRow := from_option ws_Rows [] (ev_Workers ev).
Definition runStart (header : option RunHeader) (workers : WorkerSet) : option instant :=
  match header with
  | Some h => Some (rh_StartTime h)
  | None => match ws_Rows workers with [] => None | r :: rows => Some (foldl (λ earliest r, if wr_StartTime r <? earliest then wr_StartTime r else earliest) (wr_StartTime r) (r :: rows)) end
  end.
Definition read_if {A} (b : bool) (read : res A) : res (option A) := if b then let! a := read in Ret (Some a) else Ret None.
Definition triage_Gather (db : tables) (now : instant) (sessionId : string) (baselineFor : Z) : res triage_Evidence :=
  let extent := triage_ReadExtent db in
  if negb (ExecutionRecord (te_Extent extent)) then Ret (mkEvidence sessionId (Some extent) None None None None [] None None)
  else
    let! header := ReadHeader db sessionId in
    let! workers := Workers db now (mkWindow 0 0 "" "" sessionId 0) in
    let! errors := read_if (ProcessErrors extent) (ReadErrorSummary db sessionId) in
    let! edges := read_if (ChannelDetails (te_Extent extent)) (ReadEdges db sessionId) in
    let! config := read_if (CpipesStatus extent) (ReadConfigConfounders db sessionId) in
    let! survey := read_if (CpipesStatus extent) (ReadConfigSurvey db sessionId) in
    let! prior :=
      if 0 <? baselineFor then
        match runStart header workers with
        | Some start =>
            read_if true (StepBaselines db now (mkWindow (start - baselineFor) start (from_option rh_Client "" header) (from_option rh_ProcessName "" header) "" 0))
        | None => Ret None
        end
      else Ret None in
    Ret (mkEvidence sessionId (Some extent) header (Some workers) prior errors (default [] edges) config survey).

(** ** Verdicts *)
Definition LocusRunNotStarted := "run_not_started".
Definition LocusStepNeverStarted := "step_never_started".
Definition LocusWorkerNotTerminated := "worker_not_terminated".
Definition LocusWorkerFailed := "worker_failed".
Definition LocusSinkFailedUnderCompletedWorker := "sink_failed_under_completed_worker".
Definition LocusRowsLostSilently := "rows_lost_silently".
Definition LocusPerRecordFailuresReported := "per_record_failures_reported".
Definition LocusPerRecordFailuresUnreportable := "per_record_failures_unreportable".
Definition LocusWrittenNotArrived := "written_not_arrived".
Definition Loci : list string :=
  [LocusRunNotStarted; LocusStepNeverStarted; LocusWorkerNotTerminated; LocusWorkerFailed; LocusSinkFailedUnderCompletedWorker; LocusRowsLostSilently;
   LocusPerRecordFailuresReported; LocusPerRecordFailuresUnreportable; LocusWrittenNotArrived].

Inductive Verdict := Present | Absent | NotEvaluable.
#[global] Instance Verdict_eq_dec : EqDecision Verdict.
Proof. solve_decision. Defined.
Record triage_Finding := mkFinding {
  fi_SessionId : string; fi_Locus : string; fi_Verdict : Verdict; fi_Basis : string; fi_Confounders : list string; fi_StepRef : string;
  fi_ShardRef : option Z; fi_Subjects : list string; fi_ClassifierRef : string }.
Definition Fired (f : triage_Finding) : bool := bool_decide (fi_Verdict f = Present).
Definition Finding_Validate (f : triage_Finding) : option string :=
  if String.eqb (fi_SessionId f) "" then Some "session_id is required"
  else if negb (contains Loci (fi_Locus f)) then Some "locus %q is not in the vocabulary"
  else if String.eqb (fi_Basis f) "" then Some "basis is required"
  else if String.eqb (fi_ClassifierRef f) "" then Some "classifier_ref is required"
  else if negb (forallb IsConfounder (fi_Confounders f)) then Some "confounders holds %q, which is not in the anomaly confounder vocabulary"
  else if negb (String.eqb (fi_StepRef f) "") && negb (contains (fi_Confounders f) ConfounderStepLabelAmbiguous)
  then Some "step_ref is %q and step_label_ambiguous is not among the confounders"
  else None.
Record Report := mkReport { rp_SessionId : string; Findings : list triage_Finding; Evaluable : Z }.
Definition fired_loci (r : Report) : list string := fi_Locus <$> List.filter Fired (Findings r).

(** A finding before the session and the classifier are filled in. *)
Definition finding (locus : string) (v : Verdict) (basis : string) (conf : list string) (step : string) (shard : option Z) (subjects : list string) : triage_Finding :=
  mkFinding "" locus v basis conf step shard subjects "".
Definition notEvaluable (locus why : string) (conf : list string) : triage_Finding := finding locus NotEvaluable why conf "" None [].
Definition absent (locus basis : string) (conf : list string) : triage_Finding := finding locus Absent basis conf "" None [].
Definition recordUnavailable (locus : string) : triage_Finding :=
  notEvaluable locus "jetsapi.pipeline_execution_status or jetsapi.pipeline_execution_details is not deployed on this database" [].
Definition on_record (ev : triage_Evidence) (locus : string) (ask : triage_Extent → triage_Finding) : triage_Finding :=
  match ev_Extent ev with Some e => if ExecutionRecord (te_Extent e) then ask e else recordUnavailable locus | None => recordUnavailable locus end.

Record Classifier := mkClassifier { Volume : VolumeCollapse; cl_MinPriorRuns : Z; cl_Generation : Z }.
Definition triage_Default : Classifier := mkClassifier DefaultVolumeCollapse 3 1.
Definition triage_Ref (c : Classifier) : string := "triage@" +:+ Itoa (cl_Generation c).

(** ** The nine loci *)
Definition runNotStarted (ev : triage_Evidence) : triage_Finding :=
  let locus := LocusRunNotStarted in
  on_record ev locus (λ e,
    match ev_Header ev with
    | None => notEvaluable locus "no pipeline_execution_status row for session %q" []
    | Some h =>
        if negb (header_Terminal h) then absent locus "the run header of session %q is in status %q, which is not terminal" []
        else match workerRows ev with
          | _ :: _ => absent locus "the run header of session %q is terminal at %q and the run has %d worker rows, so it started" []
          | [] =>
              if negb (OldestWorker (te_Extent e) =? 0) && (rh_StartTime h <? OldestWorker (te_Extent e))
              then notEvaluable locus "the run header of session %q is terminal at %q with no worker row, but the run started at %s" [ConfounderHistoryTruncated]
              else finding locus Present "the run header of session %q is terminal at %q and there is no pipeline_execution_details row" [] "" None
                     ["header " +:+ Itoa (rh_Key h)]
          end
    end).

Definition evidence_baselineConfounders (ev : triage_Evidence) : list string :=
  match ev_Prior ev with
  | None => []
  | Some p =>
      ((if (0 <? bs_Headerless p) || bs_Truncated p then [ConfounderHistoryTruncated] else []) ++
       (match ev_Extent ev with Some e => if negb (ChannelDetails (te_Extent e)) then [ConfounderCrossStepJoinUnavailable] else [] | None => [] end))%list
  end.
Definition add_confounder (c : string) (l : list string) : list string := if contains l c then l else (l ++ [c])%list.
(** The steps of the source of the run with a history. *)
Definition considered (c : Classifier) (h : RunHeader) (prior : BaselineSet) : list StepBaseline :=
  List.filter (λ b, String.eqb (b_Client b) (rh_Client h) && String.eqb (b_ProcessName b) (rh_ProcessName h) && String.eqb (b_MainObjectType b) (rh_MainObjectType h) &&
    negb (b_Runs b <? cl_MinPriorRuns c)) (bs_Baselines prior).
Definition step_label (s : string) : string := if String.eqb s "" then "(unlabelled)" else s.
Definition stepNeverStarted (c : Classifier) (ev : triage_Evidence) : triage_Finding :=
  let locus := LocusStepNeverStarted in
  on_record ev locus (λ e,
    match ev_Prior ev, ev_Header ev with
    | None, _ => notEvaluable locus "no step history was gathered" []
    | _, None => notEvaluable locus "session %q has no run header, so it has no main_object_type" [ConfounderHistoryTruncated]
    | Some prior, Some h =>
        let steps := considered c h prior in
        let missing := List.filter (λ b, negb (existsb (λ r, String.eqb (wr_StepId r) (b_StepId b)) (workerRows ev))) steps in
        match steps, missing with
        | [], _ => notEvaluable locus "the baseline holds no step of %s/%s/%s with at least %d prior runs" (evidence_baselineConfounders ev)
        | _, [] => absent locus "all %d steps of %s/%s/%s with at least %d prior runs have a worker row" (evidence_baselineConfounders ev)
        | _, first :: rest =>
            finding locus Present "%d of the %d steps of %s/%s/%s with at least %d prior runs have no worker row"
              (add_confounder ConfounderStepLabelAmbiguous (evidence_baselineConfounders ev)) (match rest with [] => b_StepId first | _ => "" end) None
              ((λ b, "step " +:+ step_label (b_StepId b)) <$> missing)
        end
    end).

Definition worker_subject (r : WorkerRow) : string := "worker " +:+ Itoa (wr_Key r).
Definition workerNotTerminated (ev : triage_Evidence) : triage_Finding :=
  let locus := LocusWorkerNotTerminated in
  on_record ev locus (λ e,
    match workerRows ev, ev_Header ev with
    | [], _ => notEvaluable locus "session %q has no worker rows, so there is none to be stalled" []
    | _, None => notEvaluable locus "session %q has %d worker rows and no run header" [ConfounderHistoryTruncated]
    | rows, Some h =>
        match List.filter Stalled rows with
        | [] => absent locus "all %d worker rows of session %q reached a terminal state under a header at %q" []
        | stalled =>
            finding locus Present "%d of %d worker rows of session %q are still at 'in progress' under a header that reached %q"
              [ConfounderStallCauseUnknown; ConfounderStepLabelAmbiguous] (match stalled with [r] => wr_StepId r | _ => "" end)
              (match stalled with [r] => Some (wr_ShardId r) | _ => None end) (worker_subject <$> stalled)
        end
    end).

Definition workerFailed (ev : triage_Evidence) : triage_Finding :=
  let locus := LocusWorkerFailed in
  on_record ev locus (λ e,
    match workerRows ev with
    | [] => notEvaluable locus "session %q has no worker rows, so no worker can have failed" []
    | rows =>
        match List.filter (λ r, String.eqb (wr_Status r) StatusFailed) rows with
        | [] => absent locus "none of the %d worker rows of session %q is at %q" []
        | failed =>
            let step := match failed with [r] => wr_StepId r | _ => "" end in
            let conf := if negb (String.eqb step "") then [ConfounderStepLabelAmbiguous] else [] in
            finding locus Present "%d of %d worker rows of session %q are at 'failed'"
              (if existsb (λ r, String.eqb (wr_StepId r) "") failed then add_confounder ConfounderStepLabelAmbiguous conf else conf)
              step (match failed with [r] => Some (wr_ShardId r) | _ => None end) (worker_subject <$> failed)
        end
    end).

Definition sinkFailedUnderCompletedWorker (ev : triage_Evidence) : triage_Finding :=
  let locus := LocusSinkFailedUnderCompletedWorker in
  on_record ev locus (λ e,
    if negb (ChannelDetails (te_Extent e)) then
      notEvaluable locus "jetsapi.pipeline_execution_channel_details is not deployed on this database" [ConfounderCrossStepJoinUnavailable]
    else match ev_Edges ev with
      | [] => notEvaluable locus "jetsapi.pipeline_execution_channel_details is deployed and holds no row for session %q" [ConfounderCrossStepJoinUnavailable]
      | edges =>
          match List.filter (λ e, negb (String.eqb (ed_ErrorMessage e) "") && String.eqb (ed_ParentStatus e) StatusCompleted) edges with
          | [] => absent locus "none of the %d channel-detail rows of session %q carries an error_message under a parent worker at 'completed'" []
          | hits =>
              let step := match hits with [e] => ed_ParentStepId e | _ => "" end in
              finding locus Present "%d of %d channel-detail rows of session %q carry an error_message while their parent worker reached 'completed'"
                (if negb (String.eqb step "") then [ConfounderStepLabelAmbiguous] else []) step (match hits with [e] => ed_ParentShard e | _ => None end)
                ((λ e, "edge " +:+ Itoa (ed_Key e)) <$> hits)
          end
      end).

(** The row the only anomaly is about, the last of several with its key. *)
Definition localise (rows : list WorkerRow) (subject : string) (f : triage_Finding) : triage_Finding :=
  foldl (λ f r,
    if negb (String.eqb (Itoa (wr_Key r)) subject) then f
    else
      let step := if negb (String.eqb (wr_StepId r) "") then wr_StepId r else fi_StepRef f in
      let conf := if negb (String.eqb (wr_StepId r) "") then add_confounder ConfounderStepLabelAmbiguous (fi_Confounders f) else fi_Confounders f in
      finding (fi_Locus f) (fi_Verdict f) (fi_Basis f) conf step (Some (wr_ShardId r)) (fi_Subjects f)) f rows.
Definition union_confounders (l : list Anomaly) : list string := foldl (λ conf a, foldl (λ conf x, add_confounder x conf) conf (an_Confounders a)) [] l.
Definition volume_evidence (ev : triage_Evidence) (e : triage_Extent) : obs_Evidence :=
  mkObsEvidence (Some (te_Extent e)) (ev_Workers ev) None {[ ev_SessionId ev := ev_Config ev ]}.
Definition is_completed (r : WorkerRow) : bool := String.eqb (wr_Status r) StatusCompleted.
Definition rowsLostSilently `{GoArch} (c : Classifier) (ev : triage_Evidence) : triage_Finding :=
  let locus := LocusRowsLostSilently in
  on_record ev locus (λ e,
    match workerRows ev with
    | [] => notEvaluable locus "session %q has no worker rows, so there is no input and output count to compare" []
    | rows =>
        let completed := List.filter is_completed rows in
        match completed, List.filter (λ r, deployed (wr_InputRecords r) && deployed (wr_OutputRecords r)) completed with
        | [], _ => notEvaluable locus "none of the %d worker rows of session %q reached 'completed'" []
        | _, [] => notEvaluable locus "%d worker rows of session %q reached 'completed' and none carries both" []
        | _, _ =>
            match volume_Detect (Volume c) 0 (volume_evidence ev e) with
            | [] => absent locus "%d of %d worker rows of session %q completed with both counts set" []
            | anomalies =>
                let f := finding locus Present "%s found %d of the %d completed worker rows of session %q emitting materially fewer rows than they read"
                           (union_confounders anomalies) "" None ((λ a, "worker " +:+ an_SubjectRef a) <$> anomalies) in
                match anomalies with [a] => localise rows (an_SubjectRef a) f | _ => f end
            end
        end
    end).

Definition perRecordFailuresReported (ev : triage_Evidence) : triage_Finding :=
  let locus := LocusPerRecordFailuresReported in
  on_record ev locus (λ e,
    match ProcessErrors e, ev_Errors ev with
    | true, Some errors =>
        if es_Rows errors =? 0 then absent locus "jetsapi.process_errors holds no row for session %q" []
        else finding locus Present "jetsapi.process_errors holds %d rows for session %q" [] "" None [Itoa (es_Rows errors) +:+ " process_errors rows"]
    | _, _ => notEvaluable locus "jetsapi.process_errors is not deployed on this database" []
    end).

Definition perRecordFailuresUnreportable (ev : triage_Evidence) : triage_Finding :=
  let locus := LocusPerRecordFailuresUnreportable in
  on_record ev locus (λ e,
    match CpipesStatus e, ev_Survey ev with
    | true, Some survey =>
        if negb (sv_Read survey) then notEvaluable locus (sv_Note survey +:+ ". This locus is a predicate over the configuration") []
        else
          let ops := sv_Operators survey in
          if Total ops =? 0 then absent locus "the stored configuration of session %q holds no instance of the five operator types" []
          else if Unreportable ops =? 0 then absent locus "all %d instances of the five reporting operator types declare an error channel" []
          else finding locus Present "%d of the %d instances of the five reporting operator types declare no error channel" [] "" None
                 (omap (λ t, match WithoutChannel ops !! t with Some n => if 0 <? n then Some (t +:+ " x" +:+ Itoa n) else None | None => None end) errorChannelOperators)
    | _, _ => notEvaluable locus "jetsapi.cpipes_execution_status is not deployed on this database" []
    end).

Definition writtenNotArrived (ev : triage_Evidence) : triage_Finding :=
  let locus := LocusWrittenNotArrived in
  on_record ev locus (λ e,
    if negb (ChannelDetails (te_Extent e)) then
      notEvaluable locus "this locus needs an output_location to check" [ConfounderStagePrefixReused; ConfounderCrossStepJoinUnavailable; ConfounderNoPhysicalLocation]
    else notEvaluable locus "session %q has %d channel-detail rows naming a physical output_location and %d naming none"
           (ConfounderStagePrefixReused :: if existsb (λ e, String.eqb (ed_OutputLocation e) "") (ev_Edges ev) then [ConfounderNoPhysicalLocation] else [])).

Definition completed_finding (c : Classifier) (ev : triage_Evidence) (f : triage_Finding) : triage_Finding :=
  mkFinding (ev_SessionId ev) (fi_Locus f) (fi_Verdict f) (fi_Basis f) (fi_Confounders f) (fi_StepRef f) (fi_ShardRef f) (fi_Subjects f) (triage_Ref c).
Definition Classify `{GoArch} (c : Classifier) (ev : triage_Evidence) : Report :=
  let findings := completed_finding c ev <$>
    [runNotStarted ev; stepNeverStarted c ev; workerNotTerminated ev; workerFailed ev; sinkFailedUnderCompletedWorker ev; rowsLostSilently c ev;
     perRecordFailuresReported ev; perRecordFailuresUnreportable ev; writtenNotArrived ev] in
  mkReport (ev_SessionId ev) findings (Z.of_nat (length (List.filter (λ f, negb (bool_decide (fi_Verdict f = NotEvaluable))) findings))).
