(* ===== verification/TriageLaws.v ===== *)
(** * Properties of triage

    Every finding of a report is valid, and for the evidence that is gathered from the record
    the nine verdicts are those of a specification on its tables: a locus is asked or it is
    not, and when it is, it holds or it does not. *)
From stdpp Require Import base list strings gmap sorting.
From Stdlib Require Import ZArith Lia SpecFloat.
From S2P Require Import Prelude GoFloat GoText ExecutionRecord Triage.
Local Open Scope string_scope.
Local Open Scope Z_scope.

#[local] Set Warnings "-register-all".

(** ** Membership *)
Lemma contains_spec l s : contains l s = true ↔ s ∈ l.
Proof.
  unfold contains. rewrite existsb_exists. setoid_rewrite String.eqb_eq. split; [intros (x & Hx & ->); by apply list_elem_of_In|].
  intros Hs. exists s. split; [by apply list_elem_of_In|done].
Qed.
Lemma add_confounder_spec c l x : x ∈ add_confounder c l ↔ x = c ∨ x ∈ l.
Proof.
  unfold add_confounder. destruct (contains l c) eqn:E; [apply contains_spec in E; naive_solver|]. rewrite elem_of_app, list_elem_of_singleton. naive_solver.
Qed.
Definition all_confounders (l : list string) : Prop := ∀ x, x ∈ l → x ∈ confounders.
Lemma all_confounders_bool l : all_confounders l ↔ forallb IsConfounder l = true.
Proof.
  unfold all_confounders. rewrite forallb_forall. setoid_rewrite <- list_elem_of_In. unfold IsConfounder. by setoid_rewrite contains_spec.
Qed.
Lemma all_confounders_app l l' : all_confounders l → all_confounders l' → all_confounders (l ++ l').
Proof. intros H H' x [?|?]%elem_of_app; auto. Qed.
Lemma all_confounders_add c l : c ∈ confounders → all_confounders l → all_confounders (add_confounder c l).
Proof. intros Hc Hl x [->|?]%add_confounder_spec; auto. Qed.
Create HintDb triage.
#[export] Hint Resolve all_confounders_app all_confounders_add : triage.
(** A list that is written out. *)
Ltac written := apply all_confounders_bool; vm_compute; reflexivity.

Lemma Bearing_confounders cc want : all_confounders want → all_confounders (Bearing cc want).
Proof. intros Hw x Hx. apply Hw. unfold Bearing in Hx. apply list_elem_of_In, filter_In in Hx as [Hx _]. by apply list_elem_of_In. Qed.
Lemma recordConfounders_ok r ws e : all_confounders (recordConfounders r ws e).
Proof. unfold recordConfounders. repeat apply all_confounders_app; repeat case_match; written. Qed.
Lemma volume_confounders `{GoArch} d now ev a : a ∈ volume_Detect d now ev → all_confounders (an_Confounders a).
Proof.
  unfold volume_Detect. destruct (oe_Workers ev) as [ws|]; [|by intros ?%not_elem_of_nil]. intros (r & _ & Ha)%list_elem_of_omap. unfold volume_anomaly in Ha.
  destruct (collapsed d r) as [[[read got] ratio]|]; [|done].
  assert (E : an_Confounders a = (recordConfounders r ws (oe_Extent ev) ++ Bearing (config_of ev (wr_SessionId r)) VolumeCollapseConfounders)%list) by (by injection Ha as <-).
  rewrite E. apply all_confounders_app; [apply recordConfounders_ok|apply Bearing_confounders; written].
Qed.
Lemma union_confounders_ok l : (∀ a, a ∈ l → all_confounders (an_Confounders a)) → all_confounders (union_confounders l).
Proof.
  assert (Hin : ∀ xs conf, all_confounders conf → all_confounders xs → all_confounders (foldl (λ conf x, add_confounder x conf) conf xs)).
  { induction xs as [|x xs IH]; intros conf Hc Hx; [done|]. cbn. apply IH; [apply all_confounders_add; [|done]; apply Hx, elem_of_cons; by left|].
    intros y Hy. apply Hx, elem_of_cons. by right. }
  unfold union_confounders. assert (H0 : all_confounders []) by written. revert H0. generalize (@nil string). induction l as [|a l IH]; intros conf Hc Hl; [done|]. cbn.
  apply IH; [|intros b Hb; apply Hl, elem_of_cons; by right]. apply Hin; [done|]. apply Hl, elem_of_cons. by left.
Qed.

(** ** Findings are valid *)
Record finding_ok (locus : string) (f : triage_Finding) : Prop := {
  fo_locus : fi_Locus f = locus;
  fo_basis : String.eqb (fi_Basis f) "" = false;
  fo_confounders : all_confounders (fi_Confounders f);
  fo_step : fi_StepRef f = "" ∨ ConfounderStepLabelAmbiguous ∈ fi_Confounders f }.
Lemma notEvaluable_ok locus why conf : String.eqb why "" = false → all_confounders conf → finding_ok locus (notEvaluable locus why conf).
Proof. by split; [| | |left]. Qed.
Lemma absent_ok locus why conf : String.eqb why "" = false → all_confounders conf → finding_ok locus (absent locus why conf).
Proof. by split; [| | |left]. Qed.
Lemma finding_ok' locus v why conf step shard subjects : String.eqb why "" = false → all_confounders conf → (step = "" ∨ ConfounderStepLabelAmbiguous ∈ conf) →
  finding_ok locus (finding locus v why conf step shard subjects).
Proof. by split. Qed.
Lemma on_record_ok ev locus ask : (∀ e, finding_ok locus (ask e)) → finding_ok locus (on_record ev locus ask).
Proof. intros Ha. unfold on_record. repeat case_match; try apply Ha; (apply notEvaluable_ok; [done|written]). Qed.
Lemma baselineConfounders_ok ev : all_confounders (evidence_baselineConfounders ev).
Proof. unfold evidence_baselineConfounders. destruct (ev_Prior ev); [|written]. apply all_confounders_app; repeat case_match; written. Qed.
Lemma localise_ok locus rows subject f : finding_ok locus f → finding_ok locus (localise rows subject f).
Proof.
  revert f. induction rows as [|r rows IH]; intros f Hf; [done|]. cbn. apply IH. destruct Hf as [Hl Hb Hc Hs]. case_match; [done|].
  destruct (String.eqb (wr_StepId r) ""); cbn; (split; [done|done| |]; cbn); [done|done|apply all_confounders_add; [by apply contains_spec|done]|].
  right. apply add_confounder_spec. by left.
Qed.
Lemma ambiguous_or_blank (s : string) : s = "" ∨ ConfounderStepLabelAmbiguous ∈ (if negb (String.eqb s "") then [ConfounderStepLabelAmbiguous] else []).
Proof. destruct (String.eqb s "") eqn:E; [left; by apply String.eqb_eq|right]. by apply list_elem_of_singleton. Qed.
#[export] Hint Resolve notEvaluable_ok absent_ok baselineConfounders_ok : triage.
Ltac findings := cbv beta zeta; repeat case_match; first [apply notEvaluable_ok|apply absent_ok|apply finding_ok']; try done; try written; try (by left); auto with triage.

Section findings.
Context `{GoArch} (c : Classifier) (ev : triage_Evidence).
Lemma runNotStarted_ok : finding_ok LocusRunNotStarted (runNotStarted ev).
Proof. apply on_record_ok. intros e. cbv beta. findings. Qed.
Lemma stepNeverStarted_ok : finding_ok LocusStepNeverStarted (stepNeverStarted c ev).
Proof.
  apply on_record_ok. intros e. cbv beta. findings; try (apply all_confounders_add; [by apply contains_spec|auto with triage]); right; apply add_confounder_spec; by left.
Qed.
Lemma workerNotTerminated_ok : finding_ok LocusWorkerNotTerminated (workerNotTerminated ev).
Proof. apply on_record_ok. intros e. cbv beta. findings; right; by apply contains_spec. Qed.
Lemma workerFailed_ok : finding_ok LocusWorkerFailed (workerFailed ev).
Proof.
  apply on_record_ok. intros e. cbv beta. destruct (workerRows ev) as [|r rows]; [by findings|].
  destruct (List.filter _ _) as [|b bs]; [by findings|]. set (step := match bs with [] => wr_StepId b | _ => "" end).
  assert (Hc : all_confounders (if negb (String.eqb step "") then [ConfounderStepLabelAmbiguous] else [])) by (case_match; written).
  apply finding_ok'; [done| |]; fold step.
  - destruct (existsb _ _); [apply all_confounders_add; [by apply contains_spec|done]|done].
  - destruct (ambiguous_or_blank step) as [?|Hin]; [by left|right]. destruct (existsb _ _); [apply add_confounder_spec; by left|done].
Qed.
Lemma sinkFailed_ok : finding_ok LocusSinkFailedUnderCompletedWorker (sinkFailedUnderCompletedWorker ev).
Proof.
  apply on_record_ok. intros e. cbv beta. case_match; [by findings|]. destruct (ev_Edges ev) as [|x xs]; [by findings|].
  destruct (List.filter _ _) as [|b bs]; [by findings|]. apply finding_ok'; [done|case_match; written|apply ambiguous_or_blank].
Qed.
Lemma rowsLostSilently_ok : finding_ok LocusRowsLostSilently (rowsLostSilently c ev).
Proof.
  apply on_record_ok. intros e. cbv beta. destruct (workerRows ev) as [|r rows]; [by findings|]. cbv zeta. destruct (List.filter is_completed (r :: rows)) as [|x xs]; [by findings|].
  destruct (List.filter _ (x :: xs)) as [|y ys]; [by findings|]. destruct (volume_Detect _ _ _) as [|a l] eqn:Ea; [by findings|].
  assert (Hu : all_confounders (union_confounders (a :: l))) by (apply union_confounders_ok; rewrite <- Ea; apply volume_confounders).
  destruct l as [|b l]; [apply localise_ok|]; by apply finding_ok'; [| |left].
Qed.
Lemma reported_ok : finding_ok LocusPerRecordFailuresReported (perRecordFailuresReported ev).
Proof. apply on_record_ok. intros e. cbv beta. findings. Qed.
Lemma app_nonempty (a b : string) : String.eqb b "" = false → String.eqb (a +:+ b) "" = false.
Proof. by destruct a, b. Qed.
Lemma unreportable_ok : finding_ok LocusPerRecordFailuresUnreportable (perRecordFailuresUnreportable ev).
Proof. apply on_record_ok. intros e. cbv beta. findings. by apply app_nonempty. Qed.
Lemma writtenNotArrived_ok : finding_ok LocusWrittenNotArrived (writtenNotArrived ev).
Proof. apply on_record_ok. intros e. cbv beta. findings. Qed.
End findings.

Lemma classify_loci `{GoArch} c ev : Forall2 finding_ok Loci (Findings (Classify c ev)).
Proof.
  cbn. repeat (apply Forall2_cons; split); try apply Forall2_nil_2;
    (match goal with |- finding_ok ?l (completed_finding _ _ ?f) => assert (Hf : finding_ok l f) end;
     [first [apply runNotStarted_ok|apply stepNeverStarted_ok|apply workerNotTerminated_ok|apply workerFailed_ok|apply sinkFailed_ok|apply rowsLostSilently_ok|
       apply reported_ok|apply unreportable_ok|apply writtenNotArrived_ok]|destruct Hf; by split]).
Qed.

(** ** The operators of a configuration *)
Section doc_ind.
Context (P : doc → Prop) (Hnull : P DNull) (Hbool : ∀ b, P (DBool b)) (Hnum : ∀ f, P (DNum f)) (Hstr : ∀ s, P (DStr s)).
Context (Harr : ∀ l, Forall P l → P (DArr l)) (Hobj : ∀ ms, Forall (λ m, P m.2) ms → P (DObj ms)).
Fixpoint doc_ind' (d : doc) : P d :=
  match d with
  | DNull => Hnull | DBool b => Hbool b | DNum f => Hnum f | DStr s => Hstr s
  | DArr l => Harr l ((fix go l := match l return Forall P l with [] => Forall_nil_2 _ | v :: l' => Forall_cons_2 _ _ _ (doc_ind' v) (go l') end) l)
  | DObj ms => Hobj ms ((fix go l := match l return Forall (λ m, P m.2) l with [] => Forall_nil_2 _ | m :: l' => Forall_cons_2 _ _ _ (doc_ind' m.2) (go l') end) ms)
  end.
End doc_ind.

(** A node of a document. *)
Inductive within (d : doc) : doc → Prop :=
| within_refl : within d d
| within_arr v l : v ∈ l → within d v → within d (DArr l)
| within_obj k v ms : (k, v) ∈ ms → within d v → within d (DObj ms).
Lemma within_object ms' ms : within (DObj ms') (DObj ms) ↔ ms' = ms ∨ ∃ k v, (k, v) ∈ ms ∧ within (DObj ms') v.
Proof.
  split; [|intros [->|(k & v & Hm & Hv)]; [constructor|by eapply within_obj]]. inversion 1; subst; [by left|right; eauto].
Qed.
Lemma within_array ms' l : within (DObj ms') (DArr l) ↔ ∃ v, v ∈ l ∧ within (DObj ms') v.
Proof. split; [inversion 1; subst; eauto|]. intros (v & Hv & Hw). by eapply within_arr. Qed.

Lemma has_channel_spec d : hasNamedErrorChannel d = true ↔ ∃ ms, within (DObj ms) d ∧ named_channel ms = true.
Proof.
  induction d as [| | | |l IH|ms IH] using doc_ind'; try (split; [done|]; intros (ms & Hw & _); by inversion Hw).
  - setoid_rewrite within_array. transitivity (∃ v, v ∈ l ∧ hasNamedErrorChannel v = true).
    + cbn. induction IH as [|v l _ _ IHl]; [split; [done|by intros (v & ?%not_elem_of_nil & _)]|]. cbn. rewrite orb_true_iff, IHl. setoid_rewrite elem_of_cons. naive_solver.
    + rewrite Forall_forall in IH. split; [intros (v & Hv & Hh); apply IH in Hh as (ms & ? & ?); naive_solver|]. intros (ms & (v & Hv & Hw) & Hn). exists v. split; [done|]. apply IH; eauto.
  - setoid_rewrite within_object. transitivity (named_channel ms = true ∨ ∃ k v, (k, v) ∈ ms ∧ hasNamedErrorChannel v = true).
    + cbn. rewrite orb_true_iff. f_equiv. clear -IH. induction IH as [|[k v] l _ _ IHl]; [split; [done|by intros (k & v & ?%not_elem_of_nil & _)]|]. cbn. rewrite orb_true_iff, IHl.
      setoid_rewrite elem_of_cons. naive_solver.
    + rewrite Forall_forall in IH. split.
      * intros [Hn|(k & v & Hm & Hh)]; [by eauto|]. apply (IH (k, v) Hm) in Hh as (ms' & ? & ?). exists ms'. naive_solver.
      * intros (ms' & [->|(k & v & Hm & Hw)] & Hn); [by left|right]. exists k, v. split; [done|]. apply (IH (k, v) Hm). eauto.
Qed.

Lemma sum_counts_insert t x m : m !! t = None → sum_counts (<[t := x]> m) = sum_counts m + x.
Proof. intros Ht. unfold sum_counts. rewrite (map_fold_insert_L (λ _ c n, n + c)); [done|intros; lia|done]. Qed.
Lemma sum_counts_bump t m : sum_counts (bump t m) = sum_counts m + 1.
Proof.
  unfold bump. destruct (m !! t) as [x|] eqn:E; cbn [default]; [|rewrite sum_counts_insert by done; lia].
  rewrite <- insert_delete_eq, sum_counts_insert by apply lookup_delete_eq. rewrite <- (insert_delete_id m t x E) at 2.
  rewrite sum_counts_insert by apply lookup_delete_eq. unfold id. lia.
Qed.

(** An operator whose failures have nowhere to go. *)
Definition unreportable_object (ms : list (string * doc)) : Prop :=
  ∃ t, object_field "type" ms = Some (DStr t) ∧ t ∈ errorChannelOperators ∧ ¬ ∃ ms', within (DObj ms') (DObj ms) ∧ named_channel ms' = true.
Definition unreportable_in (d : doc) : Prop := ∃ ms, within (DObj ms) d ∧ unreportable_object ms.
(** What a part of a document adds to the counts. *)
Definition adds (out out' : OperatorInstances) (P : Prop) : Prop :=
  sum_counts (WithChannel out) ≤ sum_counts (WithChannel out') ∧ ∃ n, sum_counts (WithoutChannel out') = sum_counts (WithoutChannel out) + n ∧ 0 ≤ n ∧ (0 < n ↔ P).
Lemma adds_trans o1 o2 o3 (P Q : Prop) : adds o1 o2 P → adds o2 o3 Q → adds o1 o3 (P ∨ Q).
Proof. intros (H1 & n & E1 & L1 & I1) (H2 & m & E2 & L2 & I2). split; [lia|]. exists (n + m). split; [lia|]. split; [lia|]. rewrite <- I1, <- I2. lia. Qed.
Lemma adds_nothing o (P : Prop) : ¬ P → adds o o P.
Proof. intros HP. split; [lia|]. exists 0. split; [lia|]. split; [lia|]. split; [lia|done]. Qed.
Lemma adds_iff o o' (P Q : Prop) : (P ↔ Q) → adds o o' P → adds o o' Q.
Proof. intros E (H & n & ? & ? & I). split; [done|]. exists n. by rewrite <- E. Qed.
Lemma survey_object_adds out ms : adds out (survey_object out ms) (unreportable_object ms).
Proof.
  unfold survey_object, unreportable_object. destruct (object_field "type" ms) as [[| | |t| |]|] eqn:E; try (apply adds_nothing; naive_solver).
  unfold isErrorChannelOperator. destruct (contains errorChannelOperators t) eqn:Ec; [|rewrite <- not_true_iff_false, contains_spec in Ec].
  - apply contains_spec in Ec. pose proof (has_channel_spec (DObj ms)) as Hh. destruct (hasNamedErrorChannel (DObj ms)).
    + split; cbn [WithChannel WithoutChannel]; [rewrite sum_counts_bump; lia|]. exists 0. split; [lia|]. split; [lia|]. split; [lia|]. intros (t' & _ & _ & Hn). by destruct Hn; apply Hh.
    + split; cbn [WithChannel WithoutChannel]; [lia|]. exists 1. rewrite sum_counts_bump. split; [done|]. split; [lia|]. split; [|lia]. intros _. exists t. split; [done|]. split; [done|].
      intros Hn%Hh. done.
  - case_match; [|apply adds_nothing; intros (t' & [= <-] & Ht & _); done]. split; cbn; [lia|]. exists 0. split; [lia|]. split; [lia|]. split; [lia|].
    intros (t' & [= <-] & Ht & _). done.
Qed.
Lemma survey_walk_adds d : ∀ out, adds out (survey_walk out d) (unreportable_in d).
Proof.
  induction d as [| | | |l IH|ms IH] using doc_ind'; intros out; try (apply adds_nothing; intros (ms & Hw & _); by inversion Hw).
  - apply (adds_iff _ _ (∃ v, v ∈ l ∧ unreportable_in v)).
    { unfold unreportable_in. setoid_rewrite within_array. naive_solver. }
    cbn. revert out. induction IH as [|v l Hv _ IHl]; intros out; [apply adds_nothing; by intros (v & ?%not_elem_of_nil & _)|].
    cbn. eapply adds_iff; [|eapply adds_trans; [apply Hv|apply IHl]]. setoid_rewrite elem_of_cons. naive_solver.
  - apply (adds_iff _ _ (unreportable_object ms ∨ ∃ k v, (k, v) ∈ ms ∧ unreportable_in v)).
    { unfold unreportable_in. setoid_rewrite within_object. naive_solver. }
    cbn. apply adds_trans with (o2 := survey_object out ms); [apply survey_object_adds|]. generalize (survey_object out ms). clear out.
    induction IH as [|[k v] l Hv _ IHl]; intros out; [apply adds_nothing; by intros (k & v & ?%not_elem_of_nil & _)|].
    cbn. eapply adds_iff; [|eapply adds_trans; [apply Hv|apply IHl]]. setoid_rewrite elem_of_cons. naive_solver.
Qed.
Lemma surveyOperators_spec d : (Unreportable (surveyOperators d) =? 0) = false ↔ unreportable_in d.
Proof.
  unfold surveyOperators, Unreportable. destruct (survey_walk_adds d (mkInstances ∅ ∅ 0)) as (_ & n & -> & Hn & Hi). rewrite <- Hi. cbn [WithoutChannel].
  change (sum_counts ∅) with 0. rewrite Z.eqb_neq. lia.
Qed.
Lemma surveyOperators_total d : Unreportable (surveyOperators d) ≤ Total (surveyOperators d) ∧ 0 ≤ Unreportable (surveyOperators d).
Proof.
  unfold surveyOperators, Total, Unreportable. destruct (survey_walk_adds d (mkInstances ∅ ∅ 0)) as (H & n & -> & Hn & _). cbn in H |- *.
  change (sum_counts ∅) with 0 in *. lia.
Qed.

(** ** The questions, on the tables *)

(** Whether a locus can be asked, and whether it then holds. *)
Record question := mkQuestion { asked : Prop; holds : Prop }.
Definition answers (q : question) (v : Verdict) : Prop :=
  match v with Present => asked q ∧ holds q | Absent => asked q ∧ ¬ holds q | NotEvaluable => ¬ asked q end.

Section questions.
Context (c : Classifier) (db : tables) (now : instant) (s : string) (baselineFor : Z) (headers : list status_row) (details : list details_row).

(** A worker row of the session. *)
Definition mine (d : details_row) : Prop := d ∈ details ∧ dr_session_id d = s ∧ 0 ≤ dr_start_time d < now.
Definition is_header (h : status_row) : Prop := List.find (λ h, String.eqb (sr_session_id h) s) headers = Some h.
Definition finished (h : status_row) : Prop := sr_status h ∈ terminalRunStatuses.
(** The run is older than the worker rows that were kept. *)
Definition maybe_purged (h : status_row) : Prop :=
  finished h ∧ (∀ d, ¬ mine d) ∧ oldest (dr_start_time <$> details) ≠ 0 ∧ sr_start_time h < oldest (dr_start_time <$> details).
(** The rows of a step before the run. *)
Definition prior_window (h : status_row) : Window := mkWindow (sr_start_time h - baselineFor) (sr_start_time h) (sr_client h) (sr_process_name h) "" 0.
Definition prior_rows (h : status_row) (step : string) : list details_row :=
  group_rows (sr_client h, sr_process_name h, sr_main_object_type h, step) (joined_rows headers (List.filter (in_window now (prior_window h)) details)).
Definition expected (h : status_row) (step : string) : Prop :=
  prior_rows h step ≠ [] ∧ cl_MinPriorRuns c ≤ Z.of_nat (length (remove_dups (dr_status_key <$> prior_rows h step))).

Definition questions : list question :=
  [mkQuestion (∃ h, is_header h ∧ ¬ maybe_purged h) (∃ h, is_header h ∧ finished h ∧ ∀ d, ¬ mine d);
   mkQuestion (0 < baselineFor ∧ ∃ h, is_header h ∧ ∃ step, expected h step)
     (∃ h step, is_header h ∧ expected h step ∧ ∀ d, mine d → default "" (dr_cpipes_step_id d) ≠ step);
   mkQuestion ((∃ d, mine d) ∧ ∃ h, is_header h) (∃ d h, mine d ∧ dr_status d = StatusInProgress ∧ header_of headers d = Some h ∧ finished h);
   mkQuestion (∃ d, mine d) (∃ d, mine d ∧ dr_status d = StatusFailed);
   mkQuestion (∃ rows r, channel_details db = Some rows ∧ r ∈ rows ∧ cr_session_id r = s)
     (∃ rows r d, channel_details db = Some rows ∧ r ∈ rows ∧ cr_session_id r = s ∧ default "" (cr_error_message r) ≠ "" ∧
       List.find (λ d, dr_key d =? cr_details_key r) details = Some d ∧ dr_status d = StatusCompleted);
   mkQuestion (∃ d, mine d ∧ dr_status d = StatusCompleted ∧ is_Some (dr_input_records d) ∧ is_Some (dr_output_records d))
     (∃ d, mine d ∧ is_Some (collapsed (Volume c) (worker_of headers d)));
   mkQuestion (is_Some (process_errors db)) (∃ rows e, process_errors db = Some rows ∧ e ∈ rows ∧ er_session_id e = s);
   mkQuestion (∃ rows r d, cpipes_execution_status db = Some rows ∧ List.find (λ r, String.eqb r.1 s) rows = Some (r, Config d))
     (∃ rows r d, cpipes_execution_status db = Some rows ∧ List.find (λ r, String.eqb r.1 s) rows = Some (r, Config d) ∧ unreportable_in d);
   mkQuestion False False].
End questions.
(** Without the record, nothing can be asked. *)
Definition questions_of (c : Classifier) (db : tables) (now : instant) (s : string) (baselineFor : Z) : list question :=
  match execution_status db, execution_details db with
  | Some headers, Some details => questions c db now s baselineFor headers details
  | _, _ => replicate 9 (mkQuestion False False)
  end.

(** ** What is read *)
Lemma elem_of_List_filter {A} (p : A → bool) l x : x ∈ List.filter p l ↔ x ∈ l ∧ p x = true.
Proof. by rewrite !list_elem_of_In, filter_In. Qed.
Lemma List_filter_nil {A} (p : A → bool) l : List.filter p l = [] ↔ ∀ x, x ∈ l → p x = false.
Proof.
  split; [intros E x Hx; apply not_true_iff_false; intros Hp; assert (H : x ∈ List.filter p l) by (by apply elem_of_List_filter); rewrite E in H; by apply not_elem_of_nil in H|].
  intros Hl. destruct (List.filter p l) as [|x r] eqn:E; [done|]. assert (H : x ∈ List.filter p l) by (rewrite E; apply elem_of_cons; by left).
  apply elem_of_List_filter in H as [Hx Hp]. rewrite (Hl x Hx) in Hp. done.
Qed.
Lemma in_window_all now s d : s ≠ "" → (in_window now (mkWindow 0 0 "" "" s 0) d && optional s (dr_session_id d) = true) ↔ dr_session_id d = s ∧ 0 ≤ dr_start_time d < now.
Proof.
  intros Hs. unfold in_window, optional, until. cbn. rewrite !andb_true_r, !andb_true_iff, Z.leb_le, Z.ltb_lt.
  apply String.eqb_neq in Hs. rewrite Hs. cbn. rewrite String.eqb_eq. tauto.
Qed.
(** The worker rows of the session. *)
Lemma session_workers db now s headers details : s ≠ "" → execution_status db = Some headers → execution_details db = Some details →
  ∃ ws, Workers db now (mkWindow 0 0 "" "" s 0) = Ret ws ∧ ws_Truncated ws = false ∧ ∀ r, r ∈ ws_Rows ws ↔ ∃ d, mine now s details d ∧ r = worker_of headers d.
Proof.
  intros Hs Eh Ed. unfold Workers. rewrite Ed, Eh. cbn [query res_bind w_Limit]. change (0 <? 0) with false. cbn [andb]. eexists. split; [done|]. cbn [ws_Rows ws_Truncated]. split; [done|].
  intros r. rewrite list_elem_of_fmap. setoid_rewrite merge_sort_Permutation. setoid_rewrite elem_of_List_filter. setoid_rewrite (in_window_all now s _ Hs). unfold mine. naive_solver.
Qed.

Section gathered.
Context (c : Classifier) (db : tables) (now : instant) (s : string) (baselineFor : Z) (headers : list status_row) (details : list details_row).
Hypothesis Hs : s ≠ "".
Hypothesis Eh : execution_status db = Some headers.
Hypothesis Ed : execution_details db = Some details.
Abbreviation header := (List.find (λ h, String.eqb (sr_session_id h) s) headers).

Record gathered (ev : triage_Evidence) : Prop := {
  ga_session : ev_SessionId ev = s;
  ga_extent : ev_Extent ev = Some (triage_ReadExtent db);
  ga_header : ev_Header ev = run_header <$> header;
  ga_workers : is_Some (ev_Workers ev) ∧ ∀ r, r ∈ workerRows ev ↔ ∃ d, mine now s details d ∧ r = worker_of headers d;
  ga_errors : ∀ rows, process_errors db = Some rows → ∃ e, ev_Errors ev = Some e ∧ (es_Rows e = 0 ↔ ∀ r, r ∈ rows → er_session_id r ≠ s);
  ga_edges : ∀ rows, channel_details db = Some rows → ∀ e, e ∈ ev_Edges ev ↔ ∃ r, r ∈ rows ∧ cr_session_id r = s ∧ e = edge_of details r;
  ga_survey : ∀ rows, cpipes_execution_status db = Some rows → ∃ sv, ev_Survey ev = Some sv ∧
    match List.find (λ r, String.eqb r.1 s) rows with Some (_, Config d) => sv_Read sv = true ∧ sv_Operators sv = surveyOperators d | _ => sv_Read sv = false end;
  ga_prior : ∀ h, header = Some h → ev_Prior ev = if 0 <? baselineFor then match StepBaselines db now (prior_window baselineFor h) with Ret p => Some p | _ => None end else None;
  ga_no_prior : baselineFor ≤ 0 → ev_Prior ev = None }.

Lemma record_deployed : ExecutionRecord (te_Extent (triage_ReadExtent db)) = true.
Proof. unfold triage_ReadExtent, ReadExtent. by rewrite Eh, Ed. Qed.
Lemma StepBaselines_ret w : ∃ p, StepBaselines db now w = Ret p.
Proof. unfold StepBaselines. rewrite Eh, Ed. cbn [query res_bind]. by eexists. Qed.
Lemma errors_read rows : process_errors db = Some rows → ∃ e, ReadErrorSummary db s = Ret e ∧ (es_Rows e = 0 ↔ ∀ r, r ∈ rows → er_session_id r ≠ s).
Proof.
  intros E. unfold ReadErrorSummary. rewrite E. cbn [query res_bind]. eexists. split; [done|]. cbn [es_Rows].
  transitivity (List.filter (λ e, String.eqb (er_session_id e) s) rows = []).
  { destruct (List.filter _ rows); cbn; [done|]. split; [lia|done]. }
  rewrite List_filter_nil. by setoid_rewrite String.eqb_neq.
Qed.
Lemma edges_read rows : channel_details db = Some rows → ∃ es, ReadEdges db s = Ret es ∧ ∀ e, e ∈ es ↔ ∃ r, r ∈ rows ∧ cr_session_id r = s ∧ e = edge_of details r.
Proof.
  intros E. unfold ReadEdges. rewrite E, Ed. cbn [query res_bind]. eexists. split; [done|]. intros e. rewrite list_elem_of_fmap. setoid_rewrite merge_sort_Permutation.
  setoid_rewrite elem_of_List_filter. setoid_rewrite String.eqb_eq. naive_solver.
Qed.
Lemma survey_read rows : cpipes_execution_status db = Some rows → ∃ sv cc, ReadConfigSurvey db s = Ret sv ∧ ReadConfigConfounders db s = Ret cc ∧
  match List.find (λ r, String.eqb r.1 s) rows with Some (_, Config d) => sv_Read sv = true ∧ sv_Operators sv = surveyOperators d | _ => sv_Read sv = false end.
Proof.
  intros E. apply String.eqb_neq in Hs. unfold ReadConfigSurvey, ReadConfigConfounders. rewrite Hs, E. cbn [query res_bind]. repeat case_match; eexists _, _; (split; [done|]); by split.
Qed.
Lemma gather_ok : ∃ ev, triage_Gather db now s baselineFor = Ret ev ∧ gathered ev.
Proof.
  destruct (session_workers db now s headers details Hs Eh Ed) as (ws & Ew & _ & Hws). unfold triage_Gather. rewrite record_deployed. cbn [negb]. unfold ReadHeader. rewrite Eh. cbn [query res_bind].
  rewrite Ew. cbn [res_bind]. unfold triage_ReadExtent at 1 2 3 4. cbn [ProcessErrors CpipesStatus te_Extent].
  assert (Hch : ChannelDetails (ReadExtent db) = deployed (channel_details db)) by (unfold ReadExtent; by rewrite Eh, Ed). rewrite Hch.
  assert (He : ∃ oe, read_if (deployed (process_errors db)) (ReadErrorSummary db s) = Ret oe ∧
    ∀ rows, process_errors db = Some rows → ∃ e, oe = Some e ∧ (es_Rows e = 0 ↔ ∀ r, r ∈ rows → er_session_id r ≠ s)).
  { destruct (process_errors db) as [rows|] eqn:E; [|by exists None]. destruct (errors_read rows E) as (e & Ee & He). exists (Some e). cbn. rewrite Ee. split; [done|]. intros ? [= <-]. by exists e. }
  destruct He as (oe & -> & He). cbn [res_bind].
  assert (Hg : ∃ og, read_if (deployed (channel_details db)) (ReadEdges db s) = Ret og ∧
    ∀ rows, channel_details db = Some rows → ∀ e, e ∈ default [] og ↔ ∃ r, r ∈ rows ∧ cr_session_id r = s ∧ e = edge_of details r).
  { destruct (channel_details db) as [rows|] eqn:E; [|by exists None]. destruct (edges_read rows E) as (es & Ee & Hes). exists (Some es). cbn. rewrite Ee. split; [done|]. by intros ? [= <-]. }
  destruct Hg as (og & -> & Hg). cbn [res_bind].
  assert (Hc : ∃ oc ov, read_if (deployed (cpipes_execution_status db)) (ReadConfigConfounders db s) = Ret oc ∧
    read_if (deployed (cpipes_execution_status db)) (ReadConfigSurvey db s) = Ret ov ∧
    ∀ rows, cpipes_execution_status db = Some rows → ∃ sv, ov = Some sv ∧
      match List.find (λ r, String.eqb r.1 s) rows with Some (_, Config d) => sv_Read sv = true ∧ sv_Operators sv = surveyOperators d | _ => sv_Read sv = false end).
  { destruct (cpipes_execution_status db) as [rows|] eqn:E; [|by exists None, None]. destruct (survey_read rows E) as (sv & cc & E1 & E2 & Hsv). exists (Some cc), (Some sv). cbn. rewrite E1, E2.
    split; [done|]. split; [done|]. intros ? [= <-]. by exists sv. }
  destruct Hc as (oc & ov & -> & -> & Hc). cbn [res_bind].
  assert (Hp : ∀ w, read_if true (StepBaselines db now w) = Ret (match StepBaselines db now w with Ret p => Some p | _ => None end)).
  { intros w. destruct (StepBaselines_ret w) as [p Ep]. cbn. by rewrite Ep. }
  destruct (0 <? baselineFor) eqn:Eb; [|cbn [res_bind]; eexists; split; [done|]; split; cbn; try by eauto; intros h _; by rewrite Eb].
  destruct (runStart (run_header <$> header) ws) as [start|] eqn:Est; rewrite ?Hp; cbn [res_bind]; eexists; (split; [done|]); split; cbn; try by eauto.
  - intros h Eh'. rewrite Eb. rewrite Eh' in *. cbn in Est. injection Est as <-. done.
  - apply Z.ltb_lt in Eb. lia.
  - intros h Eh'. rewrite Eh' in Est. done.
Qed.

(** ** The answers *)
Section answers.
Context `{GoArch} (ev : triage_Evidence).
Hypothesis Hev : gathered ev.
Abbreviation nth_question i := (nth i (questions c db now s baselineFor headers details) (mkQuestion False False)).

Lemma ask locus f : on_record ev locus f = f (triage_ReadExtent db).
Proof. unfold on_record. rewrite (ga_extent _ Hev), record_deployed. done. Qed.
Lemma no_rows : workerRows ev = [] ↔ ∀ d, ¬ mine now s details d.
Proof.
  destruct (ga_workers _ Hev) as [_ Hw]. split.
  - intros E d Hd. assert (Hr : worker_of headers d ∈ workerRows ev) by (apply Hw; by exists d). rewrite E in Hr. by apply not_elem_of_nil in Hr.
  - intros Hn. destruct (workerRows ev) as [|r rows]; [done|]. destruct (proj1 (Hw r)) as (d & Hd & _); [apply elem_of_cons; by left|]. by destruct (Hn d).
Qed.
Lemma some_rows r rows : workerRows ev = r :: rows → ∃ d, mine now s details d.
Proof. intros E. destruct (proj1 (proj2 (ga_workers _ Hev) r)) as (d & Hd & _); [rewrite E; apply elem_of_cons; by left|]. by exists d. Qed.
(** A test on the worker rows is one on the rows of the session. *)
Lemma rows_where (p : WorkerRow → bool) : List.filter p (workerRows ev) = [] ↔ ∀ d, mine now s details d → p (worker_of headers d) = false.
Proof.
  rewrite List_filter_nil. destruct (ga_workers _ Hev) as [_ Hw]. split; [intros Hf d Hd; apply Hf, Hw; by exists d|]. intros Hf r (d & Hd & ->)%Hw. by apply Hf.
Qed.
Lemma rows_exist (p : WorkerRow → bool) r rows : List.filter p (workerRows ev) = r :: rows → ∃ d, mine now s details d ∧ p (worker_of headers d) = true.
Proof.
  intros E. assert (Hr : r ∈ List.filter p (workerRows ev)) by (rewrite E; apply elem_of_cons; by left). apply elem_of_List_filter in Hr as [Hr Hp].
  apply (proj2 (ga_workers _ Hev)) in Hr as (d & Hd & ->). by exists d.
Qed.
Lemma Terminal_spec h : header_Terminal (run_header h) = true ↔ finished h.
Proof. unfold header_Terminal, finished. by rewrite contains_spec. Qed.

Lemma runNotStarted_answers : answers (nth_question 0) (fi_Verdict (runNotStarted ev)).
Proof.
  unfold runNotStarted. rewrite ask. cbv beta. rewrite (ga_header _ Hev). cbn [nth questions answers asked holds]. unfold is_header.
  destruct header as [h|] eqn:E; cbn [fmap option_fmap option_map]; [|by intros (h & ? & _)].
  destruct (header_Terminal (run_header h)) eqn:Et; cbn [negb].
  2:{ rewrite <- not_true_iff_false, Terminal_spec in Et. split; [exists h; split; [done|]; by intros (? & _)|]. intros (h' & [= <-] & ? & _). done. }
  apply Terminal_spec in Et. destruct (workerRows ev) as [|r rows] eqn:Er.
  2:{ destruct (some_rows r rows Er) as [d Hd]. split; [exists h; split; [done|]; intros (_ & Hn & _); by destruct (Hn d)|]. intros (h' & _ & _ & Hn). by destruct (Hn d). }
  pose proof (proj1 no_rows Er) as Hn. unfold triage_ReadExtent, ReadExtent. rewrite Eh, Ed. cbn [te_Extent OldestWorker rh_StartTime run_header].
  destruct (negb (oldest (dr_start_time <$> details) =? 0) && (sr_start_time h <? oldest (dr_start_time <$> details))) eqn:Eo; cbn [fi_Verdict notEvaluable finding answers].
  - apply andb_true_iff in Eo as [Eo1%negb_true_iff%Z.eqb_neq Eo2%Z.ltb_lt]. intros (h' & [= <-] & Hp). by apply Hp.
  - split; [|by exists h]. exists h. split; [done|]. intros (_ & _ & H1 & H2). apply Z.eqb_neq in H1. apply Z.ltb_lt in H2. by rewrite H1, H2 in Eo.
Qed.
Lemma workerNotTerminated_answers : answers (nth_question 2) (fi_Verdict (workerNotTerminated ev)).
Proof.
  unfold workerNotTerminated. rewrite ask. cbv beta. rewrite (ga_header _ Hev). cbn [nth questions answers asked holds]. unfold is_header.
  destruct (workerRows ev) as [|r rows] eqn:Er; [intros [[d Hd] _]; by apply (proj1 no_rows Er d)|]. rewrite <- Er. destruct (some_rows r rows Er) as [d0 Hd0].
  destruct header as [h|] eqn:E; cbn [fmap option_fmap option_map]; [|by intros [_ [h ?]]].
  assert (Hst : ∀ d, Stalled (worker_of headers d) = true ↔ ∃ h, dr_status d = StatusInProgress ∧ header_of headers d = Some h ∧ finished h).
  { intros d. unfold Stalled, worker_of. cbn [wr_HasHeader wr_Status wr_RunStatus]. rewrite !andb_true_iff, String.eqb_eq, contains_spec. unfold finished. destruct (header_of headers d) as [h'|]; cbn; [|naive_solver].
    split; [intros [[_ ?] ?]; by exists h'|by intros (? & ? & [= <-] & ?)]. }
  destruct (List.filter Stalled (workerRows ev)) as [|x xs] eqn:Ef; cbn [fi_Verdict absent finding answers]; (split; [split; by eauto|]).
  - intros (d & h' & Hd & H1 & H2 & H3). pose proof (proj1 (rows_where Stalled) Ef d Hd) as Hf. assert (Stalled (worker_of headers d) = true) by (apply Hst; by exists h'). congruence.
  - destruct (rows_exist _ _ _ Ef) as (d & Hd & (h' & ? & ? & ?)%Hst). by exists d, h'.
Qed.
Lemma workerFailed_answers : answers (nth_question 3) (fi_Verdict (workerFailed ev)).
Proof.
  unfold workerFailed. rewrite ask. cbv beta. cbn [nth questions answers asked holds].
  destruct (workerRows ev) as [|r rows] eqn:Er; [intros [d Hd]; by apply (proj1 no_rows Er d)|]. rewrite <- Er. pose proof (some_rows r rows Er) as Hsome.
  destruct (List.filter _ (workerRows ev)) as [|x xs] eqn:Ef; cbn [fi_Verdict absent finding answers]; (split; [done|]).
  - intros (d & Hd & Hf). pose proof (proj1 (rows_where _) Ef d Hd) as Hn. apply String.eqb_neq in Hn. done.
  - destruct (rows_exist _ _ _ Ef) as (d & Hd & Hf%String.eqb_eq). by exists d.
Qed.
Lemma sinkFailed_answers : answers (nth_question 4) (fi_Verdict (sinkFailedUnderCompletedWorker ev)).
Proof.
  unfold sinkFailedUnderCompletedWorker. rewrite ask. cbv beta. cbn [nth questions answers asked holds].
  assert (Hch : ChannelDetails (te_Extent (triage_ReadExtent db)) = deployed (channel_details db)) by (unfold triage_ReadExtent, ReadExtent; by rewrite Eh, Ed). rewrite Hch.
  destruct (channel_details db) as [rows|] eqn:E; cbn [deployed negb]; [|by intros (? & ? & ? & _)]. pose proof (ga_edges _ Hev rows E) as Hg.
  destruct (ev_Edges ev) as [|e0 es] eqn:Ee.
  { intros (rows' & r & [= <-] & Hr & Hsr). assert (Hin : edge_of details r ∈ []) by (apply Hg; by exists r). by apply not_elem_of_nil in Hin. }
  assert (Hask : ∃ rows' r, Some rows = Some rows' ∧ r ∈ rows' ∧ cr_session_id r = s).
  { destruct (proj1 (Hg e0)) as (r & ? & ? & _); [apply elem_of_cons; by left|]. by exists rows, r. }
  assert (Hhit : ∀ r, (negb (String.eqb (ed_ErrorMessage (edge_of details r)) "") && String.eqb (ed_ParentStatus (edge_of details r)) StatusCompleted) = true ↔
    default "" (cr_error_message r) ≠ "" ∧ ∃ d, List.find (λ d, dr_key d =? cr_details_key r) details = Some d ∧ dr_status d = StatusCompleted).
  { intros r. rewrite andb_true_iff, negb_true_iff, String.eqb_eq, String.eqb_neq. unfold edge_of. cbn [ed_ErrorMessage ed_ParentStatus].
    destruct (List.find _ details) as [d|]; cbn; [|naive_solver]. split; [intros [? ?]; split; [done|]; by exists d|by intros (? & ? & [= <-] & ?)]. }
  destruct (List.filter _ (e0 :: es)) as [|x xs] eqn:Ef; cbn [fi_Verdict absent finding answers]; (split; [done|]).
  - intros (rows' & r & d & [= <-] & Hr & Hsr & Hm & Hf & Hd). rewrite List_filter_nil in Ef. assert (Hin : edge_of details r ∈ e0 :: es) by (apply Hg; by exists r).
    specialize (Ef _ Hin). apply not_true_iff_false in Ef. apply Ef, Hhit. split; [done|]. by exists d.
  - assert (Hx : x ∈ List.filter (λ e, negb (String.eqb (ed_ErrorMessage e) "") && String.eqb (ed_ParentStatus e) StatusCompleted) (e0 :: es)) by (rewrite Ef; apply elem_of_cons; by left).
    apply elem_of_List_filter in Hx as [Hx Hp]. apply Hg in Hx as (r & Hr & Hsr & ->). apply Hhit in Hp as (? & d & ? & ?). by exists rows, r, d.
Qed.
Lemma volume_Detect_nil d t oe ws : oe_Workers oe = Some ws → volume_Detect d t oe = [] ↔ ∀ r, r ∈ ws_Rows ws → collapsed d r = None.
Proof.
  intros E. unfold volume_Detect. rewrite E. rewrite <- Forall_forall. induction (ws_Rows ws) as [|r rows IH]; [by split; [constructor|]|]. rewrite Forall_cons. cbn.
  unfold volume_anomaly at 1. destruct (collapsed d r) as [[[? ?] ?]|]; cbn; [naive_solver|]. rewrite IH. naive_solver.
Qed.
Lemma rowsLostSilently_answers : answers (nth_question 5) (fi_Verdict (rowsLostSilently c ev)).
Proof.
  unfold rowsLostSilently. rewrite ask. cbv beta. cbn [nth questions answers asked holds].
  assert (Hcol : ∀ d, is_Some (collapsed (Volume c) (worker_of headers d)) → dr_status d = StatusCompleted ∧ is_Some (dr_input_records d) ∧ is_Some (dr_output_records d)).
  { intros d. unfold collapsed. cbn. destruct (String.eqb (dr_status d) StatusCompleted) eqn:Es; cbn; [|by intros [? ?]]. apply String.eqb_eq in Es.
    destruct (dr_input_records d), (dr_output_records d); by intros [? ?]. }
  destruct (workerRows ev) as [|r rows] eqn:Er; [intros (d & Hd & _); by apply (proj1 no_rows Er d)|]. rewrite <- Er. cbv zeta.
  destruct (List.filter is_completed (workerRows ev)) as [|x xs] eqn:Ec.
  { intros (d & Hd & Hst & _). pose proof (proj1 (rows_where _) Ec d Hd) as Hn. apply String.eqb_neq in Hn. done. }
  destruct (List.filter _ (x :: xs)) as [|y ys] eqn:Eb.
  { intros (d & Hd & Hst & Hi & Ho). rewrite List_filter_nil in Eb. assert (Hin : worker_of headers d ∈ x :: xs).
    { rewrite <- Ec. apply elem_of_List_filter. split; [apply (proj2 (ga_workers _ Hev)); by exists d|by apply String.eqb_eq]. }
    specialize (Eb _ Hin). cbn in Eb. destruct Hi as [? Hi], Ho as [? Ho]. by rewrite Hi, Ho in Eb. }
  assert (Hask : ∃ d, mine now s details d ∧ dr_status d = StatusCompleted ∧ is_Some (dr_input_records d) ∧ is_Some (dr_output_records d)).
  { assert (Hy : y ∈ List.filter (λ r, deployed (wr_InputRecords r) && deployed (wr_OutputRecords r)) (x :: xs)) by (rewrite Eb; apply elem_of_cons; by left).
    apply elem_of_List_filter in Hy as [Hy Hp]. rewrite <- Ec in Hy. apply elem_of_List_filter in Hy as [Hy Hs']. apply (proj2 (ga_workers _ Hev)) in Hy as (d & Hd & ->).
    apply String.eqb_eq in Hs'. exists d. split; [done|]. split; [done|]. cbn in Hp. destruct (dr_input_records d), (dr_output_records d); by eauto. }
  destruct (ga_workers _ Hev) as [[ws Ews] Hw]. assert (Ers : workerRows ev = ws_Rows ws) by (unfold workerRows; by rewrite Ews).
  pose proof (volume_Detect_nil (Volume c) 0 (volume_evidence ev (triage_ReadExtent db)) ws Ews) as Hnil.
  destruct (volume_Detect _ _ _) as [|a l] eqn:Ea; cbn [fi_Verdict absent finding answers].
  - split; [done|]. intros (d & Hd & [? Hcd]). pose proof (proj1 Hnil eq_refl (worker_of headers d)) as Hn. rewrite Hn in Hcd; [done|]. rewrite <- Ers. apply Hw. by exists d.
  - assert (Hv : ∃ d, mine now s details d ∧ is_Some (collapsed (Volume c) (worker_of headers d))).
    { destruct (Forall_Exists_dec (λ r, collapsed (Volume c) r = None) (λ r, collapsed (Volume c) r ≠ None) (λ r, decide (collapsed (Volume c) r = None)) (ws_Rows ws)) as [Hall|Hex].
      - rewrite Forall_forall in Hall. by pose proof (proj2 Hnil Hall).
      - apply Exists_exists in Hex as (w & Hin & Hne). rewrite <- Ers in Hin. apply Hw in Hin as (d & Hd & ->). exists d. split; [done|]. by apply not_eq_None_Some in Hne. }
    assert (Hf : ∀ rs sub f, fi_Verdict f = Present → fi_Verdict (localise rs sub f) = Present).
    { induction rs as [|w rs IH]; intros sub f Hf; [done|]. cbn. apply IH. by case_match. }
    destruct l; [rewrite Hf by done|]; by split.
Qed.
Lemma reported_answers : answers (nth_question 6) (fi_Verdict (perRecordFailuresReported ev)).
Proof.
  unfold perRecordFailuresReported. rewrite ask. cbv beta. cbn [nth questions answers asked holds]. unfold triage_ReadExtent. cbn [ProcessErrors].
  destruct (process_errors db) as [rows|] eqn:E; cbn [deployed]; [|by intros [? ?]]. destruct (ga_errors _ Hev rows E) as (e & -> & He).
  destruct (es_Rows e =? 0) eqn:E0; cbn [fi_Verdict absent finding answers]; (split; [by eexists|]).
  - apply Z.eqb_eq in E0. intros (rows' & r & [= <-] & Hr & Hsr). by apply (proj1 He E0 r).
  - apply Z.eqb_neq in E0. destruct (Forall_Exists_dec (λ r, er_session_id r ≠ s) (λ r, ¬ er_session_id r ≠ s) (λ r, decide (er_session_id r ≠ s)) rows) as [Hall|Hex].
    + rewrite Forall_forall in Hall. by apply He in Hall.
    + apply Exists_exists in Hex as (r & Hr & Hne). exists rows, r. split; [done|]. split; [done|]. by apply dec_stable.
Qed.
Lemma unreportable_answers : answers (nth_question 7) (fi_Verdict (perRecordFailuresUnreportable ev)).
Proof.
  unfold perRecordFailuresUnreportable. rewrite ask. cbv beta. cbn [nth questions answers asked holds]. unfold triage_ReadExtent. cbn [CpipesStatus].
  destruct (cpipes_execution_status db) as [rows|] eqn:E; cbn [deployed]; [|by intros (? & ? & ? & ? & _)]. destruct (ga_survey _ Hev rows E) as (sv & -> & Hsv).
  destruct (List.find _ rows) as [[r col]|] eqn:Ef; [|rewrite Hsv; cbn; intros (rows' & r & d & [= <-] & Hr); congruence].
  destruct col as [| |d]; [rewrite Hsv; cbn; intros (rows' & r' & d & [= <-] & Hr); congruence..|]. destruct Hsv as [-> ->]. cbn [negb].
  assert (Hask : ∃ rows' r' d', Some rows = Some rows' ∧ List.find (λ r, String.eqb r.1 s) rows' = Some (r', Config d')) by (by exists rows, r, d).
  pose proof (surveyOperators_spec d) as Hu. pose proof (surveyOperators_total d) as [Ht1 Ht2].
  assert (Hno : ¬ unreportable_in d → ¬ ∃ rows' r' d', Some rows = Some rows' ∧ List.find (λ r, String.eqb r.1 s) rows' = Some (r', Config d') ∧ unreportable_in d').
  { intros Hn (rows' & r' & d' & [= <-] & Hf & Hd'). rewrite Ef in Hf. injection Hf as _ <-. done. }
  destruct (Total (surveyOperators d) =? 0) eqn:Et; [|destruct (Unreportable (surveyOperators d) =? 0) eqn:Eu]; cbn [fi_Verdict absent finding answers]; (split; [done|]).
  - apply Hno. rewrite <- Hu. apply Z.eqb_eq in Et. rewrite Z.eqb_neq. lia.
  - apply Hno. rewrite <- Hu. done.
  - exists rows, r, d. split; [done|]. split; [done|]. by apply Hu.
Qed.
Lemma writtenNotArrived_answers : answers (nth_question 8) (fi_Verdict (writtenNotArrived ev)).
Proof. unfold writtenNotArrived. rewrite ask. cbv beta. destruct (negb _); by intros ?. Qed.

(** The steps that are considered are those a run of the source is expected to have. *)
Lemma considered_spec h p : StepBaselines db now (prior_window baselineFor h) = Ret p →
  ∀ step, (∃ b, b ∈ considered c (run_header h) p ∧ b_StepId b = step) ↔ expected c now baselineFor headers details h step.
Proof.
  unfold StepBaselines. rewrite Eh, Ed. cbn [query res_bind]. intros [= <-] step. unfold considered, expected, prior_rows. cbn [bs_Baselines].
  set (groups := joined_rows headers (List.filter (in_window now (prior_window baselineFor h)) details)).
  set (set0 := mkBaselineSet _ [] _ _).
  assert (Hsrc : ∀ src, src ∈ merge_sort source_le (remove_dups groups.*1) ↔ group_rows src groups ≠ []).
  { intros src. rewrite merge_sort_Permutation, elem_of_remove_dups, list_elem_of_fmap. unfold group_rows. split.
    - intros ([src' d] & -> & Hin) E. apply fmap_nil_inv in E. rewrite List_filter_nil in E. specialize (E _ Hin). by apply bool_decide_eq_false in E.
    - destruct (List.filter _ groups) as [|[src' d] l] eqn:E; [done|]. intros _. assert (Hin : (src', d) ∈ List.filter (λ sd, bool_decide (sd.1 = src)) groups) by (rewrite E; apply elem_of_cons; by left).
      apply elem_of_List_filter in Hin as [Hin Hb]. apply bool_decide_eq_true in Hb. by exists (src', d). }
  setoid_rewrite elem_of_List_filter. setoid_rewrite list_elem_of_fmap. setoid_rewrite Hsrc. split.
  - intros (b & ((src & -> & Hne) & Hp) & Est). destruct src as [[[cl pr] ot] st]. cbn in Hp, Est. subst st. rewrite !andb_true_iff, !String.eqb_eq, negb_true_iff, Z.ltb_ge in Hp.
    destruct Hp as [[[-> ->] ->] Hr]. done.
  - intros [Hne Hr]. eexists. split; [split; [eexists; split; [done|exact Hne]|]|done]. cbn. rewrite !String.eqb_refl. cbn. rewrite negb_true_iff, Z.ltb_ge. done.
Qed.
Lemma stepNeverStarted_answers : answers (nth_question 1) (fi_Verdict (stepNeverStarted c ev)).
Proof.
  unfold stepNeverStarted. rewrite ask. cbv beta. cbn [nth questions answers asked holds]. unfold is_header. rewrite (ga_header _ Hev).
  destruct (decide (0 < baselineFor)) as [Hb|Hb]; [|rewrite (ga_no_prior _ Hev) by lia; by intros [? _]].
  pose proof (ga_prior _ Hev) as Hprior. destruct header as [h|] eqn:E; cbn [fmap option_fmap option_map].
  2:{ by destruct (ev_Prior ev); intros (_ & h & ? & _). }
  destruct (StepBaselines_ret (prior_window baselineFor h)) as [p Ep]. pose proof (Hprior h eq_refl) as Epr. rewrite Ep, (proj2 (Z.ltb_lt 0 baselineFor) Hb) in Epr. rewrite Epr.
  pose proof (considered_spec h p Ep) as Hcs. cbv zeta.
  assert (Hrow : ∀ step, existsb (λ r, String.eqb (wr_StepId r) step) (workerRows ev) = false ↔ ∀ d, mine now s details d → default "" (dr_cpipes_step_id d) ≠ step).
  { intros step. rewrite <- not_true_iff_false, existsb_exists. setoid_rewrite <- list_elem_of_In. setoid_rewrite String.eqb_eq. split.
    - intros Hn d Hd Est. apply Hn. exists (worker_of headers d). split; [apply (proj2 (ga_workers _ Hev)); by exists d|done].
    - intros Hn (r & Hr & Est). apply (proj2 (ga_workers _ Hev)) in Hr as (d & Hd & ->). by apply (Hn d Hd). }
  destruct (considered c (run_header h) p) as [|b0 bs] eqn:Ec.
  { intros (_ & h' & [= <-] & step & Hx). apply Hcs in Hx as (b & Hin & _). by apply not_elem_of_nil in Hin. }
  assert (Hask : 0 < baselineFor ∧ ∃ h', Some h = Some h' ∧ ∃ step, expected c now baselineFor headers details h' step).
  { split; [done|]. exists h. split; [done|]. exists (b_StepId b0). apply Hcs. exists b0. split; [apply elem_of_cons; by left|done]. }
  destruct (List.filter _ (b0 :: bs)) as [|x xs] eqn:Ef; cbn [fi_Verdict absent finding answers]; (split; [done|]).
  - intros (h' & step & [= <-] & Hx & Hn). apply Hcs in Hx as (b & Hin & <-). rewrite List_filter_nil in Ef. specialize (Ef b Hin). rewrite negb_false_iff in Ef.
    apply Hrow in Hn. congruence.
  - assert (Hin : x ∈ List.filter (λ b, negb (existsb (λ r, String.eqb (wr_StepId r) (b_StepId b)) (workerRows ev))) (b0 :: bs)) by (rewrite Ef; apply elem_of_cons; by left).
    apply elem_of_List_filter in Hin as [Hin Hx]. apply negb_true_iff in Hx. pose proof (proj1 (Hrow _) Hx) as Hx2. clear Hx. exists h, (b_StepId x). split; [done|]. split; [|exact Hx2]. apply Hcs. by exists x.
Qed.
End answers.
End gathered.

(** ** The report of a run *)
Lemma finding_valid `{GoArch} c ev locus f : ev_SessionId ev ≠ "" → locus ∈ Loci → finding_ok locus f → fi_SessionId f = ev_SessionId ev → fi_ClassifierRef f = triage_Ref c →
  Finding_Validate f = None.
Proof.
  intros Hs Hl [El Eb Hc Hst] E1 E2. unfold Finding_Validate. rewrite E1, E2, El, Eb. apply String.eqb_neq in Hs. rewrite Hs, (proj2 (contains_spec _ _) Hl). cbn [negb].
  change (String.eqb (triage_Ref c) "") with false. cbv iota. rewrite (proj1 (all_confounders_bool _) Hc). cbn [negb].
  destruct Hst as [->|Hin]; [done|]. rewrite (proj2 (contains_spec _ _) Hin). by rewrite andb_false_r.
Qed.
Lemma classify_valid `{GoArch} c ev : ev_SessionId ev ≠ "" →
  fi_Locus <$> Findings (Classify c ev) = Loci ∧ Forall (λ f, Finding_Validate f = None) (Findings (Classify c ev)).
Proof.
  intros Hs. pose proof (classify_loci c ev) as Hf. assert (Hid : ∀ f, f ∈ Findings (Classify c ev) → fi_SessionId f = ev_SessionId ev ∧ fi_ClassifierRef f = triage_Ref c).
  { intros f (g & -> & _)%list_elem_of_fmap. done. }
  assert (Hl : ∀ l, l ∈ Loci → l ∈ Loci) by done. revert Hf Hid Hl. generalize (Findings (Classify c ev)). generalize Loci at 1 2 4. intros ls fs Hf. induction Hf as [|l f ls fs Hlf Hfs IH]; intros Hid Hl.
  { by split; [|constructor]. }
  destruct IH as [IH1 IH2]; [intros g Hg; apply Hid, elem_of_cons; by right|intros x Hx; apply Hl, elem_of_cons; by right|]. rewrite fmap_cons, IH1, (fo_locus _ _ Hlf). split; [done|].
  constructor; [|done]. destruct (Hid f ltac:(apply elem_of_cons; by left)) as [E1 E2]. apply (finding_valid c ev l); try done. apply Hl, elem_of_cons. by left.
Qed.

(** C13. The triage of a run reads its evidence without an error whatever part of the schema
    is deployed, and reports on the nine loci in order, each with a valid finding. A locus is
    present, absent or not evaluable exactly as the tables say: it is not evaluable when the
    rows it is about cannot be read, and otherwise it is present when it holds of them. *)
Theorem triage_answers `{GoArch} c db now s baselineFor : s ≠ "" → ∃ ev, triage_Gather db now s baselineFor = Ret ev ∧
  let findings := Findings (Classify c ev) in
  fi_Locus <$> findings = Loci ∧ Forall (λ f, fi_SessionId f = s ∧ Finding_Validate f = None) findings ∧
  Forall2 (λ q f, answers q (fi_Verdict f)) (questions_of c db now s baselineFor) findings.
Proof.
  intros Hs. assert (Hrest : ∀ ev, ev_SessionId ev = s → Forall2 (λ q f, answers q (fi_Verdict f)) (questions_of c db now s baselineFor) (Findings (Classify c ev)) →
    let findings := Findings (Classify c ev) in fi_Locus <$> findings = Loci ∧ Forall (λ f, fi_SessionId f = s ∧ Finding_Validate f = None) findings ∧
    Forall2 (λ q f, answers q (fi_Verdict f)) (questions_of c db now s baselineFor) findings).
  { intros ev Ev Ha. cbv zeta. destruct (classify_valid c ev) as [E1 E2]; [congruence|]. split; [done|]. split; [|done]. apply Forall_and. split; [|done].
    apply Forall_forall. intros f (g & -> & _)%list_elem_of_fmap. done. }
  unfold questions_of in *. destruct (execution_status db) as [headers|] eqn:Eh, (execution_details db) as [details|] eqn:Ed.
  1: { destruct (gather_ok db now s baselineFor headers details Hs Eh Ed) as (ev & E & Hev). exists ev. split; [done|]. apply Hrest; [apply Hev|].
    cbn [Findings Classify fmap list_fmap]. repeat (apply Forall2_cons; split; [unfold completed_finding; cbn [fi_Verdict]|]); [..|constructor].
    - by apply (runNotStarted_answers c db now s baselineFor headers details).
    - by apply (stepNeverStarted_answers c db now s baselineFor headers details).
    - by apply (workerNotTerminated_answers c db now s baselineFor headers details).
    - by apply (workerFailed_answers c db now s baselineFor headers details).
    - by apply (sinkFailed_answers c db now s baselineFor headers details).
    - by apply (rowsLostSilently_answers c db now s baselineFor headers details).
    - by apply (reported_answers c db now s baselineFor headers details).
    - by apply (unreportable_answers c db now s baselineFor headers details).
    - by apply (writtenNotArrived_answers c db now s baselineFor headers details). }
  all: unfold triage_Gather, triage_ReadExtent, ReadExtent; rewrite Eh, ?Ed; cbn [te_Extent ExecutionRecord negb]; eexists; (split; [done|]); apply Hrest; [done|].
  all: repeat (apply Forall2_cons; split; [by intros ?|]); constructor.
Qed.

(** Three runs of a step, then one that lost its rows and failed before the next step. *)
Definition demo_header (key : Z) (session status : string) (start : instant) : status_row :=
  mkStatusRow key session "acme" "claims" "Claim" status (Some "task stopped") start (start + 10).
Definition demo_worker (key run : Z) (session step status : string) (read got : option Z) (start : instant) : details_row :=
  mkDetailsRow key run session "acme" "claims" 7 0 "0p" (Some step) status None read None None None None got start (start + 5).
Definition demo_config : doc :=
  DObj [("pipes", DArr [DObj [("type", DStr "map_record"); ("on_error", DStr "drop"); ("output_channel", DObj [("name", DStr "out")])]])].
Definition demo_tables : tables := mkTables
  (Some [demo_header 1 "r1" "completed" 100; demo_header 2 "r2" "completed" 200; demo_header 3 "r3" "completed" 300; demo_header 4 "r4" "failed" 400])
  (Some [demo_worker 11 1 "r1" "reducing01" "completed" (Some 5000) (Some 5000) 101; demo_worker 12 2 "r2" "reducing01" "completed" (Some 5000) (Some 4900) 201;
     demo_worker 13 3 "r3" "reducing01" "completed" (Some 5000) (Some 5000) 301; demo_worker 14 4 "r4" "sharding" "completed" (Some 5000) (Some 12) 401;
     demo_worker 15 4 "r4" "sharding" "in progress" None None 402])
  None (Some []) (Some [("r4", Config demo_config)]) (Some []).
Definition demo_verdicts : list Verdict :=
  match triage_Gather demo_tables 1000 "r4" 390 with Ret ev => fi_Verdict <$> Findings (Classify triage_Default ev) | _ => [] end.
Lemma demo_verdicts_are : demo_verdicts = [Absent; Present; Present; Absent; NotEvaluable; Present; Absent; Present; NotEvaluable].
Proof. by vm_compute. Defined.
Lemma triage_answers_witness : ("r4" ≠ "") ∧ ∃ ev, triage_Gather demo_tables 1000 "r4" 390 = Ret ev ∧ fi_Locus <$> Findings (Classify triage_Default ev) = Loci ∧
  fi_Verdict <$> Findings (Classify triage_Default ev) = [Absent; Present; Present; Absent; NotEvaluable; Present; Absent; Present; NotEvaluable].
Proof.
  split; [done|]. destruct (triage_answers triage_Default demo_tables 1000 "r4" 390 ltac:(done)) as (ev & E & El & _). exists ev. split; [exact E|]. split; [exact El|].
  pose proof demo_verdicts_are as Hv. unfold demo_verdicts in Hv. rewrite E in Hv. exact Hv.
Defined.
