(* ===== verification/ObserveLaws.v ===== *)
(** * Properties of the detectors

    A step is said to have regressed exactly when it failed and its source completed before,
    in a window that holds no part of what is judged; and a run of the detectors records the
    volume collapses and the regressions there are, without changing or repeating one. *)
From stdpp Require Import base list strings gmap sorting.
From Stdlib Require Import ZArith Lia SpecFloat Ascii.
From S2P Require Import Prelude GoFloat GoText GoTextLaws ExecutionRecord Triage TriageLaws.
Local Open Scope string_scope.
Local Open Scope Z_scope.

#[local] Set Warnings "-register-all".

(** Every member of a list that is written out. *)
Ltac each_elem H := repeat (apply elem_of_cons in H as [ -> |H]); try (by apply not_elem_of_nil in H).

(** ** The index of the history *)
Abbreviation no_nul := (str_all (λ c, negb (Ascii.eqb c (ascii_of_nat 0)))).
Lemma baselineKey_inj c p o s c' p' o' s' : no_nul c = true → no_nul p = true → no_nul o = true → no_nul c' = true → no_nul p' = true → no_nul o' = true →
  baselineKey c p o s = baselineKey c' p' o' s' → (c, p, o, s) = (c', p', o', s').
Proof.
  intros Hc Hp Ho Hc' Hp' Ho' E. unfold baselineKey, NUL in E. apply sep_inj in E as [-> E]; [|done..]. apply sep_inj in E as [-> E]; [|done..]. by apply sep_inj in E as [-> ->].
Qed.
(** A map that is filled from a list whose keys differ. *)
Lemma foldl_index {A} (key : A → string) l : NoDup (key <$> l) → ∀ k a, foldl (λ m b, <[key b := b]> m) (∅ : gmap string A) l !! k = Some a ↔ a ∈ l ∧ key a = k.
Proof.
  induction l as [|b l IH] using rev_ind; intros Hnd k a; [split; [done|by intros [?%not_elem_of_nil _]]|]. rewrite foldl_app. cbn.
  rewrite fmap_app in Hnd. apply NoDup_app in Hnd as (Hl & Hd & _). rewrite lookup_insert_Some, (IH Hl), elem_of_app, list_elem_of_singleton. split; [naive_solver|].
  intros [[Ha| ->] <-]; [|by left]. right. split; [|done]. intros E. apply (Hd (key a)); [by apply list_elem_of_fmap_2|]. cbn. rewrite E. by apply list_elem_of_singleton.
Qed.

Section regression.
Context (db : tables) (now : instant) (headers : list status_row) (details : list details_row).
Hypothesis Eh : execution_status db = Some headers.
Hypothesis Ed : execution_details db = Some details.
(** A text column holds no NUL. *)
Hypothesis Hnul : ∀ d, d ∈ details → no_nul (dr_client d) = true ∧ no_nul (dr_process_name d) = true.
Hypothesis Hnul' : ∀ h, h ∈ headers → no_nul (sr_main_object_type h) = true.

(** The rows of a source in a window. *)
Definition history (w : Window) (src : source) : list details_row := group_rows src (joined_rows headers (List.filter (in_window now w) details)).
Lemma elem_of_rows_of src l d : d ∈ group_rows src l ↔ (src, d) ∈ l.
Proof.
  unfold group_rows. rewrite list_elem_of_fmap. setoid_rewrite elem_of_List_filter. setoid_rewrite bool_decide_eq_true. split; [intros ([? ?] & -> & ? & <-); done|].
  intros Hin. by exists (src, d).
Qed.
Lemma elem_of_history w src d : d ∈ history w src ↔ d ∈ details ∧ in_window now w d = true ∧ ∃ h, header_of headers d = Some h ∧ baseline_source d h = src.
Proof.
  unfold history. rewrite elem_of_rows_of. unfold joined_rows. rewrite list_elem_of_omap. setoid_rewrite elem_of_List_filter. split.
  - intros (d' & [Hd Hw] & E). destruct (header_of headers d') as [h|] eqn:Eh'; [|done]. injection E as <- <-. eauto.
  - intros (Hd & Hw & h & E & <-). exists d. split; [done|]. by rewrite E.
Qed.
Definition no_nul_source (src : source) : Prop := let '(c, p, o, _) := src in no_nul c = true ∧ no_nul p = true ∧ no_nul o = true.
Lemma source_no_nul d h : d ∈ details → header_of headers d = Some h → no_nul_source (baseline_source d h).
Proof.
  intros Hd Hh. unfold header_of in Hh. apply find_some in Hh as [Hh%list_elem_of_In _]. destruct (Hnul d Hd). cbn. auto.
Qed.
(** What the index says of a source. *)
Lemma index_spec w p src : StepBaselines db now w = Ret p → no_nul_source src →
  baseline_index p !! (let '(c, pr, o, s) := src in baselineKey c pr o s) =
  if decide (history w src = []) then None else Some (baseline_of (mkBaselineSet w [] (bs_Headerless p) (bs_Extent p)) src (history w src)).
Proof.
  intros E Hsrc. unfold StepBaselines in E. rewrite Eh, Ed in E. cbn [query res_bind] in E. injection E as <-. cbn [bs_Headerless bs_Extent].
  set (groups := joined_rows headers (List.filter (in_window now w) details)). set (set0 := mkBaselineSet w [] _ _).
  unfold baseline_index. cbn [bs_Baselines]. set (key := λ b, baselineKey (b_Client b) (b_ProcessName b) (b_MainObjectType b) (b_StepId b)).
  set (l := (λ s, baseline_of set0 s (group_rows s groups)) <$> merge_sort source_le (remove_dups groups.*1)).
  assert (Hkey : ∀ s, key (baseline_of set0 s (group_rows s groups)) = let '(c, pr, o, st) := s in baselineKey c pr o st) by (by intros [[[? ?] ?] ?]).
  assert (Hin : ∀ s, s ∈ merge_sort source_le (remove_dups groups.*1) ↔ history w s ≠ []).
  { intros s. rewrite merge_sort_Permutation, elem_of_remove_dups, list_elem_of_fmap. split.
    - intros ([s' d] & -> & Hd) Hn. cbn [fst] in Hn. apply elem_of_rows_of in Hd. unfold history in Hn. fold groups in Hn. rewrite Hn in Hd. by apply not_elem_of_nil in Hd.
    - intros Hne. destruct (history w s) as [|d ds] eqn:Ehs; [done|]. assert (Hd : d ∈ history w s) by (rewrite Ehs; apply elem_of_cons; by left). apply elem_of_rows_of in Hd. by exists (s, d). }
  assert (Hok : ∀ s, s ∈ merge_sort source_le (remove_dups groups.*1) → no_nul_source s).
  { intros s Hs. apply Hin in Hs. destruct (history w s) as [|d ds] eqn:Ehs; [done|]. assert (Hd : d ∈ history w s) by (rewrite Ehs; apply elem_of_cons; by left).
    apply elem_of_history in Hd as (Hd & _ & h & Hh & <-). by apply source_no_nul. }
  assert (Hinj : ∀ s s', no_nul_source s → no_nul_source s' → (let '(c, pr, o, st) := s in baselineKey c pr o st) = (let '(c, pr, o, st) := s' in baselineKey c pr o st) → s = s').
  { intros [[[? ?] ?] ?] [[[? ?] ?] ?] (? & ? & ?) (? & ? & ?). by apply baselineKey_inj. }
  assert (Hnd : NoDup (key <$> l)).
  { unfold l. rewrite <- list_fmap_compose. apply NoDup_fmap_2_strong; [|rewrite merge_sort_Permutation; apply NoDup_remove_dups].
    intros s s' Hs Hs' Ek. cbn in Ek. rewrite !Hkey in Ek. by apply Hinj; try apply Hok. }
  pose proof (foldl_index key l Hnd (let '(c, pr, o, st) := src in baselineKey c pr o st)) as Hl. fold key.
  destruct (decide (history w src = [])) as [Hn|Hn].
  - apply eq_None_not_Some. intros [b Hb]. apply Hl in Hb as [Hb Ek]. unfold l in Hb. apply list_elem_of_fmap in Hb as (s & -> & Hs). rewrite Hkey in Ek.
    apply Hinj in Ek as ->; [|by apply Hok|done]. by apply Hin in Hs.
  - apply Hl. split; [|by rewrite <- (Hkey src)]. unfold l. apply list_elem_of_fmap. exists src. split; [done|]. by apply Hin.
Qed.

(** The window before the one that is judged. *)
Definition before (w : Window) (baselineFor : Z) : Window := mkWindow (w_Since w - baselineFor) (w_Since w) (w_Client w) (w_ProcessName w) "" 0.
Definition judged (w : Window) (d : details_row) : Prop := d ∈ details ∧ in_window now w d = true ∧ optional (w_SessionId w) (dr_session_id d) = true.
(** The row failed, and enough runs of its source are known, of which one has completed. *)
Definition regressed (minPriorRuns : Z) (prior : Window) (d : details_row) : Prop :=
  dr_status d = StatusFailed ∧ ∃ h, header_of headers d = Some h ∧ let rows := history prior (baseline_source d h) in
    (∃ r, r ∈ rows ∧ dr_status r = StatusCompleted) ∧ minPriorRuns ≤ Z.of_nat (length (remove_dups (dr_status_key <$> rows))).
Definition about (d : StepRegression) (a : Anomaly) (r : details_row) : Prop :=
  an_AnomalyId a = regression_Ref d +:+ "/" +:+ Itoa (dr_key r) ∧ an_SubjectRef a = Itoa (dr_key r) ∧ an_SessionId a = dr_session_id r ∧
  an_SignalType a = SignalStepRegression ∧ Anomaly_Validate a = None.

Lemma workers_judged w ws : w_Limit w = 0 → Workers db now w = Ret ws → ws_Window ws = w ∧ ∀ r, r ∈ ws_Rows ws ↔ ∃ d, judged w d ∧ r = worker_of headers d.
Proof.
  clear Hnul Hnul'. intros El E. unfold Workers in E. rewrite Ed, Eh, El in E. cbn [query res_bind] in E. change (0 <? 0) with false in E. cbn [andb] in E. injection E as <-. cbn [ws_Rows ws_Window].
  split; [done|]. intros r. rewrite list_elem_of_fmap. setoid_rewrite merge_sort_Permutation. setoid_rewrite elem_of_List_filter. setoid_rewrite andb_true_iff. unfold judged. naive_solver.
Qed.
Lemma completed_count rows : (0 <? Z.of_nat (length (with_status StatusCompleted rows))) = true ↔ ∃ r, r ∈ rows ∧ dr_status r = StatusCompleted.
Proof.
  rewrite Z.ltb_lt. unfold with_status. transitivity (List.filter (λ d, String.eqb (dr_status d) StatusCompleted) rows ≠ []); [destruct (List.filter _ _); cbn; split; [lia|done|done|lia]|].
  split.
  - intros Hne. destruct (List.filter _ rows) as [|r l] eqn:E; [done|]. assert (Hr : r ∈ List.filter (λ d, String.eqb (dr_status d) StatusCompleted) rows) by (rewrite E; apply elem_of_cons; by left).
    apply elem_of_List_filter in Hr as [Hr Hc%String.eqb_eq]. by exists r.
  - intros (r & Hr & Hc) E. rewrite List_filter_nil in E. specialize (E r Hr). by apply String.eqb_neq in E.
Qed.
Lemma Itoa_nonempty z : String.eqb (Itoa z) "" = false.
Proof.
  unfold Itoa. destruct z as [|p|p]; [done| |]; destruct (parse_digits_pretty (Npos p)) as (_ & _ & Hne).
  - by apply String.eqb_neq.
  - done.
Qed.
Lemma baselineConfounders_vocabulary step set : all_confounders (baselineConfounders step set).
Proof. unfold baselineConfounders. repeat apply all_confounders_app; repeat case_match; written. Qed.
(** The answer for one row. *)
Lemma regression_anomaly_spec d w p row : StepBaselines db now w = Ret p → row ∈ details → dr_session_id row ≠ "" →
  match regression_anomaly d now (baseline_index p) (worker_of headers row) with
  | Some a => regressed (MinPriorRuns d) w row ∧ about d a row
  | None => ¬ regressed (MinPriorRuns d) w row
  end.
Proof.
  intros Ep Hrow Hses. unfold regression_anomaly. cbn [wr_Status wr_HasHeader wr_Client wr_ProcessName wr_MainObjectType wr_StepId worker_of].
  destruct (String.eqb (dr_status row) StatusFailed) eqn:Es; cbn [negb orb]; [|apply String.eqb_neq in Es; by intros [? _]]. apply String.eqb_eq in Es.
  unfold regressed. destruct (header_of headers row) as [h|] eqn:Ehd; cbn [deployed negb from_option]; [|by intros (_ & h & ? & _)].
  pose proof (index_spec w p (baseline_source row h) Ep (source_no_nul row h Hrow Ehd)) as Hix. unfold baseline_source in Hix. rewrite Hix. clear Hix.
  destruct (decide (history w _ = [])) as [Hn|Hn]; cbn [mbind option_bind].
  { intros (_ & h' & [= <-] & (r & Hr & _) & _). unfold baseline_source in Hr. rewrite Hn in Hr. by apply not_elem_of_nil in Hr. }
  unfold EverSucceeded, baseline_of. cbn [b_Completed b_Runs b_Confounders]. pose proof (completed_count (history w (baseline_source row h))) as Hc. unfold baseline_source in Hc.
  destruct (0 <? _) eqn:E0; cbn [negb orb].
  2:{ intros (_ & h' & [= <-] & Hex & _). unfold baseline_source in Hex. by apply Hc in Hex. }
  destruct (_ <? MinPriorRuns d) eqn:E1.
  - apply Z.ltb_lt in E1. intros (_ & h' & [= <-] & _ & Hle). unfold baseline_source in Hle. lia.
  - apply Z.ltb_ge in E1. split; [split; [done|]; exists h; split; [done|]; split; [by apply Hc|done]|]. repeat (split; [done|]). unfold Anomaly_Validate. cbn.
    apply String.eqb_neq in Hses. rewrite Hses, Itoa_nonempty. destruct (regression_basis _) eqn:Eb; [done|]. cbn.
    rewrite (proj1 (all_confounders_bool _) (baselineConfounders_vocabulary _ _)). done.
Qed.
End regression.

(** C14. What the regression detector says of the evidence it is given: it finds the window of
    the history closed before the one it judges, no row of the history is judged, and it
    reports a row exactly when the row failed, its source is known from enough runs of the
    history and one of them completed; every anomaly is valid. *)
Theorem step_regressions d db now w baselineFor ev headers details :
  execution_status db = Some headers → execution_details db = Some details →
  (∀ r, r ∈ details → no_nul (dr_client r) = true ∧ no_nul (dr_process_name r) = true ∧ dr_session_id r ≠ "") →
  (∀ h, h ∈ headers → no_nul (sr_main_object_type h) = true) →
  w_Since w ≠ 0 → w_Limit w = 0 → 0 < baselineFor → obs_Gather db now w baselineFor = Ret ev →
  let prior := before w baselineFor in
  (∀ r src, r ∈ history now headers details prior src → w_Since w - baselineFor ≤ dr_start_time r < w_Since w ∧ ¬ judged now details w r) ∧
  ∃ found, regression_Detect d now ev = Ret found ∧
    (∀ r, judged now details w r → regressed now headers details (MinPriorRuns d) prior r → ∃ a, a ∈ found ∧ about d a r) ∧
    (∀ a, a ∈ found → ∃ r, judged now details w r ∧ regressed now headers details (MinPriorRuns d) prior r ∧ about d a r).
Proof.
  intros Eh Ed Hrows Hheads Hsince Hlim Hb Hg prior. unfold obs_Gather in Hg. fold (before w baselineFor) in Hg. fold prior in Hg.
  destruct (Workers db now w) as [ws| | |] eqn:Ew; [|done..]. cbn [res_bind] in Hg. rewrite (proj2 (Z.ltb_lt 0 baselineFor) Hb) in Hg.
  destruct (StepBaselines db now prior) as [p| | |] eqn:Ep; [|done..]. cbn [res_bind] in Hg. destruct (read_configs db ∅ (ws_Rows ws)) as [cs| | |]; [|done..]. injection Hg as <-.
  destruct (workers_judged db now headers details Eh Ed w ws Hlim Ew) as [Eww Hws].
  assert (Huntil : until now prior = w_Since w) by (unfold until, prior, before; cbn; by rewrite (proj2 (Z.eqb_neq _ _) Hsince)).
  split.
  - intros r src (_ & Hin & _)%elem_of_history. unfold in_window in Hin. rewrite Huntil, !andb_true_iff in Hin. destruct Hin as [[[H1%Z.leb_le H2%Z.ltb_lt] _] _].
    split; [cbn in H1; lia|]. intros (_ & Hj & _). unfold in_window in Hj. rewrite !andb_true_iff in Hj. destruct Hj as [[[H3%Z.leb_le _] _] _]. lia.
  - unfold regression_Detect. cbn [oe_Workers oe_Prior]. assert (Epw : bs_Window p = prior).
    { unfold StepBaselines in Ep. rewrite Ed, Eh in Ep. cbn [query res_bind] in Ep. by injection Ep as <-. }
    rewrite Eww, Epw, Huntil, Z.ltb_irrefl. eexists. split; [done|].
    assert (Hone : ∀ r, judged now details w r → match regression_anomaly d now (baseline_index p) (worker_of headers r) with
      | Some a => regressed now headers details (MinPriorRuns d) prior r ∧ about d a r | None => ¬ regressed now headers details (MinPriorRuns d) prior r end).
    { intros r (Hr & _). destruct (Hrows r Hr) as (_ & _ & Hses). apply (regression_anomaly_spec db now headers details Eh Ed); try done. intros r' Hr'. destruct (Hrows r' Hr') as (? & ? & _). done. }
    setoid_rewrite list_elem_of_omap. split.
    + intros r Hj Hreg. specialize (Hone r Hj). destruct (regression_anomaly _ _ _ (worker_of headers r)) as [a|] eqn:Ea; [|done]. exists a. split; [|apply Hone].
      exists (worker_of headers r). split; [|done]. apply Hws. by exists r.
    + intros a (wr & Hwr & Ha). apply Hws in Hwr as (r & Hj & ->). specialize (Hone r Hj). rewrite Ha in Hone. exists r. naive_solver.
Qed.
Definition worse_worker : details_row := demo_worker 16 4 "r4" "reducing01" "failed" (Some 5000) (Some 0) 403.
Definition regression_tables : tables := mkTables (execution_status demo_tables) (option_map (λ l, l ++ [worse_worker])%list (execution_details demo_tables))
  (channel_details demo_tables) (process_errors demo_tables) (cpipes_execution_status demo_tables) (anomaly demo_tables).
Definition regression_window : Window := mkWindow 400 0 "" "" "" 0.
Definition anomaly_ids (found : res (list Anomaly)) : list string := match found with Ret l => an_AnomalyId <$> l | _ => [] end.
Lemma step_regressions_witness : ∃ ev found, obs_Gather regression_tables 1000 regression_window 390 = Ret ev ∧
  regression_Detect DefaultStepRegression 1000 ev = Ret found ∧ an_AnomalyId <$> found = ["step_regression@1/16"].
Proof.
  destruct (obs_Gather regression_tables 1000 regression_window 390) as [ev| | |] eqn:Eg; [|by vm_compute in Eg..].
  destruct (step_regressions DefaultStepRegression regression_tables 1000 regression_window 390 ev (default [] (execution_status regression_tables)) (default [] (execution_details regression_tables)))
    as (_ & found & Ef & _).
  - reflexivity.
  - reflexivity.
  - intros r Hr. cbn in Hr. each_elem Hr; (split; [by vm_compute|split; [by vm_compute|done]]).
  - intros h Hh. cbn in Hh. each_elem Hh; by vm_compute.
  - done.
  - reflexivity.
  - lia.
  - exact Eg.
  - exists ev, found. split; [done|]. split; [exact Ef|].
    assert (H : anomaly_ids (let! ev := obs_Gather regression_tables 1000 regression_window 390 in regression_Detect DefaultStepRegression 1000 ev) = ["step_regression@1/16"]) by (vm_compute; reflexivity).
    rewrite Eg in H. cbn [res_bind] in H. rewrite Ef in H. exact H.
Defined.

(** ** A run of the detectors *)
Abbreviation ids := (fmap an_AnomalyId).
Lemma set_anomalies_id db rows : anomaly db = Some rows → set_anomalies db (Some rows) = db.
Proof. by destruct db; cbn; intros ->. Qed.
Lemma recorded rows a : existsb (λ b, String.eqb (an_AnomalyId b) (an_AnomalyId a)) rows = true ↔ an_AnomalyId a ∈ ids rows.
Proof.
  rewrite existsb_exists, list_elem_of_fmap. setoid_rewrite String.eqb_eq. setoid_rewrite <- list_elem_of_In. split; intros (b & ? & ?); exists b; done.
Qed.
Lemma insert_all_cons now st a found st' : (if false then Ret st else let! r := InsertAnomalyIfNew st.1 now a in
    Ret (r.1, if r.2 then mkSummary (Found st.2) (Written st.2 + 1) (Already st.2) else mkSummary (Found st.2) (Written st.2) (Already st.2 + 1))) = Ret st' →
  insert_all now false st (a :: found) = insert_all now false st' found.
Proof. intros E. unfold insert_all. cbn [foldl res_bind]. by rewrite E. Qed.
(** The anomalies that are new are added, in order. *)
Lemma insert_all_ok now found : Forall (λ a, Anomaly_Validate a = None) found → ∀ db sum rows, anomaly db = Some rows →
  ∃ new, insert_all now false (db, sum) found = Ret (set_anomalies db (Some (rows ++ new)%list),
      mkSummary (Found sum) (Written sum + Z.of_nat (length new)) (Already sum + (Z.of_nat (length found) - Z.of_nat (length new)))) ∧
    NoDup (ids new) ∧ (∀ i, i ∈ ids new → i ∈ ids found ∧ (i ∉ ids rows)) ∧ (∀ i, i ∈ ids found → i ∈ ids (rows ++ new)%list) ∧
    ∀ a, a ∈ new → ∃ b, b ∈ found ∧ a = stamped now b.
Proof.
  induction 1 as [|a found Ha Hf IH]; intros db sum rows Er.
  { exists []. cbn. rewrite app_nil_r, set_anomalies_id by done. destruct sum. rewrite !Z.add_0_r. split; [done|]. split; [constructor|]. split_and!; by intros i ?%not_elem_of_nil. }
  destruct (existsb (λ b, String.eqb (an_AnomalyId b) (an_AnomalyId a)) rows) eqn:Ex.
  - rewrite (insert_all_cons now _ a found (db, mkSummary (Found sum) (Written sum) (Already sum + 1))).
    2:{ unfold InsertAnomalyIfNew. rewrite Ha. cbn [fst]. rewrite Er. cbn [query res_bind]. by rewrite Ex. }
    destruct (IH db (mkSummary (Found sum) (Written sum) (Already sum + 1)) rows Er) as (new & -> & Hnd & Hnew & Hall & Hfrom). exists new. cbn [Found Written Already length].
    split; [do 3 f_equal; lia|]. split; [done|]. split_and!.
    + intros i Hi. destruct (Hnew i Hi). split; [|done]. rewrite fmap_cons. apply elem_of_cons. by right.
    + intros i. rewrite fmap_cons. intros [->|Hi]%elem_of_cons; [|by apply Hall]. apply recorded in Ex. rewrite fmap_app, elem_of_app. by left.
    + intros b Hb. destruct (Hfrom b Hb) as (b0 & ? & ->). exists b0. split; [by right|done].
  - set (rows' := (rows ++ [stamped now a])%list). rewrite (insert_all_cons now _ a found (set_anomalies db (Some rows'), mkSummary (Found sum) (Written sum + 1) (Already sum))).
    2:{ unfold InsertAnomalyIfNew. rewrite Ha. cbn [fst]. rewrite Er. cbn [query res_bind]. by rewrite Ex. }
    destruct (IH (set_anomalies db (Some rows')) (mkSummary (Found sum) (Written sum + 1) (Already sum)) rows' eq_refl) as (new & -> & Hnd & Hnew & Hall & Hfrom).
    exists (stamped now a :: new). cbn [Found Written Already length]. assert (Eapp : (rows' ++ new)%list = (rows ++ stamped now a :: new)%list) by (unfold rows'; by rewrite <- app_assoc).
    rewrite Eapp in *. split; [f_equal; f_equal; f_equal; lia|]. assert (Hrows' : ∀ i, i ∈ ids rows' ↔ i ∈ ids rows ∨ i = an_AnomalyId a).
    { intros i. unfold rows'. rewrite fmap_app, elem_of_app. change (ids [stamped now a]) with [an_AnomalyId a]. by rewrite list_elem_of_singleton. }
    split; [rewrite fmap_cons; constructor; [|done]; intros Hin; destruct (Hnew _ Hin) as [_ Hno]; apply Hno, Hrows'; by right|]. split_and!.
    + intros i. rewrite !fmap_cons. intros [->|Hi]%elem_of_cons.
      * split; [apply elem_of_cons; by left|]. intros Hin%recorded. cbn in Hin. congruence.
      * destruct (Hnew i Hi) as [? Hno]. rewrite Hrows' in Hno. split; [apply elem_of_cons; by right|tauto].
    + intros i. rewrite !fmap_cons. intros [->|Hi]%elem_of_cons; [|by apply Hall]. rewrite fmap_app, fmap_cons, elem_of_app, elem_of_cons. right. by left.
    + intros b [->|Hb]%elem_of_cons; [exists a; split; [by left|done]|]. destruct (Hfrom b Hb) as (b0 & ? & ->). exists b0. split; [by right|done].
Qed.
Lemma insert_all_again now found db sum rows : Forall (λ a, Anomaly_Validate a = None) found → anomaly db = Some rows → (∀ i, i ∈ ids found → i ∈ ids rows) →
  insert_all now false (db, sum) found = Ret (db, mkSummary (Found sum) (Written sum) (Already sum + Z.of_nat (length found))).
Proof.
  intros Hv Er Hall. destruct (insert_all_ok now found Hv db sum rows Er) as (new & -> & _ & Hnew & _ & _). destruct new as [|a new].
  - rewrite app_nil_r, set_anomalies_id by done. cbn [length]. do 3 f_equal; lia.
  - destruct (Hnew (an_AnomalyId a)) as [Hin Hno]; [rewrite fmap_cons; apply elem_of_cons; by left|]. by apply Hall in Hin.
Qed.

(** What is found is valid, and does not depend on what was recorded. *)
Section found.
Context `{GoArch} (db : tables) (now : instant) (fl : detect_flags) (headers : list status_row) (details : list details_row) (configs : list (string * config_column)).
Hypothesis Eh : execution_status db = Some headers.
Hypothesis Ed : execution_details db = Some details.
Hypothesis Ec : cpipes_execution_status db = Some configs.
Hypothesis Hses : ∀ r, r ∈ details → dr_session_id r ≠ "".

Lemma read_configs_ret rows : ∀ m, ∃ m', read_configs db m rows = Ret m'.
Proof.
  assert (Hcc : ∀ s, ∃ cc, ReadConfigConfounders db s = Ret cc).
  { intros s. unfold ReadConfigConfounders. rewrite Ec. cbn [query res_bind]. repeat case_match; by eexists. }
  induction rows as [|r rows IH]; intros m; [by exists m|]. unfold read_configs in *. cbn [foldl res_bind]. case_bool_decide; [apply IH|].
  destruct (Hcc (wr_SessionId r)) as [cc ->]. cbn [res_bind]. apply IH.
Qed.
Lemma gather_ret w b : w_Limit w = 0 → ∃ ws prior cs, obs_Gather db now w b = Ret (mkObsEvidence (Some (ReadExtent db)) (Some ws) prior cs) ∧ ws_Window ws = w ∧
  (∀ r, r ∈ ws_Rows ws → wr_SessionId r ≠ "") ∧ (∀ r, r ∈ ws_Rows ws ↔ ∃ d, judged now details w d ∧ r = worker_of headers d) ∧
  match prior with Some p => 0 < b ∧ StepBaselines db now (before w b) = Ret p | None => b ≤ 0 end.
Proof.
  intros Hlim. unfold obs_Gather. destruct (Workers db now w) as [ws| | |] eqn:Ew; try (unfold Workers in Ew; rewrite Eh, Ed in Ew; cbn in Ew; by case_match).
  destruct (workers_judged db now headers details Eh Ed w ws Hlim Ew) as [Eww Hws]. cbn [res_bind]. fold (before w b).
  assert (Hsid : ∀ r, r ∈ ws_Rows ws → wr_SessionId r ≠ "") by (intros r (d & (Hd & _) & ->)%Hws; cbn; by apply Hses).
  destruct (read_configs_ret (ws_Rows ws) ∅) as [cs Ecs]. destruct (0 <? b) eqn:Eb.
  - destruct (StepBaselines_ret db now headers details Eh Ed (before w b)) as [p Ep]. rewrite Ep. cbn [res_bind]. rewrite Ecs. cbn [res_bind]. apply Z.ltb_lt in Eb. eexists ws, (Some p), cs. done.
  - cbn [res_bind]. rewrite Ecs. cbn [res_bind]. apply Z.ltb_ge in Eb. eexists ws, None, cs. done.
Qed.
Lemma volume_valid d ev ws : oe_Workers ev = Some ws → (∀ r, r ∈ ws_Rows ws → wr_SessionId r ≠ "") → Forall (λ a, Anomaly_Validate a = None) (volume_Detect d now ev).
Proof.
  intros Ew Hsid. apply Forall_forall. intros a Ha. pose proof (volume_confounders d now ev a Ha) as Hc. unfold volume_Detect in Ha. rewrite Ew in Ha.
  apply list_elem_of_omap in Ha as (r & Hr & Ha). unfold volume_anomaly in Ha. destruct (collapsed d r) as [[[read got] ratio]|]; [|done]. cbn [mbind option_bind] in Ha.
  specialize (Hsid r Hr). apply String.eqb_neq in Hsid.
  assert (Ea : an_AnomalyId a = volume_Ref d +:+ "/" +:+ Itoa (wr_Key r) ∧ an_SessionId a = wr_SessionId r ∧ an_SubjectRef a = Itoa (wr_Key r) ∧ an_ObservedValue a = Itoa got ∧
    an_ExpectedBasis a = volume_basis (config_of ev (wr_SessionId r)) ∧ an_DetectorRef a = volume_Ref d ∧ an_SignalType a = SignalVolume ∧ an_SubjectType a = SubjectWorker) by (by injection Ha as <-).
  destruct Ea as (E1 & E2 & E3 & E4 & E5 & E6 & E7 & E8). unfold Anomaly_Validate. rewrite E1, E2, E3, E4, E5, E6, E7, E8, Hsid, !Itoa_nonempty.
  rewrite (proj1 (all_confounders_bool _) Hc). done.
Qed.
End found.

Lemma gather_same db now w b rows rows' : anomaly db = Some rows → obs_Gather (set_anomalies db (Some rows')) now w b = obs_Gather db now w b.
Proof. destruct db. cbn. by intros ->. Qed.
(** *** What there is to find *)
Definition volume_of (fl : detect_flags) : VolumeCollapse := mkVolumeCollapse (fl_minRatio fl) (fl_minInput fl) (fl_generation fl).
Definition regression_of (fl : detect_flags) : StepRegression := mkStepRegression (fl_minPriorRuns fl) (fl_generation fl).
(** The worker completed and wrote too little of what it read. *)
Definition output_collapsed (d : VolumeCollapse) (r : details_row) : Prop :=
  dr_status r = StatusCompleted ∧ ∃ read got, dr_input_records r = Some read ∧ dr_output_records r = Some got ∧ MinInput d ≤ read ∧
    f64_le (MinRatio d) (f64_div (f64_of_Z got) (f64_of_Z read)) = false.
(** A worker row of the window, and what the detector of reference [ref] has to say of it. *)
Definition to_find (fl : detect_flags) (now : instant) (headers : list status_row) (details : list details_row) (signal ref : string) (r : details_row) : Prop :=
  judged now details (detect_window fl now) r ∧
  ((signal = SignalVolume ∧ ref = volume_Ref (volume_of fl) ∧ output_collapsed (volume_of fl) r) ∨
   (signal = SignalStepRegression ∧ ref = regression_Ref (regression_of fl) ∧ 0 < fl_baseline fl ∧
    regressed now headers details (fl_minPriorRuns fl) (before (detect_window fl now) (fl_baseline fl)) r)).
Definition finding_id (ref : string) (r : details_row) : string := ref +:+ "/" +:+ Itoa (dr_key r).
Definition records_finding (now : instant) (signal ref : string) (r : details_row) (a : Anomaly) : Prop :=
  an_AnomalyId a = finding_id ref r ∧ an_DetectorRef a = ref ∧ an_SignalType a = signal ∧ an_SubjectRef a = Itoa (dr_key r) ∧
  an_SessionId a = dr_session_id r ∧ an_DetectedAt a = now.

Lemma collapsed_spec d headers r : match collapsed d (worker_of headers r) with Some _ => output_collapsed d r | None => ¬ output_collapsed d r end.
Proof.
  unfold collapsed, output_collapsed, worker_of. cbn [wr_Status wr_InputRecords wr_OutputRecords]. destruct (String.eqb_spec (dr_status r) StatusCompleted) as [Es|Es]; cbn [negb]; [|naive_solver].
  destruct (dr_input_records r) as [read|]; [|naive_solver]. destruct (dr_output_records r) as [got|]; [|naive_solver].
  destruct (Z.ltb_spec read (MinInput d)); [intros (_ & ? & ? & [= <-] & _ & ? & _); lia|]. cbv zeta.
  destruct (f64_le (MinRatio d) _) eqn:El; [intros (_ & ? & ? & [= <-] & [= <-] & _ & ?); congruence|]. split; [done|]. by exists read, got.
Qed.
Lemma volume_anomaly_spec `{GoArch} d now ev ws headers r :
  match volume_anomaly d now ev ws (worker_of headers r) with
  | Some a => output_collapsed d r ∧ records_finding now SignalVolume (volume_Ref d) r a
  | None => ¬ output_collapsed d r
  end.
Proof.
  unfold volume_anomaly. pose proof (collapsed_spec d headers r) as Hc. destruct (collapsed d (worker_of headers r)) as [[[read got] ratio]|]; cbn [mbind option_bind]; [|done].
  split; [done|]. unfold records_finding. done.
Qed.

(** What each detector finds in the evidence of a window. *)
Lemma volume_finds `{GoArch} d now ev ws w headers details : oe_Workers ev = Some ws → (∀ r, r ∈ ws_Rows ws ↔ ∃ x, judged now details w x ∧ r = worker_of headers x) →
  (∀ a, a ∈ volume_Detect d now ev → ∃ r, judged now details w r ∧ output_collapsed d r ∧ records_finding now SignalVolume (volume_Ref d) r a) ∧
  ∀ r, judged now details w r → output_collapsed d r → ∃ a, a ∈ volume_Detect d now ev ∧ records_finding now SignalVolume (volume_Ref d) r a.
Proof.
  intros Ew Hws. unfold volume_Detect. rewrite Ew. setoid_rewrite list_elem_of_omap. split.
  - intros a (wr & Hwr & Ha). apply Hws in Hwr as (r & Hj & ->). pose proof (volume_anomaly_spec d now ev ws headers r) as Hs. rewrite Ha in Hs. exists r. naive_solver.
  - intros r Hj Hc. pose proof (volume_anomaly_spec d now ev ws headers r) as Hs. destruct (volume_anomaly _ _ _ _ (worker_of headers r)) as [a|] eqn:Ea; [|done].
    exists a. split; [|apply Hs]. exists (worker_of headers r). split; [|done]. apply Hws. by exists r.
Qed.
Lemma regression_anomaly_ref d now index wr a : regression_anomaly d now index wr = Some a → an_DetectorRef a = regression_Ref d ∧ an_DetectedAt a = now.
Proof. unfold regression_anomaly. case_match; [done|]. destruct (index !! _) as [b|]; [|done]. cbn [mbind option_bind]. case_match; [done|]. by intros [= <-]. Qed.
Lemma regression_finds d db now ws w prior p headers details : execution_status db = Some headers → execution_details db = Some details →
  (∀ r, r ∈ details → no_nul (dr_client r) = true ∧ no_nul (dr_process_name r) = true ∧ dr_session_id r ≠ "") → (∀ h, h ∈ headers → no_nul (sr_main_object_type h) = true) →
  StepBaselines db now prior = Ret p → (∀ r, r ∈ ws_Rows ws ↔ ∃ x, judged now details w x ∧ r = worker_of headers x) → let found := omap (regression_anomaly d now (baseline_index p)) (ws_Rows ws) in
  (∀ a, a ∈ found → ∃ r, judged now details w r ∧ regressed now headers details (MinPriorRuns d) prior r ∧ records_finding now SignalStepRegression (regression_Ref d) r a ∧ Anomaly_Validate a = None) ∧
  ∀ r, judged now details w r → regressed now headers details (MinPriorRuns d) prior r → ∃ a, a ∈ found ∧ records_finding now SignalStepRegression (regression_Ref d) r a.
Proof.
  intros Eh Ed Hrows Hheads Ep Hws found.
  assert (Hone : ∀ r, judged now details w r → match regression_anomaly d now (baseline_index p) (worker_of headers r) with
    | Some a => regressed now headers details (MinPriorRuns d) prior r ∧ records_finding now SignalStepRegression (regression_Ref d) r a ∧ Anomaly_Validate a = None
    | None => ¬ regressed now headers details (MinPriorRuns d) prior r end).
  { intros r (Hr & _). destruct (Hrows r Hr) as (_ & _ & Hses).
    assert (Hs := regression_anomaly_spec db now headers details Eh Ed (λ r' Hr', let '(conj H1 (conj H2 _)) := Hrows r' Hr' in conj H1 H2) Hheads d prior p r Ep Hr Hses).
    destruct (regression_anomaly _ _ _ (worker_of headers r)) as [a|] eqn:Ea; [|done]. destruct Hs as [? (E1 & E2 & E3 & E4 & E5)]. destruct (regression_anomaly_ref _ _ _ _ _ Ea).
    done. }
  unfold found. setoid_rewrite list_elem_of_omap. split.
  - intros a (wr & Hwr & Ha). apply Hws in Hwr as (r & Hj & ->). specialize (Hone r Hj). rewrite Ha in Hone. by exists r.
  - intros r Hj Hreg. specialize (Hone r Hj). destruct (regression_anomaly _ _ _ (worker_of headers r)) as [a|] eqn:Ea; [|done]. exists a. split; [|apply Hone].
    exists (worker_of headers r). split; [|done]. apply Hws. by exists r.
Qed.

(** What one run finds, before it records it. *)
Lemma run_finds `{GoArch} db now fl headers details configs rows : execution_status db = Some headers → execution_details db = Some details →
  cpipes_execution_status db = Some configs → anomaly db = Some rows → (∀ r, r ∈ details → no_nul (dr_client r) = true ∧ no_nul (dr_process_name r) = true ∧ dr_session_id r ≠ "") →
  (∀ h, h ∈ headers → no_nul (sr_main_object_type h) = true) → now - fl_since fl ≠ 0 →
  ∃ found, Forall (λ a, Anomaly_Validate a = None) found ∧
    (∀ a, a ∈ found → ∃ signal ref r, to_find fl now headers details signal ref r ∧ records_finding now signal ref r a) ∧
    (∀ signal ref r, to_find fl now headers details signal ref r → ∃ a, a ∈ found ∧ records_finding now signal ref r a) ∧
    ∀ rows', detect_run (set_anomalies db (Some rows')) now fl =
    insert_all now (fl_dryRun fl) (set_anomalies db (Some rows'), mkSummary (Z.of_nat (length found)) 0 0) found.
Proof.
  intros Eh Ed Ec Er Hrows Hheads Hsince.
  destruct (gather_ret db now headers details configs Eh Ed Ec (λ r Hr, proj2 (proj2 (Hrows r Hr))) (detect_window fl now) (fl_baseline fl) eq_refl) as (ws & prior & cs & Eg & Eww & Hsid & Hws & Hprior).
  set (ev := mkObsEvidence (Some (ReadExtent db)) (Some ws) prior cs) in *. set (w := detect_window fl now) in *.
  assert (Hreg : ∃ reg, match prior with Some _ => regression_Detect (regression_of fl) now ev | None => Ret [] end = Ret reg ∧
    (∀ a, a ∈ reg → Anomaly_Validate a = None ∧ ∃ r, judged now details w r ∧ 0 < fl_baseline fl ∧ regressed now headers details (fl_minPriorRuns fl) (before w (fl_baseline fl)) r ∧
      records_finding now SignalStepRegression (regression_Ref (regression_of fl)) r a) ∧
    ∀ r, judged now details w r → 0 < fl_baseline fl → regressed now headers details (fl_minPriorRuns fl) (before w (fl_baseline fl)) r → ∃ a, a ∈ reg ∧ records_finding now SignalStepRegression (regression_Ref (regression_of fl)) r a).
  { destruct prior as [p|]; [|exists []; split; [done|]; split; [by intros a ?%not_elem_of_nil|intros; lia]]. destruct Hprior as [Hb Ep].
    assert (Ewin : bs_Window p = before w (fl_baseline fl)) by (unfold StepBaselines in Ep; rewrite Ed, Eh in Ep; cbn [query res_bind] in Ep; by injection Ep as <-).
    destruct (regression_finds (regression_of fl) db now ws w _ p headers details Eh Ed Hrows Hheads Ep Hws) as [Hfrom Hto]. eexists. split; [|split; [|intros r Hj _; exact (Hto r Hj)]].
    - unfold regression_Detect, ev. cbn [oe_Workers oe_Prior]. rewrite Eww, Ewin. unfold until, before, w, detect_window. cbn [w_Since w_Until]. by rewrite (proj2 (Z.eqb_neq _ _) Hsince), Z.ltb_irrefl.
    - intros a Ha. destruct (Hfrom a Ha) as (r & ? & ? & ? & ?). split; [done|]. by exists r. }
  destruct Hreg as (reg & Ereg & Hrf & Hrt). destruct (volume_finds (volume_of fl) now ev ws w headers details eq_refl Hws) as [Hvf Hvt].
  exists (volume_Detect (volume_of fl) now ev ++ reg)%list. split_and!.
  - apply Forall_app. split; [by apply (volume_valid now (volume_of fl) ev ws)|]. apply Forall_forall. intros a Ha. by apply Hrf.
  - intros a [Ha|Ha]%elem_of_app; [destruct (Hvf a Ha) as (r & ? & ? & ?)|destruct (Hrf a Ha) as (_ & r & ? & ? & ? & ?)]; eexists _, _, r; (split; [|eassumption]); split; [done|left|done|right]; done.
  - intros signal ref r [Hj [(-> & -> & Hc)|(-> & -> & Hb & Hc)]]; [destruct (Hvt r Hj Hc) as (a & Ha & ?)|destruct (Hrt r Hj Hb Hc) as (a & Ha & ?)]; exists a; (split; [|done]); apply elem_of_app; auto.
  - intros rows'. unfold detect_run. assert (Ee : ExecutionRecord (ReadExtent (set_anomalies db (Some rows'))) = true ∧ Anomalies (ReadExtent (set_anomalies db (Some rows'))) = true) by (unfold ReadExtent; cbn; by rewrite Eh, Ed).
    destruct Ee as [-> ->]. cbn [negb]. unfold doJob. rewrite (gather_same db now _ _ rows rows' Er). fold w. rewrite Eg. cbn [res_bind]. fold ev. change (oe_Prior ev) with prior. fold (regression_of fl). rewrite Ereg. done.
Qed.

Definition demo_flags : detect_flags := mkFlags 600 390 "" "" "" false half 1000 3 1.
