(* ===== verification/RootCause.v ===== *)
(** * Ranked causes of a run

    The advisory half of a diagnosis (src/jets/agentic/rca): the table of cause classes and
    the loci that can carry them, the ranking that is computed from a triage report and the
    anomalies of a session, and the comparison of a model's answer with it.

    A slice that may be nil is an [option]. The texts are those of the source; the prompt a
    model is given is not modelled, and its answer is what json.Unmarshal makes of it. *)
From stdpp Require Import base list strings gmap.
From Stdlib Require Import ZArith Lia SpecFloat Ascii.
From S2P Require Import Prelude GoFloat GoText GoTextLaws ExecutionRecord Triage.
Local Open Scope string_scope.
Local Open Scope Z_scope.

#[local] Set Warnings "-register-all".

(** ** Vocabularies *)
Definition CauseSourceDeliveryFailure := "source_delivery_failure".
Definition CauseSourceContentChange := "source_content_change".
Definition CauseTransportFailure := "transport_failure".
Definition CauseParseFailure := "parse_failure".
Definition CauseValidationBreach := "validation_breach".
Definition CauseTransformationDefect := "transformation_defect".
Definition CauseInfrastructureFailure := "infrastructure_failure".
Definition CauseDependencyFailure := "dependency_failure".
Definition CauseCapacityOrCostDeviation := "capacity_or_cost_deviation".
Definition CauseBenignVariation := "benign_variation".
Definition CauseCategories : list string :=
  [CauseSourceDeliveryFailure; CauseSourceContentChange; CauseTransportFailure; CauseParseFailure; CauseValidationBreach;
   CauseTransformationDefect; CauseInfrastructureFailure; CauseDependencyFailure; CauseCapacityOrCostDeviation; CauseBenignVariation].

Definition SourceRunTelemetry := "run_telemetry".
Definition SourceLineage := "lineage".
Definition SourceCommitHistory := "commit_history".
Definition SourcePriorIncident := "prior_incident".
Definition SourceInfrastructureLog := "infrastructure_log".
Definition SourceSourceDeliveryHistory := "source_delivery_history".
Definition SourceDqResult := "dq_result".
Definition SourceCodeInspection := "code_inspection".
Definition SourceProfile := "profile".
Definition SourceDetectorConfounder := "detector_confounder".
Definition EvidenceSources : list string :=
  [SourceRunTelemetry; SourceLineage; SourceCommitHistory; SourcePriorIncident; SourceInfrastructureLog; SourceSourceDeliveryHistory;
   SourceDqResult; SourceCodeInspection; SourceProfile; SourceDetectorConfounder].

(** ** Hypotheses *)
Record Evidence := mkItem { Statement : string; Source : string; SourceRef : string }.
Record CausalHypothesis := mkHypothesis {
  HypothesisId : string; IncidentRef : string; Cause : string; CauseCategory : string; Confidence : float64; h_Rank : Z;
  SupportingEvidence : list Evidence; ContradictingEvidence : option (list Evidence); h_Locus : string; h_Basis : string; h_RankerRef : string }.
(** The evidence against; that of a nil slice is empty. *)
Definition against (h : CausalHypothesis) : list Evidence := default [] (ContradictingEvidence h).
Definition hypothesis_Fired (h : CausalHypothesis) : bool := (length (against h) <? length (SupportingEvidence h))%nat.
Definition Evidence_validate (e : Evidence) : option string :=
  if String.eqb (Statement e) "" then Some "statement is required"
  else if negb (contains EvidenceSources (Source e)) then Some "source %q is not in the vocabulary"
  else None.
(** The first error of a loop over a slice. *)
Fixpoint first_error {A} (check : A → option string) (l : list A) : option string :=
  match l with [] => None | x :: l' => match check x with Some e => Some e | None => first_error check l' end end.
Definition Hypothesis_Validate (h : CausalHypothesis) : option string :=
  if String.eqb (Cause h) "" then Some "cause is required"
  else if negb (String.eqb (CauseCategory h) "") && negb (contains CauseCategories (CauseCategory h)) then Some "cause_category %q is not in the vocabulary"
  else if String.eqb (h_Locus h) "" then Some "locus is required"
  else if f64_lt (Confidence h) (f64_of_Z 0) || f64_lt (f64_of_Z 1) (Confidence h) then Some "confidence is %v, which is outside 0..1"
  else if h_Rank h <? 1 then Some "rank is %d; ranks are 1-based"
  else if String.eqb (h_Basis h) "" then Some "basis is required"
  else if String.eqb (h_RankerRef h) "" then Some "ranker_ref is required"
  else if (length (SupportingEvidence h) =? 0)%nat then Some "supporting_evidence is empty"
  else match ContradictingEvidence h with
    | None => Some "contradicting_evidence is nil rather than empty"
    | Some con =>
        match first_error Evidence_validate (SupportingEvidence h) with
        | Some e => Some ("supporting_evidence: " +:+ e)
        | None => match first_error Evidence_validate con with Some e => Some ("contradicting_evidence: " +:+ e) | None => None end
        end
    end.
Record Ranking := mkRanking {
  rk_SessionId : string; rk_RankerRef : string; Hypotheses : list CausalHypothesis; UnmappedLoci : list string; UnaskedLoci : list string; rk_Basis : string }.
Fixpoint validate_ranks (i : Z) (hs : list CausalHypothesis) : option string :=
  match hs with
  | [] => None
  | h :: hs' =>
      if negb (h_Rank h =? i + 1) then Some "hypotheses[%d] has rank %d: ranks must be 1-based and dense in slice order"
      else match Hypothesis_Validate h with Some e => Some ("hypotheses: " +:+ e) | None => validate_ranks (i + 1) hs' end
  end.
Definition Ranking_Validate (r : Ranking) : option string :=
  match validate_ranks 0 (Hypotheses r) with
  | Some e => Some e
  | None => if String.eqb (rk_Basis r) "" then Some "basis is required on the ranking as well as on each hypothesis" else None
  end.

(** ** The table of classes *)
Inductive Evidenceability := Evidenced | Conditional | Coarse | Asymmetric | NotEvidenced.
#[global] Instance Evidenceability_eq_dec : EqDecision Evidenceability.
Proof. solve_decision. Defined.
Definition Evidenceabilities : list Evidenceability := [Evidenced; Conditional; Coarse; Asymmetric; NotEvidenced].
Definition evidenceability_text (e : Evidenceability) : string :=
  match e with Evidenced => "evidenced" | Conditional => "conditional" | Coarse => "coarse" | Asymmetric => "asymmetric" | NotEvidenced => "none" end.
Record CauseClass := mkClass { Name : string; Loci_of : list string; class_Evidenceability : Evidenceability; Note : string }.
Definition quoted (s : string) : string := String (ascii_of_nat 34) (s +:+ String (ascii_of_nat 34) "").
Definition causeClasses : list CauseClass := [
  mkClass CauseSourceDeliveryFailure [LocusRunNotStarted] NotEvidenced
    ("input_registry and file_key_staging record what arrived and nothing records what was due; there is no schedule, no SLA and no expected-delivery table, so " +:+
     quoted "did not arrive" +:+ " is the absence of a row with nothing asserting a row was owed (§9.5, I-262)");
  mkClass CauseSourceContentChange [LocusRowsLostSilently; LocusPerRecordFailuresReported] Coarse
    ("volume and file size move on the worker row, but input_bad_records_count is read-time parse failure only and is 0 for parquet by construction (P3 F49); column-level " +:+
     "change needs a profile, and the analyze operator runs in 4 of 47 configurations into a destination the config chooses (§9.5)");
  mkClass CauseTransportFailure [LocusRunNotStarted; LocusWorkerFailed; LocusSinkFailedUnderCompletedWorker; LocusWrittenNotArrived] Coarse
    ("the text reaches failure_details or an error_message and the class does not (F199), and the one machine-readable class the platform computes is discarded before the " +:+
     "database (F198); locus written_not_arrived is the only structural instrument and it is a check against S3 or Postgres rather than a query (§9.5)");
  mkClass CauseParseFailure [LocusRowsLostSilently; LocusPerRecordFailuresReported] Evidenced
    ("input_bad_records_count is exactly this and it counts without sampling; the one exclusion is P3 F77's, that an unparseable date inside map_record is discarded with " +:+
     "no row, no log line and no count (§9.5)");
  mkClass CauseValidationBreach [LocusPerRecordFailuresReported] Conditional
    ("a jets:exception reaches process_errors for the 9 of 12 jetrules instances that wire a channel (F188), capped at 20 per operator instance (F187), and without saying " +:+
     "which rule (F185: the message is the only populated column) (§9.5)");
  mkClass CauseTransformationDefect [LocusWorkerNotTerminated; LocusWorkerFailed; LocusRowsLostSilently; LocusPerRecordFailuresReported] Coarse
    ("the locus yes, the cause coarsely: N.4's StepRegression establishes that this step used to work, and a run now names a workspace and a compiled version (§16.2, AB.3), " +:+
     "which that version now pairs with a commit (AH.2) — so two runs of the same step under different versions are distinguishable and what changed inside a version is not " +:+
     "(F337). **The join is through a read that is known wrong**: four call sites resolve the workspace version as MAX(version) with no workspace predicate, so a deployment " +:+
     "with two workspaces can stamp a run with the other one's version (§18.4, I-347)");
  mkClass CauseInfrastructureFailure [LocusRunNotStarted; LocusWorkerNotTerminated; LocusWorkerFailed] Coarse
    ("the ECS StoppedReason arm of the decoder is real and which of its four arms fired is not recorded (F198), and locus worker_not_terminated collapses a killed task, an " +:+
     "out-of-memory kill, a lost node and a hung read into one observation (§9.5)");
  mkClass CauseDependencyFailure [] NotEvidenced
    ("there is no dependency graph of any kind; the cross-step DAG join is available for at most one hop and only for stage-mediated hops (I-113), and external " +:+
     "dependencies are modelled nowhere (§9.5, I-262)");
  mkClass CauseCapacityOrCostDeviation [] NotEvidenced
    "F201: no cost, no memory, no CPU, and the only duration is one wall clock per worker that includes queueing on the header (§9.5, I-262)";
  mkClass CauseBenignVariation [LocusRowsLostSilently] Asymmetric
    ("the class can be proposed and not established: confirming benign needs the absence of a cause, which no record supplies, and ConfigConfounders.Read == false is the " +:+
     "ordinary state for the runs that failed earliest (F194). §9.5's cell reads " +:+ quoted "6 above all" +:+ ", which is not a closed list of loci") ].
Definition class_named (name : string) : option CauseClass := List.find (λ c, String.eqb (Name c) name) causeClasses.
Definition EvidenceabilityOf (causeCategory : string) : Evidenceability := from_option class_Evidenceability NotEvidenced (class_named causeCategory).
Definition lociOf (name : string) : list string := from_option Loci_of [] (class_named name).
Definition ClassesFor (locus : string) : list CauseClass := List.filter (λ c, contains (Loci_of c) locus) causeClasses.
Definition containsClass (cs : list CauseClass) (name : string) : bool := existsb (λ c, String.eqb (Name c) name) cs.
Definition Evidenceable (c : CauseClass) : bool := negb (bool_decide (class_Evidenceability c = NotEvidenced)).
(** The first_index of the first element that satisfies a test, or the length. *)
Fixpoint first_index {A} (p : A → bool) (l : list A) : Z := match l with [] => 0 | x :: l' => if p x then 0 else 1 + first_index p l' end.
Definition classOrder (name : string) : Z := first_index (λ c, String.eqb (Name c) name) causeClasses.
Definition locusOrder (locus : string) : Z := first_index (String.eqb locus) Loci.

Definition configuredBehaviourConfounders : list string :=
  [ConfounderOnErrorDrop; ConfounderMaxInputCount; ConfounderSamplingCap; ConfounderDeviceWriterOutput; ConfounderParquetInput].
Definition benignExplanation (name : string) : bool := contains configuredBehaviourConfounders name.
Definition signalLocus (signal : string) : option string :=
  if String.eqb signal SignalVolume then Some LocusRowsLostSilently
  else if String.eqb signal SignalWorkerStall then Some LocusWorkerNotTerminated
  else if String.eqb signal SignalArrival then Some LocusWrittenNotArrived
  else if String.eqb signal SignalRejectionRate then Some LocusPerRecordFailuresReported
  else None.

(** ** The case for and against *)
Record Ranker := mkRanker { rr_Generation : Z }.
Definition rca_Default : Ranker := mkRanker 1.
Definition rca_Ref (r : Ranker) : string := "rca@" +:+ Itoa (rr_Generation r).
Record Input := mkInput { in_Report : option Report; in_Evidence : option triage_Evidence; in_Anomalies : list Anomaly }.

(** The findings by locus: of several at one locus the last. *)
Definition by_locus (findings : list triage_Finding) : gmap string triage_Finding := foldl (λ m f, <[fi_Locus f := f]> m) ∅ findings.
Definition verdict_at (byLocus : gmap string triage_Finding) (locus : string) : option Verdict := fi_Verdict <$> byLocus !! locus.
Definition anomalies_at (anomalies : list Anomaly) (locus : string) : list Anomaly :=
  List.filter (λ a, bool_decide (signalLocus (an_SignalType a) = Some locus)) anomalies.

Definition causeSentence (locus : string) (c : CauseClass) : string :=
  Name c +:+ ", inferred from locus " +:+ locus +:+ " — §9.5 lists " +:+ locus +:+ " among the loci that can carry this class".
Definition confidence (sup con : Z) : float64 := if sup + con =? 0 then f64_of_Z 0 else f64_div (f64_of_Z sup) (f64_of_Z (sup + con)).

Definition confounderStatement (name : string) (c : CauseClass) : string :=
  if benignExplanation name then
    name +:+ " is configured on this run: a behaviour the pipeline was asked for would produce the same observation, which is an alternative to " +:+
    Name c +:+ " that the record does not exclude"
  else name +:+ ": the comparison behind this locus is bounded, so it does not exclude an explanation other than " +:+ Name c.
(** The items for, then the items against. *)
Definition confounderEvidence (session locus : string) (confounders : list string) (c : CauseClass) (ref : string) : list Evidence * list Evidence :=
  let source_ref name := ref +:+ ": " +:+ name +:+ " at " +:+ session +:+ "/" +:+ locus in
  let benign name := benignExplanation name && String.eqb (Name c) CauseBenignVariation in
  ((λ name, mkItem (name +:+ " is a configured behaviour that would produce this observation deliberately, which is the case for benign variation rather than a doubt about it")
       SourceDetectorConfounder (source_ref name)) <$> List.filter benign confounders,
   (λ name, mkItem (confounderStatement name c) SourceDetectorConfounder (source_ref name)) <$> List.filter (negb ∘ benign) confounders).

Definition bad_records (rows : list WorkerRow) : Z := foldl (λ bad w, i64 (bad + default 0 (wr_InputBadRecords w))) 0 rows.
Definition corroborators (ev : option triage_Evidence) (c : CauseClass) : list Evidence :=
  match ev with
  | None => []
  | Some ev =>
      if String.eqb (Name c) CauseParseFailure then
        let rows := workerRows ev in
        if 0 <? bad_records rows then
          [mkItem ("input_bad_records_count sums to " +:+ Itoa (bad_records rows) +:+ " over " +:+ Itoa (Z.of_nat (length rows)) +:+
                   " worker rows, which is read-time parse failure counted without sampling")
             SourceRunTelemetry (ev_SessionId ev +:+ ": pipeline_execution_details.input_bad_records_count")]
        else []
      else if String.eqb (Name c) CauseValidationBreach then
        match ev_Errors ev with
        | Some e => if 0 <? WithReteSession e then
            [mkItem (Itoa (WithReteSession e) +:+ " of " +:+ Itoa (es_Rows e) +:+ " process_errors rows carry a saved rete session, which is the jetrules family's own column " +:+
                     "and is the closest the table comes to saying a rule raised the error (F185)")
               SourceDqResult (ev_SessionId ev +:+ ": jetsapi.process_errors")] else []
        | None => []
        end
      else if String.eqb (Name c) CauseSourceContentChange then
        match ev_Errors ev with
        | Some e => if 0 <? WithInputColumn e then
            [mkItem (Itoa (WithInputColumn e) +:+ " of " +:+ Itoa (es_Rows e) +:+ " process_errors rows name an input_column, which is written by the inference operator family " +:+
                     "and is the only column-level signal the table carries (F185)")
               SourceDqResult (ev_SessionId ev +:+ ": jetsapi.process_errors.input_column")] else []
        | None => []
        end
      else if String.eqb (Name c) CauseInfrastructureFailure then
        match ev_Header ev with
        | Some h => if negb (String.eqb (rh_FailureDetails h) "") then
            [mkItem ("the run header carries " +:+ Itoa (Z.of_nat (String.length (rh_FailureDetails h))) +:+ " characters of failure_details, one of whose four undeclared shapes " +:+
                     "is the decoded ECS StoppedReason; which of the decoder's arms produced it is not recorded (F197, F198)")
               SourceRunTelemetry (ev_SessionId ev +:+ ": pipeline_execution_status.failure_details")] else []
        | None => []
        end
      else if String.eqb (Name c) CauseBenignVariation then
        match ev_Config ev with
        | Some cc => if cc_Read cc then
            (λ name, mkItem ("the run's stored configuration mentions " +:+ name +:+ ", a behaviour that would produce this observation on purpose")
               SourceCodeInspection (ev_SessionId ev +:+ ": cpipes_execution_status.cpipes_config_json")) <$> List.filter benignExplanation (cc_Found cc) else []
        | None => []
        end
      else []
  end.

Definition also_carried (other : string) : string := "§9.5 says this class can also be carried by locus " +:+ other +:+ ", and that locus ".
(** What the other positions of a class say for it, and against it. *)
Definition other_for (session : string) (byLocus : gmap string triage_Finding) (other : string) : list Evidence :=
  match byLocus !! other with
  | Some g => if bool_decide (fi_Verdict g = Present)
      then [mkItem (also_carried other +:+ "is present for this run as well: " +:+ fi_Basis g) SourceRunTelemetry (session +:+ "/" +:+ other)] else []
  | None => []
  end.
Definition other_against (session : string) (byLocus : gmap string triage_Finding) (other : string) : list Evidence :=
  match byLocus !! other with
  | Some g =>
      match fi_Verdict g with
      | Present => []
      | Absent => [mkItem (also_carried other +:+ "was evaluated and does not hold: " +:+ fi_Basis g) SourceRunTelemetry (session +:+ "/" +:+ other)]
      | NotEvaluable =>
          [mkItem (also_carried other +:+ "could not be evaluated at all, so the case for this class is bounded rather than complete: " +:+ fi_Basis g)
             SourceRunTelemetry (session +:+ "/" +:+ other)]
      end
  | None => []
  end.
Definition unreportable_against (session : string) (byLocus : gmap string triage_Finding) (c : CauseClass) : list Evidence :=
  if String.eqb (Name c) CauseBenignVariation then
    match byLocus !! LocusPerRecordFailuresUnreportable with
    | Some g => if bool_decide (fi_Verdict g = Present) then
        [mkItem ("locus per_record_failures_unreportable is present for this run: an operator that can report per-record errors is configured without an error channel, so its " +:+
                 "failures have nowhere to go and the absence of process_errors rows is not evidence of their absence (§9.4 row 8). " +:+ fi_Basis g)
           SourceRunTelemetry (session +:+ "/" +:+ LocusPerRecordFailuresUnreportable)] else []
    | None => []
    end
  else [].
Definition anomaly_for (a : Anomaly) : Evidence :=
  mkItem ("detector " +:+ an_DetectorRef a +:+ " raised a " +:+ an_SignalType a +:+ " anomaly on " +:+ an_SubjectType a +:+ " " +:+ an_SubjectRef a +:+ ": observed " +:+
          an_ObservedValue a +:+ " against " +:+ an_ExpectedBasis a) SourceRunTelemetry ("jetsapi.anomaly " +:+ an_AnomalyId a).
Definition others (c : CauseClass) (locus : string) : list string := List.filter (λ other, negb (String.eqb other locus)) (Loci_of c).

Section hypothesis.
Context (r : Ranker) (session : string) (ev : option triage_Evidence) (anomalies : list Anomaly) (byLocus : gmap string triage_Finding).
(** The confounders of the finding, then those of the anomalies. *)
Definition confounded (locus : string) (c : CauseClass) (f : triage_Finding) : list Evidence * list Evidence :=
  let all := confounderEvidence session locus (fi_Confounders f) c ("triage finding " +:+ fi_ClassifierRef f)
    :: ((λ a, confounderEvidence session locus (an_Confounders a) c ("jetsapi.anomaly " +:+ an_AnomalyId a)) <$> anomalies_at anomalies locus) in
  (concat (fst <$> all), concat (snd <$> all)).
Definition case_for (locus : string) (c : CauseClass) (f : triage_Finding) : list Evidence :=
  (mkItem ("triage found locus " +:+ locus +:+ " present for session " +:+ session +:+ ": " +:+ fi_Basis f) SourceRunTelemetry
     (session +:+ "/" +:+ locus +:+ " (" +:+ fi_ClassifierRef f +:+ ")")
   :: concat (other_for session byLocus <$> others c locus) ++ (anomaly_for <$> anomalies_at anomalies locus) ++ corroborators ev c ++ (confounded locus c f).1)%list.
Definition case_against (locus : string) (c : CauseClass) (f : triage_Finding) : list Evidence :=
  ((if bool_decide (class_Evidenceability c ≠ Evidenced) then
      [mkItem ("the execution record's ability to evidence " +:+ Name c +:+ " is " +:+ quoted (evidenceability_text (class_Evidenceability c)) +:+ ": " +:+ Note c)
         SourceCodeInspection "phase-4 plan §9.5"] else []) ++
   (confounded locus c f).2 ++ concat (other_against session byLocus <$> others c locus) ++ unreportable_against session byLocus c)%list.
Definition hypothesis (locus : string) (c : CauseClass) (f : triage_Finding) : CausalHypothesis :=
  let sup := case_for locus c f in
  let con := case_against locus c f in
  mkHypothesis (session +:+ "/" +:+ locus +:+ "/" +:+ Name c) "" (causeSentence locus c) (Name c) (confidence (Z.of_nat (length sup)) (Z.of_nat (length con))) 0
    sup (Some con) locus "" (rca_Ref r).
End hypothesis.

(** ** The order *)
Definition evidenceable_name (name : string) : bool := negb (bool_decide (EvidenceabilityOf name = NotEvidenced)).
Definition ranks_before (a b : CausalHypothesis) : bool :=
  let ea := evidenceable_name (CauseCategory a) in
  let eb := evidenceable_name (CauseCategory b) in
  if negb (Bool.eqb ea eb) then ea
  else if negb (f64_eq (Confidence a) (Confidence b)) then f64_lt (Confidence b) (Confidence a)
  else if negb (locusOrder (h_Locus a) =? locusOrder (h_Locus b)) then locusOrder (h_Locus a) <? locusOrder (h_Locus b)
  else classOrder (CauseCategory a) <? classOrder (CauseCategory b).
(** sort.SliceStable. *)
Fixpoint insert_hypothesis (h : CausalHypothesis) (hs : list CausalHypothesis) : list CausalHypothesis :=
  match hs with [] => [h] | g :: hs' => if ranks_before g h then g :: insert_hypothesis h hs' else h :: hs end.
Fixpoint sortHypotheses (hs : list CausalHypothesis) : list CausalHypothesis :=
  match hs with [] => [] | h :: hs' => insert_hypothesis h (sortHypotheses hs') end.

(** ** Bases *)

(** The quotient, rounded to the nearest integer and to the even one of two. *)
Definition div_even (n d : Z) : Z :=
  let q := n / d in
  match 2 * (n mod d) ?= d with Lt => q | Gt => q + 1 | Eq => if Z.even q then q else q + 1 end.
(** fmt's %.2f. *)
Definition format_f2 (f : float64) : string :=
  let signed s t := (if s : bool then "-" else "") +:+ t in
  match f with
  | S754_nan => "NaN"
  | S754_infinity s => if s then "-Inf" else "+Inf"
  | S754_zero s => signed s "0.00"
  | S754_finite s m e =>
      let n := if 0 <=? e then Zpos m * 2 ^ e * 100 else div_even (Zpos m * 100) (2 ^ (- e)) in
      signed s (Itoa (n / 100) +:+ "." +:+ (if n mod 100 <? 10 then "0" else "") +:+ Itoa (n mod 100))
  end.
Definition len_text {A} (l : list A) : string := Itoa (Z.of_nat (length l)).
Definition rankBasis (h : CausalHypothesis) (total : Z) : string :=
  let sup := len_text (SupportingEvidence h) in
  "ranked " +:+ Itoa (h_Rank h) +:+ " of " +:+ Itoa total +:+ ". " +:+ sup +:+ " evidence item(s) for and " +:+ len_text (against h) +:+ " against, so confidence is " +:+
  sup +:+ "/" +:+ Itoa (Z.of_nat (length (SupportingEvidence h)) + Z.of_nat (length (against h))) +:+ " = " +:+ format_f2 (Confidence h) +:+
  " — the floor counts evidence rather than weighting it, so this number is a ratio of the two lists below and not a probability." +:+
  " Derived from locus " +:+ h_Locus h +:+ ", which §9.5 lists as carrying " +:+ CauseCategory h +:+ "." +:+
  (if bool_decide (EvidenceabilityOf (CauseCategory h) = NotEvidenced) then
     " §9.5 answers " +:+ quoted "no" +:+ " to whether the record can evidence this class, so it is ranked below every class the record can speak to whatever its count; a class " +:+
     "the substrate cannot evidence is not a weak candidate but one there is no instrument for."
   else " §9.5's evidenceability for this class is " +:+ quoted (evidenceability_text (EvidenceabilityOf (CauseCategory h))) +:+
        ", which puts it above every class the record cannot evidence at all.") +:+
  (if (length (against h) =? 0)%nat then
     " Nothing was found against it, which for this class means §9.5 records the record as able to evidence it and no confounder was declared." else "") +:+
  " Ties at equal confidence are broken by §9.4's locus order and then by §9.5's class order, which are positional and say nothing about this run.".
Definition without (a b : list string) : list string := List.filter (λ s, negb (contains b s)) a.
Definition no_locus : list string := Name <$> List.filter (λ c, (length (Loci_of c) =? 0)%nat) causeClasses.
Definition no_evidence : list string := Name <$> List.filter (λ c, negb (Evidenceable c)) causeClasses.
Definition rankingBasis (r : Ranker) (out : Ranking) (present unplacedSignals : list string) (anomalies : Z) : string :=
  rca_Ref r +:+ " ranked " +:+ len_text (Hypotheses out) +:+ " hypotheses for session " +:+ rk_SessionId out +:+ ". " +:+
  (if (length present =? 0)%nat then
     "No locus is present, so no hypothesis was emitted: this ranking asserts nothing about the run rather than asserting that it was healthy. "
   else len_text present +:+ " locus/loci are present (" +:+ join ", " present +:+
        "), and each was mapped to the cause classes phase-4 plan §9.5 lists as able to carry it. ") +:+
  (if (length (UnmappedLoci out) =? 0)%nat then "" else
     len_text (UnmappedLoci out) +:+ " present locus/loci map to no cause class in §9.5 and produced no hypothesis (" +:+ join ", " (UnmappedLoci out) +:+
     "); that is a property of the gate's table rather than of this run. ") +:+
  (if (length (UnaskedLoci out) =? 0)%nat then "" else
     len_text (UnaskedLoci out) +:+ " of the nine loci could not be evaluated (" +:+ join ", " (UnaskedLoci out) +:+
     "), so every class whose only evidence first_index is among them has not been ruled out — it has not been looked at. ") +:+
  len_text no_locus +:+ " of the ten cause classes are attached to no locus at all in §9.5 (" +:+ join ", " no_locus +:+
  ") and can therefore never be emitted by this floor, whatever the run did. A further " +:+ Itoa (Z.of_nat (length no_evidence) - Z.of_nat (length no_locus)) +:+
  " are attached to a locus and answered " +:+ quoted "no" +:+ " in §9.5's evidenceability column (" +:+ join ", " (without no_evidence no_locus) +:+
  "): those are emitted where their locus fires and carry §9.5's own reason as evidence against themselves, which is how a class the record cannot support is put in front of " +:+
  "a reader rather than hidden from one. " +:+
  (if anomalies =? 0 then
     "No anomaly rows were supplied for this session, so no detector's confounders entered the case against; jetsapi.anomaly is deployed only where `update_db -migrateDb` has run. "
   else Itoa anomalies +:+ " anomaly row(s) were read. ") +:+
  (if (length unplacedSignals =? 0)%nat then "" else
     len_text unplacedSignals +:+ " anomaly/anomalies carry a signal type §9.4 has no locus for and contributed to no hypothesis (" +:+ join ", " unplacedSignals +:+
     "): step_regression is a comparison across runs rather than a first_index in one run's record. ") +:+
  "No model was consulted.".

(** ** Rank *)
Definition loci_with (byLocus : gmap string triage_Finding) (v : Verdict) : list string := List.filter (λ l, bool_decide (verdict_at byLocus l = Some v)) Loci.
Definition unplaced (anomalies : list Anomaly) : list string :=
  (λ a, an_AnomalyId a +:+ " (" +:+ an_SignalType a +:+ ")") <$> List.filter (λ a, bool_decide (signalLocus (an_SignalType a) = None)) anomalies.
(** One hypothesis for each class the locus can carry. *)
Definition hypotheses_at (r : Ranker) (session : string) (ev : option triage_Evidence) (anomalies : list Anomaly) (byLocus : gmap string triage_Finding) (locus : string) : list CausalHypothesis :=
  match byLocus !! locus with
  | Some f => (λ c, hypothesis r session ev anomalies byLocus locus c f) <$> ClassesFor locus
  | None => []
  end.
Definition with_rank (h : CausalHypothesis) (rank : Z) : CausalHypothesis :=
  mkHypothesis (HypothesisId h) (IncidentRef h) (Cause h) (CauseCategory h) (Confidence h) rank (SupportingEvidence h) (ContradictingEvidence h) (h_Locus h) (h_Basis h) (h_RankerRef h).
Definition with_basis (h : CausalHypothesis) (basis : string) : CausalHypothesis :=
  mkHypothesis (HypothesisId h) (IncidentRef h) (Cause h) (CauseCategory h) (Confidence h) (h_Rank h) (SupportingEvidence h) (ContradictingEvidence h) (h_Locus h) basis (h_RankerRef h).
Definition with_ranks (hs : list CausalHypothesis) : list CausalHypothesis :=
  imap (λ i h, let h' := with_rank h (Z.of_nat i + 1) in with_basis h' (rankBasis h' (Z.of_nat (length hs)))) hs.
Definition rca_Rank (r : Ranker) (in_ : option Input) : Ranking :=
  let nothing := mkRanking "" (rca_Ref r) [] [] [] "no triage report was supplied, so nothing was ranked" in
  match in_ with
  | None => nothing
  | Some in_ =>
      match in_Report in_ with
      | None => nothing
      | Some report =>
          let byLocus := by_locus (Findings report) in
          let present := loci_with byLocus Present in
          let found := concat (hypotheses_at r (rp_SessionId report) (in_Evidence in_) (in_Anomalies in_) byLocus <$> present) in
          let out := mkRanking (rp_SessionId report) (rca_Ref r) (with_ranks (sortHypotheses found))
                       (List.filter (λ l, (length (ClassesFor l) =? 0)%nat) present) (loci_with byLocus NotEvaluable) "" in
          mkRanking (rk_SessionId out) (rk_RankerRef out) (Hypotheses out) (UnmappedLoci out) (UnaskedLoci out)
            (rankingBasis r out present (unplaced (in_Anomalies in_)) (Z.of_nat (length (in_Anomalies in_))))
      end
  end.

(** ** Consulting a model *)
Record model_hypothesis := mkModelHypothesis {
  mh_Cause : string; mh_CauseCategory : string; mh_Locus : string; mh_Confidence : float64; mh_SupportingEvidence : list Evidence;
  mh_ContradictingEvidence : option (list Evidence) }.
(** What came back from the model. *)
Inductive answer :=
| ChatFailed (e : string)
| NotDecoded (promptTokens evalTokens : Z) (e : string)
| Answered (promptTokens evalTokens : Z) (hs : list model_hypothesis).
Record ConsultReport := mkConsultReport {
  cr_Model : string; rep_SessionId : string; Sessions : Z; cr_Answered : bool; cr_Error : string; PromptTokens : Z; EvalTokens : Z;
  n_Hypotheses : Z; WithContradicting : Z; SupportingItems : Z; ContradictingItems : Z; UnsubstantiatedSources : Z; ClassesWithNoLocus : Z;
  PairsOutsideTheTable : Z; LociNotPresent : Z; LociAbsent : Z; LociNotEvaluable : Z;
  FloorHypotheses : Z; FloorWithContradicting : Z; FloorUnsubstantiatedSource : Z }.
Definition sourcesWithNoSubstrate : list string := [SourceInfrastructureLog].
Definition unsubstantiated (h : CausalHypothesis) : Z :=
  Z.of_nat (length (List.filter (λ e, contains sourcesWithNoSubstrate (Source e)) (SupportingEvidence h ++ against h)%list)).
Definition clamp01 (v : float64) : float64 := if f64_lt v (f64_of_Z 0) then f64_of_Z 0 else if f64_lt (f64_of_Z 1) v then f64_of_Z 1 else v.
Definition argues_against (h : CausalHypothesis) : bool := negb (length (against h) =? 0)%nat.
Definition count {A} (p : A → bool) (l : list A) : Z := Z.of_nat (length (List.filter p l)).
Definition sum {A} (f : A → Z) (l : list A) : Z := foldr (λ x n, f x + n) 0 l.

Section consult.
Context (r : Ranker) (model session : string) (findings : list triage_Finding).
Definition model_ref : string := rca_Ref r +:+ "+" +:+ model.
(** The hypothesis made of an answer, with [kept] hypotheses before it. *)
Definition of_model (kept : Z) (a : model_hypothesis) : CausalHypothesis :=
  let sup := mh_SupportingEvidence a in
  let con := default [] (mh_ContradictingEvidence a) in
  let conf := clamp01 (mh_Confidence a) in
  mkHypothesis (session +:+ "/" +:+ mh_Locus a +:+ "/" +:+ mh_CauseCategory a +:+ "#model") "" (mh_Cause a) (mh_CauseCategory a) conf (kept + 1) sup (Some con) (mh_Locus a)
    ("ranked " +:+ Itoa (kept + 1) +:+ ": proposed by model " +:+ model +:+ " with " +:+ len_text sup +:+ " evidence item(s) for and " +:+ len_text con +:+
     " against, at its own stated confidence of " +:+ format_f2 conf +:+ ". **The number is the model's and is not computed from the two lists**, which is how it differs from " +:+
     "a floor hypothesis's basis.") model_ref.
Definition outside_table (h : CausalHypothesis) : bool := negb (containsClass (ClassesFor (h_Locus h)) (CauseCategory h)).
Definition class_without_locus (h : CausalHypothesis) : bool :=
  bool_decide (EvidenceabilityOf (CauseCategory h) = NotEvidenced) && (length (lociOf (CauseCategory h)) =? 0)%nat.
(** present[l] and verdict[l] of the report. *)
Definition present_at (locus : string) : bool := contains (fired_loci (mkReport session findings 0)) locus.
Definition not_present (h : CausalHypothesis) : bool := negb (present_at (h_Locus h)).
Definition not_evaluable_at (h : CausalHypothesis) : bool := not_present h && bool_decide (verdict_at (by_locus findings) (h_Locus h) = Some NotEvaluable).
Definition absent_at (h : CausalHypothesis) : bool := not_present h && negb (bool_decide (verdict_at (by_locus findings) (h_Locus h) = Some NotEvaluable)).
Definition add_answer (rep : ConsultReport) (h : CausalHypothesis) : ConsultReport :=
  let inc (b : bool) := if b then 1 else 0 in
  mkConsultReport (cr_Model rep) (rep_SessionId rep) (Sessions rep) (cr_Answered rep) (cr_Error rep) (PromptTokens rep) (EvalTokens rep)
    (n_Hypotheses rep + 1) (WithContradicting rep + inc (argues_against h)) (SupportingItems rep + Z.of_nat (length (SupportingEvidence h)))
    (ContradictingItems rep + Z.of_nat (length (against h))) (UnsubstantiatedSources rep + unsubstantiated h) (ClassesWithNoLocus rep + inc (class_without_locus h))
    (PairsOutsideTheTable rep + inc (outside_table h)) (LociNotPresent rep + inc (not_present h)) (LociAbsent rep + inc (absent_at h))
    (LociNotEvaluable rep + inc (not_evaluable_at h)) (FloorHypotheses rep) (FloorWithContradicting rep) (FloorUnsubstantiatedSource rep).
(** One turn of the loop over the answers. *)
Definition consult_step (st : list CausalHypothesis * ConsultReport) (a : model_hypothesis) : list CausalHypothesis * ConsultReport :=
  let h := of_model (Z.of_nat (length st.1)) a in
  (match Hypothesis_Validate h with Some _ => st.1 | None => (st.1 ++ [h])%list end, add_answer st.2 h).
End consult.
Definition consult_basis (r : Ranker) (model session : string) (hs : list model_hypothesis) : string :=
  rca_Ref r +:+ " ranked " +:+ len_text hs +:+ " hypotheses for session " +:+ session +:+ " after consulting model " +:+ model +:+
  " over the same evidence the deterministic floor read. The floor's ranking is the comparison and is returned separately; nothing here is scored for correctness, the " +:+
  "labelled population being zero (plan §10).".
Definition floor_report (r : Ranker) (model : string) (in_ : Input) (report : Report) (answered : bool) (error : string) (prompt eval : Z) : ConsultReport :=
  let floor := Hypotheses (rca_Rank r (Some in_)) in
  mkConsultReport model (rp_SessionId report) 1 answered error prompt eval 0 0 0 0 0 0 0 0 0 0 (Z.of_nat (length floor)) (count argues_against floor) (sum unsubstantiated floor).
(** Rendering the instruction reads the first finding. *)
Definition instruction_ok (report : Report) : res unit := match Findings report with [] => Panic "index out of range [0] with length 0" | _ => Ret tt end.
Definition Consult (r : Ranker) (model : string) (chat : Input → answer) (in_ : option Input) : res (option Ranking * ConsultReport) :=
  match in_ ≫= λ i, report ← in_Report i; Some (i, report) with
  | None => Fail "rca: Consult needs a triage report"
  | Some (i, report) =>
      let! _ := instruction_ok report in
      match chat i with
      | ChatFailed e => Ret (None, floor_report r model i report false e 0 0)
      | NotDecoded p e err => Ret (None, floor_report r model i report false ("the answer satisfied the schema and did not decode: " +:+ err) p e)
      | Answered p e hs =>
          let '(kept, rep) := foldl (consult_step r model (rp_SessionId report) (Findings report)) ([], floor_report r model i report true "" p e) hs in
          Ret (Some (mkRanking (rp_SessionId report) (model_ref r model) (imap (λ i h, with_rank h (Z.of_nat i + 1)) kept) [] []
                       (consult_basis r model (rp_SessionId report) hs)), rep)
      end
  end.
