(* ===== verification/RootCauseLaws.v ===== *)
(** * Properties of the ranking

    A ranking is valid, holds one hypothesis for each class that a present locus can carry,
    and is strictly ordered; what a model answers is counted, and kept only where it is valid. *)
From stdpp Require Import base list strings gmap sorting.
From Stdlib Require Import ZArith Lia SpecFloat.
From S2P Require Import Prelude GoFloat GoText GoTextLaws ExecutionRecord Triage TriageLaws RootCause.
Local Open Scope string_scope.
Local Open Scope Z_scope.

#[local] Set Warnings "-register-all".

(** ** Items of evidence *)
Definition item_ok (e : Evidence) : Prop := Evidence_validate e = None.
Lemma first_error_None {A} (check : A → option string) l : first_error check l = None ↔ Forall (λ x, check x = None) l.
Proof. induction l as [|x l IH]; [by split; [constructor|]|]. cbn. rewrite Forall_cons, <- IH. destruct (check x); naive_solver. Qed.
Lemma mkItem_ok s src ref : String.eqb s "" = false → contains EvidenceSources src = true → item_ok (mkItem s src ref).
Proof. intros Hs Hsrc. unfold item_ok, Evidence_validate. cbn [Statement Source]. by rewrite Hs, Hsrc. Qed.
Lemma app_nonempty_l (a b : string) : String.eqb a "" = false → String.eqb (a +:+ b) "" = false.
Proof. by destruct a. Qed.
Lemma Forall_concat_fmap {A B} (P : B → Prop) (f : A → list B) l : (∀ x, Forall P (f x)) → Forall P (concat (f <$> l)).
Proof. intros Hf. induction l as [|x l IH]; [constructor|]. cbn. apply Forall_app. split; [apply Hf|done]. Qed.
Create HintDb rca.
#[export] Hint Resolve mkItem_ok : rca.
(** An item whose statement begins or ends with words of the source. *)
Ltac item := apply mkItem_ok; [first [done|by apply app_nonempty_l|apply app_nonempty; first [done|by apply app_nonempty_l]]|done].
Ltac items := repeat case_match; first [apply Forall_nil_2|apply Forall_singleton; item].

Section items.
Context (r : Ranker) (session : string) (ev : option triage_Evidence) (anomalies : list Anomaly) (byLocus : gmap string triage_Finding).
Lemma confounderStatement_nonempty name c : String.eqb (confounderStatement name c) "" = false.
Proof. unfold confounderStatement. case_match; by apply app_nonempty. Qed.
Lemma confounderEvidence_ok locus conf c ref : let p := confounderEvidence session locus conf c ref in Forall item_ok p.1 ∧ Forall item_ok p.2.
Proof.
  split; apply Forall_fmap, Forall_forall; intros name _; cbn; [item|]. apply mkItem_ok; [apply confounderStatement_nonempty|done].
Qed.
Lemma confounded_ok locus c f : Forall item_ok (confounded session anomalies locus c f).1 ∧ Forall item_ok (confounded session anomalies locus c f).2.
Proof.
  unfold confounded. cbn [fst snd fmap list_fmap concat].
  split; (apply Forall_app; split; [apply confounderEvidence_ok|]; rewrite <- list_fmap_compose; apply Forall_concat_fmap; intros a; apply confounderEvidence_ok).
Qed.
Lemma corroborators_ok c : Forall item_ok (corroborators ev c).
Proof.
  unfold corroborators. destruct ev as [e|]; [|constructor]. repeat case_match; try (apply Forall_nil_2); try (apply Forall_fmap, Forall_forall; intros name _; cbn; item);
    (constructor; [item|constructor]).
Qed.
Lemma case_for_ok locus c f : Forall item_ok (case_for session ev anomalies byLocus locus c f).
Proof.
  unfold case_for. constructor; [item|]. rewrite !Forall_app. split_and!.
  - apply Forall_concat_fmap. intros other. unfold other_for. items.
  - apply Forall_fmap, Forall_forall. intros a _. unfold compose, anomaly_for. item.
  - apply corroborators_ok.
  - apply confounded_ok.
Qed.
Lemma case_against_ok locus c f : Forall item_ok (case_against session anomalies byLocus locus c f).
Proof.
  unfold case_against. rewrite !Forall_app. split_and!.
  - items.
  - apply confounded_ok.
  - apply Forall_concat_fmap. intros other. unfold other_against. items.
  - unfold unreportable_against. items.
Qed.
End items.

(** ** How many there are *)
Fixpoint total {A} (f : A → nat) (l : list A) : nat := match l with [] => 0 | x :: l' => f x + total f l' end%nat.
Lemma total_in {A} (f : A → nat) l x : x ∈ l → (f x ≤ total f l)%nat.
Proof. induction 1 as [x l|x y l _ IH]; cbn; lia. Qed.
Lemma total_filter {A} (f : A → nat) p l : (total f (List.filter p l) ≤ total f l)%nat.
Proof. induction l as [|x l IH]; cbn; [lia|]. destruct (p x); cbn; lia. Qed.
Lemma length_concat_fmap {A B} (f : A → list B) l : length (concat (f <$> l)) = total (length ∘ f) l.
Proof. induction l as [|x l IH]; [done|]. cbn. by rewrite length_app, IH. Qed.
Lemma total_sum {A} (f g h : A → nat) l : (∀ x, f x + g x = h x)%nat → (total f l + total g l = total h l)%nat.
Proof. intros Hx. induction l as [|x l IH]; [done|]. cbn. specialize (Hx x). lia. Qed.
Lemma total_bound {A} (f : A → nat) n l : (∀ x, f x ≤ n)%nat → (total f l ≤ n * length l)%nat.
Proof. intros Hx. induction l as [|x l IH]; cbn; [lia|]. specialize (Hx x). lia. Qed.
Lemma length_List_filter {A} p (l : list A) : (length (List.filter p l) + length (List.filter (negb ∘ p) l) = length l)%nat.
Proof. induction l as [|x l IH]; [done|]. cbn. destruct (p x); cbn; lia. Qed.
Lemma length_filter_le {A} p (l : list A) : (length (List.filter p l) ≤ length l)%nat.
Proof. pose proof (length_List_filter p l). lia. Qed.

Lemma elem_of_concat_fmap {A B} (f : A → list B) l y : y ∈ concat (f <$> l) ↔ ∃ x, x ∈ l ∧ y ∈ f x.
Proof. induction l as [|x l IH]; cbn; [split; [by intros ?%not_elem_of_nil|by intros (x & ?%not_elem_of_nil & _)]|]. rewrite elem_of_app, IH. setoid_rewrite elem_of_cons. naive_solver. Qed.

(** All that evidence can be made of. *)
Definition weight (in_ : Input) (report : Report) : nat :=
  (16 + length (in_Anomalies in_) + total (length ∘ an_Confounders) (in_Anomalies in_) + total (length ∘ fi_Confounders) (Findings report) +
   from_option (λ ev, from_option (length ∘ cc_Found) 0 (ev_Config ev)) 0 (in_Evidence in_))%nat.

Section size.
Context (session : string) (ev : option triage_Evidence) (anomalies : list Anomaly) (byLocus : gmap string triage_Finding).
Lemma confounderEvidence_length locus conf c ref :
  (length (confounderEvidence session locus conf c ref).1 + length (confounderEvidence session locus conf c ref).2 = length conf)%nat.
Proof. cbn. rewrite !length_fmap. apply length_List_filter. Qed.
Lemma confounded_length locus c f : (length (confounded session anomalies locus c f).1 + length (confounded session anomalies locus c f).2 ≤
  length (fi_Confounders f) + total (length ∘ an_Confounders) anomalies)%nat.
Proof.
  unfold confounded. cbn [fst snd fmap list_fmap concat]. rewrite !length_app. pose proof (confounderEvidence_length locus (fi_Confounders f) c ("triage finding " +:+ fi_ClassifierRef f)) as H0.
  set (g := λ a, confounderEvidence session locus (an_Confounders a) c ("jetsapi.anomaly " +:+ an_AnomalyId a)).
  change (list_fmap _ _ g (anomalies_at anomalies locus)) with (g <$> anomalies_at anomalies locus).
  change (list_fmap _ _ fst (g <$> anomalies_at anomalies locus)) with (fst <$> (g <$> anomalies_at anomalies locus)).
  change (list_fmap _ _ snd (g <$> anomalies_at anomalies locus)) with (snd <$> (g <$> anomalies_at anomalies locus)).
  rewrite <- !list_fmap_compose, !length_concat_fmap. pose proof (total_filter (length ∘ an_Confounders) (λ a, bool_decide (signalLocus (an_SignalType a) = Some locus)) anomalies) as Hf.
  pose proof (total_sum (length ∘ (fst ∘ g)) (length ∘ (snd ∘ g)) (length ∘ an_Confounders) (anomalies_at anomalies locus) (λ a, confounderEvidence_length locus (an_Confounders a) c _)) as Hs.
  unfold anomalies_at in *. lia.
Qed.
Lemma corroborators_length c : (length (corroborators ev c) ≤ 1 + from_option (λ ev, from_option (length ∘ cc_Found) 0 (ev_Config ev)) 0 ev)%nat.
Proof.
  unfold corroborators. destruct ev as [e|]; cbn [from_option]; [|cbn; lia]. repeat case_match; cbn [length]; try lia. rewrite length_fmap. cbn [from_option]. unfold compose.
  pose proof (length_filter_le benignExplanation (cc_Found c0)). lia.
Qed.
Lemma others_length c locus : c ∈ causeClasses → (length (others c locus) ≤ 4)%nat.
Proof.
  intros Hc. pose proof (length_filter_le (λ other, negb (String.eqb other locus)) (Loci_of c)) as Hl. unfold others.
  assert (Hall : forallb (λ c, Nat.leb (length (Loci_of c)) 4) causeClasses = true) by done. rewrite forallb_forall in Hall.
  apply list_elem_of_In, Hall, Nat.leb_le in Hc. lia.
Qed.
Lemma case_length locus c f : c ∈ causeClasses →
  (length (case_for session ev anomalies byLocus locus c f) + length (case_against session anomalies byLocus locus c f) ≤
   16 + length anomalies + total (length ∘ an_Confounders) anomalies + length (fi_Confounders f) + from_option (λ ev, from_option (length ∘ cc_Found) 0 (ev_Config ev)) 0 ev)%nat.
Proof.
  intros Hc. pose proof (others_length c locus Hc) as Ho. pose proof (confounded_length locus c f) as Hcf. pose proof (corroborators_length c) as Hco.
  unfold case_for, case_against. cbn [length]. rewrite !length_app, length_fmap, !length_concat_fmap.
  assert (H1 : ∀ x, ((length ∘ other_for session byLocus) x ≤ 1)%nat) by (intros x; unfold compose, other_for; repeat case_match; cbn; lia).
  assert (H2 : ∀ x, ((length ∘ other_against session byLocus) x ≤ 1)%nat) by (intros x; unfold compose, other_against; repeat case_match; cbn; lia).
  pose proof (total_bound _ _ (others c locus) H1) as B1. pose proof (total_bound _ _ (others c locus) H2) as B2.
  assert (H3 : (length (unreportable_against session byLocus c) ≤ 1)%nat) by (unfold unreportable_against; repeat case_match; cbn; lia).
  pose proof (length_filter_le (λ a, bool_decide (signalLocus (an_SignalType a) = Some locus)) anomalies) as Ha. unfold anomalies_at.
  match goal with |- context [length (if ?b then ?x else [])] => assert (H4 : (length (if b then x else []) ≤ 1)%nat) by (case_match; cbn; lia) end. lia.
Qed.
End size.

(** ** The order is total and strict *)
Definition comparable (h : CausalHypothesis) : Prop := ∃ m e, Confidence h = S754_finite false m e.
Definition exponent (h : CausalHypothesis) : Z := match Confidence h with S754_finite _ _ e => e | _ => 0 end.
Definition mantissa (h : CausalHypothesis) : Z := match Confidence h with S754_finite _ m _ => Zpos m | _ => 0 end.
Definition tier (h : CausalHypothesis) : Z := if evidenceable_name (CauseCategory h) then 0 else 1.
Lemma ranks_before_spec a b : comparable a → comparable b → ranks_before a b = true ↔
  tier a < tier b ∨ (tier a = tier b ∧ (exponent b < exponent a ∨ (exponent a = exponent b ∧ (mantissa b < mantissa a ∨ (mantissa a = mantissa b ∧
    (locusOrder (h_Locus a) < locusOrder (h_Locus b) ∨ (locusOrder (h_Locus a) = locusOrder (h_Locus b) ∧ classOrder (CauseCategory a) < classOrder (CauseCategory b)))))))).
Proof.
  intros (m & e & Ea) (m' & e' & Eb). unfold ranks_before, tier, exponent, mantissa. rewrite Ea, Eb.
  pose proof (f64_eq_finite m e m' e') as Heq. pose proof (f64_lt_finite m' e' m e) as Hlt.
  destruct (evidenceable_name (CauseCategory a)), (evidenceable_name (CauseCategory b)); cbn [Bool.eqb negb]; try (first [split; [lia|done]|split; [done|lia]]).
  all: destruct (f64_eq _ _); cbn [negb]; [destruct (proj1 Heq eq_refl) as [-> ->]|].
  all: try (destruct (locusOrder (h_Locus a) =? locusOrder (h_Locus b)) eqn:El; cbn [negb]; rewrite Z.ltb_lt; lia).
  all: rewrite Hlt; split; [lia|]; intros [?|[_ [?|[Ee [?|[Em _]]]]]]; try lia; injection Em as ->; by destruct (proj2 Heq (conj Ee eq_refl)).
Qed.
Lemma ranks_before_trans a b c : comparable a → comparable b → comparable c → ranks_before a b = true → ranks_before b c = true → ranks_before a c = true.
Proof. intros Ha Hb Hc. rewrite !ranks_before_spec by done. lia. Qed.

Definition pair_of (h : CausalHypothesis) : string * string := (h_Locus h, CauseCategory h).
(** Of the vocabularies, and comparable. *)
Definition orderly (h : CausalHypothesis) : Prop := comparable h ∧ h_Locus h ∈ Loci ∧ CauseCategory h ∈ Name <$> causeClasses.
Lemma position_inj {A} (p q : A → bool) l (x : Prop) : (∀ y z, y ∈ l → z ∈ l → p y = true → q z = true → y = z → x) → (∃ y, y ∈ l ∧ p y = true) → first_index p l = first_index q l → x.
Proof.
  assert (Hnn : ∀ (p : A → bool) l, 0 ≤ first_index p l) by (clear; intros p l; induction l as [|y l IH]; cbn; [lia|destruct (p y); lia]).
  intros Hx. induction l as [|y l IH]; [by intros (y & ?%not_elem_of_nil & _)|]. intros (z & Hz & Hp). cbn. destruct (p y) eqn:Epy, (q y) eqn:Eqy.
  - intros _. apply (Hx y y); first [done|apply elem_of_cons; by left].
  - specialize (Hnn q l). lia.
  - specialize (Hnn p l). lia.
  - intros E. apply IH; [|by apply elem_of_cons in Hz as [->|Hz]; [congruence|exists z]|lia]. intros y' z' Hy' Hz'. apply Hx; apply elem_of_cons; by right.
Qed.
Lemma locusOrder_inj a b : a ∈ Loci → locusOrder a = locusOrder b → a = b.
Proof.
  intros Ha. unfold locusOrder. apply position_inj; [intros y z _ _ ->%String.eqb_eq ->%String.eqb_eq; done|]. exists a. split; [done|apply String.eqb_refl].
Qed.
Lemma classOrder_inj a b : a ∈ Name <$> causeClasses → classOrder a = classOrder b → a = b.
Proof.
  intros (c & -> & Hc)%list_elem_of_fmap. unfold classOrder. apply position_inj; [intros y z _ _ <-%String.eqb_eq <-%String.eqb_eq ->; done|]. exists c. split; [done|apply String.eqb_refl].
Qed.
Lemma ranks_before_total a b : orderly a → orderly b → pair_of a ≠ pair_of b → ranks_before a b = false → ranks_before b a = true.
Proof.
  intros (Ca & La & Na) (Cb & Lb & Nb) Hne Hab%not_true_iff_false. rewrite ranks_before_spec in Hab by done. rewrite ranks_before_spec by done.
  assert (locusOrder (h_Locus a) ≠ locusOrder (h_Locus b) ∨ classOrder (CauseCategory a) ≠ classOrder (CauseCategory b)); [|lia].
  destruct (Z.eq_dec (locusOrder (h_Locus a)) (locusOrder (h_Locus b))) as [El|]; [right|by left]. intros Ec. apply Hne. unfold pair_of.
  by rewrite (locusOrder_inj _ _ La El), (classOrder_inj _ _ Na Ec).
Qed.

(** ** Sorting *)
Lemma insert_perm h hs : insert_hypothesis h hs ≡ₚ h :: hs.
Proof. induction hs as [|g hs IH]; [done|]. cbn. case_match; [|done]. rewrite IH. by constructor. Qed.
Lemma sort_perm hs : sortHypotheses hs ≡ₚ hs.
Proof. induction hs as [|h hs IH]; [done|]. cbn. by rewrite insert_perm, IH. Qed.
Definition in_order : list CausalHypothesis → Prop := StronglySorted (λ a b, ranks_before a b = true).
Lemma insert_sorted h hs : Forall orderly (h :: hs) → pair_of h ∉ pair_of <$> hs → in_order hs → in_order (insert_hypothesis h hs).
Proof.
  intros [Hh Hhs]%Forall_cons Hno Hs. induction Hs as [|g hs Hs IH Hg]; [by repeat constructor|]. cbn. apply Forall_cons in Hhs as [Og Ohs].
  rewrite fmap_cons, not_elem_of_cons in Hno. destruct Hno as [Hne Hno]. destruct (ranks_before g h) eqn:E.
  - constructor; [by apply IH|]. rewrite insert_perm. by constructor.
  - pose proof (ranks_before_total g h Og Hh (not_eq_sym Hne) E) as Ehg. constructor; [by constructor|]. constructor; [done|]. rewrite Forall_forall in Hg, Ohs |- *. intros x Hx.
    destruct Hh as [Ch _], Og as [Cg _], (Ohs x Hx) as [Cx _]. apply (ranks_before_trans h g x); auto.
Qed.
Lemma sort_sorted hs : Forall orderly hs → NoDup (pair_of <$> hs) → in_order (sortHypotheses hs).
Proof.
  induction hs as [|h hs IH]; [constructor|]. intros Ho [Hno Hnd]%NoDup_cons. cbn. pose proof (proj2 (proj1 (Forall_cons _ _ _) Ho)) as Hhs.
  apply insert_sorted; [by rewrite sort_perm|by rewrite sort_perm|by apply IH].
Qed.

(** ** Every hypothesis is valid *)
Definition sound (h : CausalHypothesis) : Prop := ∀ rank basis, 1 ≤ rank → String.eqb basis "" = false → Hypothesis_Validate (with_basis (with_rank h rank) basis) = None.
Lemma ranked_at n total hs : Forall sound hs →
  validate_ranks (Z.of_nat n) (imap (λ i h, with_basis (with_rank h (Z.of_nat (n + i) + 1)) (rankBasis (with_rank h (Z.of_nat (n + i) + 1)) total)) hs) = None.
Proof.
  intros Hs. revert n. induction Hs as [|h hs Hh Hs IH]; intros n; [done|]. cbn [imap validate_ranks]. rewrite Nat.add_0_r. cbn [h_Rank with_basis with_rank]. rewrite Z.eqb_refl. cbn [negb].
  rewrite (Hh (Z.of_nat n + 1)); [|lia|done]. replace (Z.of_nat n + 1) with (Z.of_nat (S n)) by lia. rewrite <- (IH (S n)). f_equal. apply imap_ext. intros i x _. cbn. by rewrite Nat.add_succ_r.
Qed.
Lemma ranked_valid hs : Forall sound hs → validate_ranks 0 (with_ranks hs) = None.
Proof. apply (ranked_at 0). Qed.
(** The number and the text of a rank are all that [ranked] adds. *)
Definition same_claim (g h : CausalHypothesis) : Prop := ∃ rank basis, h = with_basis (with_rank g rank) basis.
Lemma ranked_same hs : Forall2 same_claim hs (with_ranks hs).
Proof.
  unfold with_ranks. generalize (Z.of_nat (length hs)). intros n.
  assert (Hg : ∀ f : nat → CausalHypothesis → CausalHypothesis, (∀ i h, same_claim h (f i h)) → Forall2 same_claim hs (imap f hs)).
  { induction hs as [|h hs IH]; intros f Hf; cbn; constructor; [done|]. apply IH. intros i x. apply Hf. }
  apply Hg. intros i h. by eexists _, _.
Qed.

Section valid.
Context (r : Ranker) (session : string) (ev : option triage_Evidence) (anomalies : list Anomaly) (byLocus : gmap string triage_Finding).
Lemma hypothesis_confidence locus c f :
  (length (case_for session ev anomalies byLocus locus c f) + length (case_against session anomalies byLocus locus c f) < Z.to_nat (2 ^ 53))%nat →
  proportion (Confidence (hypothesis r session ev anomalies byLocus locus c f)).
Proof.
  intros Hlt. cbn [Confidence hypothesis]. unfold confidence. set (s := length (case_for _ _ _ _ _ _ _)) in *. set (k := length (case_against _ _ _ _ _ _)) in *.
  assert (1 ≤ s)%nat by (subst s; unfold case_for; cbn [length]; lia). destruct (Z.eqb_spec (Z.of_nat s + Z.of_nat k) 0); [lia|]. apply f64_div_proportion; lia.
Qed.
Lemma hypothesis_sound locus c f : c ∈ causeClasses → locus ∈ Loci → proportion (Confidence (hypothesis r session ev anomalies byLocus locus c f)) →
  sound (hypothesis r session ev anomalies byLocus locus c f).
Proof.
  intros Hc Hl Hp rank basis Hr Hb. destruct (proportion_range _ Hp) as [P0 P1]. set (h := hypothesis _ _ _ _ _ _ _ _) in *. unfold Hypothesis_Validate, with_basis, with_rank.
  cbn [Cause CauseCategory h_Locus Confidence h_Rank h_Basis h_RankerRef SupportingEvidence ContradictingEvidence]. rewrite P0, P1, Hb. cbn [orb]. rewrite (proj2 (Z.ltb_ge _ _)) by lia.
  change (String.eqb (h_RankerRef h) "") with false. cbv iota. assert (El : String.eqb (h_Locus h) "" = false).
  { apply String.eqb_neq. change (h_Locus h) with locus. intros ->. by apply contains_spec in Hl. }
  assert (Ecs : String.eqb (Cause h) "" = false) by (apply app_nonempty; done). assert (Ecc : contains CauseCategories (CauseCategory h) = true).
  { change (CauseCategory h) with (Name c). assert (Hall : forallb (λ c, contains CauseCategories (Name c)) causeClasses = true) by done. rewrite forallb_forall in Hall. by apply Hall, list_elem_of_In. }
  rewrite El, Ecs, Ecc. rewrite andb_false_r. change (SupportingEvidence h) with (case_for session ev anomalies byLocus locus c f).
  change (ContradictingEvidence h) with (Some (case_against session anomalies byLocus locus c f)). cbv iota.
  rewrite (proj2 (first_error_None Evidence_validate _) (case_for_ok _ _ _ _ _ _ _)), (proj2 (first_error_None Evidence_validate _) (case_against_ok _ _ _ _ _ _)). done.
Qed.
(** The only class that can stand without evidence against it. *)
Lemma hypothesis_contested locus c f : c ∈ causeClasses → against (hypothesis r session ev anomalies byLocus locus c f) = [] → Name c = CauseParseFailure.
Proof.
  intros Hc E. cbn in E. unfold case_against in E. assert (Hall : forallb (λ c, bool_decide (class_Evidenceability c ≠ Evidenced) || String.eqb (Name c) CauseParseFailure) causeClasses = true) by done.
  rewrite forallb_forall in Hall. apply list_elem_of_In, Hall, orb_true_iff in Hc as [Hc|Hc]; [|by apply String.eqb_eq]. by rewrite Hc in E.
Qed.
End valid.

(** ** What is ranked *)
Lemma by_locus_in findings l f : by_locus findings !! l = Some f → f ∈ findings.
Proof.
  unfold by_locus. revert f. induction findings as [|g findings IH] using rev_ind; [done|]. intros f. rewrite foldl_app. cbn. rewrite lookup_insert_Some, elem_of_app.
  intros [[_ <-]|[_ Hx]]; [right; by apply list_elem_of_singleton|left; by apply IH].
Qed.
Lemma ClassesFor_spec l c : c ∈ ClassesFor l ↔ c ∈ causeClasses ∧ l ∈ Loci_of c.
Proof. unfold ClassesFor. rewrite <- contains_spec, !list_elem_of_In. apply filter_In. Qed.
Lemma loci_with_spec byLocus v l : l ∈ loci_with byLocus v ↔ l ∈ Loci ∧ verdict_at byLocus l = Some v.
Proof. unfold loci_with. rewrite list_elem_of_In, filter_In, <- list_elem_of_In. by rewrite bool_decide_eq_true. Qed.
Lemma NoDup_List_filter {A} p (l : list A) : NoDup l → NoDup (List.filter p l).
Proof.
  induction 1 as [|x l Hx Hl IH]; [constructor|]. cbn. destruct (p x); [|done]. constructor; [|done]. intros Hin. apply Hx. apply list_elem_of_In, filter_In in Hin as [Hin _]. by apply list_elem_of_In.
Qed.
Lemma Loci_NoDup : NoDup Loci.
Proof. apply (bool_decide_unpack _). vm_compute. exact I. Qed.
Lemma class_names_NoDup l : NoDup (Name <$> ClassesFor l).
Proof.
  assert (Hall : NoDup (Name <$> causeClasses)) by (apply (bool_decide_unpack _); vm_compute; exact I). unfold ClassesFor. revert Hall. generalize causeClasses. intros cs.
  induction cs as [|c cs IH]; [done|]. rewrite fmap_cons. intros [Hno Hnd]%NoDup_cons. cbn. destruct (contains _ _); [|by apply IH]. rewrite fmap_cons. constructor; [|by apply IH].
  intros (d & E & Hd)%list_elem_of_fmap. apply Hno. rewrite E. apply list_elem_of_fmap. exists d. split; [done|]. apply list_elem_of_In, filter_In in Hd as [Hd _]. by apply list_elem_of_In.
Qed.

Section found.
Context (r : Ranker) (in_ : Input) (report : Report).
Hypothesis Hweight : Z.of_nat (weight in_ report) < 2 ^ 53.
Let byLocus := by_locus (Findings report).
Let present := loci_with byLocus Present.
Let found := concat (hypotheses_at r (rp_SessionId report) (in_Evidence in_) (in_Anomalies in_) byLocus <$> present).
Lemma found_spec h : h ∈ found → ∃ locus c f, locus ∈ present ∧ c ∈ causeClasses ∧ locus ∈ Loci_of c ∧ byLocus !! locus = Some f ∧
  h = hypothesis r (rp_SessionId report) (in_Evidence in_) (in_Anomalies in_) byLocus locus c f ∧ proportion (Confidence h).
Proof.
  intros (locus & Hl & Hh)%elem_of_concat_fmap. unfold hypotheses_at in Hh. destruct (byLocus !! locus) as [f|] eqn:Ef; [|by apply not_elem_of_nil in Hh].
  apply list_elem_of_fmap in Hh as (c & -> & [Hc Hlc]%ClassesFor_spec). exists locus, c, f. do 5 (split; [done|]). apply hypothesis_confidence.
  pose proof (case_length (rp_SessionId report) (in_Evidence in_) (in_Anomalies in_) byLocus locus c f Hc) as Hlen.
  pose proof (total_in (length ∘ fi_Confounders) (Findings report) f (by_locus_in _ _ _ Ef)) as Hf. unfold weight in Hweight. cbn [compose] in Hf. lia.
Qed.
Lemma found_pairs l c : (l, c) ∈ pair_of <$> found ↔ verdict_at byLocus l = Some Present ∧ ∃ cl, cl ∈ causeClasses ∧ Name cl = c ∧ l ∈ Loci_of cl.
Proof.
  rewrite list_elem_of_fmap. split.
  - intros (h & [= -> ->] & Hh). destruct (found_spec h Hh) as (locus & cl & f & [_ Hv]%loci_with_spec & Hc & Hlc & _ & -> & _). split; [done|by exists cl].
  - intros (Hv & cl & Hc & <- & Hlc). destruct (byLocus !! l) as [f|] eqn:Ef; [|unfold verdict_at in Hv; by rewrite Ef in Hv].
    eexists (hypothesis r (rp_SessionId report) (in_Evidence in_) (in_Anomalies in_) byLocus l cl f). split; [done|]. apply elem_of_concat_fmap. exists l. split.
    2: { unfold hypotheses_at. rewrite Ef. apply list_elem_of_fmap. exists cl. split; [done|]. by apply ClassesFor_spec. }
    1: { apply loci_with_spec. split; [|done].
      assert (Hall : forallb (λ c, forallb (contains Loci) (Loci_of c)) causeClasses = true) by done. rewrite forallb_forall in Hall. apply list_elem_of_In, Hall in Hc.
      rewrite forallb_forall in Hc. by apply contains_spec, Hc, list_elem_of_In. }
Qed.
Lemma found_NoDup : NoDup (pair_of <$> found).
Proof.
  assert (Hp : NoDup present) by apply NoDup_List_filter, Loci_NoDup. unfold found. clear -Hp. induction present as [|l ls IH]; [constructor|]. apply NoDup_cons in Hp as [Hno Hp].
  cbn [fmap list_fmap concat]. rewrite fmap_app, NoDup_app. split_and!; [| |by apply IH].
  - unfold hypotheses_at. destruct (byLocus !! l) as [f|]; [|constructor]. rewrite <- list_fmap_compose. pose proof (class_names_NoDup l) as Hc.
    apply (NoDup_fmap_1 snd). rewrite <- list_fmap_compose. erewrite list_fmap_ext; [exact Hc|done].
  - intros p (h & -> & Hh)%list_elem_of_fmap (h' & E & Hh')%list_elem_of_fmap. assert (El : h_Locus h = l).
    { unfold hypotheses_at in Hh. destruct (byLocus !! l); [|by apply not_elem_of_nil in Hh]. by apply list_elem_of_fmap in Hh as (c & -> & _). }
    apply elem_of_concat_fmap in Hh' as (l' & Hl' & Hh'). unfold hypotheses_at in Hh'. destruct (byLocus !! l'); [|by apply not_elem_of_nil in Hh'].
    apply list_elem_of_fmap in Hh' as (c & -> & _). injection E as E1 E2. apply Hno. rewrite <- El, E1. exact Hl'.
Qed.
Lemma found_orderly : Forall orderly found.
Proof.
  apply Forall_forall. intros h Hh. destruct (found_spec h Hh) as (l & c & f & [Hl _]%loci_with_spec & Hc & _ & _ & -> & Hp). split; [|split; [done|apply list_elem_of_fmap; by exists c]].
  unfold comparable. destruct Hp; eauto.
Qed.
Lemma found_sound : Forall sound found.
Proof.
  apply Forall_forall. intros h Hh. destruct (found_spec h Hh) as (l & c & f & [Hl _]%loci_with_spec & Hc & _ & _ & -> & Hp). by apply hypothesis_sound.
Qed.
End found.

Lemma rankingBasis_nonempty r out present unplacedSignals n : String.eqb (rankingBasis r out present unplacedSignals n) "" = false.
Proof. reflexivity. Qed.
Lemma claims_pairs gs hs : Forall2 same_claim gs hs → pair_of <$> hs = pair_of <$> gs.
Proof. induction 1 as [|g h gs hs (rank & basis & ->) _ IH]; [done|]. rewrite !fmap_cons, IH. done. Qed.
Lemma claims_in_order gs hs : Forall2 same_claim gs hs → in_order gs → in_order hs.
Proof.
  induction 1 as [|g h gs hs (rank & basis & ->) Hall IH]; [done|]. intros Hs. inversion Hs as [|? ? Hgs Hg]; subst. constructor; [by apply IH|].
  clear -Hall Hg. induction Hall as [|x y gs hs (rk & bs & ->) _ IHall]; [constructor|]. apply Forall_cons in Hg as [Hx Hg]. constructor; [exact Hx|by apply IHall].
Qed.

Lemma rank_facts r ev anomalies report : Z.of_nat (weight (mkInput (Some report) ev anomalies) report) < 2 ^ 53 →
  let out := rca_Rank r (Some (mkInput (Some report) ev anomalies)) in
  let verdict l := verdict_at (by_locus (Findings report)) l in
  Ranking_Validate out = None ∧ NoDup (pair_of <$> Hypotheses out) ∧
  (∀ l c, (l, c) ∈ pair_of <$> Hypotheses out ↔ verdict l = Some Present ∧ ∃ cl, cl ∈ causeClasses ∧ Name cl = c ∧ l ∈ Loci_of cl) ∧
  StronglySorted (λ a b, ranks_before a b = true) (Hypotheses out) ∧
  (∀ h, h ∈ Hypotheses out → against h = [] → CauseCategory h = CauseParseFailure) ∧
  (∀ l, l ∈ UnmappedLoci out ↔ verdict l = Some Present ∧ (l = LocusStepNeverStarted ∨ l = LocusPerRecordFailuresUnreportable)).
Proof.
  intros Hw. cbv zeta. set (in_ := mkInput (Some report) ev anomalies) in *. unfold rca_Rank. change (in_Report in_) with (Some report). cbv beta iota zeta.
  set (found := concat (hypotheses_at r (rp_SessionId report) (in_Evidence in_) (in_Anomalies in_) (by_locus (Findings report)) <$> loci_with (by_locus (Findings report)) Present)).
  pose proof (ranked_same (sortHypotheses found)) as Hsame. pose proof (claims_pairs _ _ Hsame) as Hpairs. cbn [Hypotheses UnmappedLoci].
  assert (Hperm : pair_of <$> with_ranks (sortHypotheses found) ≡ₚ pair_of <$> found) by (by rewrite Hpairs, sort_perm). split_and!.
  - unfold Ranking_Validate. cbn [Hypotheses rk_Basis]. rewrite ranked_valid; [by rewrite rankingBasis_nonempty|]. rewrite sort_perm. apply (found_sound r in_ report Hw).
  - rewrite Hperm. apply (found_NoDup r in_ report).
  - intros l c. rewrite Hperm. apply (found_pairs r in_ report Hw).
  - apply (claims_in_order _ _ Hsame), sort_sorted; [apply (found_orderly r in_ report Hw)|apply (found_NoDup r in_ report)].
  - intros h Hh E. apply list_elem_of_lookup_1 in Hh as [i Hi]. destruct (Forall2_lookup_r _ _ _ _ _ Hsame Hi) as (g & Hg & rank & basis & ->).
    apply list_elem_of_lookup_2 in Hg. rewrite sort_perm in Hg. destruct (found_spec r in_ report Hw g Hg) as (l & c & f & _ & Hc & _ & _ & -> & _). exact (hypothesis_contested r (rp_SessionId report) (in_Evidence in_) (in_Anomalies in_) (by_locus (Findings report)) l c f Hc E).
  - intros l. rewrite list_elem_of_In, filter_In, <- list_elem_of_In, loci_with_spec. split.
    + intros [[Hl Hv] E]. split; [done|]. assert (Hall : forallb (λ l, negb (length (ClassesFor l) =? 0)%nat || contains [LocusStepNeverStarted; LocusPerRecordFailuresUnreportable] l) Loci = true) by done.
      rewrite forallb_forall in Hall. apply list_elem_of_In, Hall in Hl. rewrite E in Hl. cbn [negb orb] in Hl. apply contains_spec in Hl. set_solver.
    + intros [Hv Hl]. split; [split; [|done]|]; destruct Hl as [->| ->]; try done; by apply contains_spec.
Qed.

(** C15. A ranking of a report is valid: its ranks are dense, every confidence lies between 0
    and 1, every item of evidence is filed under a known source. It holds one hypothesis for
    each locus that is present and each class of the table the locus can carry, and no other;
    the hypotheses are in strict order, those of classes the record can evidence before the
    rest; every one but a parse failure has evidence against it, and the present loci that no
    class is carried by are reported. *)
Theorem rank_of_report r ev anomalies report : Z.of_nat (weight (mkInput (Some report) ev anomalies) report) < 2 ^ 53 →
  let out := rca_Rank r (Some (mkInput (Some report) ev anomalies)) in
  let verdict l := verdict_at (by_locus (Findings report)) l in
  Ranking_Validate out = None ∧ NoDup (pair_of <$> Hypotheses out) ∧
  (∀ l c, (l, c) ∈ pair_of <$> Hypotheses out ↔ verdict l = Some Present ∧ ∃ cl, cl ∈ causeClasses ∧ Name cl = c ∧ l ∈ Loci_of cl) ∧
  StronglySorted (λ a b, ranks_before a b = true) (Hypotheses out) ∧
  (∀ h, h ∈ Hypotheses out → against h = [] → CauseCategory h = CauseParseFailure) ∧
  (∀ l, l ∈ UnmappedLoci out ↔ verdict l = Some Present ∧ (l = LocusStepNeverStarted ∨ l = LocusPerRecordFailuresUnreportable)).
Proof. apply rank_facts. Qed.
Definition demo_evidence : triage_Evidence :=
  match triage_Gather demo_tables 1000 "r4" 390 with Ret ev => ev | _ => mkEvidence "" None None None None None [] None None end.
Definition demo_report : Report := Classify triage_Default demo_evidence.
Definition demo_ranking : Ranking := rca_Rank rca_Default (Some (mkInput (Some demo_report) (Some demo_evidence) [])).
Lemma rank_of_report_witness : Ranking_Validate demo_ranking = None ∧ CauseCategory <$> take 2 (Hypotheses demo_ranking) = [CauseBenignVariation; CauseTransformationDefect] ∧
  (∀ l, l ∈ UnmappedLoci demo_ranking → l = LocusStepNeverStarted ∨ l = LocusPerRecordFailuresUnreportable).
Proof.
  destruct (rank_of_report rca_Default (Some demo_evidence) [] demo_report) as (Hv & _ & _ & _ & _ & Hu); [by vm_compute|]. split; [exact Hv|]. split; [vm_compute; reflexivity|].
  intros l Hl. by apply Hu in Hl as [_ Hl].
Defined.

(** ** What a model answers *)
Section consult.
Context (r : Ranker) (model session : string) (findings : list triage_Finding).
(** Kept so far: valid, and ranked as they stand. *)
Definition kept_ok (hs : list CausalHypothesis) : Prop := ∀ i h, hs !! i = Some h → h_Rank h = Z.of_nat i + 1 ∧ Hypothesis_Validate h = None.
Definition counted (rep : ConsultReport) (answers kept : nat) : Prop :=
  n_Hypotheses rep = Z.of_nat answers ∧ LociNotPresent rep = LociAbsent rep + LociNotEvaluable rep ∧ 0 ≤ WithContradicting rep ≤ n_Hypotheses rep ∧
  WithContradicting rep ≤ ContradictingItems rep ∧ (kept ≤ answers)%nat ∧ Z.of_nat kept ≤ SupportingItems rep.
Lemma consult_step_ok st a n : kept_ok st.1 → counted st.2 n (length st.1) →
  let st' := consult_step r model session findings st a in kept_ok st'.1 ∧ counted st'.2 (S n) (length st'.1).
Proof.
  intros Hk (C1 & C2 & C3 & C4 & C5 & C6). cbv zeta. unfold consult_step. set (h := of_model r model session (Z.of_nat (length st.1)) a). cbn [fst snd].
  assert (Hc : ∀ m, (m ≤ S n)%nat → Z.of_nat m ≤ SupportingItems st.2 + Z.of_nat (length (SupportingEvidence h)) → counted (add_answer session findings st.2 h) (S n) m).
  { intros m Hm Hs. unfold counted, add_answer. cbn [n_Hypotheses LociNotPresent LociAbsent LociNotEvaluable WithContradicting ContradictingItems SupportingItems].
    assert (Hag : argues_against h = true → (1 ≤ length (against h))%nat) by (unfold argues_against; destruct (length (against h)); [done|lia]).
    unfold not_evaluable_at, absent_at. destruct (argues_against h), (not_present session findings h), (bool_decide (verdict_at _ _ = _)); cbn [andb negb]; split_and!; try lia; specialize (Hag eq_refl); lia. }
  destruct (Hypothesis_Validate h) as [e|] eqn:Ev; [split; [done|apply Hc; lia]|]. split.
  - intros i g Hi. apply lookup_snoc_Some in Hi as [[Hi Hg]|[-> <-]]; [by apply Hk|]. split; [done|exact Ev].
  - rewrite length_app. cbn [length]. apply Hc; [lia|]. assert (length (SupportingEvidence h) ≠ 0)%nat; [|lia].
    unfold Hypothesis_Validate in Ev. repeat case_match; try done. by apply Nat.eqb_neq.
Qed.
Lemma consult_steps_ok hs : ∀ st n, kept_ok st.1 → counted st.2 n (length st.1) →
  let st' := foldl (consult_step r model session findings) st hs in kept_ok st'.1 ∧ counted st'.2 (n + length hs) (length st'.1).
Proof.
  induction hs as [|a hs IH]; intros st n Hk Hc; [rewrite Nat.add_0_r; by split|]. cbn [foldl length]. destruct (consult_step_ok st a n Hk Hc) as [Hk' Hc'].
  replace (n + S (length hs))%nat with (S n + length hs)%nat by lia. by apply IH.
Qed.
Lemma kept_rank hs : kept_ok hs → imap (λ i h, with_rank h (Z.of_nat i + 1)) hs = hs.
Proof.
  intros Hk. apply list_eq. intros i. rewrite list_lookup_imap. destruct (hs !! i) as [h|] eqn:E; [|done]. cbn. destruct (Hk i h E) as [<- _]. by destruct h.
Qed.
Lemma kept_valid hs n : (∀ i h, hs !! i = Some h → h_Rank h = Z.of_nat (n + i) + 1 ∧ Hypothesis_Validate h = None) → validate_ranks (Z.of_nat n) hs = None.
Proof.
  revert n. induction hs as [|h hs IH]; intros n Hk; [done|]. cbn [validate_ranks]. destruct (Hk O h eq_refl) as [Hr Hv]. rewrite Nat.add_0_r in Hr. rewrite Hr, Z.eqb_refl. cbn [negb]. rewrite Hv.
  replace (Z.of_nat n + 1) with (Z.of_nat (S n)) by lia. apply IH. intros i g Hi. destruct (Hk (S i) g Hi) as [Hg Hgv]. split; [rewrite Hg; lia|done].
Qed.
End consult.

(** Consulting a model never fails on the report of a triage: whatever the model answers, the
    ranking made of it is valid, the ranks that were stated are the ranks it has, each answer
    is counted once, whether it is kept or not, and the loci that are not present are either
    absent or could not be evaluated. *)
Theorem consult_admissible r model chat in_ report : in_Report in_ = Some report → Findings report ≠ [] → ∃ out rep, Consult r model chat (Some in_) = Ret (out, rep) ∧
  FloorHypotheses rep = Z.of_nat (length (Hypotheses (rca_Rank r (Some in_)))) ∧ LociNotPresent rep = LociAbsent rep + LociNotEvaluable rep ∧
  match chat in_ with
  | Answered _ _ answers => cr_Answered rep = true ∧ n_Hypotheses rep = Z.of_nat (length answers) ∧ 0 ≤ WithContradicting rep ≤ n_Hypotheses rep ∧
      ∃ rk, out = Some rk ∧ Ranking_Validate rk = None ∧ (length (Hypotheses rk) ≤ length answers)%nat
  | _ => cr_Answered rep = false ∧ n_Hypotheses rep = 0 ∧ out = None
  end.
Proof.
  intros Er Hf. unfold Consult. cbn [mbind option_bind]. rewrite Er. cbn [mbind option_bind]. assert (Ei : instruction_ok report = Ret tt) by (unfold instruction_ok; by destruct (Findings report)).
  rewrite Ei. cbn [res_bind]. destruct (chat in_) as [e|p e err|p e hs]; [eexists _, _; by split_and!..|].
  destruct (consult_steps_ok r model (rp_SessionId report) (Findings report) hs ([], floor_report r model in_ report true "" p e) 0) as [Hk Hc]; [by intros i h|by split_and!|].
  assert (Hfloor : ∀ hs st, let st' := foldl (consult_step r model (rp_SessionId report) (Findings report)) st hs in
    FloorHypotheses st'.2 = FloorHypotheses st.2 ∧ cr_Answered st'.2 = cr_Answered st.2).
  { clear. intros hs. induction hs as [|a hs IH]; intros st; [done|]. cbn [foldl]. destruct (IH (consult_step r model (rp_SessionId report) (Findings report) st a)) as [-> ->]. done. }
  specialize (Hfloor hs ([], floor_report r model in_ report true "" p e)). destruct (foldl _ _ hs) as [kept rep]. cbn [fst snd] in *. destruct Hfloor as [Ef Ea], Hc as (C1 & C2 & C3 & _ & C5 & _).
  eexists _, _. split; [done|]. rewrite Ef, Ea, (kept_rank kept Hk). split; [done|]. split; [done|]. split; [done|]. split; [done|]. split; [done|]. eexists. split; [done|]. split; [|cbn; lia].
  unfold Ranking_Validate. cbn [Hypotheses rk_Basis]. by rewrite (kept_valid kept 0 Hk : validate_ranks 0 kept = None).
Qed.
