(* ===== verification/AuditLifecycle.v ===== *)
(** * Lifecycles and autonomy tiers (src/jets/agentic/audit)

    The two state machines of Appendix A.5, the approval of a change proposal
    (lifecycle.go) and the handling of an incident
    (incident_transition_lifecycle.go), the ordered scale of autonomy tiers
    (tier.go), the comparison at the loop's gate (agent/tier_gate.go) and the
    ceiling of the shadow writer (shadow/shadow.go).

    A Go map literal is its list of pairs and a lookup that answers the zero value
    for an absent key; the states are strings, as they are in the code and in the
    database. *)
From stdpp Require Import base list strings gmap sorting relations.
From Stdlib Require Import ZArith Lia.
From S2P Require Import Prelude GoFloat GoText.
Local Open Scope string_scope.

(** ** Errors

    The package tells its callers apart by typed errors: [Err] is an
    [errors.New] or [fmt.Errorf] whose format is the text, [Wrap] a [fmt.Errorf]
    with [%w], [DbErr] an error of the driver, the others are the error types of
    the package. *)
Inductive error :=
| Err (format : string)
| Wrap (format : string) (err : error)
| DbErr (detail : string)
| ErrUnknownTier (Value : string)
| ErrNoRun (RunId : string)
| ErrNoProposal (ProposalId : string)
| ErrNoIncident (IncidentId : string)
| ErrNoTranscript (RunId : string)
| ErrStateConflict (SubjectRef Expected : string)
| ErrIncidentStateConflict (IncidentRef Expected Found : string)
| ErrTierStateConflict (RunId Expected Found : string)
| ErrTierRaiseNotHuman (RunId From To Actor ActorKind : string)
| ErrTierTooLow (Action Required Current : string)
| ErrWouldAct (IncidentRef ToStatus : string).

(** [errors.As]: the first error of the chain that is of the wanted type. *)
Fixpoint errors_As (wanted : error → bool) (e : error) : bool :=
  wanted e || match e with Wrap _ e' => errors_As wanted e' | _ => false end.

Definition result (A : Type) : Type := (error + A)%type.
Definition result_bind {A B} (m : result A) (k : A → result B) : result B :=
  match m with inl e => inl e | inr a => k a end.
Notation "'let?' x := m 'in' k" := (result_bind m (λ x, k))
  (at level 10, x binder, m at level 100, k at level 200) : go_scope.
Definition wrapf {A} (format : string) (m : result A) : result A :=
  match m with inl e => inl (Wrap format e) | inr a => inr a end.

(** [for _, s := range vocab { if s == v { return true } }; return false] *)
Definition inVocabulary (vocab : list string) (v : string) : bool :=
  existsb (λ s, String.eqb s v) vocab.

#[global] Arguments inVocabulary : simpl never.

Lemma inVocabulary_iff vocab v : inVocabulary vocab v = true ↔ v ∈ vocab.
Proof.
  unfold inVocabulary. rewrite existsb_exists. split.
  - intros (s & Hs & Heq%String.eqb_eq). subst. by apply list_elem_of_In.
  - intros Hv. exists v. split; [by apply list_elem_of_In|apply String.eqb_refl].
Qed.

(** A map literal, and [m[k]] with its comma-ok form. *)
Fixpoint map_get {A} (m : list (string * A)) (k : string) : option A :=
  match m with
  | [] => None
  | (k', v) :: m => if String.eqb k' k then Some v else map_get m k
  end.

(** [sort.Strings], by bytes. *)
Definition str_le (a b : string) : Prop := String.leb a b = true.
#[global] Instance str_le_dec a b : Decision (str_le a b).
Proof. unfold str_le. apply _. Defined.
Definition sort_Strings (l : list string) : list string := merge_sort str_le l.

(** A history: the moves of one subject from its first state to its last, each an
    edge of the machine from the state the one before it reached. *)
Inductive path (edge : string → string → Prop) (s : string) : list (string * string) → string → Prop :=
| path_start : path edge s [] s
| path_move l m e : path edge s l m → edge m e → path edge s (l ++ [(m, e)]) e.
#[export] Hint Constructors path : go.

(** ** Change proposals: lifecycle.go *)
Module Approvals.
Definition StateDraft := "draft".
Definition StateValidated := "validated".
Definition StateAgentReviewed := "agent_reviewed".
Definition StateAwaitingHumanApproval := "awaiting_human_approval".
Definition StateApproved := "approved".
Definition StateApprovedWithModification := "approved_with_modification".
Definition StateRejected := "rejected".
Definition StateSuperseded := "superseded".
Definition StateDeployed := "deployed".

Definition ApprovalStates : list string :=
  [StateDraft; StateValidated; StateAgentReviewed; StateAwaitingHumanApproval;
   StateApproved; StateApprovedWithModification; StateRejected; StateSuperseded; StateDeployed].

Definition terminal : list (string * bool) := [(StateRejected, true); (StateSuperseded, true)].
Definition Terminal (state : string) : bool := default false (map_get terminal state).

Definition forward : list (string * list string) :=
  [(StateDraft, [StateValidated]);
   (StateValidated, [StateAgentReviewed]);
   (StateAgentReviewed, [StateAwaitingHumanApproval]);
   (StateAwaitingHumanApproval, [StateApproved; StateApprovedWithModification; StateRejected]);
   (StateApproved, [StateDeployed]);
   (StateApprovedWithModification, [StateDeployed]);
   (StateDeployed, [])].

Definition KnownState (state : string) : bool := inVocabulary ApprovalStates state.

Definition Transitions (from : string) : list string :=
  if negb (KnownState from) || Terminal from then []
  else sort_Strings (default [] (map_get forward from) ++ [StateSuperseded]).

Definition TransitionAllowed (from to : string) : bool := inVocabulary (Transitions from) to.
End Approvals.

(** ** Incidents: incident.go, incident_transition_lifecycle.go *)
Module Incidents.
Definition IncidentDetected := "detected".
Definition IncidentTriaged := "triaged".
Definition IncidentDiagnosed := "diagnosed".
Definition IncidentRemediationProposed := "remediation_proposed".
Definition IncidentAwaitingApproval := "awaiting_approval".
Definition IncidentRemediating := "remediating".
Definition IncidentResolved := "resolved".
Definition IncidentVerified := "verified".
Definition IncidentClosed := "closed".
Definition IncidentReclassified := "reclassified".
Definition IncidentSuppressedAsBenign := "suppressed_as_benign".

Definition IncidentStatuses : list string :=
  ["detected"; "triaged"; "diagnosed"; "remediation_proposed"; "awaiting_approval";
   "remediating"; "resolved"; "closed"; "verified"; "reclassified"; "suppressed_as_benign"].
Definition KnownIncidentStatus (v : string) : bool := inVocabulary IncidentStatuses v.

Definition IncidentClassifications : list string :=
  ["source_delivery_failure"; "source_content_change"; "transport_failure"; "parse_failure";
   "validation_breach"; "transformation_defect"; "infrastructure_failure"; "dependency_failure";
   "capacity_or_cost_deviation"; "benign_variation"].
Definition KnownIncidentClassification (v : string) : bool := inVocabulary IncidentClassifications v.

Definition incidentTerminal : list (string * bool) :=
  [(IncidentClosed, true); (IncidentSuppressedAsBenign, true)].
Definition IncidentTerminal (status : string) : bool := default false (map_get incidentTerminal status).

Definition incidentForward : list (string * list string) :=
  [(IncidentDetected, [IncidentTriaged]);
   (IncidentTriaged, [IncidentDiagnosed; IncidentReclassified; IncidentSuppressedAsBenign]);
   (IncidentDiagnosed, [IncidentRemediationProposed]);
   (IncidentRemediationProposed, [IncidentAwaitingApproval; IncidentTriaged]);
   (IncidentAwaitingApproval, [IncidentRemediating]);
   (IncidentRemediating, [IncidentResolved]);
   (IncidentReclassified, [IncidentTriaged]);
   (IncidentResolved, [IncidentVerified]);
   (IncidentVerified, [IncidentClosed])].

Definition IncidentTransitions (from : string) : list string :=
  if negb (KnownIncidentStatus from) || IncidentTerminal from then []
  else sort_Strings (default [] (map_get incidentForward from)).

Definition IncidentTransitionAllowed (from to : string) : bool := inVocabulary (IncidentTransitions from) to.

(** shadow.go: the statuses the unattended writer may write, and those beyond its
    ceiling. *)
Definition ShadowStatuses : list string := [IncidentDetected; IncidentTriaged; IncidentDiagnosed].
Definition ActingStatuses : list string :=
  [IncidentRemediationProposed; IncidentAwaitingApproval; IncidentRemediating; IncidentResolved;
   IncidentVerified; IncidentClosed].
Definition ActingFrontier := IncidentRemediationProposed.
Definition IsActingStatus (s : string) : bool := inVocabulary ActingStatuses s.
Definition IsShadowStatus (s : string) : bool := inVocabulary ShadowStatuses s.
End Incidents.

(** ** Autonomy tiers: tier.go, agent/tier_gate.go *)
Module Tiers.
Definition TierT0 := "T0".
Definition TierT1 := "T1".
Definition TierT2 := "T2".
Definition TierT3 := "T3".
Definition TierT4 := "T4".
Definition Tiers : list string := [TierT0; TierT1; TierT2; TierT3; TierT4].

Fixpoint rank_from (i : Z) (l : list string) (t : string) : option Z :=
  match l with
  | [] => None
  | m :: l => if String.eqb m t then Some i else rank_from (i + 1)%Z l t
  end.
Definition Rank (t : string) : option Z := rank_from 0 Tiers t.

Definition ParseTier (s : string) : result string :=
  let t := TrimSpace s in
  match Rank t with Some _ => inr t | None => inl (ErrUnknownTier s) end.

Definition Reaches (current required : string) : result bool :=
  match Rank current with
  | None => inl (Wrap "the current tier is unusable: %w" (ErrUnknownTier current))
  | Some c =>
      match Rank required with
      | None => inl (Wrap "the required tier is unusable: %w" (ErrUnknownTier required))
      | Some r => inr (r <=? c)%Z
      end
  end.

(** tier_gate.go: the comparison both gates share. *)
Definition compareTiers (action current required : string) : result unit :=
  let? req := wrapf "agent: %q declares an autonomy tier this build cannot read, refusing to act: %w"
                (ParseTier required) in
  let? cur := wrapf "agent: this run's autonomy tier cannot be read, refusing to act: %w" (ParseTier current) in
  let? ok := wrapf "agent: the autonomy tiers of %q cannot be compared, refusing to act: %w" (Reaches cur req) in
  if ok : bool then inr tt else inl (ErrTierTooLow action req cur).
End Tiers.

(** ** Edges

    The machines as A.5 draws them, one pair per arrow. *)
Module Edges.
Import Approvals Incidents Tiers.

Definition incident_edges : list (string * string) :=
  [("detected", "triaged"); ("triaged", "diagnosed"); ("triaged", "reclassified");
   ("triaged", "suppressed_as_benign"); ("diagnosed", "remediation_proposed");
   ("remediation_proposed", "awaiting_approval"); ("remediation_proposed", "triaged");
   ("awaiting_approval", "remediating"); ("remediating", "resolved"); ("reclassified", "triaged");
   ("resolved", "verified"); ("verified", "closed")].

Definition approval_edges : list (string * string) :=
  [("draft", "validated"); ("validated", "agent_reviewed");
   ("agent_reviewed", "awaiting_human_approval"); ("awaiting_human_approval", "approved");
   ("awaiting_human_approval", "approved_with_modification"); ("awaiting_human_approval", "rejected");
   ("approved", "deployed"); ("approved_with_modification", "deployed");
   ("draft", "superseded"); ("validated", "superseded"); ("agent_reviewed", "superseded");
   ("awaiting_human_approval", "superseded"); ("approved", "superseded");
   ("approved_with_modification", "superseded"); ("deployed", "superseded")].

(** A table of successors over a vocabulary has exactly these edges. *)
Definition table_edges (vocab : list string) (next : string → list string) : list (string * string) :=
  vocab ≫= λ from, (λ to, (from, to)) <$> next from.

Lemma table_edges_iff vocab next :
  (∀ from, inVocabulary vocab from = false → next from = []) →
  ∀ from to, inVocabulary (next from) to = true ↔ (from, to) ∈ table_edges vocab next.
Proof.
  intros Hout from to. rewrite inVocabulary_iff. unfold table_edges. rewrite list_elem_of_bind. split.
  - intros Hto. exists from. split; [by apply list_elem_of_fmap_2|].
    apply inVocabulary_iff. destruct (inVocabulary vocab from) eqn:E; [done|].
    rewrite (Hout _ E) in Hto. by apply elem_of_nil in Hto.
  - intros (f & (t & [= -> ->] & Ht)%list_elem_of_fmap & _). done.
Qed.

Lemma IncidentTransitionAllowed_iff from to :
  IncidentTransitionAllowed from to = true ↔ (from, to) ∈ incident_edges.
Proof.
  unfold IncidentTransitionAllowed. rewrite (table_edges_iff IncidentStatuses).
  - assert (table_edges IncidentStatuses IncidentTransitions ≡ₚ incident_edges) as ->; [|done].
    apply (bool_decide_unpack _). vm_compute. exact I.
  - intros f Hf. unfold IncidentTransitions, KnownIncidentStatus. by rewrite Hf.
Qed.

Lemma TransitionAllowed_iff from to : TransitionAllowed from to = true ↔ (from, to) ∈ approval_edges.
Proof.
  unfold TransitionAllowed. rewrite (table_edges_iff ApprovalStates).
  - assert (table_edges ApprovalStates Transitions ≡ₚ approval_edges) as ->; [|done].
    apply (bool_decide_unpack _). vm_compute. exact I.
  - intros f Hf. unfold Transitions, KnownState. by rewrite Hf.
Qed.

(** A property checked on every edge holds of every allowed move. *)
Lemma incident_move_check (p : string → string → bool) from to :
  forallb (λ e, p e.1 e.2) incident_edges = true →
  IncidentTransitionAllowed from to = true → p from to = true.
Proof.
  intros Hp Hto%IncidentTransitionAllowed_iff. rewrite forallb_forall in Hp.
  apply (Hp (from, to)). by apply list_elem_of_In.
Qed.
Lemma approval_move_check (p : string → string → bool) from to :
  forallb (λ e, p e.1 e.2) approval_edges = true →
  TransitionAllowed from to = true → p from to = true.
Proof.
  intros Hp Hto%TransitionAllowed_iff. rewrite forallb_forall in Hp.
  apply (Hp (from, to)). by apply list_elem_of_In.
Qed.
End Edges.

(** ** Histories *)
Module Histories.
Import Approvals Incidents Tiers Edges.

Section paths.
Context {edge : string → string → Prop}.

Lemma path_cons s m l e : edge s m → path edge m l e → path edge s ((s, m) :: l) e.
Proof.
  intros Hs Hp. induction Hp; [apply (path_move _ _ []); [constructor|done]|].
  by apply (path_move _ _ (_ :: _)).
Qed.

(** Something that no edge can bring about except by an edge that satisfies [p]
    was brought about by such an edge of the history. *)
Lemma path_crossed (inside : string → Prop) (p : string * string → Prop) s l e :
  (∀ m m', edge m m' → inside m' → inside m ∨ p (m, m')) →
  path edge s l e → inside e → inside s ∨ Exists p l.
Proof.
  intros Hcross Hp. induction Hp as [|l m e Hp IH Hedge]; [by left|]. intros He.
  destruct (Hcross _ _ Hedge He) as [Hm|Hm].
  - destruct (IH Hm); [by left|right]. apply Exists_app. by left.
  - right. apply Exists_app. right. by constructor.
Qed.

(** The walk through a list of states, as a history. *)
Fixpoint walk (s : string) (l : list string) : list (string * string) :=
  match l with [] => [] | m :: l => (s, m) :: walk m l end.
Fixpoint walk_end (s : string) (l : list string) : string :=
  match l with [] => s | m :: l => walk_end m l end.
Lemma walk_path s l : Forall (λ e, edge e.1 e.2) (walk s l) → path edge s (walk s l) (walk_end s l).
Proof.
  revert s. induction l as [|m l IH]; intros s; [constructor|]. simpl.
  intros [Hs Hl]%Forall_cons. apply path_cons; [done|by apply IH].
Qed.
End paths.

Definition incident_path := path (λ from to, IncidentTransitionAllowed from to = true).
Definition approval_path := path (λ from to, TransitionAllowed from to = true).

Lemma incident_walk l :
  forallb (λ e, IncidentTransitionAllowed e.1 e.2) (walk IncidentDetected l) = true →
  incident_path IncidentDetected (walk IncidentDetected l) (walk_end IncidentDetected l).
Proof. rewrite forallb_forall. intros H. apply walk_path, Forall_forall. intros e He. by apply H, list_elem_of_In. Qed.

(** The long way from [detected] to [closed]. *)
Definition acting_route : list string :=
  ["triaged"; "diagnosed"; "remediation_proposed"; "awaiting_approval"; "remediating"; "resolved"; "verified"; "closed"].

Lemma incident_path_known l s : incident_path IncidentDetected l s → KnownIncidentStatus s = true.
Proof.
  destruct 1 as [|l m e _ Hedge]; [done|].
  apply (incident_move_check (λ _ to, KnownIncidentStatus to)) in Hedge; [done|by vm_compute].
Qed.

(** Every case of a status known to be in a list of literals. *)
Ltac each_of H :=
  apply inVocabulary_iff in H; cbv [ActingStatuses IncidentStatuses ApprovalStates Tiers.Tiers] in H;
  rewrite !elem_of_cons, elem_of_nil in H; repeat (destruct H as [->|H]); [..|done].

Lemma acting_crosses_frontier l s :
  incident_path IncidentDetected l s → IsActingStatus s = true → ActingFrontier ∈ l.*2.
Proof.
  intros Hl Hs.
  destruct (@path_crossed (λ from to, IncidentTransitionAllowed from to = true) (λ s, IsActingStatus s = true)
    (λ e, e.2 = ActingFrontier) IncidentDetected l s) as [Hc|Hc]; [|done|done|done|].
  - intros m m' Hedge Hm'. destruct (IsActingStatus m) eqn:Hm; [by left|right].
    apply (incident_move_check (λ m m', negb (IsActingStatus m') || IsActingStatus m || String.eqb m' ActingFrontier))
      in Hedge; [|by vm_compute].
    rewrite Hm, Hm' in Hedge. by apply String.eqb_eq.
  - apply Exists_exists in Hc as ([m m'] & Hin & Heq). simpl in Heq. subst.
    apply list_elem_of_fmap. by exists (m, ActingFrontier).
Qed.

Lemma acting_reached s : IsActingStatus s = true → ∃ l, incident_path IncidentDetected l s.
Proof.
  intros Hs. assert (∃ n, s = walk_end IncidentDetected (take n acting_route) ∧ (n ≤ 8)%nat) as (n & -> & Hn).
  { each_of Hs; [exists 3%nat|exists 4%nat|exists 5%nat|exists 6%nat|exists 7%nat|exists 8%nat]; (split; [done|lia]). }
  eexists. apply incident_walk. clear Hs. do 9 (destruct n; [by vm_compute|]). lia.
Qed.

Lemma not_acting_avoids_frontier s : KnownIncidentStatus s = true → IsActingStatus s = false →
  ∃ l, incident_path IncidentDetected l s ∧ ActingFrontier ∉ l.*2.
Proof.
  intros Hk Hs.
  assert (∃ r, s = walk_end IncidentDetected r ∧
               forallb (λ e, IncidentTransitionAllowed e.1 e.2) (walk IncidentDetected r) = true ∧
               bool_decide (ActingFrontier ∈ (walk IncidentDetected r).*2) = false)
    as (r & -> & Hw & Hno%bool_decide_eq_false).
  { each_of Hk; try (by vm_compute in Hs).
    - by exists []. - by exists ["triaged"]. - by exists ["triaged"; "diagnosed"].
    - by exists ["triaged"; "reclassified"]. - by exists ["triaged"; "suppressed_as_benign"]. }
  eexists. split; [by apply incident_walk|done].
Qed.

(** The ceiling of the unattended writer is where A.5 puts it: the statuses
    [ActingStatuses] lists are exactly those an incident reaches, and reaches only
    by a move into [remediation_proposed]. *)
Theorem acting_statuses_behind_frontier s :
  IsActingStatus s = true ↔
  (∃ l, incident_path IncidentDetected l s) ∧
  (∀ l, incident_path IncidentDetected l s → ActingFrontier ∈ l.*2).
Proof.
  split.
  - intros Hs. split; [by apply acting_reached|]. intros l Hl. by eapply acting_crosses_frontier.
  - intros [[l0 Hl0] Hall]. destruct (IsActingStatus s) eqn:Hs; [done|].
    apply incident_path_known in Hl0.
    destruct (not_acting_avoids_frontier s Hl0 Hs) as (l & Hl & Hno). by destruct (Hno (Hall l Hl)).
Qed.
End Histories.
