(* ===== verification/AuditStore.v ===== *)
(** * The agentic record (src/jets/agentic/audit, apiserver/api_agentic.go)

    The tables of agent_audit.sql, the statements the package runs against them
    and the operations built from these: starting and finishing a run, appending to
    the hash chain, recording a proposal, an approval, an incident transition and a
    tier transition, reading a transcript and the tier transitions back, the two
    handlers that write verdicts and the shadow writer's moves.

    A table with a text primary key is a map from it; a log that only grows is the
    list of its rows, oldest first. A transaction runs on a copy of the store that
    replaces it at the commit, so every early return leaves the store as it was: the
    row locks and unique constraints make concurrent transactions of one subject
    behave as if one ran after the other. [faults] says which calls of the driver
    fail: the connection, a text the server does not accept, or a unique violation
    a concurrent append caused. A commit whose acknowledgement is lost may have been
    applied.

    The pointers handed to these operations are never nil, except where a
    [validate] method asks. The driver's errors carry no code here, so the answer
    503 of a database without the tables does not occur.

    The database engine is not part of the program: its SHA-256, its rendering of a
    jsonb value and its [to_char] are the fields of [Postgres]. *)
From stdpp Require Import base list strings gmap pretty.
From Stdlib Require Import Ascii ZArith Lia.
From S2P Require Import Prelude GoFloat GoText GoTextLaws GoValue AuditLifecycle.
Import Approvals Incidents Tiers.
Local Open Scope string_scope.
Local Open Scope Z_scope.

(** ** Values *)

#[local] Set Warnings "-register-all".

(** A JSON value; a number is its text. *)
Inductive json :=
| JNull
| JBool (b : bool)
| JNum (text : string)
| JStr (s : string)
| JArr (l : list json)
| JObj (members : list (string * json)).

(** [payload->>'k']: the text of the member [k] of a jsonb object, of which the
    last of several with one name is kept. *)
Fixpoint member (k : string) (l : list (string * json)) : option json :=
  match l with
  | [] => None
  | (k', v) :: l => match member k l with Some w => Some w | None => if String.eqb k' k then Some v else None end
  end.

Class Postgres := {
  sha256 : string → string;
  jsonb_text : json → string;
  to_char_us : Z → string;
}.

(** The layouts of package time the record uses: RFC 3339 with nanoseconds. *)
Class GoRFC3339 := { RFC3339Nano : Time → string; parse_RFC3339Nano : string → option Time }.

Definition t_IsZero (t : Time) : bool := (t_sec t =? 0) && (t_nsec t =? 0).
Definition t_UnixNano (t : Time) : Z := i64 (t_Unix t * second + t_nsec t).
(** A timestamptz: microseconds since the epoch. *)
Definition timestamptz (t : Time) : Z := t_Unix t * 1000000 + t_nsec t / 1000.
Definition time_or_now (t now : Time) : Time := if t_IsZero t then now else t.

(** [NULLIF(s, '')] and [coalesce(c, '')]. *)
Definition NULLIF (s : string) : option string := if String.eqb s "" then None else Some s.
Definition coalesce (o : option string) : string := default "" o.

(** [json.Marshal] of a string replaces what is not UTF-8 by U+FFFD. *)
Definition utf8_replacement : string :=
  String (ascii_of_nat 239) (String (ascii_of_nat 191) (String (ascii_of_nat 189) "")).
Definition json_rune (rb : Z * string) : string :=
  if (rb.1 =? RuneError) && (String.length rb.2 =? 1)%nat then utf8_replacement else rb.2.
Definition json_string (s : string) : string := foldr (λ rb acc, json_rune rb +:+ acc) "" (runes s).

(** hex.EncodeToString *)
Definition hex_digit (z : Z) : ascii := ascii_of_N (Z.to_N (if z <? 10 then 48 + z else 87 + z)).
Fixpoint EncodeToString (s : string) : string :=
  match s with
  | "" => ""
  | String c s => String (hex_digit (byte_of c / 16)) (String (hex_digit (byte_of c mod 16)) (EncodeToString s))
  end%string.

Definition unit_separator : string := String (ascii_of_nat 31) "".

(** ** The tables: agent_audit.sql *)
Definition check_tier : list string := ["T0"; "T1"; "T2"; "T3"; "T4"].
Definition check_event_type : list string := ["intent"; "tool_call"; "decision"; "outcome"; "approval"; "error"].
Definition check_approval_state : list string :=
  ["draft"; "validated"; "agent_reviewed"; "awaiting_human_approval"; "approved";
   "approved_with_modification"; "rejected"; "superseded"; "deployed"].
Definition check_incident_status : list string :=
  ["detected"; "triaged"; "diagnosed"; "remediation_proposed"; "awaiting_approval"; "remediating";
   "resolved"; "verified"; "closed"; "reclassified"; "suppressed_as_benign"].
Definition check_classification : list string :=
  ["source_delivery_failure"; "source_content_change"; "transport_failure"; "parse_failure";
   "validation_breach"; "transformation_defect"; "infrastructure_failure"; "dependency_failure";
   "capacity_or_cost_deviation"; "benign_variation"].
Definition check_actor_kind : list string := ["human"; "agent"].

(** jetsapi.agent_audit *)
Record audit_row := mkAuditRow {
  aa_run_id : string; aa_seq : Z; aa_event_type : string; aa_actor : string; aa_tier : option string;
  aa_tool_name : option string; aa_payload : json; aa_prev_hash : option string; aa_row_hash : string;
  aa_created_at : Z }.

(** jetsapi.agent_run *)
Record run_row := mkRunRow {
  ar_agent_id : string; ar_agent_version : string; ar_model_id : string; ar_prompt_version : string;
  ar_tier : string; ar_started_at : Z; ar_ended_at : option Z; ar_run_status : option string;
  ar_triggered_by : option string; ar_domain_model_version : string; ar_iteration_cap : Z;
  ar_wall_clock_cap_seconds : Z; ar_token_spend : option Z }.

(** jetsapi.change_proposal, the columns the package writes *)
Record proposal_row := mkProposalRow {
  cp_trigger : string; cp_trigger_ref : option string; cp_rationale : option string;
  cp_affected_pipelines : list string; cp_generated_tests : list string;
  cp_impact_affected_assets : list string; cp_clinical_relevance_touched : bool;
  cp_approval_state : string; cp_model_version : string }.

(** jetsapi.approval_event *)
Record approval_row := mkApprovalRow {
  ae_approval_event_id : string; ae_run_ref : string; ae_subject_ref : string; ae_from_state : string;
  ae_to_state : string; ae_actor : string; ae_tier_at_event : string; ae_decided_at : Z;
  ae_decision_rationale : option string }.

(** jetsapi.incident, without the columns only the reader of evidence uses *)
Record incident_row := mkIncidentRow {
  in_session_id : string; in_run_ref : option string; in_detected_at : Z; in_locus : string;
  in_classification : option string; in_severity : string; in_status : string }.

(** jetsapi.incident_event *)
Record incident_event_row := mkIncidentEventRow {
  ie_incident_event_id : string; ie_incident_ref : string; ie_from_status : string; ie_to_status : string;
  ie_actor : string; ie_actor_kind : string; ie_transitioned_at : Z; ie_run_ref : option string;
  ie_classification_before : option string; ie_classification_after : option string;
  ie_rationale : option string }.

Record Store := mkStore {
  agent_run : gmap string run_row;
  agent_audit : list audit_row;
  change_proposal : gmap string proposal_row;
  approval_event : list approval_row;
  incident : gmap string incident_row;
  incident_event : list incident_event_row }.

Definition empty_store : Store := mkStore ∅ [] ∅ [] ∅ [].

Definition set_agent_run (m : gmap string run_row) (db : Store) : Store :=
  mkStore m (agent_audit db) (change_proposal db) (approval_event db) (incident db) (incident_event db).
Definition set_agent_audit (l : list audit_row) (db : Store) : Store :=
  mkStore (agent_run db) l (change_proposal db) (approval_event db) (incident db) (incident_event db).
Definition set_change_proposal (m : gmap string proposal_row) (db : Store) : Store :=
  mkStore (agent_run db) (agent_audit db) m (approval_event db) (incident db) (incident_event db).
Definition set_approval_event (l : list approval_row) (db : Store) : Store :=
  mkStore (agent_run db) (agent_audit db) (change_proposal db) l (incident db) (incident_event db).
Definition set_incident (m : gmap string incident_row) (db : Store) : Store :=
  mkStore (agent_run db) (agent_audit db) (change_proposal db) (approval_event db) m (incident_event db).
Definition set_incident_event (l : list incident_event_row) (db : Store) : Store :=
  mkStore (agent_run db) (agent_audit db) (change_proposal db) (approval_event db) (incident db) l.

(** A constraint of a table. *)
Definition check (b : bool) (constraint : string) : result unit :=
  if b then inr tt else inl (DbErr constraint).
Definition null_or (vocab : list string) (o : option string) : bool :=
  match o with None => true | Some v => inVocabulary vocab v end.

(** ** Calls of the driver *)
Record faults := mkFaults {
  f_begin : option string;
  f_stmt : nat → option string;
  f_commit : option (string * bool) }.
Definition no_faults : faults := mkFaults None (λ _, None) None.

(** The [n]th statement of the operation. *)
Definition exec {A} (f : faults) (n : nat) (m : result A) : result A :=
  match f_stmt f n with Some e => inl (DbErr e) | None => m end.

(** [Begin]; the body; [Commit], with [Rollback] deferred. The body also says what
    it left in the caller's struct, of type [T]. *)
Definition transaction {A T} (f : faults) (opening committing : string) (t : T) (db : Store)
    (body : Store → result (A * Store) * T) : result A * T * Store :=
  match f_begin f with
  | Some e => (inl (Wrap opening (DbErr e)), t, db)
  | None =>
      match body db with
      | (inl e, t') => (inl e, t', db)
      | (inr (a, db'), t') =>
          match f_commit f with
          | None => (inr a, t', db')
          | Some (e, applied) => (inl (Wrap committing (DbErr e)), t', if applied then db' else db)
          end
      end
  end.

(** A statement outside a transaction, which commits by itself. *)
Definition autocommit {A S} (f : faults) (db : S) (m : result (A * S)) : result A * S :=
  match exec f 0 m with
  | inl e => (inl e, db)
  | inr (a, db') =>
      match f_commit f with
      | None => (inr a, db')
      | Some (e, applied) => (inl (DbErr e), if applied then db' else db)
      end
  end.

Section operations.
Context `{Postgres} `{GoRFC3339}.

(** ** The chain: audit.go, transcript.go and the triggers of agent_audit.sql *)
Definition EventIntent := "intent".
Definition EventToolCall := "tool_call".
Definition EventDecision := "decision".
Definition EventOutcome := "outcome".
Definition EventApproval := "approval".
Definition EventError := "error".

Record Event := mkEvent {
  ev_RunId : string; ev_EventType : string; ev_Actor : string; ev_Tier : string; ev_ToolName : string;
  ev_Payload : json }.

(** [SELECT ... FROM jetsapi.agent_audit WHERE run_id = $1], in the order of seq:
    the order of the inserts. *)
Definition rows_of (run_id : string) (l : list audit_row) : list audit_row :=
  filter (λ r, aa_run_id r = run_id) l.

(** coalesce(max(seq), 0) *)
Definition max_seq (l : list audit_row) : Z :=
  match l with [] => 0 | r :: l => foldr (λ r m, Z.max (aa_seq r) m) (aa_seq r) l end.

(** The material of a row's hash, joined by the unit separator. *)
Definition material (run_id seq event_type actor tier tool_name payload created_at prev : string) : string :=
  join unit_separator [run_id; seq; event_type; actor; tier; tool_name; payload; created_at; prev].

(** The BEFORE INSERT trigger jetsapi.agent_audit_chain. *)
Definition agent_audit_chain (now : Z) (ev : Event) (l : list audit_row) : result audit_row :=
  let rows := rows_of (ev_RunId ev) l in
  let seq := max_seq rows + 1 in
  let? _ := check (seq <=? 2147483647) "integer out of range" in
  let prev_hash := aa_row_hash <$> head (filter (λ r, aa_seq r = seq - 1) rows) in
  let tier := NULLIF (ev_Tier ev) in
  let tool_name := NULLIF (ev_ToolName ev) in
  inr (mkAuditRow (ev_RunId ev) seq (ev_EventType ev) (ev_Actor ev) tier tool_name (ev_Payload ev) prev_hash
         (sha256 (material (ev_RunId ev) (Itoa seq) (ev_EventType ev) (ev_Actor ev) (coalesce tier)
                    (coalesce tool_name) (jsonb_text (ev_Payload ev)) (to_char_us now)
                    (coalesce (EncodeToString <$> prev_hash)))) now).

(** INSERT INTO jetsapi.agent_audit ... RETURNING seq *)
Definition insert_agent_audit (now : Z) (ev : Event) (db : Store) : result (Z * Store) :=
  let? row := agent_audit_chain now ev (agent_audit db) in
  let? _ := check (inVocabulary check_event_type (aa_event_type row)) "agent_audit_event_type_ck" in
  let? _ := check (null_or check_tier (aa_tier row)) "agent_audit_tier_ck" in
  let? _ := check (negb (existsb (λ r, String.eqb (aa_run_id r) (aa_run_id row) && (aa_seq r =? aa_seq row))
                           (agent_audit db))) "agent_audit_run_id_seq_key" in
  inr (aa_seq row, set_agent_audit (agent_audit db ++ [row]) db).

Definition Append (f : faults) (n : nat) (now : Z) (ev : Event) (db : Store) : result (Z * Store) :=
  wrapf "while appending %s event for run %s: %w" (exec f n (insert_agent_audit now ev db)).

(** PgRecorder.Append and Loop.event: the append commits by itself, and its
    failure is discarded. *)
Definition Append_auto (f : faults) (now : Z) (ev : Event) (db : Store) : result Z * Store :=
  let '(r, db') := autocommit f db (insert_agent_audit now ev db) in
  (wrapf "while appending %s event for run %s: %w" r, db').

Record TranscriptEvent := mkTranscriptEvent {
  te_Seq : Z; te_EventType : string; te_Actor : string; te_Tier : string; te_ToolName : string;
  te_Payload : string; te_CreatedAt : Z; te_PrevHash : string; te_RowHash : string }.

(** A timestamp in the layout of the trigger, as Go writes it. *)
Fixpoint pad (n : nat) (s : string) : string :=
  match n with O => s | S n => if (n <? String.length s)%nat then s else String "0"%char (pad n s) end.
Definition chainTime (us : Z) : string :=
  let '(y, m, d) := civil_from_days (us / 86400000000) in
  let sod := us mod 86400000000 / 1000000 in
  (if y <? 0 then "-" else "") +:+ pad 4 (Itoa (Z.abs y)) +:+ "-" +:+ pad 2 (Itoa m) +:+ "-" +:+ pad 2 (Itoa d) +:+ "T" +:+
  pad 2 (Itoa (sod / 3600)) +:+ ":" +:+ pad 2 (Itoa (sod / 60 mod 60)) +:+ ":" +:+ pad 2 (Itoa (sod mod 60)) +:+
  "." +:+ pad 6 (Itoa (us mod 1000000)) +:+ "Z".

(** rowHash: the material rebuilt from the row read back. *)
Definition rowHash (runId : string) (ev : TranscriptEvent) : string :=
  let prevHex := if String.eqb (te_PrevHash ev) "" then "" else EncodeToString (te_PrevHash ev) in
  sha256 (material runId (Itoa (te_Seq ev)) (te_EventType ev) (te_Actor ev) (te_Tier ev) (te_ToolName ev)
            (te_Payload ev) (chainTime (te_CreatedAt ev)) prevHex).

Inductive DefectKind := DefectGap | DefectLink | DefectHash.
Record ChainDefect := mkChainDefect { cd_Seq : Z; cd_Kind : DefectKind; cd_Detail : string }.

(** One turn of the loop of [Verify], at index [i]. *)
Definition verify_event (runId : string) (i : Z) (prevRowHash : string) (ev : TranscriptEvent) : list ChainDefect :=
  (if te_Seq ev =? i + 1 then [] else
     [mkChainDefect (te_Seq ev) DefectGap "expected seq %d at position %d; rows are missing from this read"]) ++
  (if (i =? 0) && negb (String.eqb (te_PrevHash ev) "") then
     [mkChainDefect (te_Seq ev) DefectLink "the first event of a run links to a predecessor, and there is none"]
   else if (0 <? i) && negb (String.eqb (te_PrevHash ev) prevRowHash) then
     [mkChainDefect (te_Seq ev) DefectLink "prev_hash %s does not match the previous row_hash %s"]
   else []) ++
  (if String.eqb (te_RowHash ev) (rowHash runId ev) then [] else
     [mkChainDefect (te_Seq ev) DefectHash "row_hash %s does not recompute (%s); a column was altered after it was written"]).

Fixpoint verify_from (runId : string) (i : Z) (prevRowHash : string) (events : list TranscriptEvent) : list ChainDefect :=
  match events with
  | [] => []
  | ev :: events => verify_event runId i prevRowHash ev ++ verify_from runId (i + 1) (te_RowHash ev) events
  end.
Definition Verify (runId : string) (events : list TranscriptEvent) : list ChainDefect :=
  verify_from runId 0 "" events.

(** One row as [ReadTranscript] scans it; a NULL hash is scanned as nil bytes. *)
Definition scan_event (r : audit_row) : TranscriptEvent :=
  mkTranscriptEvent (aa_seq r) (aa_event_type r) (aa_actor r) (coalesce (aa_tier r)) (coalesce (aa_tool_name r))
    (jsonb_text (aa_payload r)) (aa_created_at r) (coalesce (aa_prev_hash r)) (aa_row_hash r).

Record Transcript := mkTranscript { ts_RunId : string; ts_Events : list TranscriptEvent; ts_Defects : list ChainDefect }.
Definition Verified (t : Transcript) : bool := match ts_Defects t with [] => true | _ => false end.

Definition ReadTranscript (f : faults) (runId : string) (db : Store) : result Transcript :=
  if String.eqb runId "" then inl (Err "cannot read a transcript without a run id") else
  let? rows := wrapf "while reading the transcript for run %s: %w" (exec f 0 (inr (rows_of runId (agent_audit db)))) in
  let events := scan_event <$> rows in
  match events with
  | [] => inl (ErrNoTranscript runId)
  | _ => inr (mkTranscript runId events (Verify runId events))
  end.

(** ** Runs: run.go *)
Record Run := mkRun {
  run_RunId : string; run_AgentId : string; run_AgentVersion : string; run_ModelId : string;
  run_PromptVersion : string; run_Tier : string; run_StartedAt : Time; run_DomainModelVersion : string;
  run_IterationCap : Z; run_WallClockCapSeconds : Z; run_TriggeredBy : string }.

Definition insert_agent_run (run : Run) (db : Store) : result Store :=
  let? _ := check (inVocabulary check_tier (run_Tier run)) "agent_run_tier_ck" in
  match agent_run db !! run_RunId run with
  | Some _ => inl (DbErr "agent_run_pkey")
  | None =>
      let row := mkRunRow (run_AgentId run) (run_AgentVersion run) (run_ModelId run) (run_PromptVersion run)
                   (run_Tier run) (timestamptz (run_StartedAt run)) None None (NULLIF (run_TriggeredBy run))
                   (run_DomainModelVersion run) (run_IterationCap run) (run_WallClockCapSeconds run) None in
      inr (set_agent_run (<[run_RunId run := row]> (agent_run db)) db)
  end.

(** The intent is the JSON of a non-empty payload, or nothing. *)
Definition StartRun (f : faults) (now : Z) (run : Run) (intent : option json) (db : Store) : result unit * Store :=
  if String.eqb (run_RunId run) "" then (inl (Err "a run must carry an id before it can be recorded"), db) else
  match intent with
  | None => (inl (Err "the intent payload is empty; write-before-act records what is about to happen, not that something is"), db)
  | Some intent =>
      let '(r, _, db') :=
        transaction f "while opening the transaction for run %s: %w" "while committing the intent for run %s: %w" tt db
          (λ db,
             (let? db1 := wrapf "while recording run %s: %w" (exec f 0 (insert_agent_run run db)) in
              let? '(_, db2) := wrapf "while recording the intent for run %s: %w"
                (Append f 1 now (mkEvent (run_RunId run) EventIntent (run_AgentId run) (run_Tier run) "" intent) db1) in
              inr (tt, db2), tt)) in
      (r, db')
  end.

Definition finish_row (now tokenSpend : Z) (status : string) (r : run_row) : run_row :=
  mkRunRow (ar_agent_id r) (ar_agent_version r) (ar_model_id r) (ar_prompt_version r) (ar_tier r) (ar_started_at r)
    (Some now) (Some status) (ar_triggered_by r) (ar_domain_model_version r) (ar_iteration_cap r)
    (ar_wall_clock_cap_seconds r) (Some tokenSpend).

(** The UPDATE answers the number of rows it changed. *)
Definition FinishRun (f : faults) (now : Z) (runId status : string) (tokenSpend : Z) (db : Store) : result unit * Store :=
  if String.eqb runId "" then (inl (Err "cannot finish a run with no id"), db) else
  let updated := match agent_run db !! runId with
                 | None => (0, db)
                 | Some r => (1, set_agent_run (<[runId := finish_row now tokenSpend status r]> (agent_run db)) db)
                 end in
  let '(r, db') := autocommit f db (inr updated) in
  (let? affected := wrapf "while finishing run %s: %w" r in
   if affected =? 0 then inl (Err "no run %s to finish; StartRun must have run first") else inr tt, db').

Definition RunTier (f : faults) (runId : string) (db : Store) : result string :=
  if String.eqb runId "" then inl (Err "cannot read a tier without a run id") else
  let? row := wrapf "while reading the tier of run %s: %w" (exec f 0 (inr (agent_run db !! runId))) in
  match row with None => inl (ErrNoRun runId) | Some r => inr (ar_tier r) end.

(** tier_gate.go: PgTierGate.Permit. *)
Definition Permit (f : faults) (RunId action requiredTier : string) (db : Store) : result unit :=
  if String.eqb RunId "" then
    inl (Err "agent: no run id to resolve an autonomy tier from, refusing to act; a gate that cannot reach its source must not fail open (action %q)")
  else
    let? current := wrapf "agent: cannot resolve the autonomy tier of run %s, refusing to act: %w" (RunTier f RunId db) in
    compareTiers action current requiredTier.

(** ** Proposals: proposal.go, and PgRecorder.Propose of agent/recorder.go *)
Record Proposal := mkProposal {
  p_ProposalId : string; p_Trigger : string; p_TriggerRef : string; p_Rationale : string;
  p_AffectedPipelines : list string; p_GeneratedTests : list string; p_ImpactAffectedAssets : list string;
  p_ApprovalState : string; p_ModelVersion : string }.

Definition insert_change_proposal (p : Proposal) (db : Store) : result (unit * Store) :=
  let? _ := check (inVocabulary check_approval_state (p_ApprovalState p)) "change_proposal_approval_state_ck" in
  match change_proposal db !! p_ProposalId p with
  | Some _ => inl (DbErr "change_proposal_pkey")
  | None =>
      let row := mkProposalRow (p_Trigger p) (NULLIF (p_TriggerRef p)) (NULLIF (p_Rationale p)) (p_AffectedPipelines p)
                   (p_GeneratedTests p) (p_ImpactAffectedAssets p) false (p_ApprovalState p) (p_ModelVersion p) in
      inr (tt, set_change_proposal (<[p_ProposalId p := row]> (change_proposal db)) db)
  end.

Definition RecordProposal (f : faults) (p : Proposal) (db : Store) : result unit * Store :=
  if String.eqb (p_ProposalId p) "" then (inl (Err "a proposal must carry an id before it can be recorded"), db)
  else if String.eqb (p_ApprovalState p) "" then
    (inl (Err "proposal %s has no approval state; a proposal outside the lifecycle cannot be approved or rejected"), db)
  else
    let '(r, db') := autocommit f db (insert_change_proposal p db) in
    (wrapf "while recording proposal %s: %w" r, db').

Definition approvalDraft := "draft".
Definition Propose `{GoUnicode} (f : faults) (run : Run) (artifact : string) (db : Store) : result string * Store :=
  let id := ("chg_" +:+ ToLower (replace_from "-" "" 0 (run_RunId run)))%string in
  let p := mkProposal id "authoring_run" (run_RunId run) artifact [] [] [] approvalDraft (run_DomainModelVersion run) in
  let '(r, db') := RecordProposal f p db in
  (let? _ := r in inr id, db').

Definition scan_proposal (proposalId : string) (r : proposal_row) : Proposal :=
  mkProposal proposalId (cp_trigger r) (coalesce (cp_trigger_ref r)) (coalesce (cp_rationale r))
    (cp_affected_pipelines r) (cp_generated_tests r) (cp_impact_affected_assets r) (cp_approval_state r)
    (cp_model_version r).
Definition ReadProposal (f : faults) (proposalId : string) (db : Store) : result Proposal :=
  if String.eqb proposalId "" then inl (Err "cannot read a proposal without an id") else
  let? row := wrapf "while reading proposal %s: %w" (exec f 0 (inr (change_proposal db !! proposalId))) in
  match row with None => inl (ErrNoProposal proposalId) | Some r => inr (scan_proposal proposalId r) end.

(** ** Approvals: approval.go *)
Record Approval := mkApproval {
  ap_ApprovalEventId : string; ap_RunRef : string; ap_SubjectRef : string; ap_FromState : string;
  ap_ToState : string; ap_Actor : string; ap_TierAtEvent : string; ap_DecidedAt : Time;
  ap_DecisionRationale : string }.

Definition Approval_validate (a : option Approval) : result unit :=
  match a with
  | None => inl (Err "no approval to record")
  | Some a =>
      if String.eqb (ap_ApprovalEventId a) "" then inl (Err "an approval must carry an event id") else
      if String.eqb (ap_RunRef a) "" then
        inl (Err "approval %s names no run; an approval outside a run's chain is not joined to anything") else
      if String.eqb (ap_SubjectRef a) "" then
        inl (Err "approval %s names no subject; there is nothing to approve") else
      if String.eqb (ap_FromState a) "" then
        inl (Err "approval %s names no from_state, so the transition cannot be guarded against a concurrent decision") else
      if String.eqb (ap_ToState a) "" then inl (Err "approval %s names no to_state") else
      if String.eqb (ap_Actor a) "" then
        inl (Err "approval %s names no actor; an unattributable approval is the one thing this record exists to prevent") else
      if String.eqb (ap_TierAtEvent a) "" then
        inl (Err "approval %s carries no tier; tier_at_event is NOT NULL because a decision's authority is part of the decision") else
      inr tt
  end.

Definition move_proposal (state : string) (r : proposal_row) : proposal_row :=
  mkProposalRow (cp_trigger r) (cp_trigger_ref r) (cp_rationale r) (cp_affected_pipelines r) (cp_generated_tests r)
    (cp_impact_affected_assets r) (cp_clinical_relevance_touched r) state (cp_model_version r).

(** UPDATE jetsapi.change_proposal SET approval_state = $3
    WHERE proposal_id = $1 AND approval_state = $2, with the rows affected. *)
Definition update_proposal (id from to : string) (db : Store) : result (Z * Store) :=
  match change_proposal db !! id with
  | Some r =>
      if String.eqb (cp_approval_state r) from then
        let? _ := check (inVocabulary check_approval_state to) "change_proposal_approval_state_ck" in
        inr (1, set_change_proposal (<[id := move_proposal to r]> (change_proposal db)) db)
      else inr (0, db)
  | None => inr (0, db)
  end.

Definition insert_approval_event (row : approval_row) (db : Store) : result Store :=
  let? _ := check (inVocabulary check_approval_state (ae_from_state row)) "approval_event_from_state_ck" in
  let? _ := check (inVocabulary check_approval_state (ae_to_state row)) "approval_event_to_state_ck" in
  let? _ := check (inVocabulary check_tier (ae_tier_at_event row)) "approval_event_tier_ck" in
  let? _ := check (negb (existsb (λ r, String.eqb (ae_approval_event_id r) (ae_approval_event_id row))
                           (approval_event db))) "approval_event_pkey" in
  inr (set_approval_event (approval_event db ++ [row]) db).

Definition approval_row_of (a : Approval) : approval_row :=
  mkApprovalRow (ap_ApprovalEventId a) (ap_RunRef a) (ap_SubjectRef a) (ap_FromState a) (ap_ToState a) (ap_Actor a)
    (ap_TierAtEvent a) (timestamptz (ap_DecidedAt a)) (NULLIF (ap_DecisionRationale a)).

Definition approval_payload (a : Approval) : json :=
  JObj [("approval_event_id", JStr (json_string (ap_ApprovalEventId a)));
        ("decided_at", JStr (RFC3339Nano (time_toUTC (ap_DecidedAt a))));
        ("decision_rationale", JStr (json_string (ap_DecisionRationale a)));
        ("from_state", JStr (json_string (ap_FromState a)));
        ("subject_ref", JStr (json_string (ap_SubjectRef a)));
        ("to_state", JStr (json_string (ap_ToState a)))].

Definition with_DecidedAt (a : Approval) (at_ : Time) : Approval :=
  mkApproval (ap_ApprovalEventId a) (ap_RunRef a) (ap_SubjectRef a) (ap_FromState a) (ap_ToState a) (ap_Actor a)
    (ap_TierAtEvent a) at_ (ap_DecisionRationale a).

(** The body of the transaction, in the order of its statements. *)
Definition approval_body (f : faults) (now : Z) (a : Approval) (db : Store) : result (Z * Store) :=
  let? '(affected, db1) := wrapf "while moving proposal %s to %s: %w"
    (exec f 0 (update_proposal (ap_SubjectRef a) (ap_FromState a) (ap_ToState a) db)) in
  if affected =? 0 then inl (ErrStateConflict (ap_SubjectRef a) (ap_FromState a)) else
  let? db2 := wrapf "while recording approval %s: %w" (exec f 1 (insert_approval_event (approval_row_of a) db1)) in
  Append f 2 now (mkEvent (ap_RunRef a) EventApproval (ap_Actor a) (ap_TierAtEvent a) "" (approval_payload a)) db2.

(** [clock] is [time.Now().UTC()], [now] the database's [now()]. *)
Definition RecordApproval (f : faults) (clock : Time) (now : Z) (a : Approval) (db : Store) :
    result Z * Approval * Store :=
  match Approval_validate (Some a) with
  | inl e => (inl e, a, db)
  | inr _ =>
      let a := with_DecidedAt a (time_or_now (ap_DecidedAt a) clock) in
      transaction f "while opening the transaction for approval %s: %w" "while committing approval %s: %w" a db
        (λ db, (approval_body f now a db, a))
  end.

(** ** Incident transitions: incident_transition.go, state_change.go *)
Definition ActorHuman := "human".
Definition ActorAgent := "agent".
Definition ActorKinds : list string := [ActorHuman; ActorAgent].
Definition KnownActorKind (kind : string) : bool := inVocabulary ActorKinds kind.

Definition validateAttribution (actor kind : string) : result unit :=
  if String.eqb actor "" then
    inl (Err "%s names no actor; an unattributable transition is the one thing this record exists to prevent")
  else if negb (KnownActorKind kind) then
    inl (Err "%s carries actor kind %q; it must be %q or %q, because a label a metric cannot attribute is not a label")
  else inr tt.

Record IncidentTransition := mkIncidentTransition {
  it_IncidentEventId : string; it_IncidentRef : string; it_FromStatus : string; it_ToStatus : string;
  it_Actor : string; it_ActorKind : string; it_RunRef : string; it_ClassificationBefore : string;
  it_ClassificationAfter : string; it_TransitionedAt : Time; it_Rationale : string }.

Definition IncidentTransition_validate (t : option IncidentTransition) : result unit :=
  match t with
  | None => inl (Err "no incident transition to record")
  | Some t =>
      if String.eqb (it_IncidentEventId t) "" then inl (Err "an incident transition must carry an event id") else
      if String.eqb (it_IncidentRef t) "" then inl (Err "transition %s names no incident") else
      if String.eqb (it_FromStatus t) "" then
        inl (Err "transition %s names no from_status, so it cannot be guarded against a concurrent decision") else
      if String.eqb (it_ToStatus t) "" then inl (Err "transition %s names no to_status") else
      if negb (KnownIncidentStatus (it_FromStatus t)) then
        inl (Err "transition %s names from_status %q, which is not an IncidentStatus") else
      if negb (KnownIncidentStatus (it_ToStatus t)) then
        inl (Err "transition %s names to_status %q, which is not an IncidentStatus") else
      if negb (IncidentTransitionAllowed (it_FromStatus t) (it_ToStatus t)) then
        inl (Err "incident %s is in %s, from which %q is not a permitted transition; permitted: %v (Appendix A.5)") else
      validateAttribution (it_Actor t) (it_ActorKind t)
  end.

(** What the writer fills in: the time, then the classification read off the row
    and the run the chain event goes to. *)
Definition with_TransitionedAt (t : IncidentTransition) (at_ : Time) : IncidentTransition :=
  mkIncidentTransition (it_IncidentEventId t) (it_IncidentRef t) (it_FromStatus t) (it_ToStatus t) (it_Actor t)
    (it_ActorKind t) (it_RunRef t) (it_ClassificationBefore t) (it_ClassificationAfter t) at_ (it_Rationale t).
Definition with_row (t : IncidentTransition) (before incidentRun : string) : IncidentTransition :=
  mkIncidentTransition (it_IncidentEventId t) (it_IncidentRef t) (it_FromStatus t) (it_ToStatus t) (it_Actor t)
    (it_ActorKind t) (if String.eqb (it_RunRef t) "" then incidentRun else it_RunRef t) before
    (it_ClassificationAfter t) (it_TransitionedAt t) (it_Rationale t).

(** UPDATE jetsapi.incident SET status = $2, classification = CASE WHEN $3 = ''
    THEN classification ELSE $3 END WHERE incident_id = $1 *)
Definition move_incident (status classification : string) (r : incident_row) : incident_row :=
  mkIncidentRow (in_session_id r) (in_run_ref r) (in_detected_at r) (in_locus r)
    (if String.eqb classification "" then in_classification r else Some classification) (in_severity r) status.
Definition update_incident (id status classification : string) (db : Store) : result Store :=
  match incident db !! id with
  | None => inr db
  | Some r =>
      let r' := move_incident status classification r in
      let? _ := check (inVocabulary check_incident_status (in_status r')) "incident_status_ck" in
      let? _ := check (null_or check_classification (in_classification r')) "incident_classification_ck" in
      inr (set_incident (<[id := r']> (incident db)) db)
  end.

Definition insert_incident_event (row : incident_event_row) (db : Store) : result Store :=
  let? _ := check (inVocabulary check_incident_status (ie_from_status row)) "incident_event_from_status_ck" in
  let? _ := check (inVocabulary check_incident_status (ie_to_status row)) "incident_event_to_status_ck" in
  let? _ := check (inVocabulary check_actor_kind (ie_actor_kind row)) "incident_event_actor_kind_ck" in
  let? _ := check (null_or check_classification (ie_classification_before row)) "incident_event_classification_before_ck" in
  let? _ := check (null_or check_classification (ie_classification_after row)) "incident_event_classification_after_ck" in
  let? _ := check (negb (String.eqb (ie_to_status row) "reclassified") ||
                   (bool_decide (is_Some (ie_classification_after row)) && bool_decide (is_Some (ie_rationale row))))
              "incident_event_reclassified_ck" in
  let? _ := check (negb (existsb (λ r, String.eqb (ie_incident_event_id r) (ie_incident_event_id row))
                           (incident_event db))) "incident_event_pkey" in
  inr (set_incident_event (incident_event db ++ [row]) db).

Definition incident_event_row_of (t : IncidentTransition) : incident_event_row :=
  mkIncidentEventRow (it_IncidentEventId t) (it_IncidentRef t) (it_FromStatus t) (it_ToStatus t) (it_Actor t)
    (it_ActorKind t) (timestamptz (it_TransitionedAt t)) (NULLIF (it_RunRef t)) (NULLIF (it_ClassificationBefore t))
    (NULLIF (it_ClassificationAfter t)) (NULLIF (it_Rationale t)).

Definition incident_payload (t : IncidentTransition) : json :=
  JObj [("actor_kind", JStr (json_string (it_ActorKind t)));
        ("classification_after", JStr (json_string (it_ClassificationAfter t)));
        ("classification_before", JStr (json_string (it_ClassificationBefore t)));
        ("from_status", JStr (json_string (it_FromStatus t)));
        ("incident_event_id", JStr (json_string (it_IncidentEventId t)));
        ("incident_ref", JStr (json_string (it_IncidentRef t)));
        ("to_status", JStr (json_string (it_ToStatus t)));
        ("transition_rationale", JStr (json_string (it_Rationale t)));
        ("transitioned_at", JStr (RFC3339Nano (time_toUTC (it_TransitionedAt t))))].

(** After the row was read and found in [from_status]. *)
Definition incident_writes (f : faults) (now : Z) (t : IncidentTransition) (db : Store) : result (Z * Store) :=
  let? db1 := wrapf "while moving incident %s to %s: %w"
    (exec f 1 (update_incident (it_IncidentRef t) (it_ToStatus t) (it_ClassificationAfter t) db)) in
  let? db2 := wrapf "while recording transition %s: %w" (exec f 2 (insert_incident_event (incident_event_row_of t) db1)) in
  if String.eqb (it_RunRef t) "" then inr (0, db2)
  else Append f 3 now (mkEvent (it_RunRef t) EventDecision (it_Actor t) "" "" (incident_payload t)) db2.

(** SELECT status, coalesce(classification, ''), coalesce(incident_run_ref, '')
    ... FOR UPDATE, and the guard. *)
Definition incident_body (f : faults) (now : Z) (t : IncidentTransition) (db : Store) :
    result (Z * Store) * IncidentTransition :=
  match exec f 0 (inr (incident db !! it_IncidentRef t)) with
  | inl e => (inl (Wrap "while reading incident %s: %w" e), t)
  | inr None => (inl (ErrNoIncident (it_IncidentRef t)), t)
  | inr (Some r) =>
      if negb (String.eqb (in_status r) (it_FromStatus t)) then
        (inl (ErrIncidentStateConflict (it_IncidentRef t) (it_FromStatus t) (in_status r)), t)
      else
        let t := with_row t (coalesce (in_classification r)) (coalesce (in_run_ref r)) in
        (incident_writes f now t db, t)
  end.

Definition RecordIncidentTransition (f : faults) (clock : Time) (now : Z) (t : IncidentTransition) (db : Store) :
    result Z * IncidentTransition * Store :=
  match IncidentTransition_validate (Some t) with
  | inl e => (inl e, t, db)
  | inr _ =>
      let t := with_TransitionedAt t (time_or_now (it_TransitionedAt t) clock) in
      transaction f "while opening the transaction for transition %s: %w" "while committing transition %s: %w" t db
        (incident_body f now t)
  end.

(** ** Tier transitions: tier_transition.go *)
Record TierTransition := mkTierTransition {
  tt_RunId : string; tt_FromTier : string; tt_ToTier : string; tt_Actor : string; tt_ActorKind : string;
  tt_Rationale : string; tt_TransitionedAt : Time; tt_TierBefore : string }.

Definition IsRaise (t : TierTransition) : result bool :=
  let? from := ParseTier (tt_FromTier t) in
  let? to := ParseTier (tt_ToTier t) in
  let? reaches := Reaches from to in
  inr (negb reaches).

Definition TierTransition_validate (t : option TierTransition) : result unit :=
  match t with
  | None => inl (Err "no tier transition to record")
  | Some t =>
      if String.eqb (tt_RunId t) "" then
        inl (Err "a tier transition must name the run whose authority moves") else
      let? _ := validateAttribution (tt_Actor t) (tt_ActorKind t) in
      let? _ := wrapf "%s names a from_tier this build cannot read: %w" (ParseTier (tt_FromTier t)) in
      let? _ := wrapf "%s names a to_tier this build cannot read: %w" (ParseTier (tt_ToTier t)) in
      if String.eqb (tt_FromTier t) (tt_ToTier t) then
        inl (Err "%s moves it from %s to %s, which changes no authority") else
      let? raise := IsRaise t in
      if raise : bool then
        if negb (String.eqb (tt_ActorKind t) ActorHuman) then
          inl (ErrTierRaiseNotHuman (tt_RunId t) (tt_FromTier t) (tt_ToTier t) (tt_Actor t) (tt_ActorKind t)) else
        if String.eqb (tt_Rationale t) "" then
          inl (Err "%s raises it from %s to %s and states no reason; a grant of authority with no recorded reason is the one a supervisor cannot audit")
        else inr tt
      else inr tt
  end.

Definition tt_with_TransitionedAt (t : TierTransition) (at_ : Time) : TierTransition :=
  mkTierTransition (tt_RunId t) (tt_FromTier t) (tt_ToTier t) (tt_Actor t) (tt_ActorKind t) (tt_Rationale t) at_
    (tt_TierBefore t).
Definition with_TierBefore (t : TierTransition) (before : string) : TierTransition :=
  mkTierTransition (tt_RunId t) (tt_FromTier t) (tt_ToTier t) (tt_Actor t) (tt_ActorKind t) (tt_Rationale t)
    (tt_TransitionedAt t) before.

Definition move_run (tier : string) (r : run_row) : run_row :=
  mkRunRow (ar_agent_id r) (ar_agent_version r) (ar_model_id r) (ar_prompt_version r) tier (ar_started_at r)
    (ar_ended_at r) (ar_run_status r) (ar_triggered_by r) (ar_domain_model_version r) (ar_iteration_cap r)
    (ar_wall_clock_cap_seconds r) (ar_token_spend r).
Definition update_run_tier (runId tier : string) (db : Store) : result Store :=
  match agent_run db !! runId with
  | None => inr db
  | Some r =>
      let? _ := check (inVocabulary check_tier tier) "agent_run_tier_ck" in
      inr (set_agent_run (<[runId := move_run tier r]> (agent_run db)) db)
  end.

Definition TierStateChange := "autonomy_tier".
Definition tier_payload (t : TierTransition) (raise : bool) : json :=
  JObj [("actor_kind", JStr (json_string (tt_ActorKind t)));
        ("raise", JBool raise);
        ("rationale", JStr (json_string (tt_Rationale t)));
        ("run_ref", JStr (json_string (tt_RunId t)));
        ("state_change", JStr TierStateChange);
        ("tier_after", JStr (json_string (tt_ToTier t)));
        ("tier_before", JStr (json_string (tt_TierBefore t)));
        ("transitioned_at", JStr (RFC3339Nano (time_toUTC (tt_TransitionedAt t))))].

Definition tier_writes (f : faults) (now : Z) (t : TierTransition) (db : Store) : result (Z * Store) :=
  let? db1 := wrapf "while moving run %s to tier %s: %w" (exec f 1 (update_run_tier (tt_RunId t) (tt_ToTier t) db)) in
  let? raise := IsRaise t in
  Append f 2 now (mkEvent (tt_RunId t) EventDecision (tt_Actor t) (tt_TierBefore t) "" (tier_payload t raise)) db1.

Definition tier_body (f : faults) (now : Z) (t : TierTransition) (db : Store) : result (Z * Store) * TierTransition :=
  match exec f 0 (inr (agent_run db !! tt_RunId t)) with
  | inl e => (inl (Wrap "while reading the tier of run %s: %w" e), t)
  | inr None => (inl (ErrNoRun (tt_RunId t)), t)
  | inr (Some r) =>
      if negb (String.eqb (ar_tier r) (tt_FromTier t)) then
        (inl (ErrTierStateConflict (tt_RunId t) (tt_FromTier t) (ar_tier r)), t)
      else
        let t := with_TierBefore t (ar_tier r) in
        (tier_writes f now t db, t)
  end.

Definition RecordTierTransition (f : faults) (clock : Time) (now : Z) (t : TierTransition) (db : Store) :
    result Z * TierTransition * Store :=
  match TierTransition_validate (Some t) with
  | inl e => (inl e, t, db)
  | inr _ =>
      let t := tt_with_TransitionedAt t (time_or_now (tt_TransitionedAt t) clock) in
      transaction f "while opening the transaction for the tier transition of run %s: %w"
        "while committing the tier transition of run %s: %w" t db (tier_body f now t)
  end.

(** json.Unmarshal of one string field of a struct: the members are taken in
    order, a name matches the tag up to ASCII case, null leaves the field alone. *)
Fixpoint struct_field (tag acc : string) (members : list (string * json)) : result string :=
  match members with
  | [] => inr acc
  | (k, v) :: members =>
      if String.eqb (lower_str k) tag then
        match v with
        | JStr s => struct_field tag s members
        | JNull => struct_field tag acc members
        | _ => inl (Err "json: cannot unmarshal value into Go struct field of type string")
        end
      else struct_field tag acc members
  end.

Definition zero_time : Time := mkTime 0 0 UTC.

Definition decode_tier_transition (runId actor : string) (payload : json) : result TierTransition :=
  match payload with
  | JObj m =>
      let? before := struct_field "tier_before" "" m in
      let? after := struct_field "tier_after" "" m in
      let? kind := struct_field "actor_kind" "" m in
      let? rationale := struct_field "rationale" "" m in
      let? transitioned := struct_field "transitioned_at" "" m in
      inr (mkTierTransition runId before after actor kind rationale
             (default zero_time (parse_RFC3339Nano transitioned)) before)
  | _ => inl (Err "json: cannot unmarshal value into Go value of type struct")
  end.

(** WHERE run_id = $1 AND event_type = $2 AND payload->>'state_change' = $3 *)
Definition is_tier_row (r : audit_row) : bool :=
  String.eqb (aa_event_type r) EventDecision &&
  match aa_payload r with
  | JObj m => match member "state_change" m with Some (JStr s) => String.eqb s TierStateChange | _ => false end
  | _ => false
  end.

Fixpoint decode_tier_transitions (runId : string) (rows : list audit_row) : result (list TierTransition) :=
  match rows with
  | [] => inr []
  | r :: rows =>
      let? t := wrapf "while decoding a tier transition of run %s: %w"
                  (decode_tier_transition runId (aa_actor r) (aa_payload r)) in
      let? ts := decode_tier_transitions runId rows in
      inr (t :: ts)
  end.

Definition TierTransitionsFor (f : faults) (runId : string) (db : Store) : result (list TierTransition) :=
  let? rows := wrapf "while reading the tier transitions of run %s: %w"
    (exec f 0 (inr (filter (λ r, is_tier_row r = true) (rows_of runId (agent_audit db))))) in
  decode_tier_transitions runId rows.

(** ** The handlers: apiserver/api_agentic.go

    [recordApproval] reads the proposal, then the tier of its run, then writes;
    other requests may run between. The three parts are separate definitions, each
    on the store it finds. A refusal carries its status code. *)
Record AgenticAction := mkAgenticAction {
  act_ProposalId : string; act_IncidentId : string; act_FromState : string; act_ToState : string;
  act_Rationale : string; act_FromStatus : string; act_ToStatus : string; act_Classification : string }.

Definition StatusBadRequest : Z := 400.
Definition StatusUnauthorized : Z := 401.
Definition StatusNotFound : Z := 404.
Definition StatusConflict : Z := 409.
Definition StatusInternalServerError : Z := 500.
Definition reply (A : Type) : Type := (Z * error + A)%type.

Definition is_NoProposal (e : error) : bool := match e with ErrNoProposal _ => true | _ => false end.
Definition is_NoRun (e : error) : bool := match e with ErrNoRun _ => true | _ => false end.
Definition is_NoIncident (e : error) : bool := match e with ErrNoIncident _ => true | _ => false end.
Definition is_StateConflict (e : error) : bool := match e with ErrStateConflict _ _ => true | _ => false end.
Definition is_IncidentStateConflict (e : error) : bool :=
  match e with ErrIncidentStateConflict _ _ _ => true | _ => false end.

Definition recordApproval_check (f : faults) (actor : string) (a : AgenticAction) (db : Store) : reply Proposal :=
  if String.eqb actor "" then
    inl (StatusUnauthorized, Err "an approval cannot be recorded without an authenticated actor")
  else
    match ReadProposal f (act_ProposalId a) db with
    | inl e => inl (if errors_As is_NoProposal e then StatusNotFound else StatusInternalServerError, e)
    | inr p =>
        if negb (String.eqb (act_FromState a) "") && negb (String.eqb (act_FromState a) (p_ApprovalState p)) then
          inl (StatusConflict, ErrStateConflict (p_ProposalId p) (act_FromState a))
        else if negb (TransitionAllowed (p_ApprovalState p) (act_ToState a)) then
          inl (StatusBadRequest, Err "proposal %s is in %s, from which %q is not a permitted transition; permitted: %v")
        else inr p
    end.

Definition recordApproval_build (f : faults) (clock : Time) (actor : string) (a : AgenticAction) (p : Proposal)
    (db : Store) : reply Approval :=
  match RunTier f (p_TriggerRef p) db with
  | inl e => inl (if errors_As is_NoRun e then StatusConflict else StatusInternalServerError, e)
  | inr tier =>
      inr (mkApproval ("apr_" +:+ Itoa (t_UnixNano clock)) (p_TriggerRef p) (p_ProposalId p) (p_ApprovalState p)
             (act_ToState a) actor tier clock (act_Rationale a))
  end.

Definition recordApproval_write (f : faults) (clock : Time) (now : Z) (ap : Approval) (db : Store) :
    reply (Approval * Z) * Store :=
  match RecordApproval f clock now ap db with
  | (inl e, _, db') => (inl (if errors_As is_StateConflict e then StatusConflict else StatusInternalServerError, e), db')
  | (inr seq, ap', db') => (inr (ap', seq), db')
  end.

(** ReadIncident, without the hypotheses. *)
Definition ReadIncident (f : faults) (incidentId : string) (db : Store) : result incident_row :=
  if String.eqb incidentId "" then inl (Err "cannot read an incident without an id") else
  let? row := wrapf "while reading incident %s: %w" (exec f 0 (inr (incident db !! incidentId))) in
  match row with None => inl (ErrNoIncident incidentId) | Some r => inr r end.

Definition recordIncidentTransition_build (f : faults) (clock : Time) (actor : string) (a : AgenticAction) (db : Store) :
    reply IncidentTransition :=
  if String.eqb actor "" then
    inl (StatusUnauthorized, Err "a verdict cannot be recorded without an authenticated actor")
  else
    match ReadIncident f (act_IncidentId a) db with
    | inl e => inl (if errors_As is_NoIncident e then StatusNotFound else StatusInternalServerError, e)
    | inr inc =>
        if negb (String.eqb (act_FromStatus a) "") && negb (String.eqb (act_FromStatus a) (in_status inc)) then
          inl (StatusConflict, ErrIncidentStateConflict (act_IncidentId a) (act_FromStatus a) (in_status inc))
        else if negb (IncidentTransitionAllowed (in_status inc) (act_ToStatus a)) then
          inl (StatusBadRequest,
               Err "incident %s is in %s, from which %q is not a permitted transition; permitted: %v (Appendix A.5)")
        else if negb (String.eqb (act_Classification a) "") && negb (KnownIncidentClassification (act_Classification a)) then
          inl (StatusBadRequest, Err "%q is not an incident classification; the vocabulary is %v")
        else
          inr (mkIncidentTransition ("ievt_" +:+ Itoa (t_UnixNano clock)) (act_IncidentId a) (in_status inc)
                 (act_ToStatus a) actor ActorHuman "" "" (act_Classification a) clock (act_Rationale a))
    end.

Definition recordIncidentTransition_write (f : faults) (clock : Time) (now : Z) (t : IncidentTransition) (db : Store) :
    reply (IncidentTransition * Z) * Store :=
  match RecordIncidentTransition f clock now t db with
  | (inl e, _, db') =>
      (inl (if errors_As is_IncidentStateConflict e then StatusConflict
            else if errors_As is_NoIncident e then StatusNotFound else StatusBadRequest, e), db')
  | (inr seq, t', db') => (inr (t', seq), db')
  end.

(** ** The shadow writer: shadow/write.go *)
Definition IncidentLoci : list string :=
  ["run_not_started"; "step_never_started"; "worker_not_terminated"; "worker_failed";
   "sink_failed_under_completed_worker"; "rows_lost_silently"; "per_record_failures_reported";
   "per_record_failures_unreportable"; "written_not_arrived"].
Definition check_severity : list string := ["info"; "low"; "medium"; "high"; "critical"].

(** The INSERT of writeOne, at [detected], with ON CONFLICT DO NOTHING. *)
Definition raise_incident (f : faults) (detectedAt : Time) (incidentId sessionId locus severity : string) (db : Store) :
    result Z * Store :=
  let insert :=
    let? _ := check (inVocabulary IncidentLoci locus) "incident_locus_ck" in
    let? _ := check (inVocabulary check_severity severity) "incident_severity_ck" in
    match incident db !! incidentId with
    | Some _ => inr (0, db)
    | None => inr (1, set_incident (<[incidentId := mkIncidentRow sessionId None (timestamptz detectedAt) locus None
                                                   severity IncidentDetected]> (incident db)) db)
    end in
  let '(r, db') := autocommit f db insert in
  (wrapf "while raising incident %s: %w" r, db').

Definition moveTo (f : faults) (clock : Time) (now : Z) (actor incidentId from to : string) (at_ : Time)
    (rationale : string) (db : Store) : result Z * Store :=
  if negb (IsShadowStatus to) then (inl (ErrWouldAct incidentId to), db) else
  let t := mkIncidentTransition ("ie_" +:+ incidentId +:+ "_" +:+ to) incidentId from to actor ActorAgent "" "" ""
             at_ rationale in
  let '(r, _, db') := RecordIncidentTransition f clock now t db in
  (wrapf "while moving incident %s from %s to %s: %w" r, db').

(** ** The events of the loop: agent/loop.go, agent/recorder.go *)
Inductive loop_event :=
| LDecision (iteration : Z) (artifact : json)
| LToolCall (tool : string) (args report : json)
| LError (tool kind message : string)
| LTierRefused (tool : string) (err : error) (message : string)
| LOutcome (outcome : string) (iterations token_spend : Z).

Definition intentPayload (instruction verifier : string) (max_iterations : Z) : json :=
  JObj [("instruction", JStr (json_string instruction)); ("max_iterations", JNum (Itoa max_iterations));
        ("verifier", JStr (json_string verifier))].

(** [errors.As(err, &low)] for the tier refusal. *)
Fixpoint as_TierTooLow (e : error) : option (string * string * string) :=
  match e with
  | ErrTierTooLow a r c => Some (a, r, c)
  | Wrap _ e' => as_TierTooLow e'
  | _ => None
  end.
Definition tierRefusalPayload (err : error) (message : string) : json :=
  match as_TierTooLow err with
  | Some (action, required, current) =>
      JObj [("action", JStr (json_string action)); ("current_tier", JStr (json_string current));
            ("kind", JStr "autonomy_tier"); ("message", JStr (json_string message));
            ("required_tier", JStr (json_string required))]
  | None => JObj [("comparison", JStr "not made"); ("kind", JStr "autonomy_tier"); ("message", JStr (json_string message))]
  end.

(** The event type, tool and payload of each call of [Loop.event]. *)
Definition loop_payload (e : loop_event) : string * string * json :=
  match e with
  | LDecision i artifact => (EventDecision, "", JObj [("artifact", artifact); ("iteration", JNum (Itoa i))])
  | LToolCall tool args report => (EventToolCall, tool, JObj [("request", args); ("response", report)])
  | LError tool kind message =>
      (EventError, tool, JObj [("kind", JStr (json_string kind)); ("message", JStr (json_string message))])
  | LTierRefused tool err message => (EventError, tool, tierRefusalPayload err message)
  | LOutcome outcome iterations spend =>
      (EventOutcome, "", JObj [("iterations", JNum (Itoa iterations)); ("outcome", JStr (json_string outcome));
                               ("token_spend", JNum (Itoa spend))])
  end.

Definition Loop_event (f : faults) (now : Z) (RunId Actor Tier : string) (e : loop_event) (db : Store) : Store :=
  let '(eventType, toolName, payload) := loop_payload e in
  (Append_auto f now (mkEvent RunId eventType Actor Tier toolName payload) db).2.
End operations.
