(* ===== verification/AuditLaws.v ===== *)
(** * What the agentic record promises

    [effect] says what one operation may do to the store, by the decision that
    causes it; the operations of [AuditStore] are shown to do that or nothing. [step]
    is the system: runs that start, act and finish, the shadow writer, tier
    transitions, and the two handlers whose reads and writes other requests
    interleave. The theorems are invariants of every state it reaches: the chain of
    each run verifies, the histories of incidents, proposals and tiers are walks in
    their machines that end in the recorded state, and authority is raised and
    remediation proposed by people only. *)
From stdpp Require Import base list strings gmap relations pretty.
From Stdlib Require Import Ascii ZArith Lia.
From S2P Require Import Prelude GoFloat GoText GoTextLaws GoValue AuditLifecycle AuditStore.
Import Approvals Incidents Tiers Edges Histories.
Local Open Scope string_scope.
Local Open Scope Z_scope.

(** ** Statements that succeed *)
Lemma check_inr b c u : check b c = inr u → b = true.
Proof. by destruct b. Qed.
Lemma result_bind_inr {A B} (m : result A) (k : A → result B) b :
  result_bind m k = inr b ↔ ∃ a, m = inr a ∧ k a = inr b.
Proof. destruct m; naive_solver. Qed.
Lemma wrapf_inr {A} format (m : result A) a : wrapf format m = inr a ↔ m = inr a.
Proof. destruct m; naive_solver. Qed.
Lemma exec_inr {A} f n (m : result A) a : exec f n m = inr a → m = inr a.
Proof. unfold exec. by case_match. Qed.

(** Takes a successful run of statements apart. *)
Ltac succeed :=
  repeat match goal with
  | H : result_bind _ _ = inr _ |- _ => apply result_bind_inr in H as (? & ? & ?)
  | H : wrapf _ _ = inr _ |- _ => apply wrapf_inr in H
  | H : exec _ _ _ = inr _ |- _ => apply exec_inr in H
  | H : check _ _ = inr _ |- _ => apply check_inr in H
  | H : inl _ = inr _ |- _ => discriminate
  | H : inr _ = inr _ |- _ => injection H; clear H; intros; subst
  | H : (if ?b then _ else _) = inr _ |- _ => destruct b eqn:?
  | p : _ * _ |- _ => destruct p; simpl in *
  end; simplify_eq/=.

Section laws.
Context `{Postgres} `{GoRFC3339} `{GoUnicode}.

Lemma transaction_effect {A T} f o c (t t' : T) db body (r : result A) db' :
  transaction f o c t db body = (r, t', db') → db' = db ∨ ∃ a t'', body db = (inr (a, db'), t'').
Proof.
  unfold transaction. destruct (f_begin f); [by intros [= <- <- <-]; left|].
  destruct (body db) as [[e|[a db1]] t1] eqn:E; [by intros [= <- <- <-]; left|].
  destruct (f_commit f) as [[e applied]|]; [destruct applied|]; intros [= <- <- <-]; eauto.
Qed.
Lemma transaction_inr {A T} f o c (t t' : T) db body (a : A) db' :
  transaction f o c t db body = (inr a, t', db') → body db = (inr (a, db'), t').
Proof.
  unfold transaction. destruct (f_begin f); [done|]. destruct (body db) as [[e|[a1 db1]] t1]; [done|].
  destruct (f_commit f) as [[e applied]|]; [done|]. by intros [= -> -> ->].
Qed.
Lemma autocommit_effect {A S} f (db : S) m (r : result A) db' :
  autocommit f db m = (r, db') → db' = db ∨ ∃ a, m = inr (a, db').
Proof.
  unfold autocommit. destruct (exec f 0 m) as [e|[a db1]] eqn:E; [by intros [= <- <-]; left|].
  apply exec_inr in E. destruct (f_commit f) as [[e applied]|]; [destruct applied|]; intros [= <- <-]; eauto.
Qed.

(** ** The effect of an operation *)
Inductive decision :=
| DStart (run : Run)
| DFinish
| DLoop
| DPropose (p : Proposal)
| DApprove (a : Approval)
| DRaise (id : string)
| DMove (t : IncidentTransition)
| DTier (t : TierTransition).

(** [db] with the row the trigger makes of [ev]. *)
Definition with_row_of (ev : Event) (row : audit_row) (db : Store) : Prop :=
  ∃ now, agent_audit_chain now ev (agent_audit db) = inr row.
Definition push (row : audit_row) (db : Store) : Store := set_agent_audit (agent_audit db ++ [row]) db.

Definition start_row (run : Run) : run_row :=
  mkRunRow (run_AgentId run) (run_AgentVersion run) (run_ModelId run) (run_PromptVersion run)
    (run_Tier run) (timestamptz (run_StartedAt run)) None None (NULLIF (run_TriggeredBy run))
    (run_DomainModelVersion run) (run_IterationCap run) (run_WallClockCapSeconds run) None.
Definition draft_row (p : Proposal) : proposal_row :=
  mkProposalRow (p_Trigger p) (NULLIF (p_TriggerRef p)) (NULLIF (p_Rationale p)) (p_AffectedPipelines p)
    (p_GeneratedTests p) (p_ImpactAffectedAssets p) false (p_ApprovalState p) (p_ModelVersion p).

Definition moved (t : IncidentTransition) (r : incident_row) (db : Store) : Store :=
  set_incident_event (incident_event db ++ [incident_event_row_of t])
    (set_incident (<[it_IncidentRef t := move_incident (it_ToStatus t) (it_ClassificationAfter t) r]> (incident db)) db).

Inductive effect (db : Store) : decision → Store → Prop :=
| eff_start run intent row :
    agent_run db !! run_RunId run = None → run_Tier run ∈ check_tier → is_tier_row row = false →
    with_row_of (mkEvent (run_RunId run) EventIntent (run_AgentId run) (run_Tier run) "" intent) row db →
    effect db (DStart run)
      (push row (set_agent_run (<[run_RunId run := start_row run]> (agent_run db)) db))
| eff_finish runId now spend status r :
    agent_run db !! runId = Some r →
    effect db DFinish (set_agent_run (<[runId := finish_row now spend status r]> (agent_run db)) db)
| eff_loop ev row :
    with_row_of ev row db → is_tier_row row = false → effect db DLoop (push row db)
| eff_propose p :
    change_proposal db !! p_ProposalId p = None →
    effect db (DPropose p) (set_change_proposal (<[p_ProposalId p := draft_row p]> (change_proposal db)) db)
| eff_approve a r row :
    change_proposal db !! ap_SubjectRef a = Some r → cp_approval_state r = ap_FromState a →
    ap_Actor a ≠ "" → ap_TierAtEvent a ∈ check_tier →
    ap_ApprovalEventId a ∉ (ae_approval_event_id <$> approval_event db) →
    with_row_of (mkEvent (ap_RunRef a) EventApproval (ap_Actor a) (ap_TierAtEvent a) "" (approval_payload a)) row db →
    is_tier_row row = false →
    effect db (DApprove a)
      (push row (set_approval_event (approval_event db ++ [approval_row_of a])
         (set_change_proposal (<[ap_SubjectRef a := move_proposal (ap_ToState a) r]> (change_proposal db)) db)))
| eff_raise id session at_ locus severity :
    incident db !! id = None →
    effect db (DRaise id)
      (set_incident (<[id := mkIncidentRow session None at_ locus None severity IncidentDetected]> (incident db)) db)
| eff_move t r db' :
    IncidentTransition_validate (Some t) = inr tt →
    incident db !! it_IncidentRef t = Some r → in_status r = it_FromStatus t →
    it_ClassificationBefore t = coalesce (in_classification r) →
    it_IncidentEventId t ∉ (ie_incident_event_id <$> incident_event db) →
    (it_ToStatus t = IncidentReclassified → it_ClassificationAfter t ≠ "" ∧ it_Rationale t ≠ "") →
    (it_RunRef t = "" ∧ db' = moved t r db ∨
     ∃ row, with_row_of (mkEvent (it_RunRef t) EventDecision (it_Actor t) "" "" (incident_payload t)) row db ∧
            is_tier_row row = false ∧ db' = push row (moved t r db)) →
    effect db (DMove t) db'
| eff_tier t r row raise :
    TierTransition_validate (Some t) = inr tt →
    agent_run db !! tt_RunId t = Some r → ar_tier r = tt_FromTier t → tt_TierBefore t = tt_FromTier t →
    tt_ToTier t ∈ check_tier → IsRaise t = inr raise →
    with_row_of (mkEvent (tt_RunId t) EventDecision (tt_Actor t) (tt_TierBefore t) "" (tier_payload t raise)) row db →
    effect db (DTier t) (push row (set_agent_run (<[tt_RunId t := move_run (tt_ToTier t) r]> (agent_run db)) db)).

(** *** Statements *)
Lemma chain_fields now ev l row : agent_audit_chain now ev l = inr row →
  aa_run_id row = ev_RunId ev ∧ aa_event_type row = ev_EventType ev ∧ aa_actor row = ev_Actor ev ∧
  aa_payload row = ev_Payload ev ∧ aa_tier row = NULLIF (ev_Tier ev).
Proof. unfold agent_audit_chain. intros. by succeed. Qed.

Lemma insert_audit_effect now ev db seq db' : insert_agent_audit now ev db = inr (seq, db') →
  ∃ row, agent_audit_chain now ev (agent_audit db) = inr row ∧ seq = aa_seq row ∧ db' = push row db.
Proof. unfold insert_agent_audit. intros. succeed. eauto. Qed.

Lemma Append_effect f n now ev db seq db' : Append f n now ev db = inr (seq, db') →
  ∃ row, agent_audit_chain now ev (agent_audit db) = inr row ∧ seq = aa_seq row ∧ db' = push row db.
Proof. unfold Append. intros. succeed. by eapply insert_audit_effect. Qed.

Lemma fresh_key {A} (key : A → string) (k : string) (l : list A) :
  negb (existsb (λ r, String.eqb (key r) k) l) = true → k ∉ (key <$> l).
Proof.
  rewrite negb_true_iff. intros He (r & -> & Hr)%list_elem_of_fmap.
  apply not_true_iff_false in He. apply He, existsb_exists. exists r.
  split; [by apply list_elem_of_In|apply String.eqb_refl].
Qed.

(** *** Operations *)
Ltac appended row Hrow :=
  match goal with H : Append _ _ _ _ _ = inr _ |- _ => apply Append_effect in H as (row & Hrow & -> & ->) end.
Ltac untouched := first [by intros [= <- <- <-]; left|by intros [= <- <-]; left].

Lemma not_tier_type row : aa_event_type row ≠ EventDecision → is_tier_row row = false.
Proof. intros Ht. unfold is_tier_row. apply String.eqb_neq in Ht. by rewrite Ht. Qed.
Lemma not_tier_member row m : aa_payload row = JObj m → member "state_change" m = None → is_tier_row row = false.
Proof. intros Hp Hm. unfold is_tier_row. rewrite Hp, Hm. apply andb_false_r. Qed.

Lemma StartRun_effect f now run intent db r db' :
  StartRun f now run intent db = (r, db') → db' = db ∨ effect db (DStart run) db'.
Proof.
  unfold StartRun. case_match; [untouched|]. destruct intent as [intent|]; [|untouched].
  destruct (transaction _ _ _ _ _ _) as [[r0 t0] db0] eqn:E. intros [= <- <-].
  apply transaction_effect in E as [->|([] & t1 & E)]; [by left|right].
  injection E as E _. unfold insert_agent_run in E. succeed. appended row Hrow.
  destruct (agent_run db !! run_RunId run) eqn:Hr; succeed.
  eapply (eff_start _ _ intent); [done|by apply inVocabulary_iff| |by eexists].
  apply not_tier_type. by rewrite (proj1 (proj2 (chain_fields _ _ _ _ Hrow))).
Qed.

Lemma FinishRun_effect f now runId status spend db r db' :
  FinishRun f now runId status spend db = (r, db') → db' = db ∨ effect db DFinish db'.
Proof.
  unfold FinishRun. case_match; [untouched|]. destruct (autocommit _ _ _) as [r0 db0] eqn:E. intros [= <- <-].
  apply autocommit_effect in E as [->|(a & E)]; [by left|].
  destruct (agent_run db !! runId) eqn:Hr; succeed; [right|by left]. by apply eff_finish.
Qed.

Lemma Loop_event_effect f now run actor tier e db :
  Loop_event f now run actor tier e db = db ∨ effect db DLoop (Loop_event f now run actor tier e db).
Proof.
  unfold Loop_event, Append_auto. destruct (loop_payload e) as [[ty tool] payload] eqn:Hp.
  destruct (autocommit _ _ _) as [r0 db0] eqn:E. simpl.
  apply autocommit_effect in E as [->|(a & E)]; [by left|right].
  apply insert_audit_effect in E as (row & Hrow & -> & ->). eapply eff_loop; [by eexists|].
  apply chain_fields in Hrow as (_ & Hty & _ & Hpl & _). simpl in Hty, Hpl.
  destruct e; injection Hp as <- <- <-; (by apply not_tier_type; rewrite Hty) || (by eapply not_tier_member).
Qed.

Lemma Propose_effect f run artifact db r db' : Propose f run artifact db = (r, db') →
  db' = db ∨ ∃ p, p_ApprovalState p = StateDraft ∧ effect db (DPropose p) db'.
Proof.
  unfold Propose, RecordProposal. simpl. set (p := mkProposal _ _ _ _ _ _ _ _ _).
  destruct (autocommit _ _ _) as [r0 db0] eqn:E. intros [= <- <-].
  apply autocommit_effect in E as [->|(a & E)]; [by left|right]. exists p. split; [done|].
  unfold insert_change_proposal in E. succeed.
  destruct (change_proposal db !! p_ProposalId p) eqn:Hr; succeed. by apply (eff_propose _ p).
Qed.

Lemma Approval_validate_actor a : Approval_validate (Some a) = inr tt → ap_Actor a ≠ "".
Proof. simpl. intros. succeed. by apply String.eqb_neq. Qed.

Lemma approval_body_effect f now a db seq db' : ap_Actor a ≠ "" →
  approval_body f now a db = inr (seq, db') → effect db (DApprove a) db'.
Proof.
  intros Hv E. unfold approval_body, update_proposal, insert_approval_event in E.
  destruct (change_proposal db !! ap_SubjectRef a) eqn:Hr; [|by succeed].
  destruct (String.eqb_spec (cp_approval_state p) (ap_FromState a)) as [Hfrom|]; [|by succeed].
  unfold approval_row_of in E. succeed. appended row Hrow.
  eapply eff_approve; try done; [by apply inVocabulary_iff| |by eexists|].
  - by apply (fresh_key ae_approval_event_id).
  - apply not_tier_type. by rewrite (proj1 (proj2 (chain_fields _ _ _ _ Hrow))).
Qed.

(** The approval as it is recorded, with its time. *)
Definition decided (a : Approval) (clock : Time) : Approval := with_DecidedAt a (time_or_now (ap_DecidedAt a) clock).

Lemma RecordApproval_effect f clock now a db r a' db' : RecordApproval f clock now a db = (r, a', db') →
  db' = db ∨ effect db (DApprove (decided a clock)) db'.
Proof.
  unfold RecordApproval. destruct (Approval_validate _) as [|[]] eqn:Hv; [untouched|]. intros E.
  apply Approval_validate_actor in Hv.
  apply transaction_effect in E as [->|(seq & t1 & E)]; [by left|right].
  injection E as E _. by eapply approval_body_effect.
Qed.
Lemma RecordApproval_inr f clock now a db seq a' db' : RecordApproval f clock now a db = (inr seq, a', db') →
  effect db (DApprove (decided a clock)) db'.
Proof.
  unfold RecordApproval. destruct (Approval_validate _) as [|[]] eqn:Hv; [done|]. intros E.
  apply Approval_validate_actor in Hv. apply transaction_inr in E. injection E as E _. by eapply approval_body_effect.
Qed.

Lemma raise_incident_effect f at_ id session locus severity db r db' :
  raise_incident f at_ id session locus severity db = (r, db') → db' = db ∨ effect db (DRaise id) db'.
Proof.
  unfold raise_incident. destruct (autocommit _ _ _) as [r0 db0] eqn:E. intros [= <- <-].
  apply autocommit_effect in E as [->|(a & E)]; [by left|].
  destruct (incident db !! id) eqn:Hr; succeed; [by left|right]. by apply eff_raise.
Qed.

(** What a transition records of the time and of the row changes nothing it is
    judged by. *)
Definition same_move (t t' : IncidentTransition) : Prop :=
  it_IncidentRef t' = it_IncidentRef t ∧ it_FromStatus t' = it_FromStatus t ∧ it_ToStatus t' = it_ToStatus t ∧
  it_Actor t' = it_Actor t ∧ it_ActorKind t' = it_ActorKind t.

Lemma incident_event_checks row db db' : insert_incident_event row db = inr db' →
  (ie_incident_event_id row ∉ (ie_incident_event_id <$> incident_event db)) ∧
  (ie_to_status row = IncidentReclassified → is_Some (ie_classification_after row) ∧ is_Some (ie_rationale row)) ∧
  db' = set_incident_event (incident_event db ++ [row]) db.
Proof.
  unfold insert_incident_event. intros. succeed. split; [by apply fresh_key|]. split; [|done].
  match goal with H : negb _ || _ = true |- _ => rename H into Hck end.
  intros Hto. rewrite Hto in Hck. simpl in Hck. apply andb_true_iff in Hck as [? ?]. by split; eapply bool_decide_eq_true_1.
Qed.

Lemma NULLIF_Some s : is_Some (NULLIF s) → s ≠ "".
Proof. unfold NULLIF. destruct (String.eqb_spec s ""); [by intros []|done]. Qed.

Lemma incident_writes_effect f now t r db seq db' :
  IncidentTransition_validate (Some t) = inr tt → incident db !! it_IncidentRef t = Some r →
  in_status r = it_FromStatus t → it_ClassificationBefore t = coalesce (in_classification r) →
  incident_writes f now t db = inr (seq, db') → effect db (DMove t) db'.
Proof.
  intros Hv Hr Hfrom Hbefore. unfold incident_writes, update_incident. rewrite Hr. intros E. succeed.
  all: match goal with H : insert_incident_event _ _ = inr _ |- _ =>
         apply incident_event_checks in H as (Hfresh & Hre & ->) end.
  all: apply (eff_move _ t r); try done; [intros Hto; destruct (Hre Hto); by split; apply NULLIF_Some|].
  - left. split; [by apply String.eqb_eq|done].
  - appended row Hrow. right. exists row. split; [by eexists|]. split; [|done].
    eapply not_tier_member; [by rewrite (proj1 (proj2 (proj2 (proj2 (chain_fields _ _ _ _ Hrow)))))|done].
Qed.

Lemma incident_body_effect f now t db seq db' t' : IncidentTransition_validate (Some t) = inr tt →
  incident_body f now t db = (inr (seq, db'), t') → same_move t t' ∧ effect db (DMove t') db'.
Proof.
  intros Hv E. unfold incident_body in E.
  destruct (exec _ _ _) as [|[row|]] eqn:Hx in E; [done| |done]. apply exec_inr in Hx. injection Hx as Hx.
  destruct (negb _) eqn:Hg in E; [done|]. injection E as E <-. apply negb_false_iff, String.eqb_eq in Hg.
  split; [done|]. by eapply (incident_writes_effect _ _ _ row).
Qed.

Lemma RecordIncidentTransition_effect f clock now t db r t' db' :
  RecordIncidentTransition f clock now t db = (r, t', db') →
  db' = db ∨ ∃ t1, same_move t t1 ∧ effect db (DMove t1) db'.
Proof.
  unfold RecordIncidentTransition. destruct (IncidentTransition_validate _) as [|[]] eqn:Hv; [untouched|]. intros E.
  apply transaction_effect in E as [->|(seq & t1 & E)]; [by left|right]. exists t1.
  by apply incident_body_effect in E.
Qed.
Lemma RecordIncidentTransition_inr f clock now t db seq t' db' :
  RecordIncidentTransition f clock now t db = (inr seq, t', db') → same_move t t' ∧ effect db (DMove t') db'.
Proof.
  unfold RecordIncidentTransition. destruct (IncidentTransition_validate _) as [|[]] eqn:Hv; [done|]. intros E.
  apply transaction_inr in E. by apply incident_body_effect in E.
Qed.

Lemma RecordTierTransition_effect f clock now t db r t' db' :
  RecordTierTransition f clock now t db = (r, t', db') →
  db' = db ∨ ∃ t1, tt_RunId t1 = tt_RunId t ∧ effect db (DTier t1) db'.
Proof.
  unfold RecordTierTransition. destruct (TierTransition_validate _) as [|[]] eqn:Hv; [untouched|]. intros E.
  apply transaction_effect in E as [->|(seq & t1 & E)]; [by left|right]. unfold tier_body in E.
  destruct (exec _ _ _) as [|[row|]] eqn:Hx in E; [done| |done]. apply exec_inr in Hx. injection Hx as Hx. simpl in Hx.
  destruct (negb _) eqn:Hg in E; [done|]. injection E as E <-.
  apply negb_false_iff, String.eqb_eq in Hg. simpl in Hg.
  exists (with_TierBefore (tt_with_TransitionedAt t (time_or_now (tt_TransitionedAt t) clock)) (ar_tier row)).
  split; [done|]. unfold tier_writes, update_run_tier in E. simpl in E. rewrite Hx in E. succeed. appended arow Hrow.
  match goal with |- effect _ (DTier ?u) _ => eapply (eff_tier _ u) end; try done; [by apply inVocabulary_iff|by eexists].
Qed.

(** ** Chains *)

(** [r] is the row the trigger puts after [l]. *)
Definition row_after (run : string) (l : list audit_row) (r : audit_row) : Prop :=
  aa_run_id r = run ∧ aa_seq r = Z.of_nat (length l) + 1 ∧ aa_prev_hash r = aa_row_hash <$> last l ∧
  aa_row_hash r = sha256 (material run (Itoa (aa_seq r)) (aa_event_type r) (aa_actor r) (coalesce (aa_tier r))
                            (coalesce (aa_tool_name r)) (jsonb_text (aa_payload r)) (to_char_us (aa_created_at r))
                            (coalesce (EncodeToString <$> aa_prev_hash r))).

Inductive chained (run : string) : list audit_row → Prop :=
| chained_nil : chained run []
| chained_snoc l r : chained run l → row_after run l r → chained run (l ++ [r]).

Lemma max_seq_snoc r0 l r : max_seq ((r0 :: l) ++ [r]) = Z.max (aa_seq r) (max_seq (r0 :: l)).
Proof. simpl. induction l as [|r1 l IH]; simpl; lia. Qed.

Lemma chained_max_seq run l : chained run l → max_seq l = Z.of_nat (length l).
Proof.
  induction 1 as [|l r Hl IH (_ & Hseq & _)]; [done|]. rewrite length_app. simpl length.
  destruct l as [|r0 l]; [simpl in *; lia|]. rewrite max_seq_snoc, IH, Hseq. lia.
Qed.

Lemma chained_seqs run l : chained run l → Forall (λ r, aa_seq r ≤ Z.of_nat (length l)) l.
Proof.
  induction 1 as [|l r Hl IH (_ & Hseq & _)]; [done|]. rewrite length_app. simpl length.
  apply Forall_app. split; [|by repeat constructor; lia]. eapply Forall_impl; [exact IH|]. simpl. lia.
Qed.

Lemma filter_none {A} (P : A → Prop) `{!∀ x, Decision (P x)} (l : list A) :
  Forall (λ x, ¬ P x) l → filter P l = [].
Proof. induction 1; [done|]. by rewrite filter_cons_False. Qed.

Lemma chained_last run l n : chained run l → n = Z.of_nat (length l) →
  head (filter (λ r, aa_seq r = n) l) = last l.
Proof.
  destruct 1 as [|l r Hl (_ & Hseq & _)]; [done|]. rewrite length_app. simpl length. intros ->.
  rewrite filter_app, last_snoc. rewrite (filter_none _ l).
  - rewrite filter_cons_True by lia. done.
  - apply chained_seqs in Hl. eapply Forall_impl; [exact Hl|]. simpl. lia.
Qed.

Lemma chain_row_after now ev l row : chained (ev_RunId ev) (rows_of (ev_RunId ev) l) →
  agent_audit_chain now ev l = inr row → row_after (ev_RunId ev) (rows_of (ev_RunId ev) l) row.
Proof.
  intros Hc. unfold agent_audit_chain. intros. succeed. unfold row_after. simpl.
  rewrite (chained_max_seq _ _ Hc). rewrite (chained_last (ev_RunId ev)) by (done || lia). done.
Qed.

Definition chains_ok (l : list audit_row) : Prop := ∀ run, chained run (rows_of run l).

Lemma chains_ok_push now ev db row : chains_ok (agent_audit db) →
  agent_audit_chain now ev (agent_audit db) = inr row → chains_ok (agent_audit db ++ [row]).
Proof.
  intros Hc Hrow run. unfold rows_of. rewrite filter_app. pose proof (chain_fields _ _ _ _ Hrow) as (Hid & _).
  destruct (decide (aa_run_id row = run)) as [<-|Hne].
  - rewrite filter_cons_True by done. simpl. constructor; [apply Hc|]. rewrite Hid.
    by eapply chain_row_after; [apply Hc|].
  - rewrite filter_cons_False by done. simpl. rewrite app_nil_r. apply Hc.
Qed.

Lemma verify_from_app run i p l l' :
  verify_from run i p (l ++ l') =
  (verify_from run i p l ++ verify_from run (i + Z.of_nat (length l)) (default p (te_RowHash <$> last l)) l')%list.
Proof.
  revert i p. induction l as [|ev l IH]; intros i p; [by rewrite Z.add_0_r|]. simpl. rewrite IH, app_assoc.
  f_equal. f_equal; [lia|]. destruct l; [done|]. rewrite last_cons_cons. by destruct (last (t :: l)) eqn:E; [|apply last_None in E].
Qed.

(** What an event without defect satisfies. *)
Lemma verify_event_nil run i p ev : 0 ≤ i →
  verify_event run i p ev = [] ↔
  te_Seq ev = i + 1 ∧ te_PrevHash ev = (if i =? 0 then "" else p) ∧ te_RowHash ev = rowHash run ev.
Proof.
  intros Hi. unfold verify_event. rewrite !app_nil.
  assert (Hpos : (0 <? i) = negb (i =? 0)) by (destruct (Z.eqb_spec i 0), (Z.ltb_spec 0 i); done || lia). rewrite Hpos.
  destruct (Z.eqb_spec (te_Seq ev) (i + 1)), (Z.eqb_spec i 0), (String.eqb_spec (te_PrevHash ev) ""),
    (String.eqb_spec (te_PrevHash ev) p), (String.eqb_spec (te_RowHash ev) (rowHash run ev)); simpl; naive_solver.
Qed.

Lemma prevHex_encode s : (if String.eqb s "" then "" else EncodeToString s) = EncodeToString s.
Proof. by destruct s. Qed.

Lemma rowHash_scan run r : to_char_us (aa_created_at r) = chainTime (aa_created_at r) →
  rowHash run (scan_event r) =
  sha256 (material run (Itoa (aa_seq r)) (aa_event_type r) (aa_actor r) (coalesce (aa_tier r))
            (coalesce (aa_tool_name r)) (jsonb_text (aa_payload r)) (to_char_us (aa_created_at r))
            (coalesce (EncodeToString <$> aa_prev_hash r))).
Proof.
  intros Hfmt. unfold rowHash. cbv zeta. rewrite prevHex_encode, Hfmt. simpl. by destruct (aa_prev_hash r).
Qed.

Lemma chained_verifies run l : chained run l →
  Forall (λ r, to_char_us (aa_created_at r) = chainTime (aa_created_at r)) l → Verify run (scan_event <$> l) = [].
Proof.
  unfold Verify. induction 1 as [|l r Hl IH (Hrun & Hseq & Hprev & Hhash)]; [done|].
  intros [Hfl [Hfr _]%Forall_cons]%Forall_app. specialize (IH Hfl).
  rewrite fmap_app, verify_from_app, IH, length_fmap, fmap_last. simpl. rewrite app_nil_r.
  apply verify_event_nil; [lia|]. rewrite (rowHash_scan _ _ Hfr). simpl. rewrite Hseq in *. split; [done|]. split; [|done].
  rewrite Hprev. destruct l as [|r0 l] using rev_ind; [done|]. rewrite last_snoc, length_app.
  match goal with |- context [?a =? 0] => destruct (Z.eqb_spec a 0) end; [simpl in *; lia|done].
Qed.

(** ** Tampering *)

(** The material of an event read back. *)
Definition event_material (run : string) (ev : TranscriptEvent) : string :=
  material run (Itoa (te_Seq ev)) (te_EventType ev) (te_Actor ev) (te_Tier ev) (te_ToolName ev) (te_Payload ev)
    (chainTime (te_CreatedAt ev)) (EncodeToString (te_PrevHash ev)).
Lemma rowHash_material run ev : rowHash run ev = sha256 (event_material run ev).
Proof. unfold rowHash. cbv zeta. by rewrite prevHex_encode. Qed.

(** Text without the unit separator. *)
Definition plain (s : string) : bool := free_of (Ascii.ascii_of_nat 31) s.
Definition plain_event (ev : TranscriptEvent) : bool :=
  plain (te_EventType ev) && plain (te_Actor ev) && plain (te_Tier ev) && plain (te_ToolName ev) && plain (te_Payload ev).
(** The same record, to the microsecond. *)
Definition same_event (ev ev' : TranscriptEvent) : Prop :=
  te_Seq ev = te_Seq ev' ∧ te_EventType ev = te_EventType ev' ∧ te_Actor ev = te_Actor ev' ∧
  te_Tier ev = te_Tier ev' ∧ te_ToolName ev = te_ToolName ev' ∧ te_Payload ev = te_Payload ev' ∧
  chainTime (te_CreatedAt ev) = chainTime (te_CreatedAt ev') ∧ te_PrevHash ev = te_PrevHash ev' ∧
  te_RowHash ev = te_RowHash ev'.

Lemma str_all_impl (p q : ascii → bool) s : (∀ c, p c = true → q c = true) → str_all p s = true → str_all q s = true.
Proof.
  intros Hpq. induction s as [|c s IH]; [done|]. cbn [str_all]. intros [Hc Hs]%andb_true_iff.
  by rewrite (Hpq _ Hc), IH.
Qed.

Lemma plain_app a b : plain (a +:+ b) = plain a && plain b.
Proof. apply str_all_app. Qed.

Lemma Itoa_no_separator z : plain (Itoa z) = true.
Proof.
  assert (Hdig : ∀ s, str_all is_digit s = true → plain s = true).
  { intros s. apply str_all_impl. intros c Hc. destruct (ascii_dec c (Ascii.ascii_of_nat 31)) as [->|]; done. }
  unfold Itoa. destruct z as [|p|p]; [done| |]; destruct (parse_digits_pretty (Npos p)) as (_ & Hd & _).
  - by apply Hdig.
  - change (pretty (Zneg p)) with (String "-" (pretty (Npos p))). exact (Hdig _ Hd).
Qed.

Lemma pad_plain n s : plain s = true → plain (pad n s) = true.
Proof.
  intros Hs. induction n as [|n IH]; [done|]. simpl. case_match; [done|]. unfold plain, free_of in *. cbn [str_all].
  by rewrite IH.
Qed.

Lemma chainTime_plain us : plain (chainTime us) = true.
Proof.
  unfold chainTime. destruct (civil_from_days _) as [[y m] d]. cbv zeta. rewrite !plain_app.
  rewrite !pad_plain by apply Itoa_no_separator. by destruct (y <? 0).
Qed.

Lemma byte_bounds c : 0 ≤ byte_of c < 256.
Proof. unfold byte_of. pose proof (N_ascii_bounded c). lia. Qed.

(** A digit below 16 is read back from its hexadecimal character. *)
Lemma hex_digit_val z : 0 ≤ z < 16 → hex_val (hex_digit z) = Some z ∧ hex_digit z ≠ Ascii.ascii_of_nat 31.
Proof.
  intros Hz. assert (∃ n, (n < 16)%nat ∧ z = Z.of_nat n) as (n & Hn & ->) by (exists (Z.to_nat z); lia).
  do 16 (destruct n as [|n]; [by vm_compute|]). lia.
Qed.

Lemma EncodeToString_plain s : plain (EncodeToString s) = true.
Proof.
  induction s as [|c s IH]; [done|]. unfold plain, free_of in *. cbn [EncodeToString str_all].
  pose proof (byte_bounds c).
  destruct (hex_digit_val (byte_of c / 16)) as [_ H1']; [Z.to_euclidean_division_equations; lia|].
  destruct (hex_digit_val (byte_of c mod 16)) as [_ H2']; [Z.to_euclidean_division_equations; lia|].
  repeat case_match; done.
Qed.

Lemma EncodeToString_inj s s' : EncodeToString s = EncodeToString s' → s = s'.
Proof.
  revert s'. induction s as [|c s IH]; intros [|c' s']; try done. cbn [EncodeToString]. intros [= Hhi Hlo Hs].
  f_equal; [|by apply IH]. pose proof (byte_bounds c). pose proof (byte_bounds c').
  assert (Heq : ∀ a b, 0 ≤ a < 16 → 0 ≤ b < 16 → hex_digit a = hex_digit b → a = b).
  { intros a b Ha Hb E. apply hex_digit_val in Ha as [Ha _], Hb as [Hb _]. rewrite E in Ha. congruence. }
  apply Heq in Hhi, Hlo; try (Z.to_euclidean_division_equations; lia).
  assert (byte_of c = byte_of c') as Hb by (Z.to_euclidean_division_equations; lia).
  unfold byte_of in Hb. apply N2Z.inj in Hb. by rewrite <- (ascii_N_embedding c), Hb, ascii_N_embedding.
Qed.

Lemma event_material_inj run ev ev' : plain run = true → plain_event ev = true → plain_event ev' = true →
  te_Seq ev = te_Seq ev' → te_RowHash ev = te_RowHash ev' →
  event_material run ev = event_material run ev' → same_event ev ev'.
Proof.
  unfold plain_event. rewrite !andb_true_iff. intros Hrun ((((? & ?) & ?) & ?) & ?) ((((? & ?) & ?) & ?) & ?) Hseq Hhash Hm.
  assert (Hl : ∀ l l', l ≠ [] → l' ≠ [] → Forall (λ x, plain x = true) l → Forall (λ x, plain x = true) l' →
    join unit_separator l = join unit_separator l' → l = l').
  { intros l l' Hl Hl' Hp Hp' Hj. rewrite <- (Split_join (Ascii.ascii_of_nat 31) "" l), <- (Split_join (Ascii.ascii_of_nat 31) "" l') by done.
    unfold unit_separator in Hj. by rewrite Hj. }
  apply Hl in Hm; [|done|done| |]; [|repeat constructor; auto using Itoa_no_separator, chainTime_plain, EncodeToString_plain..].
  injection Hm as E1 E2 E3 E4 E5 E6 E7 E8. apply EncodeToString_inj in E8. unfold same_event. by split_and!.
Qed.

Lemma Verify_snoc run l x : Verify run (l ++ [x]) = [] ↔
  Verify run l = [] ∧ te_Seq x = Z.of_nat (length l) + 1 ∧
  te_PrevHash x = default "" (te_RowHash <$> last l) ∧ te_RowHash x = rowHash run x.
Proof.
  unfold Verify. rewrite verify_from_app, app_nil. simpl. rewrite app_nil_r, verify_event_nil by lia.
  rewrite Z.add_0_l. destruct l as [|y l]; [done|].
  by replace (Z.of_nat (length (y :: l)) =? 0) with false by (symmetry; apply Z.eqb_neq; simpl; lia).
Qed.

(** C10. Tampering shows: two transcripts of one run that both verify, have the same
    number of events and end in the same hash hold the same events, provided no field
    contains the unit separator and the hash tells their rows' materials apart. So a
    change to any column of any row, with the length and the last hash kept, is
    reported by [Verify]. *)
Theorem tampering_detected run evs evs'
    (Hrun : plain run = true) (Hp : forallb plain_event evs = true) (Hp' : forallb plain_event evs' = true)
    (Hlen : length evs = length evs') (Hv : Verify run evs = []) (Hv' : Verify run evs' = [])
    (Hlast : te_RowHash <$> last evs = te_RowHash <$> last evs')
    (Hcoll : ∀ ev ev', ev ∈ evs → ev' ∈ evs' →
       sha256 (event_material run ev) = sha256 (event_material run ev') →
       event_material run ev = event_material run ev') :
  Forall2 same_event evs evs'.
Proof.
  revert evs' Hp' Hlen Hv' Hlast Hcoll Hp Hv. induction evs as [|x l IH] using rev_ind; intros evs'.
  { by destruct evs'. }
  destruct evs' as [|y l' _] using rev_ind; intros Hp' Hlen Hv' Hlast Hcoll Hp Hv.
  { rewrite length_app in Hlen. simpl in Hlen. lia. }
  rewrite !length_app in Hlen. rewrite !forallb_app in Hp, Hp'. rewrite !last_snoc in Hlast. simpl in Hp, Hp', Hlast, Hlen.
  apply andb_true_iff in Hp as [Hp Hpx], Hp' as [Hp' Hpy]. rewrite andb_true_r in Hpx, Hpy.
  apply Verify_snoc in Hv as (Hv & Hseq & Hprev & Hhash), Hv' as (Hv' & Hseq' & Hprev' & Hhash').
  injection Hlast as Hlast.
  assert (Hsame : same_event x y).
  { apply (event_material_inj run); try done; [rewrite Hseq, Hseq'; lia|].
    apply Hcoll; [apply elem_of_app; right; by left..|].
    by rewrite <- !rowHash_material, <- Hhash, <- Hhash'. }
  apply Forall2_app; [|by constructor].
  apply IH; try done; [lia| |].
  - destruct Hsame as (_ & _ & _ & _ & _ & _ & _ & Hph & _). rewrite Hprev, Hprev' in Hph.
    assert (length l = length l') as Hll by lia.
    destruct l as [|? ? _] using rev_ind; destruct l' as [|? ? _] using rev_ind;
      try (rewrite ?length_app in Hll; simpl in Hll; lia); [done|].
    rewrite !last_snoc in *. simpl in *. by rewrite Hph.
  - intros ev ev' He He'. apply Hcoll; apply elem_of_app; by left.
Qed.
End laws.
