(* ===== verification/AuditSystem.v ===== *)
(** * The system around the agentic record

    [step] interleaves everything that writes the record: runs that start, append
    to their chain, propose and finish; tier transitions; the shadow writer; and the
    handlers [recordApproval] and [recordIncidentTransition], whose reads may be
    stale by the time they write. A request that passed its checks stays in the
    state, so it may be written at any later time and any number of times. *)
From stdpp Require Import base list strings gmap relations.
From Stdlib Require Import Ascii ZArith Lia.
From S2P Require Import Prelude GoFloat GoText GoTextLaws GoValue AuditLifecycle AuditStore AuditLaws.
Import Approvals Incidents Tiers Edges Histories.
Local Open Scope string_scope.
Local Open Scope Z_scope.

Record Sys := mkSys {
  s_db : Store;
  s_checked : list (string * AgenticAction * Proposal);
  s_ready : list Approval;
  s_verdicts : list IncidentTransition }.
Definition with_db (db : Store) (s : Sys) : Sys := mkSys db (s_checked s) (s_ready s) (s_verdicts s).
Definition initial : Sys := mkSys empty_store [] [] [].

Section system.
Context `{Postgres} `{GoRFC3339} `{GoUnicode}.

Inductive step (s : Sys) : Sys → Prop :=
| step_start f now run instruction verifier cap :
    step s (with_db (StartRun f now run (Some (intentPayload instruction verifier cap)) (s_db s)).2 s)
| step_loop f now run actor tier e : step s (with_db (Loop_event f now run actor tier e (s_db s)) s)
| step_propose f run artifact : step s (with_db (Propose f run artifact (s_db s)).2 s)
| step_finish f now run status spend : step s (with_db (FinishRun f now run status spend (s_db s)).2 s)
| step_tier f clock now t : step s (with_db (RecordTierTransition f clock now t (s_db s)).2 s)
| step_raise f at_ id session locus severity :
    step s (with_db (raise_incident f at_ id session locus severity (s_db s)).2 s)
| step_shadow f clock now actor id from to at_ rationale :
    step s (with_db (moveTo f clock now actor id from to at_ rationale (s_db s)).2 s)
| step_approval_check f actor a p :
    recordApproval_check f actor a (s_db s) = inr p →
    step s (mkSys (s_db s) ((actor, a, p) :: s_checked s) (s_ready s) (s_verdicts s))
| step_approval_build f clock actor a p ap :
    (actor, a, p) ∈ s_checked s → recordApproval_build f clock actor a p (s_db s) = inr ap →
    step s (mkSys (s_db s) (s_checked s) (ap :: s_ready s) (s_verdicts s))
| step_approval_write f clock now ap :
    ap ∈ s_ready s → step s (with_db (recordApproval_write f clock now ap (s_db s)).2 s)
| step_verdict_build f clock actor a t :
    recordIncidentTransition_build f clock actor a (s_db s) = inr t →
    step s (mkSys (s_db s) (s_checked s) (s_ready s) (t :: s_verdicts s))
| step_verdict_write f clock now t :
    t ∈ s_verdicts s → step s (with_db (recordIncidentTransition_write f clock now t (s_db s)).2 s).

Definition reachable : Sys → Prop := rtc step initial.

(** ** What the requests in flight satisfy *)
Definition permitted (d : decision) : Prop :=
  match d with
  | DPropose p => p_ApprovalState p = StateDraft
  | DApprove a => TransitionAllowed (ap_FromState a) (ap_ToState a) = true
  | DMove t => it_ActorKind t = ActorAgent → IsShadowStatus (it_ToStatus t) = true
  | _ => True
  end.

Record requests_ok (s : Sys) : Prop := {
  checked_ok : ∀ actor a p, (actor, a, p) ∈ s_checked s → TransitionAllowed (p_ApprovalState p) (act_ToState a) = true;
  ready_ok : ∀ ap, ap ∈ s_ready s → TransitionAllowed (ap_FromState ap) (ap_ToState ap) = true;
  verdicts_ok : ∀ t, t ∈ s_verdicts s → it_ActorKind t = ActorHuman }.

Lemma recordApproval_check_allowed f actor a db p : recordApproval_check f actor a db = inr p →
  TransitionAllowed (p_ApprovalState p) (act_ToState a) = true.
Proof.
  unfold recordApproval_check. repeat case_match; intros; simplify_eq. by apply negb_false_iff.
Qed.
Lemma recordApproval_build_states f clock actor a p db ap : recordApproval_build f clock actor a p db = inr ap →
  ap_FromState ap = p_ApprovalState p ∧ ap_ToState ap = act_ToState a.
Proof. unfold recordApproval_build. case_match; intros; by simplify_eq. Qed.
Lemma recordIncidentTransition_build_human f clock actor a db t :
  recordIncidentTransition_build f clock actor a db = inr t → it_ActorKind t = ActorHuman.
Proof. unfold recordIncidentTransition_build. repeat case_match; intros; by simplify_eq. Qed.

Lemma requests_step s s' : requests_ok s → step s s' → requests_ok s'.
Proof.
  intros [Hc Hr Hv] Hstep. destruct Hstep; try (by split).
  - split; [|done..]. intros ac a' p' [[= -> -> ->]|?]%elem_of_cons; [|by eauto].
    by eapply recordApproval_check_allowed.
  - split; [done| |done]. intros ap' [->|?]%elem_of_cons; [|by eauto].
    edestruct recordApproval_build_states as [-> ->]; [done|by eapply Hc].
  - split; [done..|]. intros t' [->|?]%elem_of_cons; [|by eauto]. by eapply recordIncidentTransition_build_human.
Qed.

(** Every step leaves the store alone or has the effect of one permitted decision. *)
Lemma step_effect s s' : requests_ok s → step s s' →
  s_db s' = s_db s ∨ ∃ d, permitted d ∧ effect (s_db s) d (s_db s').
Proof.
  intros [Hc Hr Hv]. destruct 1; simpl; try (by left).
  - destruct (StartRun _ _ _ _ _) eqn:E. apply StartRun_effect in E as [->|He]; [by left|right]. by eexists; split; [|exact He].
  - destruct (Loop_event_effect f now run actor tier e (s_db s)) as [->|He]; [by left|right]. by eexists; split; [|exact He].
  - destruct (Propose _ _ _ _) eqn:E. apply Propose_effect in E as [->|(p & ? & ?)]; [by left|right]. by eexists (DPropose p).
  - destruct (FinishRun _ _ _ _ _ _) eqn:E. apply FinishRun_effect in E as [->|He]; [by left|right]. by eexists; split; [|exact He].
  - destruct (RecordTierTransition _ _ _ _ _) as [[? ?] ?] eqn:E.
    apply RecordTierTransition_effect in E as [->|(t1 & _ & ?)]; [by left|right]. by eexists (DTier t1).
  - destruct (raise_incident _ _ _ _ _ _ _) eqn:E. apply raise_incident_effect in E as [->|He]; [by left|right]. by eexists; split; [|exact He].
  - unfold moveTo. destruct (negb (IsShadowStatus to)) eqn:Hs; [by left|]. apply negb_false_iff in Hs.
    destruct (RecordIncidentTransition _ _ _ _ _) as [[? ?] ?] eqn:E. simpl.
    apply RecordIncidentTransition_effect in E as [->|(t1 & Hsame & ?)]; [by left|right].
    exists (DMove t1). split; [|done]. destruct Hsame as (_ & _ & Hto & _). simpl in *. by rewrite Hto.
  - unfold recordApproval_write. destruct (RecordApproval _ _ _ _ _) as [[r a'] db'] eqn:E.
    apply RecordApproval_effect in E as [->|He]; [destruct r; by left|right].
    eexists. split; [|destruct r; exact He]. simpl. by apply (Hr ap).
  - unfold recordIncidentTransition_write. destruct (RecordIncidentTransition _ _ _ _ _) as [[r a'] db'] eqn:E.
    apply RecordIncidentTransition_effect in E as [->|(t1 & Hsame & He)]; [destruct r; by left|right].
    exists (DMove t1). split; [|destruct r; exact He]. destruct Hsame as (_ & _ & _ & _ & Hk). simpl. rewrite Hk.
    by rewrite (Hv _ ltac:(done)).
Qed.

(** An invariant of the store that permitted decisions keep holds of every state
    reached. *)
Lemma store_invariant (P : Store → Prop) : P empty_store →
  (∀ db d db', P db → permitted d → effect db d db' → P db') →
  ∀ s, reachable s → P (s_db s).
Proof.
  intros Hinit Hpres s Hs. cut (requests_ok s ∧ P (s_db s)); [by intros []|].
  revert s Hs. apply (rtc_ind_r (λ s, requests_ok s ∧ P (s_db s)) initial).
  - split; [|done]. split; intros *; by intros ?%elem_of_nil.
  - intros s1 s2 _ Hstep [Hr HP]. split; [by eapply requests_step|].
    destruct (step_effect _ _ Hr Hstep) as [->|(d & Hd & He)]; [done|by eapply Hpres].
Qed.

(** ** Histories *)
Definition incident_moves (id : string) (db : Store) : list (string * string) :=
  (λ r, (ie_from_status r, ie_to_status r)) <$> filter (λ r, ie_incident_ref r = id) (incident_event db).
Definition approval_moves (id : string) (db : Store) : list (string * string) :=
  (λ r, (ae_from_state r, ae_to_state r)) <$> filter (λ r, ae_subject_ref r = id) (approval_event db).

(** The subject's moves lead from its first state to the one its row holds. *)
Definition history {R} (table : gmap string R) (state : R → string) (moves : string → list (string * string))
    (walk : list (string * string) → string → Prop) : Prop :=
  ∀ id, match table !! id with
        | None => moves id = []
        | Some r => walk (moves id) (state r)
        end.

Lemma filter_snoc {A} (P : A → Prop) `{!∀ x, Decision (P x)} (l : list A) x :
  filter P (l ++ [x])%list = (filter P l ++ if decide (P x) then [x] else [])%list.
Proof. by rewrite filter_app. Qed.

(** A row inserted in its first state, and a row moved along with its event. *)
Lemma history_insert {R} (table : gmap string R) state moves walk id (r : R) :
  history table state moves walk → table !! id = None → walk [] (state r) →
  history (<[id := r]> table) state moves walk.
Proof.
  intros Hh Hid Hr id'. specialize (Hh id'). destruct (decide (id' = id)) as [->|Hne].
  - rewrite Hid in Hh. rewrite lookup_insert_eq. by rewrite Hh.
  - by rewrite lookup_insert_ne by done.
Qed.
Lemma history_move {R} (table : gmap string R) state moves moves' walk id (r r' : R) move :
  history table state moves walk → table !! id = Some r →
  moves' id = (moves id ++ [move])%list → (∀ id', id' ≠ id → moves' id' = moves id') →
  (walk (moves id) (state r) → walk (moves id ++ [move])%list (state r')) →
  history (<[id := r']> table) state moves' walk.
Proof.
  intros Hh Hid Heq Hne Hwalk id'. specialize (Hh id'). destruct (decide (id' = id)) as [->|Hd].
  - rewrite Hid in Hh. rewrite lookup_insert_eq, Heq. by apply Hwalk.
  - by rewrite lookup_insert_ne, Hne by done.
Qed.

Definition incidents_ok (db : Store) : Prop :=
  history (incident db) in_status (λ id, incident_moves id db) (incident_path IncidentDetected) ∧
  Forall (λ r, ie_actor_kind r = ActorAgent → IsShadowStatus (ie_to_status r) = true) (incident_event db) ∧
  Forall (λ r, KnownActorKind (ie_actor_kind r) = true ∧ ie_actor r ≠ "") (incident_event db).

Lemma validated_move t : IncidentTransition_validate (Some t) = inr tt →
  IncidentTransitionAllowed (it_FromStatus t) (it_ToStatus t) = true ∧
  KnownActorKind (it_ActorKind t) = true ∧ it_Actor t ≠ "".
Proof.
  simpl. unfold validateAttribution. intros. repeat case_match; simplify_eq.
  repeat match goal with Hn : negb _ = false |- _ => apply negb_false_iff in Hn end.
  split; [done|]. split; [done|]. by apply String.eqb_neq.
Qed.

Lemma incidents_ok_move t r db : incidents_ok db → permitted (DMove t) →
  IncidentTransition_validate (Some t) = inr tt → incident db !! it_IncidentRef t = Some r →
  in_status r = it_FromStatus t → incidents_ok (moved t r db).
Proof.
  intros (Hh & Ha & Hk) Hp Hv Hr Hfrom. apply validated_move in Hv as (Hedge & Hkind & Hactor).
  split; [|split]; [|apply Forall_app; split; [done|by repeat constructor]..].
  eapply (history_move _ _ _ _ _ (it_IncidentRef t) r _ (it_FromStatus t, it_ToStatus t) Hh Hr); unfold incident_moves; simpl.
  - by rewrite filter_snoc, decide_True, fmap_app by done.
  - intros id' Hne. by rewrite filter_snoc, decide_False, app_nil_r by (simpl; congruence).
  - rewrite Hfrom. intros Hw. by apply path_move.
Qed.

Lemma incidents_effect db d db' : incidents_ok db → permitted d → effect db d db' → incidents_ok db'.
Proof.
  intros Hok Hp He. destruct He as [| | | | |id ? ? ? ? Hnone|t r db' Hv Hr Hfrom _ _ _ Hdb'|]; try exact Hok.
  - destruct Hok as (Hh & Hrest). split; [|exact Hrest]. apply history_insert; [exact Hh|done|constructor].
  - pose proof (incidents_ok_move t r db Hok Hp Hv Hr Hfrom) as Hmoved.
    destruct Hdb' as [[_ ->]|(row & _ & _ & ->)]; exact Hmoved.
Qed.

Definition proposals_ok (db : Store) : Prop :=
  history (change_proposal db) cp_approval_state (λ id, approval_moves id db) (approval_path StateDraft) ∧
  Forall (λ r, ae_actor r ≠ "" ∧ ae_tier_at_event r ∈ check_tier) (approval_event db).

Lemma proposals_effect db d db' : proposals_ok db → permitted d → effect db d db' → proposals_ok db'.
Proof.
  intros Hok Hp He. destruct He as [| | |p Hnone|a r row Hr Hfrom Hactor Htier _ _ _| |t r db' _ _ _ _ _ _ [[_ ->]|(row & _ & _ & ->)]|];
    try exact Hok.
  - destruct Hok as [Hh Hrest]. split; [|exact Hrest]. apply history_insert; [exact Hh|done|]. simpl.
    simpl in Hp. rewrite Hp. constructor.
  - destruct Hok as [Hh Hrest]. split; [|apply Forall_app; split; [done|by apply Forall_singleton]].
    eapply (history_move _ _ _ _ _ (ap_SubjectRef a) r _ (ap_FromState a, ap_ToState a) Hh Hr); unfold approval_moves; simpl.
    + by rewrite filter_snoc, decide_True, fmap_app by done.
    + intros id' Hne. by rewrite filter_snoc, decide_False, app_nil_r by (simpl; congruence).
    + rewrite Hfrom. intros Hw. by apply path_move.
Qed.

Lemma chains_effect db d db' : chains_ok (agent_audit db) → effect db d db' → chains_ok (agent_audit db').
Proof.
  intros Hok He. destruct He as [? ? row ? ? ? [now Hrow]| |ev row [now Hrow]| |a r row ? ? ? ? ? [now Hrow]|
    |t r db' _ _ _ _ _ _ [[_ ->]|(row & [now Hrow] & _ & ->)]|t r row raise ? ? ? ? ? ? [now Hrow]]; try exact Hok;
    by eapply chains_ok_push.
Qed.

(** ** Tiers *)
Definition tier_rows (run : string) (l : list audit_row) : list audit_row :=
  filter (λ r, is_tier_row r = true) (rows_of run l).
Definition tier_moves (ts : list TierTransition) : list (string * string) :=
  (λ t, (tt_FromTier t, tt_ToTier t)) <$> ts.
Definition tier_path : string → list (string * string) → string → Prop :=
  path (λ from to, to ∈ Tiers ∧ from ≠ to).
(** Authority is granted by a person who says why. *)
Definition granted (t : TierTransition) : Prop :=
  tt_Actor t ≠ "" ∧ KnownActorKind (tt_ActorKind t) = true ∧
  ∃ raise, IsRaise t = inr raise ∧ (raise = true → tt_ActorKind t = ActorHuman ∧ tt_Rationale t ≠ "").
(** The run's intent event says which tier it started at. *)
Definition started (run tier : string) (l : list audit_row) : Prop :=
  ∃ row, row ∈ rows_of run l ∧ aa_event_type row = EventIntent ∧ aa_tier row = Some tier.

Definition tier_history (run t0 tier : string) (ts : list TierTransition) (l : list audit_row) : Prop :=
  started run t0 l ∧ t0 ∈ Tiers ∧ decode_tier_transitions run (tier_rows run l) = inr ts ∧
  tier_path t0 (tier_moves ts) tier ∧ Forall granted ts.
Definition tier_ok (run : string) (o : option string) (l : list audit_row) : Prop :=
  match o with
  | None => tier_rows run l = []
  | Some tier => ∃ t0 ts, tier_history run t0 tier ts l
  end.
Definition tiers_ok (db : Store) : Prop := ∀ run, tier_ok run (ar_tier <$> agent_run db !! run) (agent_audit db).

Lemma tier_rows_snoc run l row : tier_rows run (l ++ [row]) =
  (tier_rows run l ++ if decide (aa_run_id row = run ∧ is_tier_row row = true) then [row] else [])%list.
Proof.
  unfold tier_rows, rows_of. rewrite filter_snoc, filter_app. f_equal.
  repeat case_decide; try tauto; simpl; rewrite ?filter_nil; try done.
  - by rewrite filter_cons_True by tauto.
  - by rewrite filter_cons_False by tauto.
Qed.
Lemma started_snoc run tier l row : started run tier l → started run tier (l ++ [row]).
Proof.
  intros (r & Hr & Hrest). exists r. split; [|done]. unfold rows_of. rewrite filter_app. apply elem_of_app. by left.
Qed.

Lemma tier_ok_push run o l row : (aa_run_id row ≠ run ∨ is_tier_row row = false) →
  tier_ok run o l → tier_ok run o (l ++ [row]).
Proof.
  intros Hno. assert (Hrows : tier_rows run (l ++ [row]) = tier_rows run l).
  { rewrite tier_rows_snoc, decide_False, app_nil_r; [done|]. intros [? ?]. destruct Hno; congruence. }
  unfold tier_ok. destruct o as [tier|]; [|by rewrite Hrows].
  intros (t0 & ts & Hs & Ht0 & Hd & Hrest). exists t0, ts. unfold tier_history. rewrite Hrows.
  split; [by apply started_snoc|done].
Qed.

Lemma decode_snoc run l row ts t : decode_tier_transitions run l = inr ts →
  decode_tier_transition run (aa_actor row) (aa_payload row) = inr t →
  decode_tier_transitions run (l ++ [row]) = inr (ts ++ [t])%list.
Proof.
  revert ts. induction l as [|r l IH]; intros ts; simpl.
  - intros [= <-] ->. done.
  - intros Hts Ht. apply result_bind_inr in Hts as (t1 & -> & Hts). apply result_bind_inr in Hts as (ts1 & Hts1 & [= <-]).
    simpl. by rewrite (IH ts1).
Qed.

(** *** Strings through JSON *)
Lemma json_rune_ascii c : (byte_of c <? 128) = true → json_rune (byte_rune c) = String c "".
Proof.
  intros Hc. unfold json_rune. simpl. case_match eqn:E; [|done].
  apply andb_true_iff in E as [E%Z.eqb_eq _]. unfold RuneError in E. lia.
Qed.
Lemma json_string_ascii s : isASCII s = true → json_string s = s.
Proof.
  intros Ha. unfold json_string. rewrite runes_ascii by done. unfold isASCII in Ha.
  induction s as [|c s IH]; [done|]. simpl in Ha. apply andb_true_iff in Ha as [Hc Hs].
  cbn [chars fmap list_fmap foldr]. rewrite IH, json_rune_ascii by done. by rewrite str_app_cons.
Qed.

Lemma DecodeRune_width c s : (1 ≤ (DecodeRune (String c s)).2)%nat.
Proof. unfold DecodeRune. repeat case_match; simpl; lia. Qed.

Lemma json_string_nonempty s : s ≠ "" → json_string s ≠ "".
Proof.
  destruct s as [|c s]; [done|]. intros _. unfold json_string, runes. cbn [runes_from].
  pose proof (DecodeRune_width c s). destruct (DecodeRune (String c s)) as [rn [|w]]; [simpl in *; lia|].
  cbn [foldr]. unfold json_rune. cbn [fst snd str_take]. case_match; unfold utf8_replacement; by rewrite str_app_cons.
Qed.

(** *** A tier transition recorded and read back *)
Lemma validated_tier t : TierTransition_validate (Some t) = inr tt → granted t ∧ tt_FromTier t ≠ tt_ToTier t.
Proof.
  simpl. unfold validateAttribution. intros Hv. destruct (String.eqb (tt_RunId t) "") eqn:?; [done|].
  succeed; repeat match goal with Hn : negb _ = false |- _ => apply negb_false_iff in Hn
                  | He : String.eqb _ _ = false |- _ => apply String.eqb_neq in He
                  | He : String.eqb _ _ = true |- _ => apply String.eqb_eq in He end.
  all: split; [|done]; split; [done|]; split; [done|]; eexists; split; [done|]; done.
Qed.

Lemma tier_path_end t0 l tier : t0 ∈ Tiers → tier_path t0 l tier → tier ∈ Tiers.
Proof. intros Ht0. by destruct 1 as [|? ? ? ? []]. Qed.

Lemma tier_ascii t : t ∈ Tiers → json_string t = t.
Proof. intros Ht%inVocabulary_iff. each_of Ht; by vm_compute. Qed.
Lemma kind_ascii k : KnownActorKind k = true → json_string k = k.
Proof.
  intros Hk%inVocabulary_iff. cbv [ActorKinds] in Hk. rewrite !elem_of_cons, elem_of_nil in Hk.
  destruct Hk as [->|[->|[]]]; by vm_compute.
Qed.

(** The record of [t] as it is read back: its reason as JSON carries it, its time
    as RFC 3339 does. *)
Definition as_read (t : TierTransition) : TierTransition :=
  mkTierTransition (tt_RunId t) (tt_FromTier t) (tt_ToTier t) (tt_Actor t) (tt_ActorKind t) (json_string (tt_Rationale t))
    (default zero_time (parse_RFC3339Nano (RFC3339Nano (time_toUTC (tt_TransitionedAt t))))) (tt_FromTier t).

Lemma decode_payload t raise : tt_FromTier t ∈ Tiers → tt_ToTier t ∈ Tiers → tt_TierBefore t = tt_FromTier t →
  KnownActorKind (tt_ActorKind t) = true →
  decode_tier_transition (tt_RunId t) (tt_Actor t) (tier_payload t raise) = inr (as_read t).
Proof.
  intros Hf Ht Hb Hk. unfold tier_payload, decode_tier_transition. cbn. unfold as_read.
  by rewrite Hb, (tier_ascii _ Hf), (tier_ascii _ Ht), (kind_ascii _ Hk).
Qed.

Lemma granted_as_read t : granted t → granted (as_read t).
Proof.
  intros (Ha & Hk & raise & Hr & Himp). split; [done|]. split; [done|]. exists raise. split; [exact Hr|].
  intros E. destruct (Himp E) as [? ?]. split; [done|]. by apply json_string_nonempty.
Qed.

Lemma tier_row_is now ev l row t raise : agent_audit_chain now ev l = inr row →
  ev_EventType ev = EventDecision → ev_Payload ev = tier_payload t raise → is_tier_row row = true.
Proof. intros (_ & He & _ & Hp & _)%chain_fields Hty Hpl. unfold is_tier_row. by rewrite He, Hty, Hp, Hpl. Qed.

Lemma tier_ok_transition now t r row raise l :
  granted t → tt_FromTier t ≠ tt_ToTier t → ar_tier r = tt_FromTier t → tt_TierBefore t = tt_FromTier t →
  tt_ToTier t ∈ Tiers →
  agent_audit_chain now (mkEvent (tt_RunId t) EventDecision (tt_Actor t) (tt_TierBefore t) "" (tier_payload t raise)) l = inr row →
  tier_ok (tt_RunId t) (Some (ar_tier r)) l → tier_ok (tt_RunId t) (Some (tt_ToTier t)) (l ++ [row]).
Proof.
  intros Hg Hne Hfrom Hbefore Hto Hrow (t0 & ts & Hs & Ht0 & Hd & Hpath & Hall).
  pose proof (chain_fields _ _ _ _ Hrow) as (Hid & _ & Hactor & Hpl & _). simpl in Hid, Hactor, Hpl.
  pose proof (tier_path_end _ _ _ Ht0 Hpath) as Hin. rewrite Hfrom in Hin, Hpath.
  exists t0, (ts ++ [as_read t])%list. split; [by apply started_snoc|]. split; [done|]. split; [|split].
  - rewrite tier_rows_snoc, decide_True; [|split; [done|by eapply tier_row_is]].
    apply decode_snoc; [done|]. rewrite Hactor, Hpl. apply decode_payload; try done. by destruct Hg as (_ & ? & _).
  - unfold tier_moves. rewrite fmap_app. by apply path_move.
  - apply Forall_app. split; [done|]. apply Forall_singleton. by apply granted_as_read.
Qed.

Lemma tiers_effect db d db' : tiers_ok db → effect db d db' → tiers_ok db'.
Proof.
  intros Hok He run.
  destruct He as [rn intent row Hnone Htier Hnt [now Hrow]|rid ? ? ? r Hr|ev row _ Hnt| |a r row _ _ _ _ _ _ Hnt|
    |t r db' _ _ _ _ _ _ [[_ ->]|(row & _ & Hnt & ->)]|t r row raise Hv Hr Hfrom Hbefore Hto Hraise [now Hrow]];
    try exact (Hok run); try (by apply tier_ok_push; [right|apply (Hok run)]); specialize (Hok run); simpl.
  - destruct (decide (run = run_RunId rn)) as [->|Hne]; [|rewrite lookup_insert_ne by done; by apply tier_ok_push; [right|]].
    rewrite Hnone in Hok. rewrite lookup_insert_eq. exists (run_Tier rn), []. split; [|split; [done|]].
    + exists row. apply chain_fields in Hrow as (Hid & Hty & _ & _ & Ht). split; [|split; [done|]].
      * unfold rows_of. rewrite filter_snoc, decide_True by done. apply elem_of_app. right. by left.
      * rewrite Ht. simpl. change check_tier with Tiers in Htier. apply inVocabulary_iff in Htier. clear -Htier. by each_of Htier.
    + split; [|split; [constructor|done]]. simpl in Hok.
      by rewrite tier_rows_snoc, decide_False, app_nil_r, Hok by (rewrite Hnt; naive_solver).
  - destruct (decide (run = rid)) as [->|Hne]; [|by rewrite lookup_insert_ne by done].
    rewrite lookup_insert_eq. by rewrite Hr in Hok.
  - pose proof (chain_fields _ _ _ _ Hrow) as (Hid & _).
    destruct (decide (run = tt_RunId t)) as [->|Hne].
    + rewrite lookup_insert_eq. rewrite Hr in Hok. apply validated_tier in Hv as [Hg Hd]. by eapply tier_ok_transition.
    + rewrite lookup_insert_ne by done. apply tier_ok_push; [left|done]. rewrite Hid. simpl. congruence.
Qed.

(** ** Reachable states *)
Lemma reachable_chains s : reachable s → chains_ok (agent_audit (s_db s)).
Proof. apply (store_invariant (λ db, chains_ok (agent_audit db))); [constructor|]. intros. by eapply chains_effect. Qed.
Lemma reachable_tiers s : reachable s → tiers_ok (s_db s).
Proof. apply store_invariant; [intros run; simpl; by rewrite lookup_empty|]. intros. by eapply tiers_effect. Qed.
Lemma reachable_incidents s : reachable s → incidents_ok (s_db s).
Proof.
  apply store_invariant; [split; [intros run; simpl; by rewrite lookup_empty|by split]|]. intros. by eapply incidents_effect.
Qed.
Lemma reachable_proposals s : reachable s → proposals_ok (s_db s).
Proof. apply store_invariant; [split; [intros run; simpl; by rewrite lookup_empty|done]|]. intros. by eapply proposals_effect. Qed.

(** The timestamps both renderings agree on: years 1 to 9999. *)
Definition in_calendar (us : Z) : Prop := -62135596800000000 ≤ us < 253402300800000000.
#[local] Instance in_calendar_dec us : Decision (in_calendar us).
Proof. unfold in_calendar. apply _. Defined.

(** C3. Every chain verifies: in every state the system reaches, the transcript of
    a run reads back without a defect, whatever operations failed or interleaved on
    the way, and a run that was recorded always has one, with the intent event it
    started with. The database's rendering of a timestamp is assumed to be Go's. *)
Theorem transcript_verifies s run (Hs : reachable s)
    (Hfmt : ∀ us, in_calendar us → to_char_us us = chainTime us)
    (Hcal : Forall (λ r, in_calendar (aa_created_at r)) (agent_audit (s_db s))) :
  (∀ t, ReadTranscript no_faults run (s_db s) = inr t → Verified t = true) ∧
  (run ≠ "" → is_Some (agent_run (s_db s) !! run) →
   ∃ t, ReadTranscript no_faults run (s_db s) = inr t ∧ EventIntent ∈ te_EventType <$> ts_Events t).
Proof.
  set (rows := rows_of run (agent_audit (s_db s))).
  assert (Hv : Verify run (scan_event <$> rows) = []).
  { apply chained_verifies; [by apply reachable_chains|]. apply Forall_forall.
    intros r [_ Hr]%list_elem_of_filter. rewrite Forall_forall in Hcal. by apply Hfmt, Hcal. }
  unfold ReadTranscript. simpl. fold rows. split.
  - intros t. destruct (String.eqb run ""); [done|]. destruct (scan_event <$> rows) eqn:E; [done|].
    intros [= <-]. unfold Verified. simpl. by rewrite Hv.
  - intros Hne%String.eqb_neq [r Hr]. rewrite Hne. pose proof (reachable_tiers s Hs run) as Hok. rewrite Hr in Hok.
    destruct Hok as (t0 & ts & (row & Hrow & Hty & _) & _). fold rows in Hrow.
    destruct (scan_event <$> rows) eqn:E.
    { apply fmap_nil_inv in E. rewrite E in Hrow. by apply elem_of_nil in Hrow. }
    eexists. split; [done|]. cbn [ts_Events]. rewrite <- E, <- list_fmap_compose. rewrite <- Hty.
    change (aa_event_type row) with ((te_EventType ∘ scan_event) row). by apply list_elem_of_fmap_2.
Qed.

(** C8. Incidents follow A.5 and people act: the recorded moves of an incident lead
    from [detected] to its status along edges of the machine, and an incident on the
    far side of the ceiling was moved into [remediation_proposed] by a named person. *)
Theorem incident_record s id r (Hs : reachable s) (Hr : incident (s_db s) !! id = Some r) :
  incident_path IncidentDetected (incident_moves id (s_db s)) (in_status r) ∧
  (IsActingStatus (in_status r) = true →
   ∃ e, e ∈ incident_event (s_db s) ∧ ie_incident_ref e = id ∧ ie_to_status e = ActingFrontier ∧
        ie_actor_kind e = ActorHuman ∧ ie_actor e ≠ "").
Proof.
  destruct (reachable_incidents s Hs) as (Hh & Hshadow & Hkinds). specialize (Hh id). rewrite Hr in Hh.
  split; [done|]. intros Hact. pose proof (acting_crosses_frontier _ _ Hh Hact) as Hf.
  apply list_elem_of_fmap in Hf as ([from to] & Heq & Hf). simpl in Heq. subst to.
  apply list_elem_of_fmap in Hf as (e & [= Hfrom Hto] & (Hid & He)%list_elem_of_filter).
  exists e. rewrite Forall_forall in Hshadow, Hkinds. destruct (Hkinds e He) as [Hk Hactor].
  split_and!; try done. specialize (Hshadow e He). apply inVocabulary_iff in Hk. cbv [ActorKinds] in Hk.
  rewrite !elem_of_cons, elem_of_nil in Hk. destruct Hk as [Hk|[Hk|[]]]; [done|].
  rewrite <- Hto in Hshadow. specialize (Hshadow Hk). by vm_compute in Hshadow.
Qed.

(** Past the human decision. *)
Definition past_approval (state : string) : bool :=
  inVocabulary [StateApproved; StateApprovedWithModification; StateDeployed] state.
Definition is_approval (e : string * string) : Prop :=
  e.1 = StateAwaitingHumanApproval ∧ (e.2 = StateApproved ∨ e.2 = StateApprovedWithModification).

Lemma approval_crossed l state : approval_path StateDraft l state → past_approval state = true → Exists is_approval l.
Proof.
  intros Hl Hs.
  destruct (@path_crossed (λ from to, TransitionAllowed from to = true) (λ s, past_approval s = true) is_approval
    StateDraft l state) as [Hc|Hc]; [|done|done|by vm_compute in Hc|done].
  intros m m' Hedge Hm'. destruct (past_approval m) eqn:Hm; [by left|right].
  apply (approval_move_check (λ m m', negb (past_approval m') || past_approval m ||
     (String.eqb m StateAwaitingHumanApproval &&
      (String.eqb m' StateApproved || String.eqb m' StateApprovedWithModification)))) in Hedge; [|by vm_compute].
  rewrite Hm, Hm' in Hedge. simpl in Hedge. apply andb_true_iff in Hedge as [Hfrom%String.eqb_eq Hto].
  split; [done|]. apply orb_true_iff in Hto as [?%String.eqb_eq|?%String.eqb_eq]; [by left|by right].
Qed.

(** C9. Proposals follow A.5: the recorded decisions on a proposal lead from
    [draft] to its state along edges of the machine, however the handlers' reads and
    writes interleaved, and a proposal that is approved or deployed has an approval
    out of [awaiting_human_approval] on record, with its actor and tier. *)
Theorem proposal_record s id r (Hs : reachable s) (Hr : change_proposal (s_db s) !! id = Some r) :
  approval_path StateDraft (approval_moves id (s_db s)) (cp_approval_state r) ∧
  (past_approval (cp_approval_state r) = true →
   ∃ e, e ∈ approval_event (s_db s) ∧ ae_subject_ref e = id ∧ ae_from_state e = StateAwaitingHumanApproval ∧
        (ae_to_state e = StateApproved ∨ ae_to_state e = StateApprovedWithModification) ∧
        ae_actor e ≠ "" ∧ ae_tier_at_event e ∈ Tiers).
Proof.
  destruct (reachable_proposals s Hs) as (Hh & Hall). specialize (Hh id). rewrite Hr in Hh.
  split; [done|]. intros Hpast. apply (approval_crossed _ _ Hh) in Hpast.
  apply Exists_exists in Hpast as ([from to] & Hf & Hfrom & Hto). simpl in *.
  apply list_elem_of_fmap in Hf as (e & [= -> ->] & (Hid & He)%list_elem_of_filter).
  exists e. rewrite Forall_forall in Hall. destruct (Hall e He). by split_and!.
Qed.

(** C7. Authority is on record: the tier transitions read back from a run's chain
    lead from the tier its intent event carries to the tier it is at, and every one
    that raises the tier was made by a person who gave a reason. *)
Theorem tier_record s run r (Hs : reachable s) (Hr : agent_run (s_db s) !! run = Some r) :
  ∃ t0 ts, TierTransitionsFor no_faults run (s_db s) = inr ts ∧ started run t0 (agent_audit (s_db s)) ∧
    tier_path t0 (tier_moves ts) (ar_tier r) ∧
    Forall (λ t, tt_Actor t ≠ "" ∧
       (IsRaise t = inr true → tt_ActorKind t = ActorHuman ∧ tt_Rationale t ≠ "")) ts.
Proof.
  pose proof (reachable_tiers s Hs run) as Hok. rewrite Hr in Hok.
  destruct Hok as (t0 & ts & Hstart & _ & Hdec & Hpath & Hall).
  exists t0, ts. split; [exact Hdec|]. split; [done|]. split; [done|]. eapply Forall_impl; [exact Hall|].
  intros t (Ha & _ & raise & Hraise & Himp). split; [done|]. rewrite Hraise. intros [= ->]. by apply Himp.
Qed.

(** ** Logs *)
Definition logs_grow (db db' : Store) : Prop :=
  agent_audit db `prefix_of` agent_audit db' ∧ approval_event db `prefix_of` approval_event db' ∧
  incident_event db `prefix_of` incident_event db'.
#[local] Instance logs_grow_preorder : PreOrder logs_grow.
Proof. split; [done|]. intros x y z (? & ? & ?) (? & ? & ?). by split_and!; etrans. Qed.

Lemma effect_grows db d db' : effect db d db' → logs_grow db db'.
Proof.
  destruct 1 as [| | | | | |t r db' _ _ _ _ _ _ [[_ ->]|(row & _ & _ & ->)]|]; split_and!; simpl;
    first [done|by apply prefix_app_r].
Qed.

Definition keys_unique (db : Store) : Prop :=
  NoDup (ae_approval_event_id <$> approval_event db) ∧ NoDup (ie_incident_event_id <$> incident_event db).
Lemma NoDup_snoc {A} (l : list A) x : NoDup l → x ∉ l → NoDup (l ++ [x])%list.
Proof. intros Hl Hx. apply NoDup_app. split; [done|]. split; [|apply NoDup_singleton]. by intros y Hy ->%list_elem_of_singleton. Qed.
Lemma keys_effect db d db' : keys_unique db → effect db d db' → keys_unique db'.
Proof.
  intros [Ha Hi]. destruct 1 as [| | | |a r row _ _ _ _ Hfresh _ _| |t r db' _ _ _ _ Hfresh _ [[_ ->]|(row & _ & _ & ->)]|];
    split; simpl; try done; rewrite fmap_app; by apply NoDup_snoc.
Qed.

Lemma reachable_requests s : reachable s → requests_ok s.
Proof.
  revert s. apply (rtc_ind_r requests_ok initial).
  - split; intros *; by intros ?%elem_of_nil.
  - intros. by eapply requests_step.
Qed.

(** The record only grows: from any state the system reaches, no later state
    loses or changes a row of the chain, of the approvals or of the incident events;
    and no two approvals, and no two incident events, share an id. *)
Theorem record_append_only s s' (Hs : reachable s) (Hsteps : rtc step s s') :
  logs_grow (s_db s) (s_db s') ∧ keys_unique (s_db s').
Proof.
  split.
  - induction Hsteps as [s|s s1 s' Hstep _ IH]; [done|].
    etrans; [|apply IH; by eapply rtc_r].
    destruct (step_effect _ _ (reachable_requests s Hs) Hstep) as [->|(d & _ & He)]; [done|by eapply effect_grows].
  - assert (Hs1 : reachable s') by (unfold reachable in *; by etrans). revert Hs1. apply store_invariant; [by split; constructor|].
    intros. by eapply keys_effect.
Qed.

(** ** Decisions on one view *)
Lemma approval_moves_on from to : TransitionAllowed from to = true → from ≠ to.
Proof.
  intros Hedge. apply (approval_move_check (λ m m', negb (String.eqb m m'))) in Hedge; [|by vm_compute].
  by apply String.eqb_neq, negb_true_iff.
Qed.
Lemma incident_moves_on from to : IncidentTransitionAllowed from to = true → from ≠ to.
Proof.
  intros Hedge. apply (incident_move_check (λ m m', negb (String.eqb m m'))) in Hedge; [|by vm_compute].
  by apply String.eqb_neq, negb_true_iff.
Qed.

Lemma approved_state db a db' : effect db (DApprove a) db' →
  ∃ r, change_proposal db' !! ap_SubjectRef a = Some r ∧ cp_approval_state r = ap_ToState a.
Proof. intros He. inversion He; subst; simpl. eexists. by rewrite lookup_insert_eq. Qed.
Lemma moved_status db t db' : effect db (DMove t) db' →
  (∃ r, incident db' !! it_IncidentRef t = Some r ∧ in_status r = it_ToStatus t) ∧ it_FromStatus t ≠ it_ToStatus t.
Proof.
  remember (DMove t) as d eqn:Hd. intros He.
  destruct He as [| | | | | |t' r db1 Hv _ _ _ _ _ Hdb|]; simplify_eq. split; [|by apply incident_moves_on, validated_move].
  destruct Hdb as [[_ ->]|(row & _ & _ & ->)]; simpl; eexists; by rewrite lookup_insert_eq.
Qed.

(** Two decisions taken on one view of a proposal are not both recorded: once
    the first succeeded, the second, valid but against the state the first left, is
    refused with status 409 and changes nothing. *)
Theorem second_approval_conflicts f clock now a1 a2 db seq a1' db1 clock2 now2
    (Ha : RecordApproval f clock now a1 db = (inr seq, a1', db1))
    (Hedge : TransitionAllowed (ap_FromState a1) (ap_ToState a1) = true)
    (Hv2 : Approval_validate (Some a2) = inr tt)
    (Hsubject : ap_SubjectRef a2 = ap_SubjectRef a1) (Hfrom : ap_FromState a2 = ap_FromState a1) :
  recordApproval_write no_faults clock2 now2 a2 db1 =
    (inl (StatusConflict, ErrStateConflict (ap_SubjectRef a2) (ap_FromState a2)), db1).
Proof.
  apply RecordApproval_inr, approved_state in Ha as (r & Hr & Hst). simpl in Hr, Hst.
  apply approval_moves_on in Hedge. unfold recordApproval_write, RecordApproval. rewrite Hv2.
  unfold transaction, approval_body, update_proposal. simpl. rewrite Hsubject, Hr, Hfrom, Hst.
  by destruct (String.eqb_spec (ap_ToState a1) (ap_FromState a1)).
Qed.

(** The same for incidents: the second verdict on one view of an incident is
    refused with status 409, names the status it found and changes nothing. *)
Theorem second_verdict_conflicts f clock now t1 t2 db seq t1' db1 clock2 now2
    (Ht : RecordIncidentTransition f clock now t1 db = (inr seq, t1', db1))
    (Hv2 : IncidentTransition_validate (Some t2) = inr tt)
    (Href : it_IncidentRef t2 = it_IncidentRef t1) (Hfrom : it_FromStatus t2 = it_FromStatus t1) :
  recordIncidentTransition_write no_faults clock2 now2 t2 db1 =
    (inl (StatusConflict, ErrIncidentStateConflict (it_IncidentRef t2) (it_FromStatus t2) (it_ToStatus t1)), db1).
Proof.
  apply RecordIncidentTransition_inr in Ht as [(Href1 & Hfrom1 & Hto1 & _) He].
  apply moved_status in He as [(r & Hr & Hst) Hne]. rewrite Href1 in Hr. rewrite Hto1 in Hst, Hne. rewrite Hfrom1 in Hne.
  unfold recordIncidentTransition_write, RecordIncidentTransition. rewrite Hv2.
  unfold transaction, incident_body. simpl. rewrite Href, Hr, Hst, Hfrom.
  by destruct (String.eqb_spec (it_ToStatus t1) (it_FromStatus t1)).
Qed.

(** ** The gate *)
(** The gate fails closed: an action is permitted exactly when the run's tier
    could be read, both tiers are in the vocabulary and the run's rank is at least the
    required one; every failure on the way is a refusal. *)
Theorem gate_fails_closed f run action required db :
  Permit f run action required db = inr tt ↔
  run ≠ "" ∧ f_stmt f 0 = None ∧
  ∃ r c q, agent_run db !! run = Some r ∧ Rank (TrimSpace (ar_tier r)) = Some c ∧
           Rank (TrimSpace required) = Some q ∧ q ≤ c.
Proof.
  unfold Permit, RunTier, exec. destruct (String.eqb_spec run "") as [->|Hne]; [naive_solver|].
  destruct (f_stmt f 0); [naive_solver|]. simpl. destruct (agent_run db !! run) as [r|]; [|naive_solver]. simpl.
  unfold compareTiers, ParseTier, Reaches. cbv zeta.
  destruct (Rank (TrimSpace required)) as [q|] eqn:Hq; simpl; [|naive_solver].
  destruct (Rank (TrimSpace (ar_tier r))) as [c|] eqn:Hc; simpl; [|naive_solver].
  rewrite Hq, Hc. simpl. destruct (Z.leb_spec q c); naive_solver lia.
Qed.
End system.

(** ** A run of the system

    A database whose hash is the length of the text and whose timestamps read as
    Go's. *)
Module Demo.
#[local] Instance demo_postgres : Postgres := {| sha256 s := Itoa (Z.of_nat (String.length s)); jsonb_text _ := "{}"; to_char_us := chainTime |}.
#[local] Instance demo_rfc3339 : GoRFC3339 :=
  {| RFC3339Nano t := Itoa (t_sec t); parse_RFC3339Nano s := (λ z, mkTime z 0 UTC) <$> Atoi s |}.
#[local] Instance demo_unicode : GoUnicode := {| unicode_upper s := s; unicode_lower s := s |}.

Definition clock : Time := time_Unix 1700000000 0.
Definition now : Z := 1700000000000000.
Definition run1 : Run := mkRun "r-1" "agent" "1" "model" "p1" "T1" clock "dm" 3 60 "".
Definition raise1 : TierTransition := mkTierTransition "r-1" "T1" "T3" "ann@example.com" "human" "reviewed the plan" clock "".
Definition verdict1 : AgenticAction := mkAgenticAction "" "i1" "" "" "fix it" "diagnosed" "remediation_proposed" "".
Definition approve (to : string) : AgenticAction := mkAgenticAction "chg_r1" "" "" to "fine" "" "" "".
Definition later (n : Z) : Time := time_Unix (1700000000 + n) 0.

Definition s1 : Sys := with_db (StartRun no_faults now run1 (Some (intentPayload "do it" "verify" 3)) (s_db initial)).2 initial.
Definition s2 : Sys := with_db (RecordTierTransition no_faults clock now raise1 (s_db s1)).2 s1.
Definition s3 : Sys := with_db (Loop_event no_faults now "r-1" "agent" "T1" (LDecision 1 JNull) (s_db s2)) s2.
Definition s4 : Sys := with_db (Propose no_faults run1 "{}" (s_db s3)).2 s3.
Definition s5 : Sys := with_db (raise_incident no_faults clock "i1" "sess" "worker_failed" "high" (s_db s4)).2 s4.
Definition s6 : Sys := with_db (moveTo no_faults clock now "triage" "i1" "detected" "triaged" clock "basis" (s_db s5)).2 s5.
Definition s7 : Sys := with_db (moveTo no_faults clock now "triage" "i1" "triaged" "diagnosed" clock "basis" (s_db s6)).2 s6.

Definition verdict : IncidentTransition :=
  mkIncidentTransition ("ievt_" +:+ Itoa (t_UnixNano clock)) "i1" "diagnosed" "remediation_proposed" "ann@example.com"
    "human" "" "" "" clock "fix it".
Definition s8 : Sys := mkSys (s_db s7) (s_checked s7) (s_ready s7) (verdict :: s_verdicts s7).
Definition s9 : Sys := with_db (recordIncidentTransition_write no_faults clock now verdict (s_db s8)).2 s8.

Lemma reach9 : reachable s9.
Proof.
  eapply rtc_r; [|exact (step_verdict_write s8 no_faults clock now verdict ltac:(left))].
  eapply rtc_r; [|refine (step_verdict_build s7 no_faults clock "ann@example.com" verdict1 verdict _); vm_compute; reflexivity].
  eapply rtc_r; [|exact (step_shadow s6 _ _ _ _ _ _ _ _ _)]. eapply rtc_r; [|exact (step_shadow s5 _ _ _ _ _ _ _ _ _)].
  eapply rtc_r; [|exact (step_raise s4 _ _ _ _ _ _)]. eapply rtc_r; [|exact (step_propose s3 _ _ _)].
  eapply rtc_r; [|exact (step_loop s2 _ _ _ _ _ _)]. eapply rtc_r; [|exact (step_tier s1 _ _ _ _)].
  eapply rtc_r; [|exact (step_start initial _ _ _ _ _ _)]. apply rtc_refl.
Qed.

(** A request of [recordApproval] with nothing in between. *)
Definition decide_now (n : Z) (to : string) (s : Sys) : Sys :=
  match recordApproval_check no_faults "ann@example.com" (approve to) (s_db s) with
  | inl _ => s
  | inr p =>
      match recordApproval_build no_faults (later n) "ann@example.com" (approve to) p (s_db s) with
      | inl _ => s
      | inr ap =>
          with_db (recordApproval_write no_faults (later n) now ap (s_db s)).2
            (mkSys (s_db s) (("ann@example.com", approve to, p) :: s_checked s) (ap :: s_ready s) (s_verdicts s))
      end
  end.
Lemma decide_now_steps n to s : rtc step s (decide_now n to s).
Proof.
  unfold decide_now. destruct (recordApproval_check _ _ _ _) as [|p] eqn:Hc; [done|].
  destruct (recordApproval_build _ _ _ _ _ _) as [|ap] eqn:Hb; [done|].
  eapply rtc_r; [|exact (step_approval_write (mkSys (s_db s) _ (ap :: s_ready s) _) no_faults (later n) now ap ltac:(left))].
  eapply rtc_r; [|exact (step_approval_build (mkSys (s_db s) _ _ _) _ _ _ _ _ _ ltac:(left) Hb)].
  eapply rtc_r; [apply rtc_refl|exact (step_approval_check s _ _ _ _ Hc)].
Qed.
Definition s13 : Sys :=
  decide_now 4 "approved" (decide_now 3 "awaiting_human_approval" (decide_now 2 "agent_reviewed" (decide_now 1 "validated" s9))).
Lemma steps13 : rtc step s9 s13.
Proof. unfold s13. do 4 (etrans; [|apply decide_now_steps]). done. Qed.
Lemma reach13 : reachable s13.
Proof. unfold reachable. etrans; [apply reach9|apply steps13]. Qed.

Lemma transcript_verifies_witness :
  ∃ t, ReadTranscript no_faults "r-1" (s_db s13) = inr t ∧ Verified t = true ∧ length (ts_Events t) = 7%nat.
Proof.
  destruct (transcript_verifies s13 "r-1" reach13) as [Hv He]; [done| |].
  { apply (bool_decide_unpack _). vm_compute. exact I. }
  destruct He as (t & Ht & _); [done|by vm_compute; eexists|].
  exists t. split; [done|]. split; [by apply Hv|]. vm_compute in Ht. by injection Ht as <-.
Defined.

Lemma incident_record_witness :
  ∃ e, e ∈ incident_event (s_db s9) ∧ ie_to_status e = "remediation_proposed" ∧ ie_actor_kind e = ActorHuman.
Proof.
  destruct (incident_record s9 "i1" (mkIncidentRow "sess" None 1700000000000000 "worker_failed" None "high"
    "remediation_proposed") reach9) as [_ Ha]; [by vm_compute|].
  destruct (Ha eq_refl) as (e & He & _ & Hto & Hk & _). by exists e.
Defined.

Lemma proposal_record_witness : ∃ e, e ∈ approval_event (s_db s13) ∧ ae_from_state e = "awaiting_human_approval".
Proof.
  destruct (proposal_record s13 "chg_r1" (mkProposalRow "authoring_run" (Some "r-1") (Some "{}") [] [] [] false "approved" "dm")
    reach13) as [_ Ha]; [by vm_compute|].
  destruct (Ha eq_refl) as (e & He & _ & Hf & _). by exists e.
Defined.

Lemma tier_record_witness : ∃ t0 ts, TierTransitionsFor no_faults "r-1" (s_db s9) = inr ts ∧
  tier_path t0 (tier_moves ts) "T3" ∧ length ts = 1%nat.
Proof.
  destruct (tier_record s9 "r-1" (mkRunRow "agent" "1" "model" "p1" "T3" 1700000000000000 None None None "dm" 3 60 None)
    reach9) as (t0 & ts & Hts & _ & Hp & _); [by vm_compute|].
  exists t0, ts. split; [done|]. split; [exact Hp|]. vm_compute in Hts. by injection Hts as <-.
Defined.

Lemma record_append_only_witness : logs_grow (s_db s9) (s_db s13) ∧ keys_unique (s_db s13).
Proof. apply record_append_only; [apply reach9|apply steps13]. Defined.

Definition first_approval : Approval :=
  mkApproval "apr_1" "r-1" "chg_r1" "draft" "validated" "ann@example.com" "T1" clock "".
Definition second_approval : Approval :=
  mkApproval "apr_2" "r-1" "chg_r1" "draft" "superseded" "bob@example.com" "T1" clock "".
Lemma second_approval_conflicts_witness :
  recordApproval_write no_faults clock now second_approval (RecordApproval no_faults clock now first_approval (s_db s4)).2 =
    (inl (409, ErrStateConflict "chg_r1" "draft"), (RecordApproval no_faults clock now first_approval (s_db s4)).2).
Proof.
  apply (second_approval_conflicts no_faults clock now first_approval second_approval (s_db s4) 4 first_approval);
    by vm_compute.
Defined.

Definition other_verdict : IncidentTransition :=
  mkIncidentTransition "ievt_2" "i1" "diagnosed" "remediation_proposed" "bob@example.com" "human" "" "" "" clock "".
Lemma second_verdict_conflicts_witness :
  recordIncidentTransition_write no_faults clock now other_verdict (s_db s9) =
    (inl (409, ErrIncidentStateConflict "i1" "diagnosed" "remediation_proposed"), s_db s9).
Proof.
  apply (second_verdict_conflicts no_faults clock now verdict other_verdict (s_db s8) 0 verdict); by vm_compute.
Defined.
End Demo.

(** The hash that is the text itself tells everything apart. *)
Module DemoHash.
#[local] Instance text_hash : Postgres := {| sha256 s := s; jsonb_text _ := "{}"; to_char_us := chainTime |}.
Definition ev1 : TranscriptEvent :=
  mkTranscriptEvent 1 "intent" "agent" "T1" "" "{}" 1700000000000000 ""
    (material "r-1" "1" "intent" "agent" "T1" "" "{}" (chainTime 1700000000000000) "").
Lemma tampering_detected_witness : Forall2 same_event [ev1] [ev1].
Proof.
  refine (tampering_detected "r-1" [ev1] [ev1] _ _ _ _ _ _ _ _); [vm_compute; reflexivity..|]. intros ev ev' _ _ E. exact E.
Defined.
End DemoHash.
