(* ===== verification/ShadowWriter.v ===== *)
(** * The shadow writer (src/jets/agentic/shadow, cmds/shadow_triage)

    What an unattended run does: it triages the sessions of a window, ranks what it found,
    raises one incident for each locus that is present and was not raised before, files the
    hypotheses under it, moves it to [triaged] and [diagnosed] and no further, and reads the
    record back to attest that nothing acted.

    A deployment is the execution record, the tables of the agentic record and which of them
    exist. [faults] says, for each locus, which calls of the driver fail: 0 is the insert of the
    incident, 1 and 2 the moves, 3 and on the hypotheses. Reads fail only on a missing table. *)
From stdpp Require Import base list strings gmap sorting.
From Stdlib Require Import ZArith Lia SpecFloat.
From S2P Require Import Prelude GoFloat GoText GoTextLaws GoValue ExecutionRecord Triage RootCause AuditLifecycle AuditStore.
Import Incidents.
Local Open Scope string_scope.
Local Open Scope Z_scope.

#[local] Set Warnings "-register-all".

(** ** Tables *)

(** audit.HypothesisBasis, and jetsapi.hypothesis. *)
Record HypothesisBasis := mkHypothesisBasis { SupportingCount : Z; ContradictingCount : Z; hb_Evidenceability : string }.
Record hypothesis_row := mkHypothesisRow {
  hy_incident_ref : string; hy_cause : string; hy_cause_category : option string; hy_confidence : float64; hy_rank : Z;
  hy_supporting_evidence : list Evidence; hy_contradicting_evidence : list Evidence; hy_locus : string; hy_basis : HypothesisBasis }.
Record Targets := mkTargets { t_Incident : bool; t_Hypothesis : bool; t_IncidentEvent : bool; t_Remediation : bool }.
Definition Ready (t : Targets) : bool := t_Incident t && t_Hypothesis t && t_IncidentEvent t.
Definition Missing (t : Targets) : list string :=
  ((if t_Incident t then [] else ["jetsapi.incident"]) ++ (if t_Hypothesis t then [] else ["jetsapi.hypothesis"]) ++
   (if t_IncidentEvent t then [] else ["jetsapi.incident_event"]) ++ (if t_Remediation t then [] else ["jetsapi.remediation"]))%list.
Record deployment := mkDeployment {
  d_record : tables; d_store : Store; d_hypothesis : gmap string hypothesis_row; d_remediations : Z; d_targets : Targets }.
Definition with_store (st : Store) (d : deployment) : deployment := mkDeployment (d_record d) st (d_hypothesis d) (d_remediations d) (d_targets d).
Definition with_hypotheses (t : gmap string hypothesis_row) (d : deployment) : deployment := mkDeployment (d_record d) (d_store d) t (d_remediations d) (d_targets d).
Definition ReadTargets (d : deployment) : Targets := d_targets d.

Definition SeverityInfo := "info".
Definition ModelVersion := "0.1.0".
Definition AdjudicationStatuses : list string := [IncidentVerified; IncidentReclassified; IncidentSuppressedAsBenign].
Definition IncidentIdFor (sessionId locus : string) : string := "inc_" +:+ sessionId +:+ "_" +:+ locus.
Definition HypothesisIdFor (incidentId causeCategory : string) : string := "hyp_" +:+ incidentId +:+ "_" +:+ causeCategory.

(** ** The writer *)
Record shadow_Writer := mkWriter {
  w_Classifier : Classifier; w_Ranker : Ranker; w_Actor : string; w_Severity : string; w_ModelVersion : string; w_Baseline : Z; w_DryRun : bool }.
Definition thirty_days : Z := 30 * 24 * 3600 * 1000000000.
Definition DefaultWriter : shadow_Writer := mkWriter triage_Default rca_Default "" SeverityInfo ModelVersion thirty_days false.
Record IncidentWritten := mkWritten { iw_IncidentId : string; iw_Locus : string; iw_Status : string; iw_Hypotheses : Z; iw_ChainSeq : Z }.
Definition left_at (w : IncidentWritten) (status : string) (seq : Z) : IncidentWritten := mkWritten (iw_IncidentId w) (iw_Locus w) status (iw_Hypotheses w) seq.
Record SessionResult := mkSessionResult {
  sr_Session : string; sr_Report : Report; sr_Ranking : Ranking; sr_Written : list IncidentWritten; AlreadyRaised : list string; sr_Unmapped : list string; sr_Anomalies : Z }.
Definition add_written (w : IncidentWritten) (out : SessionResult) : SessionResult :=
  mkSessionResult (sr_Session out) (sr_Report out) (sr_Ranking out) (sr_Written out ++ [w])%list (AlreadyRaised out) (sr_Unmapped out) (sr_Anomalies out).
Definition add_raised (s : string) (out : SessionResult) : SessionResult :=
  mkSessionResult (sr_Session out) (sr_Report out) (sr_Ranking out) (sr_Written out) (AlreadyRaised out ++ [s])%list (sr_Unmapped out) (sr_Anomalies out).

(** The evidence as the column holds it. *)
Definition marshalEvidence (items : list Evidence) : list Evidence :=
  (λ e, mkItem (json_string (Statement e)) (json_string (Source e)) (json_string (SourceRef e))) <$> items.
Definition row_of_hypothesis (h : CausalHypothesis) : hypothesis_row :=
  mkHypothesisRow (IncidentRef h) (Cause h) (NULLIF (CauseCategory h)) (Confidence h) (h_Rank h) (marshalEvidence (SupportingEvidence h)) (marshalEvidence (against h)) (h_Locus h)
    (mkHypothesisBasis (Z.of_nat (length (SupportingEvidence h))) (Z.of_nat (length (against h))) (evidenceability_text (EvidenceabilityOf (CauseCategory h)))).
(** INSERT INTO jetsapi.hypothesis ... ON CONFLICT (hypothesis_id) DO NOTHING *)
Definition insertHypothesis (f : faults) (h : CausalHypothesis) (t : gmap string hypothesis_row) : result unit * gmap string hypothesis_row :=
  let insert :=
    let? _ := check (null_or check_classification (NULLIF (CauseCategory h))) "hypothesis_cause_category_ck" in
    let? _ := check (inVocabulary IncidentLoci (h_Locus h)) "hypothesis_locus_ck" in
    match t !! HypothesisId h with Some _ => inr (tt, t) | None => inr (tt, <[HypothesisId h := row_of_hypothesis h]> t) end in
  let '(r, t') := autocommit f t insert in (wrapf "while writing hypothesis %s: %w" r, t').

Section writer.
Context `{Postgres} `{GoRFC3339} `{GoArch}.
Context (w : shadow_Writer) (clock : Time) (now : Z).

(** The [i]th hypothesis of an incident. *)
Definition filed_under (incidentId : string) (i : Z) (h : CausalHypothesis) : CausalHypothesis :=
  mkHypothesis (HypothesisIdFor incidentId (CauseCategory h)) incidentId (Cause h) (CauseCategory h) (Confidence h) (i + 1) (SupportingEvidence h)
    (ContradictingEvidence h) (h_Locus h) (h_Basis h) (h_RankerRef h).
Fixpoint write_hypotheses (fs : nat → faults) (incidentId : string) (i : nat) (hyps : list CausalHypothesis) (t : gmap string hypothesis_row) :
    result unit * gmap string hypothesis_row :=
  match hyps with
  | [] => (inr tt, t)
  | h :: hyps' =>
      let h := filed_under incidentId (Z.of_nat i) h in
      match Hypothesis_Validate h with
      | Some e => (inl (Wrap "the ranker produced a hypothesis that does not validate, so incident %s has none: %w" (Err e)), t)
      | None => match insertHypothesis (fs (3 + i)%nat) h t with
          | (inl e, t') => (inl e, t')
          | (inr _, t') => write_hypotheses fs incidentId (S i) hyps' t'
          end
      end
  end.
Definition millisecond : Z := 1000000.
Definition writeOne (fs : nat → faults) (detectedAt : Time) (f : triage_Finding) (hyps : list CausalHypothesis) (basis severity : string) (written : IncidentWritten) (d : deployment) :
    result IncidentWritten * deployment :=
  let id := iw_IncidentId written in
  match raise_incident (fs 0%nat) detectedAt id (fi_SessionId f) (fi_Locus f) severity (d_store d) with
  | (inl e, st) => (inl e, with_store st d)
  | (inr rows, st) =>
      if rows =? 0 then (inr (left_at written "" (iw_ChainSeq written)), with_store st d)
      else match moveTo (fs 1%nat) clock now (w_Actor w) id IncidentDetected IncidentTriaged detectedAt (fi_Basis f) st with
        | (inl e, st) => (inl e, with_store st d)
        | (inr seq, st) =>
            let written := left_at written IncidentTriaged seq in
            let d := with_store st d in
            match hyps with
            | [] => (inr written, d)
            | _ =>
                match write_hypotheses fs id 0 hyps (d_hypothesis d) with
                | (inl e, t) => (inl e, with_hypotheses t d)
                | (inr _, t) =>
                    let d := with_hypotheses t d in
                    match moveTo (fs 2%nat) clock now (w_Actor w) id IncidentTriaged IncidentDiagnosed (t_Add detectedAt millisecond) basis (d_store d) with
                    | (inl e, st) => (inl e, with_store st d)
                    | (inr seq, st) => (inr (left_at written IncidentDiagnosed seq), with_store st d)
                    end
                end
            end
        end
  end.

(** The incidents of a session by locus. *)
Definition raisedLoci (d : deployment) (sessionId : string) : gmap string string :=
  foldl (λ m ir, <[in_locus ir.2 := ir.1]> m) ∅ (List.filter (λ ir, String.eqb (in_session_id ir.2) sessionId) (map_to_list (incident (d_store d)))).
Definition hypotheses_of (ranking : Ranking) (locus : string) : list CausalHypothesis := List.filter (λ h, String.eqb (h_Locus h) locus) (Hypotheses ranking).
(** The loop over the findings; [at_] is the clock of the writer at each locus. *)
Fixpoint write_findings (fs : string → nat → faults) (at_ : string → Time) (existing : gmap string string) (severity : string) (findings : list triage_Finding)
    (out : SessionResult) (d : deployment) : SessionResult * option error * deployment :=
  match findings with
  | [] => (out, None, d)
  | f :: findings' =>
      if negb (Fired f) then write_findings fs at_ existing severity findings' out d
      else match existing !! fi_Locus f with
        | Some id => write_findings fs at_ existing severity findings' (add_raised (fi_Locus f +:+ " (" +:+ id +:+ ")") out) d
        | None =>
            match Finding_Validate f with
            | Some e => (out, Some (Wrap "the classifier produced a finding that does not validate, so it was not written: %w" (Err e)), d)
            | None =>
                let hyps := hypotheses_of (sr_Ranking out) (fi_Locus f) in
                let written := mkWritten (IncidentIdFor (sr_Session out) (fi_Locus f)) (fi_Locus f) IncidentDetected (Z.of_nat (length hyps)) 0 in
                if w_DryRun w then
                  write_findings fs at_ existing severity findings'
                    (add_written (left_at written (if 0 <? iw_Hypotheses written then IncidentDiagnosed else IncidentTriaged) 0) out) d
                else match writeOne (fs (fi_Locus f)) (at_ (fi_Locus f)) f hyps (rk_Basis (sr_Ranking out)) severity written d with
                  | (inl e, d') => (out, Some e, d')
                  | (inr written', d') => write_findings fs at_ existing severity findings' (add_written written' out) d'
                  end
            end
        end
  end.
Definition nowhere : string := "shadow mode has nowhere to write: %v absent from this database.".
(** An error of a read. *)
Definition read_error {A} (r : res A) : error := match r with Fail e => Err e | _ => Err "" end.
Definition writer_Run (fs : string → nat → faults) (at_ : string → Time) (instant_now : instant) (sessionId : string) (d : deployment) : option SessionResult * option error * deployment :=
  if String.eqb sessionId "" then (None, Some (Err "cannot classify without a session id"), d)
  else if String.eqb (w_Actor w) "" then (None, Some (Err "Writer.Actor is empty"), d)
  else
    let severity := if String.eqb (w_Severity w) "" then SeverityInfo else w_Severity w in
    let targets := ReadTargets d in
    if negb (w_DryRun w) && negb (Ready targets) then (None, Some (Err nowhere), d)
    else match triage_Gather (d_record d) instant_now sessionId (w_Baseline w) with
      | Ret ev =>
          let report := Classify (w_Classifier w) ev in
          let deployed_anomalies := match ev_Extent ev with Some e => Anomalies (te_Extent e) | None => false end in
          match (if deployed_anomalies then ReadAnomalies (d_record d) sessionId else Ret []) with
          | Ret anomalies =>
              let ranking := rca_Rank (w_Ranker w) (Some (mkInput (Some report) (Some ev) anomalies)) in
              match Ranking_Validate ranking with
              | Some e => (None, Some (Wrap "the ranker produced a ranking that does not validate, so nothing was written: %w" (Err e)), d)
              | None =>
                  let out := mkSessionResult sessionId report ranking [] [] (UnmappedLoci ranking) (Z.of_nat (length anomalies)) in
                  let existing := if t_Incident targets then raisedLoci d sessionId else ∅ in
                  let '(out, e, d') := write_findings fs at_ existing severity (Findings report) out d in (Some out, e, d')
              end
          | r => (None, Some (read_error r), d)
          end
      | r => (None, Some (read_error r), d)
      end.
End writer.

(** ** Attestation *)
Record Attestation := mkAttestation {
  at_Targets : Targets; Incidents : Z; Transitions : Z; IncidentsByStatus : gmap string Z; Remediations : Z; TransitionsIntoActing : Z;
  IncidentsAtActingStatus : Z; UnexplainedStatuses : Z; AdjudicationsByAgent : Z }.
Definition Holds (a : Attestation) : bool :=
  Ready (at_Targets a) && t_Remediation (at_Targets a) && (Remediations a =? 0) && (TransitionsIntoActing a =? 0) && (IncidentsAtActingStatus a =? 0) &&
  (UnexplainedStatuses a =? 0) && (AdjudicationsByAgent a =? 0).
(** ORDER BY transitioned_at DESC, incident_event_id DESC LIMIT 1 *)
Definition later_event (a b : incident_event_row) : bool :=
  (ie_transitioned_at a <? ie_transitioned_at b) ||
  ((ie_transitioned_at a =? ie_transitioned_at b) && String.leb (ie_incident_event_id a) (ie_incident_event_id b)).
Definition last_event (events : list incident_event_row) (id : string) : option incident_event_row :=
  foldl (λ last e, match last with None => Some e | Some l => if later_event l e then Some e else last end) None
    (List.filter (λ e, String.eqb (ie_incident_ref e) id) events).
Definition unexplained (events : list incident_event_row) (id : string) (r : incident_row) : bool :=
  negb (String.eqb (in_status r) (from_option ie_to_status IncidentDetected (last_event events id))).
Definition count_rows {A} (p : string → A → bool) (m : gmap string A) : Z := Z.of_nat (length (List.filter (λ kv, p kv.1 kv.2) (map_to_list m))).
Definition Attest (d : deployment) : Attestation :=
  let targets := ReadTargets d in
  if negb (Ready targets) || negb (t_Remediation targets) then mkAttestation targets 0 0 ∅ 0 0 0 0 0
  else
    let events := incident_event (d_store d) in
    let incidents := incident (d_store d) in
    mkAttestation targets (Z.of_nat (size incidents)) (Z.of_nat (length events))
      (foldl (λ m ir, <[in_status ir.2 := default 0 (m !! in_status ir.2) + 1]> m) ∅ (map_to_list incidents)) (d_remediations d)
      (count (λ e, inVocabulary ActingStatuses (ie_to_status e)) events) (count_rows (λ _ r, inVocabulary ActingStatuses (in_status r)) incidents)
      (count_rows (unexplained events) incidents)
      (count (λ e, String.eqb (ie_actor_kind e) "agent" && inVocabulary AdjudicationStatuses (ie_to_status e)) events).

(** ** The command *)
Definition header_later (a b : status_row) : Prop := sr_start_time b < sr_start_time a ∨ (sr_start_time b = sr_start_time a ∧ sr_key b ≤ sr_key a).
#[global] Instance header_later_dec : RelDecision header_later.
Proof. intros a b. unfold header_later. apply _. Defined.
Definition RecentSessions (db : tables) (since : instant) (client process : string) (limit : Z) : res (list string) :=
  let limit := if limit <=? 0 then 200 else limit in
  let! rows := query (execution_status db) in
  Ret (take (Z.to_nat limit) (sr_session_id <$>
    merge_sort header_later (List.filter (λ h, (since <=? sr_start_time h) && optional client (sr_client h) && optional process (sr_process_name h)) rows))).
Record shadow_flags := mkShadowFlags {
  sf_since : Z; sf_baseline : Z; sf_client : string; sf_process : string; sf_session : string; sf_limit : Z; sf_dryRun : bool; sf_attest : bool;
  sf_actor : string; sf_severity : string; sf_modelVersion : string; sf_generation : Z; sf_minRatio : float64; sf_minInput : Z; sf_minPriorRuns : Z }.
Definition writerFromFlags (fl : shadow_flags) : shadow_Writer :=
  let c := mkClassifier (mkVolumeCollapse (sf_minRatio fl) (sf_minInput fl) (vc_Generation (Volume triage_Default))) (sf_minPriorRuns fl) (sf_generation fl) in
  mkWriter c (mkRanker (sf_generation fl)) (if String.eqb (sf_actor fl) "" then triage_Ref c else sf_actor fl) (sf_severity fl) (sf_modelVersion fl) (sf_baseline fl) (sf_dryRun fl).
Record locusCensus := mkCensus { ce_Present : Z; ce_Absent : Z; ce_NotEvaluable : Z }.
Record shadow_summary := mkShadowSummary {
  su_Runs : Z; su_Incidents : Z; su_Hypotheses : Z; su_AlreadyRaised : Z; su_UnmappedLoci : list string; su_Census : list (string * locusCensus); su_AttestationHeld : option bool }.
Definition census_of (findings : list triage_Finding) (l : string) : locusCensus :=
  let n v := count (λ f, String.eqb (fi_Locus f) l && bool_decide (fi_Verdict f = v)) findings in mkCensus (n Present) (n Absent) (n NotEvaluable).
Definition did_not_hold : string := "the record does not show that nothing acted".
Definition sum_written (l : list IncidentWritten) : Z := sum iw_Hypotheses l.

Section command.
Context `{Postgres} `{GoRFC3339} `{GoArch}.
Context (fl : shadow_flags) (clock : Time) (now : Z) (fs : string → string → nat → faults) (at_ : string → string → Time) (instant_now : instant).
(** The runs of the sessions, up to the first that fails. *)
Fixpoint run_sessions (sessions : list string) (d : deployment) : list SessionResult * option error * deployment :=
  match sessions with
  | [] => ([], None, d)
  | s :: sessions' =>
      match writer_Run (writerFromFlags fl) clock now (fs s) (at_ s) instant_now s d with
      | (Some r, None, d') => let '(rs, e, d'') := run_sessions sessions' d' in (r :: rs, e, d'')
      | (_, Some e, d') => ([], Some e, d')
      | (None, None, d') => ([], Some (Err ""), d')
      end
  end.
Definition shadow_doJob (d : deployment) : result shadow_summary * deployment :=
  if negb (Ready (ReadTargets d)) && negb (sf_dryRun fl) then (inl (Err "%v absent from this database; `update_db -migrateDb` is what installs them"), d)
  else
    match (if String.eqb (sf_session fl) "" then RecentSessions (d_record d) (instant_now - sf_since fl) (sf_client fl) (sf_process fl) (sf_limit fl) else Ret [sf_session fl]) with
    | Ret [] => (inr (mkShadowSummary 0 0 0 0 [] [] None), d)
    | Ret sessions =>
        match run_sessions sessions d with
        | (_, Some e, d') => (inl e, d')
        | (rs, None, d') =>
            let written := concat (sr_Written <$> rs) in
            let findings := concat ((λ r, Findings (sr_Report r)) <$> rs) in
            let sum held := mkShadowSummary (Z.of_nat (length sessions)) (Z.of_nat (length written)) (sum_written written) (Z.of_nat (length (concat (AlreadyRaised <$> rs))))
                              (concat (sr_Unmapped <$> rs)) ((λ l, (l, census_of findings l)) <$> Loci) held in
            if sf_dryRun fl then (inr (sum None), d')
            else if Holds (Attest d') then (inr (sum (Some true)), d') else (inl (Err did_not_hold), d')
        end
    | r => (inl (read_error r), d)
    end.
Definition shadow_run (d : deployment) : result shadow_summary * deployment :=
  if sf_attest fl then (if Holds (Attest d) then inr (mkShadowSummary 0 0 0 0 [] [] (Some true)) else inl (Err did_not_hold), d)
  else if negb (ExecutionRecord (te_Extent (triage_ReadExtent (d_record d)))) then
    (inl (Err "jetsapi.pipeline_execution_status and jetsapi.pipeline_execution_details are not both present in this database"), d)
  else shadow_doJob d.
End command.
