(* ===== verification/ShadowLaws.v ===== *)
(** * Properties of the shadow writer

    Whatever calls of the driver fail, an unattended run only adds: incidents it raised itself,
    below the ceiling, with the events that explain their status. Without a failure it raises
    every present locus, and a second run adds nothing. *)
From stdpp Require Import base list strings gmap sorting.
From Stdlib Require Import ZArith Lia SpecFloat.
From S2P Require Import Prelude GoFloat GoText GoTextLaws GoValue ExecutionRecord Triage TriageLaws RootCause RootCauseLaws AuditLifecycle AuditStore AuditLaws ShadowWriter.
Import Incidents.
Local Open Scope string_scope.
Local Open Scope Z_scope.

#[local] Set Warnings "-register-all".

(** ** Keys *)
Lemma str_app_inv_suffix a b a' b' : a +:+ b = a' +:+ b' → HasSuffix b b' = true ∨ HasSuffix b' b = true.
Proof.
  revert a'. induction a as [|c a IH]; intros a' E.
  - change (b = a' +:+ b') in E. subst b. left. apply HasSuffix_app.
  - destruct a' as [|c' a']; [change (String c a +:+ b = b') in E; subst b'; right; apply HasSuffix_app|]. rewrite !str_app_cons in E. injection E as _ E. by apply (IH a').
Qed.
Lemma str_app_inj_l a a' b : a +:+ b = a' +:+ b → a = a'.
Proof.
  intros E. pose proof (f_equal (str_take (String.length a)) E) as E1. assert (El : String.length a = String.length a').
  { pose proof (f_equal String.length E) as El. rewrite !str_length_app in El. lia. }
  rewrite str_take_app, El, str_take_app in E1. done.
Qed.
(** The ends of a vocabulary tell keys apart when none is the end of another. *)
Definition suffix_free (vocab : list string) : bool := forallb (λ a, forallb (λ b, String.eqb a b || negb (HasSuffix ("_" +:+ a) ("_" +:+ b))) vocab) vocab.
Lemma key_inj vocab a b a' b' : suffix_free vocab = true → b ∈ vocab → b' ∈ vocab → a +:+ "_" +:+ b = a' +:+ "_" +:+ b' → a = a' ∧ b = b'.
Proof.
  intros Hv Hb Hb' E. unfold suffix_free in Hv. rewrite forallb_forall in Hv. assert (Hany : ∀ x y, x ∈ vocab → y ∈ vocab → HasSuffix ("_" +:+ x) ("_" +:+ y) = true → x = y).
  { intros x y Hx Hy Hs. apply list_elem_of_In, Hv in Hx. rewrite forallb_forall in Hx. apply list_elem_of_In, Hx, orb_true_iff in Hy as [Hy|Hy]; [by apply String.eqb_eq|by rewrite Hs in Hy]. }
  assert (b = b') as -> by (destruct (str_app_inv_suffix _ _ _ _ E); [|symmetry]; by apply Hany). split; [|done]. by apply str_app_inj_l in E.
Qed.
Lemma IncidentIdFor_inj s l s' l' : l ∈ Loci → l' ∈ Loci → IncidentIdFor s l = IncidentIdFor s' l' → s = s' ∧ l = l'.
Proof.
  intros Hl Hl' E. unfold IncidentIdFor in E. cbn in E. injection E as E. by apply (key_inj Loci); [by vm_compute|..].
Qed.
(** The classes, and the absence of one. *)
Definition cause_names : list string := "" :: CauseCategories.
Lemma HypothesisIdFor_inj i c i' c' : c ∈ cause_names → c' ∈ cause_names → HypothesisIdFor i c = HypothesisIdFor i' c' → i = i' ∧ c = c'.
Proof.
  intros Hc Hc' E. unfold HypothesisIdFor in E. cbn in E. injection E as E. by apply (key_inj cause_names); [by vm_compute|..].
Qed.
Definition event_id (id to : string) : string := "ie_" +:+ id +:+ "_" +:+ to.
Definition moves : list string := [IncidentTriaged; IncidentDiagnosed].
Lemma event_id_inj i t i' t' : t ∈ moves → t' ∈ moves → event_id i t = event_id i' t' → i = i' ∧ t = t'.
Proof. intros Ht Ht' E. unfold event_id in E. cbn in E. injection E as E. by apply (key_inj moves); [by vm_compute|..]. Qed.

(** ** One statement *)
Definition clock_ok (t : Time) : Prop := 0 < t_sec t < 2 ^ 62 ∧ 0 ≤ t_nsec t < second.
Lemma clock_nonzero t : clock_ok t → t_IsZero t = false.
Proof. intros [Hs _]. unfold t_IsZero. rewrite (proj2 (Z.eqb_neq _ _)) by lia. done. Qed.
Lemma clock_later t : clock_ok t → t_IsZero (t_Add t millisecond) = false ∧ timestamptz t < timestamptz (t_Add t millisecond).
Proof.
  intros [Hs Hn]. unfold t_Add, millisecond, second in *. change (Z.quot 1000000 1000000000) with 0. change (Z.rem 1000000 1000000000) with 1000000.
  assert (Ha : ∀ d, 0 ≤ d ≤ 1 → addSec (t_sec t) d = t_sec t + d).
  { intros d Hd. unfold addSec. rewrite i64_small by (width; lia). destruct (Z.eq_dec d 0) as [->|]; [rewrite Z.add_0_r, !Z.gtb_ltb, Z.ltb_irrefl; done|]. replace d with 1 by lia.
    rewrite Z.gtb_ltb, (proj2 (Z.ltb_lt _ _)) by lia. done. }
  assert (Hu : ∀ d n, 0 ≤ d ≤ 1 → t_IsZero (mkTime (t_sec t + d) n (t_loc t)) = false ∧ timestamptz (mkTime (t_sec t + d) n (t_loc t)) = (t_sec t + d - unixToInternal) * 1000000 + n / 1000).
  { intros d n Hd. unfold t_IsZero, timestamptz, t_Unix. cbn [t_sec t_nsec]. rewrite (proj2 (Z.eqb_neq _ _)) by lia. unfold unixToInternal. rewrite i64_small by (width; lia). done. }
  assert (E0 : timestamptz t = (t_sec t - unixToInternal) * 1000000 + t_nsec t / 1000) by (unfold timestamptz, t_Unix, unixToInternal; rewrite i64_small by (width; lia); done).
  assert (0 ≤ t_nsec t / 1000 ≤ 999999) by (split; [apply Z.div_pos; lia|apply Z.lt_succ_r, Z.div_lt_upper_bound; lia]). rewrite E0.
  destruct (1000000000 <=? t_nsec t + 1000000) eqn:E.
  - rewrite Ha by lia. destruct (Hu (0 + 1) (t_nsec t + 1000000 - 1000000000) ltac:(lia)) as [-> ->]. split; [done|]. apply Z.leb_le in E.
    pose proof (Z.div_pos (t_nsec t + 1000000 - 1000000000) 1000 ltac:(lia) ltac:(lia)). lia.
  - rewrite (proj2 (Z.ltb_ge _ _)) by lia. rewrite Ha by lia. destruct (Hu 0 (t_nsec t + 1000000) ltac:(lia)) as [-> ->]. split; [done|].
    replace (t_nsec t + 1000000) with (t_nsec t + 1000 * 1000) by lia. rewrite Z.div_add by lia. lia.
Qed.

Definition raised_row (session locus severity : string) (at_ : Z) (status : string) : incident_row := mkIncidentRow session None at_ locus None severity status.
Definition add_incident (id : string) (r : incident_row) (db : Store) : Store := set_incident (<[id := r]> (incident db)) db.
Definition move_event (id from to actor : string) (at_ : Z) (rationale : string) : incident_event_row :=
  mkIncidentEventRow (event_id id to) id from to actor ActorAgent at_ None None None (NULLIF rationale).
Definition add_event (e : incident_event_row) (db : Store) : Store := set_incident_event (incident_event db ++ [e])%list db.
Definition failed {A} (r : result A) : Prop := ∃ e, r = inl e.

Section statements.
Context `{Postgres} `{GoRFC3339}.
Lemma raise_new f at_ id s l sev db r db' : raise_incident f at_ id s l sev db = (r, db') → incident db !! id = None →
  (db' = db ∧ failed r) ∨ (db' = add_incident id (raised_row s l sev (timestamptz at_) IncidentDetected) db ∧ (r = inr 1 ∨ failed r)).
Proof.
  unfold raise_incident, autocommit, exec. intros E Hn. rewrite Hn in E. destruct (f_stmt f 0); [injection E as <- <-; left; split; [done|by eexists]|].
  destruct (check (inVocabulary IncidentLoci l) _) as [e|[]]; cbn [result_bind] in E; [injection E as <- <-; left; split; [done|by eexists]|].
  destruct (check (inVocabulary check_severity sev) _) as [e|[]]; cbn [result_bind] in E; [injection E as <- <-; left; split; [done|by eexists]|].
  destruct (f_commit f) as [[e []]|]; injection E as <- <-; [right; split; [done|right; by eexists]|left; split; [done|by eexists]|right; split; [done|by left]].
Qed.
Lemma raise_again f at_ id s l sev db r db' : raise_incident f at_ id s l sev db = (r, db') → is_Some (incident db !! id) → db' = db ∧ (r = inr 0 ∨ failed r).
Proof.
  unfold raise_incident, autocommit, exec. intros E [row Hn]. rewrite Hn in E. destruct (f_stmt f 0); [injection E as <- <-; split; [done|right; by eexists]|].
  destruct (check (inVocabulary IncidentLoci l) _) as [e|[]]; cbn [result_bind] in E; [injection E as <- <-; split; [done|right; by eexists]|].
  destruct (check (inVocabulary check_severity sev) _) as [e|[]]; cbn [result_bind] in E; [injection E as <- <-; split; [done|right; by eexists]|].
  destruct (f_commit f) as [[e []]|]; injection E as <- <-; (split; [done|]); [right; by eexists|right; by eexists|by left].
Qed.
Lemma move_status r s : in_classification r = None → move_incident s "" r = mkIncidentRow (in_session_id r) (in_run_ref r) (in_detected_at r) (in_locus r) None (in_severity r) s.
Proof. intros E. unfold move_incident. by rewrite E. Qed.
(** One of the two moves of an incident that names no run and no class; without a failure it
    succeeds, unless its event was recorded before. *)
Lemma moveTo_step f clock now actor id from to at_ why db r db' s l sev t0 : (from, to) ∈ [(IncidentDetected, IncidentTriaged); (IncidentTriaged, IncidentDiagnosed)] →
  t_IsZero at_ = false → incident db !! id = Some (raised_row s l sev t0 from) → moveTo f clock now actor id from to at_ why db = (r, db') →
  ((db' = db ∧ failed r) ∨
   (db' = add_event (move_event id from to actor (timestamptz at_) why) (add_incident id (raised_row s l sev t0 to) db) ∧ (r = inr 0 ∨ failed r))) ∧
  (f = no_faults → String.eqb actor "" = false → String.eqb id "" = false → (∀ e, e ∈ incident_event db → ie_incident_event_id e ≠ event_id id to) → r = inr 0).
Proof.
  intros Hft Hz Hr E. assert (Hlit : IsShadowStatus to = true ∧ inVocabulary check_incident_status from = true ∧ inVocabulary check_incident_status to = true ∧ String.eqb to "reclassified" = false).
  { rewrite !elem_of_cons, elem_of_nil in Hft. by destruct Hft as [[= -> ->]|[[= -> ->]|[]]]. }
  destruct Hlit as (H1 & H2 & H3 & H4). unfold moveTo in E. rewrite H1 in E. cbn [negb] in E. set (t := mkIncidentTransition _ _ _ _ _ _ _ _ _ _ _) in E.
  assert (Hfail : ∀ (x : result Z) (y : Store), (wrapf "while moving incident %s from %s to %s: %w" x, y) = (r, db') → failed x → y = db → db' = db ∧ failed r).
  { intros x y [= <- <-] [e ->] ->. split; [done|by eexists]. }
  assert (Hvalid : String.eqb actor "" = false → String.eqb id "" = false → IncidentTransition_validate (Some t) = inr tt).
  { intros Ha Hid. unfold IncidentTransition_validate, validateAttribution. cbn [t it_IncidentEventId it_IncidentRef it_FromStatus it_ToStatus it_Actor it_ActorKind]. rewrite Hid, Ha.
    rewrite !elem_of_cons, elem_of_nil in Hft. by destruct Hft as [[= -> ->]|[[= -> ->]|[]]]. }
  unfold RecordIncidentTransition in E. destruct (IncidentTransition_validate (Some t)) as [e|u]; [split; [left; eapply Hfail; [exact E|by eexists|done]|intros _ Ha Hid; by specialize (Hvalid Ha Hid)]|].
  unfold with_TransitionedAt, time_or_now in E. cbn [it_TransitionedAt it_IncidentEventId it_IncidentRef it_FromStatus it_ToStatus it_Actor it_ActorKind it_RunRef it_ClassificationBefore it_ClassificationAfter it_Rationale t] in E.
  rewrite Hz in E. unfold transaction in E. destruct (f_begin f) eqn:Fb; [split; [left; eapply Hfail; [exact E|by eexists|done]|by intros ->]|].
  unfold incident_body, exec in E. cbn [it_IncidentRef it_FromStatus] in E. rewrite Hr in E. destruct (f_stmt f 0) eqn:F0; [split; [left; eapply Hfail; [exact E|by eexists|done]|by intros ->]|].
  cbn [raised_row in_status in_classification in_run_ref] in E. rewrite String.eqb_refl in E. cbn [negb] in E. unfold with_row in E. cbn [it_RunRef String.eqb coalesce default] in E.
  unfold incident_writes, exec in E. cbn [it_IncidentRef it_ToStatus it_ClassificationAfter it_RunRef it_IncidentEventId it_FromStatus it_Actor it_ActorKind it_ClassificationBefore it_TransitionedAt it_Rationale] in E.
  destruct (f_stmt f 1) eqn:F1; [split; [left; eapply Hfail; [exact E|by eexists|done]|by intros ->]|]. unfold update_incident in E. rewrite Hr in E. rewrite move_status in E by done.
  cbn [in_status in_classification raised_row in_session_id in_run_ref in_detected_at in_locus in_severity] in E.
  unfold check in E at 1. rewrite H3 in E. cbn [result_bind null_or check wrapf] in E. destruct (f_stmt f 2) eqn:F2; [split; [left; eapply Hfail; [exact E|by eexists|done]|by intros ->]|].
  unfold incident_event_row_of in E. cbn [it_IncidentRef it_ToStatus it_ClassificationAfter it_RunRef it_IncidentEventId it_FromStatus it_Actor it_ActorKind it_ClassificationBefore it_TransitionedAt it_Rationale] in E.
  unfold insert_incident_event in E. cbn [ie_from_status ie_to_status ie_actor_kind ie_classification_before ie_classification_after ie_rationale ie_incident_event_id] in E.
  rewrite H2, H3, H4 in E. cbn [check result_bind negb orb null_or NULLIF String.eqb] in E. change (inVocabulary check_actor_kind ActorAgent) with true in E. cbn [check result_bind] in E.
  destruct (check (negb (existsb _ _)) _) as [e|[]] eqn:Ec; cbn [result_bind wrapf] in E.
  { injection E as <- <-. split; [left; split; [done|by eexists]|]. intros _ _ _ Hfresh. unfold check in Ec. destruct (existsb _ _) eqn:Eb; [|done]. apply existsb_exists in Eb as (x & Hx & Ex%String.eqb_eq).
    by apply list_elem_of_In, Hfresh in Hx. }
  destruct (f_commit f) as [[e []]|] eqn:Fc; cbn [wrapf] in E; injection E as <- <-; (split; [|by intros ->]); [right; split; [done|right; by eexists]|left; split; [done|by eexists]|right; split; [done|by left]].
Qed.
End statements.

(** ** What is added *)

(** The events of an incident that was raised and moved up to a status. *)
Definition moves_of (id : string) (e : incident_event_row) (to : string) : Prop :=
  ie_incident_ref e = id ∧ ie_to_status e = to ∧ ie_incident_event_id e = event_id id to.
Inductive explains (id : string) : string → list incident_event_row → Prop :=
| ex_detected : explains id IncidentDetected []
| ex_triaged e : moves_of id e IncidentTriaged → explains id IncidentTriaged [e]
| ex_diagnosed e e' : moves_of id e IncidentTriaged → moves_of id e' IncidentDiagnosed → ie_transitioned_at e < ie_transitioned_at e' → explains id IncidentDiagnosed [e; e'].
Definition files_under (id : string) (t t' : gmap string hypothesis_row) : Prop :=
  t ⊆ t' ∧ ∀ hid h, t' !! hid = Some h → t !! hid = Some h ∨ (hy_incident_ref h = id ∧ ∃ c, c ∈ cause_names ∧ hid = HypothesisIdFor id c).
Record grown (d d' : deployment) (id : string) (r : incident_row) (evs : list incident_event_row) : Prop := {
  gr_record : d_record d' = d_record d;
  gr_targets : d_targets d' = d_targets d;
  gr_remediations : d_remediations d' = d_remediations d;
  gr_incident : incident (d_store d') = <[id := r]> (incident (d_store d));
  gr_events : incident_event (d_store d') = (incident_event (d_store d) ++ evs)%list;
  gr_hypotheses : files_under id (d_hypothesis d) (d_hypothesis d') }.
(** A deployment with one more incident of the writer. *)
Definition adds_one (d d' : deployment) : Prop := ∃ s l sev at_ status evs, l ∈ Loci ∧ incident (d_store d) !! IncidentIdFor s l = None ∧
  grown d d' (IncidentIdFor s l) (raised_row s l sev at_ status) evs ∧ explains (IncidentIdFor s l) status evs.
Definition adds_only : deployment → deployment → Prop := rtc adds_one.

Lemma files_under_refl id t : files_under id t t.
Proof. split; [done|]. intros hid h Hh. by left. Qed.
Lemma files_under_trans id t t' t'' : files_under id t t' → files_under id t' t'' → files_under id t t''.
Proof. intros [H1 H2] [H3 H4]. split; [by etrans|]. intros hid h [Hh|Hh]%H4; [by apply H2|by right]. Qed.
Lemma cause_name_valid h : Hypothesis_Validate h = None → CauseCategory h ∈ cause_names.
Proof.
  unfold Hypothesis_Validate. case_match; [done|]. case_match eqn:E; [done|]. intros _. apply elem_of_cons. destruct (String.eqb_spec (CauseCategory h) "") as [->|]; [by left|right].
  cbn [negb andb] in E. apply negb_false_iff in E. by apply contains_spec.
Qed.
Lemma insertHypothesis_files f h t r t' : Hypothesis_Validate h = None → HypothesisId h = HypothesisIdFor (IncidentRef h) (CauseCategory h) → insertHypothesis f h t = (r, t') →
  files_under (IncidentRef h) t t'.
Proof.
  intros Hv Hid. unfold insertHypothesis. destruct (autocommit _ _ _) as [r0 t0] eqn:E. intros [= _ <-]. apply autocommit_effect in E as [->|([] & E)]; [apply files_under_refl|].
  destruct (check _ _) as [|[]]; [done|]. cbn [result_bind] in E. destruct (check _ _) as [|[]]; [done|]. cbn [result_bind] in E.
  destruct (t !! HypothesisId h) eqn:Eh; injection E as <-; [apply files_under_refl|]. split; [by apply insert_subseteq|]. intros hid row Hrow.
  apply lookup_insert_Some in Hrow as [[<- <-]|[_ Hrow]]; [right|by left]. split; [done|]. exists (CauseCategory h). split; [by apply cause_name_valid|done].
Qed.
Lemma write_hypotheses_files fs id hyps : ∀ i t r t', write_hypotheses fs id i hyps t = (r, t') → files_under id t t'.
Proof.
  induction hyps as [|h hyps IH]; intros i t r t'; cbn [write_hypotheses]; [intros [= _ <-]; apply files_under_refl|]. set (g := filed_under _ _ h).
  destruct (Hypothesis_Validate g) as [e|] eqn:Hv; [intros [= _ <-]; apply files_under_refl|].
  destruct (insertHypothesis _ g t) as [[e|[]] t1] eqn:Ei; pose proof (insertHypothesis_files _ g t _ _ Hv eq_refl Ei) as Hf; [by intros [= _ <-]|]. intros E.
  eapply files_under_trans; [exact Hf|by apply (IH _ _ _ _ E)].
Qed.

Section effects.
Context `{Postgres} `{GoRFC3339} `{GoArch} (w : shadow_Writer) (clock : Time) (now : Z).
Lemma with_store_id d : with_store (d_store d) d = d.
Proof. by destruct d. Qed.
Lemma writeOne_adds fs at_ f hyps basis sev written d r d' : clock_ok at_ → fi_Locus f ∈ Loci → iw_IncidentId written = IncidentIdFor (fi_SessionId f) (fi_Locus f) →
  writeOne w clock now fs at_ f hyps basis sev written d = (r, d') → d' = d ∨ adds_one d d'.
Proof.
  intros Hat Hl Hid. unfold writeOne. rewrite Hid. set (id := IncidentIdFor _ _). destruct (raise_incident _ _ _ _ _ _ _) as [r0 st0] eqn:E0.
  destruct (incident (d_store d) !! id) as [row|] eqn:Hnew.
  { apply raise_again in E0 as [-> Hr0]; [|by eexists]. rewrite with_store_id. destruct Hr0 as [->|[e ->]]; cbn; intros [= _ <-]; by left. }
  apply raise_new in E0; [|done]. destruct E0 as [[-> [e ->]]|[-> Hr0]]; [rewrite with_store_id; intros [= _ <-]; by left|]. set (row := raised_row _ _ _ _ IncidentDetected) in *.
  set (at_us := timestamptz at_) in *. assert (Hadd : ∀ status evs st t, incident st = <[id := raised_row (fi_SessionId f) (fi_Locus f) sev at_us status]> (incident (d_store d)) →
    incident_event st = (incident_event (d_store d) ++ evs)%list → explains id status evs → files_under id (d_hypothesis d) t → adds_one d (with_hypotheses t (with_store st d))).
  { intros status evs st t Ei Ee Hex Ht. exists (fi_SessionId f), (fi_Locus f), sev, at_us, status, evs. split_and!; [done|done|by split|done]. }
  assert (Hkeep : ∀ st, with_hypotheses (d_hypothesis d) (with_store st d) = with_store st d) by (by destruct d).
  assert (Hdet : adds_one d (with_store (add_incident id row (d_store d)) d)).
  { rewrite <- Hkeep. apply (Hadd IncidentDetected []); [done|by rewrite app_nil_r|constructor|apply files_under_refl]. }
  destruct Hr0 as [->|[e ->]]; [|intros [= _ <-]; by right]. change (1 =? 0) with false. cbv iota.
  destruct (moveTo (fs 1%nat) _ _ _ _ _ _ _ _ _) as [r1 st1] eqn:E1. eapply moveTo_step in E1; [|by apply elem_of_cons; left|by apply clock_nonzero|apply lookup_insert_eq]. apply proj1 in E1.
  destruct E1 as [[-> [e ->]]|[-> Hr1]]; [intros [= _ <-]; by right|]. set (st1 := add_event _ _). assert (E1 : incident_event st1 = (incident_event (d_store d) ++ [move_event id IncidentDetected IncidentTriaged (w_Actor w) at_us (fi_Basis f)])%list) by done.
  assert (I1 : incident st1 = <[id := raised_row (fi_SessionId f) (fi_Locus f) sev at_us IncidentTriaged]> (incident (d_store d))) by (cbn; apply insert_insert_eq).
  assert (Htri : ∀ t, files_under id (d_hypothesis d) t → adds_one d (with_hypotheses t (with_store st1 d))) by (intros t Ht; eapply (Hadd IncidentTriaged); [exact I1|exact E1|by constructor|exact Ht]).
  destruct Hr1 as [->|[e ->]]; [|intros [= _ <-]; right; rewrite <- Hkeep; apply Htri, files_under_refl].
  destruct hyps as [|h hyps]; [intros [= _ <-]; right; rewrite <- Hkeep; apply Htri, files_under_refl|]. cbn [d_hypothesis with_store].
  destruct (write_hypotheses _ _ _ _ _) as [[e|[]] t] eqn:Eh; apply write_hypotheses_files in Eh; [intros [= _ <-]; right; by apply Htri|]. cbn [d_store with_hypotheses with_store].
  destruct (moveTo (fs 2%nat) _ _ _ _ _ _ _ _ _) as [r2 st2] eqn:E2. destruct (clock_later at_ Hat) as [Hz Hlater].
  eapply moveTo_step in E2; [|apply elem_of_cons; right; by apply list_elem_of_singleton|exact Hz|rewrite I1; apply lookup_insert_eq]. apply proj1 in E2.
  assert (Hd : ∀ st, with_store st (with_hypotheses t (with_store st1 d)) = with_hypotheses t (with_store st d)) by done.
  destruct E2 as [[-> [e ->]]|[-> Hr2]]; [intros [= _ <-]; rewrite Hd; right; by apply Htri|]. set (st2 := add_event _ (add_incident _ _ st1)).
  assert (Hdia : adds_one d (with_hypotheses t (with_store st2 d))).
  { apply (Hadd IncidentDiagnosed [move_event id IncidentDetected IncidentTriaged (w_Actor w) at_us (fi_Basis f);
      move_event id IncidentTriaged IncidentDiagnosed (w_Actor w) (timestamptz (t_Add at_ millisecond)) basis]); [cbn [st2 incident add_event add_incident set_incident_event set_incident]; rewrite I1; apply insert_insert_eq| | |exact Eh].
    - change (incident_event st2) with (incident_event st1 ++ [move_event id IncidentTriaged IncidentDiagnosed (w_Actor w) (timestamptz (t_Add at_ millisecond)) basis])%list. by rewrite E1, <- app_assoc.
    - by constructor. }
  destruct Hr2 as [->|[e ->]]; intros [= _ <-]; right; exact Hdia.
Qed.
End effects.

Lemma gather_session db now s b ev : triage_Gather db now s b = Ret ev → ev_SessionId ev = s.
Proof.
  unfold triage_Gather. case_match; [by intros [= <-]|]. destruct (ReadHeader db s) as [hd| | |]; try done. cbn [res_bind]. destruct (Workers _ _ _) as [wk| | |]; try done. cbn [res_bind].
  destruct (read_if _ _) as [er| | |]; try done. cbn [res_bind]. destruct (read_if _ _) as [edges| | |]; try done. cbn [res_bind]. destruct (read_if _ _) as [cf| | |]; try done. cbn [res_bind].
  destruct (read_if _ _) as [sv| | |]; try done. cbn [res_bind]. match goal with |- res_bind ?m _ = _ → _ => destruct m as [pr| | |] end; try done. cbn [res_bind]. by intros [= <-].
Qed.
Lemma classify_session `{GoArch} c ev f : f ∈ Findings (Classify c ev) → fi_SessionId f = ev_SessionId ev.
Proof. by intros (g & -> & _)%list_elem_of_fmap. Qed.
Lemma finding_locus f : Finding_Validate f = None → fi_Locus f ∈ Loci.
Proof. unfold Finding_Validate. case_match; [done|]. case_match eqn:E; [done|]. intros _. apply negb_false_iff in E. by apply contains_spec. Qed.

Section runs.
Context `{Postgres} `{GoRFC3339} `{GoArch} (clock : Time) (now : Z).
Lemma write_findings_adds w fs at_ existing sev findings : (∀ l, clock_ok (at_ l)) → ∀ out d out' e d', Forall (λ f, fi_SessionId f = sr_Session out) findings →
  write_findings w clock now fs at_ existing sev findings out d = (out', e, d') → adds_only d d'.
Proof.
  intros Hat. induction findings as [|f findings IH]; intros out d out' e d' Hs E; cbn [write_findings] in E; [injection E as _ _ <-; apply rtc_refl|]. apply Forall_cons in Hs as [Hf Hs].
  destruct (negb (Fired f)); [by eapply IH|]. destruct (existing !! fi_Locus f); [by eapply IH; [|exact E]|]. destruct (Finding_Validate f) eqn:Hv; [injection E as _ _ <-; apply rtc_refl|].
  destruct (w_DryRun w); [by eapply IH; [|exact E]|]. destruct (writeOne _ _ _ _ _ _ _ _ _ _ _) as [r d1] eqn:E1.
  apply writeOne_adds in E1; [|apply Hat|by apply finding_locus|cbn; by rewrite Hf]. assert (Ha1 : adds_only d d1) by (destruct E1 as [->|?]; [apply rtc_refl|by apply rtc_once]).
  destruct r as [e1|written]; [injection E as _ _ <-; done|]. etrans; [exact Ha1|]. by eapply IH; [|exact E].
Qed.
Lemma Run_adds w fs at_ t s d out e d' : (∀ l, clock_ok (at_ l)) → writer_Run w clock now fs at_ t s d = (out, e, d') → adds_only d d'.
Proof.
  intros Hat. unfold writer_Run. case_match; [by intros [= _ _ <-]; apply rtc_refl|]. case_match; [by intros [= _ _ <-]; apply rtc_refl|]. case_match; [by intros [= _ _ <-]; apply rtc_refl|].
  destruct (triage_Gather _ _ _ _) as [ev| | |] eqn:Eg; [|by intros [= _ _ <-]; apply rtc_refl..]. match goal with |- context [match ?m with Ret _ => _ | _ => _ end] => destruct m as [an| | |] end; [|by intros [= _ _ <-]; apply rtc_refl..].
  case_match; [by intros [= _ _ <-]; apply rtc_refl|]. destruct (write_findings _ _ _ _ _ _ _ _ _ _) as [[out1 e1] d1] eqn:E1. intros [= _ _ <-]. eapply write_findings_adds; [exact Hat| |exact E1].
  apply Forall_forall. intros f Hf. rewrite (classify_session _ _ _ Hf). by apply gather_session in Eg.
Qed.
Lemma sessions_add fl fs at_ t sessions : (∀ s l, clock_ok (at_ s l)) → ∀ d rs e d', run_sessions fl clock now fs at_ t sessions d = (rs, e, d') → adds_only d d'.
Proof.
  intros Hat. induction sessions as [|s sessions IH]; intros d rs e d'; cbn [run_sessions]; [intros [= _ _ <-]; apply rtc_refl|].
  destruct (writer_Run _ _ _ _ _ _ _ _) as [[[r|] [e1|]] d1] eqn:E1; (apply Run_adds in E1; [|apply Hat]); [by intros [= _ _ <-]| |by intros [= _ _ <-]..].
  destruct (run_sessions _ _ _ _ _ _ _ _) as [[rs2 e2] d2] eqn:E2. intros [= _ _ <-]. etrans; [exact E1|by eapply IH].
Qed.
Lemma shadow_run_adds fl fs at_ t d : (∀ s l, clock_ok (at_ s l)) → adds_only d (shadow_run fl clock now fs at_ t d).2.
Proof.
  intros Hat. unfold shadow_run, shadow_doJob. repeat (case_match; try apply rtc_refl); cbn [snd]; eapply sessions_add; done.
Qed.
End runs.

(** ** The record of the writer stays in order *)
Record tidy (d : deployment) : Prop := {
  ti_ids : ∀ id r, incident (d_store d) !! id = Some r → in_locus r ∈ Loci ∧ id = IncidentIdFor (in_session_id r) (in_locus r);
  ti_events : ∀ e, e ∈ incident_event (d_store d) → is_Some (incident (d_store d) !! ie_incident_ref e) ∧
    ∀ id to, to ∈ moves → ie_incident_event_id e = event_id id to → id = ie_incident_ref e;
  ti_hypotheses : ∀ hid h, d_hypothesis d !! hid = Some h → is_Some (incident (d_store d) !! hy_incident_ref h) ∧
    ∃ c, c ∈ cause_names ∧ hid = HypothesisIdFor (hy_incident_ref h) c }.
(** Nothing that was recorded is lost or changed. *)
Record extends (d d' : deployment) : Prop := {
  ext_record : d_record d' = d_record d;
  ext_targets : d_targets d' = d_targets d;
  ext_incidents : incident (d_store d) ⊆ incident (d_store d');
  ext_events : ∃ evs, incident_event (d_store d') = (incident_event (d_store d) ++ evs)%list;
  ext_hypotheses : d_hypothesis d ⊆ d_hypothesis d' }.
Lemma extends_refl d : extends d d.
Proof. split; try done. exists []. by rewrite app_nil_r. Qed.
Lemma extends_trans d d' d'' : extends d d' → extends d' d'' → extends d d''.
Proof.
  intros [H1 H2 H3 [evs H4] H5] [K1 K2 K3 [evs' K4] K5]. split; [congruence|congruence|by etrans| |by etrans]. exists (evs ++ evs')%list. by rewrite K4, H4, app_assoc.
Qed.
Lemma explains_events id status evs e : explains id status evs → e ∈ evs → ie_incident_ref e = id ∧ ie_to_status e ∈ moves ∧ ie_incident_event_id e = event_id id (ie_to_status e).
Proof.
  destruct 1 as [|e1 (E1 & E2 & E3)|e1 e2 (E1 & E2 & E3) (F1 & F2 & F3)]; rewrite ?elem_of_cons, ?elem_of_nil; intros He.
  - done.
  - destruct He as [->|[]]. split; [done|]. rewrite E2. split; [by apply elem_of_cons; left|done].
  - destruct He as [->|[->|[]]]; (split; [done|]); [rewrite E2|rewrite F2]; (split; [unfold moves; rewrite !elem_of_cons; tauto|done]).
Qed.
Lemma adds_extends d d' : adds_one d d' → extends d d'.
Proof.
  intros (s & l & sev & at_ & status & evs & Hl & Hn & [G1 G2 G3 G4 G5 [G6 _]] & Hex). split; [done|done| |by exists evs|done]. rewrite G4. by apply insert_subseteq.
Qed.
Lemma adds_tidy d d' : adds_one d d' → tidy d → tidy d'.
Proof.
  intros (s & l & sev & at_ & status & evs & Hl & Hn & [G1 G2 G3 G4 G5 [G6 G7]] & Hex) [T1 T2 T3]. assert (Hin : ∀ id, is_Some (incident (d_store d) !! id) → is_Some (incident (d_store d') !! id)).
  { intros id. rewrite G4, lookup_insert_is_Some'. by right. }
  split.
  - intros id r. rewrite G4. intros [[<- <-]|[_ Hr]]%lookup_insert_Some; [done|by apply T1].
  - intros e. rewrite G5. intros [He|He]%elem_of_app; [destruct (T2 e He) as [? ?]; split; [by apply Hin|done]|].
    destruct (explains_events _ _ _ _ Hex He) as (E1 & E2 & E3). rewrite E1. split; [rewrite G4, lookup_insert_eq; by eexists|]. intros id to Hto E. rewrite E3 in E.
    by apply event_id_inj in E as [<- _].
  - intros hid h Hh. destruct (G7 hid h Hh) as [Hold|(E1 & c & Hc & E2)]; [destruct (T3 hid h Hold) as [? ?]; split; [by apply Hin|done]|]. rewrite E1. split; [rewrite G4, lookup_insert_eq; by eexists|by exists c].
Qed.

(** ** The attestation *)
Lemma count_zero {A} (p : A → bool) l : (count p l =? 0) = true ↔ ∀ x, x ∈ l → p x = false.
Proof.
  unfold count. rewrite Z.eqb_eq. split.
  - intros E x Hx. destruct (p x) eqn:Ep; [|done]. assert (Hin : x ∈ List.filter p l) by (apply list_elem_of_In, filter_In; split; [by apply list_elem_of_In|done]).
    destruct (List.filter p l); [by apply not_elem_of_nil in Hin|cbn in E; lia].
  - intros Hall. destruct (List.filter p l) as [|x l'] eqn:E; [done|]. assert (Hin : x ∈ List.filter p l) by (rewrite E; by apply elem_of_cons; left).
    apply list_elem_of_In, filter_In in Hin as [Hin Hp]. rewrite Hall in Hp; [done|by apply list_elem_of_In].
Qed.
Lemma count_rows_zero {A} (p : string → A → bool) (m : gmap string A) : (count_rows p m =? 0) = true ↔ ∀ k x, m !! k = Some x → p k x = false.
Proof.
  unfold count_rows. change (Z.of_nat (length (List.filter (λ kv, p kv.1 kv.2) (map_to_list m)))) with (count (λ kv, p kv.1 kv.2) (map_to_list m)). rewrite count_zero. split.
  - intros Hall k x Hk. apply (Hall (k, x)). by apply elem_of_map_to_list.
  - intros Hall [k x] Hk. by apply Hall, elem_of_map_to_list.
Qed.
Definition quiet_event (e : incident_event_row) : Prop :=
  inVocabulary ActingStatuses (ie_to_status e) = false ∧ String.eqb (ie_actor_kind e) "agent" && inVocabulary AdjudicationStatuses (ie_to_status e) = false.
Record attested (d : deployment) : Prop := {
  att_targets : Ready (d_targets d) = true ∧ t_Remediation (d_targets d) = true;
  att_remediations : d_remediations d = 0;
  att_events : ∀ e, e ∈ incident_event (d_store d) → quiet_event e;
  att_incidents : ∀ id r, incident (d_store d) !! id = Some r → inVocabulary ActingStatuses (in_status r) = false ∧
    in_status r = from_option ie_to_status IncidentDetected (last_event (incident_event (d_store d)) id) }.
Lemma Holds_attested d : Holds (Attest d) = true ↔ attested d.
Proof.
  unfold Holds, Attest, ReadTargets. destruct (Ready (d_targets d)) eqn:E1, (t_Remediation (d_targets d)) eqn:E2; cbn [negb orb at_Targets Remediations TransitionsIntoActing IncidentsAtActingStatus UnexplainedStatuses AdjudicationsByAgent];
    rewrite E1, E2; cbn [andb]; try (split; [done|]; intros [[? ?] _ _ _]; congruence).
  rewrite !andb_true_iff, !count_zero, !count_rows_zero, Z.eqb_eq. unfold unexplained. split.
  - intros ((((Hr & H1) & H2) & H3) & H4). split; [done|done|intros e He; split; auto|]. intros id r Hid. split; [by apply (H2 id)|]. specialize (H3 id r Hid). apply negb_false_iff in H3. by apply String.eqb_eq.
  - intros [_ Hr He Hi]. split_and!; [done|intros e Hin; by apply He|intros id r Hid; by apply (Hi id)| |intros e Hin; by apply He].
    intros id r Hid. apply negb_false_iff, String.eqb_eq. by apply (Hi id).
Qed.
Lemma last_event_none events evs id : (∀ e, e ∈ evs → ie_incident_ref e ≠ id) → last_event (events ++ evs) id = last_event events id.
Proof.
  intros Hno. unfold last_event. rewrite List.filter_app. assert (E : List.filter (λ e, String.eqb (ie_incident_ref e) id) evs = []); [|by rewrite E, app_nil_r].
  destruct (List.filter _ evs) as [|x l] eqn:E; [done|]. assert (Hin : x ∈ List.filter (λ e, String.eqb (ie_incident_ref e) id) evs) by (rewrite E; by apply elem_of_cons; left).
  apply list_elem_of_In, filter_In in Hin as [Hin Hx]. apply list_elem_of_In, Hno in Hin. by apply String.eqb_eq in Hx.
Qed.
Lemma last_event_new events evs id : (∀ e, e ∈ events → ie_incident_ref e ≠ id) → last_event (events ++ evs) id = last_event evs id.
Proof.
  intros Hno. unfold last_event. rewrite List.filter_app. assert (E : List.filter (λ e, String.eqb (ie_incident_ref e) id) events = []); [|by rewrite E].
  destruct (List.filter _ events) as [|x l] eqn:E; [done|]. assert (Hin : x ∈ List.filter (λ e, String.eqb (ie_incident_ref e) id) events) by (rewrite E; by apply elem_of_cons; left).
  apply list_elem_of_In, filter_In in Hin as [Hin Hx]. apply list_elem_of_In, Hno in Hin. by apply String.eqb_eq in Hx.
Qed.
Lemma explains_last id status evs : explains id status evs → status = from_option ie_to_status IncidentDetected (last_event evs id) ∧ status ∈ ShadowStatuses.
Proof.
  destruct 1 as [|e (E1 & E2 & E3)|e e' (E1 & E2 & E3) (F1 & F2 & F3) Hlt]; unfold last_event; cbn [List.filter foldl].
  - split; [done|]. by apply elem_of_cons; left.
  - rewrite E1, String.eqb_refl. cbn [foldl from_option]. split; [done|]. unfold ShadowStatuses. rewrite !elem_of_cons. tauto.
  - rewrite E1, F1, String.eqb_refl. cbn [foldl]. unfold later_event. rewrite (proj2 (Z.ltb_lt _ _) Hlt). cbn [orb from_option]. split; [done|]. unfold ShadowStatuses. rewrite !elem_of_cons. tauto.
Qed.
Lemma shadow_not_acting s : s ∈ ShadowStatuses → inVocabulary ActingStatuses s = false ∧ inVocabulary AdjudicationStatuses s = false.
Proof. unfold ShadowStatuses. rewrite !elem_of_cons, elem_of_nil. by intros [->|[->|[->|[]]]]. Qed.
Lemma adds_attested d d' : adds_one d d' → tidy d → attested d → attested d'.
Proof.
  intros (s & l & sev & at_ & status & evs & Hl & Hn & [G1 G2 G3 G4 G5 _] & Hex) [T1 T2 T3] [A1 A2 A3 A4]. set (id := IncidentIdFor s l) in *.
  assert (Hfresh : ∀ e, e ∈ incident_event (d_store d) → ie_incident_ref e ≠ id) by (intros e He E; destruct (T2 e He) as [[r Hr] _]; congruence).
  assert (Hmoves : ∀ t, t ∈ moves → t ∈ ShadowStatuses) by (intros t Ht; unfold ShadowStatuses; apply elem_of_cons; by right). split.
  - by rewrite G2.
  - by rewrite G3.
  - intros e. rewrite G5. intros [He|He]%elem_of_app; [by apply A3|]. destruct (explains_events _ _ _ _ Hex He) as (_ & Ht & _). destruct (shadow_not_acting _ (Hmoves _ Ht)) as [H1 H2].
    split; [done|by rewrite H2, andb_false_r].
  - intros id' r. rewrite G4, G5. intros [[<- <-]|[Hne Hr]]%lookup_insert_Some.
    + destruct (explains_last _ _ _ Hex) as [E Hs]. split; [by apply shadow_not_acting|]. rewrite last_event_new by done. exact E.
    + rewrite last_event_none; [by apply A4|]. intros e He. destruct (explains_events _ _ _ _ Hex He) as (-> & _). done.
Qed.
Lemma adds_only_invariant d d' : adds_only d d' → tidy d → attested d → tidy d' ∧ attested d' ∧ extends d d' ∧
  (∀ id r, incident (d_store d') !! id = Some r → incident (d_store d) !! id = Some r ∨ in_status r ∈ ShadowStatuses).
Proof.
  induction 1 as [d|d d1 d' H1 _ IH]; intros Ht Ha; [split_and!; [done|done|apply extends_refl|by left]|].
  destruct (IH (adds_tidy _ _ H1 Ht) (adds_attested _ _ H1 Ht Ha)) as (Ht' & Ha' & He & Hs). split_and!; [done|done|eapply extends_trans; [by apply adds_extends|done]|].
  intros id r Hr. destruct (Hs id r Hr) as [Hr1|]; [|by right]. destruct H1 as (s & l & sev & at_ & status & evs & _ & _ & [_ _ _ G4 _ _] & Hex). rewrite G4 in Hr1.
  apply lookup_insert_Some in Hr1 as [[_ <-]|[_ Hr1]]; [right; by apply (explains_last _ _ _ Hex)|by left].
Qed.

(** C11. The unattended run stays below its ceiling. On a record that attests that nothing
    acted, and whichever calls of the driver fail, it leaves a record that attests it still;
    what was recorded is kept as it was, and every incident it adds is at [detected],
    [triaged] or [diagnosed], as the events of the incident say. *)
Theorem shadow_mode_attests `{Postgres} `{GoRFC3339} `{GoArch} fl clock now fs at_ instant_now d : tidy d → Holds (Attest d) = true → (∀ s l, clock_ok (at_ s l)) →
  let d' := (shadow_run fl clock now fs at_ instant_now d).2 in
  Holds (Attest d') = true ∧ tidy d' ∧ extends d d' ∧
  ∀ id r, incident (d_store d') !! id = Some r → incident (d_store d) !! id = None → in_status r ∈ ShadowStatuses.
Proof.
  intros Ht Ha%Holds_attested Hat. cbv zeta. pose proof (shadow_run_adds clock now fl fs at_ instant_now d Hat) as Hadd. destruct (adds_only_invariant _ _ Hadd Ht Ha) as (Ht' & Ha' & He & Hs).
  split; [by apply Holds_attested|]. split; [done|]. split; [done|]. intros id r Hr Hn. destruct (Hs id r Hr) as [Hold|]; [congruence|done].
Qed.

(** ** Without a failure *)
Section complete.
Context `{Postgres} `{GoRFC3339} `{GoArch}.
Lemma raise_ok at_ id s l sev db : incident db !! id = None → inVocabulary IncidentLoci l = true → inVocabulary check_severity sev = true →
  raise_incident no_faults at_ id s l sev db = (inr 1, add_incident id (raised_row s l sev (timestamptz at_) IncidentDetected) db).
Proof. intros Hn Hl Hs. unfold raise_incident. rewrite Hl, Hs, Hn. done. Qed.

(** The hypotheses of an incident. *)
Lemma filed_valid id i h : Hypothesis_Validate h = None → Hypothesis_Validate (filed_under id (Z.of_nat i) h) = None.
Proof.
  unfold Hypothesis_Validate, filed_under. cbn [Cause CauseCategory h_Locus Confidence h_Rank h_Basis h_RankerRef SupportingEvidence ContradictingEvidence]. rewrite (proj2 (Z.ltb_ge (Z.of_nat i + 1) 1)) by lia.
  repeat (case_match; try done).
Qed.
Lemma insert_ok h t : Hypothesis_Validate h = None → h_Locus h ∈ Loci → t !! HypothesisId h = None → insertHypothesis no_faults h t = (inr tt, <[HypothesisId h := row_of_hypothesis h]> t).
Proof.
  intros Hv Hl Hn. apply cause_name_valid in Hv. unfold insertHypothesis. rewrite Hn. assert (E1 : null_or check_classification (NULLIF (CauseCategory h)) = true).
  { unfold NULLIF. destruct (String.eqb_spec (CauseCategory h) "") as [|Hne]; [done|]. apply elem_of_cons in Hv as [?|Hv]; [done|]. by apply inVocabulary_iff. }
  assert (E2 : inVocabulary IncidentLoci (h_Locus h) = true) by (by apply inVocabulary_iff). rewrite E1, E2. done.
Qed.
Definition filed (id : string) (i : nat) (hyps : list CausalHypothesis) (t : gmap string hypothesis_row) : Prop :=
  ∀ k h, hyps !! k = Some h → t !! HypothesisIdFor id (CauseCategory h) = Some (row_of_hypothesis (filed_under id (Z.of_nat (i + k)) h)).
Lemma write_hypotheses_ok id hyps : ∀ i t, Forall (λ h, Hypothesis_Validate h = None ∧ h_Locus h ∈ Loci) hyps → NoDup (CauseCategory <$> hyps) →
  (∀ h, h ∈ hyps → t !! HypothesisIdFor id (CauseCategory h) = None) → ∃ t', write_hypotheses (λ _, no_faults) id i hyps t = (inr tt, t') ∧ filed id i hyps t' ∧ t ⊆ t'.
Proof.
  induction hyps as [|h hyps IH]; intros i t Hv Hnd Hn; cbn [write_hypotheses]; [exists t; by split_and!|]. apply Forall_cons in Hv as [[Hh Hl] Hv]. rewrite fmap_cons in Hnd. apply NoDup_cons in Hnd as [Hno Hnd].
  rewrite (filed_valid id i h Hh). rewrite insert_ok; [|by apply filed_valid|done|apply Hn, elem_of_cons; by left]. set (t1 := <[_ := _]> t).
  assert (Hother : ∀ g, g ∈ hyps → HypothesisIdFor id (CauseCategory h) ≠ HypothesisIdFor id (CauseCategory g)).
  { intros g Hg E. apply HypothesisIdFor_inj in E as [_ E]; [|by apply cause_name_valid|]. - apply Hno. rewrite E. by apply list_elem_of_fmap_2.
    - rewrite Forall_forall in Hv. destruct (Hv g Hg). by apply cause_name_valid. }
  destruct (IH (S i) t1) as (t' & E & Hf & Hsub); [done|done| |].
  { intros g Hg. unfold t1. cbn [HypothesisId filed_under]. rewrite lookup_insert_ne by (by apply Hother). apply Hn, elem_of_cons. by right. }
  exists t'. split; [exact E|]. split; [|etrans; [|exact Hsub]; apply insert_subseteq, Hn, elem_of_cons; by left]. intros [|k] g Hk; cbn in Hk.
  - injection Hk as <-. rewrite Nat.add_0_r. eapply lookup_weaken; [|exact Hsub]. apply lookup_insert_eq.
  - rewrite Nat.add_succ_r. by apply (Hf k g).
Qed.

(** A finding that was not raised before. *)
Definition settled (hyps : list CausalHypothesis) : string := match hyps with [] => IncidentTriaged | _ => IncidentDiagnosed end.
Lemma writeOne_ok w clock now at_ f hyps basis sev written d : tidy d → clock_ok at_ → fi_Locus f ∈ Loci → iw_IncidentId written = IncidentIdFor (fi_SessionId f) (fi_Locus f) →
  String.eqb (w_Actor w) "" = false → inVocabulary check_severity sev = true → incident (d_store d) !! IncidentIdFor (fi_SessionId f) (fi_Locus f) = None →
  Forall (λ h, Hypothesis_Validate h = None ∧ h_Locus h ∈ Loci) hyps → NoDup (CauseCategory <$> hyps) →
  ∃ written' d', writeOne w clock now (λ _, no_faults) at_ f hyps basis sev written d = (inr written', d') ∧ iw_Locus written' = iw_Locus written ∧
    incident (d_store d') = <[IncidentIdFor (fi_SessionId f) (fi_Locus f) := raised_row (fi_SessionId f) (fi_Locus f) sev (timestamptz at_) (settled hyps)]> (incident (d_store d)) ∧
    filed (IncidentIdFor (fi_SessionId f) (fi_Locus f)) 0 hyps (d_hypothesis d').
Proof.
  intros [T1 T2 T3] Hat Hl Hid Ha Hsev Hn Hv Hnd. unfold writeOne. rewrite Hid. set (id := IncidentIdFor _ _) in *. rewrite raise_ok; [|done|by apply inVocabulary_iff|done]. change (1 =? 0) with false. cbv iota.
  set (st0 := add_incident _ _ _). assert (Hfresh : ∀ to e, to ∈ moves → e ∈ incident_event (d_store d) → ie_incident_event_id e ≠ event_id id to).
  { intros to e Hto He E. destruct (T2 e He) as [[x Hx] Hk]. specialize (Hk id to Hto E). subst. congruence. }
  destruct (moveTo no_faults _ _ _ _ IncidentDetected _ _ _ _) as [r1 st1] eqn:E1.
  eapply moveTo_step in E1; [|by apply elem_of_cons; left|by apply clock_nonzero|apply lookup_insert_eq]. destruct E1 as [E1 Hr1].
  assert (Er1 : r1 = inr 0) by (apply (Hr1 eq_refl Ha eq_refl); intros e He; apply (Hfresh IncidentTriaged e); [by apply elem_of_cons; left|exact He]). subst r1. destruct E1 as [[_ [e He]]|[-> _]]; [done|].
  set (st1 := add_event _ _). assert (I1 : incident st1 = <[id := raised_row (fi_SessionId f) (fi_Locus f) sev (timestamptz at_) IncidentTriaged]> (incident (d_store d))) by (cbn; apply insert_insert_eq).
  destruct hyps as [|h hyps]; [eexists _, _; split; [done|]; split; [done|]; split; [exact I1|by intros [] ?]|]. set (hs := h :: hyps) in *.
  destruct (write_hypotheses_ok id hs 0 (d_hypothesis d)) as (t & Et & Hf & _); [done|done| |].
  { intros g Hg. destruct (d_hypothesis d !! HypothesisIdFor id (CauseCategory g)) as [row|] eqn:Eh; [|done]. destruct (T3 _ _ Eh) as ([x Hx] & c & Hc & E). rewrite Forall_forall in Hv. destruct (Hv g Hg) as [Hgv _].
    apply HypothesisIdFor_inj in E as [E _]; [|by apply cause_name_valid|done]. rewrite <- E in Hx. congruence. }
  cbn [d_hypothesis with_store]. rewrite Et. cbn [d_store with_hypotheses with_store]. destruct (moveTo no_faults _ _ _ _ IncidentTriaged _ _ _ _) as [r2 st2] eqn:E2. destruct (clock_later at_ Hat) as [Hz _].
  eapply moveTo_step in E2; [|apply elem_of_cons; right; by apply list_elem_of_singleton|exact Hz|rewrite I1; apply lookup_insert_eq]. destruct E2 as [E2 Hr2].
  assert (Hdia : IncidentDiagnosed ∈ moves) by (apply elem_of_cons; right; by apply list_elem_of_singleton).
  assert (Er2 : r2 = inr 0).
  { apply (Hr2 eq_refl Ha eq_refl). intros e He. change (incident_event st1) with (incident_event (d_store d) ++ [move_event id IncidentDetected IncidentTriaged (w_Actor w) (timestamptz at_) (fi_Basis f)])%list in He.
    apply elem_of_app in He as [He|He%list_elem_of_singleton]; [by apply (Hfresh IncidentDiagnosed e)|]. rewrite He. cbn [ie_incident_event_id move_event]. intros E.
    apply event_id_inj in E as [_ E]; [done|by apply elem_of_cons; left|done]. } subst r2.
  destruct E2 as [[_ [e He]]|[-> _]]; [done|]. eexists _, _. split; [done|]. split; [done|]. split; [|exact Hf]. cbn [d_store with_store with_hypotheses incident add_event add_incident set_incident_event set_incident]. rewrite I1. apply insert_insert_eq.
Qed.

(** The findings of a session, one after the other. *)
Definition new_loci (existing : gmap string string) (findings : list triage_Finding) : list string :=
  fi_Locus <$> List.filter (λ f, Fired f && negb (bool_decide (is_Some (existing !! fi_Locus f)))) findings.
Definition ready_hypotheses (ranking : Ranking) : Prop :=
  ∀ l, Forall (λ h, Hypothesis_Validate h = None ∧ h_Locus h ∈ Loci) (hypotheses_of ranking l) ∧ NoDup (CauseCategory <$> hypotheses_of ranking l).
(** How an incident of a locus is left. *)
Definition left_settled (s sev : string) (ranking : Ranking) (d : deployment) (l : string) : Prop :=
  ∃ at_us, incident (d_store d) !! IncidentIdFor s l = Some (raised_row s l sev at_us (settled (hypotheses_of ranking l))) ∧
    filed (IncidentIdFor s l) 0 (hypotheses_of ranking l) (d_hypothesis d).
Lemma left_settled_extends s sev ranking d d' l : extends d d' → left_settled s sev ranking d l → left_settled s sev ranking d' l.
Proof.
  intros [_ _ Hi _ Hh] (at_us & E & Hf). exists at_us. split; [by eapply lookup_weaken|]. intros k h Hk. eapply lookup_weaken; [by apply Hf|done].
Qed.
Lemma write_findings_ok w clock now at_ existing sev findings : (∀ l, clock_ok (at_ l)) → String.eqb (w_Actor w) "" = false → inVocabulary check_severity sev = true → w_DryRun w = false →
  ∀ out d, tidy d → Forall (λ f, fi_SessionId f = sr_Session out ∧ Finding_Validate f = None) findings → NoDup (fi_Locus <$> findings) → ready_hypotheses (sr_Ranking out) →
  (∀ f, f ∈ findings → existing !! fi_Locus f = None → incident (d_store d) !! IncidentIdFor (sr_Session out) (fi_Locus f) = None) →
  ∃ out' d', write_findings w clock now (λ _ _, no_faults) at_ existing sev findings out d = (out', None, d') ∧ sr_Report out' = sr_Report out ∧ sr_Ranking out' = sr_Ranking out ∧
    tidy d' ∧ extends d d' ∧ iw_Locus <$> sr_Written out' = ((iw_Locus <$> sr_Written out) ++ new_loci existing findings)%list ∧
    (∀ l, l ∈ new_loci existing findings → left_settled (sr_Session out) sev (sr_Ranking out) d' l).
Proof.
  intros Hat Ha Hsev Hdry. induction findings as [|f findings IH]; intros out d Ht Hfs Hnd Hrdy Hno; cbn [write_findings].
  { exists out, d. split_and!; [done..|apply extends_refl|by rewrite app_nil_r|by intros l ?%not_elem_of_nil]. }
  apply Forall_cons in Hfs as [[Hs Hv] Hfs]. rewrite fmap_cons in Hnd. apply NoDup_cons in Hnd as [Hnf Hnd]. pose proof (finding_locus f Hv) as Hl.
  assert (Hno' : ∀ g, g ∈ findings → existing !! fi_Locus g = None → incident (d_store d) !! IncidentIdFor (sr_Session out) (fi_Locus g) = None) by (intros g Hg; apply Hno, elem_of_cons; by right).
  unfold new_loci. cbn [List.filter]. destruct (Fired f); cbn [negb andb]; [|by apply IH]. destruct (existing !! fi_Locus f) as [id|] eqn:Ex.
  { rewrite bool_decide_true by (by eexists). cbn [negb]. by apply (IH (add_raised _ out)). }
  rewrite bool_decide_false by (by intros [? ?]). cbn [negb]. rewrite Hv, Hdry. set (written := mkWritten _ _ _ _ _). set (hyps := hypotheses_of (sr_Ranking out) (fi_Locus f)).
  destruct (Hrdy (fi_Locus f)) as [Hhv Hhn]. pose proof (Hno f ltac:(apply elem_of_cons; by left) Ex) as Hnew.
  destruct (writeOne_ok w clock now (at_ (fi_Locus f)) f hyps (rk_Basis (sr_Ranking out)) sev written d) as (written' & d1 & E1 & Hwl & Hi & Hf); try done; [cbn; by rewrite Hs|by rewrite Hs|].
  rewrite E1. apply writeOne_adds in E1; [|apply Hat|done|cbn; by rewrite Hs]. assert (Hone : adds_one d d1).
  { destruct E1 as [->|]; [|done]. rewrite Hs in Hi. rewrite Hi, lookup_insert_eq in Hnew. done. }
  destruct (IH (add_written written' out) d1) as (out' & d' & E & Hrep & Hrk & Ht' & He & Hw & Hall); [by apply (adds_tidy d)|done|done|done| |].
  { intros g Hg Eg. rewrite Hi, Hs, lookup_insert_ne; [by apply Hno'|]. intros Eid. apply IncidentIdFor_inj in Eid as [_ Eid]; [|done|].
    - apply Hnf. rewrite Eid. by apply list_elem_of_fmap_2.
    - rewrite Forall_forall in Hfs. destruct (Hfs g Hg). by apply finding_locus. }
  exists out', d'. split; [exact E|]. split; [done|]. split; [done|]. split; [done|]. split; [eapply extends_trans; [by apply adds_extends|done]|]. split.
  - rewrite Hw, fmap_cons. cbn [sr_Written add_written]. rewrite fmap_app, <- app_assoc. cbn. by rewrite Hwl.
  - intros l. rewrite fmap_cons, elem_of_cons. intros [->|Hin]; [|by apply Hall]. apply (left_settled_extends _ _ _ d1); [done|]. exists (timestamptz (at_ (fi_Locus f))). rewrite Hs in Hi, Hf. split; [|exact Hf].
    rewrite Hi. apply lookup_insert_eq.
Qed.
(** Nothing is written for what was raised before. *)
Lemma write_findings_again w clock now fs at_ existing sev findings : ∀ out d, (∀ f, f ∈ findings → Fired f = true → is_Some (existing !! fi_Locus f)) →
  ∃ out', write_findings w clock now fs at_ existing sev findings out d = (out', None, d) ∧ sr_Written out' = sr_Written out.
Proof.
  induction findings as [|f findings IH]; intros out d Hex; cbn [write_findings]; [by exists out|].
  assert (Hex' : ∀ g, g ∈ findings → Fired g = true → is_Some (existing !! fi_Locus g)) by (intros g Hg; apply Hex, elem_of_cons; by right).
  destruct (Fired f) eqn:Ef; cbn [negb]; [|by apply IH]. destruct (Hex f ltac:(apply elem_of_cons; by left) Ef) as [id ->]. by apply (IH (add_raised _ out)).
Qed.
End complete.

Lemma index_is_Some {A} (key val : A → string) l k : ∀ m : gmap string string, is_Some (foldl (λ m x, <[key x := val x]> m) m l !! k) ↔ (∃ x, x ∈ l ∧ key x = k) ∨ is_Some (m !! k).
Proof.
  induction l as [|x l IH]; intros m; cbn [foldl]; [split; [by right|by intros [(x & ?%not_elem_of_nil & _)|?]]|]. rewrite IH, lookup_insert_is_Some'. setoid_rewrite elem_of_cons. naive_solver.
Qed.
Lemma raisedLoci_spec d s l : tidy d → l ∈ Loci → is_Some (raisedLoci d s !! l) ↔ is_Some (incident (d_store d) !! IncidentIdFor s l).
Proof.
  intros [T1 _ _] Hl. unfold raisedLoci. rewrite (index_is_Some (λ ir : string * incident_row, in_locus ir.2) fst). split.
  - intros [([id r] & Hin & E)|[? ?]]; [|done]. apply list_elem_of_In, filter_In in Hin as [Hin Es]. apply list_elem_of_In, elem_of_map_to_list in Hin. cbn in *. apply String.eqb_eq in Es.
    destruct (T1 id r Hin) as [_ Eid]. rewrite Es, E in Eid. rewrite <- Eid. by eexists.
  - intros [r Hr]. left. destruct (T1 _ r Hr) as [Hl' E]. apply IncidentIdFor_inj in E as [Es El]; [|done|done]. exists (IncidentIdFor s l, r). split; [|done].
    apply list_elem_of_In, filter_In. split; [by apply list_elem_of_In, elem_of_map_to_list|]. cbn. by apply String.eqb_eq.
Qed.

Lemma validate_ranks_each hs : ∀ i, validate_ranks i hs = None → Forall (λ h, Hypothesis_Validate h = None) hs.
Proof. induction hs as [|h hs IH]; intros i; [constructor|]. cbn. case_match; [done|]. case_match eqn:E; [done|]. constructor; [done|by eapply IH]. Qed.
Lemma pairs_classes hs l : NoDup (pair_of <$> hs) → NoDup (CauseCategory <$> List.filter (λ h, String.eqb (h_Locus h) l) hs).
Proof.
  induction hs as [|h hs IH]; [constructor|]. rewrite fmap_cons. intros [Hno Hnd]%NoDup_cons. cbn. destruct (String.eqb_spec (h_Locus h) l) as [El|]; [|by apply IH]. rewrite fmap_cons. constructor; [|by apply IH].
  intros (g & E & Hg)%list_elem_of_fmap. apply list_elem_of_In, filter_In in Hg as [Hg Eg%String.eqb_eq]. apply Hno, list_elem_of_fmap. exists g. split; [|by apply list_elem_of_In]. unfold pair_of. by rewrite E, El, Eg.
Qed.
Lemma rank_ready r ev anomalies report : Z.of_nat (weight (mkInput (Some report) ev anomalies) report) < 2 ^ 53 → ready_hypotheses (rca_Rank r (Some (mkInput (Some report) ev anomalies))).
Proof.
  intros Hw. destruct (rank_facts r ev anomalies report Hw) as (Hv & Hnd & Hpairs & _). set (rk := rca_Rank _ _) in *. unfold Ranking_Validate in Hv. destruct (validate_ranks 0 (Hypotheses rk)) eqn:E; [done|].
  apply validate_ranks_each in E. intros l. split; [|by apply pairs_classes]. apply Forall_forall. intros h Hh. apply list_elem_of_In, filter_In in Hh as [Hh _]. apply list_elem_of_In in Hh.
  rewrite Forall_forall in E. split; [by apply E|]. destruct (proj1 (Hpairs (h_Locus h) (CauseCategory h))) as (_ & cl & Hc & _ & Hl); [by apply (list_elem_of_fmap_2 pair_of)|].
  assert (Hall : forallb (λ c, forallb (contains Loci) (Loci_of c)) causeClasses = true) by done. rewrite forallb_forall in Hall. apply list_elem_of_In, Hall in Hc.
  rewrite forallb_forall in Hc. by apply contains_spec, Hc, list_elem_of_In.
Qed.
Lemma gather_returns db now s b : s ≠ "" → ∃ ev, triage_Gather db now s b = Ret ev ∧ ev_Extent ev = Some (triage_ReadExtent db).
Proof.
  intros Hs. destruct (execution_status db) as [headers|] eqn:Eh, (execution_details db) as [details|] eqn:Ed.
  1: { destruct (gather_ok db now s b headers details Hs Eh Ed) as (ev & E & Hev). exists ev. split; [done|apply Hev]. }
  all: eexists; unfold triage_Gather, triage_ReadExtent, ReadExtent; rewrite Eh, ?Ed; done.
Qed.
(** What the detectors recorded of a session, where their table is deployed. *)
Definition recorded_anomalies (db : tables) (s : string) : list Anomaly :=
  match anomaly db with Some rows => merge_sort detected_before (List.filter (λ a, String.eqb (an_SessionId a) s) rows) | None => [] end.
Lemma read_recorded db s : (if Anomalies (te_Extent (triage_ReadExtent db)) then ReadAnomalies db s else Ret []) = Ret (recorded_anomalies db s).
Proof. unfold triage_ReadExtent, ReadExtent, ReadAnomalies, recorded_anomalies. destruct (execution_status db), (execution_details db), (anomaly db); done. Qed.

(** The severity that is written. *)
Definition written_severity (w : shadow_Writer) : string := if String.eqb (w_Severity w) "" then SeverityInfo else w_Severity w.
(** Fewer pieces of evidence than a float64 counts exactly. *)
Definition countable_evidence `{GoArch} (w : shadow_Writer) (t : instant) (s : string) (d : deployment) : Prop := ∀ ev, triage_Gather (d_record d) t s (w_Baseline w) = Ret ev →
  let report := Classify (w_Classifier w) ev in Z.of_nat (weight (mkInput (Some report) (Some ev) (recorded_anomalies (d_record d) s)) report) < 2 ^ 53.
Lemma Run_loop `{Postgres} `{GoRFC3339} `{GoArch} w clock now fs at_ t s d : String.eqb s "" = false → String.eqb (w_Actor w) "" = false → Ready (d_targets d) = true → countable_evidence w t s d →
  ∃ ev, triage_Gather (d_record d) t s (w_Baseline w) = Ret ev ∧ let report := Classify (w_Classifier w) ev in
    let ranking := rca_Rank (w_Ranker w) (Some (mkInput (Some report) (Some ev) (recorded_anomalies (d_record d) s))) in
    Ranking_Validate ranking = None ∧
    writer_Run w clock now fs at_ t s d =
      (let '(out, e, d') := write_findings w clock now fs at_ (raisedLoci d s) (written_severity w) (Findings report)
         (mkSessionResult s report ranking [] [] (UnmappedLoci ranking) (Z.of_nat (length (recorded_anomalies (d_record d) s)))) d in (Some out, e, d')).
Proof.
  intros Hs Ha Hr Hc. destruct (gather_returns (d_record d) t s (w_Baseline w)) as (ev & Eg & Ex); [by apply String.eqb_neq|]. exists ev. split; [done|]. cbv zeta.
  set (ranking := rca_Rank _ _). assert (Hv : Ranking_Validate ranking = None) by (apply rank_facts, Hc, Eg). split; [done|].
  unfold writer_Run, ReadTargets. rewrite Hs, Ha, Hr, Eg. cbn [negb]. rewrite andb_false_r, Ex, read_recorded. cbn [Anomalies]. fold ranking. rewrite Hv. fold (written_severity w).
  assert (Hi : t_Incident (d_targets d) = true) by (unfold Ready in Hr; by destruct (t_Incident (d_targets d))). rewrite Hi. done.
Qed.

(** C12. Where no call fails, a run of the writer on a session succeeds and raises exactly the
    loci that are present and were not raised before: each has its incident, at [triaged] when
    no class is carried by the locus and at [diagnosed] otherwise, with the hypotheses of the
    locus filed under it, ranked from 1. A second run writes nothing. *)
Theorem shadow_writer_raises `{Postgres} `{GoRFC3339} `{GoArch} w clock now at_ t s d : tidy d → Ready (d_targets d) = true → s ≠ "" → w_Actor w ≠ "" → w_DryRun w = false →
  inVocabulary check_severity (written_severity w) = true → (∀ l, clock_ok (at_ l)) → countable_evidence w t s d →
  ∃ out d', writer_Run w clock now (λ _ _, no_faults) at_ t s d = (Some out, None, d') ∧ extends d d' ∧ tidy d' ∧
    iw_Locus <$> sr_Written out = List.filter (λ l, negb (bool_decide (is_Some (incident (d_store d) !! IncidentIdFor s l)))) (fired_loci (sr_Report out)) ∧
    (∀ l, l ∈ fired_loci (sr_Report out) → is_Some (incident (d_store d') !! IncidentIdFor s l)) ∧
    (∀ l, l ∈ iw_Locus <$> sr_Written out → left_settled s (written_severity w) (sr_Ranking out) d' l) ∧
    ∃ out', writer_Run w clock now (λ _ _, no_faults) at_ t s d' = (Some out', None, d') ∧ sr_Written out' = [].
Proof.
  intros Ht Hr Hs%String.eqb_neq Ha%String.eqb_neq Hdry Hsev Hat Hc. destruct (Run_loop w clock now (λ _ _, no_faults) at_ t s d Hs Ha Hr Hc) as (ev & Eg & _ & ->). set (report := Classify _ ev). set (ranking := rca_Rank _ _).
  set (out0 := mkSessionResult _ _ _ _ _ _ _). destruct (classify_valid (w_Classifier w) ev) as [El Hfv]; [rewrite (gather_session _ _ _ _ _ Eg); by apply String.eqb_neq|]. fold report in El, Hfv.
  assert (Hses : ∀ f, f ∈ Findings report → fi_SessionId f = s) by (intros f Hf; rewrite (classify_session _ _ _ Hf); by apply gather_session in Eg).
  assert (Hloc : ∀ f, f ∈ Findings report → fi_Locus f ∈ Loci) by (intros f Hf; rewrite Forall_forall in Hfv; by apply finding_locus, Hfv).
  destruct (write_findings_ok w clock now at_ (raisedLoci d s) (written_severity w) (Findings report) Hat Ha Hsev Hdry out0 d Ht) as (out & d' & E & Erep & Erk & Ht' & Hext & Hw & Hset).
  { apply Forall_forall. intros f Hf. rewrite Forall_forall in Hfv. split; [by apply Hses|by apply Hfv]. }
  { rewrite El. apply Loci_NoDup. }
  { apply rank_ready, Hc, Eg. }
  { intros f Hf Hx. apply eq_None_not_Some. intros Hi%raisedLoci_spec; [|done|by apply Hloc]. cbn in Hi. rewrite Hx in Hi. by destruct Hi. }
  exists out, d'. rewrite E. split; [done|]. split; [done|]. split; [done|]. change (sr_Report out0) with report in Erep. change (sr_Ranking out0) with ranking in Erk. rewrite Erep, Erk. cbn [sr_Written out0 fmap list_fmap app] in Hw.
  assert (Enew : new_loci (raisedLoci d s) (Findings report) = List.filter (λ l, negb (bool_decide (is_Some (incident (d_store d) !! IncidentIdFor s l)))) (fired_loci report)).
  { unfold new_loci, fired_loci. clear -Hloc Ht. induction (Findings report) as [|f fs IH]; [done|]. cbn [List.filter]. specialize (IH (λ g Hg, Hloc g (proj2 (elem_of_cons _ _ _) (or_intror Hg)))).
    destruct (Fired f); cbn [andb]; [|exact IH]. rewrite fmap_cons. cbn [List.filter]. assert (Hf : f ∈ f :: fs) by (apply elem_of_cons; by left).
    rewrite <- IH, (bool_decide_ext _ _ (raisedLoci_spec d s (fi_Locus f) Ht (Hloc f Hf))). by destruct (bool_decide _). }
  assert (Hraised : ∀ l, l ∈ fired_loci report → is_Some (incident (d_store d') !! IncidentIdFor s l)).
  { intros l Hl. destruct (decide (is_Some (incident (d_store d) !! IncidentIdFor s l))) as [[r Hr0]|Hn]; [exists r; eapply lookup_weaken; [exact Hr0|apply Hext]|].
    destruct (Hset l) as (at_us & Hi & _); [|by eexists]. rewrite Enew. apply list_elem_of_In, filter_In. split; [by apply list_elem_of_In|]. by rewrite bool_decide_false. }
  rewrite Hw, Enew. split; [done|]. split; [done|]. split; [intros l Hl; apply Hset; by rewrite Enew|].
  destruct Hext as [Erec Etar _ _ _]. destruct (Run_loop w clock now (λ _ _, no_faults) at_ t s d' Hs Ha) as (ev' & Eg' & _ & ->); [by rewrite Etar|unfold countable_evidence; rewrite Erec; exact Hc|].
  rewrite Erec, Eg in Eg'. injection Eg' as <-. fold report.
  match goal with |- context [write_findings _ _ _ _ _ _ _ _ ?o d'] => destruct (write_findings_again w clock now (λ _ _, no_faults) at_ (raisedLoci d' s) (written_severity w) (Findings report) o d') as (out' & -> & Ew) end.
  - intros f Hf Hfd. apply raisedLoci_spec; [done|by apply Hloc|]. apply Hraised. unfold fired_loci. apply list_elem_of_fmap_2, list_elem_of_In, filter_In. split; [by apply list_elem_of_In|done].
  - by exists out'.
Qed.

(** ** A run over the record of four runs *)
Module Demo.
#[local] Instance demo_postgres : Postgres := {| sha256 s := Itoa (Z.of_nat (String.length s)); jsonb_text _ := "{}"; to_char_us := chainTime |}.
#[local] Instance demo_rfc3339 : GoRFC3339 := {| RFC3339Nano t := Itoa (t_sec t); parse_RFC3339Nano _ := None |}.
Definition demo_clock : Time := mkTime 63800000000 0 UTC.
Definition demo_deployment : deployment := mkDeployment demo_tables empty_store ∅ 0 (mkTargets true true true true).
Definition demo_writer : shadow_Writer := mkWriter triage_Default rca_Default "triage@1" "" ModelVersion 390 false.
Definition demo_shadow_flags : shadow_flags := mkShadowFlags 700 390 "" "" "" 0 false false "" "info" ModelVersion 1 half 1000 3.
Lemma demo_tidy : tidy demo_deployment.
Proof. split; [intros id r|intros e He|intros hid h]; cbn in *; [by rewrite lookup_empty|by apply not_elem_of_nil in He|by rewrite lookup_empty]. Qed.
Lemma demo_clock_ok : clock_ok demo_clock.
Proof. unfold clock_ok. cbn. unfold second. lia. Qed.
Definition after_run : deployment := (shadow_run demo_shadow_flags demo_clock 0 (λ _ _ _, no_faults) (λ _ _, demo_clock) 1000 demo_deployment).2.
Lemma shadow_mode_attests_witness : Holds (Attest after_run) = true ∧ size (incident (d_store after_run)) = 4%nat.
Proof.
  split; [|vm_compute; reflexivity].
  exact (proj1 (shadow_mode_attests demo_shadow_flags demo_clock 0 (λ _ _ _, no_faults) (λ _ _, demo_clock) 1000 demo_deployment demo_tidy eq_refl (λ _ _, demo_clock_ok))).
Defined.
Lemma shadow_writer_raises_witness : ∃ out d', writer_Run demo_writer demo_clock 0 (λ _ _, no_faults) (λ _, demo_clock) 1000 "r4" demo_deployment = (Some out, None, d') ∧
  iw_Locus <$> sr_Written out = [LocusStepNeverStarted; LocusWorkerNotTerminated; LocusRowsLostSilently; LocusPerRecordFailuresUnreportable] ∧ extends demo_deployment d'.
Proof.
  destruct (shadow_writer_raises demo_writer demo_clock 0 (λ _, demo_clock) 1000 "r4" demo_deployment demo_tidy eq_refl) as (out & d' & E & He & _); [by intros ?|by intros ?|reflexivity|reflexivity|intros l; exact demo_clock_ok| |].
  - intros ev Eg. cbv zeta. vm_compute in Eg. injection Eg as <-. vm_compute. reflexivity.
  - exists out, d'. split; [exact E|]. split; [|exact He]. assert (Hw : iw_Locus <$> from_option sr_Written [] (writer_Run demo_writer demo_clock 0 (λ _ _, no_faults) (λ _, demo_clock) 1000 "r4" demo_deployment).1.1 =
      [LocusStepNeverStarted; LocusWorkerNotTerminated; LocusRowsLostSilently; LocusPerRecordFailuresUnreportable]) by (vm_compute; reflexivity). rewrite E in Hw. exact Hw.
Defined.
End Demo.
