(* ===== verification/Briefing.v ===== *)
(** * Values of a document (src/jets/agentic/briefing)

    The documents that briefings and templates read: the readings of a value as text, as
    a number and as a date (value.go), and the selectors that address a set of values
    (selector.go). A document is what extractAsEntity builds or what decoding JSON gives:
    scalars, nodes ([map[string]any]) and slices of [any]. *)
From stdpp Require Import base list strings gmap.
From Stdlib Require Import Ascii ZArith Lia SpecFloat.
From S2P Require Import Prelude GoFloat GoText GoTextLaws GoValue Records.
Local Open Scope string_scope.
Local Open Scope Z_scope.

#[local] Set Warnings "-register-all".

(** [Zoned] is a [time.Time] in a fixed zone, with its offset in seconds, and [Number] a
    [json.Number]. A [[]any] is [Items], or the slice of [any] of a record. *)
Inductive value :=
| Scalar (v : any)
| Zoned (t : Time) (offset : Z)
| TimePtr (t : option Time)
| Number (s : string)
| Node (members : gmap string value)
| Items (l : list value).
Definition value_nil (v : value) : bool := match v with Scalar VNil => true | _ => false end.
Definition as_items (v : value) : option (list value) :=
  match v with Items l => Some l | Scalar (VSlice l) => Some (Scalar <$> l) | _ => None end.

(** [fmt.Sprintf("%v", v)] of a value that is neither a scalar nor a number. *)
Class DocFmt := { sprint_doc : value → string }.

(** ** Dates *)

(** A date that was read: its instant and the zone it was written in, UTC or that of the
    machine when there is none. *)
Record date := mkDate { d_time : Time; d_offset : option Z }.
Definition date_value (d : date) : value :=
  match d_offset d with None => Scalar (VTime (d_time d)) | Some off => Zoned (d_time d) off end.
(** [Time.After]. *)
Definition d_After (a b : date) : bool := t_Before (d_time b) (d_time a).
Definition d_civil `{GoZone} (d : date) : Z * Z * Z :=
  match d_offset d with
  | None => t_civil (d_time d)
  | Some off => civil_from_days ((t_sec (d_time d) - unixToInternal + off) / 86400)
  end.
(** [appendInt] of package time. *)
Definition append_int (width : nat) (z : Z) : string :=
  if z <? 0 then String "-" (pad0 width (Itoa (- z))) else pad0 width (Itoa z).
(** [Format(dateOnly)]. *)
Definition format_dateOnly (c : Z * Z * Z) : string :=
  append_int 4 c.1.1 +:+ "-" +:+ append_int 2 c.1.2 +:+ "-" +:+ append_int 2 c.2.

(** [time.Parse] for the elements the layouts have. *)
Inductive std_chunk := stdLit (s : string) | stdLongYear | stdZeroMonth | stdZeroDay | stdNumMonth | stdDay
  | stdHour | stdZeroMinute | stdZeroSecond | stdISO8601ColonTZ.
Record parsed := mkParsed { p_year : Z; p_month : Z; p_day : Z; p_hour : Z; p_min : Z; p_sec : Z; p_nsec : Z; p_zone : option Z }.
(** [getnum]: two digits, or one when the width is not fixed. *)
Definition getnum (fixed : bool) (s : string) : option (Z * string) :=
  match s with
  | String a r =>
      if is_digit a then
        match r with
        | String b r' => if is_digit b then Some (digit_val a * 10 + digit_val b, r') else if fixed then None else Some (digit_val a, r)
        | EmptyString => if fixed then None else Some (digit_val a, r)
        end
      else None
  | EmptyString => None
  end.
Definition num_in_range (lo hi : Z) (r : option (Z * string)) : option (Z * string) :=
  match r with Some (z, s) => if (z <? lo) || (hi <? z) then None else Some (z, s) | None => None end.
Fixpoint cutspace (s : string) : string := match s with String " " r => cutspace r | _ => s end.
(** [skip] of a literal. *)
Definition skip (prefix value : string) : option string :=
  match prefix with
  | String " " EmptyString => match value with String c _ => if Ascii.eqb c " " then Some (cutspace value) else None | EmptyString => Some EmptyString end
  | _ => if String.prefix prefix value then Some (str_drop (String.length prefix) value) else None
  end.
Fixpoint span_digits (s : string) : nat := match s with String c r => if is_digit c then S (span_digits r) else O | _ => O end.
(** The fraction of a second the layout does not have: its digits, of which nine count. *)
Definition second_fraction (s : string) : Z * string :=
  match s with
  | String c r =>
      let n := span_digits r in
      if (Ascii.eqb c "." || Ascii.eqb c ",") && (0 <? n)%nat then
        let k := Nat.min n 9 in
        (default 0 (digits_val 0 (str_take k r)) * 10 ^ (9 - Z.of_nat k), str_drop n r)
      else (0, s)
  | _ => (0, s)
  end.
Definition zone_of (s : string) : option (option Z * string) :=
  match s with
  | String "Z" r => Some (None, r)
  | String g (String h1 (String h2 (String c (String m1 (String m2 r))))) =>
      if negb (Ascii.eqb c ":") then None
      else match getnum true (String h1 (String h2 EmptyString)), getnum true (String m1 (String m2 EmptyString)) with
        | Some (hr, _), Some (mm, _) =>
            if (24 <? hr) || (60 <? mm) then None
            else let off := (hr * 60 + mm) * 60 in
              if Ascii.eqb g "+" then Some (Some off, r) else if Ascii.eqb g "-" then Some (Some (- off), r) else None
        | _, _ => None
        end
  | _ => None
  end.
Definition parse_chunk (c : std_chunk) (st : parsed) (value : string) : option (parsed * string) :=
  let '(mkParsed y mo d h mi s ns z) := st in
  match c with
  | stdLit l => match skip l value with Some r => Some (st, r) | None => None end
  | stdLongYear =>
      let p := str_take 4 value in
      if (4 <=? String.length value)%nat && str_all is_digit p then Some (mkParsed (default 0 (digits_val 0 p)) mo d h mi s ns z, str_drop 4 value) else None
  | stdZeroMonth => match num_in_range 1 12 (getnum true value) with Some (m, r) => Some (mkParsed y m d h mi s ns z, r) | None => None end
  | stdNumMonth => match num_in_range 1 12 (getnum false value) with Some (m, r) => Some (mkParsed y m d h mi s ns z, r) | None => None end
  | stdZeroDay => match getnum true value with Some (n, r) => Some (mkParsed y mo n h mi s ns z, r) | None => None end
  | stdDay => match getnum false value with Some (n, r) => Some (mkParsed y mo n h mi s ns z, r) | None => None end
  | stdHour => match num_in_range 0 23 (getnum false value) with Some (n, r) => Some (mkParsed y mo d n mi s ns z, r) | None => None end
  | stdZeroMinute => match num_in_range 0 59 (getnum true value) with Some (n, r) => Some (mkParsed y mo d h n s ns z, r) | None => None end
  | stdZeroSecond => match num_in_range 0 59 (getnum true value) with
      | Some (n, r) => let '(ns, r) := second_fraction r in Some (mkParsed y mo d h mi n ns z, r)
      | None => None end
  | stdISO8601ColonTZ => match zone_of value with Some (z, r) => Some (mkParsed y mo d h mi s ns z, r) | None => None end
  end.
Fixpoint parse_chunks (layout : list std_chunk) (st : parsed) (value : string) : option parsed :=
  match layout with
  | [] => match value with EmptyString => Some st | _ => None end
  | c :: layout => match parse_chunk c st value with Some (st, r) => parse_chunks layout st r | None => None end
  end.
Definition isLeap (y : Z) : bool := (y mod 4 =? 0) && (negb (y mod 100 =? 0) || (y mod 400 =? 0)).
Definition daysIn (m y : Z) : Z :=
  if m =? 2 then if isLeap y then 29 else 28 else if (m =? 4) || (m =? 6) || (m =? 9) || (m =? 11) then 30 else 31.
Definition time_Parse (layout : list std_chunk) (value : string) : option date :=
  match parse_chunks layout (mkParsed 0 1 1 0 0 0 0 None) value with
  | Some (mkParsed y mo d h mi s ns z) =>
      if (d <? 1) || (daysIn mo y <? d) then None
      else let t := time_Date y mo d h mi s ns in
        match z with
        | None => Some (mkDate t None)
        | Some off => Some (mkDate (mkTime (addSec (t_sec t) (- off)) (t_nsec t) UTC) (Some off))
        end
  | None => None
  end.
Definition dateOnly : list std_chunk := [stdLongYear; stdLit "-"; stdZeroMonth; stdLit "-"; stdZeroDay].
Definition unpadded : list std_chunk := [stdLongYear; stdLit "-"; stdNumMonth; stdLit "-"; stdDay].
Definition clock_layout : list std_chunk := [stdHour; stdLit ":"; stdZeroMinute; stdLit ":"; stdZeroSecond].
Definition dateLayouts : list (list std_chunk) :=
  [ dateOnly;
    dateOnly ++ [stdLit "T"] ++ clock_layout;
    dateOnly ++ [stdLit "T"] ++ clock_layout ++ [stdISO8601ColonTZ];
    dateOnly ++ [stdLit " "] ++ clock_layout;
    unpadded;
    unpadded ++ [stdLit "T"] ++ clock_layout ]%list.
Definition AsDate (v : value) : option date :=
  match v with
  | Scalar (VTime x) => Some (mkDate x None)
  | Zoned x off => Some (mkDate x (Some off))
  | TimePtr (Some x) => Some (mkDate x None)
  | Scalar (VStr x) =>
      let s := TrimSpace x in
      if String.eqb s "" then None
      else List.fold_right (λ layout rest, match time_Parse layout s with Some t => Some t | None => rest end) None dateLayouts
  | _ => None
  end.

(** ** Text and numbers *)
Definition ValueText `{GoFmt} `{GoZone} `{DocFmt} (v : value) : string :=
  match v with
  | Scalar VNil => ""
  | Scalar (VStr x) => x
  | Scalar (VTime x) => format_dateOnly (t_civil x)
  | Zoned x off => format_dateOnly (d_civil (mkDate x (Some off)))
  | Scalar (VF64 x) => FormatFloat x
  | Scalar (VF32 x) => FormatFloat32 x
  | Scalar (VInt x | VInt64 x | VUint x | VUint64 x) => Itoa x
  | Scalar (VBool x) => if x then "true" else "false"
  | Scalar x => sprint_v x
  | Number s => s
  | _ => sprint_doc v
  end.
Definition AsInt `{GoArch} (v : value) : option Z :=
  match v with
  | Scalar (VInt x | VInt32 x | VInt64 x | VUint32 x) => Some x
  | Scalar (VUint x | VUint64 x) => Some (i64 x)
  | Scalar (VF32 x | VF64 x) => Some (f64_to_i64 x)
  | Number x => Atoi x
  | Scalar (VStr x) => Atoi (TrimSpace x)
  | _ => None
  end.
Definition AsFloat (v : value) : option float64 :=
  match v with
  | Scalar (VInt x | VInt32 x | VInt64 x | VUint x | VUint32 x | VUint64 x) => Some (f64_of_Z x)
  | Scalar (VF32 x | VF64 x) => Some x
  | Number x => ParseFloat x
  | Scalar (VStr x) => ParseFloat (TrimSpace x)
  | _ => None
  end.

(** ** Selectors *)
Record segment := mkSegment { sg_name : string; each : bool }.
Record Selector := mkSelector { sel_raw : string; segments : list segment }.
Record Located := mkLocated { Pointer : string; Value : value }.
Definition parse_segment (p : string) : res segment :=
  let each := HasSuffix p "[]" in
  let name := if each then TrimSuffix p "[]" else p in
  if String.eqb name "" then Fail "selector has an empty segment"
  else if Contains name "[" || Contains name "]" then Fail "selector: the segment is malformed; [] selects every element and must close a segment"
  else match Atoi name with
    | Some _ => Fail "selector: the segment is an array index; a provenance selector addresses every element with [] rather than one by position"
    | None => Ret (mkSegment name each)
    end.
Fixpoint parse_segments (parts : list string) : res (list segment) :=
  match parts with
  | [] => Ret []
  | p :: parts => let! s := parse_segment p in let! segs := parse_segments parts in Ret (s :: segs)
  end.
Definition ParseSelector (raw : string) : res Selector :=
  if String.eqb (TrimSpace raw) "" then Fail "a selector cannot be empty"
  else let! segs := parse_segments (Split raw ".") in Ret (mkSelector raw segs).
Definition IsZero (s : Selector) : bool := match segments s with [] => true | _ => false end.
Definition escapePointerToken (tok : string) : string := replace_from "/" "~1" 0 (replace_from "~" "~0" 0 tok).
Fixpoint resolveFrom (segs : list segment) (node : value) (ptr : string) : list Located :=
  match segs with
  | [] => [mkLocated ptr node]
  | seg :: segs =>
      match node with
      | Node obj =>
          match obj !! sg_name seg with
          | None => []
          | Some child =>
              if value_nil child then []
              else
                let childPtr := ptr +:+ "/" +:+ escapePointerToken (sg_name seg) in
                if negb (each seg) then resolveFrom segs child childPtr
                else match as_items child with
                  | None => resolveFrom segs child childPtr
                  | Some items => concat (imap (λ i item, resolveFrom segs item (childPtr +:+ "/" +:+ Itoa (Z.of_nat i))) items)
                  end
          end
      | _ => []
      end
  end.
Definition Resolve (s : Selector) (doc : value) : list Located := if IsZero s then [] else resolveFrom (segments s) doc "".
Definition Covers (s : Selector) (doc : value) (pointer : string) : bool := existsb (λ l, String.eqb (Pointer l) pointer) (Resolve s doc).
