(* ===== verification/TextTemplate.v ===== *)
(** * Text templates (src/jets/agentic/template)

    A template is a document of paragraphs and groups whose text is markup: literal words
    with holes in them. [Compile] (compile.go) reads the markup (markup.go), its chains of
    paths and constructs (chain.go, construct.go) and its predicates (predicate.go), and
    refuses what is not well formed; [Render] (render.go) writes the text of a document and
    reports what the template requires and the document does not have.

    The decoding of a specification from JSON is not modelled. An error is the position it
    is reported at and the constant text of its message; the name of the template is left
    out. Go functions that index a slice or call a function that may be nil answer [Panic]
    here, so that [Render] has to be proved to return. *)
From stdpp Require Import base list strings gmap.
From Stdlib Require Import Ascii ZArith Lia SpecFloat.
From S2P Require Import Prelude GoFloat GoText GoTextLaws GoValue Records Briefing.
Local Open Scope string_scope.
Local Open Scope Z_scope.
#[local] Set Warnings "-register-all".

(** [unicode.ToUpper] of a rune. *)
Class GoRunes := { rune_upper : Z → Z }.
(** [string(r)]. *)
Definition rune_string (r : Z) : string := if ValidRune r then EncodeRune r else EncodeRune RuneError.

(** ** The functions of the constructs *)
Section functions.
Context `{GoArch} `{GoFmt} `{GoZone} `{DocFmt} `{GoRunes}.

(** The suffix of the first rune starts after the text of the rune, which is three bytes
    long when the rune is invalid. *)
Definition sentence (s : string) : res string :=
  match runes s with
  | [] => Ret s
  | (r, _) :: _ =>
      let n := String.length (rune_string r) in
      if (String.length s <? n)%nat then Panic "slice bounds out of range" else Ret (rune_string (rune_upper r) +:+ str_drop n s)
  end.
Definition unitWords : list string :=
  ["zero"; "one"; "two"; "three"; "four"; "five"; "six"; "seven"; "eight"; "nine"; "ten"; "eleven"; "twelve"; "thirteen"; "fourteen"; "fifteen"; "sixteen"; "seventeen"; "eighteen"; "nineteen"].
Definition tensWords : list string := [""; ""; "twenty"; "thirty"; "forty"; "fifty"; "sixty"; "seventy"; "eighty"; "ninety"].
Definition word_at (l : list string) (n : Z) : res string :=
  if n <? 0 then Panic "index out of range" else match l !! Z.to_nat n with Some w => Ret w | None => Panic "index out of range" end.
Fixpoint words_go (depth : nat) (n : Z) : res string :=
  if (n <? 0) || (999 <? n) then Ret (Itoa n)
  else if n <? 20 then word_at unitWords n
  else if n <? 100 then
    let! t := word_at tensWords (Z.quot n 10) in
    if Z.rem n 10 =? 0 then Ret t else let! u := word_at unitWords (Z.rem n 10) in Ret (t +:+ "-" +:+ u)
  else
    let! u := word_at unitWords (Z.quot n 100) in
    if Z.rem n 100 =? 0 then Ret (u +:+ " hundred")
    else match depth with O => Loop | S depth => let! w := words_go depth (Z.rem n 100) in Ret (u +:+ " hundred and " +:+ w) end.
Definition words (n : Z) : res string := words_go 1 n.
Definition plural (n : Z) (word : string) : string := if n =? 1 then word else word +:+ "s".
Definition longMonthNames : list string :=
  ["January"; "February"; "March"; "April"; "May"; "June"; "July"; "August"; "September"; "October"; "November"; "December"].
(** [Month.String]. *)
Definition month_String (m : Z) : string :=
  match (if m <? 1 then None else longMonthNames !! Z.to_nat (m - 1)) with Some s => s | None => "%!Month(" +:+ Itoa m +:+ ")" end.
Definition dMMMM (t : date) : string := let '(_, m, d) := d_civil t in Itoa d +:+ " " +:+ month_String m.
Definition dMMMMyyyy (t : date) : string := let '(y, _, _) := d_civil t in dMMMM t +:+ " " +:+ Itoa y.
(** The date a selector finds in a node: that of the first value that is not nil. *)
Definition node_date (sel : Selector) (n : value) : option date :=
  match List.find (λ l, negb (value_nil (Value l))) (Resolve sel n) with Some l => AsDate (Value l) | None => None end.
Definition later_node (best : option (value * date)) (n : value) (t : date) : option (value * date) :=
  match best with None => Some (n, t) | Some (_, bestAt) => if d_After t bestAt then Some (n, t) else best end.
Definition latestBy (nodes : list value) (sel : Selector) : option value :=
  fst <$> foldl (λ best n, match node_date sel n with None => best | Some t => later_node best n t end) None nodes.
Definition maxDate (vals : list value) : option date :=
  foldl (λ best v, match AsDate v with None => best | Some t => match best with None => Some t | Some b => if d_After t b then Some t else best end end) None vals.
Definition stripCode (s : string) : string :=
  let t := TrimSpace s in
  if negb (HasPrefix t "(") then s
  else match String.index 0 ")" t with None => s | Some i => TrimSpace (str_drop (i + 1) t) end.
(** [strings.Join] between all but the last pair. *)
Definition join_last (items : list string) (sep last : string) : string :=
  match items with
  | [] => ""
  | [x] => x
  | x :: rest => join sep (x :: removelast rest) +:+ last +:+ List.last rest ""
  end.
(** [strings.Fields]. *)
Fixpoint fields_from (cur : string) (l : list (Z * string)) : list string :=
  match l with
  | [] => if String.eqb cur "" then [] else [cur]
  | (r, b) :: l => if IsSpace r then if String.eqb cur "" then fields_from "" l else cur :: fields_from "" l else fields_from (cur +:+ b) l
  end.
Definition Fields (s : string) : list string := fields_from "" (runes s).
Definition rune_count (w : string) : Z := Z.of_nat (length (runes w)).
Fixpoint wrap_from (width lineLen : Z) (fields : list string) : string :=
  match fields with
  | [] => ""
  | w :: fields =>
      let n := rune_count w in
      if lineLen + 1 + n <=? width then " " +:+ w +:+ wrap_from width (lineLen + 1 + n) fields
      else String "010" (w +:+ wrap_from width n fields)
  end.
Definition wrap (s : string) (width : Z) : string :=
  match Fields s with [] => "" | w :: fields => w +:+ wrap_from width (rune_count w) fields end.

(** ** The constructs *)
Inductive shape := shapeFirst | shapeMap | shapeFold.
Inductive valueKind := kindUnknown | kindText | kindNumber | kindDate | kindNode | kindAny.
Inductive argKind := argLiteral | argPath.
#[global] Instance shape_eq : EqDecision shape.
Proof. solve_decision. Defined.
#[global] Instance valueKind_eq : EqDecision valueKind.
Proof. solve_decision. Defined.
Definition accepts (want got : valueKind) : bool :=
  if bool_decide (want = kindAny) || bool_decide (got = kindUnknown) then true
  else if bool_decide (want = got) then true
  else if bool_decide (want = kindText) then bool_decide (got = kindNumber) || bool_decide (got = kindDate)
  else false.
Record chainArg := mkArg { literal : string; arg_path : Selector; arg_isPath : bool }.
(** [one] or [fold] is nil, and a call of it panics, when the shape does not use it. *)
Record construct := mkConstruct {
  c_name : string; c_shape : shape; takes : valueKind; gives : valueKind; c_args : list argKind;
  one : value → list chainArg → res (option value); fold : list value → list chainArg → res (option value) }.
Definition nil_one (_ : value) (_ : list chainArg) : res (option value) := Panic "nil pointer dereference".
Definition nil_fold (_ : list value) (_ : list chainArg) : res (option value) := Panic "nil pointer dereference".
Definition arg_at (args : list chainArg) (i : nat) : res chainArg :=
  match args !! i with Some a => Ret a | None => Panic "index out of range" end.
Definition text_value (s : string) : value := Scalar (VStr s).
Definition as_node (v : value) : option value := match v with Node _ => Some v | _ => None end.
Definition constructs : list construct := [
  mkConstruct "words" shapeFirst kindNumber kindText []
    (λ v _, match AsInt v with None => Ret (Some (text_value (ValueText v))) | Some n => let! w := words n in Ret (Some (text_value w)) end) nil_fold;
  mkConstruct "sentence" shapeFirst kindText kindText [] (λ v _, let! s := sentence (ValueText v) in Ret (Some (text_value s))) nil_fold;
  mkConstruct "plural" shapeFirst kindNumber kindText [argLiteral]
    (λ v args, let n := default 0 (AsInt v) in let! a := arg_at args 0 in Ret (Some (text_value (plural n (literal a))))) nil_fold;
  mkConstruct "d_MMMM" shapeFirst kindDate kindText []
    (λ v _, Ret (Some (text_value (match AsDate v with None => "" | Some t => dMMMM t end)))) nil_fold;
  mkConstruct "d_MMMM_yyyy" shapeFirst kindDate kindText []
    (λ v _, Ret (Some (text_value (match AsDate v with None => "" | Some t => dMMMMyyyy t end)))) nil_fold;
  mkConstruct "latest_by" shapeFold kindNode kindNode [argPath] nil_one
    (λ l args, let! a := arg_at args 0 in Ret (latestBy (omap as_node l) (arg_path a)));
  mkConstruct "strip_code" shapeMap kindText kindText [] (λ v _, Ret (Some (text_value (stripCode (ValueText v))))) nil_fold;
  mkConstruct "join" shapeFold kindText kindText [argLiteral; argLiteral] nil_one
    (λ l args, let items := List.filter (λ s, negb (String.eqb s "")) ((λ v, TrimSpace (ValueText v)) <$> l) in
       let! a := arg_at args 0 in let! b := arg_at args 1 in Ret (Some (text_value (join_last items (literal a) (literal b)))));
  mkConstruct "count" shapeFold kindAny kindNumber [] nil_one (λ l _, Ret (Some (Scalar (VInt (Z.of_nat (length l))))));
  mkConstruct "max" shapeFold kindDate kindDate [] nil_one (λ l _, Ret (date_value <$> maxDate l)) ].
Definition construct_named (name : string) : option construct := List.find (λ c, String.eqb (c_name c) name) constructs.

(** ** Positions and quotes *)
Record position := mkPosition { pos_path : string; off : Z }.
Definition position_String (p : position) : string :=
  if off p <? 0 then pos_path p else pos_path p +:+ " at offset " +:+ Itoa (off p).
Definition at_offset (p : position) (o : Z) : position := mkPosition (pos_path p) o.
Definition compileErr {A} (p : position) (msg : string) : res A := Fail (position_String p +:+ ": " +:+ msg).

Definition APOS : ascii := "'".
Fixpoint last_is (c : ascii) (s : string) : bool :=
  match s with "" => false | String d "" => Ascii.eqb d c | String _ r => last_is c r end.
Definition unquote (s : string) : option string :=
  match s with
  | String a r => if Ascii.eqb a APOS && (2 <=? String.length s)%nat && last_is APOS r then Some (str_take (String.length r - 1) r) else None
  | "" => None
  end.
Fixpoint split_outside (sep : ascii) (inQuote : bool) (s : string) : string * list string :=
  match s with
  | "" => ("", [])
  | String c r =>
      if Ascii.eqb c APOS then let '(w, l) := split_outside sep (negb inQuote) r in (String c w, l)
      else if Ascii.eqb c sep && negb inQuote then let '(w, l) := split_outside sep inQuote r in ("", w :: l)
      else let '(w, l) := split_outside sep inQuote r in (String c w, l)
  end.
Definition splitOutsideQuotes (s : string) (sep : ascii) : list string := let '(w, l) := split_outside sep false s in w :: l.

(** ** Chains *)
Inductive cardinality := cardOne | cardMany.
#[global] Instance cardinality_eq : EqDecision cardinality.
Proof. solve_decision. Defined.
Inductive chainLink := PathLink (path : Selector) | ConstructLink (c : construct) (args : list chainArg).
Record chain := mkChain { ch_raw : string; links : list chainLink; ch_kind : valueKind; ch_card : cardinality }.
Definition constructNameOf (link : string) : string :=
  TrimSpace (match String.index 0 ":" link with Some i => str_take i link | None => link end).
Definition is_blank (c : ascii) : bool := Ascii.eqb c " " || Ascii.eqb c "009" || Ascii.eqb c "010".
Definition appendPath (ch : chain) (link : string) (p : position) : res chain :=
  if negb (str_all (λ c, negb (is_blank c)) link) then compileErr p "chain: the link is not a path; a path carries no spaces, and a block form is written {{if ...}}, {{with ...}} or {{each ...}}"
  else if negb (bool_decide (ch_kind ch = kindNode)) && negb (bool_decide (ch_kind ch = kindUnknown)) then compileErr p "chain: the link addresses into a value which is not a node"
  else match ParseSelector link with
    | Ret sel => Ret (mkChain (ch_raw ch) (links ch ++ [PathLink sel])%list kindUnknown (if bool_decide (ch_card ch = cardMany) || Contains link "[]" then cardMany else ch_card ch))
    | _ => compileErr p "chain: the path is not a selector"
    end.
Definition appendConstruct (ch : chain) (c : construct) (args : list chainArg) (p : position) : res chain :=
  if negb (accepts (takes c) (ch_kind ch)) then compileErr p "chain: the construct is applied to another kind than it takes"
  else if negb (bool_decide (c_shape c = shapeFirst)) && bool_decide (ch_card ch = cardOne) then compileErr p "chain: the construct needs a list, which a path writes with []"
  else Ret (mkChain (ch_raw ch) (links ch ++ [ConstructLink c args])%list (gives c) (if bool_decide (c_shape c = shapeMap) then ch_card ch else cardOne)).
Definition no_path : Selector := mkSelector "" [].
Definition parse_arg (p : position) (k : argKind) (w : string) : res chainArg :=
  match k with
  | argLiteral => match unquote w with None => compileErr p "the argument is a literal, which is written between single quotes" | Some lit => Ret (mkArg lit no_path false) end
  | argPath =>
      match unquote w with
      | Some _ => compileErr p "the argument is a path and is given a quoted literal"
      | None => match ParseSelector w with Ret sel => Ret (mkArg "" sel true) | _ => compileErr p "the argument is not a selector" end
      end
  end.
Fixpoint parse_each_arg (p : position) (ks : list argKind) (ws : list string) : res (list chainArg) :=
  match ks, ws with
  | k :: ks, w :: ws => let! a := parse_arg p k w in let! l := parse_each_arg p ks ws in Ret (a :: l)
  | _, _ => Ret []
  end.
Definition parseArgs (link : string) (c : construct) (p : position) : res (list chainArg) :=
  let raw := match String.index 0 ":" link with Some i => TrimSpace (str_drop (i + 1) link) | None => "" end in
  let written := if String.eqb raw "" then [] else TrimSpace <$> splitOutsideQuotes raw "," in
  if negb (length written =? length (c_args c))%nat then compileErr p "the construct takes another number of arguments"
  else parse_each_arg p (c_args c) written.
(** The links after the first; [prevWasPath] is whether the last one was a path. *)
Fixpoint parse_links (p : position) (ch : chain) (prevWasPath : bool) (parts : list string) : res chain :=
  match parts with
  | [] => Ret ch
  | part :: parts =>
      let link := TrimSpace part in
      if String.eqb link "" then compileErr p "chain has an empty link; '|' separates a path or a construct from the next"
      else match construct_named (constructNameOf link) with
        | Some c =>
            let! args := parseArgs link c p in
            let! ch := appendConstruct ch c args p in
            parse_links p ch false parts
        | None =>
            if prevWasPath then compileErr p "chain: the name is not a construct"
            else let! ch := appendPath ch link p in parse_links p ch true parts
        end
  end.
Definition parseChain (src : string) (p : position) : res chain :=
  let raw := TrimSpace src in
  if String.eqb raw "" then compileErr p "an empty chain: a substitution needs a path"
  else match splitOutsideQuotes raw "|" with
    | [] => Ret (mkChain raw [] kindNode cardOne)
    | part :: parts =>
        let link := TrimSpace part in
        if String.eqb link "" then compileErr p "chain has an empty link; '|' separates a path or a construct from the next"
        else let! ch := appendPath (mkChain raw [] kindNode cardOne) link p in parse_links p ch true parts
    end.
(** The values of a path that are not nil. *)
Definition path_values (path : Selector) (cur : list value) : list value :=
  concat ((λ v, List.filter (λ x, negb (value_nil x)) (Value <$> Resolve path v)) <$> cur).
Fixpoint map_one (f : value → res (option value)) (cur : list value) : res (list value) :=
  match cur with
  | [] => Ret []
  | v :: cur => let! x := f v in let! l := map_one f cur in Ret (match x with Some y => y :: l | None => l end)
  end.
Definition of_option (x : option value) : list value := match x with Some v => [v] | None => [] end.
Definition eval_link (l : chainLink) (cur : list value) : res (list value) :=
  match l with
  | PathLink path => Ret (path_values path cur)
  | ConstructLink c args =>
      match c_shape c with
      | shapeFold => let! v := fold c cur args in Ret (of_option v)
      | shapeFirst => match cur with [] => Ret [] | v :: _ => let! x := one c v args in Ret (of_option x) end
      | shapeMap => map_one (λ v, one c v args) cur
      end
  end.
Fixpoint eval_links (ls : list chainLink) (cur : list value) : res (list value) :=
  match ls with [] => Ret cur | l :: ls => let! cur := eval_link l cur in eval_links ls cur end.
Definition chain_eval (ch : chain) (ctx : value) : res (list value) := eval_links (links ch) [ctx].
Definition chain_first (ch : chain) (ctx : value) : res (option value) := let! vals := chain_eval ch ctx in Ret (head vals).
Definition chain_text (ch : chain) (ctx : value) : res string :=
  let! v := chain_first ch ctx in Ret (match v with Some v => ValueText v | None => "" end).
Definition requireNodes (ch : chain) (p : position) : res unit :=
  if bool_decide (ch_kind ch = kindNode) || bool_decide (ch_kind ch = kindUnknown) then Ret tt
  else compileErr p "the block is scoped to a value which is not a node".
End functions.

(** ** Predicates *)
Inductive predicate :=
| predAnd (left right : predicate)
| predOr (left right : predicate)
| predTerm (ch : chain) (op lit : string) (num : float64).
Inductive predToken := tokChain (text : string) | tokQuoted (text : string) | tokOp (text : string) | tokAnd | tokOr | tokLParen | tokRParen.

(** Where the lexer is: in a run of text, in a quoted literal, in a run of operator
    characters; with what it has read of it. *)
Inductive lex_state := InRun (run : string) | InQuote (text : string) | InOp (text : string).
Definition is_op (c : ascii) : bool := Ascii.eqb c "=" || Ascii.eqb c "!" || Ascii.eqb c "<" || Ascii.eqb c ">".
Definition snoc (s : string) (c : ascii) : string := s +:+ String c "".
Definition flush (run : string) : list predToken :=
  let s := TrimSpace run in
  if String.eqb s "" then [] else if String.eqb s "and" then [tokAnd] else if String.eqb s "or" then [tokOr] else [tokChain s].
(** A character outside quotes and operators. *)
Definition lex_char (run : string) (c : ascii) : list predToken * lex_state :=
  if Ascii.eqb c APOS then (flush run, InQuote "")
  else if Ascii.eqb c "(" then (flush run ++ [tokLParen], InRun "")%list
  else if Ascii.eqb c ")" then (flush run ++ [tokRParen], InRun "")%list
  else if is_op c then (flush run, InOp (String c ""))
  else if is_blank c then (flush run, InRun "")
  else ([], InRun (snoc run c)).
Definition lex_step (st : lex_state) (c : ascii) : list predToken * lex_state :=
  match st with
  | InRun run => lex_char run c
  | InQuote text => if Ascii.eqb c APOS then ([tokQuoted text], InRun "") else ([], InQuote (snoc text c))
  | InOp text => if is_op c then ([], InOp (snoc text c)) else let '(out, st) := lex_char "" c in (tokOp text :: out, st)
  end.
Definition lex_end (st : lex_state) : list predToken :=
  match st with InRun run => flush run | InQuote text => [tokQuoted text] | InOp text => [tokOp text] end.
Fixpoint lex_from (st : lex_state) (s : string) : list predToken :=
  match s with "" => lex_end st | String c r => let '(out, st) := lex_step st c in (out ++ lex_from st r)%list end.
Definition lexPredicate (src : string) : list predToken := lex_from (InRun "") src.

Section predicates.
Context `{GoArch} `{GoFmt} `{GoZone} `{DocFmt} `{GoRunes}.
Fixpoint pred_eval (p : predicate) (ctx : value) : res bool :=
  match p with
  | predAnd l r => let! a := pred_eval l ctx in if a then pred_eval r ctx else Ret false
  | predOr l r => let! a := pred_eval l ctx in if a then Ret true else pred_eval r ctx
  | predTerm ch op lit num =>
      if String.eqb op "==" then let! s := chain_text ch ctx in Ret (String.eqb (TrimSpace s) lit)
      else if String.eqb op "!=" then let! s := chain_text ch ctx in Ret (negb (String.eqb (TrimSpace s) lit))
      else
        let! v := chain_first ch ctx in
        match v with
        | None => Ret false
        | Some v =>
            match AsFloat v with
            | None => Ret false
            | Some f =>
                Ret (if String.eqb op ">" then f64_lt num f else if String.eqb op ">=" then f64_le num f
                     else if String.eqb op "<" then f64_lt f num else f64_le f num)
            end
        end
  end.
(** The text of a chain up to the operator; quotes are put back. *)
Fixpoint chain_tokens (acc : string) (toks : list predToken) : string * list predToken :=
  let sep := if String.eqb acc "" then "" else acc +:+ " " in
  match toks with
  | tokChain t :: toks => chain_tokens (sep +:+ t) toks
  | tokQuoted t :: toks => chain_tokens (sep +:+ "'" +:+ t +:+ "'") toks
  | _ => (acc, toks)
  end.
Definition pred_operators : list string := ["=="; "!="; ">"; ">="; "<"; "<="].
Definition is_operator (op : string) : bool := existsb (String.eqb op) pred_operators.
Definition parseTerm (pos : position) (toks : list predToken) : res (predicate * list predToken) :=
  let '(chainText, toks) := chain_tokens "" toks in
  if String.eqb chainText "" then compileErr pos "predicate: a term begins with a chain"
  else match toks with
    | tokOp op :: toks =>
        if negb (is_operator op) then compileErr pos "predicate: not an operator; the operators are ==, !=, >, >=, < and <="
        else
          let! ch := parseChain chainText pos in
          match toks with
          | [] => compileErr pos "predicate: the operator has nothing on its right"
          | tok :: toks =>
              if String.eqb op "==" || String.eqb op "!=" then
                match tok with
                | tokQuoted t => Ret (predTerm ch op t f64_0, toks)
                | _ => compileErr pos "predicate: the operator compares text and needs a quoted literal on its right"
                end
              else match tok with
                | tokChain t =>
                    match AsFloat (text_value t) with
                    | None => compileErr pos "predicate: the operator compares numbers and its right does not read as one"
                    | Some f => Ret (predTerm ch op "" f, toks)
                    end
                | _ => compileErr pos "predicate: the operator compares numbers and needs a bare number on its right"
                end
          end
    | _ => compileErr pos "predicate: the term carries no operator; the operators are ==, !=, >, >=, < and <="
    end.
(** The recursive descent. Every call consumes a token within three calls. *)
Fixpoint parseOr (fuel : nat) (pos : position) (toks : list predToken) : res (predicate * list predToken) :=
  match fuel with
  | O => Loop
  | S fuel => let! r := parseAnd fuel pos toks in or_loop fuel pos r.1 r.2
  end
with or_loop (fuel : nat) (pos : position) (left : predicate) (toks : list predToken) : res (predicate * list predToken) :=
  match fuel with
  | O => Loop
  | S fuel => match toks with
      | tokOr :: toks => let! r := parseAnd fuel pos toks in or_loop fuel pos (predOr left r.1) r.2
      | _ => Ret (left, toks)
      end
  end
with parseAnd (fuel : nat) (pos : position) (toks : list predToken) : res (predicate * list predToken) :=
  match fuel with
  | O => Loop
  | S fuel => let! r := parseUnary fuel pos toks in and_loop fuel pos r.1 r.2
  end
with and_loop (fuel : nat) (pos : position) (left : predicate) (toks : list predToken) : res (predicate * list predToken) :=
  match fuel with
  | O => Loop
  | S fuel => match toks with
      | tokAnd :: toks => let! r := parseUnary fuel pos toks in and_loop fuel pos (predAnd left r.1) r.2
      | _ => Ret (left, toks)
      end
  end
with parseUnary (fuel : nat) (pos : position) (toks : list predToken) : res (predicate * list predToken) :=
  match fuel with
  | O => Loop
  | S fuel => match toks with
      | [] => compileErr pos "predicate ends after 'and' or 'or'; a connective joins two terms"
      | tokLParen :: toks =>
          let! r := parseOr fuel pos toks in
          match r.2 with tokRParen :: toks => Ret (r.1, toks) | _ => compileErr pos "predicate has an unbalanced '('" end
      | _ => parseTerm pos toks
      end
  end.
Definition pred_fuel (toks : list predToken) : nat := 4 * length toks + 3.
Definition parsePredicate (src : string) (p : position) : res predicate :=
  if String.eqb (TrimSpace src) "" then compileErr p "an empty predicate"
  else
    let toks := lexPredicate src in
    let! r := parseOr (pred_fuel toks) p toks in
    match r.2 with
    | [] => Ret r.1
    | tokRParen :: _ => compileErr p "predicate has an unbalanced ')'"
    | _ => compileErr p "predicate carries trailing text; terms are joined with 'and' or 'or'"
    end.
End predicates.

(** ** Markup *)
Inductive span :=
| literalSpan (text : string)
| substSpan (ch : chain) (require : string) (pos : position)
| ifSpan (pred : predicate) (body : list span)
| withSpan (ch : chain) (body : list span)
| eachSpan (ch : chain) (sep last : string) (body : list span).
Inductive rawItem := rawLiteral (text : string) | rawAction (body : string) (off : Z).
(** The offset of the [}}] that closes an action. *)
Fixpoint closing_from (inQuote : bool) (i : nat) (s : string) : option nat :=
  match s with
  | "" => None
  | String c r =>
      if Ascii.eqb c APOS then closing_from (negb inQuote) (S i) r
      else if negb inQuote && HasPrefix s "}}" then Some i
      else closing_from inQuote (S i) r
  end.
Definition closingBraces (s : string) : option nat := closing_from false 0 s.
(** [s] is the markup from offset [i] on. *)
Fixpoint scan_from (fuel : nat) (p : position) (i : Z) (s : string) : res (list rawItem) :=
  match fuel with
  | O => Loop
  | S fuel =>
      if String.eqb s "" then Ret []
      else match String.index 0 "{{" s with
        | None =>
            match String.index 0 "}}" s with
            | Some bad => compileErr (at_offset p (i + Z.of_nat bad)) "'}}' closes nothing; a substitution opens with '{{'"
            | None => Ret [rawLiteral s]
            end
        | Some start =>
            match String.index 0 "}}" (str_take start s) with
            | Some bad => compileErr (at_offset p (i + Z.of_nat bad)) "'}}' closes nothing; a substitution opens with '{{'"
            | None =>
                let open := i + Z.of_nat start in
                let rest := str_drop (start + 2) s in
                match closingBraces rest with
                | None => compileErr (at_offset p open) "'{{' is never closed; a substitution ends with '}}'"
                | Some e =>
                    let! out := scan_from fuel p (open + 2 + Z.of_nat e + 2) (str_drop (e + 2) rest) in
                    Ret ((if (0 <? start)%nat then [rawLiteral (str_take start s)] else []) ++ rawAction (TrimSpace (str_take e rest)) open :: out)%list
                end
            end
        end
  end.
Definition scanMarkup (src : string) (p : position) : res (list rawItem) := scan_from (S (String.length src)) p 0 src.

Definition isMarkupSpace (c : ascii) : bool := is_blank c || Ascii.eqb c "013".
(** A word that starts where [s] does. *)
Definition word_here (word s : string) : bool :=
  HasPrefix s word && match str_drop (String.length word) s with "" => true | String c _ => isMarkupSpace c end.
Fixpoint require_from (inQuote start : bool) (i : nat) (s : string) : option nat :=
  match s with
  | "" => None
  | String c r =>
      if Ascii.eqb c APOS then require_from (negb inQuote) (isMarkupSpace c) (S i) r
      else if negb inQuote && start && word_here "require" s then Some i
      else require_from inQuote (isMarkupSpace c) (S i) r
  end.
Definition requireIndex (body : string) : option nat := require_from false true 0 body.
Fixpoint index_blank (i : nat) (s : string) : option nat :=
  match s with "" => None | String c r => if is_blank c then Some i else index_blank (S i) r end.
Definition splitKeyword (body : string) : string * string :=
  match index_blank 0 body with None => (body, "") | Some i => (str_take i body, TrimSpace (str_drop (i + 1) body)) end.
Fixpoint last_index_from (inQuote : bool) (sub : string) (best : option nat) (i : nat) (s : string) : option nat :=
  match s with
  | "" => best
  | String c r =>
      if Ascii.eqb c APOS then last_index_from (negb inQuote) sub best (S i) r
      else last_index_from inQuote sub (if negb inQuote && HasPrefix s sub then Some i else best) (S i) r
  end.
Definition lastIndexOutsideQuotes (s sub : string) : option nat := last_index_from false sub None 0 s.

Section markup.
Context `{GoArch} `{GoFmt} `{GoZone} `{DocFmt} `{GoRunes}.
Definition refuseRequire (body : string) (p : position) : res unit :=
  match requireIndex body with
  | Some _ => compileErr p "the block carries a 'require'; require is a modifier on a substitution, which is the only form that reads a value"
  | None => Ret tt
  end.
Definition compileSubst (body : string) (p : position) : res span :=
  let! cm := match requireIndex body with
    | None => Ret (body, "")
    | Some i =>
        match unquote (TrimSpace (str_drop (i + String.length "require") body)) with
        | Some lit => if String.eqb (TrimSpace lit) "" then compileErr p "require carries no message" else Ret (TrimSpace (str_take i body), lit)
        | None => compileErr p "require carries no message"
        end
    end in
  let! ch := parseChain cm.1 p in
  Ret (substSpan ch cm.2 p).
(** The header of a block: what builds the span once its body is known. *)
Inductive block := ifBlock (pred : predicate) | withBlock (ch : chain) | eachBlock (ch : chain) (sep last : string).
Definition build_block (b : block) (body : list span) : span :=
  match b with ifBlock pred => ifSpan pred body | withBlock ch => withSpan ch body | eachBlock ch sep last => eachSpan ch sep last body end.
Definition parseEachHeader (rest : string) (p : position) : res block :=
  match lastIndexOutsideQuotes rest "last:" with
  | None => compileErr p "{{each}} is written {{each chain sep: 'a' last: 'b'}}; both separators are required"
  | Some lastAt =>
      match lastIndexOutsideQuotes (str_take lastAt rest) "sep:" with
      | None => compileErr p "{{each}} is written {{each chain sep: 'a' last: 'b'}}; both separators are required"
      | Some sepAt =>
          match unquote (TrimSpace (str_drop (sepAt + 4) (str_take lastAt rest))) with
          | None => compileErr p "{{each}}: sep takes a quoted literal"
          | Some sep =>
              match unquote (TrimSpace (str_drop (lastAt + 5) rest)) with
              | None => compileErr p "{{each}}: last takes a quoted literal"
              | Some last =>
                  let! ch := parseChain (TrimSpace (str_take sepAt rest)) p in
                  let! _ := requireNodes ch p in
                  Ret (eachBlock ch sep last)
              end
          end
      end
  end.
Definition blockOf (keyword rest : string) (p : position) : res block :=
  if String.eqb keyword "if" then let! pred := parsePredicate rest p in Ret (ifBlock pred)
  else if String.eqb keyword "with" then
    let! ch := parseChain rest p in let! _ := requireNodes ch p in Ret (withBlock ch)
  else parseEachHeader rest p.
Record frame := mkFrame { fr_off : Z; fr_block : block; fr_body : list span }.
Definition emit (s : span) (st : list frame * list span) : list frame * list span :=
  match st.1 with
  | top :: stack => (mkFrame (fr_off top) (fr_block top) (fr_body top ++ [s]) :: stack, st.2)
  | [] => ([], st.2 ++ [s])
  end%list.
Definition is_block_keyword (k : string) : bool := String.eqb k "if" || String.eqb k "with" || String.eqb k "each".
Definition compile_item (p : position) (st : list frame * list span) (it : rawItem) : res (list frame * list span) :=
  match it with
  | rawLiteral text => Ret (if String.eqb text "" then st else emit (literalSpan text) st)
  | rawAction body o =>
      let at_ := at_offset p o in
      let '(keyword, rest) := splitKeyword body in
      if String.eqb keyword "end" then
        if negb (String.eqb rest "") then compileErr at_ "{{end}} takes nothing"
        else match st.1 with
          | [] => compileErr at_ "{{end}} closes nothing"
          | top :: stack => Ret (emit (build_block (fr_block top) (fr_body top)) (stack, st.2))
          end
      else if is_block_keyword keyword then
        let! _ := refuseRequire body at_ in
        if String.eqb (TrimSpace rest) "" then compileErr at_ "the block carries no predicate or chain"
        else let! b := blockOf keyword rest at_ in Ret (mkFrame o b [] :: st.1, st.2)
      else let! s := compileSubst body at_ in Ret (emit s st)
  end.
Fixpoint compile_items (p : position) (st : list frame * list span) (items : list rawItem) : res (list frame * list span) :=
  match items with [] => Ret st | it :: items => let! st := compile_item p st it in compile_items p st items end.
Definition compileMarkup (src : string) (p : position) : res (list span) :=
  let! items := scanMarkup src p in
  let! st := compile_items p ([], []) items in
  match st.1 with
  | [] => Ret st.2
  | top :: _ => compileErr (at_offset p (fr_off top)) "the block is never closed; a block ends with {{end}}"
  end.
End markup.

(** ** Documents *)
Inductive Element := mkElement (el_When el_Text : string) (el_Elements : option (list (option Element))) (el_Empty : string).
Record Spec := mkSpec { Key : string; Width : Z; Elements : list (option Element); Empty : string }.
Inductive element := mkCompiled (when_ : option predicate) (group : bool) (text : list span) (kids : list element) (empty : list span).
Record Template := mkTemplate { tm_key : string; tm_width : Z; root : element }.
Definition childPath (parent : string) (i : nat) : string :=
  (if String.eqb parent "(document)" then "" else parent +:+ ".") +:+ "elements[" +:+ Itoa (Z.of_nat i) +:+ "]".

Section compile.
Context `{GoArch} `{GoFmt} `{GoZone} `{DocFmt} `{GoRunes}.
Definition compile_when (when_ : string) (p : position) : res (option predicate) :=
  if String.eqb (TrimSpace when_) "" then Ret None else let! pred := parsePredicate when_ p in Ret (Some pred).
Section group.
Context (compile : Element → position → res element).
Fixpoint compile_kids (path : string) (i : nat) (elements : list (option Element)) : res (list element) :=
  match elements with
  | [] => Ret []
  | el :: elements =>
      let p := mkPosition (childPath path i) (-1) in
      let! child := match el with None => compileErr p "is null" | Some el => compile el p end in
      let! kids := compile_kids path (S i) elements in
      Ret (child :: kids)
  end.
Definition compileGroup (elements : list (option Element)) (when_ empty : string) (p : position) : res element :=
  match elements with
  | [] => compileErr p "carries no elements; a group with nothing in it emits nothing and is a document that was not finished"
  | _ =>
      let! pred := compile_when when_ p in
      let! kids := compile_kids (pos_path p) 0 elements in
      let! empty := if String.eqb (TrimSpace empty) "" then Ret [] else compileMarkup empty (mkPosition (pos_path p +:+ ".empty") (-1)) in
      Ret (mkCompiled pred true [] kids empty)
  end.
End group.
Fixpoint compileElement (el : Element) (p : position) : res element :=
  let '(mkElement when_ text elements empty) := el in
  let hasText := negb (String.eqb (TrimSpace text) "") in
  match elements with
  | Some elements =>
      if hasText then compileErr p "carries both text and elements; an element is a paragraph or a group"
      else compileGroup compileElement elements when_ empty p
  | None =>
      if negb hasText then compileErr p "carries neither text nor elements; an element is a paragraph or a group"
      else if negb (String.eqb (TrimSpace empty) "") then compileErr p "is a paragraph and carries an empty; a fallback is a group's"
      else
        let! pred := compile_when when_ p in
        let! spans := compileMarkup text (mkPosition (pos_path p +:+ ".text") (-1)) in
        Ret (mkCompiled pred false spans [] [])
  end.
(** The error of the document under the name of the template. *)
Definition under_key {A} (m : res A) : res A := match m with Fail e => Fail ("text template: " +:+ e) | _ => m end.
Definition Compile (spec : option Spec) : res Template :=
  match spec with
  | None => Fail "a text template document is required"
  | Some spec =>
      if String.eqb (TrimSpace (Key spec)) "" then Fail "a text template carries no key; it is what a step names it by"
      else if Width spec <=? 0 then Fail "text template: width is absent or is not a positive integer"
      else
        let! root := under_key (compileGroup compileElement (Elements spec) "" (Empty spec) (mkPosition "(document)" (-1))) in
        Ret (mkTemplate (Key spec) (Width spec) root)
  end.
End compile.

(** ** Rendering *)
Record Violation := mkViolation { vi_Message : string; vi_Chain : string; vi_Where : string; vi_Index : Z }.
Record renderState := mkRender { violations : list Violation; rs_index : Z }.
Definition with_index (i : Z) (r : renderState) : renderState := mkRender (violations r) i.

Section render.
Context `{GoArch} `{GoFmt} `{GoZone} `{DocFmt} `{GoRunes}.
Section spans.
Context (render : span → value → renderState → res (string * renderState)).
Fixpoint renderSpans (spans : list span) (ctx : value) (r : renderState) : res (string * renderState) :=
  match spans with
  | [] => Ret ("", r)
  | s :: spans =>
      let! a := render s ctx r in
      let! b := renderSpans spans ctx a.2 in
      Ret (a.1 +:+ b.1, b.2)
  end.
(** The bodies of an [each], from the [i]th value on. *)
Fixpoint render_each (body : list span) (i : Z) (vals : list value) (r : renderState) : res (list string * renderState) :=
  match vals with
  | [] => Ret ([], r)
  | v :: vals =>
      match as_node v with
      | None => render_each body (i + 1) vals r
      | Some node =>
          let! a := renderSpans body node (with_index i r) in
          let! b := render_each body (i + 1) vals a.2 in
          Ret (if String.eqb (TrimSpace a.1) "" then b.1 else a.1 :: b.1, b.2)
      end
  end.
End spans.
Fixpoint render_span (s : span) (ctx : value) (r : renderState) : res (string * renderState) :=
  match s with
  | literalSpan text => Ret (text, r)
  | substSpan ch require pos =>
      let! out := chain_text ch ctx in
      Ret (out, if negb (String.eqb require "") && String.eqb (TrimSpace out) ""
                then mkRender (violations r ++ [mkViolation require (ch_raw ch) (position_String pos) (rs_index r)])%list (rs_index r) else r)
  | ifSpan pred body => let! b := pred_eval pred ctx in if b then renderSpans render_span body ctx r else Ret ("", r)
  | withSpan ch body =>
      let! v := chain_first ch ctx in
      match v with
      | None => Ret ("", r)
      | Some v => match as_node v with None => Ret ("", r) | Some node => renderSpans render_span body node r end
      end
  | eachSpan ch sep last body =>
      let! vals := chain_eval ch ctx in
      let! out := render_each render_span body 0 vals r in
      Ret (join_last out.1 sep last, with_index (rs_index r) out.2)
  end.
Definition one_paragraph (spans : list span) (ctx : value) (r : renderState) : res (list string * renderState) :=
  let! out := renderSpans render_span spans ctx r in
  Ret (if String.eqb (TrimSpace out.1) "" then [] else [out.1], out.2).
Section kids.
Context (render : element → value → renderState → res (list string * renderState)).
Fixpoint render_kids (kids : list element) (ctx : value) (r : renderState) : res (list string * renderState) :=
  match kids with
  | [] => Ret ([], r)
  | kid :: kids =>
      let! a := render kid ctx r in
      let! b := render_kids kids ctx a.2 in
      Ret (a.1 ++ b.1, b.2)%list
  end.
End kids.
Fixpoint render_element (e : element) (ctx : value) (r : renderState) : res (list string * renderState) :=
  let '(mkCompiled when_ group text kids empty) := e in
  let! shown := match when_ with None => Ret true | Some pred => pred_eval pred ctx end in
  if negb shown then Ret ([], r)
  else if negb group then one_paragraph text ctx r
  else
    let! out := render_kids render_element kids ctx r in
    match out.1, empty with
    | [], _ :: _ => one_paragraph empty ctx out.2
    | _, _ => Ret out
    end.
Definition blank_line : string := String "010" (String "010" "").
Definition Render (t : Template) (doc : value) : res (string * list Violation) :=
  let! out := render_element (root t) doc (mkRender [] (-1)) in
  Ret (join blank_line ((λ p, wrap p (tm_width t)) <$> out.1), violations out.2).
End render.
