(* ===== verification/TemplateLaws.v ===== *)
(** * What text templates do

    Predicates read back in every shape of tree with the parentheses they need; compiling
    answers on every specification; a compiled template renders every document, unless the
    construct [sentence] meets a broken rune; the kinds and the cardinality a chain is
    compiled with hold of the values it yields; wrapping keeps the words and fills the
    lines; the paragraphs of a text can be told apart. *)
From stdpp Require Import base list strings gmap.
From Stdlib Require Import Ascii ZArith Lia SpecFloat.
From S2P Require Import Prelude GoFloat GoText GoTextLaws GoValue Records Briefing TextTemplate.
Local Open Scope string_scope.
Local Open Scope Z_scope.

(** ** Answers

    A call that answers returns a result or an error. *)
Definition answers {A} (r : res A) : Prop := match r with Ret _ | Fail _ => True | _ => False end.
Create HintDb answers.
Lemma answers_Ret {A} (a : A) : answers (Ret a).
Proof. done. Qed.
Lemma answers_Fail {A} e : answers (@Fail A e).
Proof. done. Qed.
Lemma answers_compileErr {A} p e : answers (@compileErr A p e).
Proof. done. Qed.
Lemma answers_bind {A B} (m : res A) (k : A → res B) : answers m → (∀ a, m = Ret a → answers (k a)) → answers (res_bind m k).
Proof. destruct m; cbn; [intros _ Hk; by apply Hk|done..]. Qed.
#[export] Hint Resolve answers_Ret answers_Fail answers_compileErr answers_bind : answers.
Ltac answers := repeat (case_match; eauto with answers); eauto 6 with answers.

(** ** Induction on spans and elements *)
Section span_induction.
Context (P : span → Prop) (Hlit : ∀ s, P (literalSpan s)) (Hsub : ∀ ch m p, P (substSpan ch m p)) (Hif : ∀ pr body, Forall P body → P (ifSpan pr body))
  (Hwith : ∀ ch body, Forall P body → P (withSpan ch body)) (Heach : ∀ ch sep last body, Forall P body → P (eachSpan ch sep last body)).
Fixpoint span_induction (s : span) : P s :=
  let all := fix all (l : list span) : Forall P l := match l with [] => Forall_nil_2 _ | s :: l => Forall_cons_2 _ _ _ (span_induction s) (all l) end in
  match s with
  | literalSpan s => Hlit s
  | substSpan ch m p => Hsub ch m p
  | ifSpan pr body => Hif pr body (all body)
  | withSpan ch body => Hwith ch body (all body)
  | eachSpan ch sep last body => Heach ch sep last body (all body)
  end.
End span_induction.
Section element_induction.
Context (P : element → Prop) (Hel : ∀ w g text kids empty, Forall P kids → P (mkCompiled w g text kids empty)).
Fixpoint element_induction (e : element) : P e :=
  let all := fix all (l : list element) : Forall P l := match l with [] => Forall_nil_2 _ | e :: l => Forall_cons_2 _ _ _ (element_induction e) (all l) end in
  let '(mkCompiled w g text kids empty) := e in Hel w g text kids empty (all kids).
End element_induction.
Section document_induction.
Context (P : Element → Prop) (Hleaf : ∀ w text empty, P (mkElement w text None empty))
  (Hgroup : ∀ w text els empty, Forall (λ o, ∀ e, o = Some e → P e) els → P (mkElement w text (Some els) empty)).
Fixpoint document_induction (e : Element) : P e :=
  let all := fix all (l : list (option Element)) : Forall (λ o, ∀ e, o = Some e → P e) l :=
    match l with
    | [] => Forall_nil_2 _
    | o :: l => Forall_cons_2 _ _ _ (match o return ∀ e, o = Some e → P e with
        | None => λ e H, False_ind _ (eq_ind None (λ x, match x with None => True | _ => False end) I (Some e) H)
        | Some e' => λ e H, eq_ind e' P (document_induction e') e (f_equal (default e') H) end) (all l)
    end in
  match e with mkElement w text None empty => Hleaf w text empty | mkElement w text (Some els) empty => Hgroup w text els empty (all els) end.
End document_induction.

(** The chains of a compiled document. *)
Fixpoint pred_chains (pr : predicate) : list chain :=
  match pr with predAnd l r | predOr l r => pred_chains l ++ pred_chains r | predTerm ch _ _ _ => [ch] end%list.
Fixpoint span_chains (s : span) : list chain :=
  match s with
  | literalSpan _ => []
  | substSpan ch _ _ => [ch]
  | ifSpan pr body => pred_chains pr ++ concat (span_chains <$> body)
  | withSpan ch body | eachSpan ch _ _ body => ch :: concat (span_chains <$> body)
  end%list.
Fixpoint element_chains (e : element) : list chain :=
  let '(mkCompiled w g text kids empty) := e in
  (match w with None => [] | Some pr => pred_chains pr end ++ concat (span_chains <$> text) ++ concat (element_chains <$> kids) ++ concat (span_chains <$> empty))%list.
Section compiling.
Context `{GoArch} `{GoFmt} `{GoZone} `{DocFmt} `{GoRunes}.
Lemma ParseSelector_answers s : answers (ParseSelector s).
Proof.
  unfold ParseSelector. case_match; [done|]. apply answers_bind; [|done]. induction (Split s ".") as [|w l IH]; [done|]. cbn [parse_segments].
  apply answers_bind; [unfold parse_segment; by answers|]. intros sg _. by apply answers_bind.
Qed.
Lemma appendPath_answers ch l p : answers (appendPath ch l p).
Proof. unfold appendPath. by answers. Qed.
Lemma appendConstruct_answers ch c args p : answers (appendConstruct ch c args p).
Proof. unfold appendConstruct. by answers. Qed.
Lemma parse_each_arg_answers p ks : ∀ ws, answers (parse_each_arg p ks ws).
Proof.
  induction ks as [|k ks IH]; intros [|w ws]; try done. cbn [parse_each_arg]. apply answers_bind; [unfold parse_arg; by answers|]. intros a _. apply answers_bind; [apply IH|done].
Qed.
Lemma parseArgs_answers l c p : answers (parseArgs l c p).
Proof. unfold parseArgs. case_match; [done|apply parse_each_arg_answers]. Qed.
#[local] Hint Resolve ParseSelector_answers appendPath_answers appendConstruct_answers parseArgs_answers : answers.
Lemma parse_links_answers p parts : ∀ ch b, answers (parse_links p ch b parts).
Proof.
  induction parts as [|w parts IH]; intros ch b; [done|]. cbn [parse_links]. case_match; [done|]. case_match; [|case_match; [done|]].
  - apply answers_bind; [auto with answers|]. intros args _. apply answers_bind; [auto with answers|]. intros ch' _. apply IH.
  - apply answers_bind; [auto with answers|]. intros ch' _. apply IH.
Qed.
Lemma parseChain_answers s p : answers (parseChain s p).
Proof. unfold parseChain. case_match; [done|]. case_match; [done|]. case_match; [done|]. apply answers_bind; [auto with answers|]. intros ch _. apply parse_links_answers. Qed.
#[local] Hint Resolve parseChain_answers : answers.
Lemma parseTerm_answers p toks : answers (parseTerm p toks).
Proof.
  unfold parseTerm. destruct (chain_tokens "" toks) as [ct rest]. case_match; [done|]. destruct rest as [|[] rest]; try done. case_match; [done|].
  apply answers_bind; [auto with answers|]. intros ch _. by answers.
Qed.

(** *** Fuel of the predicates *)
Section fuel.
Context (p : position).
Definition more {A B} (f g : A → res B) : Prop := ∀ x, f x ≠ Loop → g x = f x.
Lemma bind_more {A B} (m m' : res A) (k k' : A → res B) : (m ≠ Loop → m' = m) → (∀ a, k a ≠ Loop → k' a = k a) → res_bind m k ≠ Loop → res_bind m' k' = res_bind m k.
Proof. intros Hm Hk. destruct m; [|..|done]; rewrite Hm by done; [apply Hk|done..]. Qed.
Lemma fuel_step n : more (parseOr n p) (parseOr (S n) p) ∧ (∀ l, more (or_loop n p l) (or_loop (S n) p l)) ∧
  more (parseAnd n p) (parseAnd (S n) p) ∧ (∀ l, more (and_loop n p l) (and_loop (S n) p l)) ∧ more (parseUnary n p) (parseUnary (S n) p).
Proof.
  induction n as [|n (Ho & Hol & Ha & Hal & Hu)]; [split_and!; [intros toks|intros l toks|intros toks|intros l toks|intros toks]; done|]. split_and!.
  - intros toks. change (parseOr (S (S n)) p toks) with (let! r := parseAnd (S n) p toks in or_loop (S n) p r.1 r.2). change (parseOr (S n) p toks) with (let! r := parseAnd n p toks in or_loop n p r.1 r.2).
    apply bind_more; [apply Ha|intros r; apply Hol].
  - intros l toks. destruct toks as [|[] toks]; try done. change (or_loop (S (S n)) p l (tokOr :: toks)) with (let! r := parseAnd (S n) p toks in or_loop (S n) p (predOr l r.1) r.2).
    change (or_loop (S n) p l (tokOr :: toks)) with (let! r := parseAnd n p toks in or_loop n p (predOr l r.1) r.2). apply bind_more; [apply Ha|intros r; apply Hol].
  - intros toks. change (parseAnd (S (S n)) p toks) with (let! r := parseUnary (S n) p toks in and_loop (S n) p r.1 r.2). change (parseAnd (S n) p toks) with (let! r := parseUnary n p toks in and_loop n p r.1 r.2).
    apply bind_more; [apply Hu|intros r; apply Hal].
  - intros l toks. destruct toks as [|[] toks]; try done. change (and_loop (S (S n)) p l (tokAnd :: toks)) with (let! r := parseUnary (S n) p toks in and_loop (S n) p (predAnd l r.1) r.2).
    change (and_loop (S n) p l (tokAnd :: toks)) with (let! r := parseUnary n p toks in and_loop n p (predAnd l r.1) r.2). apply bind_more; [apply Hu|intros r; apply Hal].
  - intros toks. destruct toks as [|[] toks]; try done.
    change (parseUnary (S (S n)) p (tokLParen :: toks)) with (let! r := parseOr (S n) p toks in match r.2 with tokRParen :: toks => Ret (r.1, toks) | _ => compileErr p "predicate has an unbalanced '('" end).
    change (parseUnary (S n) p (tokLParen :: toks)) with (let! r := parseOr n p toks in match r.2 with tokRParen :: toks => Ret (r.1, toks) | _ => compileErr p "predicate has an unbalanced '('" end).
    apply bind_more; [apply Ho|done].
Qed.
Lemma fuel_mono n m : (n ≤ m)%nat → more (parseOr n p) (parseOr m p) ∧ (∀ l, more (or_loop n p l) (or_loop m p l)) ∧
  more (parseAnd n p) (parseAnd m p) ∧ (∀ l, more (and_loop n p l) (and_loop m p l)) ∧ more (parseUnary n p) (parseUnary m p).
Proof.
  assert (Htrans : ∀ A B (f g h : A → res B), more f g → more g h → more f h).
  { intros A B f g h Hfg Hgh x Hx. rewrite Hgh; [by apply Hfg|]. by rewrite Hfg. }
  induction 1 as [|m _ (Ho & Hol & Ha & Hal & Hu)]; [by split_and!|]. destruct (fuel_step m) as (Ho' & Hol' & Ha' & Hal' & Hu').
  split_and!; try (intros l); eapply Htrans; eauto.
Qed.


(** Every call answers within its fuel, and a result leaves fewer tokens. *)
Definition consumes {A} (k : nat) (r : res (A * list predToken)) : Prop := answers r ∧ ∀ x, r = Ret x → (length x.2 < k)%nat.
Lemma consumes_err {A} k e : consumes k (@compileErr (A * list predToken) p e).
Proof. done. Qed.
Lemma consumes_bind {A B} k k' (m : res (A * list predToken)) (f : A * list predToken → res (B * list predToken)) :
  consumes k m → (∀ x, (length x.2 < k)%nat → consumes k' (f x)) → consumes k' (res_bind m f).
Proof. intros [Ha Hr] Hf. destruct m as [x| | |]; try done. cbn. by apply Hf, Hr. Qed.
Lemma consumes_fewer {A} k k' (m : res (A * list predToken)) : (k ≤ k')%nat → consumes k m → consumes k' m.
Proof. intros Hk [Ha Hr]. split; [done|]. intros x Hx. apply Hr in Hx. lia. Qed.
Lemma chain_tokens_length toks : ∀ acc, (length (chain_tokens acc toks).2 ≤ length toks)%nat.
Proof.
  induction toks as [|tok toks IH]; intros acc; [done|]. destruct tok; cbn [chain_tokens snd length]; try done; (etrans; [apply IH|lia]).
Qed.
Lemma parseTerm_consumes toks : consumes (length toks) (parseTerm p toks).
Proof.
  split; [apply parseTerm_answers|]. intros x. unfold parseTerm. pose proof (chain_tokens_length toks "") as Hl. destruct (chain_tokens "" toks) as [ct rest]. cbn [snd] in Hl.
  case_match; [done|]. destruct rest as [|[] rest]; try done. case_match; [done|]. cbn [length] in Hl. intros (ch & _ & E)%res_bind_Ret.
  destruct rest as [|tok rest]; [done|]. cbn [length] in Hl. repeat (case_match; simplify_eq); cbn; lia.
Qed.
Lemma fuel_enough n : (∀ toks, (4 * length toks + 3 ≤ n)%nat → consumes (length toks) (parseOr n p toks)) ∧
  (∀ l toks, (4 * length toks + 1 ≤ n)%nat → consumes (S (length toks)) (or_loop n p l toks)) ∧
  (∀ toks, (4 * length toks + 2 ≤ n)%nat → consumes (length toks) (parseAnd n p toks)) ∧
  (∀ l toks, (4 * length toks + 1 ≤ n)%nat → consumes (S (length toks)) (and_loop n p l toks)) ∧
  (∀ toks, (4 * length toks + 1 ≤ n)%nat → consumes (length toks) (parseUnary n p toks)).
Proof.
  induction n as [|n (Ho & Hol & Ha & Hal & Hu)]; [split_and!; intros; lia|]. split_and!.
  - intros toks Hn. cbn [parseOr]. eapply consumes_bind; [apply Ha; lia|]. intros x Hx. eapply consumes_fewer; [|apply Hol; lia]. lia.
  - intros l toks Hn. cbn [or_loop]. destruct toks as [|[] toks]; try (split; [done|]; intros x [= <-]; cbn; lia). cbn [length] in *.
    eapply consumes_bind; [apply Ha; lia|]. intros x Hx. eapply consumes_fewer; [|apply Hol; lia]. lia.
  - intros toks Hn. cbn [parseAnd]. eapply consumes_bind; [apply Hu; lia|]. intros x Hx. eapply consumes_fewer; [|apply Hal; lia]. lia.
  - intros l toks Hn. cbn [and_loop]. destruct toks as [|[] toks]; try (split; [done|]; intros x [= <-]; cbn; lia). cbn [length] in *.
    eapply consumes_bind; [apply Hu; lia|]. intros x Hx. eapply consumes_fewer; [|apply Hal; lia]. lia.
  - intros toks Hn. cbn [parseUnary]. destruct toks as [|[] toks]; try apply parseTerm_consumes; [done|]. cbn [length] in *.
    eapply consumes_bind; [apply Ho; lia|]. intros [x rest] Hx. cbn [fst snd] in *. destruct rest as [|[] rest]; try done. split; [done|]. intros y [= <-]. cbn in *. lia.
Qed.
Lemma parsePredicate_answers s : answers (parsePredicate s p).
Proof.
  unfold parsePredicate. case_match; [done|]. apply answers_bind; [apply fuel_enough; unfold pred_fuel; lia|]. intros [x rest] _. by destruct rest as [|[]].
Qed.
Lemma parsePredicate_reads s n pr : TrimSpace s ≠ "" → parseOr n p (lexPredicate s) = Ret (pr, []) → parsePredicate s p = Ret pr.
Proof.
  intros Hs%String.eqb_neq Hn. unfold parsePredicate. rewrite Hs. set (toks := lexPredicate s) in *.
  assert (Hbig : parseOr (n + pred_fuel toks) p toks = Ret (pr, [])).
  { rewrite <- Hn. apply (fuel_mono n (n + pred_fuel toks)); [lia|]. by rewrite Hn. }
  destruct (fuel_mono (pred_fuel toks) (n + pred_fuel toks)) as [Hm _]; [lia|]. rewrite Hm in Hbig; [by rewrite Hbig|].
  destruct (fuel_enough (pred_fuel toks)) as [Ho _]. destruct (Ho toks) as [Hans _]; [unfold pred_fuel; lia|]. by intros E; rewrite E in Hans.
Qed.
End fuel.

(** *** Markup *)
#[local] Hint Resolve parsePredicate_answers : answers.
Lemma closing_bound s : ∀ b i e, closing_from b i s = Some e → (i ≤ e ∧ e + 2 ≤ i + String.length s)%nat.
Proof.
  induction s as [|c s IH]; intros b i e; [done|]. cbn [closing_from]. case_match; [intros He%IH; cbn; lia|]. case_match; [|intros He%IH; cbn; lia].
  intros [= <-]. apply andb_true_iff in H5 as [_ Hp%prefix_len]. cbn in *. lia.
Qed.
Lemma scan_answers p n : ∀ i s, (String.length s < n)%nat → answers (scan_from n p i s).
Proof.
  induction n as [|n IH]; intros i s Hn; [lia|]. cbn [scan_from]. case_match; [done|]. case_match; [|by case_match]. case_match; [done|]. case_match; [|done].
  apply answers_bind; [|done]. apply IH. rewrite !str_drop_len. destruct s; [done|]. cbn in *. lia.
Qed.
Lemma parseEachHeader_answers s p : answers (parseEachHeader s p).
Proof.
  unfold parseEachHeader. do 4 (case_match; try done). apply answers_bind; [auto with answers|]. intros ch _. apply answers_bind; [|done]. unfold requireNodes. by case_match.
Qed.
Lemma compile_item_answers p st it : answers (compile_item p st it).
Proof.
  destruct it as [s|body o]; [done|]. cbn [compile_item]. destruct (splitKeyword body) as [k rest]. case_match; [by answers|]. case_match.
  - apply answers_bind; [unfold refuseRequire; by case_match|]. intros _ _. case_match; [done|]. apply answers_bind; [|done]. unfold blockOf.
    case_match; [by apply answers_bind; [auto with answers|]|]. case_match; [|apply parseEachHeader_answers].
    apply answers_bind; [auto with answers|]. intros ch _. apply answers_bind; [|done]. unfold requireNodes. by case_match.
  - apply answers_bind; [|done]. unfold compileSubst. apply answers_bind; [by answers|]. intros cm _. apply answers_bind; [auto with answers|done].
Qed.
Lemma compileMarkup_answers s p : answers (compileMarkup s p).
Proof.
  unfold compileMarkup. apply answers_bind; [apply scan_answers; lia|]. intros items _. apply answers_bind; [|intros st _; by case_match].
  generalize (@nil frame, @nil span). induction items as [|it items IH]; intros st; [done|]. cbn [compile_items]. apply answers_bind; [apply compile_item_answers|]. intros st' _. apply IH.
Qed.
(** *** Documents *)
Lemma compile_when_answers w p : answers (compile_when w p).
Proof. unfold compile_when. case_match; [done|]. apply answers_bind; [auto with answers|done]. Qed.
Lemma compileGroup_answers els w empty p : Forall (λ o, ∀ e, o = Some e → ∀ p, answers (compileElement e p)) els → answers (compileGroup compileElement els w empty p).
Proof.
  intros Hels. unfold compileGroup. destruct els as [|o els]; [done|]. apply answers_bind; [apply compile_when_answers|]. intros pred _. apply answers_bind.
  - generalize 0%nat. induction Hels as [|o' els' Ho _ IH]; intros i; [done|]. cbn [compile_kids]. apply answers_bind; [destruct o' as [e|]; [by apply Ho|done]|]. intros k _. by apply answers_bind.
  - intros kids _. apply answers_bind; [case_match; [done|apply compileMarkup_answers]|done].
Qed.
Lemma compileElement_answers el : ∀ p, answers (compileElement el p).
Proof.
  induction el as [w text empty|w text els empty Hels] using document_induction; intros p; cbn [compileElement].
  - do 2 (case_match; [done|]). apply answers_bind; [apply compile_when_answers|]. intros pred _. apply answers_bind; [apply compileMarkup_answers|done].
  - case_match; [done|by apply compileGroup_answers].
Qed.
(** Compiling answers on every specification. *)
Lemma Compile_answers spec : answers (Compile spec).
Proof.
  destruct spec as [spec|]; [|done]. cbn [Compile]. do 2 (case_match; [done|]). apply answers_bind; [|done].
  assert (Hg : answers (compileGroup compileElement (Elements spec) "" (Empty spec) (mkPosition "(document)" (-1)))).
  { apply compileGroup_answers, Forall_forall. intros o _ e _ p. apply compileElement_answers. }
  unfold under_key. by case_match.
Qed.

(** ** What compiling accepts *)
Definition link_ok (l : chainLink) : Prop := match l with PathLink _ => True | ConstructLink c args => c ∈ constructs ∧ length args = length (c_args c) end.
Definition chain_ok (ch : chain) : Prop := Forall link_ok (links ch).
Lemma construct_named_in name c : construct_named name = Some c → c ∈ constructs.
Proof. intros [Hin _]%find_some. by apply list_elem_of_In. Qed.
Lemma parse_each_arg_length p ks : ∀ ws args, length ws = length ks → parse_each_arg p ks ws = Ret args → length args = length ks.
Proof.
  induction ks as [|k ks IH]; intros [|w ws] args Hl; try done; cbn [parse_each_arg]; [by intros [= <-]|]. intros (a & _ & (l & Hl' & [= <-])%res_bind_Ret)%res_bind_Ret.
  cbn. f_equal. eapply IH; [|exact Hl']. by injection Hl.
Qed.
Lemma appendPath_ok ch l p ch' : chain_ok ch → appendPath ch l p = Ret ch' → chain_ok ch'.
Proof. intros Hc. unfold appendPath. do 2 (case_match; [done|]). destruct (ParseSelector l); try done. intros [= <-]. apply Forall_app. split; [done|]. by constructor. Qed.
Lemma parse_links_ok p parts : ∀ ch b ch', chain_ok ch → parse_links p ch b parts = Ret ch' → chain_ok ch'.
Proof.
  induction parts as [|w parts IH]; intros ch b ch' Hc; cbn [parse_links]; [by intros [= <-]|]. case_match; [done|]. destruct (construct_named _) as [c|] eqn:Ec.
  - intros (args & Ea & (ch1 & E1 & E2)%res_bind_Ret)%res_bind_Ret. eapply IH; [|exact E2]. unfold appendConstruct in E1. do 2 (case_match; [done|]). injection E1 as <-.
    apply Forall_app. split; [done|]. constructor; [|done]. split; [by eapply construct_named_in|]. unfold parseArgs in Ea. cbv zeta in Ea.
    destruct (negb (length _ =? _)%nat) eqn:En; [done|]. eapply parse_each_arg_length; [|exact Ea]. by apply Nat.eqb_eq, negb_false_iff.
  - case_match; [done|]. intros (ch1 & E1 & E2)%res_bind_Ret. eapply IH; [|exact E2]. by eapply appendPath_ok.
Qed.
Lemma parseChain_ok s p ch : parseChain s p = Ret ch → chain_ok ch.
Proof.
  unfold parseChain. case_match; [done|]. case_match; [intros [= <-]; by constructor|]. case_match; [done|]. intros (ch1 & E1 & E2)%res_bind_Ret.
  eapply parse_links_ok; [|exact E2]. eapply appendPath_ok; [|exact E1]. by constructor.
Qed.
Local Abbreviation all_ok := (Forall chain_ok).
Lemma parse_ok p n : (∀ toks x, parseOr n p toks = Ret x → all_ok (pred_chains x.1)) ∧ (∀ l toks x, all_ok (pred_chains l) → or_loop n p l toks = Ret x → all_ok (pred_chains x.1)) ∧
  (∀ toks x, parseAnd n p toks = Ret x → all_ok (pred_chains x.1)) ∧ (∀ l toks x, all_ok (pred_chains l) → and_loop n p l toks = Ret x → all_ok (pred_chains x.1)) ∧
  (∀ toks x, parseUnary n p toks = Ret x → all_ok (pred_chains x.1)).
Proof.
  induction n as [|n (Ho & Hol & Ha & Hal & Hu)]; [done|]. split_and!.
  - intros toks x (r & Er & E)%res_bind_Ret. eapply Hol; [|exact E]. by eapply Ha.
  - intros l toks x Hl. cbn [or_loop]. destruct toks as [|[] toks]; try (by intros [= <-]). intros (r & Er & E)%res_bind_Ret. eapply Hol; [|exact E]. cbn. apply Forall_app. split; [done|by eapply Ha].
  - intros toks x (r & Er & E)%res_bind_Ret. eapply Hal; [|exact E]. by eapply Hu.
  - intros l toks x Hl. cbn [and_loop]. destruct toks as [|[] toks]; try (by intros [= <-]). intros (r & Er & E)%res_bind_Ret. eapply Hal; [|exact E]. cbn. apply Forall_app. split; [done|by eapply Hu].
  - intros toks x. assert (Hterm : parseTerm p toks = Ret x → all_ok (pred_chains x.1)).
    { unfold parseTerm. destruct (chain_tokens "" toks) as [ct rest]. case_match; [done|]. destruct rest as [|[] rest]; try done. case_match; [done|].
      intros (ch & Ech%parseChain_ok & E)%res_bind_Ret. repeat (case_match; simplify_eq); cbn; by constructor. }
    cbn [parseUnary]. destruct toks as [|[] toks]; try done. intros ([y rest] & Er & E)%res_bind_Ret. cbn [fst snd] in E. destruct rest as [|[] rest]; try done. injection E as <-. by apply Ho in Er.
Qed.
Lemma parsePredicate_ok s p pr : parsePredicate s p = Ret pr → all_ok (pred_chains pr).
Proof.
  unfold parsePredicate. case_match; [done|]. intros ([x rest] & E & Er)%res_bind_Ret. apply parse_ok in E. cbn in *. destruct rest as [|[]]; try done. by injection Er as <-.
Qed.
Definition block_chains (b : block) : list chain := match b with ifBlock pr => pred_chains pr | withBlock ch | eachBlock ch _ _ => [ch] end.
Definition state_ok (st : list frame * list span) : Prop :=
  Forall (λ f, all_ok (block_chains (fr_block f)) ∧ all_ok (concat (span_chains <$> fr_body f))) st.1 ∧ all_ok (concat (span_chains <$> st.2)).
Lemma spans_snoc_ok l s : all_ok (concat (span_chains <$> l)) → all_ok (span_chains s) → all_ok (concat (span_chains <$> (l ++ [s])%list)).
Proof. intros Hl Hs. rewrite fmap_app, concat_app. apply Forall_app. split; [done|]. cbn. by rewrite app_nil_r. Qed.
Lemma emit_ok s st : all_ok (span_chains s) → state_ok st → state_ok (emit s st).
Proof.
  intros Hs [Hf Ho]. unfold emit. destruct st as [[|top stack] out]; cbn in *; [split; [done|by apply spans_snoc_ok]|].
  apply Forall_cons in Hf as [[Hb Hbody] Hf]. split; [|done]. constructor; [split; [done|by apply spans_snoc_ok]|done].
Qed.
Lemma blockOf_ok k rest p b : blockOf k rest p = Ret b → all_ok (block_chains b).
Proof.
  unfold blockOf. case_match; [intros (pr & E%parsePredicate_ok & [= <-])%res_bind_Ret; done|]. case_match.
  - intros (ch & E%parseChain_ok & (_ & _ & [= <-])%res_bind_Ret)%res_bind_Ret. by constructor.
  - unfold parseEachHeader. do 4 (case_match; try done). intros (ch & E%parseChain_ok & (_ & _ & [= <-])%res_bind_Ret)%res_bind_Ret. by constructor.
Qed.
Lemma compile_item_ok p st it st' : state_ok st → compile_item p st it = Ret st' → state_ok st'.
Proof.
  intros Hst. destruct it as [s|body o]; cbn [compile_item]; [case_match; intros [= <-]; [done|by apply emit_ok]|]. destruct (splitKeyword body) as [k rest]. case_match.
  - case_match; [done|]. destruct st as [[|top stack] out]; [done|]. intros [= <-]. destruct Hst as [Hf Ho]. apply Forall_cons in Hf as [[Hb Hbody] Hf]. apply emit_ok; [|done].
    destruct (fr_block top); cbn in *; [by apply Forall_app|apply Forall_cons in Hb as [? _]; by constructor..].
  - case_match.
    + intros (_ & _ & E)%res_bind_Ret. case_match; [done|]. apply res_bind_Ret in E as (b & Eb%blockOf_ok & [= <-]). destruct Hst as [Hf Ho]. split; [|done]. by constructor.
    + intros (s & Es & [= <-])%res_bind_Ret. apply emit_ok; [|done]. unfold compileSubst in Es. apply res_bind_Ret in Es as (cm & _ & (ch & Ech%parseChain_ok & [= <-])%res_bind_Ret). by constructor.
Qed.
Lemma compileMarkup_ok s p spans : compileMarkup s p = Ret spans → all_ok (concat (span_chains <$> spans)).
Proof.
  unfold compileMarkup. intros (items & _ & (st & Est & E)%res_bind_Ret)%res_bind_Ret. assert (Hok : state_ok st).
  { assert (Hst : state_ok ([], [])) by (by split; constructor). revert Hst Est. generalize (@nil frame, @nil span). induction items as [|it items IH]; intros st0 Hst; cbn [compile_items]; [by intros [= <-]|].
    intros (st1 & E1 & E2)%res_bind_Ret. eapply IH; [|exact E2]. by eapply compile_item_ok. }
  destruct st as [[|] out]; [|done]. injection E as <-. apply Hok.
Qed.
Lemma compile_when_ok w p pr : compile_when w p = Ret pr → all_ok (match pr with None => [] | Some pr => pred_chains pr end).
Proof. unfold compile_when. case_match; [intros [= <-]; by constructor|]. intros (x & E%parsePredicate_ok & [= <-])%res_bind_Ret. done. Qed.
Lemma compileGroup_ok els w empty p e : Forall (λ o, ∀ e, o = Some e → ∀ p e', compileElement e p = Ret e' → all_ok (element_chains e')) els →
  compileGroup compileElement els w empty p = Ret e → all_ok (element_chains e).
Proof.
  intros Hels. unfold compileGroup. destruct els as [|o els]; [done|]. intros (pred & Ep%compile_when_ok & (kids & Ek & (sp & Es & [= <-])%res_bind_Ret)%res_bind_Ret)%res_bind_Ret.
  cbn [element_chains]. apply Forall_app. split; [done|]. cbn [fmap list_fmap concat app]. apply Forall_app. split; [|destruct (String.eqb _ _); [injection Es as <-; by constructor|by eapply compileMarkup_ok]].
  revert Ek. generalize 0%nat. revert kids. induction Hels as [|o' els' Ho _ IH]; intros kids i; cbn [compile_kids]; [intros [= <-]; by constructor|].
  intros (k & Ek & (ks & Eks & [= <-])%res_bind_Ret)%res_bind_Ret. cbn. apply Forall_app. split; [destruct o' as [e|]; [by eapply Ho|done]|by eapply IH].
Qed.
Lemma compileElement_ok el : ∀ p e, compileElement el p = Ret e → all_ok (element_chains e).
Proof.
  induction el as [w text empty|w text els empty Hels] using document_induction; intros p e; cbn [compileElement].
  - do 2 (case_match; [done|]). intros (pred & Ep%compile_when_ok & (sp & Es%compileMarkup_ok & [= <-])%res_bind_Ret)%res_bind_Ret. cbn. rewrite app_nil_r. by apply Forall_app.
  - case_match; [done|]. by apply compileGroup_ok.
Qed.
Lemma Compile_ok spec t : Compile spec = Ret t → all_ok (element_chains (root t)) ∧ 0 < tm_width t.
Proof.
  destruct spec as [spec|]; [|done]. cbn [Compile]. case_match; [done|]. case_match eqn:Ew; [done|]. intros (r & Er & [= <-])%res_bind_Ret. apply Z.leb_gt in Ew. split; [|done]. cbn.
  unfold under_key in Er. case_match eqn:E; simplify_eq. eapply compileGroup_ok; [|exact E]. apply Forall_forall. intros o _ e _ p e'. apply compileElement_ok.
Qed.
End compiling.

(** ** Rendering returns *)

(** A call that returns, or panics when [S] holds. *)
Definition safe {A} (S : Prop) (r : res A) : Prop := match r with Ret _ => True | Panic _ => S | _ => False end.
Lemma safe_bind {A B} S (m : res A) (k : A → res B) : safe S m → (∀ a, m = Ret a → safe S (k a)) → safe S (res_bind m k).
Proof. destruct m; cbn; [intros _ Hk; by apply Hk|done..]. Qed.
Lemma safe_mono {A} (S S' : Prop) (r : res A) : (S → S') → safe S r → safe S' r.
Proof. by destruct r. Qed.

(** The bytes of a rune, written again, fit where it was read. *)
Lemma lor_below n a b : 0 ≤ n → 0 ≤ a < 2 ^ n → 0 ≤ b < 2 ^ n → 0 ≤ Z.lor a b < 2 ^ n.
Proof.
  intros Hn Ha Hb. assert (H0 : 0 ≤ Z.lor a b) by (apply Z.lor_nonneg; lia). split; [done|]. destruct (decide (Z.lor a b = 0)) as [->|]; [lia|].
  apply Z.log2_lt_pow2; [lia|]. rewrite Z.log2_lor by lia. destruct (decide (n = 0)) as [->|]; [assert (a = 0) as -> by lia; assert (b = 0) as -> by lia; done|].
  apply Z.max_lub_lt; (destruct (decide (a = 0)) as [->|]; destruct (decide (b = 0)) as [->|]; try (change (Z.log2 0) with 0; lia); apply Z.log2_lt_pow2; lia).
Qed.
Lemma land_ones_below n a : 0 ≤ n → 0 ≤ Z.land a (Z.ones n) < 2 ^ n.
Proof. intros Hn. rewrite Z.land_ones by done. apply Z.mod_pos_bound. lia. Qed.
Lemma shiftl_below k n a : 0 ≤ k → 0 ≤ n → 0 ≤ a < 2 ^ n → 0 ≤ Z.shiftl a k < 2 ^ (n + k).
Proof. intros Hk Hn Ha. rewrite Z.shiftl_mul_pow2, Z.pow_add_r by done. nia. Qed.
Lemma rune_string_len rn : 0 ≤ rn → (String.length (rune_string rn) ≤ 4)%nat ∧ (rn < 65536 → (String.length (rune_string rn) ≤ 3)%nat) ∧ (rn < 2048 → (String.length (rune_string rn) ≤ 2)%nat) ∧ (rn < 128 → (String.length (rune_string rn) ≤ 1)%nat).
Proof.
  intros H0. unfold rune_string, ValidRune, between, EncodeRune. repeat (case_match; cbn [String.length]); rewrite ?orb_true_iff, ?orb_false_iff, ?andb_true_iff, ?andb_false_iff, ?Z.leb_le, ?Z.leb_gt, ?Z.ltb_lt, ?Z.ltb_ge in *; change RuneError with 65533 in *; lia.
Qed.
(** Only a byte that starts no rune is written again with more bytes than it was read from. *)
Lemma decoded_fits c s rn w : DecodeRune (String c s) = (rn, w) → (rn = RuneError ∧ w = 1%nat) ∨ (String.length (rune_string rn) ≤ w ≤ String.length (String c s))%nat.
Proof.
  assert (L6 : ∀ a, 0 ≤ low6 a < 2 ^ 6) by (intros a; apply (land_ones_below 6); lia).
  assert (A2 : ∀ x y, 0 ≤ Z.lor (Z.shiftl (Z.land x 31) 6) (low6 y) < 2 ^ 11).
  { intros x y. apply lor_below; [lia|apply (shiftl_below 6 5); [lia..|apply (land_ones_below 5); lia]|]. specialize (L6 y). lia. }
  assert (A3 : ∀ x y z, 0 ≤ Z.lor (Z.shiftl (Z.land x 15) 12) (Z.lor (Z.shiftl (low6 y) 6) (low6 z)) < 2 ^ 16).
  { intros x y z. apply lor_below; [lia|apply (shiftl_below 12 4); [lia..|apply (land_ones_below 4); lia]|].
    pose proof (shiftl_below 6 6 (low6 y)). apply lor_below; [lia|specialize (L6 y); lia|specialize (L6 z); lia]. }
  assert (A4 : ∀ x y z t, 0 ≤ Z.lor (Z.shiftl (Z.land x 7) 18) (Z.lor (Z.shiftl (low6 y) 12) (Z.lor (Z.shiftl (low6 z) 6) (low6 t)))).
  { intros x y z t. rewrite !Z.lor_nonneg, !Z.shiftl_nonneg. pose proof (L6 y). pose proof (L6 z). pose proof (L6 t). pose proof (land_ones_below 3 x ltac:(lia)) as L3. change (Z.ones 3) with 7 in L3. lia. }
  cbn [DecodeRune]. repeat case_match; intros [= <- <-]; try (by left); right; cbn [String.length].
  all: match goal with |- context [rune_string ?r] => pose proof (rune_string_len r) end.
  all: repeat match goal with E : (byte_of _ <? 128) = true |- _ => apply Z.ltb_lt in E end.
  all: match goal with
    | |- context [Z.lor (Z.shiftl (Z.land ?x 31) 6) (low6 ?y)] => specialize (A2 x y)
    | |- context [Z.lor (Z.shiftl (Z.land ?x 15) 12) (Z.lor (Z.shiftl (low6 ?y) 6) (low6 ?z))] => specialize (A3 x y z)
    | |- context [Z.lor (Z.shiftl (Z.land ?x 7) 18) (Z.lor (Z.shiftl (low6 ?y) 12) (Z.lor (Z.shiftl (low6 ?z) 6) (low6 ?t)))] => specialize (A4 x y z t)
    | _ => assert (0 ≤ byte_of c) by (unfold byte_of; lia)
    end; lia.
Qed.
(** A text of one or two bytes that starts no rune: shorter than what replaces its first. *)
Definition broken_text (s : string) : Prop := DecodeRune s = (RuneError, 1%nat) ∧ (String.length s < String.length (rune_string RuneError))%nat.
(** The contexts in which a template evaluates its chains: the document, and what a chain
    finds in such a context. *)
Inductive in_scope `{GoArch} `{GoFmt} `{GoZone} `{DocFmt} `{GoRunes} (chains : list chain) (doc : value) : value → Prop :=
| scope_doc : in_scope chains doc doc
| scope_chain ctx ch vals v : in_scope chains doc ctx → ch ∈ chains → chain_eval ch ctx = Ret vals → v ∈ vals → in_scope chains doc v.
(** The chain, in the context, hands a broken text to the construct [sentence]. *)
Definition breaks `{GoArch} `{GoFmt} `{GoZone} `{DocFmt} `{GoRunes} (ls : list chainLink) (cur : list value) : Prop :=
  ∃ before c args after v vals, ls = (before ++ ConstructLink c args :: after)%list ∧ c_name c = "sentence" ∧ eval_links before cur = Ret (v :: vals) ∧ broken_text (ValueText v).
Definition meets_broken_text `{GoArch} `{GoFmt} `{GoZone} `{DocFmt} `{GoRunes} (chains : list chain) (doc : value) : Prop :=
  ∃ ch ctx, ch ∈ chains ∧ in_scope chains doc ctx ∧ breaks (links ch) [ctx].

Section rendering.
Context `{GoArch} `{GoFmt} `{GoZone} `{DocFmt} `{GoRunes}.
Lemma word_at_returns l n : 0 ≤ n < Z.of_nat (length l) → ∃ w, word_at l n = Ret w.
Proof.
  intros Hn. unfold word_at. rewrite (proj2 (Z.ltb_ge n 0)) by lia. destruct (lookup_lt_is_Some_2 l (Z.to_nat n)) as [w ->]; [lia|by eexists].
Qed.
Lemma words_returns n : ∃ w, words n = Ret w.
Proof.
  assert (Hd : ∀ depth n, (n < 100 ∨ (0 < depth)%nat) → ∃ w, words_go depth n = Ret w); [|apply Hd; right; lia]. clear n. intros depth. induction depth as [|depth IH]; intros n Hn; cbn [words_go].
  all: destruct ((n <? 0) || (999 <? n)) eqn:E1; [by eexists|]; apply orb_false_iff in E1 as [E1%Z.ltb_ge E1'%Z.ltb_ge].
  all: destruct (n <? 20) eqn:E2; [apply word_at_returns; apply Z.ltb_lt in E2; cbn; lia|apply Z.ltb_ge in E2].
  all: destruct (n <? 100) eqn:E3; [apply Z.ltb_lt in E3|apply Z.ltb_ge in E3].
  all: try (destruct (word_at_returns tensWords (Z.quot n 10)) as [a ->]; [cbn; pose proof (Z.quot_rem' n 10); pose proof (Z.rem_bound_pos n 10); lia|]; cbn [res_bind]; case_match; [by eexists|];
    destruct (word_at_returns unitWords (Z.rem n 10)) as [b ->]; [cbn; pose proof (Z.rem_bound_pos n 10); lia|]; by eexists).
  all: destruct (word_at_returns unitWords (Z.quot n 100)) as [a ->]; [cbn; pose proof (Z.quot_rem' n 100); pose proof (Z.rem_bound_pos n 100); lia|]; cbn [res_bind]; case_match; [by eexists|].
  - lia.
  - destruct (IH (Z.rem n 100)) as [w ->]; [pose proof (Z.rem_bound_pos n 100); lia|]. by eexists.
Qed.
Lemma sentence_safe s : safe (broken_text s) (sentence s).
Proof.
  unfold sentence. destruct s as [|c s]; [done|]. unfold runes. cbn [runes_from]. destruct (DecodeRune (String c s)) as [rn w] eqn:E.
  destruct (Nat.ltb_spec (String.length (String c s)) (String.length (rune_string rn))); [|done]. cbn [safe].
  destruct (decoded_fits c s rn w E) as [[-> ->]|?]; [split; done|lia].
Qed.
(** A construct that is called as its shape says. *)
Lemma construct_safe c args cur : c ∈ constructs → length args = length (c_args c) → safe (c_name c = "sentence" ∧ ∃ v vals, cur = v :: vals ∧ broken_text (ValueText v)) (eval_link (ConstructLink c args) cur).
Proof.
  intros Hc Hl. unfold constructs in Hc. assert (Harg : ∀ i, (i < length args)%nat → ∃ a, arg_at args i = Ret a).
  { intros i Hi. unfold arg_at. destruct (lookup_lt_is_Some_2 args i Hi) as [a ->]. by eexists. }
  repeat (apply elem_of_cons in Hc as [->|Hc]); [..|by apply not_elem_of_nil in Hc]; cbn [eval_link c_shape one fold c_name c_args length] in *.
  - destruct cur as [|v cur]; [done|]. destruct (AsInt v) as [n|]; [|done]. by destruct (words_returns n) as [w ->].
  - destruct cur as [|v cur]; [done|]. do 2 (apply safe_bind; [|done]). eapply safe_mono; [|apply sentence_safe]. intros Hb. split; [done|]. by exists v, cur.
  - destruct cur as [|v cur]; [done|]. destruct (Harg 0%nat) as [a Ha]; [lia|]. cbv zeta. by rewrite Ha.
  - by destruct cur.
  - by destruct cur.
  - destruct (Harg 0%nat) as [a ->]; [lia|done].
  - induction cur as [|v cur IH]; [done|]. cbn [map_one res_bind]. apply safe_bind; [|done]. eapply safe_mono; [|exact IH]. by intros [? _].
  - cbv zeta. destruct (Harg 0%nat) as [a ->]; [lia|]. destruct (Harg 1%nat) as [b ->]; [lia|done].
  - done.
  - done.
Qed.
Lemma eval_links_safe ls cur : Forall link_ok ls → safe (breaks ls cur) (eval_links ls cur).
Proof.
  revert cur. induction ls as [|l ls IH]; intros cur Hok; [done|]. apply Forall_cons in Hok as [Hl Hls]. cbn [eval_links]. apply safe_bind.
  - destruct l as [path|c args]; [done|]. destruct Hl as [Hc Ha]. eapply safe_mono; [|by apply construct_safe]. intros (E & v & vals & -> & Hb). by exists [], c, args, ls, v, vals.
  - intros cur' Ecur. eapply safe_mono; [|by apply IH]. intros (b & c & args & a & v & vals & -> & E & Eb & Hb). exists (l :: b), c, args, a, v, vals. split; [done|]. split; [done|].
    split; [|done]. cbn [eval_links]. by rewrite Ecur.
Qed.

(** Spans and elements are safe when their chains are, in the contexts they are met in. *)
Context (S : Prop) (scope : value → Prop).
Definition chain_safe (ch : chain) : Prop := ∀ ctx, scope ctx → safe S (chain_eval ch ctx) ∧ ∀ vals v, chain_eval ch ctx = Ret vals → v ∈ vals → scope v.
Lemma as_node_same v node : as_node v = Some node → node = v.
Proof. by destruct v; intros [= <-]. Qed.
Lemma chain_first_safe ch ctx : chain_safe ch → scope ctx → safe S (chain_first ch ctx).
Proof. intros Hc Hs. apply safe_bind; [by apply Hc|done]. Qed.
Lemma chain_first_scope ch ctx v : chain_safe ch → scope ctx → chain_first ch ctx = Ret (Some v) → scope v.
Proof.
  intros Hc Hs. unfold chain_first. destruct (chain_eval ch ctx) as [[|x vals]| | |] eqn:E; cbn [res_bind head]; try done. intros [= <-]. eapply Hc; [done|exact E|by left].
Qed.
Lemma chain_text_safe ch ctx : chain_safe ch → scope ctx → safe S (chain_text ch ctx).
Proof. intros Hc Hs. apply safe_bind; [by apply chain_first_safe|done]. Qed.
Lemma pred_safe pr ctx : Forall chain_safe (pred_chains pr) → scope ctx → safe S (pred_eval pr ctx).
Proof.
  intros Hok Hs. revert Hok. induction pr as [l IHl r IHr|l IHl r IHr|ch op lit num]; cbn [pred_chains pred_eval]; intros Hok.
  1,2: apply Forall_app in Hok as [Hl Hr]; apply safe_bind; [by apply IHl|]; intros [] _; [by try apply IHr|by try apply IHr].
  apply Forall_cons in Hok as [Hc _]. do 2 (case_match; [apply safe_bind; [by apply chain_text_safe|done]|]).
  apply safe_bind; [by apply chain_first_safe|]. intros [v|] _; [by case_match|done].
Qed.
Lemma spans_safe spans ctx r : Forall (λ s, Forall chain_safe (span_chains s) → ∀ ctx r, scope ctx → safe S (render_span s ctx r)) spans →
  Forall chain_safe (concat (span_chains <$> spans)) → scope ctx → safe S (renderSpans render_span spans ctx r).
Proof.
  intros Hs Hok Hctx. revert r Hok. induction Hs as [|s spans Hs _ IH]; intros r Hok; [done|]. cbn in Hok. apply Forall_app in Hok as [H1' H2']. cbn [renderSpans].
  apply safe_bind; [by apply Hs|]. intros a _. apply safe_bind; [by apply IH|done].
Qed.
Lemma span_safe s : Forall chain_safe (span_chains s) → ∀ ctx r, scope ctx → safe S (render_span s ctx r).
Proof.
  induction s as [s|ch m p|pr body Hb|ch body Hb|ch sep last body Hb] using span_induction; cbn [span_chains]; intros Hok ctx r Hctx; cbn [render_span].
  - done.
  - apply Forall_cons in Hok as [Hc _]. apply safe_bind; [by apply chain_text_safe|done].
  - apply Forall_app in Hok as [Hp Hok]. apply safe_bind; [by apply pred_safe|]. intros [] _; [by apply spans_safe|done].
  - apply Forall_cons in Hok as [Hc Hok]. apply safe_bind; [by apply chain_first_safe|]. intros [v|] Ev; [|done]. destruct (as_node v) as [node|] eqn:En; [|done].
    apply as_node_same in En as ->. apply spans_safe; [done..|]. exact (chain_first_scope ch ctx v Hc Hctx Ev).
  - apply Forall_cons in Hok as [Hc Hok]. apply safe_bind; [by apply Hc|]. intros vals Evals. apply safe_bind; [|done]. assert (Hvals : Forall scope vals) by (apply Forall_forall; intros v Hv; exact (proj2 (Hc ctx Hctx) vals v Evals Hv)).
    clear Evals. generalize 0. revert r. induction Hvals as [|v vals Hv _ IH]; intros r i; [done|].
    cbn [render_each]. destruct (as_node v) as [node|] eqn:En; [apply as_node_same in En as ->|apply IH]. apply safe_bind; [by apply spans_safe|]. intros a _. apply safe_bind; [apply IH|done].
Qed.
Lemma one_paragraph_safe spans ctx r : Forall chain_safe (concat (span_chains <$> spans)) → scope ctx → safe S (one_paragraph spans ctx r).
Proof. intros Hok Hs. apply safe_bind; [|done]. apply spans_safe; [|done..]. apply Forall_forall. intros s _. apply span_safe. Qed.
Lemma element_safe e : Forall chain_safe (element_chains e) → ∀ ctx r, scope ctx → safe S (render_element e ctx r).
Proof.
  induction e as [w g text kids empty Hk] using element_induction; cbn [element_chains]; rewrite !Forall_app; intros (Hw & Ht & Hks & He) ctx r Hs; cbn [render_element].
  apply safe_bind; [destruct w as [pr|]; [by apply pred_safe|done]|]. intros shown _.
  destruct shown; cbn [negb]; [|done]. destruct g; cbn [negb]; [|by apply one_paragraph_safe]. apply safe_bind.
  - revert r. induction Hk as [|k kids Hk _ IH]; intros r; [done|]. cbn in Hks. apply Forall_app in Hks as [Hk1 Hks]. cbn [render_kids]. apply safe_bind; [by apply Hk|].
    intros a _. apply safe_bind; [by apply IH|done].
  - intros [[|x out] r'] _; cbn [fst snd]; [|done]. destruct empty as [|s empty]; [done|by apply one_paragraph_safe].
Qed.
End rendering.

(** C17. A template that compiled renders every document, whatever it has or has not, unless it
    hands the construct [sentence] a broken text: one of its chains, evaluated on the document
    or on what its chains find there, gives to [sentence] a text whose first byte starts no
    rune and which is shorter than the three bytes that replace it. Then, and only then, may
    the rendering panic; it never answers with an error. *)
Theorem render_returns `{GoArch} `{GoFmt} `{GoZone} `{DocFmt} `{GoRunes} spec t doc : Compile spec = Ret t →
  (∃ text violations, Render t doc = Ret (text, violations)) ∨
  (meets_broken_text (element_chains (root t)) doc ∧ ∃ e, Render t doc = Panic e).
Proof.
  intros [Hok _]%Compile_ok. set (chains := element_chains (root t)) in *. assert (Hs : safe (meets_broken_text chains doc) (Render t doc)).
  { unfold Render. apply safe_bind; [|done]. apply (element_safe _ (in_scope chains doc)); [|apply scope_doc]. rewrite Forall_forall in Hok |- *. intros ch Hch ctx Hctx. split.
    - eapply safe_mono; [|apply eval_links_safe, Hok, Hch]. intros Hb. by exists ch, ctx.
    - intros vals v Ev Hv. by eapply scope_chain. }
  destruct (Render t doc) as [[text vs]|e|e|]; cbn in Hs; [left; by eauto|done|right; by eauto|done].
Qed.

(** ** Predicates read back

    A predicate as it is written: the pieces of a chain, an operator and what is on its
    right, joined by connectives. [show] writes the tree with the parentheses it needs,
    where [level] is 0 on either side of nothing, 1 in a conjunction and 2 on its right. *)
Inductive piece := Word (w : string) | Quoted (q : string).
Inductive syntax := Both (l r : syntax) | Either (l r : syntax) | Compare (ch : list piece) (op : string) (rhs : piece).
Definition show_piece (x : piece) : string := match x with Word w => w | Quoted q => "'" +:+ q +:+ "'" end.
Definition parens (b : bool) (s : string) : string := if b then "(" +:+ s +:+ ")" else s.
Fixpoint show (level : nat) (t : syntax) : string :=
  match t with
  | Either l r => parens (0 <? level)%nat (show 0 l +:+ " or " +:+ show 1 r)
  | Both l r => parens (1 <? level)%nat (show 1 l +:+ " and " +:+ show 2 r)
  | Compare ch op rhs => join " " (show_piece <$> ch) +:+ " " +:+ op +:+ " " +:+ show_piece rhs
  end.
(** A word is one token: no quote, parenthesis, operator or blank, and no connective. *)
Definition plain_char (c : ascii) : bool :=
  negb (Ascii.eqb c APOS || Ascii.eqb c "(" || Ascii.eqb c ")" || is_op c || is_blank c) && (byte_of c <? 128) && negb (space_byte c).
Definition plain_word (w : string) : bool := str_all plain_char w && negb (String.eqb w "") && negb (String.eqb w "and") && negb (String.eqb w "or").
Definition unquoted (q : string) : bool := str_all (λ c, negb (Ascii.eqb c APOS)) q.
Definition piece_ok (x : piece) : Prop := match x with Word w => plain_word w = true | Quoted q => unquoted q = true end.

Definition piece_token (x : piece) : predToken := match x with Word w => tokChain w | Quoted q => tokQuoted q end.
Definition paren_tokens (b : bool) (l : list predToken) : list predToken := if b then tokLParen :: l ++ [tokRParen] else l.
Fixpoint tokens (level : nat) (t : syntax) : list predToken :=
  match t with
  | Either l r => paren_tokens (0 <? level)%nat (tokens 0 l ++ tokOr :: tokens 1 r)
  | Both l r => paren_tokens (1 <? level)%nat (tokens 1 l ++ tokAnd :: tokens 2 r)
  | Compare ch op rhs => (piece_token <$> ch) ++ [tokOp op; piece_token rhs]
  end%list.
Inductive syntax_ok : syntax → Prop :=
| Both_ok l r : syntax_ok l → syntax_ok r → syntax_ok (Both l r)
| Either_ok l r : syntax_ok l → syntax_ok r → syntax_ok (Either l r)
| Compare_ok x ch op rhs : Forall piece_ok (x :: ch) → is_operator op = true → piece_ok rhs → syntax_ok (Compare (x :: ch) op rhs).

(** *** The tokens of a text *)
Lemma snoc_app s c r : snoc s c +:+ r = s +:+ String c r.
Proof. unfold snoc. by rewrite <- str_app_assoc. Qed.
Lemma lex_run run w s : str_all plain_char w = true → lex_from (InRun run) (w +:+ s) = lex_from (InRun (run +:+ w)) s.
Proof.
  revert run. induction w as [|c w IH]; intros run Hw; [by rewrite str_app_nil|]. cbn [str_all] in Hw. apply andb_true_iff in Hw as [Hc Hw].
  rewrite str_app_cons. cbn [lex_from lex_step]. unfold plain_char in Hc. apply andb_true_iff in Hc as [[Hc _]%andb_true_iff _]. apply negb_true_iff in Hc.
  rewrite !orb_false_iff in Hc. destruct Hc as [[[[E1 E2] E3] E4] E5]. unfold lex_char. rewrite E1, E2, E3, E4, E5. cbn [app]. rewrite IH by done. unfold snoc. by rewrite <- str_app_assoc.
Qed.
Lemma plain_trim w : str_all plain_char w = true → TrimSpace w = w.
Proof.
  intros Hw. apply TrimSpace_none.
  - unfold isASCII. revert Hw. induction w as [|c w IH]; [done|]. cbn [str_all]. intros [Hc Hw]%andb_true_iff. unfold plain_char in Hc. apply andb_true_iff in Hc as [[_ ->]%andb_true_iff _]. by apply IH.
  - revert Hw. induction w as [|c w IH]; [done|]. cbn [str_all]. intros [Hc Hw]%andb_true_iff. unfold plain_char in Hc. apply andb_true_iff in Hc as [_ ->]. by apply IH.
Qed.
Lemma flush_word w : plain_word w = true → flush w = [tokChain w].
Proof.
  unfold plain_word, flush. intros [[[Hw H1]%andb_true_iff H2]%andb_true_iff H3]%andb_true_iff. rewrite plain_trim by done. apply negb_true_iff in H1, H2, H3. by rewrite H1, H2, H3.
Qed.
Lemma lex_quoted text q s : unquoted q = true → lex_from (InQuote text) (q +:+ String APOS s) = tokQuoted (text +:+ q) :: lex_from (InRun "") s.
Proof.
  unfold unquoted. revert text. induction q as [|c q IH]; intros text; [by rewrite str_app_nil|]. cbn [str_all]. intros [Hc%negb_true_iff Hq]%andb_true_iff.
  rewrite str_app_cons. cbn [lex_from lex_step]. rewrite Hc. cbn [app]. rewrite IH by done. unfold snoc. by rewrite <- str_app_assoc.
Qed.
(** What follows a token: the end, a blank or a closing parenthesis. *)
Definition delimited (s : string) : Prop := s = "" ∨ ∃ r, s = String " " r ∨ s = String ")" r.
Lemma lex_delimited run s : delimited s → lex_from (InRun run) s = (flush run ++ lex_from (InRun "") s)%list.
Proof. intros [->|(r & [->| ->])]; [by cbn; rewrite app_nil_r|by cbn|cbn]. by rewrite <- app_assoc. Qed.
Lemma lex_piece x s : piece_ok x → delimited s → lex_from (InRun "") (show_piece x +:+ s) = piece_token x :: lex_from (InRun "") s.
Proof.
  intros Hx Hs. destruct x as [w|q]; cbn [show_piece piece_token piece_ok] in *.
  - pose proof Hx as Hp. unfold plain_word in Hp. apply andb_true_iff in Hp as [[[Hp _]%andb_true_iff _]%andb_true_iff _]. rewrite lex_run by done. change ("" +:+ w) with w. by rewrite lex_delimited, flush_word.
  - rewrite <- !str_app_assoc. change ("'" +:+ ?x) with (String APOS x). cbn [lex_from lex_step]. unfold lex_char. cbn [Ascii.eqb]. exact (lex_quoted "" q s Hx).
Qed.
Lemma lex_space s : lex_from (InRun "") (String " " s) = lex_from (InRun "") s.
Proof. done. Qed.
Lemma lex_op op s : is_operator op = true → lex_from (InRun "") (op +:+ String " " s) = tokOp op :: lex_from (InRun "") s.
Proof. unfold is_operator. rewrite existsb_exists. intros (o & Ho & ->%String.eqb_eq). cbn [pred_operators In] in Ho. destruct_or! Ho; subst; done. Qed.
Lemma lex_pieces ch s : Forall piece_ok ch → ch ≠ [] → delimited s → lex_from (InRun "") (join " " (show_piece <$> ch) +:+ s) = ((piece_token <$> ch) ++ lex_from (InRun "") s)%list.
Proof.
  induction 1 as [|x ch Hx Hch IH]; intros Hne Hs; [done|]. destruct ch as [|y ch]; [by apply lex_piece|]. change (join " " (show_piece <$> x :: y :: ch)) with (show_piece x +:+ " " +:+ join " " (show_piece <$> y :: ch)).
  rewrite <- !str_app_assoc. rewrite lex_piece; [|done|right; eexists; by left]. rewrite str_app_cons. change ("" +:+ ?x) with x. by rewrite lex_space, IH.
Qed.
Lemma lex_show t : syntax_ok t → ∀ level s, delimited s → lex_from (InRun "") (show level t +:+ s) = (tokens level t ++ lex_from (InRun "") s)%list.
Proof.
  assert (Hparen : ∀ b x l s, delimited s → (∀ s, delimited s → lex_from (InRun "") (x +:+ s) = (l ++ lex_from (InRun "") s)%list) →
    lex_from (InRun "") (parens b x +:+ s) = (paren_tokens b l ++ lex_from (InRun "") s)%list).
  { intros [] x l s Hs Hx; [|by apply Hx]. cbn [parens paren_tokens]. rewrite <- !str_app_assoc. change ("(" +:+ ?y) with (String "(" y). cbn [lex_from lex_step]. unfold lex_char. cbn [Ascii.eqb].
    change (")" +:+ s) with (String ")" s). change (flush "" ++ [tokLParen])%list with [tokLParen]. cbn [app]. f_equal.
    rewrite Hx by (right; eexists; by right). rewrite <- app_assoc. f_equal. }
  assert (Hconn : ∀ x l y m w tok s, delimited s → lex_from (InRun "") (w +:+ String " " (y +:+ s)) = tok :: lex_from (InRun "") (y +:+ s) →
    (∀ s, delimited s → lex_from (InRun "") (x +:+ s) = (l ++ lex_from (InRun "") s)%list) → (∀ s, delimited s → lex_from (InRun "") (y +:+ s) = (m ++ lex_from (InRun "") s)%list) →
    lex_from (InRun "") ((x +:+ String " " (w +:+ String " " y)) +:+ s) = ((l ++ tok :: m) ++ lex_from (InRun "") s)%list).
  { intros x l y m w tok s Hs Hw Hx Hy. rewrite <- str_app_assoc, Hx by (right; eexists; by left). rewrite <- app_assoc. f_equal. rewrite str_app_cons, lex_space, <- str_app_assoc, str_app_cons, Hw. cbn. by rewrite Hy. }
  induction 1 as [l r Hl IHl Hr IHr|l r Hl IHl Hr IHr|x ch op rhs Hch Hop Hrhs]; intros level s Hs; cbn [show tokens].
  - apply Hparen; [done|]. intros s' Hs'. apply (Hconn _ _ _ _ "and" tokAnd s' Hs'); [done|by apply IHl|by apply IHr].
  - apply Hparen; [done|]. intros s' Hs'. apply (Hconn _ _ _ _ "or" tokOr s' Hs'); [done|by apply IHl|by apply IHr].
  - rewrite <- !str_app_assoc. rewrite lex_pieces; [|done|done|right; eexists; by left]. rewrite <- app_assoc. f_equal. rewrite str_app_cons. change ("" +:+ ?y) with y. rewrite lex_space.
    rewrite str_app_cons. change ("" +:+ ?y) with y. rewrite lex_op by done. cbn. f_equal. by apply lex_piece.
Qed.

(** *** The tree of the tokens *)
Section reading.
Context `{GoArch} `{GoFmt} `{GoZone} `{DocFmt} `{GoRunes}.
Context (p : position).
(** What a written predicate means: its chains are compiled, a comparison of texts has a
    quoted literal on its right, one of numbers a word that reads as a number. *)
Fixpoint means (t : syntax) (pr : predicate) : Prop :=
  match t with
  | Both l r => ∃ a b, pr = predAnd a b ∧ means l a ∧ means r b
  | Either l r => ∃ a b, pr = predOr a b ∧ means l a ∧ means r b
  | Compare ch op rhs => ∃ c, parseChain (join " " (show_piece <$> ch)) p = Ret c ∧
      match rhs with
      | Quoted q => (op = "==" ∨ op = "!=") ∧ pr = predTerm c op q f64_0
      | Word w => op ≠ "==" ∧ op ≠ "!=" ∧ ∃ f, AsFloat (text_value w) = Some f ∧ pr = predTerm c op "" f
      end
  end.
Lemma show_piece_nonempty x : piece_ok x → show_piece x ≠ "".
Proof. destruct x as [w|q]; [|done]. cbn. unfold plain_word. intros [[[_ Hw]%andb_true_iff _]%andb_true_iff _]%andb_true_iff. by apply negb_true_iff, String.eqb_neq in Hw. Qed.
Lemma str_app_nonempty a b : a ≠ "" → a +:+ b ≠ "".
Proof. by destruct a. Qed.
Lemma chain_tokens_more ch rest : (match rest with tokChain _ :: _ | tokQuoted _ :: _ => False | _ => True end) → Forall piece_ok ch → ∀ acc, acc ≠ "" →
  chain_tokens acc ((piece_token <$> ch) ++ rest)%list = (match ch with [] => acc | _ => acc +:+ " " +:+ join " " (show_piece <$> ch) end, rest).
Proof.
  intros Hrest. induction 1 as [|x ch Hx Hch IH]; intros acc Hacc; [by destruct rest as [|[] ]|]. apply String.eqb_neq in Hacc as Eacc.
  assert (Hs : chain_tokens acc ((piece_token <$> x :: ch) ++ rest)%list = chain_tokens ((acc +:+ " ") +:+ show_piece x) ((piece_token <$> ch) ++ rest)%list).
  { destruct x; cbn; by rewrite Eacc. }
  rewrite Hs, IH by (by rewrite <- str_app_assoc; apply str_app_nonempty). f_equal. destruct ch; [by rewrite <- str_app_assoc|]. by rewrite <- !str_app_assoc.
Qed.
Lemma chain_tokens_all x ch rest : (match rest with tokChain _ :: _ | tokQuoted _ :: _ => False | _ => True end) → Forall piece_ok (x :: ch) →
  chain_tokens "" ((piece_token <$> x :: ch) ++ rest)%list = (join " " (show_piece <$> x :: ch), rest).
Proof.
  intros Hrest [Hx Hch]%Forall_cons. assert (Hs : chain_tokens "" ((piece_token <$> x :: ch) ++ rest)%list = chain_tokens (show_piece x) ((piece_token <$> ch) ++ rest)%list) by (by destruct x).
  rewrite Hs, chain_tokens_more; [|done|done|by apply show_piece_nonempty]. by destruct ch.
Qed.
Lemma parseTerm_reads ch op rhs pr rest : syntax_ok (Compare ch op rhs) → means (Compare ch op rhs) pr →
  parseTerm p (tokens 2 (Compare ch op rhs) ++ rest)%list = Ret (pr, rest).
Proof.
  inversion 1 as [| |x ch' op' rhs' Hch Hop Hrhs]; subst. intros (c & Ec & Hm). unfold parseTerm. cbn [tokens]. rewrite <- app_assoc, chain_tokens_all by done. cbn [app].
  assert (Hne : String.eqb (join " " (show_piece <$> x :: ch')) "" = false).
  { apply String.eqb_neq. apply Forall_cons in Hch as [Hx _]. apply show_piece_nonempty in Hx. destruct ch'; [done|]. cbn [fmap list_fmap join]. by apply str_app_nonempty. }
  rewrite Hne, Hop. cbn [negb]. rewrite Ec. cbn [res_bind]. destruct rhs as [w|q]; cbn [piece_token].
  - destruct Hm as (H1' & H2' & f & Ef & ->). apply String.eqb_neq in H1', H2'. rewrite H1', H2'. cbn [orb]. by rewrite Ef.
  - destruct Hm as [[->| ->] ->]; done.
Qed.
Definition no_and (toks : list predToken) : Prop := match toks with tokAnd :: _ => False | _ => True end.
Definition unary_reads t pr := ∀ rest, ∃ n, parseUnary n p (tokens 2 t ++ rest)%list = Ret (pr, rest).
Definition and_reads t pr := ∀ rest y, (∃ m, and_loop m p pr rest = Ret y) → ∃ n, parseAnd n p (tokens 1 t ++ rest)%list = Ret y.
Definition or_reads t pr := ∀ rest y, no_and rest → (∃ m, or_loop m p pr rest = Ret y) → ∃ n, parseOr n p (tokens 0 t ++ rest)%list = Ret y.
Lemma no_and_loop pr rest : no_and rest → and_loop 1 p pr rest = Ret (pr, rest).
Proof. by destruct rest as [|[] rest]. Qed.
Lemma and_from_unary toks l rest y : (∃ n, parseUnary n p toks = Ret (l, rest)) → (∃ m, and_loop m p l rest = Ret y) → ∃ n, parseAnd n p toks = Ret y.
Proof.
  intros [n Hn] [m Hm]. exists (S (Nat.max n m)). cbn [parseAnd]. destruct (fuel_mono p n (Nat.max n m)) as (_ & _ & _ & _ & Hu); [lia|]. rewrite Hu by (by rewrite Hn). rewrite Hn. cbn [res_bind fst snd].
  destruct (fuel_mono p m (Nat.max n m)) as (_ & _ & _ & Hal & _); [lia|]. by rewrite Hal by (by rewrite Hm).
Qed.
Lemma or_from_and toks l rest y : (∃ n, parseAnd n p toks = Ret (l, rest)) → (∃ m, or_loop m p l rest = Ret y) → ∃ n, parseOr n p toks = Ret y.
Proof.
  intros [n Hn] [m Hm]. exists (S (Nat.max n m)). cbn [parseOr]. destruct (fuel_mono p n (Nat.max n m)) as (_ & _ & Ha & _); [lia|]. rewrite Ha by (by rewrite Hn). rewrite Hn. cbn [res_bind fst snd].
  destruct (fuel_mono p m (Nat.max n m)) as (_ & Hol & _); [lia|]. by rewrite Hol by (by rewrite Hm).
Qed.
Lemma and_loop_more l toks r rest y : (∃ n, parseUnary n p toks = Ret (r, rest)) → (∃ m, and_loop m p (predAnd l r) rest = Ret y) → ∃ n, and_loop n p l (tokAnd :: toks) = Ret y.
Proof.
  intros [n Hn] [m Hm]. exists (S (Nat.max n m)). cbn [and_loop]. destruct (fuel_mono p n (Nat.max n m)) as (_ & _ & _ & _ & Hu); [lia|]. rewrite Hu by (by rewrite Hn). rewrite Hn. cbn [res_bind fst snd].
  destruct (fuel_mono p m (Nat.max n m)) as (_ & _ & _ & Hal & _); [lia|]. by rewrite Hal by (by rewrite Hm).
Qed.
Lemma or_loop_more l toks r rest y : (∃ n, parseAnd n p toks = Ret (r, rest)) → (∃ m, or_loop m p (predOr l r) rest = Ret y) → ∃ n, or_loop n p l (tokOr :: toks) = Ret y.
Proof.
  intros [n Hn] [m Hm]. exists (S (Nat.max n m)). cbn [or_loop]. destruct (fuel_mono p n (Nat.max n m)) as (_ & _ & Ha & _); [lia|]. rewrite Ha by (by rewrite Hn). rewrite Hn. cbn [res_bind fst snd].
  destruct (fuel_mono p m (Nat.max n m)) as (_ & Hol & _); [lia|]. by rewrite Hol by (by rewrite Hm).
Qed.
(** From a level to the looser ones, and through parentheses. *)
Lemma unary_and t pr : unary_reads t pr → tokens 1 t = tokens 2 t → and_reads t pr.
Proof. intros Hu E rest y Hy. rewrite E. eapply and_from_unary; [apply Hu|done]. Qed.
Lemma and_or t pr : and_reads t pr → tokens 0 t = tokens 1 t → or_reads t pr.
Proof. intros Ha E rest y Hr Hy. rewrite E. eapply or_from_and; [|exact Hy]. apply Ha. exists 1%nat. by apply no_and_loop. Qed.
Lemma parens_unary t pr : or_reads t pr → tokens 2 t = tokLParen :: (tokens 0 t ++ [tokRParen])%list → unary_reads t pr.
Proof.
  intros Ho E rest. destruct (Ho (tokRParen :: rest) (pr, tokRParen :: rest)) as [n Hn]; [done|by exists 1%nat|]. exists (S n). rewrite E. cbn [app]. rewrite <- app_assoc.
  change (parseUnary (S n) p (tokLParen :: ?x)) with (let! r := parseOr n p x in match r.2 with tokRParen :: toks => Ret (r.1, toks) | _ => compileErr p "predicate has an unbalanced '('" end).
  cbn [app]. by rewrite Hn.
Qed.
Lemma tokens_read t : syntax_ok t → ∀ pr, means t pr → unary_reads t pr ∧ and_reads t pr ∧ or_reads t pr.
Proof.
  induction 1 as [l r Hl IHl Hr IHr|l r Hl IHl Hr IHr|x ch op rhs Hch Hop Hrhs]; intros pr Hm.
  - destruct Hm as (a & b & -> & Ha & Hb). apply IHl in Ha as (_ & Ha & _). apply IHr in Hb as (Hb & _). assert (Hand : and_reads (Both l r) (predAnd a b)).
    { intros rest y Hy. cbn [tokens paren_tokens Nat.ltb Nat.leb]. rewrite <- app_assoc. apply Ha. eapply and_loop_more; [apply Hb|done]. }
    assert (Hor : or_reads (Both l r) (predAnd a b)) by (by apply and_or). split; [by apply parens_unary|done].
  - destruct Hm as (a & b & -> & Ha & Hb). apply IHl in Ha as (_ & _ & Ha). apply IHr in Hb as (_ & Hb & _). assert (Hor : or_reads (Either l r) (predOr a b)).
    { intros rest y Hrest Hy. cbn [tokens paren_tokens Nat.ltb Nat.leb]. rewrite <- app_assoc. apply Ha; [done|]. eapply or_loop_more; [|done]. apply Hb. exists 1%nat. by apply no_and_loop. }
    assert (Hu : unary_reads (Either l r) (predOr a b)) by (by apply parens_unary). split; [done|]. split; [by apply unary_and|done].
  - assert (Hu : unary_reads (Compare (x :: ch) op rhs) pr).
    { intros rest. exists 1%nat. assert (E : parseUnary 1 p (tokens 2 (Compare (x :: ch) op rhs) ++ rest)%list = parseTerm p (tokens 2 (Compare (x :: ch) op rhs) ++ rest)%list) by (by destruct x).
      rewrite E. apply parseTerm_reads; [by constructor|done]. }
    assert (Ha : and_reads (Compare (x :: ch) op rhs) pr) by (by apply unary_and). split; [done|]. split; [done|by apply and_or].
Qed.
End reading.

(** *** A text that starts with a character is not blank *)
Lemma drop_spaces_last l x : IsSpace x.1 = false → ∃ l', drop_spaces (l ++ [x])%list = (l' ++ [x])%list.
Proof.
  intros Hx. induction l as [|[r b] l [l' IH]]; cbn; [destruct x as [r b]; cbn in Hx; rewrite Hx; by exists []|]. destruct (IsSpace r); [by exists l'|]. by exists ((r, b) :: l).
Qed.
Lemma runes_head c s : byte_of c < 128 → runes (String c s) = byte_rune c :: runes s.
Proof. intros Hc%Z.ltb_lt. unfold runes, byte_rune. cbn [runes_from DecodeRune]. by rewrite Hc. Qed.
Lemma TrimSpace_head c s : byte_of c < 128 → space_byte c = false → TrimSpace (String c s) ≠ "".
Proof.
  intros Hc Hs. unfold TrimSpace. rewrite runes_head by done. cbn [drop_spaces byte_rune]. unfold space_byte in Hs. rewrite Hs. cbn [rev].
  destruct (drop_spaces_last (rev (runes s)) (byte_rune c)) as [l' ->]; [done|]. by rewrite rev_app_distr.
Qed.
Definition solid (s : string) : Prop := ∃ c r, s = String c r ∧ byte_of c < 128 ∧ space_byte c = false.
Lemma solid_app a b : solid a → solid (a +:+ b).
Proof. intros (c & r & -> & Hc). by exists c, (r +:+ b). Qed.
Lemma show_solid t : syntax_ok t → ∀ level, solid (show level t).
Proof.
  assert (Hparen : ∀ b s, solid s → solid (parens b s)) by (intros [] s Hs; [by exists "("%char, (s +:+ ")")|done]).
  induction 1 as [l r Hl IHl Hr IHr|l r Hl IHl Hr IHr|x ch op rhs Hch Hop Hrhs]; intros level; cbn [show].
  - apply Hparen, solid_app, IHl.
  - apply Hparen, solid_app, IHl.
  - apply solid_app. assert (Hx : solid (show_piece x)); [|destruct ch; [done|by apply solid_app]]. apply Forall_cons in Hch as [Hx _]. destruct x as [w|q]; [|by exists APOS, (q +:+ "'")].
    cbn in *. unfold plain_word in Hx. apply andb_true_iff in Hx as [[[Hw Hne]%andb_true_iff _]%andb_true_iff _]. destruct w as [|c w]; [done|]. cbn in Hw. apply andb_true_iff in Hw as [Hc _].
    unfold plain_char in Hc. apply andb_true_iff in Hc as [[_ Hb%Z.ltb_lt]%andb_true_iff Hs%negb_true_iff]. by exists c, w.
Qed.

(** C18. A predicate that is written with the parentheses its tree needs is read as that tree,
    whatever the tree: [and] binds tighter than [or], both group to the left, and the
    chains and literals of the terms are those that were written. *)
Theorem predicate_reads_back `{GoArch} `{GoFmt} `{GoZone} `{DocFmt} `{GoRunes} p t pr : syntax_ok t → means p t pr → parsePredicate (show 0 t) p = Ret pr.
Proof.
  intros Ht Hm. destruct (tokens_read p t Ht pr Hm) as (_ & _ & Ho). destruct (Ho [] (pr, [])) as [n Hn]; [done|by exists 1%nat|]. rewrite app_nil_r in Hn.
  assert (Hlex : lexPredicate (show 0 t) = tokens 0 t).
  { unfold lexPredicate. rewrite <- (str_app_nil (show 0 t)), lex_show by (done || by left). cbn. by rewrite app_nil_r. }
  eapply parsePredicate_reads; [|by rewrite Hlex]. destruct (show_solid t Ht 0%nat) as (c & r & -> & Hc & Hs). by apply TrimSpace_head.
Qed.
