(* ===== verification/TemplateText.v ===== *)
(** * The text a template renders

    Wrapping keeps the words of a paragraph in order, one line is filled before the next
    is begun, and a line that is longer than the width is one word. The paragraphs of a
    rendered text are separated by the only blank lines it has, so that they can be told
    apart again. *)
From stdpp Require Import base list strings gmap.
From Stdlib Require Import Ascii ZArith Lia SpecFloat.
From S2P Require Import Prelude GoFloat GoText GoTextLaws GoValue Records Briefing TextTemplate TemplateLaws.
Local Open Scope string_scope.
Local Open Scope Z_scope.

Definition NL : ascii := "010".
Local Abbreviation free := (free_of NL).

(** ** Words *)
Lemma free_high s : str_all (λ c, 128 <=? byte_of c) s = true → free s = true.
Proof.
  unfold free_of. induction s as [|c s IH]; [done|]. cbn [str_all]. intros [Hc%Z.leb_le Hs]%andb_true_iff. rewrite IH by done. destruct (ascii_dec c NL) as [->|]; [|done]. by vm_compute in Hc.
Qed.
(** The bytes of a rune: its own byte, or bytes that are not ASCII. *)
Lemma rune_bytes c r rn w : DecodeRune (String c r) = (rn, w) → (rn = byte_of c ∧ w = 1%nat) ∨ free (str_take w (String c r)) = true.
Proof.
  intros E. destruct (byte_of c <? 128) eqn:Ec; [left; cbn in E; rewrite Ec in E; by injection E as <- <-|right]. apply Z.ltb_ge in Ec as Hc. apply free_high.
  assert (Hcont : ∀ d, cont d = true → (128 <=? byte_of d) = true) by (intros d [? _]%andb_true_iff; done). assert (H0 : (128 <=? byte_of c) = true) by (by apply Z.leb_le).
  assert (Hbetween : ∀ lo d, 128 ≤ lo → between lo 191 (byte_of d) = true → (128 <=? byte_of d) = true) by (intros lo d Hlo [?%Z.leb_le _]%andb_true_iff; apply Z.leb_le; lia).
  cbn [DecodeRune] in E. rewrite Ec in E. repeat (case_match; simplify_eq); cbn [str_take str_all]; rewrite ?H0; cbn [andb]; try done.
  all: repeat match goal with
    | H : _ && _ = true |- _ => apply andb_true_iff in H as [? ?]
    | H : cont ?d = true |- _ => apply Hcont in H; rewrite H; clear H
    | H : between ?lo ?hi (byte_of ?d) = true |- context [byte_of ?d] => assert ((128 <=? byte_of d) = true) as ->
        by (unfold between in H; apply andb_true_iff in H as [H%Z.leb_le _]; apply Z.leb_le; repeat case_match; lia); clear H
    end; try done.
Qed.
Lemma runes_free n s : Forall (λ rb, IsSpace rb.1 = false → free rb.2 = true) (runes_from n s).
Proof.
  revert n. induction s as [|c s IH]; intros [|n]; cbn [runes_from]; [constructor|constructor| |apply IH]. destruct (DecodeRune (String c s)) as [rn w] eqn:E. constructor; [|apply IH]. cbn [fst snd].
  intros Hsp. destruct (rune_bytes c s rn w E) as [[-> ->]|Hf]; [|done]. cbn. unfold free_of. cbn. by destruct (ascii_dec c NL) as [->|].
Qed.
Lemma free_app a b : free (a +:+ b) = free a && free b.
Proof. apply str_all_app. Qed.
Lemma fields_from_words l : Forall (λ rb, IsSpace rb.1 = false → free rb.2 = true) l → ∀ cur, free cur = true → Forall (λ w, w ≠ "" ∧ free w = true) (fields_from cur l).
Proof.
  induction 1 as [|[r b] l Hb Hl IH]; intros cur Hc; cbn [fields_from]; [destruct (String.eqb_spec cur ""); repeat constructor; done|]. cbn [fst snd] in Hb. destruct (IsSpace r).
  - destruct (String.eqb_spec cur "") as [->|Hne]; [by apply IH|]. constructor; [done|by apply IH].
  - apply IH. by rewrite free_app, Hc, Hb.
Qed.
Lemma Fields_words s : Forall (λ w, w ≠ "" ∧ free w = true) (Fields s).
Proof. apply fields_from_words; [apply runes_free|done]. Qed.

(** ** Lines *)
Fixpoint line_width (ws : list string) : Z := match ws with [] => 0 | [w] => rune_count w | w :: ws => rune_count w + 1 + line_width ws end.
Definition NLs : string := String NL "".
(** The lines of a paragraph of width [width]: every line is begun by a word that did not
    fit in the one before, and is filled as long as it fits. *)
Fixpoint filled (width : Z) (lines : list (list string)) : Prop :=
  match lines with
  | [] => True
  | line :: rest => line ≠ [] ∧ (length line = 1%nat ∨ line_width line ≤ width) ∧
      match rest with (w :: _) :: _ => width < line_width line + 1 + rune_count w | _ => True end ∧ filled width rest
  end.
Lemma line_width_snoc ws w : ws ≠ [] → line_width (ws ++ [w])%list = line_width ws + 1 + rune_count w.
Proof. induction ws as [|x ws IH]; [done|]. intros _. destruct ws as [|y ws]; [done|]. change (line_width ((x :: y :: ws) ++ [w])%list) with (rune_count x + 1 + line_width ((y :: ws) ++ [w])%list). rewrite IH by done. cbn. lia. Qed.
Lemma join_snoc sep ws w : ws ≠ [] → join sep (ws ++ [w])%list = join sep ws +:+ sep +:+ w.
Proof.
  induction ws as [|x ws IH]; [done|]. intros _. destruct ws as [|y ws]; [done|]. change (join sep ((x :: y :: ws) ++ [w])%list) with (x +:+ sep +:+ join sep ((y :: ws) ++ [w])%list). rewrite IH by done.
  change (join sep (x :: y :: ws)) with (x +:+ sep +:+ join sep (y :: ws)). by rewrite <- !str_app_assoc.
Qed.
(** The lines that follow a line [cur] that is begun. *)
Lemma wrap_from_lines width ws : ∀ cur, cur ≠ [] → length cur = 1%nat ∨ line_width cur ≤ width →
  ∃ more rest, join " " cur +:+ wrap_from width (line_width cur) ws = join NLs (join " " <$> (cur ++ more) :: rest)%list ∧
    ws = (more ++ concat rest)%list ∧ filled width ((cur ++ more) :: rest)%list.
Proof.
  induction ws as [|w ws IH]; intros cur Hne Hfit; cbn [wrap_from].
  { exists [], []. rewrite app_nil_r, str_app_nil. split; [done|]. by split_and!. }
  destruct (line_width cur + 1 + rune_count w <=? width) eqn:E.
  - apply Z.leb_le in E. destruct (IH (cur ++ [w])%list) as (more & rest & E1 & -> & Hf); [by destruct cur|right; by rewrite line_width_snoc|]. exists (w :: more), rest.
    rewrite line_width_snoc, join_snoc, <- !str_app_assoc in E1 by done. rewrite <- app_assoc in E1, Hf. by split_and!.
  - apply Z.leb_gt in E. destruct (IH [w]) as (more & rest & E1 & -> & Hf); [done|by left|]. exists [], (([w] ++ more) :: rest)%list. rewrite app_nil_r. split_and!; [|done|].
    + change (join NLs (join " " <$> cur :: ([w] ++ more)%list :: rest)) with (join " " cur +:+ NLs +:+ join NLs (join " " <$> ([w] ++ more)%list :: rest)). rewrite <- E1. done.
    + by split_and!.
Qed.
Lemma wrap_lines s width : ∃ lines, wrap s width = join NLs (join " " <$> lines) ∧ concat lines = Fields s ∧ filled width lines ∧ (lines = [] ↔ Fields s = []).
Proof.
  unfold wrap. destruct (Fields s) as [|w ws]; [by exists []|]. destruct (wrap_from_lines width ws [w]) as (more & rest & E & -> & Hf); [done|by left|].
  exists (([w] ++ more) :: rest)%list. by split_and!.
Qed.
Lemma join_free ws : Forall (λ w, w ≠ "" ∧ free w = true) ws → free (join " " ws) = true.
Proof.
  induction 1 as [|w ws [_ Hw] Hws IH]; [done|]. destruct ws as [|x ws]; [done|]. change (join " " (w :: x :: ws)) with (w +:+ " " +:+ join " " (x :: ws)). by rewrite !free_app, Hw, IH.
Qed.
Lemma Forall_concat_elim {A} (P : A → Prop) ls : Forall P (concat ls) → Forall (Forall P) ls.
Proof. induction ls as [|l ls IH]; [done|]. cbn. intros [? ?]%Forall_app. by constructor; [|apply IH]. Qed.
(** The lines can be told apart. *)
Lemma wrap_split s width lines : wrap s width = join NLs (join " " <$> lines) → concat lines = Fields s → lines ≠ [] → Split (wrap s width) NLs = join " " <$> lines.
Proof.
  intros -> Hc Hne. apply (Split_join NL ""); [by destruct lines|]. apply Forall_fmap. pose proof (Fields_words s) as Hw. rewrite <- Hc in Hw. apply Forall_concat_elim in Hw.
  eapply Forall_impl; [exact Hw|]. intros line. apply join_free.
Qed.

(** ** Paragraphs *)

(** A paragraph: no blank line, and no newline at either end. *)
Fixpoint no_blank (s : string) : bool :=
  match s with
  | "" => true
  | String c r => match r with String d _ => negb (Ascii.eqb c NL && Ascii.eqb d NL) && no_blank r | "" => negb (Ascii.eqb c NL) end
  end.
Definition paragraph (s : string) : Prop := no_blank s = true ∧ match s with "" => False | String c _ => c ≠ NL end.
Lemma prefix_blank c s : String.prefix blank_line (String c s) = true → c = NL ∧ ∃ r, s = String NL r.
Proof. intros Hp. apply (HasPrefix_inv _ blank_line) in Hp. injection Hp as -> Hs. split; [done|]. by eexists. Qed.
Lemma not_prefix_blank c s : ¬ (c = NL ∧ ∃ r, s = String NL r) → String.prefix blank_line (String c s) = false.
Proof. intros Hn. destruct (String.prefix _ _) eqn:E; [|done]. by apply prefix_blank in E. Qed.
Lemma split_paragraph s r : no_blank s = true → s ≠ "" → split_from blank_line 0 (s +:+ blank_line +:+ r) = (s, Split r blank_line).
Proof.
  induction s as [|c s IH]; [done|]. intros Hb _. rewrite str_app_cons. cbn [split_from]. destruct s as [|d s].
  - cbn [no_blank] in Hb. apply negb_true_iff, Ascii.eqb_neq in Hb. change ("" +:+ ?x) with x. assert (E : String.prefix blank_line (String c (blank_line +:+ r)) = false).
    { apply not_prefix_blank. by intros [-> _]. }
    rewrite E. assert (Es : split_from blank_line 0 (blank_line +:+ r) = ("", Split r blank_line)) by apply (split_sep NL (String NL "")). by rewrite Es.
  - cbn [no_blank] in Hb. apply andb_true_iff in Hb as [Hcd Hs]. assert (E : String.prefix blank_line (String c (String d s +:+ blank_line +:+ r)) = false).
    { apply not_prefix_blank. intros [-> [x [= -> _]]]. done. }
    rewrite E, IH by done. done.
Qed.
Lemma split_last s : no_blank s = true → split_from blank_line 0 s = (s, []).
Proof.
  induction s as [|c s IH]; [done|]. intros Hb. cbn [split_from]. destruct s as [|d s].
  - assert (E : String.prefix blank_line (String c "") = false) by (apply not_prefix_blank; by intros [_ [x ?]]). by rewrite E.
  - cbn [no_blank] in Hb. apply andb_true_iff in Hb as [Hcd Hs]. assert (E : String.prefix blank_line (String c (String d s)) = false).
    { apply not_prefix_blank. intros [-> [x [= -> _]]]. done. }
    rewrite E, IH by done. done.
Qed.
Lemma split_paragraphs ps : ps ≠ [] → Forall paragraph ps → Split (join blank_line ps) blank_line = ps.
Proof.
  intros Hne Hps. induction Hps as [|s ps [Hb Hs] Hps IH]; [done|]. destruct ps as [|s' ps].
  - cbn [join]. unfold Split. by rewrite split_last.
  - change (join blank_line (s :: s' :: ps)) with (s +:+ blank_line +:+ join blank_line (s' :: ps)). unfold Split at 1. rewrite split_paragraph by (done || by destruct s). by rewrite IH.
Qed.
Lemma no_blank_line l rest : free l = true → l ≠ "" → paragraph rest → no_blank (l +:+ NLs +:+ rest) = true.
Proof.
  intros Hf Hne [Hr Hh]. induction l as [|c l IH]; [done|]. unfold free_of in Hf. cbn [str_all] in Hf. destruct (ascii_dec c NL) as [|Hc]; [done|]. cbn [andb] in Hf.
  rewrite str_app_cons. destruct l as [|d l].
  - change ("" +:+ ?x) with x. change (NLs +:+ rest) with (String NL rest). apply Ascii.eqb_neq in Hc. cbn [no_blank]. rewrite Hc. cbn [negb andb]. destruct rest as [|d rest]; [done|].
    apply Ascii.eqb_neq in Hh. rewrite Hh, andb_false_r. exact Hr.
  - rewrite str_app_cons. apply Ascii.eqb_neq in Hc. change (no_blank (String c (String d ?x))) with (negb (Ascii.eqb c NL && Ascii.eqb d NL) && no_blank (String d x)).
    rewrite Hc. cbn [negb andb]. rewrite <- str_app_cons. by apply IH.
Qed.
Lemma free_no_blank l : free l = true → no_blank l = true.
Proof.
  induction l as [|c l IH]; [done|]. unfold free_of. cbn [str_all]. destruct (ascii_dec c NL) as [|Hc]; [done|]. cbn [andb]. intros Hf. apply Ascii.eqb_neq in Hc.
  destruct l as [|d l]; cbn [no_blank]; rewrite Hc; [done|]. cbn [negb andb]. by apply IH.
Qed.
Lemma free_head l : free l = true → l ≠ "" → match l with "" => False | String c _ => c ≠ NL end.
Proof. destruct l as [|c l]; [done|]. unfold free_of. cbn [str_all]. by destruct (ascii_dec c NL). Qed.
Lemma lines_paragraph ls : ls ≠ [] → Forall (λ l, l ≠ "" ∧ free l = true) ls → paragraph (join NLs ls).
Proof.
  intros Hne Hls. induction Hls as [|l ls [Hl Hf] Hls IH]; [done|]. destruct ls as [|l' ls]; [split; [by apply free_no_blank|by apply free_head]|].
  change (join NLs (l :: l' :: ls)) with (l +:+ NLs +:+ join NLs (l' :: ls)). split; [by apply no_blank_line, IH|]. apply free_head in Hf; [|done]. by destruct l.
Qed.
Lemma join_nonempty ws : ws ≠ [] → Forall (λ w, w ≠ "" ∧ free w = true) ws → join " " ws ≠ "".
Proof. intros Hne Hws. destruct Hws as [|w ws [Hw _] Hws]; [done|]. destruct ws; [done|]. by destruct w. Qed.
Lemma wrap_paragraph s width : Fields s ≠ [] → paragraph (wrap s width).
Proof.
  intros Hne. destruct (wrap_lines s width) as (lines & -> & Hc & Hf & Hl). apply lines_paragraph; [destruct lines; [by destruct Hne; apply Hl|done]|].
  pose proof (Fields_words s) as Hw. rewrite <- Hc in Hw. apply Forall_concat_elim in Hw. apply Forall_fmap. clear Hc Hl Hne. revert Hf. induction Hw as [|line lines Hline Hlines IH]; [constructor|]. cbn [filled].
  intros (Hnil & _ & _ & Hf). constructor; [|by apply IH]. split; [by apply join_nonempty|by apply join_free].
Qed.

(** ** What is rendered *)
Lemma rune_width c s : ∃ w, (DecodeRune (String c s)).2 = S w.
Proof. cbn [DecodeRune]. repeat case_match; cbn; by eexists. Qed.
Lemma runes_nonempty n s : Forall (λ rb, rb.2 ≠ "") (runes_from n s).
Proof.
  revert n. induction s as [|c s IH]; intros [|n]; cbn [runes_from]; [constructor|constructor| |apply IH]. destruct (DecodeRune (String c s)) as [rn w] eqn:E. constructor; [|apply IH].
  destruct (rune_width c s) as [w' Hw]. rewrite E in Hw. cbn in Hw. subst w. done.
Qed.
Lemma fields_from_nil l : Forall (λ rb, rb.2 ≠ "") l → ∀ cur, fields_from cur l = [] → cur = "" ∧ drop_spaces l = [].
Proof.
  induction 1 as [|[r b] l Hb Hl IH]; intros cur; cbn [fields_from drop_spaces]; [destruct (String.eqb_spec cur ""); done|]. cbn [snd] in Hb. destruct (IsSpace r).
  - destruct (String.eqb_spec cur "") as [->|]; [|done]. intros [_ ?]%IH. done.
  - intros [Hcur _]%IH. exfalso. destruct cur; [by apply Hb|done].
Qed.
Lemma Fields_blank s : Fields s = [] → TrimSpace s = "".
Proof. intros Hf. apply fields_from_nil in Hf as [_ Hd]; [|apply runes_nonempty]. unfold TrimSpace, runes in *. by rewrite Hd. Qed.

Section rendered.
Context `{GoArch} `{GoFmt} `{GoZone} `{DocFmt} `{GoRunes}.
Lemma one_paragraph_solid spans ctx r out : one_paragraph spans ctx r = Ret out → Forall (λ s, Fields s ≠ []) out.1.
Proof.
  intros (x & _ & [= <-])%res_bind_Ret. cbn. destruct (String.eqb_spec (TrimSpace x.1) ""); constructor; [|done]. by intros ?%Fields_blank.
Qed.
Lemma render_element_solid e : ∀ ctx r out, render_element e ctx r = Ret out → Forall (λ s, Fields s ≠ []) out.1.
Proof.
  induction e as [w g text kids empty Hk] using element_induction; intros ctx r out; cbn [render_element]. intros (shown & _ & E)%res_bind_Ret. destruct shown; cbn [negb] in E; [|by injection E as <-].
  destruct g; cbn [negb] in E; [|by eapply one_paragraph_solid]. apply res_bind_Ret in E as (o & Eo & E). assert (Ho : Forall (λ s, Fields s ≠ []) o.1).
  { clear E. revert r o Eo. induction Hk as [|k kids Hk _ IH]; intros r o; cbn [render_kids]; [by intros [= <-]|]. intros (a & Ea & (b & Eb & [= <-])%res_bind_Ret)%res_bind_Ret.
    apply Forall_app. split; [by eapply Hk|by eapply IH]. }
  destruct o as [[|x o] r']; cbn [fst snd] in E; [destruct empty; [by injection E as <-|by eapply one_paragraph_solid]|by injection E as <-].
Qed.

(** C19. A rendered text is its paragraphs, which the blank lines of the text separate. The
    lines of a paragraph hold the words of what its element wrote, in order; a line that is
    longer than the width of the template is one word, and a word begins a line when it
    does not fit in the line before. *)
Theorem rendered_text t doc text vs : Render t doc = Ret (text, vs) →
  ∃ ps r, render_element (root t) doc (mkRender [] (-1)) = Ret (ps, r) ∧ vs = violations r ∧
    (ps = [] → text = "") ∧ (ps ≠ [] → Split text blank_line = (λ s, wrap s (tm_width t)) <$> ps) ∧
    ∀ s, s ∈ ps → ∃ lines, Split (wrap s (tm_width t)) NLs = join " " <$> lines ∧ concat lines = Fields s ∧ lines ≠ [] ∧ filled (tm_width t) lines.
Proof.
  intros ([ps r] & E & [= <- <-])%res_bind_Ret. exists ps, r. split; [done|]. split; [done|]. pose proof (render_element_solid _ _ _ _ E) as Hs. cbn [fst] in *.
  split; [by intros ->|]. split.
  - intros Hne. apply split_paragraphs; [by destruct ps|]. apply Forall_fmap. eapply Forall_impl; [exact Hs|]. intros s. apply wrap_paragraph.
  - intros s Hin. rewrite Forall_forall in Hs. apply Hs in Hin. destruct (wrap_lines s (tm_width t)) as (lines & Ew & Hc & Hf & Hl). exists lines.
    assert (Hne : lines ≠ []) by (by intros ?%Hl). split_and!; [|done|done|done]. by apply wrap_split.
Qed.
End rendered.
