(* ===== verification/TemplateKinds.v ===== *)
(** * The kinds of a chain

    A chain is compiled with a judgement: what kind of values it yields and whether it can
    yield more than one. The judgement needs no document, and it holds of every document.
    The dates a chain writes are read back. *)
From stdpp Require Import base list strings gmap pretty.
From Stdlib Require Import Ascii ZArith Lia SpecFloat.
From S2P Require Import Prelude GoFloat GoText GoTextLaws GoValue Records Briefing TextTemplate TemplateLaws.
Local Open Scope string_scope.
Local Open Scope Z_scope.

(** ** Selectors without [[]] address one value *)
Lemma Contains_app a sub b : Contains (a +:+ sub +:+ b) sub = true.
Proof.
  unfold Contains. assert (Hi : ∃ n, String.index 0 sub (a +:+ sub +:+ b) = Some n); [|by destruct Hi as [n ->]].
  induction a as [|c a [n IH]].
  - change ("" +:+ ?x) with x. exists 0%nat. pose proof (HasPrefix_app sub b) as Hp. unfold HasPrefix in Hp. destruct (sub +:+ b) as [|d s] eqn:E; cbn; [by destruct sub|]. cbn in Hp. by rewrite Hp.
  - rewrite str_app_cons. cbn [String.index]. destruct (String.prefix sub _); [by exists 0%nat|]. rewrite IH. by exists (S n).
Qed.
Lemma split_parts q s : let '(w, l) := split_from (String q "") 0 s in (∃ b, s = w +:+ b) ∧ ∀ x, x ∈ l → ∃ a b, s = a +:+ x +:+ b.
Proof.
  induction s as [|c s IH]; [cbn; split; [by exists ""|]; intros x Hx; by apply not_elem_of_nil in Hx|]. cbn [split_from String.length Nat.sub]. destruct (split_from (String q "") 0 s) as [w l]. destruct IH as [[b Hw] Hl].
  destruct (String.prefix _ _).
  - split; [by exists (String c s)|]. intros x [->|Hx]%elem_of_cons; [exists (String c ""), b; by rewrite Hw|]. destruct (Hl x Hx) as (a & b' & ->). by exists (String c a), b'.
  - split; [exists b; by rewrite Hw|]. intros x Hx. destruct (Hl x Hx) as (a & b' & ->). by exists (String c a), b'.
Qed.
Lemma Split_part q s x : x ∈ Split s (String q "") → ∃ a b, s = a +:+ x +:+ b.
Proof.
  unfold Split. pose proof (split_parts q s) as Hp. destruct (split_from _ 0 s) as [w l]. destruct Hp as [[b Hw] Hl]. intros [->|Hx]%elem_of_cons; [by exists "", b|by apply Hl].
Qed.
Lemma HasSuffix_inv s p : HasSuffix s p = true → ∃ a, s = a +:+ p.
Proof.
  unfold HasSuffix. intros [Hl%Nat.leb_le E%String.eqb_eq]%andb_true_iff. exists (str_take (String.length s - String.length p) s). rewrite <- E at 2. clear. generalize (String.length s - String.length p)%nat. intros n.
  revert n. induction s as [|c s IH]; intros [|n]; try done. cbn [str_take str_drop]. by rewrite str_app_cons, <- IH.
Qed.
Lemma no_each s sel : ParseSelector s = Ret sel → Contains s "[]" = false → Forall (λ sg, each sg = false) (segments sel).
Proof.
  unfold ParseSelector. case_match; [done|]. intros (segs & E & [= <-])%res_bind_Ret Hc. cbn [segments]. assert (Hparts : ∀ x, x ∈ Split s "." → HasSuffix x "[]" = false).
  { intros x (a & b & ->)%Split_part. destruct (HasSuffix x "[]") eqn:Es; [|done]. apply HasSuffix_inv in Es as [x' ->]. rewrite <- str_app_assoc, (str_app_assoc a), Contains_app in Hc. done. }
  revert segs E Hparts. induction (Split s ".") as [|x l IH]; intros segs E Hparts; cbn [parse_segments] in E; [by injection E as <-|].
  apply res_bind_Ret in E as (sg & Es & (segs' & E' & [= <-])%res_bind_Ret). constructor; [|apply (IH segs'); [done|]; intros y Hy; apply Hparts, elem_of_cons; by right].
  unfold parse_segment in Es. rewrite (Hparts x) in Es by (apply elem_of_cons; by left). repeat (case_match; simplify_eq). done.
Qed.
Lemma resolve_one segs : Forall (λ sg, each sg = false) segs → ∀ node ptr, (length (resolveFrom segs node ptr) ≤ 1)%nat.
Proof.
  induction 1 as [|sg segs Hs Hsegs IH]; intros node ptr; [done|]. cbn [resolveFrom]. destruct node as [| | | |m|]; cbn; try lia. destruct (m !! sg_name sg) as [child|]; cbn; [|lia]. rewrite Hs. cbn [negb].
  destruct (value_nil child); cbn; [lia|apply IH].
Qed.

(** ** The judgement *)
Section kinds.
Context `{GoArch} `{GoFmt} `{GoZone} `{DocFmt} `{GoRunes}.
Definition of_kind (k : valueKind) (v : value) : Prop :=
  match k with
  | kindText => ∃ s, v = text_value s
  | kindNumber => ∃ z, v = Scalar (VInt z)
  | kindDate => ∃ d, AsDate v = Some d
  | kindNode => ∃ m, v = Node m
  | kindUnknown | kindAny => True
  end.
Definition judged (ch : chain) : Prop := ∀ ctx vals, chain_eval ch ctx = Ret vals → Forall (of_kind (ch_kind ch)) vals.
Definition counted (ch : chain) : Prop := ch_card ch = cardOne → ∀ ctx vals, chain_eval ch ctx = Ret vals → (length vals ≤ 1)%nat.
Lemma eval_links_snoc ls l : ∀ cur, eval_links (ls ++ [l])%list cur = (let! c := eval_links ls cur in eval_link l c).
Proof. induction ls as [|x ls IH]; intros cur; cbn [app eval_links]; [cbn [res_bind]; by destruct (eval_link l cur)|]. destruct (eval_link x cur); cbn; [apply IH|done..]. Qed.
Lemma latestBy_node nodes sel n : latestBy nodes sel = Some n → n ∈ nodes.
Proof.
  unfold latestBy. assert (Hf : ∀ best, (∀ b, best = Some b → b.1 ∈ nodes) → ∀ l, (∀ x, x ∈ l → x ∈ nodes) → ∀ b, foldl (λ best n, match node_date sel n with None => best | Some t => later_node best n t end) best l = Some b → b.1 ∈ nodes).
  { intros best Hb l. revert best Hb. induction l as [|x l IH]; intros best Hb Hl b; cbn [foldl]; [by apply Hb|]. apply IH; [|intros y Hy; apply Hl, elem_of_cons; by right].
    intros b' E. destruct (node_date sel x); [|by apply Hb]. unfold later_node in E. assert (Hx : x ∈ nodes) by (apply Hl, elem_of_cons; by left). repeat (case_match; simplify_eq); [done|by apply Hb|done]. }
  intros (b & E & ->)%fmap_Some. eapply Hf; [|done|exact E]. done.
Qed.
Lemma map_one_length f cur vals : map_one f cur = Ret vals → (length vals ≤ length cur)%nat.
Proof.
  revert vals. induction cur as [|v cur IH]; intros vals; cbn [map_one]; [by intros [= <-]|]. intros (x & _ & (l & El%IH & [= <-])%res_bind_Ret)%res_bind_Ret. destruct x; cbn; lia.
Qed.
Lemma of_option_length x : (length (of_option x) ≤ 1)%nat.
Proof. destruct x; cbn; lia. Qed.
Lemma AsDate_value d : AsDate (date_value d) = Some d.
Proof. by destruct d as [t [off|]]. Qed.
Lemma construct_kind c args cur vals : c ∈ constructs → eval_link (ConstructLink c args) cur = Ret vals → Forall (of_kind (gives c)) vals.
Proof.
  intros Hc. unfold constructs in Hc.
  repeat (apply elem_of_cons in Hc as [->|Hc]); [..|by apply not_elem_of_nil in Hc]; cbn [eval_link c_shape one fold gives of_kind].
  1,2,3,4,5: destruct cur as [|v cur]; [by intros [= <-]|]; intros (x & E & [= <-])%res_bind_Ret.
  - destruct (AsInt v) as [n|]; [apply res_bind_Ret in E as (w & _ & [= <-])|injection E as <-]; repeat constructor; by eexists.
  - apply res_bind_Ret in E as (w & _ & [= <-]). repeat constructor; by eexists.
  - apply res_bind_Ret in E as (w & _ & [= <-]). repeat constructor; by eexists.
  - injection E as <-. repeat constructor; by eexists.
  - injection E as <-. repeat constructor; by eexists.
  - intros (x & (a & _ & [= <-])%res_bind_Ret & [= <-])%res_bind_Ret. destruct (latestBy _ _) as [n|] eqn:E; [|constructor]. apply latestBy_node, list_elem_of_omap in E as (v & _ & Hv).
    constructor; [|done]. destruct v; try done. injection Hv as <-. by eexists.
  - revert vals. induction cur as [|v cur IH]; intros vals; cbn [map_one res_bind]; [by intros [= <-]|]. intros (l & El & [= <-])%res_bind_Ret. constructor; [by eexists|by apply IH].
  - intros (x & (a & _ & (b & _ & [= <-])%res_bind_Ret)%res_bind_Ret & [= <-])%res_bind_Ret. repeat constructor; by eexists.
  - intros [= <-]. repeat constructor; by eexists.
  - intros [= <-]. destruct (maxDate cur) as [d|]; repeat constructor. cbn. exists d. apply AsDate_value.
Qed.
Lemma construct_count c args cur vals : c ∈ constructs → c_shape c ≠ shapeMap → eval_link (ConstructLink c args) cur = Ret vals → (length vals ≤ 1)%nat.
Proof.
  intros _ Hs. cbn [eval_link]. destruct (c_shape c) eqn:E; [|done|]; [destruct cur as [|v cur]; [intros [= <-]; cbn; lia|]|]; intros (x & _ & [= <-])%res_bind_Ret; apply of_option_length.
Qed.
Lemma appendPath_judged ch link p ch' : counted ch → appendPath ch link p = Ret ch' → judged ch' ∧ counted ch'.
Proof.
  intros Hcount. unfold appendPath. do 2 (case_match; [done|]). destruct (ParseSelector link) as [sel| | |] eqn:Esel; try done. intros [= <-]. split; [intros ctx vals _; by apply Forall_true|].
  intros Hcard ctx vals. unfold chain_eval. cbn [links ch_card] in *. rewrite eval_links_snoc. intros (cur & Ecur & [= <-])%res_bind_Ret.
  destruct (bool_decide (ch_card ch = cardMany)) eqn:Em; [done|]. destruct (Contains link "[]") eqn:Ec; [done|]. cbn [orb] in Hcard. specialize (Hcount Hcard ctx cur Ecur). pose proof (no_each _ _ Esel Ec) as Hne.
  unfold path_values. destruct cur as [|v [|]]; cbn in *; [lia| |lia]. rewrite app_nil_r. etrans; [apply filter_length_le|]. rewrite length_fmap. unfold Resolve. case_match; [cbn; lia|]. by apply resolve_one.
Qed.
Lemma appendConstruct_judged ch c args p ch' : c ∈ constructs → counted ch → appendConstruct ch c args p = Ret ch' → judged ch' ∧ counted ch'.
Proof.
  intros Hc Hcount. unfold appendConstruct. do 2 (case_match; [done|]). intros [= <-]. split.
  - intros ctx vals. unfold chain_eval. cbn [links ch_kind]. rewrite eval_links_snoc. intros (cur & _ & E)%res_bind_Ret. by eapply construct_kind.
  - intros Hcard ctx vals. unfold chain_eval. cbn [links ch_card] in *. rewrite eval_links_snoc. intros (cur & Ecur & E)%res_bind_Ret. destruct (bool_decide (c_shape c = shapeMap)) eqn:Es.
    + apply bool_decide_eq_true in Es. cbn [eval_link] in E. rewrite Es in E. apply map_one_length in E. specialize (Hcount Hcard ctx cur Ecur). lia.
    + apply bool_decide_eq_false in Es. by eapply construct_count.
Qed.
Lemma parse_links_judged p parts : ∀ ch b ch', judged ch → counted ch → parse_links p ch b parts = Ret ch' → judged ch' ∧ counted ch'.
Proof.
  induction parts as [|w parts IH]; intros ch b ch' Hj Hc; cbn [parse_links]; [by intros [= <-]|]. case_match; [done|]. destruct (construct_named _) as [c|] eqn:Ec.
  - intros (args & _ & (ch1 & E1 & E2)%res_bind_Ret)%res_bind_Ret. apply appendConstruct_judged in E1 as [? ?]; [by eapply IH|by eapply construct_named_in|done].
  - case_match; [done|]. intros (ch1 & E1 & E2)%res_bind_Ret. apply appendPath_judged in E1 as [? ?]; [by eapply IH|done].
Qed.
End kinds.

(** C32. The judgement a chain is compiled with holds of what it yields in every document: the
    values have the kind of the chain, and there is at most one when the chain is said to
    yield one. *)
Theorem chain_judgement_holds `{GoArch} `{GoFmt} `{GoZone} `{DocFmt} `{GoRunes} s p ch ctx vals : parseChain s p = Ret ch → chain_eval ch ctx = Ret vals →
  Forall (of_kind (ch_kind ch)) vals ∧ (ch_card ch = cardOne → (length vals ≤ 1)%nat).
Proof.
  intros Ep Ev. assert (Hj : judged ch ∧ counted ch); [|split; [by eapply Hj|intros Hc; by eapply Hj]]. unfold parseChain, splitOutsideQuotes in Ep. destruct (split_outside _ _ _) as [w parts].
  do 2 (case_match; [done|]). apply res_bind_Ret in Ep as (ch1 & E1 & E2). apply appendPath_judged in E1 as [Hj Hc]; [by eapply parse_links_judged|].
  intros _ c vs [= <-]. cbn. lia.
Qed.

(** ** Dates read back *)
Lemma pretty_length k : ∀ x s, (x < 10 ^ N.of_nat k)%N → (String.length (pretty_N_go x s) ≤ k + String.length s)%nat.
Proof.
  induction k as [|k IH]; intros x s Hx; (assert (x = 0 ∨ 0 < x)%N as [->|Hpos] by lia; [rewrite pretty_N_go_0; lia|]); [cbn in Hx; lia|].
  rewrite pretty_N_go_step by done. etrans; [apply IH|cbn; lia]. rewrite Nat2N.inj_succ, N.pow_succ_r' in Hx. by apply N.Div0.div_lt_upper_bound.
Qed.
(** A number that fits is written with [k] digits, which read as it. *)
Lemma append_int_digits k z : (0 < k)%nat → 0 ≤ z < 10 ^ Z.of_nat k →
  String.length (append_int k z) = k ∧ str_all is_digit (append_int k z) = true ∧ digits_val 0 (append_int k z) = Some z.
Proof.
  intros Hk Hz. unfold append_int. rewrite (proj2 (Z.ltb_ge z 0)) by lia. unfold pad0. rewrite digits_zeros, digits_val_zeros.
  assert (Hn : Itoa z = pretty (Z.to_N z)) by (destruct z; [done|done|lia]). rewrite Hn. destruct (parse_digits_pretty (Z.to_N z)) as (Hv & Hd & Hne).
  assert (Hl : (String.length (pretty (Z.to_N z)) ≤ k)%nat).
  { unfold pretty, pretty_N. case_decide; [cbn; lia|]. etrans; [apply (pretty_length k)|cbn; lia]. apply N2Z.inj_lt. rewrite N2Z.inj_pow, Z2N.id, nat_N_Z by lia. cbn. lia. }
  split_and!; [|done|unfold parse_digits in Hv; destruct (pretty (Z.to_N z)); [done|]; rewrite Hv; f_equal; lia]. rewrite str_length_app.
  assert (Hz' : ∀ m, String.length (zeros m) = m) by (induction m as [|m IH]; cbn; [done|by rewrite IH]). rewrite Hz'. lia.
Qed.
Lemma getnum_two fixed n s : 0 ≤ n ≤ 99 → getnum fixed (append_int 2 n +:+ s) = Some (n, s).
Proof.
  intros Hn. destruct (append_int_digits 2 n) as (Hl & Hd & Hv); [lia|lia|]. destruct (append_int 2 n) as [|a [|b [|]]]; try done. cbn [str_all] in Hd. apply andb_true_iff in Hd as [Ha [Hb _]%andb_true_iff].
  change (String a (String b "") +:+ s) with (String a (String b s)). unfold getnum. cbn [digits_val] in Hv. rewrite Ha, Hb in Hv |- *. injection Hv as <-. done.
Qed.
Lemma year_chunk y s mo d h mi se ns z : 0 ≤ y ≤ 9999 → parse_chunk stdLongYear (mkParsed 0 mo d h mi se ns z) (append_int 4 y +:+ s) = Some (mkParsed y mo d h mi se ns z, s).
Proof.
  intros Hy. destruct (append_int_digits 4 y) as (Hl & Hd & Hv); [lia|lia|]. destruct (append_int 4 y) as [|a [|b [|c [|e [|]]]]]; try done.
  cbn [parse_chunk]. assert (Et : str_take 4 (String a (String b (String c (String e ""))) +:+ s) = String a (String b (String c (String e "")))) by done.
  rewrite Et, Hd, Hv. done.
Qed.
Lemma time_Parse_format y m d : 0 ≤ y ≤ 9999 → 1 ≤ m ≤ 12 → 1 ≤ d ≤ daysIn m y → time_Parse dateOnly (format_dateOnly (y, m, d)) = Some (mkDate (time_Date y m d 0 0 0 0) None).
Proof.
  intros Hy Hm Hd. assert (Hd99 : 0 ≤ d ≤ 99) by (unfold daysIn in Hd; repeat case_match; lia). unfold time_Parse, format_dateOnly, dateOnly. cbn [fst snd parse_chunks]. rewrite year_chunk by done.
  assert (Hlit : ∀ st s, parse_chunk (stdLit "-") st ("-" +:+ s) = Some (st, s)) by (by intros [] []). rewrite Hlit.
  assert (Hmo : ∀ s, parse_chunk stdZeroMonth (mkParsed y 1 1 0 0 0 0 None) (append_int 2 m +:+ s) = Some (mkParsed y m 1 0 0 0 0 None, s)).
  { intros s. cbn [parse_chunk]. rewrite getnum_two by lia. unfold num_in_range. by rewrite (proj2 (Z.ltb_ge m 1)), (proj2 (Z.ltb_ge 12 m)) by lia. }
  rewrite Hmo, Hlit. cbn [parse_chunk]. rewrite <- (str_app_nil (append_int 2 d)), getnum_two by lia. by rewrite (proj2 (Z.ltb_ge d 1)), (proj2 (Z.ltb_ge (daysIn m y) d)) by lia.
Qed.
Lemma digit_plain s : str_all is_digit s = true → str_all plain_char s = true.
Proof.
  induction s as [|c s IH]; [done|]. cbn [str_all]. intros [Hc Hs]%andb_true_iff. rewrite IH by done. by destruct c as [[] [] [] [] [] [] [] []].
Qed.
(** A day that is written as text is read as the midnight it names. *)
Lemma dates_read_back y m d : 0 ≤ y ≤ 9999 → 1 ≤ m ≤ 12 → 1 ≤ d ≤ daysIn m y →
  AsDate (text_value (format_dateOnly (y, m, d))) = Some (mkDate (time_Date y m d 0 0 0 0) None).
Proof.
  intros Hy Hm Hd. assert (Hd99 : 0 ≤ d ≤ 99) by (unfold daysIn in Hd; repeat case_match; lia). unfold AsDate, text_value.
  destruct (append_int_digits 4 y) as (_ & Py & _); [lia|lia|]. destruct (append_int_digits 2 m) as (_ & Pm & _); [lia|lia|]. destruct (append_int_digits 2 d) as (_ & Pd & _); [lia|lia|].
  assert (Hp : str_all plain_char (format_dateOnly (y, m, d)) = true).
  { unfold format_dateOnly. cbn [fst snd]. rewrite !str_all_app. rewrite (digit_plain _ Py), (digit_plain _ Pm), (digit_plain _ Pd). by vm_compute. }
  rewrite plain_trim by done. destruct (String.eqb_spec (format_dateOnly (y, m, d)) "") as [E|_].
  - pose proof (time_Parse_format y m d Hy Hm Hd) as Ht. by rewrite E in Ht.
  - unfold dateLayouts. cbn [List.fold_right]. by rewrite time_Parse_format.
Qed.
