(* ===== verification/TemplateDemo.v ===== *)
(** * A template and a document

    The theorems on text templates applied to a small template: a sentence with a count, a
    list of places, and a paragraph that is shown under a condition. *)
From stdpp Require Import base list strings gmap.
From Stdlib Require Import Ascii ZArith Lia SpecFloat.
From S2P Require Import Prelude GoFloat GoText GoTextLaws GoValue Records Briefing TextTemplate TemplateLaws TemplateText TemplateKinds.
Local Open Scope string_scope.
Local Open Scope Z_scope.

#[local] Instance demo_fmt : GoFmt := {| sprint_other _ := ""; sprintf _ _ := ""; time_Format _ _ := ""; FormatFloat _ := ""; FormatFloat32 _ := "" |}.
#[local] Instance demo_zone : GoZone := {| local_offset _ := 0 |}.
#[local] Instance demo_doc : DocFmt := {| sprint_doc _ := "" |}.
#[local] Instance demo_runes : GoRunes := {| rune_upper r := if between 97 122 r then r - 32 else r |}.

Definition event (day place : string) : value := Node (list_to_map [("Date", text_value day); ("Place", text_value place)]).
Definition record : value :=
  Node (list_to_map [("Name", text_value "jane"); ("Count", Scalar (VInt 112)); ("Events", Items [event "2025-8-14" "(F1) Home"; event "2025-11-02" "Office"])]).
Definition demo_spec : Spec := mkSpec "visits" 30
  [ Some (mkElement "" "{{Name|sentence}} had {{Count|words}} {{Count|plural: 'event'}}, at {{Events[].Place|strip_code|join: ', ', ' and '}}." None "");
    Some (mkElement "Count > 5 and (Name == 'x' or Count <= 200)" "{{with Events[]|latest_by: Date}}{{Place}} on {{Date|d_MMMM_yyyy}}{{end}} {{Missing require 'nothing there'}}" None "") ] "".
Definition demo_template : Template := match Compile (Some demo_spec) with Ret t => t | _ => mkTemplate "" 0 (mkCompiled None true [] [] []) end.
Definition demo_text : string :=
  join blank_line [join NLs ["Jane had one hundred and"; "twelve events, at Home and"; "Office."]; "Office on 2 November 2025"].
Definition demo_violation : Violation := mkViolation "nothing there" "Missing" "elements[1].text at offset 74" (-1).

Lemma demo_compiles : Compile (Some demo_spec) = Ret demo_template.
Proof.
  assert (Hr : is_ret (Compile (Some demo_spec)) = true) by (vm_compute; reflexivity). unfold demo_template. by destruct (Compile (Some demo_spec)).
Defined.
Lemma demo_renders : Render demo_template record = Ret (demo_text, [demo_violation]).
Proof. vm_compute. reflexivity. Defined.

Lemma render_returns_witness : Compile (Some demo_spec) = Ret demo_template ∧
  ((∃ text violations, Render demo_template record = Ret (text, violations)) ∨
   (meets_broken_text (element_chains (root demo_template)) record ∧ ∃ e, Render demo_template record = Panic e)).
Proof. split; [exact demo_compiles|]. exact (render_returns (Some demo_spec) demo_template record demo_compiles). Defined.

(** The panic is real: a record with a broken rune for a name. *)
Lemma broken_rune_panics : ∃ e, Render demo_template (Node (list_to_map [("Name", text_value (String "255" ""))])) = Panic e.
Proof. eexists. vm_compute. reflexivity. Qed.

Lemma rendered_text_witness : ∃ ps r, render_element (root demo_template) record (mkRender [] (-1)) = Ret (ps, r) ∧ Split demo_text blank_line = (λ s, wrap s 30) <$> ps ∧ violations r = [demo_violation].
Proof.
  destruct (rendered_text demo_template record demo_text [demo_violation] demo_renders) as (ps & r & E & Ev & He & Hs & _). exists ps, r. split; [exact E|]. split; [|by rewrite Ev].
  apply Hs. intros ->. specialize (He eq_refl). discriminate He.
Defined.

Definition demo_syntax : syntax := Both (Compare [Word "Count"] ">" (Word "5")) (Either (Compare [Word "Name"] "==" (Quoted "x")) (Compare [Word "Count"] "<=" (Word "200"))).
Definition demo_pos : position := mkPosition "elements[1]" (-1).
Definition demo_predicate : predicate := match parsePredicate "Count > 5 and (Name == 'x' or Count <= 200)" demo_pos with Ret pr => pr | _ => predTerm (mkChain "" [] kindNode cardOne) "" "" f64_0 end.
Lemma demo_syntax_ok : syntax_ok demo_syntax.
Proof. repeat constructor; by vm_compute. Qed.
Lemma demo_means : means demo_pos demo_syntax demo_predicate.
Proof.
  unfold demo_syntax. cbn [means]. do 2 eexists. split; [vm_compute; reflexivity|]. split.
  - eexists. split; [vm_compute; reflexivity|]. split; [done|]. split; [done|]. eexists. split; [vm_compute; reflexivity|]. reflexivity.
  - do 2 eexists. split; [reflexivity|]. split; (eexists; split; [vm_compute; reflexivity|]).
    + split; [by left|reflexivity].
    + split; [done|]. split; [done|]. eexists. split; [vm_compute; reflexivity|]. reflexivity.
Qed.
Lemma predicate_reads_back_witness : show 0 demo_syntax = "Count > 5 and (Name == 'x' or Count <= 200)" ∧ parsePredicate (show 0 demo_syntax) demo_pos = Ret demo_predicate.
Proof. split; [reflexivity|]. exact (predicate_reads_back demo_pos demo_syntax demo_predicate demo_syntax_ok demo_means). Defined.

Definition demo_chain : chain := match parseChain "Events[]|latest_by: Date|Place" demo_pos with Ret ch => ch | _ => mkChain "" [] kindNode cardOne end.
Lemma chain_judgement_witness : chain_eval demo_chain record = Ret [text_value "Office"] ∧ ch_card demo_chain = cardOne ∧ (length [text_value "Office"] ≤ 1)%nat.
Proof.
  assert (Hr : is_ret (parseChain "Events[]|latest_by: Date|Place" demo_pos) = true) by (vm_compute; reflexivity).
  assert (Ep : parseChain "Events[]|latest_by: Date|Place" demo_pos = Ret demo_chain) by (unfold demo_chain; by destruct (parseChain _ demo_pos)).
  assert (Ev : chain_eval demo_chain record = Ret [text_value "Office"]) by (vm_compute; reflexivity).
  destruct (chain_judgement_holds _ _ _ record _ Ep Ev) as [_ Hc]. split; [exact Ev|]. assert (Ec : ch_card demo_chain = cardOne) by (vm_compute; reflexivity). split; [exact Ec|exact (Hc Ec)].
Defined.
