(* ===== verification/RuleSession.v ===== *)
(** * The rule sets of a process over one session (src/jets/compute_pipes)

    The rule engine is C++ code reached through the interfaces of jetrules_interface.go:
    here it is the class [RuleEngine], over a type of nodes and a type of sessions. The
    rest is Go: the loop that runs the rule sets of a process ([RunRuleSets] of
    jetrules_pool_worker.go), which the pipelines and the rules unit tests share, with the
    rule files of a process (src/jets/jetrules/rete/workspace_control.go) and the reading
    of a node's value. The times of the phases, which only the benchmarks ask for, are
    left out. *)
From stdpp Require Import base list strings gmap.
From Stdlib Require Import ZArith Lia Ascii.
From S2P Require Import Prelude GoFloat GoText GoValue.
Local Open Scope string_scope.
Local Open Scope Z_scope.

#[local] Set Warnings "-register-all".

(** ** The engine *)

(** What [Value()] of a node gives: a Go scalar, or one of the types of package rdf. *)
Inductive node_value :=
| NVal (v : any)
| NResource (name : string)
| NDate (t : Time)
| NDatetime (t : Time)
| NNull
| NBlank (key : Z).

(** The nodes and the sessions of an engine. Two nodes are equal here when they are one
    node of the engine ([Equals]). A session that is read stays as it is, and so does a
    call that makes a node. An iterator is the list of what it goes through, [None] when
    the engine refuses the arguments of the [Find]. A rete session is the name of its rule
    set; an error is its text. *)
Class RuleEngine (node session : Type) := {
  Value : node → option node_value;
  NodeType : node → string;
  NodeString : node → string;
  (** [NodeKey] of a node that has one. *)
  NodeKey : node → option Z;
  NewResource : string → node;
  NewTextLiteral : string → node;
  NewIntLiteral : Z → node;
  NewUIntLiteral : Z → node;
  NewDoubleLiteral : float64 → node;
  NewDateDetails : Z → Z → Z → node;
  NewDatetimeDetails : Z → Z → Z → Z → Z → Z → node;
  Insert : session → node → node → node → session * option string;
  (** [Erase(s, p, nil)]. *)
  EraseSP : session → node → node → session;
  SContains : session → node → node → node → bool;
  ContainsSP : session → node → node → bool;
  GetObject : session → node → node → option node;
  (** The triples of [Find], the objects of [FindSP], the predicates and objects of
      [FindS], the subjects of [FindSPO(nil, p, o)]. *)
  Find : session → list (node * node * node);
  FindSP : session → node → node → option (list node);
  FindS : session → node → option (list (node * node));
  FindPO : session → node → node → option (list node);
  NewReteSession : session → string → session * option string;
  ExecuteRules : session → string → session * option string;
  EncodeRdfSession : session → string }.

(** ** The files of the workspace *)
Record WorkspaceControl := mkWorkspaceControl { wc_RuleSets : list string; wc_RuleSequences : list (string * list string) }.

(** What the loaded files of the workspace say: the control file, and the properties of a
    rule file's configuration ([EmptyString] for one that is not there). *)
Class Workspace := {
  GetWorkspaceControl : res (option WorkspaceControl);
  GetRuleEngineConfig : string → string → res string }.

Definition RuleFileNames (wc : option WorkspaceControl) (ruleFileName : string) : list string :=
  match wc with
  | None => []
  | Some wc =>
      match List.find (λ q, String.eqb q.1 ruleFileName) (wc_RuleSequences wc) with
      | Some q => q.2
      | None => if existsb (String.eqb ruleFileName) (wc_RuleSets wc) then [ruleFileName] else []
      end
  end.

(** ** Outcomes *)
Record RuleSetOutcome := mkRuleSetOutcome {
  rs_RuleSet : string; rs_MaxLooping : Z; rs_Loops : Z; rs_Completed : bool; rs_MaxLoopReached : bool;
  rs_ExecuteErr : option string; rs_Exceptions : list string }.
Record RuleSetsOutcome := mkRuleSetsOutcome {
  ro_RuleSets : list RuleSetOutcome; ro_Completed : bool; ro_Loops : Z; ro_MaxLoopReached : bool;
  ro_ExecuteErr : option string; ro_Exceptions : list string; ro_Err : option string }.
Definition is_some {A} (o : option A) : bool := match o with Some _ => true | None => false end.
Definition Failed (o : RuleSetsOutcome) : bool :=
  is_some (ro_ExecuteErr o) || ro_MaxLoopReached o || negb (Nat.eqb (length (ro_Exceptions o)) 0).

Section rule_sets.
Context {node session : Type} `{RuleEngine node session} `{Workspace}.

Definition GetRdfNodeValue (r : node) : any :=
  match Value r with
  | Some (NVal v) =>
      match v with
      | VInt _ | VUint _ | VF64 _ | VStr _ => v
      | VInt64 z | VInt32 z => VInt z
      | VUint64 z | VUint32 z => VUint z
      | _ => VNil
      end
  | Some (NDate t) | Some (NDatetime t) => VTime t
  | Some (NResource name) => VStr name
  | Some (NBlank key) => VStr ("BN" +:+ Itoa key)
  | Some NNull | None => VNil
  end.

(** The resources of [JetResources] the code reads. *)
Definition Jets__istate : node := NewResource "jets:iState".
Definition Jets__loop : node := NewResource "jets:loop".
Definition Jets__completed : node := NewResource "jets:completed".
Definition Jets__exception : node := NewResource "jets:exception".
Definition Jets__key : node := NewResource "jets:key".
Definition Jets__input_record : node := NewResource "jets:InputRecord".
Definition Jets__source_period_sequence : node := NewResource "jets:source_period_sequence".
Definition Rdf__type : node := NewResource "rdf:type".

Definition nul : string := String Ascii.zero EmptyString.
Definition exceptionKey (n : node) : string := NodeType n +:+ nul +:+ NodeString n.

(** ** [RunRuleSets] *)

(** The maximum number of loops of a rule set. *)
Definition max_looping (configured : Z) (ruleset : string) : res Z :=
  if configured =? 0 then
    match GetRuleEngineConfig ruleset "$max_looping" with
    | Ret v =>
        if String.eqb v EmptyString then Ret 0
        else match Atoi v with
             | Some n => Ret n
             | None => Fail ("error: invalid '$max_looping' property in workspace " +:+ ruleset)
             end
    | Fail e => Fail ("error: while getting '$max_looping' property from workspace " +:+ ruleset +:+ ": " +:+ e)
    | Panic e => Panic e
    | Loop => Loop
    end
  else Ret configured.

(** [for iloop = 0; iloop <= maxLooping; iloop++], with [turns] to go: the session,
    what is recorded of the rule set and the value of [iloop] at the end. *)
Fixpoint rule_loop (turns : nat) (iloop : Z) (ruleset : string) (s : session) (rs : RuleSetOutcome) : session * RuleSetOutcome * Z :=
  match turns with
  | O => (s, rs, iloop)
  | S turns =>
      let rs := mkRuleSetOutcome (rs_RuleSet rs) (rs_MaxLooping rs) iloop (rs_Completed rs) (rs_MaxLoopReached rs)
                  (rs_ExecuteErr rs) (rs_Exceptions rs) in
      let s := if 0 <? iloop then (Insert s Jets__istate Jets__loop (NewIntLiteral iloop)).1 else s in
      let '(s, err2) := ExecuteRules s ruleset in
      match err2 with
      | Some e =>
          (s, mkRuleSetOutcome (rs_RuleSet rs) (rs_MaxLooping rs) iloop (rs_Completed rs) (rs_MaxLoopReached rs)
                (Some e) (rs_Exceptions rs), iloop)
      | None =>
          if ContainsSP s Jets__istate Jets__completed then
            (s, mkRuleSetOutcome (rs_RuleSet rs) (rs_MaxLooping rs) iloop true (rs_MaxLoopReached rs)
                  (rs_ExecuteErr rs) (rs_Exceptions rs), iloop)
          else rule_loop turns (iloop + 1) ruleset s rs
      end
  end.

(** The scan for exceptions: those that were not there before, and the keys of all. *)
Definition scan_exceptions (before : gset string) (objs : list node) : list string * gset string :=
  (NodeString <$> filter (λ n, exceptionKey n ∉ before) objs, list_to_set (exceptionKey <$> objs)).

Section run.
Context {W : Type}.
Variables (assertInput : session → session * res unit) (after : W → session → RuleSetOutcome → W) (configured : Z).

(** Where the loop over the rule sets stands; [run_w] is the state of [AfterRuleSet]. *)
Record run_state := mkRun {
  run_w : W; run_s : session; run_o : RuleSetsOutcome; run_before : gset string; run_asserted : bool }.

(** What the outcome records of a rule set. *)
Definition add_rule_set (o : RuleSetsOutcome) (rs : RuleSetOutcome) : RuleSetsOutcome :=
  mkRuleSetsOutcome (ro_RuleSets o ++ [rs])
    (if (0 <? rs_MaxLooping rs) && negb (rs_Completed rs) then false else ro_Completed o)
    (rs_Loops rs) (ro_MaxLoopReached o || rs_MaxLoopReached rs)
    (match ro_ExecuteErr o with None => rs_ExecuteErr rs | e => e end)
    (ro_Exceptions o ++ rs_Exceptions rs) (ro_Err o).

(** The loop of one rule set and its scan, once its rete session is there and the input
    is asserted. *)
Definition exec_rule_set (ruleset : string) (maxLooping : Z) (st : run_state) : run_state * res unit :=
  let '(s, rs, iloop) :=
    rule_loop (Z.to_nat (maxLooping + 1)) 0 ruleset (run_s st) (mkRuleSetOutcome ruleset maxLooping 0 false false None []) in
  match FindSP s Jets__istate Jets__exception with
  | None => (mkRun (run_w st) s (run_o st) (run_before st) true, Panic "runtime error: invalid memory address or nil pointer dereference")
  | Some objs =>
      let '(exceptions, now) := scan_exceptions (run_before st) objs in
      let rs := mkRuleSetOutcome (rs_RuleSet rs) (rs_MaxLooping rs) (rs_Loops rs) (rs_Completed rs)
                  ((0 <? maxLooping) && (maxLooping <? iloop)) (rs_ExecuteErr rs) exceptions in
      (mkRun (after (run_w st) s rs) s (add_rule_set (run_o st) rs) now true, Ret tt)
  end.

Definition run_rule_set (ruleset : string) (st : run_state) : run_state * res unit :=
  let '(s, err) := NewReteSession (run_s st) ruleset in
  let st := mkRun (run_w st) s (run_o st) (run_before st) (run_asserted st) in
  match err with
  | Some e => (st, Fail ("error: while creating rete session for ruleset " +:+ ruleset +:+ ": " +:+ e))
  | None =>
      let '(s, r) := if run_asserted st then (s, Ret tt) else assertInput s in
      let st := mkRun (run_w st) s (run_o st) (run_before st) (run_asserted st) in
      match r with
      | Ret _ =>
          let s := EraseSP (EraseSP s Jets__istate Jets__loop) Jets__istate Jets__completed in
          let st := mkRun (run_w st) s (run_o st) (run_before st) true in
          match max_looping configured ruleset with
          | Ret maxLooping => exec_rule_set ruleset maxLooping st
          | Fail e => (st, Fail e)
          | Panic e => (st, Panic e)
          | Loop => (st, Loop)
          end
      | Fail e => (st, Fail ("while asserting input records to rdf session: " +:+ e))
      | r => (st, r)
      end
  end.

Fixpoint run_rule_sets (names : list string) (st : run_state) : run_state * res unit :=
  match names with
  | [] => (st, Ret tt)
  | ruleset :: names =>
      let '(st, r) := run_rule_set ruleset st in
      match r with
      | Ret _ => run_rule_sets names st
      | r => (st, r)
      end
  end.

Definition no_outcome : RuleSetsOutcome := mkRuleSetsOutcome [] false 0 false None [] None.
Definition with_err (o : RuleSetsOutcome) (e : string) : RuleSetsOutcome :=
  mkRuleSetsOutcome (ro_RuleSets o) (ro_Completed o) (ro_Loops o) (ro_MaxLoopReached o) (ro_ExecuteErr o) (ro_Exceptions o) (Some e).
(** The deferred function. *)
Definition settle_completed (o : RuleSetsOutcome) : RuleSetsOutcome :=
  mkRuleSetsOutcome (ro_RuleSets o)
    (ro_Completed o && negb (is_some (ro_Err o) || is_some (ro_ExecuteErr o)))
    (ro_Loops o) (ro_MaxLoopReached o) (ro_ExecuteErr o) (ro_Exceptions o) (ro_Err o).

(** The state of [AfterRuleSet], the session and the outcome, or the panic that left the
    loop. *)
Definition RunRuleSets (mainRuleFile : string) (w : W) (s : session) : W * session * res RuleSetsOutcome :=
  match GetWorkspaceControl with
  | Ret wc =>
      match RuleFileNames wc mainRuleFile with
      | [] => (w, s, Ret (with_err no_outcome ("error: no rulesets found for main rule file name " +:+ mainRuleFile)))
      | ruleFileNames =>
          let started := mkRuleSetsOutcome [] true 0 false None [] None in
          let '(st, r) := run_rule_sets ruleFileNames (mkRun w s started ∅ false) in
          (run_w st, run_s st,
           match r with
           | Ret _ => Ret (settle_completed (run_o st))
           | Fail e => Ret (settle_completed (with_err (run_o st) e))
           | Panic e => Panic e
           | Loop => Loop
           end)
      end
  | Fail e => (w, s, Ret (with_err no_outcome ("while getting workspace control in executeRules: " +:+ e)))
  | Panic e => (w, s, Panic e)
  | Loop => (w, s, Loop)
  end.
End run.
End rule_sets.
Arguments mkRun {session W}.
Arguments run_w {session W}.
Arguments run_s {session W}.
Arguments run_o {session W}.
Arguments run_before {session W}.
Arguments run_asserted {session W}.
