(* ===== verification/RuleSessionLaws.v ===== *)
(** * What a run of rule sets says

    The outcome of each rule set and of the process, against the passes of the engine; and
    that an exception of the session is reported once, whatever number of rule sets see
    it. *)
From stdpp Require Import base list strings gmap.
From Stdlib Require Import ZArith Lia.
From S2P Require Import Prelude GoFloat GoText GoValue RuleSession.
Local Open Scope string_scope.
Local Open Scope Z_scope.

Section outcome.
Context {node session : Type} `{RuleEngine node session} `{Workspace}.

(** ** One rule set *)

(** The session when pass [iloop] calls the engine. *)
Definition enter_pass (iloop : Z) (s : session) : session :=
  if 0 <? iloop then (Insert s Jets__istate Jets__loop (NewIntLiteral iloop)).1 else s.
(** A pass that leaves the rule set to loop. *)
Definition goes_on (ruleset : string) (iloop : Z) (s s' : session) : Prop :=
  ExecuteRules (enter_pass iloop s) ruleset = (s', None) ∧ ContainsSP s' Jets__istate Jets__completed = false.
(** [n] passes from [iloop], after which the rule set still loops. *)
Fixpoint go_on (ruleset : string) (n : nat) (iloop : Z) (s s' : session) : Prop :=
  match n with
  | O => s' = s
  | S n => ∃ s1, goes_on ruleset iloop s s1 ∧ go_on ruleset n (iloop + 1) s1 s'
  end.

(** How the loop of a rule set may end: on an error of the engine, on completion, or
    because its passes are used up. *)
Definition loop_ended (ruleset : string) (maxLooping : Z) (s s' : session) (rs : RuleSetOutcome) : Prop :=
  (∃ s1 e, 0 ≤ rs_Loops rs ≤ maxLooping ∧ go_on ruleset (Z.to_nat (rs_Loops rs)) 0 s s1 ∧
     ExecuteRules (enter_pass (rs_Loops rs) s1) ruleset = (s', Some e) ∧ rs_ExecuteErr rs = Some e ∧ rs_Completed rs = false ∧
     rs_MaxLoopReached rs = false) ∨
  (∃ s1, 0 ≤ rs_Loops rs ≤ maxLooping ∧ go_on ruleset (Z.to_nat (rs_Loops rs)) 0 s s1 ∧
     ExecuteRules (enter_pass (rs_Loops rs) s1) ruleset = (s', None) ∧ ContainsSP s' Jets__istate Jets__completed = true ∧
     rs_ExecuteErr rs = None ∧ rs_Completed rs = true ∧ rs_MaxLoopReached rs = false) ∨
  (go_on ruleset (Z.to_nat (maxLooping + 1)) 0 s s' ∧ rs_Loops rs = Z.max 0 maxLooping ∧ rs_ExecuteErr rs = None ∧
     rs_Completed rs = false ∧ rs_MaxLoopReached rs = (0 <? maxLooping)).

Lemma go_on_snoc ruleset n iloop s s1 s2 :
  go_on ruleset n iloop s s1 → goes_on ruleset (iloop + Z.of_nat n) s1 s2 → go_on ruleset (S n) iloop s s2.
Proof.
  revert iloop s. induction n as [|n IH]; intros iloop s.
  - cbn. intros -> Hg. rewrite Z.add_0_r in Hg. eauto.
  - intros (t & Ht & Hn) Hg. exists t. split; [done|]. apply IH; [done|].
    by replace (iloop + 1 + Z.of_nat n) with (iloop + Z.of_nat (S n)) by lia.
Qed.

(** What [rule_loop] leaves, [k] passes after the first. *)
Lemma rule_loop_ends ruleset turns k s0 s s' rs rs' iloop :
  go_on ruleset k 0 s0 s → rs_Completed rs = false → rs_ExecuteErr rs = None →
  rs_Loops rs = Z.max 0 (Z.of_nat k - 1) →
  rule_loop turns (Z.of_nat k) ruleset s rs = (s', rs', iloop) →
  rs_RuleSet rs' = rs_RuleSet rs ∧ rs_MaxLooping rs' = rs_MaxLooping rs ∧
  let max := Z.of_nat k + Z.of_nat turns - 1 in
  ((∃ s1 e, Z.of_nat k ≤ rs_Loops rs' ≤ max ∧ go_on ruleset (Z.to_nat (rs_Loops rs')) 0 s0 s1 ∧
      ExecuteRules (enter_pass (rs_Loops rs') s1) ruleset = (s', Some e) ∧ rs_ExecuteErr rs' = Some e ∧
      rs_Completed rs' = false ∧ iloop = rs_Loops rs') ∨
   (∃ s1, Z.of_nat k ≤ rs_Loops rs' ≤ max ∧ go_on ruleset (Z.to_nat (rs_Loops rs')) 0 s0 s1 ∧
      ExecuteRules (enter_pass (rs_Loops rs') s1) ruleset = (s', None) ∧ ContainsSP s' Jets__istate Jets__completed = true ∧
      rs_ExecuteErr rs' = None ∧ rs_Completed rs' = true ∧ iloop = rs_Loops rs') ∨
   (go_on ruleset (k + turns) 0 s0 s' ∧ rs_Loops rs' = Z.max 0 max ∧ rs_ExecuteErr rs' = None ∧ rs_Completed rs' = false ∧
      iloop = max + 1)).
Proof.
  revert k s rs. induction turns as [|turns IH]; intros k s rs Hgo Hc He Hl; cbn [rule_loop].
  - intros [= <- <- <-]. do 2 (split; [done|]). right. right. rewrite Nat.add_0_r. split_and!; [done|lia|done|done|lia].
  - fold (enter_pass (Z.of_nat k) s).
    destruct (ExecuteRules (enter_pass (Z.of_nat k) s) ruleset) as [s1 err] eqn:Ex. destruct err as [e|].
    + intros [= <- <- <-]. cbn. do 2 (split; [done|]). left. exists s, e. rewrite Nat2Z.id.
      split_and!; [lia|lia|done|done|done|done|done].
    + destruct (ContainsSP s1 Jets__istate Jets__completed) eqn:Ec.
      * intros [= <- <- <-]. cbn. do 2 (split; [done|]). right. left. exists s. rewrite Nat2Z.id.
        split_and!; [lia|lia|done|done|done|done|done|done].
      * replace (Z.of_nat k + 1) with (Z.of_nat (S k)) by lia. intros Hr.
        apply IH in Hr; [|eapply go_on_snoc; [done|]; rewrite Z.add_0_l; by split|done|done|cbn; lia].
        cbn in Hr. destruct Hr as (H1 & H2 & Hr). do 2 (split; [done|]).
        replace (Z.of_nat k + Z.of_nat (S turns) - 1) with (Z.of_nat (S k) + Z.of_nat turns - 1) by lia.
        rewrite Nat.add_succ_r. cbv zeta.
        destruct Hr as [(t & e & Hr)|[(t & Hr)|Hr]]; [left; exists t, e|right; left; exists t|right; right];
          destruct_and?; split_and!; (done || lia).
Qed.

Lemma exec_rule_set_ends {W} (after : W → session → RuleSetOutcome → W) ruleset maxLooping st st' :
  exec_rule_set after ruleset maxLooping st = (st', Ret tt) →
  ∃ rs objs, run_o st' = add_rule_set (run_o st) rs ∧ rs_RuleSet rs = ruleset ∧ rs_MaxLooping rs = maxLooping ∧
    loop_ended ruleset maxLooping (run_s st) (run_s st') rs ∧ run_asserted st' = true ∧
    FindSP (run_s st') Jets__istate Jets__exception = Some objs ∧
    (rs_Exceptions rs, run_before st') = scan_exceptions (run_before st) objs ∧ run_w st' = after (run_w st) (run_s st') rs.
Proof.
  unfold exec_rule_set. destruct (rule_loop _ _ _ _ _) as [[s rs] iloop] eqn:El.
  destruct (FindSP s _ _) as [objs|] eqn:Ef; [|done].
  destruct (scan_exceptions (run_before st) objs) as [ex now] eqn:Es. intros [= <-]. cbn [run_o run_s run_asserted run_before].
  eapply (rule_loop_ends _ _ 0) in El; [|cbn; done|done|done|done]. destruct El as (E1 & E2 & El).
  eexists _, objs. split; [reflexivity|]. cbn [rs_RuleSet rs_MaxLooping rs_Exceptions]. rewrite E1, E2, Es.
  split_and!; try done.
  unfold loop_ended. cbn [rs_Loops rs_ExecuteErr rs_Completed rs_MaxLoopReached].
  destruct El as [(t & e & ? & ? & ? & ? & ? & ->)|[(t & ? & ? & ? & ? & ? & ? & ->)|(? & ? & ? & ? & ->)]];
    [left; exists t, e|right; left; exists t|right; right].
  - split_and!; try (done || lia).
  - split_and!; try (done || lia).
  - split_and!; try (done || lia).
    destruct (Z.ltb_spec 0 maxLooping); [|done]. apply Z.ltb_lt. lia.
Qed.

(** ** The rule sets of a process *)
Section process.
Context {W : Type}.
Variables (assertInput : session → session * res unit) (after : W → session → RuleSetOutcome → W) (configured : Z).

(** The rete session of a rule set is made, the input asserted by the first, and what
    earlier loops left is erased. *)
Definition prepared (asserted : bool) (ruleset : string) (s s' : session) : Prop :=
  ∃ s1 s2, NewReteSession s ruleset = (s1, None) ∧ (if asserted then (s1, Ret tt) else assertInput s1) = (s2, Ret tt) ∧
    s' = EraseSP (EraseSP s2 Jets__istate Jets__loop) Jets__istate Jets__completed.

(** The rule sets run one after the other on the session: what is recorded of each, the
    exceptions it reports being those that the scan before it did not see. *)
Inductive ran : bool → session → gset string → list RuleSetOutcome → session → gset string → Prop :=
| ran_none asserted s seen : ran asserted s seen [] s seen
| ran_one asserted s seen rs s1 s2 objs seen' later s' seen'' :
    prepared asserted (rs_RuleSet rs) s s1 →
    max_looping configured (rs_RuleSet rs) = Ret (rs_MaxLooping rs) →
    loop_ended (rs_RuleSet rs) (rs_MaxLooping rs) s1 s2 rs →
    FindSP s2 Jets__istate Jets__exception = Some objs →
    (rs_Exceptions rs, seen') = scan_exceptions seen objs →
    ran true s2 seen' later s' seen'' →
    ran asserted s seen (rs :: later) s' seen''.

Lemma ran_snoc asserted s seen l s1 seen1 rs s2 seen2 :
  ran asserted s seen l s1 seen1 → ran (asserted || negb (Nat.eqb (length l) 0)) s1 seen1 [rs] s2 seen2 →
  ran asserted s seen (l ++ [rs]) s2 seen2.
Proof.
  induction 1 as [asserted s seen|asserted s seen rs' t1 t2 objs seen' later s' seen'' Hp Hm Hl Hf Hs Hr IH].
  - cbn. by rewrite orb_false_r.
  - cbn [length Nat.eqb negb app]. rewrite orb_true_r. intros H1. eapply ran_one; eauto.
Qed.

Lemma run_rule_set_ran ruleset st st' :
  run_rule_set assertInput after configured ruleset st = (st', Ret tt) →
  ∃ rs, run_o st' = add_rule_set (run_o st) rs ∧ rs_RuleSet rs = ruleset ∧ run_asserted st' = true ∧
    ran (run_asserted st) (run_s st) (run_before st) [rs] (run_s st') (run_before st').
Proof.
  unfold run_rule_set. destruct (NewReteSession (run_s st) ruleset) as [s1 [e|]] eqn:En; [done|].
  cbn [run_asserted run_s run_w run_o run_before].
  destruct (if run_asserted st then (s1, Ret tt) else assertInput s1) as [s2 r] eqn:Ea.
  destruct r as [[]|e|e|]; try done.
  destruct (max_looping configured ruleset) as [m|e|e|] eqn:Em; try done. intros Hx.
  apply exec_rule_set_ends in Hx as (rs & objs & Ho & <- & <- & Hl & Has & Hf & Hs & _). cbn in *.
  exists rs. split_and!; try done. eapply ran_one; try done; [|by constructor]. exists s1, s2. by rewrite Ea.
Qed.

Lemma run_rule_set_stops ruleset st st' r :
  run_rule_set assertInput after configured ruleset st = (st', r) → r ≠ Ret tt → run_o st' = run_o st.
Proof.
  unfold run_rule_set. destruct (NewReteSession (run_s st) ruleset) as [s1 [e|]]; [by intros [= <- <-]|].
  cbn [run_asserted run_s run_w run_o run_before].
  destruct (if run_asserted st then (s1, Ret tt) else assertInput s1) as [s2 [[]|e|e|]]; try by intros [= <- <-].
  destruct (max_looping configured ruleset) as [m|e|e|]; try by intros [= <- <-].
  unfold exec_rule_set. destruct (rule_loop _ _ _ _ _) as [[s rs] iloop]. destruct (FindSP s _ _); [|by intros [= <- <-]].
  destruct (scan_exceptions _ _). by intros [= <- <-].
Qed.

(** What the outcome says of the rule sets that ran. *)
Definition summarises (l : list RuleSetOutcome) (o : RuleSetsOutcome) : Prop :=
  ro_RuleSets o = l ∧ ro_MaxLoopReached o = existsb rs_MaxLoopReached l ∧
  ro_ExecuteErr o = head (omap rs_ExecuteErr l) ∧ ro_Exceptions o = mjoin (rs_Exceptions <$> l) ∧
  ro_Loops o = default 0 (rs_Loops <$> last l).
Lemma summarises_snoc l o rs : summarises l o → summarises (l ++ [rs]) (add_rule_set o rs).
Proof.
  intros (E1 & E2 & E3 & E4 & E5). unfold summarises. cbn. rewrite E1, E2, E3, E4.
  rewrite existsb_app, fmap_app, join_app, last_snoc. cbn. rewrite orb_false_r, app_nil_r.
  split_and!; try done. rewrite omap_app. cbn. destruct (omap rs_ExecuteErr l); [|done]. cbn. by destruct (rs_ExecuteErr rs).
Qed.
Definition all_complete (l : list RuleSetOutcome) : bool :=
  forallb (λ rs, negb ((0 <? rs_MaxLooping rs) && negb (rs_Completed rs))) l.

Lemma run_rule_sets_ran names st st' r s0 l :
  run_rule_sets assertInput after configured names st = (st', r) →
  ran false s0 ∅ l (run_s st) (run_before st) → run_asserted st = negb (Nat.eqb (length l) 0) →
  summarises l (run_o st) → ro_Completed (run_o st) = all_complete l → ro_Err (run_o st) = None →
  ∃ l' s1 seen, ran false s0 ∅ l' s1 seen ∧ summarises l' (run_o st') ∧
    ro_Completed (run_o st') = all_complete l' ∧ ro_Err (run_o st') = None ∧
    (∃ rest, ((rs_RuleSet <$> l) ++ names)%list = ((rs_RuleSet <$> l') ++ rest)%list ∧
       (r = Ret tt → rest = [] ∧ s1 = run_s st' ∧ seen = run_before st')).
Proof.
  revert st l. induction names as [|ruleset names IH]; intros st l; cbn [run_rule_sets].
  - intros [= <- <-] Hr Ha Hs Hc He. exists l, (run_s st), (run_before st). split_and!; try done. by exists [].
  - destruct (run_rule_set _ _ _ _ _) as [st1 r1] eqn:E1. intros Hrun Hr Ha Hs Hc He.
    destruct r1 as [[]|e|e|].
    2-4: injection Hrun as <- <-.
    1: { apply run_rule_set_ran in E1 as (rs & Ho & Hn & Ha' & H1).
      assert (Hsn : ran false s0 ∅ (l ++ [rs]) (run_s st1) (run_before st1)).
      { eapply ran_snoc; [done|]. cbn [orb]. by rewrite <- Ha. }
      apply (IH st1 (l ++ [rs])%list) in Hrun as (l' & s1 & seen & ? & ? & ? & ? & rest & Hrest & Hret); try done.
      - exists l', s1, seen. split_and!; try done. exists rest. split; [|done]. rewrite <- Hrest, fmap_app. cbn.
        by rewrite Hn, <- app_assoc.
      - rewrite Ha', length_app. cbn. by rewrite Nat.add_1_r.
      - rewrite Ho. by apply summarises_snoc.
      - rewrite Ho. unfold all_complete. rewrite forallb_app. cbn. rewrite Hc, andb_true_r.
        fold (all_complete l). destruct ((0 <? rs_MaxLooping rs) && negb (rs_Completed rs)); cbn; by rewrite ?andb_false_r, ?andb_true_r.
      - rewrite Ho. done. }
    all: apply run_rule_set_stops in E1; [|done].
    all: exists l, (run_s st), (run_before st); rewrite E1; split_and!; try done; by exists (ruleset :: names).
Qed.

(** What the outcome of a process says: the rule sets it records ran on the session in the
    order of the workspace, all of them unless [Err] is set, and it is complete when each
    rule set that loops was, without an error. *)
Definition reports (mainRuleFile : string) (s s' : session) (o : RuleSetsOutcome) : Prop :=
  ∃ wc s1 seen l,
    (ro_Err o = None → GetWorkspaceControl = Ret wc ∧ l ≠ [] ∧ rs_RuleSet <$> l = RuleFileNames wc mainRuleFile ∧ s1 = s') ∧
    (l ≠ [] → GetWorkspaceControl = Ret wc ∧ (rs_RuleSet <$> l) `prefix_of` RuleFileNames wc mainRuleFile) ∧
    ran false s ∅ l s1 seen ∧ summarises l o ∧
    (ro_Completed o = true ↔ ro_Err o = None ∧ ro_ExecuteErr o = None ∧ all_complete l = true).

Lemma reports_none mainRuleFile s s' e : reports mainRuleFile s s' (with_err no_outcome e).
Proof. exists None, s, ∅, []. split_and!; try done; [constructor|]. cbn. naive_solver. Qed.

Lemma RunRuleSets_reports mainRuleFile (w w' : W) s s' o :
  RunRuleSets assertInput after configured mainRuleFile w s = (w', s', Ret o) → reports mainRuleFile s s' o.
Proof.
  unfold RunRuleSets.
  destruct GetWorkspaceControl as [wc|e|e|] eqn:Ew; try done; [|intros [= <- <- <-]; apply reports_none].
  destruct (RuleFileNames wc mainRuleFile) as [|r0 names] eqn:En; [intros [= <- <- <-]; apply reports_none|].
  destruct (run_rule_sets _ _ _ _ _) as [st r] eqn:Er. cbv zeta beta.
  apply (run_rule_sets_ran _ _ _ _ s []) in Er as (l & s1 & seen & Hr & Hs & Hc & He & rest & Hrest & Hret); try done; [|constructor].
  cbn in Hrest. intros Heq. exists wc, s1, seen, l. rewrite En.
  assert (Ho : o = settle_completed (run_o st) ∧ r = Ret tt ∨ ∃ e, o = settle_completed (with_err (run_o st) e)).
  { destruct r as [[]|e|e|]; injection Heq; naive_solver. }
  assert (Hs' : s' = run_s st) by (destruct r; congruence).
  destruct Ho as [[-> ->]|[e ->]]; cbn.
  - destruct (Hret eq_refl) as (-> & -> & ->). rewrite app_nil_r in Hrest. rewrite <- Hrest. split_and!; try done.
    + intros _. split_and!; try done. intros ->. done.
    + rewrite Hc, He. cbn. rewrite andb_true_iff, negb_true_iff. destruct (ro_ExecuteErr (run_o st)); naive_solver.
  - split_and!; try done.
    + intros _. rewrite Hrest. split; [done|]. by exists rest.
    + rewrite andb_false_r. naive_solver.
Qed.

(** What [AfterRuleSet] keeps, of its state and the rule sets it was called with. *)
Lemma RunRuleSets_after (R : W → list RuleSetOutcome → Prop) mainRuleFile (w w' : W) s s' r :
  (∀ w s rs l, R w l → R (after w s rs) (l ++ [rs])%list) → R w [] →
  RunRuleSets assertInput after configured mainRuleFile w s = (w', s', r) →
  (∃ l, R w' l) ∧ ∀ o, r = Ret o → R w' (ro_RuleSets o).
Proof.
  intros Ha H0'.
  assert (Hset : ∀ ruleset st, R (run_w st) (ro_RuleSets (run_o st)) →
    let st' := (run_rule_set assertInput after configured ruleset st).1 in R (run_w st') (ro_RuleSets (run_o st'))).
  { intros ruleset st Hst. unfold run_rule_set. destruct (NewReteSession (run_s st) ruleset) as [s1 [e|]]; [done|].
    cbn [run_asserted run_s run_w run_o run_before].
    destruct (if run_asserted st then (s1, Ret tt) else assertInput s1) as [s2 [[]|e|e|]]; try done.
    destruct (max_looping configured ruleset) as [m|e|e|]; try done.
    unfold exec_rule_set. destruct (rule_loop _ _ _ _ _) as [[t rs] iloop]. destruct (FindSP t _ _); [|done].
    destruct (scan_exceptions _ _). cbn. by apply Ha. }
  assert (Hsets : ∀ names st, R (run_w st) (ro_RuleSets (run_o st)) →
    let st' := (run_rule_sets assertInput after configured names st).1 in R (run_w st') (ro_RuleSets (run_o st'))).
  { induction names as [|r0 names IH]; intros st Hst; [done|]. cbn [run_rule_sets]. specialize (Hset r0 st Hst).
    destruct (run_rule_set _ _ _ r0 st) as [st1 [[]|e|e|]]; cbn in Hset; try done. by apply IH. }
  unfold RunRuleSets. destruct GetWorkspaceControl as [wc|e|e|]; try (intros [= <- <- <-]; split; [by exists []|by intros ? [= <-]]).
  destruct (RuleFileNames wc mainRuleFile) as [|r0 names]; [intros [= <- <- <-]; split; [by exists []|by intros ? [= <-]]|].
  specialize (Hsets (r0 :: names) (mkRun w s (mkRuleSetsOutcome [] true 0 false None [] None) ∅ false) H0').
  destruct (run_rule_sets _ _ _ _ _) as [st r']. cbn in Hsets. intros [= <- <- <-]. split; [by eexists|].
  intros o Ho. destruct r' as [[]|e|e|]; by simplify_eq.
Qed.

(** The loop answers, whatever the engine does, when the engine takes the scan for
    exceptions and the files and the input give a result or an error. *)
Definition answers {A} (r : res A) : bool := match r with Ret _ | Fail _ => true | _ => false end.
Hypothesis scans : ∀ s, FindSP s Jets__istate Jets__exception ≠ None.
Hypothesis input_answers : ∀ s, answers (assertInput s).2 = true.
Hypothesis config_answers : ∀ r p, answers (GetRuleEngineConfig r p) = true.
Hypothesis control_answers : answers GetWorkspaceControl = true.

Lemma max_looping_answers ruleset : answers (max_looping configured ruleset) = true.
Proof.
  unfold max_looping. case_match; [|done]. pose proof (config_answers ruleset "$max_looping"). by repeat case_match.
Qed.
Lemma run_rule_sets_answer names st : answers (run_rule_sets assertInput after configured names st).2 = true.
Proof.
  revert st. induction names as [|r names IH]; intros st; [done|]. cbn [run_rule_sets].
  destruct (run_rule_set _ _ _ r st) as [st1 r1] eqn:E1.
  assert (Ha : answers r1 = true); [|by destruct r1 as [[]| | |]].
  revert E1. unfold run_rule_set. destruct (NewReteSession (run_s st) r) as [s1 [e|]]; [by intros [= _ <-]|].
  cbn [run_asserted run_s run_w run_o run_before].
  destruct (if run_asserted st then (s1, Ret tt) else assertInput s1) as [s2 r2] eqn:Ei.
  assert (Hi : answers r2 = true).
  { pose proof (input_answers s1). destruct (run_asserted st); [by injection Ei as <- <-|]. by rewrite Ei in *. }
  destruct r2 as [[]|e|e|]; try done; [|by intros [= _ <-]].
  pose proof (max_looping_answers r). destruct (max_looping configured r) as [m|e|e|]; try done; [|by intros [= _ <-]].
  unfold exec_rule_set. destruct (rule_loop _ _ _ _ _) as [[s rs] iloop]. pose proof (scans s).
  destruct (FindSP s _ _); [|done]. destruct (scan_exceptions _ _). by intros [= _ <-].
Qed.

(** C20. The rule loop of a process implements its protocol. Let the engine never refuse the scan
    for exceptions ([FindSP] gives an iterator), and the assertion of the input, the reading of
    the engine configuration and of the workspace control give a result or an error, without a
    panic. Then the loop answers, whatever sessions, errors and completions the engine gives;
    the outcome records the rule sets that ran, in the order of the workspace and
    all of them when there is no error; each of them ran its passes from the session the
    one before left, until an error of the engine, completion or its maximum, and records
    which; the outcome sums them up. *)
Theorem rule_sets_run mainRuleFile (w : W) s :
  ∃ w' s' o, RunRuleSets assertInput after configured mainRuleFile w s = (w', s', Ret o) ∧ reports mainRuleFile s s' o.
Proof.
  destruct (RunRuleSets assertInput after configured mainRuleFile w s) as [[w' s'] r] eqn:Er.
  assert (Ha : answers r = true ∧ ∀ e, r ≠ Fail e).
  { revert Er. unfold RunRuleSets. destruct GetWorkspaceControl as [wc|e|e|]; try done; [|by intros [= <- <- <-]].
    destruct (RuleFileNames wc mainRuleFile) as [|r0 names]; [by intros [= <- <- <-]|].
    pose proof (run_rule_sets_answer (r0 :: names) (mkRun w s (mkRuleSetsOutcome [] true 0 false None [] None) ∅ false)) as Hr.
    destruct (run_rule_sets _ _ _ _ _) as [st r']. cbn in Hr. intros [= <- <- <-]. by destruct r'. }
  destruct r as [o|e|e|]; [|naive_solver..]. exists w', s', o. split; [done|]. by eapply RunRuleSets_reports.
Qed.
End process.
End outcome.

(** ** Exceptions *)
Section exceptions.
Context {node session : Type} `{RuleEngine node session} `{Workspace} {W : Type}.
Variables (assertInput : session → session * res unit) (after : W → session → RuleSetOutcome → W) (configured : Z).

(** The exceptions of a session. *)
Definition excs (s : session) : list node := default [] (FindSP s Jets__istate Jets__exception).
Definition keeps_excs (s s' : session) : Prop := ∀ n, n ∈ excs s → n ∈ excs s'.

(** The session is a set: an exception, known by its type and its text, is there once.
    What the loop does between two scans retracts none. *)
Hypothesis excs_set : ∀ s, NoDup (exceptionKey <$> excs s).
Hypothesis execute_keeps : ∀ s r, keeps_excs s (ExecuteRules s r).1.
Hypothesis rete_keeps : ∀ s r, keeps_excs s (NewReteSession s r).1.
Hypothesis loop_keeps : ∀ s k, keeps_excs s (Insert s Jets__istate Jets__loop (NewIntLiteral k)).1.
Hypothesis erase_loop_keeps : ∀ s, keeps_excs s (EraseSP s Jets__istate Jets__loop).
Hypothesis erase_completed_keeps : ∀ s, keeps_excs s (EraseSP s Jets__istate Jets__completed).

Lemma enter_pass_keeps k s : keeps_excs s (enter_pass k s).
Proof. unfold enter_pass. case_match; [apply loop_keeps|by intros n]. Qed.
Lemma pass_keeps ruleset k s s' err : ExecuteRules (enter_pass k s) ruleset = (s', err) → keeps_excs s s'.
Proof.
  intros He n Hn. change s' with ((s', err).1). rewrite <- He. by apply execute_keeps, enter_pass_keeps.
Qed.
Lemma go_on_keeps ruleset n k s s' : go_on ruleset n k s s' → keeps_excs s s'.
Proof.
  revert k s. induction n as [|n IH]; intros k s; cbn; [by intros -> x|].
  intros (s1 & [Hp _] & Hg) x Hx. eapply IH; [done|]. by eapply pass_keeps.
Qed.
Lemma loop_ended_keeps ruleset m s s' rs : loop_ended ruleset m s s' rs → keeps_excs s s'.
Proof.
  intros [(s1 & e & _ & Hg & He & _)|[(s1 & _ & Hg & He & _)|[Hg _]]] x Hx;
    try (eapply pass_keeps; [done|]); by eapply go_on_keeps.
Qed.

(** Two exceptions of one session with the same key are one. *)
Lemma excs_key s n m : n ∈ excs s → m ∈ excs s → exceptionKey n = exceptionKey m → n = m.
Proof.
  intros Hn Hm He. pose proof (excs_set s) as Hd. revert Hn Hm. induction (excs s) as [|x l IH]; [set_solver|].
  apply NoDup_cons in Hd as [Hx Hd]. rewrite !elem_of_cons. intros [->|Hn] [->|Hm]; try done.
  - destruct Hx. rewrite He. by apply list_elem_of_fmap_2.
  - destruct Hx. rewrite <- He. by apply list_elem_of_fmap_2.
  - by apply IH.
Qed.

(** A scan finds the exceptions of the scan before, and those it reports. *)
Lemma scan_splits s prev :
  NoDup (exceptionKey <$> prev) → (∀ n, n ∈ prev → n ∈ excs s) →
  (NodeString <$> prev) ++ (scan_exceptions (list_to_set (exceptionKey <$> prev)) (excs s)).1 ≡ₚ NodeString <$> excs s.
Proof.
  intros Hd Hin. unfold scan_exceptions. cbn [fst]. rewrite <- fmap_app. apply fmap_Permutation, NoDup_Permutation.
  - apply NoDup_app. split_and!; [by eapply NoDup_fmap_1| |apply NoDup_filter; by eapply NoDup_fmap_1, excs_set].
    intros n Hn [Hk _]%list_elem_of_filter. apply Hk, elem_of_list_to_set. by apply list_elem_of_fmap_2.
  - by eapply NoDup_fmap_1, excs_set.
  - intros n. rewrite elem_of_app, list_elem_of_filter, elem_of_list_to_set. split; [naive_solver|].
    intros Hn. destruct (decide (exceptionKey n ∈ exceptionKey <$> prev)) as [Hk|Hk]; [|by right].
    apply list_elem_of_fmap in Hk as (m & Hk & Hm). left. by rewrite (excs_key s n m); auto.
Qed.

Lemma ran_exceptions asserted s seen l s' seen' prev :
  ran assertInput configured asserted s seen l s' seen' → seen = list_to_set (exceptionKey <$> prev) →
  NoDup (exceptionKey <$> prev) → (asserted = false → prev = []) → (∀ n, n ∈ prev → n ∈ excs s) → l ≠ [] →
  (NodeString <$> prev) ++ mjoin (rs_Exceptions <$> l) ≡ₚ NodeString <$> excs s'.
Proof.
  intros Hr. revert prev.
  induction Hr as [|asserted s seen rs s1 s2 objs seen1 later s' seen' Hp Hm Hl Hf Hs Hr IH]; intros prev -> Hd Ha Hin Hne; [done|].
  assert (Hobjs : objs = excs s2) by (unfold excs; by rewrite Hf). subst objs.
  assert (Hin2 : ∀ n, n ∈ prev → n ∈ excs s2).
  { intros n Hn. eapply loop_ended_keeps; [done|]. destruct Hp as (t1 & t2 & En & Ei & ->).
    apply erase_completed_keeps, erase_loop_keeps. destruct asserted.
    - injection Ei as <-. change t1 with ((t1, @None string).1). rewrite <- En. by apply rete_keeps, Hin.
    - rewrite (Ha eq_refl) in Hn. set_solver. }
  pose proof (scan_splits s2 prev Hd Hin2) as Hsp. rewrite <- Hs in Hsp. cbn [fst] in Hsp.
  cbn [fmap list_fmap mjoin list_join]. rewrite app_assoc, Hsp.
  destruct later as [|rs' later]; [inversion Hr; subst; cbn; by rewrite app_nil_r|].
  apply IH; [by injection Hs|apply excs_set|done|done|done].
Qed.

(** C26. An exception of the session is reported once. When rules only add exceptions, those
    reported over all the rule sets of a process that ran to its end are those of the
    session at its end, each once, though every later rule set finds it there again. *)
Theorem exceptions_reported_once mainRuleFile (w w' : W) s s' o :
  RunRuleSets assertInput after configured mainRuleFile w s = (w', s', Ret o) → ro_Err o = None →
  ro_Exceptions o ≡ₚ NodeString <$> excs s'.
Proof.
  intros Hr He. apply RunRuleSets_reports in Hr as (wc & s1 & seen & l & Hn & _ & Hr & (_ & _ & _ & Hx & _) & _).
  destruct (Hn He) as (_ & Hl & _ & ->). rewrite Hx.
  by apply (ran_exceptions _ _ _ _ _ _ [] Hr); try done; [constructor|set_solver].
Qed.
End exceptions.
