(* ===== verification/RuleWorker.v ===== *)
(** * The worker of the rules operator (src/jets/compute_pipes)

    jetrules_pool_worker.go: what a worker does with a bundle of records. The records are
    asserted in a new session, the rule sets run on it, failures go to the error channel,
    the policy on errors is applied and the entities of the output classes are extracted.
    With it the keys of an error row (jetrules_grouping_key.go) and the row itself
    (jetsrules_process_error.go). The statistics of the optimizer are off. *)
From stdpp Require Import base list strings gmap.
From Stdlib Require Import ZArith Lia SpecFloat.
From S2P Require Import Prelude GoFloat GoText GoValue EvalOperators RdfCast EvalExpression.
From S2P Require Import Records HashKey Cleansing ColumnEval ColumnBuild Pipes RuleSession.
Local Open Scope string_scope.
Local Open Scope Z_scope.

#[local] Set Warnings "-register-all".

Record JetrulesSpec := mkJetrulesSpec {
  js_InputRdfType : string; js_MaxLooping : Z; js_CurrentSourcePeriod : Z; js_OnError : string; js_MaxErrorCount : Z;
  js_MaxReteSessionsSaved : Z }.
Definition OnErrorPassThrough := "pass_through".
Definition OnErrorDrop := "drop".
Definition OnErrorFail := "fail".

(** ** Error rows *)

(** A [sql.NullString] is [None] when it is not valid. *)
Record ProcessError := mkProcessError {
  PEKey : Z; pe_SessionId : string; pe_GroupingKey : option string; pe_RowJetsKey : option string;
  pe_InputColumn : option string; pe_ErrorMessage : string; pe_ReteSessionSaved : string;
  pe_ReteSessionTriples : option string; pe_ShardId : Z; pe_CpipesStepId : string; pe_OperatorType : string }.

(** A cell of an error row. *)
Inductive cell := CAny (v : any) | CNullString (s : option string).

Definition setColumn (outCh : OutputChannel) (column : string) (v : cell) (row : list cell) : res (list cell) :=
  match oc_Columns outCh !! column with
  | None => Ret row
  | Some pos =>
      if Z.of_nat (length row) <=? pos then Ret row
      else if pos <? 0 then Panic out_of_range
      else Ret (<[Z.to_nat pos := v]> row)
  end.
Fixpoint set_columns (outCh : OutputChannel) (cells : list (string * cell)) (row : list cell) : res (list cell) :=
  match cells with
  | [] => Ret row
  | (column, v) :: cells => let! row := setColumn outCh column v row in set_columns outCh cells row
  end.
(** The row [write2Chan] sends. *)
Definition write2Chan (peRow : ProcessError) (outCh : OutputChannel) : res (list cell) :=
  set_columns outCh
    [("pipeline_execution_status_key", CAny (VInt64 (PEKey peRow))); ("session_id", CAny (VStr (pe_SessionId peRow)));
     ("grouping_key", CNullString (pe_GroupingKey peRow)); ("row_jets_key", CNullString (pe_RowJetsKey peRow));
     ("input_column", CNullString (pe_InputColumn peRow)); ("error_message", CAny (VStr (pe_ErrorMessage peRow)));
     ("rete_session_saved", CAny (VStr (pe_ReteSessionSaved peRow))); ("rete_session_triples", CNullString (pe_ReteSessionTriples peRow));
     ("shard_id", CAny (VInt (pe_ShardId peRow))); ("cpipes_step_id", CAny (VStr (pe_CpipesStepId peRow)));
     ("error_channel", CAny (VStr (oc_Name outCh))); ("operator_type", CAny (VStr (pe_OperatorType peRow)))]
    (repeat (CAny VNil) (length (oc_ConfigColumns outCh))).

(** What [NewProcessError] reads of the builder context. *)
Record BuilderKeys := mkBuilderKeys { bk_peKey : Z; bk_sessionId : string; bk_nodeId : Z; bk_MainInputStepId : string }.
Definition NewProcessError (ctx : BuilderKeys) (operatorType : string) : ProcessError :=
  mkProcessError (bk_peKey ctx) (bk_sessionId ctx) None None None EmptyString "N" None (bk_nodeId ctx)
    (bk_MainInputStepId ctx) operatorType.

Section worker.
Context `{GoArch} `{GoUnicode} `{GoFmt} `{GoZone} `{GoRegexp} `{GoUuid} `{GoClock} `{GoRand} `{DomainKeyEnv} `{GoDigits}.
Variable map_order : nat → list string → list string.
Context {node session : Type} `{RuleEngine node session} `{Workspace}.

Record JetrulesOutputChan := mkJetrulesOut {
  jo_ClassName : string;
  (** The columns with an encoding of their own, which give an entity as a text. *)
  jo_JrColumnEncodings : gmap string (session → node → any);
  jo_ColumnEvaluators : list columnEval;
  jo_OutputCh : OutputChannel }.

(** The worker; [jw_reported] are the error rows written to its error channel. *)
Record JrPoolWorker := mkWorker {
  jw_config : JetrulesSpec; jw_HasGroupedRows : bool; jw_rdfType2Columns : gmap string (list string);
  jw_multiValueDataProperties : gset string; jw_column2RdfType : gmap string string; jw_MainRuleFile : string;
  jw_errorOutputCh : option OutputChannel; jw_builder : BuilderKeys; jw_groupingKey : option HashEvaluator;
  jw_errorCount : Z; jw_nbrReteSessionsSaved : Z;
  jw_sessionGroupingKey : option string; jw_sessionRowJetsKey : option string;
  jw_reported : list ProcessError }.

Definition newProcessError (ctx : JrPoolWorker) : ProcessError :=
  let pe := NewProcessError (jw_builder ctx) "jetrules" in
  mkProcessError (PEKey pe) (pe_SessionId pe) (jw_sessionGroupingKey ctx) (jw_sessionRowJetsKey ctx) None EmptyString
    (pe_ReteSessionSaved pe) None (pe_ShardId pe) (pe_CpipesStepId pe) (pe_OperatorType pe).
Definition with_message (pe : ProcessError) (msg : string) : ProcessError :=
  mkProcessError (PEKey pe) (pe_SessionId pe) (pe_GroupingKey pe) (pe_RowJetsKey pe) (pe_InputColumn pe) msg
    (pe_ReteSessionSaved pe) (pe_ReteSessionTriples pe) (pe_ShardId pe) (pe_CpipesStepId pe) (pe_OperatorType pe).

(** The worker with these counts and error rows. *)
Definition counted (ctx : JrPoolWorker) (errorCount saved : Z) (reported : list ProcessError) : JrPoolWorker :=
  mkWorker (jw_config ctx) (jw_HasGroupedRows ctx) (jw_rdfType2Columns ctx) (jw_multiValueDataProperties ctx)
    (jw_column2RdfType ctx) (jw_MainRuleFile ctx) (jw_errorOutputCh ctx) (jw_builder ctx) (jw_groupingKey ctx)
    errorCount saved (jw_sessionGroupingKey ctx) (jw_sessionRowJetsKey ctx) reported.

(** [errorCount++], and the row when it is among the first [MaxErrorCount] and there is
    an error channel; [saved] is the number of sessions saved once the row is written. *)
Definition report (ctx : JrPoolWorker) (peRow : ProcessError) (saved : Z) : JrPoolWorker :=
  let errorCount := jw_errorCount ctx + 1 in
  if (errorCount <=? js_MaxErrorCount (jw_config ctx)) && is_some (jw_errorOutputCh ctx)
  then counted ctx errorCount saved (jw_reported ctx ++ [peRow])%list
  else counted ctx errorCount (jw_nbrReteSessionsSaved ctx) (jw_reported ctx).

Definition report_exception (s : session) (ctx : JrPoolWorker) (hasException : string) : JrPoolWorker :=
  let peRow := with_message (newProcessError ctx) ("jets:exception caught: " +:+ hasException) in
  let saved := jw_nbrReteSessionsSaved ctx in
  if (0 <? js_MaxReteSessionsSaved (jw_config ctx)) && (saved <? js_MaxReteSessionsSaved (jw_config ctx)) then
    report ctx
      (mkProcessError (PEKey peRow) (pe_SessionId peRow) (pe_GroupingKey peRow) (pe_RowJetsKey peRow) (pe_InputColumn peRow)
         (pe_ErrorMessage peRow) "Y" (Some (EncodeRdfSession s)) (pe_ShardId peRow) (pe_CpipesStepId peRow) (pe_OperatorType peRow))
      (saved + 1)
  else report ctx peRow saved.

Definition reportRuleSet (ctx : JrPoolWorker) (s : session) (rs : RuleSetOutcome) : JrPoolWorker :=
  let ctx :=
    match rs_ExecuteErr rs with
    | Some e => report ctx (with_message (newProcessError ctx) ("ExecuteRules returned error: " +:+ e)) (jw_nbrReteSessionsSaved ctx)
    | None => ctx
    end in
  let ctx :=
    if rs_MaxLoopReached rs
    then report ctx (with_message (newProcessError ctx) ("MAX LOOP REACHED, maxLooping is " +:+ Itoa (rs_MaxLooping rs))) (jw_nbrReteSessionsSaved ctx)
    else ctx in
  foldl (report_exception s) ctx (rs_Exceptions rs).

(** ** The keys of a session *)
Definition inputRowJetsKey (config : JetrulesSpec) (row : record) : string :=
  match row with
  | VStr jetsKey :: _ => jetsKey
  | _ => if (length row <? 3)%nat then EmptyString else ComputeRowHash (drop 3 row) (js_CurrentSourcePeriod config)
  end.

Definition with_keys (ctx : JrPoolWorker) (grouping rowKey : option string) : JrPoolWorker :=
  mkWorker (jw_config ctx) (jw_HasGroupedRows ctx) (jw_rdfType2Columns ctx) (jw_multiValueDataProperties ctx)
    (jw_column2RdfType ctx) (jw_MainRuleFile ctx) (jw_errorOutputCh ctx) (jw_builder ctx) (jw_groupingKey ctx)
    (jw_errorCount ctx) (jw_nbrReteSessionsSaved ctx) grouping rowKey (jw_reported ctx).
Definition not_empty (s : string) : option string := if String.eqb s EmptyString then None else Some s.

(** The first row of the records and their number. *)
Definition first_row (ctx : JrPoolWorker) (inputRecords : record) : option (record * nat) :=
  match inputRecords with
  | [] => None
  | v :: _ =>
      if jw_HasGroupedRows ctx then match v with VSlice row => Some (row, length inputRecords) | _ => None end
      else Some (inputRecords, 1%nat)
  end.
Definition setSessionKeys (ctx : JrPoolWorker) (inputRecords : record) : res JrPoolWorker :=
  match first_row ctx inputRecords with
  | None => Ret (with_keys ctx None None)
  | Some (firstRow, nrows) =>
      let rowKey := if (nrows =? 1)%nat then not_empty (inputRowJetsKey (jw_config ctx) firstRow) else None in
      match jw_groupingKey ctx with
      | None => Ret (with_keys ctx None rowKey)
      | Some he =>
          match ComputeDomainKey he firstRow with
          | Ret VNil | Fail _ => Ret (with_keys ctx None rowKey)
          | Ret value => Ret (with_keys ctx (not_empty (sprint_v value)) rowKey)
          | Panic e => Panic e
          | Loop => Loop
          end
      end
  end.

Definition subjectJetsKey (s : session) (subject : node) : string :=
  match GetObject s subject Jets__key with
  | Some obj =>
      match GetRdfNodeValue obj with
      | VStr key => if String.eqb key EmptyString then NodeString subject else key
      | _ => NodeString subject
      end
  | None => NodeString subject
  end.

(** ** Asserting the input *)
Definition NewRdfNode (inValue : any) : res node :=
  match inValue with
  | VStr vv => Ret (NewTextLiteral vv)
  | VInt vv | VInt64 vv | VInt32 vv => Ret (NewIntLiteral vv)
  | VUint vv | VUint64 vv | VUint32 vv => Ret (NewUIntLiteral vv)
  | VF64 vv | VF32 vv => Ret (NewDoubleLiteral vv)
  | VTime vv =>
      if t_daysec vv =? 0 then Ret (NewDateDetails (t_Year vv) (t_Month vv) (t_Day vv))
      else Ret (NewDatetimeDetails (t_Year vv) (t_Month vv) (t_Day vv) (t_daysec vv / 3600) (t_daysec vv / 60 mod 60) (t_daysec vv mod 60))
  | _ => Fail "error: unknown type for NewRdfNode"
  end.

(** [err = rdfSession.Insert(...)], with the session it leaves. *)
Definition insert_triple (s : session) (subject predicate object : node) : session * res unit :=
  let '(s, err) := Insert s subject predicate object in
  (s, match err with Some e => Fail e | None => Ret tt end).
(** A statement that may end the function, then the rest. *)
Definition then_do {A} (m : session * res A) (k : session → session * res A) : session * res A :=
  match m with
  | (s, Ret _) => k s
  | (s, r) => (s, r)
  end.

Fixpoint assert_types (subject : node) (rdfTypes : list any) (s : session) : session * res unit :=
  match rdfTypes with
  | [] => (s, Ret tt)
  | VStr t :: rdfTypes => then_do (insert_triple s subject Rdf__type (NewResource t)) (assert_types subject rdfTypes)
  | _ :: _ => (s, Panic "interface conversion: interface {} is not string")
  end.
Definition assert_value (subject predicate : node) (msg : string) (value : any) (s : session) : session * res unit :=
  match NewRdfNode value with
  | Ret n => insert_triple s subject predicate n
  | Fail e => (s, Fail (msg +:+ e))
  | Panic e => (s, Panic e)
  | Loop => (s, Loop)
  end.
Fixpoint assert_values (subject predicate : node) (values : list any) (s : session) : session * res unit :=
  match values with
  | [] => (s, Ret tt)
  | value :: values =>
      then_do (assert_value subject predicate "while NewRdfNode for value in array: " value s) (assert_values subject predicate values)
  end.
(** The predicate of field [j], or nothing for the three that are asserted apart. *)
Definition field_predicate (columns : list string) (j : nat) : option node :=
  match columns !! j with
  | Some cname =>
      if existsb (String.eqb cname) ["rdf:type"; "jets:key"; "jets:source_period_sequence"] then None
      else Some (NewResource cname)
  | None => Some (NewResource ("column" +:+ Itoa (Z.of_nat j)))
  end.
Fixpoint assert_fields (subject : node) (columns : list string) (j : nat) (fields : record) (s : session) : session * res unit :=
  match fields with
  | [] => (s, Ret tt)
  | v :: fields =>
      then_do
        (match field_predicate columns j with
         | None => (s, Ret tt)
         | Some predicate =>
             match v with
             | VNil => (s, Ret tt)
             | VSlice vv => assert_values subject predicate vv s
             | _ => assert_value subject predicate "while NewRdfNode: " v s
             end
         end)
        (assert_fields subject columns (S j) fields)
  end.

(** The types of a row, from its second field or the configuration. *)
Definition row_types (config : JetrulesSpec) (row : record) : res (list any) :=
  let! v := at_pos row 1 in
  match v with
  | VSlice rdfTypes => Ret rdfTypes
  | _ =>
      if String.eqb (js_InputRdfType config) EmptyString
      then Fail "error: input rdf:Type not provided and invalid rdf:type in the row"
      else Ret [VStr (js_InputRdfType config)]
  end.
(** [rdfTypes[0].(string)]. *)
Definition first_type (rdfTypes : list any) : res string :=
  match rdfTypes with
  | [] => Panic out_of_range
  | VStr t :: _ => Ret t
  | _ => Panic "interface conversion: interface {} is not string"
  end.

Definition assertInputRow (config : JetrulesSpec) (rdfType2Columns : gmap string (list string)) (row : record) (s : session)
  : session * res unit :=
  let jetsKey := inputRowJetsKey config row in
  match (let! rdfTypes := row_types config row in
         let! assertType := first_type rdfTypes in
         match default [] (rdfType2Columns !! assertType) with
         | [] => Fail ("error: no columns found for rdf:type " +:+ assertType +:+ " in input record")
         | columns => let! seq := at_pos row 2 in Ret (rdfTypes, columns, seq)
         end) with
  | Ret (rdfTypes, columns, seq) =>
          let subject := NewResource jetsKey in
          then_do (insert_triple s subject Jets__key (NewTextLiteral jetsKey)) (λ s,
          then_do (assert_types subject rdfTypes s) (λ s,
          let sequence := match seq with VInt z => z | _ => -1 end in
          then_do (if sequence =? -1 then insert_triple s subject Rdf__type Jets__input_record else (s, Ret tt)) (λ s,
          let sequence := if sequence =? -1 then js_CurrentSourcePeriod config else sequence in
          then_do (insert_triple s subject Jets__source_period_sequence (NewIntLiteral (i64 (js_CurrentSourcePeriod config - sequence)))) (λ s,
          assert_fields subject columns 0 row s))))
  | Fail e => (s, Fail e)
  | Panic e => (s, Panic e)
  | Loop => (s, Loop)
  end.

Fixpoint assert_bundle (config : JetrulesSpec) (cols : gmap string (list string)) (i : nat) (records : record) (s : session) : session * res unit :=
  match records with
  | [] => (s, Ret tt)
  | VSlice row :: records =>
      match assertInputRow config cols row s with
      | (s, Ret _) => assert_bundle config cols (S i) records s
      | (s, Fail e) => (s, Fail ("while asserting input record " +:+ Itoa (Z.of_nat i) +:+ ": " +:+ e))
      | r => r
      end
  | _ :: _ => (s, Fail "error: inputRecords are invalid")
  end.
Definition assertInputRecords (config : JetrulesSpec) (grouped : bool) (cols : gmap string (list string)) (records : record) (s : session)
  : session * res unit :=
  if grouped then assert_bundle config cols 0 records s
  else match assertInputRow config cols records s with
       | (s, Fail e) => (s, Fail ("while asserting input records: " +:+ e))
       | r => r
       end.

(** *** Rows of text *)

(** A data property of the workspace. *)
Record PropertyNode := mkPropertyNode { pn_Type : string; pn_AsArray : bool }.
Record CastRow := mkCastRow { cast_assertType : string; cast_layout : list string; cast_row : record }.

(** The loop over the columns: the three fields with a place of their own, and the others. *)
Fixpoint cast_cells (dpMap : gmap string PropertyNode) (columns cells : list string) (layout : list string) (row : record)
  : res (list string * record) :=
  match columns, cells with
  | column :: columns, cell :: cells =>
      match dpMap !! column with
      | None => Fail ("error: column '" +:+ column +:+ "' is not a data property of the workspace")
      | Some dp =>
          let isArray := pn_AsArray dp || String.eqb column "rdf:type" in
          match castToRdfTypeFromTxt cell (pn_Type dp) (Some isArray) with
          | Ret v =>
              if String.eqb column "jets:key" then cast_cells dpMap columns cells layout (<[0%nat := v]> row)
              else if String.eqb column "rdf:type" then cast_cells dpMap columns cells layout (<[1%nat := v]> row)
              else if String.eqb column "jets:source_period_sequence" then cast_cells dpMap columns cells layout (<[2%nat := v]> row)
              else cast_cells dpMap columns cells (layout ++ [column])%list (row ++ [v])%list
          | Fail e => Fail ("error: column '" +:+ column +:+ "' value '" +:+ cell +:+ "' is not a " +:+ pn_Type dp +:+ ": " +:+ e)
          | Panic e => Panic e
          | Loop => Loop
          end
      end
  | _, _ => Ret (layout, row)
  end.
Definition CastTextRow (config : JetrulesSpec) (dataProperties : res (gmap string PropertyNode)) (columns cells : list string) : res CastRow :=
  if negb (Nat.eqb (length cells) (length columns)) then Fail "error: row has cells for columns"
  else
    let! dpMap := dataProperties in
    let! '(layout, row) := cast_cells dpMap columns cells ["jets:key"; "rdf:type"; "jets:source_period_sequence"] [VNil; VNil; VNil] in
    match row !! 1%nat with
    | Some (VSlice (t :: types)) =>
        match t with
        | VStr assertType => Ret (mkCastRow assertType layout row)
        | _ => Fail "error: rdf:type value is not a resource name"
        end
    | _ => Ret (mkCastRow (js_InputRdfType config) layout (<[1%nat := VNil]> row))
    end.
Definition AssertCastRow (config : JetrulesSpec) (cr : CastRow) (s : session) : session * res unit :=
  assertInputRow config {[cast_assertType cr := cast_layout cr]} (cast_row cr) s.
Definition AssertTextRow (config : JetrulesSpec) (dataProperties : res (gmap string PropertyNode)) (columns cells : list string) (s : session)
  : session * res unit :=
  match CastTextRow config dataProperties columns cells with
  | Ret cr => AssertCastRow config cr s
  | Fail e => (s, Fail e)
  | Panic e => (s, Panic e)
  | Loop => (s, Loop)
  end.

(** ** Extracting the output *)

(** Whether a subject is of the current source period, and the error of its reading. *)
Definition keepObjectForCurrentSourcePeriod (s : session) (subject : node) : bool * option string :=
  match GetObject s subject Jets__source_period_sequence with
  | Some obj =>
      if is_some (Value obj) then
        let '(keepObj, sourcePeriod, err) :=
          match GetRdfNodeValue obj with
          | VInt v => (true, v, None)
          | VStr v => match Atoi v with Some n => (true, n, None) | None => (false, -1, Some "strconv.Atoi") end
          | _ => (false, -1, None)
          end in
        (if sourcePeriod =? 0 then keepObj && SContains s subject Rdf__type Jets__input_record else false, err)
      else (true, None)
  | None => (true, None)
  end.

(** [columnReader]: [cr_slotOf] is nil when a predicate has no key. *)
Record columnReader := mkColumnReader {
  cr_names : list string; cr_colSlot : list (option nat); cr_preds : list node; cr_slotOf : option (gmap Z nat);
  cr_objects : list (list node) }.

Definition from_graph (outChannel : JetrulesOutputChan) (p : string) : bool :=
  negb (is_some (jo_JrColumnEncodings outChannel !! p) || String.eqb p "rdf:type" || String.eqb p "jets:source_period_sequence").
(** The loop of [newColumnReader]: the names, the slots by name, the slots of the columns. *)
Fixpoint add_slots (outChannel : JetrulesOutputChan) (columns names : list string) (slot : gmap string nat) (colSlot : list (option nat))
  : list string * list (option nat) :=
  match columns with
  | [] => (names, colSlot)
  | p :: columns =>
      if from_graph outChannel p then
        match slot !! p with
        | Some k => add_slots outChannel columns names slot (colSlot ++ [Some k])%list
        | None =>
            let k := length names in
            add_slots outChannel columns (names ++ [p])%list (<[p := k]> slot) (colSlot ++ [Some k])%list
        end
      else add_slots outChannel columns names slot (colSlot ++ [None])%list
  end.
Definition newColumnReader (columns : list string) (outChannel : JetrulesOutputChan) : columnReader :=
  let '(names, colSlot) := add_slots outChannel columns [] ∅ [] in
  mkColumnReader names colSlot [] None (repeat [] (length names)).

(** The loop of [bind]. *)
Fixpoint bind_slots (names : list string) (k : nat) (preds : list node) (slotOf : option (gmap Z nat)) : list node * option (gmap Z nat) :=
  match names with
  | [] => (preds, slotOf)
  | name :: names =>
      let pred := NewResource name in
      let slotOf := match NodeKey pred with None => None | Some key => (λ m, <[key := k]> m) <$> slotOf end in
      bind_slots names (S k) (preds ++ [pred])%list slotOf
  end.
Definition bind (r : columnReader) : columnReader :=
  let '(preds, slotOf) := bind_slots (cr_names r) 0 [] (Some ∅) in
  mkColumnReader (cr_names r) (cr_colSlot r) preds slotOf (cr_objects r).

(** [r.objects[s] = append(r.objects[s], o)]. *)
Definition append_object (objects : list (list node)) (k : nat) (o : node) : list (list node) :=
  alter (λ l, (l ++ [o])%list) k objects.
(** One pass over the triples of the subject. *)
Definition read_triple (slotOf : gmap Z nat) (objects : list (list node)) (t : node * node) : list (list node) :=
  match NodeKey t.1 ≫= (slotOf !!.) with
  | Some k => append_object objects k t.2
  | None => objects
  end.
Definition read (r : columnReader) (s : session) (subject : node) : columnReader :=
  let cleared := repeat [] (length (cr_objects r)) in
  let objects :=
    match cr_objects r with
    | [] => cleared
    | _ =>
        match cr_slotOf r with
        | None => (λ p, default [] (FindSP s subject p)) <$> cr_preds r
        | Some slotOf => foldl (read_triple slotOf) cleared (default [] (FindS s subject))
        end
    end in
  mkColumnReader (cr_names r) (cr_colSlot r) (cr_preds r) (cr_slotOf r) objects.
Definition column (r : columnReader) (i : nat) : list node :=
  match cr_colSlot r !! i with
  | Some (Some k) => default [] (cr_objects r !! k)
  | _ => []
  end.

(** [reportMultipleValues]. *)
Definition reportMultipleValues (ctx : JrPoolWorker) (s : session) (subject : node) (pname msg : string) : JrPoolWorker :=
  let pe := newProcessError ctx in
  report ctx
    (mkProcessError (PEKey pe) (pe_SessionId pe) (pe_GroupingKey pe) (Some (subjectJetsKey s subject)) (Some pname) msg
       (pe_ReteSessionSaved pe) (pe_ReteSessionTriples pe) (pe_ShardId pe) (pe_CpipesStepId pe) (pe_OperatorType pe))
    (jw_nbrReteSessionsSaved ctx).

(** The loop over the objects: [data] and, once it is one, the array. *)
Fixpoint collect_values (objects : list node) (data : any) (dataArr : option (list any)) : any * option (list any) :=
  match objects with
  | [] => (data, dataArr)
  | o :: objects =>
      let value := GetRdfNodeValue o in
      if is_nil data then collect_values objects value dataArr
      else collect_values objects data (Some match dataArr with Some arr => (arr ++ [value])%list | None => [data; value] end)
  end.
Definition extractLiteralValue (ctx : JrPoolWorker) (s : session) (subject : node) (pname : string) (objects : list node)
  (currentSourcePeriod : Z) (outChannel : JetrulesOutputChan) : JrPoolWorker * any :=
  if String.eqb pname "jets:source_period_sequence" then (ctx, VInt currentSourcePeriod)
  else if String.eqb pname "rdf:type" then (ctx, VSlice [VStr (jo_ClassName outChannel)])
  else
    let '(data, dataArr) := collect_values objects VNil None in
    if bool_decide (pname ∈ jw_multiValueDataProperties ctx) then
      (ctx, VSlice (default [data] dataArr))
    else
      match dataArr with
      | None => (ctx, data)
      | Some dataArr =>
          if bool_decide (jw_column2RdfType ctx !! pname = Some "text") then
            (reportMultipleValues ctx s subject pname
               ("property " +:+ pname +:+ " is not multi-value but has " +:+ Itoa (Z.of_nat (length dataArr)) +:+
                " text values for subject " +:+ NodeString subject +:+ ", keeping all of them as an array"), VSlice dataArr)
          else
            (reportMultipleValues ctx s subject pname
               ("property " +:+ pname +:+ " is not multi-value but has multiple values for subject " +:+ NodeString subject +:+
                ", setting value to null"), VNil)
      end.

Fixpoint entity_fields (ctx : JrPoolWorker) (s : session) (subject : node) (cols : columnReader) (currentSourcePeriod : Z)
  (outChannel : JetrulesOutputChan) (columns : list string) (i : nat) : JrPoolWorker * record :=
  match columns with
  | [] => (ctx, [])
  | p :: columns =>
      let '(ctx, v) :=
        match jo_JrColumnEncodings outChannel !! p with
        | Some encode => (ctx, encode s subject)
        | None => extractLiteralValue ctx s subject p (column cols i) currentSourcePeriod outChannel
        end in
      let '(ctx, row) := entity_fields ctx s subject cols currentSourcePeriod outChannel columns (S i) in
      (ctx, v :: row)
  end.
Definition entityRow (ctx : JrPoolWorker) (s : session) (subject : node) (columns : list string) (cols : columnReader)
  (currentSourcePeriod : Z) (outChannel : JetrulesOutputChan) : JrPoolWorker * record :=
  entity_fields ctx s subject (read cols s subject) currentSourcePeriod outChannel columns 0.

(** The loop over the subjects of a class: the column evaluators update the row in place,
    each reading what the one before wrote. *)
Fixpoint extract_subjects (ctx : JrPoolWorker) (n : nat) (s : session) (columns : list string) (cols : columnReader)
  (outChannel : JetrulesOutputChan) (evaluators : list columnEval) (subjects : list node)
  : JrPoolWorker * nat * list columnEval * list record * res unit :=
  match subjects with
  | [] => (ctx, n, evaluators, [], Ret tt)
  | subject :: subjects =>
      match keepObjectForCurrentSourcePeriod s subject with
      | (true, None) =>
          let '(ctx, row) := entityRow ctx s subject columns cols (js_CurrentSourcePeriod (jw_config ctx)) outChannel in
          let '(evaluators, o) :=
            update_list (Update map_order) "while calling column transformation from jetrules extract session data" evaluators n row None in
          match o_res o with
          | Ret _ =>
              let '(ctx, n, evaluators, rows, r) := extract_subjects ctx (o_n o) s columns cols outChannel evaluators subjects in
              (ctx, n, evaluators, o_cur o :: rows, r)
          | r => (ctx, o_n o, evaluators, [], r)
          end
      | _ => extract_subjects ctx n s columns cols outChannel evaluators subjects
      end
  end.
Definition nil_iterator : string := "runtime error: invalid memory address or nil pointer dereference".
Definition extractSessionData (ctx : JrPoolWorker) (n : nat) (s : session) (outChannel : JetrulesOutputChan)
  : JrPoolWorker * nat * JetrulesOutputChan * list record * res unit :=
  let columns := oc_ConfigColumns (jo_OutputCh outChannel) in
  let cols := bind (newColumnReader columns outChannel) in
  match FindPO s Rdf__type (NewResource (jo_ClassName outChannel)) with
  | None => (ctx, n, outChannel, [], Panic nil_iterator)
  | Some subjects =>
      let '(ctx, n, evaluators, rows, r) :=
        extract_subjects ctx n s columns cols outChannel (jo_ColumnEvaluators outChannel) subjects in
      (ctx, n, mkJetrulesOut (jo_ClassName outChannel) (jo_JrColumnEncodings outChannel) evaluators (jo_OutputCh outChannel), rows, r)
  end.

(** ** [executeRules] *)

(** The loop over the output channels: the rows sent to each, in their order. *)
Fixpoint extract_channels (ctx : JrPoolWorker) (n : nat) (s : session) (outs : list JetrulesOutputChan)
  : JrPoolWorker * nat * list JetrulesOutputChan * list (string * list record) * res unit :=
  match outs with
  | [] => (ctx, n, [], [], Ret tt)
  | out :: outs =>
      let '(ctx, n, out, rows, r) := extractSessionData ctx n s out in
      let sent := (oc_Name (jo_OutputCh out), rows) in
      match r with
      | Ret _ =>
          let '(ctx, n, outs, later, r) := extract_channels ctx n s outs in
          (ctx, n, out :: outs, sent :: later, r)
      | Fail e => (ctx, n, out :: outs, [sent], Fail ("while extraction entity from jetrules for class " +:+ jo_ClassName out +:+ ": " +:+ e))
      | r => (ctx, n, out :: outs, [sent], r)
      end
  end.

(** What a bundle leaves: the worker and its channels, the rows sent, the error that ends the
    step, and whether that error is a panic that the deferred function recovered. *)
Record bundle_out := mkBundle {
  bo_ctx : JrPoolWorker; bo_n : nat; bo_outs : list JetrulesOutputChan; bo_sent : list (string * list record); bo_err : option string;
  bo_panicked : bool }.
Definition recovered (ctx : JrPoolWorker) (n : nat) (outs : list JetrulesOutputChan) (sent : list (string * list record)) (r : res unit) : bundle_out :=
  mkBundle ctx n outs sent
    match r with
    | Ret _ => None
    | Fail e => Some e
    | Panic e => Some ("executeRules: recovered error: " +:+ e)
    | Loop => Some "loop"
    end (match r with Panic _ => true | _ => false end).

(** [session0] is what [NewRdfSession] gives. *)
Definition executeRules (ctx : JrPoolWorker) (n : nat) (outs : list JetrulesOutputChan) (session0 : res session) (inputRecords : record) : bundle_out :=
  match setSessionKeys ctx inputRecords with
  | Ret ctx =>
      match session0 with
      | Ret s =>
          let '(ctx, s, r) :=
            RunRuleSets (assertInputRecords (jw_config ctx) (jw_HasGroupedRows ctx) (jw_rdfType2Columns ctx) inputRecords)
              reportRuleSet (js_MaxLooping (jw_config ctx)) (jw_MainRuleFile ctx) ctx s in
          match r with
          | Ret outcome =>
              match ro_Err outcome with
              | Some e => mkBundle ctx n outs [] (Some e) false
              | None =>
                  if Failed outcome && String.eqb (js_OnError (jw_config ctx)) OnErrorDrop then mkBundle ctx n outs [] None false
                  else if Failed outcome && String.eqb (js_OnError (jw_config ctx)) OnErrorFail
                  then mkBundle ctx n outs [] (Some "jetrules: record bundle failed rule execution (on_error: fail)") false
                  else
                    let '(ctx, n, outs, sent, r) := extract_channels ctx n s outs in
                    recovered ctx n outs sent r
              end
          | Fail e => recovered ctx n outs [] (Fail e)
          | Panic e => recovered ctx n outs [] (Panic e)
          | Loop => recovered ctx n outs [] Loop
          end
      | Fail e => mkBundle ctx n outs [] (Some ("error: while creating new rdf session: " +:+ e)) false
      | Panic e => recovered ctx n outs [] (Panic e)
      | Loop => recovered ctx n outs [] Loop
      end
  | Fail e => recovered ctx n outs [] (Fail e)
  | Panic e => recovered ctx n outs [] (Panic e)
  | Loop => recovered ctx n outs [] Loop
  end.
End worker.
Arguments JetrulesOutputChan {_} _ _.
Arguments mkJetrulesOut {_ _ _}.
Arguments jo_ClassName {_ _ _}.
Arguments jo_JrColumnEncodings {_ _ _}.
Arguments jo_ColumnEvaluators {_ _ _}.
Arguments jo_OutputCh {_ _ _}.
