(* ===== verification/RuleWorkerLaws.v ===== *)
(** * What the worker of the rules operator reports and extracts

    The one pass over a subject's triples reads what one [FindSP] per column would; the
    values of a row follow the cardinality of their properties; the failures of a bundle are
    logged, the error rows are the first of them up to the maximum, and the policy on errors
    is applied whatever panics. *)
From stdpp Require Import base list strings gmap.
From Stdlib Require Import ZArith Lia SpecFloat.
From S2P Require Import Prelude GoFloat GoText GoValue EvalOperators RdfCast EvalExpression.
From S2P Require Import Records HashKey Cleansing ColumnEval ColumnBuild Pipes RuleSession RuleSessionLaws RuleWorker.
Local Open Scope Z_scope.

Section reader.
Context {node session : Type} `{EqDecision node} `{RuleEngine node session} `{GoRegexp}.

Lemma lookup_repeat {A} (a : A) n k : (k < n)%nat → repeat a n !! k = Some a.
Proof. revert k. induction n as [|n IH]; intros [|k] Hk; [lia..|done|]. cbn. apply IH. lia. Qed.

(** ** Slots *)
Definition slots_of (slot : gmap string nat) (names : list string) : Prop := ∀ p k, slot !! p = Some k ↔ names !! k = Some p.

Lemma slots_of_new slot names q : slots_of slot names → slot !! q = None → slots_of (<[q := length names]> slot) (names ++ [q]).
Proof.
  intros Hs Hq p' k'. destruct (decide (p' = q)) as [->|Hne].
    - rewrite lookup_insert_eq. split; [intros [= <-]; by apply list_lookup_middle|].
      intros [Hk|[Hk Hl]]%lookup_app_Some; [apply Hs in Hk; congruence|].
      apply list_lookup_singleton_Some in Hl as [? _]. f_equal. lia.
    - rewrite lookup_insert_ne by done. rewrite (Hs p' k'). split; [intros Hk; by apply lookup_app_l_Some|].
      intros [Hk|[Hk Hl]]%lookup_app_Some; [done|]. apply list_lookup_singleton_Some in Hl as [_ ?]. congruence.
Qed.
Lemma slots_of_NoDup slot names : slots_of slot names → NoDup names.
Proof. intros Hs. apply NoDup_alt. intros i j p Hi%Hs Hj%Hs. congruence. Qed.
Lemma add_slots_NoDup (out : JetrulesOutputChan node session) columns names slot colSlot :
  slots_of slot names → NoDup (add_slots out columns names slot colSlot).1.
Proof.
  revert names slot colSlot. induction columns as [|p columns IH]; intros names slot colSlot Hs; [by eapply slots_of_NoDup|].
  cbn [add_slots]. destruct (from_graph out p); [destruct (slot !! p) eqn:Ep|]; eauto using slots_of_new.
Qed.

Lemma add_slots_prefix (out : JetrulesOutputChan node session) columns names slot colSlot :
  names `prefix_of` (add_slots out columns names slot colSlot).1 ∧ colSlot `prefix_of` (add_slots out columns names slot colSlot).2.
Proof.
  revert names slot colSlot. induction columns as [|p columns IH]; intros names slot colSlot; [done|]. cbn [add_slots].
  destruct (from_graph out p); [destruct (slot !! p) as [k|]|].
  all: match goal with |- context [add_slots _ _ ?a ?b ?c] => destruct (IH a b c) as [H1 H2] end.
  all: split; (done || (etrans; [|eassumption]; by apply prefix_app_r)).
Qed.

Lemma add_slots_spec (out : JetrulesOutputChan node session) columns names slot colSlot i p :
  slots_of slot names → columns !! i = Some p →
  let '(names', colSlot') := add_slots out columns names slot colSlot in
  if from_graph out p then ∃ k, colSlot' !! (length colSlot + i)%nat = Some (Some k) ∧ names' !! k = Some p
  else colSlot' !! (length colSlot + i)%nat = Some None.
Proof.
  revert names slot colSlot i. induction columns as [|q columns IH]; intros names slot colSlot i Hs Hi; [done|].
  cbn [add_slots].
  destruct i as [|i]; cbn in Hi.
  - injection Hi as ->. rewrite Nat.add_0_r. destruct (from_graph out p) eqn:Ef; [destruct (slot !! p) as [k|] eqn:Ek|].
    all: match goal with |- context [add_slots ?o ?l ?a ?b ?c] =>
      destruct (add_slots_prefix o l a b c) as [Hn Hc]; destruct (add_slots o l a b c) as [names' colSlot'] end.
    + exists k. cbn in Hn, Hc. split; [eapply prefix_lookup_Some; [|done]; by apply list_lookup_middle|].
      eapply prefix_lookup_Some; [|done]. by apply Hs.
    + exists (length names). cbn in Hn, Hc. split; (eapply prefix_lookup_Some; [|done]; by apply list_lookup_middle).
    + cbn in Hc. eapply prefix_lookup_Some; [|done]. by apply list_lookup_middle.
  - replace (length colSlot + S i)%nat with (S (length colSlot) + i)%nat by lia.
    destruct (from_graph out q) eqn:Ef; [destruct (slot !! q) as [k|] eqn:Ek|].
    all: match goal with |- context [add_slots _ _ ?a ?b ?c] => specialize (IH a b c i) end.
    all: rewrite length_app, Nat.add_1_r in IH; cbn [length] in IH; apply IH; auto using slots_of_new.
Qed.

Lemma bind_slots_spec names k preds slotOf :
  let '(preds', slotOf') := bind_slots names k preds slotOf in
  preds' = (preds ++ (NewResource <$> names))%list ∧
  match slotOf' with
  | None => True
  | Some m' => ∃ m, slotOf = Some m ∧
      (∀ key j, m' !! key = Some j → m !! key = Some j ∨
         ∃ i name, names !! i = Some name ∧ j = (k + i)%nat ∧ NodeKey (NewResource name) = Some key) ∧
      (NoDup (NewResource <$> names) → (∀ a b c, NodeKey a = Some c → NodeKey b = Some c → a = b) →
       ∀ i name, names !! i = Some name → ∃ key, NodeKey (NewResource name) = Some key ∧ m' !! key = Some (k + i)%nat) ∧
      (∀ key, is_Some (m !! key) → is_Some (m' !! key))
  end.
Proof.
  revert k preds slotOf. induction names as [|name names IH]; intros k preds slotOf; cbn [bind_slots].
  - rewrite app_nil_r. split; [done|]. destruct slotOf as [m|]; [|done]. exists m. split_and!; [done|by left|done|done].
  - match goal with |- context [bind_slots names ?a ?b ?c] => specialize (IH a b c); destruct (bind_slots names a b c) as [preds' slotOf'] end.
    destruct IH as [-> IH]. split; [by rewrite <- app_assoc|]. destruct slotOf' as [m'|]; [|done].
    destruct IH as (m1 & E1 & Hin & Hout & Hstay). destruct (NodeKey (NewResource name)) as [key|] eqn:Ek; [|done].
    destruct slotOf as [m|]; [|done]. injection E1 as <-. exists m. split; [done|]. split_and!.
    + intros key' j Hj. apply Hin in Hj as [Hj|(i & nm & Hi & -> & Hk)].
      * destruct (decide (key' = key)) as [->|Hne].
        -- rewrite lookup_insert_eq in Hj. injection Hj as <-. right. exists 0%nat, name. by rewrite Nat.add_0_r.
        -- rewrite lookup_insert_ne in Hj by done. by left.
      * right. exists (S i), nm. split_and!; [done|lia|done].
    + intros Hd Hid i nm Hi. cbn in Hd. apply NoDup_cons in Hd as [Hx Hd]. destruct i as [|i]; cbn in Hi.
      * injection Hi as <-. exists key. split; [done|]. rewrite Nat.add_0_r.
        destruct (m' !! key) as [j|] eqn:Ej.
        -- apply Hin in Ej as [Ej|(i & nm & Hi & -> & Hk)]; [by rewrite lookup_insert_eq in Ej|].
           destruct Hx. rewrite (Hid _ _ _ Ek Hk). apply list_elem_of_fmap_2. by eapply list_elem_of_lookup_2.
        -- destruct (Hstay key) as [j Hj]; [rewrite lookup_insert_eq; eauto|congruence].
      * destruct (Hout Hd Hid i nm Hi) as (key' & ? & ?). exists key'. split; [done|]. by replace (k + S i)%nat with (S k + i)%nat by lia.
    + intros key' [j Hj]. apply Hstay. destruct (decide (key' = key)) as [->|Hne]; [rewrite lookup_insert_eq|rewrite lookup_insert_ne by done]; eauto.
Qed.

(** ** Reading *)

(** The key of a node is its identity; a name is one resource; [FindS] and [FindSP] walk
    the same triples in the same order. *)
Hypothesis key_identity : ∀ a b key, NodeKey a = Some key → NodeKey b = Some key → a = b.
Hypothesis resource_identity : ∀ a b, NewResource a = NewResource b → a = b.
Hypothesis finds_agree : ∀ s x p,
  default [] (FindSP s x p) = (filter (λ t, t.1 = p) (default [] (FindS s x))).*2.

Lemma foldl_read_length slotOf triples objects : length (foldl (read_triple slotOf) objects triples) = length objects.
Proof.
  revert objects. induction triples as [|t triples IH]; intros objects; [done|]. cbn. rewrite IH. unfold read_triple, append_object.
  case_match; [by rewrite length_alter|done].
Qed.
Lemma foldl_read_triple slotOf triples objects k l pred key :
  objects !! k = Some l → NodeKey pred = Some key → slotOf !! key = Some k →
  (∀ key', slotOf !! key' = Some k → key' = key) →
  foldl (read_triple slotOf) objects triples !! k = Some (l ++ (filter (λ t, t.1 = pred) triples).*2)%list.
Proof.
  intros Hl Hk Hs Hu. revert objects l Hl. induction triples as [|[p o] triples IH]; intros objects l Hl; cbn [foldl].
  - by rewrite app_nil_r.
  - destruct (decide (p = pred)) as [->|Hne].
    + rewrite filter_cons_True by done. cbn [fmap list_fmap snd]. rewrite cons_middle, app_assoc. apply IH.
      unfold read_triple. cbn. rewrite Hk. cbn. rewrite Hs. unfold append_object. by rewrite list_lookup_alter_eq, Hl.
    + rewrite filter_cons_False by done. apply IH. unfold read_triple. cbn.
      destruct (NodeKey p) as [key'|] eqn:Ep; [|done]. cbn. destruct (slotOf !! key') as [j|] eqn:Ej; [|done].
      unfold append_object. destruct (decide (j = k)) as [->|Hj]; [|by rewrite list_lookup_alter_ne].
      destruct Hne. apply (key_identity _ _ key); [|done]. by rewrite (Hu key' Ej) in Ep.
Qed.

Lemma column_reader_reads (out : JetrulesOutputChan node session) columns s x i p :
  columns !! i = Some p →
  column (read (bind (newColumnReader columns out)) s x) i =
  if from_graph out p then default [] (FindSP s x (NewResource p)) else [].
Proof.
  intros Hi. unfold newColumnReader.
  assert (Hempty : slots_of ∅ []) by (intros q k; by rewrite lookup_empty, lookup_nil).
  pose proof (add_slots_spec out columns [] ∅ [] i p Hempty Hi) as Hc.
  pose proof (add_slots_NoDup out columns [] ∅ [] Hempty) as Hd.
  destruct (add_slots out columns [] ∅ []) as [names colSlot]. cbn [length Nat.add fst] in Hc, Hd. unfold bind. cbn [cr_names cr_colSlot cr_objects].
  pose proof (bind_slots_spec names 0 [] (Some ∅)) as Hb. destruct (bind_slots names 0 [] (Some ∅)) as [preds slotOf].
  destruct Hb as [Hp Hb]. cbn in Hp. subst preds.
  unfold column, read. cbn [cr_colSlot cr_objects cr_slotOf cr_preds].
  destruct (from_graph out p); [destruct Hc as (k & -> & Hk)|by rewrite Hc].
  destruct names as [|name0 names0] eqn:En; [by rewrite lookup_nil in Hk|]. rewrite <- En in *. clear name0 names0 En.
  replace (match repeat [] (length names) with [] => _ | _ :: _ => _ end)
    with (match slotOf with
          | None => (λ q, default [] (FindSP s x q)) <$> (NewResource <$> names)
          | Some m => foldl (read_triple m) (repeat [] (length (repeat (@nil node) (length names)))) (default [] (FindS s x))
          end) by (by destruct names).
  destruct slotOf as [m|].
  - destruct Hb as (m0 & [= <-] & Hin & Hout & _).
    assert (Hd' : NoDup (NewResource <$> names)) by (apply NoDup_fmap_2; [intros a b; apply resource_identity|done]).
    destruct (Hout Hd' key_identity k p Hk) as (key & Hkey & Hm).
    rewrite (foldl_read_triple m _ _ k [] (NewResource p) key); [by rewrite finds_agree| |done|done|].
    + rewrite repeat_length. apply lookup_lt_Some in Hk. by apply lookup_repeat.
    + intros key' Hj. apply Hin in Hj as [Hj|(j & nm & Hj & -> & Hkn)]; [by rewrite lookup_empty in Hj|].
      cbn in Hk. assert (nm = p) by congruence. subst nm. congruence.
  - by rewrite !list_lookup_fmap, Hk.
Qed.
End reader.

(** ** The values of a row *)

(** Nulls before the first value are dropped. *)
Fixpoint drop_nils (vs : list any) : list any :=
  match vs with
  | VNil :: vs => drop_nils vs
  | _ => vs
  end.
(** The value of a property with these values, of one value or several. *)
Definition cardinal (multi text : bool) (vs : list any) : any :=
  match drop_nils vs with
  | [] => if multi then VSlice [VNil] else VNil
  | [v] => if multi then VSlice [v] else v
  | vs => if multi || text then VSlice vs else VNil
  end.
(** Several values of a property that takes one. *)
Definition conflicting (multi : bool) (vs : list any) : bool := negb multi && (1 <? length (drop_nils vs))%nat.

Section values.
Context {node session : Type} `{RuleEngine node session}.

Lemma collect_more objects data arr :
  is_nil data = false →
  collect_values objects data (Some arr) = (data, Some (arr ++ (GetRdfNodeValue <$> objects))%list).
Proof.
  revert arr. induction objects as [|o objects IH]; intros arr Hd; cbn [collect_values]; [by rewrite app_nil_r|].
  rewrite Hd, IH by done. by rewrite <- app_assoc.
Qed.
Lemma collect_values_spec objects :
  collect_values objects VNil None =
  match drop_nils (GetRdfNodeValue <$> objects) with
  | [] => (VNil, None)
  | [v] => (v, None)
  | v :: vs => (v, Some (v :: vs))
  end.
Proof.
  induction objects as [|o objects IH]; [done|]. cbn [collect_values is_nil fmap list_fmap].
  destruct (is_nil (GetRdfNodeValue o)) eqn:En.
  - destruct (GetRdfNodeValue o); try done.
  - assert (Hdn : drop_nils (GetRdfNodeValue o :: (GetRdfNodeValue <$> objects)) = GetRdfNodeValue o :: (GetRdfNodeValue <$> objects)).
    { by destruct (GetRdfNodeValue o). }
    rewrite Hdn. clear Hdn IH. destruct objects as [|o' objects]; [done|]. cbn [collect_values]. rewrite En, collect_more by done. done.
Qed.
End values.

(** ** Error rows *)
Section reporting.
Context `{GoArch} `{GoUnicode} `{GoFmt} `{GoZone} `{GoRegexp} `{GoUuid} `{GoClock} `{GoRand} `{DomainKeyEnv} `{GoDigits}.
Variable map_order : nat → list string → list string.
Context {node session : Type} `{EqDecision node} `{RuleEngine node session} `{Workspace}.

Definition saves (pe : ProcessError) : bool := String.eqb (pe_ReteSessionSaved pe) "Y".
(** The error rows written are the first failures, up to the maximum, and those that hold
    a session are as many as were saved. *)
Definition well_reported (ctx : JrPoolWorker) : Prop :=
  0 ≤ jw_errorCount ctx ∧
  Z.of_nat (length (jw_reported ctx)) =
    (if is_some (jw_errorOutputCh ctx) then Z.min (jw_errorCount ctx) (Z.max 0 (js_MaxErrorCount (jw_config ctx))) else 0) ∧
  Z.of_nat (length (List.filter saves (jw_reported ctx))) = jw_nbrReteSessionsSaved ctx ∧
  jw_nbrReteSessionsSaved ctx ≤ Z.max 0 (js_MaxReteSessionsSaved (jw_config ctx)).

(** [ctx'] is [ctx] after [k] more failures. *)
Definition failed_more (k : Z) (ctx ctx' : JrPoolWorker) : Prop :=
  (∃ c sv l, ctx' = counted ctx c sv l) ∧ jw_errorCount ctx' = jw_errorCount ctx + k ∧ (well_reported ctx → well_reported ctx').

Lemma failed_more_refl ctx : failed_more 0 ctx ctx.
Proof. split; [exists (jw_errorCount ctx), (jw_nbrReteSessionsSaved ctx), (jw_reported ctx); by destruct ctx|]. split; [lia|done]. Qed.
Lemma failed_more_trans a b x y z : failed_more a x y → failed_more b y z → failed_more (a + b) x z.
Proof.
  intros ((c & sv & l & ->) & E1 & W1) ((c' & sv' & l' & ->) & E2 & W2). split; [by exists c', sv', l'|]. split; [|auto].
  rewrite E2, E1. lia.
Qed.
Lemma report_failed ctx pe saved :
  (saves pe = false ∧ saved = jw_nbrReteSessionsSaved ctx) ∨
  (saves pe = true ∧ saved = jw_nbrReteSessionsSaved ctx + 1 ∧ saved ≤ js_MaxReteSessionsSaved (jw_config ctx)) →
  failed_more 1 ctx (report ctx pe saved).
Proof.
  intros Hs. unfold report. split; [case_match; eauto|]. split; [by case_match|].
  intros (R1 & R2 & R3 & R4). destruct (is_some (jw_errorOutputCh ctx)) eqn:Ec.
  - rewrite andb_true_r. destruct (Z.leb_spec (jw_errorCount ctx + 1) (js_MaxErrorCount (jw_config ctx)));
      unfold well_reported; cbn; rewrite Ec.
    + rewrite length_app, List.filter_app, length_app. cbn. split_and!; [lia|lia| |]; destruct Hs as [[Es ->]|(Es & -> & ?)]; rewrite ?Es; cbn; lia.
    + split_and!; lia.
  - rewrite andb_false_r. unfold well_reported; cbn; rewrite Ec. split_and!; lia.
Qed.

(** ** The rows of a class *)
Implicit Types out : JetrulesOutputChan node session.

(** The values of a property, as [FindSP] gives them. *)
Definition values_of (s : session) (x : node) (p : string) : list any := GetRdfNodeValue <$> default [] (FindSP s x (NewResource p)).
Definition is_multi (ctx : JrPoolWorker) (p : string) : bool := bool_decide (p ∈ jw_multiValueDataProperties ctx).
Definition field_value (ctx : JrPoolWorker) out (s : session) (x : node) (p : string) : any :=
  match jo_JrColumnEncodings out !! p with
  | Some encode => encode s x
  | None =>
      if String.eqb p "jets:source_period_sequence" then VInt (js_CurrentSourcePeriod (jw_config ctx))
      else if String.eqb p "rdf:type" then VSlice [VStr (jo_ClassName out)]
      else cardinal (is_multi ctx p) (bool_decide (jw_column2RdfType ctx !! p = Some "text"%string)) (values_of s x p)
  end.
Definition field_conflict (ctx : JrPoolWorker) out (s : session) (x : node) (p : string) : bool :=
  from_graph out p && conflicting (is_multi ctx p) (values_of s x p).
Definition conflicts (ctx : JrPoolWorker) out (s : session) (x : node) (columns : list string) : Z :=
  Z.of_nat (length (List.filter (field_conflict ctx out s x) columns)).

Lemma extractLiteralValue_spec ctx s x p out :
  jo_JrColumnEncodings out !! p = None →
  let objects := if from_graph out p then default [] (FindSP s x (NewResource p)) else [] in
  let '(ctx', v) := extractLiteralValue ctx s x p objects (js_CurrentSourcePeriod (jw_config ctx)) out in
  v = field_value ctx out s x p ∧ failed_more (if field_conflict ctx out s x p then 1 else 0) ctx ctx'.
Proof.
  intros He. unfold field_value, field_conflict, extractLiteralValue, from_graph. rewrite He. cbn [is_some orb].
  destruct (String.eqb p "jets:source_period_sequence"); [rewrite orb_true_r; split; [done|apply failed_more_refl]|].
  destruct (String.eqb p "rdf:type"); [split; [done|apply failed_more_refl]|]. cbn [orb negb andb].
  rewrite collect_values_spec. fold (values_of s x p) (is_multi ctx p). unfold cardinal, conflicting.
  destruct (drop_nils (values_of s x p)) as [|v [|v' vs]]; cbn [length].
  - rewrite andb_false_r. destruct (is_multi ctx p); split; (done || apply failed_more_refl).
  - rewrite andb_false_r. destruct (is_multi ctx p); split; (done || apply failed_more_refl).
  - destruct (is_multi ctx p); [split; [done|apply failed_more_refl]|]. cbn [orb negb andb].
    destruct (bool_decide _); split; (done || (apply report_failed; by left)).
Qed.

Lemma field_value_counted ctx c sv l out s x p : field_value (counted ctx c sv l) out s x p = field_value ctx out s x p.
Proof. done. Qed.
Lemma conflicts_counted ctx c sv l out s x columns : conflicts (counted ctx c sv l) out s x columns = conflicts ctx out s x columns.
Proof. done. Qed.

Hypothesis key_identity : ∀ a b key, NodeKey a = Some key → NodeKey b = Some key → a = b.
Hypothesis resource_identity : ∀ a b, NewResource a = NewResource b → a = b.
Hypothesis finds_agree : ∀ s x p, default [] (FindSP s x p) = (filter (λ t, t.1 = p) (default [] (FindS s x))).*2.

Lemma entity_fields_spec ctx s x out all columns i :
  drop i all = columns →
  let '(ctx', row) :=
    entity_fields ctx s x (read (bind (newColumnReader all out)) s x) (js_CurrentSourcePeriod (jw_config ctx)) out columns i in
  row = field_value ctx out s x <$> columns ∧ failed_more (conflicts ctx out s x columns) ctx ctx'.
Proof.
  revert ctx i. induction columns as [|p columns IH]; intros ctx i Hd; cbn [entity_fields]; [split; [done|apply failed_more_refl]|].
  assert (Hp : all !! i = Some p) by (rewrite <- (Nat.add_0_r i), <- lookup_drop, Hd; done).
  assert (Hd' : drop (S i) all = columns) by (rewrite (drop_S all p i Hp) in Hd; congruence).
  pose proof (column_reader_reads key_identity resource_identity finds_agree out all s x i p Hp) as Hc.
  assert (Hf : let '(ctx', v) := match jo_JrColumnEncodings out !! p with
      | Some encode => (ctx, encode s x)
      | None => extractLiteralValue ctx s x p (column (read (bind (newColumnReader all out)) s x) i) (js_CurrentSourcePeriod (jw_config ctx)) out
      end in
      v = field_value ctx out s x p ∧ failed_more (if field_conflict ctx out s x p then 1 else 0) ctx ctx').
  { destruct (jo_JrColumnEncodings out !! p) as [encode|] eqn:Ee.
    - unfold field_value, field_conflict, from_graph. rewrite Ee. split; [done|apply failed_more_refl].
    - rewrite Hc. by apply extractLiteralValue_spec. }
  destruct (match jo_JrColumnEncodings out !! p with Some _ => _ | None => _ end) as [ctx1 v]. destruct Hf as [-> Hf].
  pose proof Hf as ((c & sv & l & Ec) & _). specialize (IH ctx1 (S i) Hd').
  assert (Hp1 : js_CurrentSourcePeriod (jw_config ctx1) = js_CurrentSourcePeriod (jw_config ctx)) by (by subst ctx1).
  rewrite Hp1 in IH. destruct (entity_fields ctx1 _ _ _ _ _ _ _) as [ctx2 row]. destruct IH as [-> IH].
  split; [by subst ctx1|]. unfold conflicts. cbn [List.filter].
  replace (Z.of_nat (length (if field_conflict ctx out s x p then p :: List.filter (field_conflict ctx out s x) columns
      else List.filter (field_conflict ctx out s x) columns)))
    with ((if field_conflict ctx out s x p then 1 else 0) + conflicts ctx out s x columns)
    by (unfold conflicts; destruct (field_conflict ctx out s x p); cbn [length]; lia).
  eapply failed_more_trans; [done|]. by subst ctx1.
Qed.

(** C25. The row of an entity. It is read in one pass over the triples of the subject and holds
    what one search per column would give: each property's value by its cardinality, the
    period and the class of the channel, or the encoding of the entity; every property
    that takes one value and has several counts as one failure, reported while there are
    fewer than the maximum. *)
Theorem extracted_row ctx s x out columns :
  let '(ctx', row) :=
    entityRow ctx s x columns (bind (newColumnReader columns out)) (js_CurrentSourcePeriod (jw_config ctx)) out in
  row = field_value ctx out s x <$> columns ∧
  jw_errorCount ctx' = jw_errorCount ctx + conflicts ctx out s x columns ∧ (well_reported ctx → well_reported ctx').
Proof.
  unfold entityRow. pose proof (entity_fields_spec ctx s x out columns columns 0 eq_refl) as He.
  destruct (entity_fields _ _ _ _ _ _ _ _) as [ctx' row]. destruct He as (-> & _ & ?). done.
Qed.
End reporting.

(** ** The policy on errors *)
Section policy.
Context `{GoArch} `{GoUnicode} `{GoFmt} `{GoZone} `{GoRegexp} `{GoUuid} `{GoClock} `{GoRand} `{DomainKeyEnv} `{GoDigits}.
Variable map_order : nat → list string → list string.
Context {node session : Type} `{RuleEngine node session} `{Workspace}.
Implicit Types out : JetrulesOutputChan node session.

(** *** The failures of a bundle, as a log *)
Definition messages (ctx : JrPoolWorker) : list string := pe_ErrorMessage <$> jw_reported ctx.
(** The places left for error rows. *)
Definition room (ctx : JrPoolWorker) : nat := if is_some (jw_errorOutputCh ctx) then Z.to_nat (js_MaxErrorCount (jw_config ctx) - jw_errorCount ctx) else 0.
(** The failures [log] are counted, and the first of them have their rows. *)
Definition has_logged (log : list string) (ctx ctx' : JrPoolWorker) : Prop :=
  jw_errorCount ctx' = jw_errorCount ctx + Z.of_nat (length log) ∧ messages ctx' = (messages ctx ++ take (room ctx) log)%list ∧ (well_reported ctx → well_reported ctx').
Definition logged (log : list string) (ctx ctx' : JrPoolWorker) : Prop := (∃ c sv l, ctx' = counted ctx c sv l) ∧ has_logged log ctx ctx'.
Lemma logged_refl ctx : logged [] ctx ctx.
Proof. destruct (failed_more_refl ctx) as (Hc & _ & Hw). split; [done|]. split; [cbn; lia|]. split; [by rewrite take_nil, app_nil_r|done]. Qed.
Lemma logged_trans a b x y z : logged a x y → logged b y z → logged (a ++ b) x z.
Proof.
  intros ((c & sv & l & ->) & E1 & M1 & W1) ((c' & sv' & l' & ->) & E2 & M2 & W2). split; [by exists c', sv', l'|]. split; [rewrite E2, E1, length_app; lia|]. split; [|auto].
  rewrite M2, M1, take_app, <- app_assoc. do 3 f_equal. cbn in E1. subst c. unfold room. cbn. case_match; lia.
Qed.
Lemma logged_report ctx pe saved :
  (saves pe = false ∧ saved = jw_nbrReteSessionsSaved ctx) ∨
  (saves pe = true ∧ saved = jw_nbrReteSessionsSaved ctx + 1 ∧ saved ≤ js_MaxReteSessionsSaved (jw_config ctx)) →
  logged [pe_ErrorMessage pe] ctx (report ctx pe saved).
Proof.
  intros (Hc & He & Hw)%report_failed. split; [done|]. split; [done|]. split; [|done]. unfold report, room, messages.
  destruct (is_some (jw_errorOutputCh ctx)); [|rewrite andb_false_r; cbn; by rewrite app_nil_r]. rewrite andb_true_r.
  destruct (Z.leb_spec (jw_errorCount ctx + 1) (js_MaxErrorCount (jw_config ctx))); cbn [counted jw_reported].
  - rewrite fmap_app, take_ge by (cbn; lia). done.
  - replace (Z.to_nat _) with 0%nat by lia. by rewrite app_nil_r.
Qed.
(** The messages of what goes wrong in a rule set. *)
Definition failure_messages (rs : RuleSetOutcome) : list string :=
  (match rs_ExecuteErr rs with Some e => [("ExecuteRules returned error: " +:+ e)%string] | None => [] end ++
   (if rs_MaxLoopReached rs then [("MAX LOOP REACHED, maxLooping is " +:+ Itoa (rs_MaxLooping rs))%string] else []) ++
   ((λ e, ("jets:exception caught: " +:+ e)%string) <$> rs_Exceptions rs))%list.
Lemma reportRuleSet_logged (s : session) ctx rs : logged (failure_messages rs) ctx (reportRuleSet ctx s rs).
Proof.
  unfold reportRuleSet, failure_messages. cbv zeta.
  match goal with |- context [if rs_MaxLoopReached rs then report ?c _ _ else _] => set (c1 := c) end.
  match goal with |- context [foldl _ ?c _] => set (c2 := c) end.
  eapply (logged_trans _ _ _ c1); [|apply (logged_trans _ _ _ c2)].
  - subst c1. destruct (rs_ExecuteErr rs) as [e|]; [apply (logged_report ctx (with_message _ _)); by left|apply logged_refl].
  - subst c2. destruct (rs_MaxLoopReached rs); [apply (logged_report c1 (with_message _ _)); by left|apply logged_refl].
  - clearbody c2. clear c1. revert c2. generalize (rs_Exceptions rs). intros l.
    induction l as [|e l IH]; intros c; [apply logged_refl|]. cbn [foldl fmap list_fmap].
    apply (logged_trans [_] (_ <$> l) _ (report_exception s c e)); [|apply IH]. unfold report_exception.
    destruct ((0 <? js_MaxReteSessionsSaved (jw_config c)) && (jw_nbrReteSessionsSaved c <? js_MaxReteSessionsSaved (jw_config c))) eqn:Es.
    + match goal with |- logged _ c (report c ?pe ?sv) => apply (logged_report c pe sv) end. right. split_and!; [done|done|]. lia.
    + match goal with |- logged _ c (report c ?pe ?sv) => apply (logged_report c pe sv) end. by left.
Qed.
(** A property that takes one value and has several. *)
Definition conflict_message (msg : string) : Prop := ∃ pname rest, msg = ("property " +:+ pname +:+ " is not multi-value but has " +:+ rest)%string.
Definition some_more (ctx ctx' : JrPoolWorker) : Prop := ∃ log, Forall conflict_message log ∧ logged log ctx ctx'.
Lemma some_more_refl ctx : some_more ctx ctx.
Proof. exists []. split; [constructor|apply logged_refl]. Qed.
Lemma some_more_trans x y z : some_more x y → some_more y z → some_more x z.
Proof. intros (a & ? & ?) (b & ? & ?). exists (a ++ b)%list. split; [by apply Forall_app|by eapply logged_trans]. Qed.
Lemma reportMultipleValues_more ctx (s : session) (x : node) p msg : conflict_message msg → some_more ctx (reportMultipleValues ctx s x p msg).
Proof. intros Hm. exists [msg]. split; [by constructor|]. unfold reportMultipleValues. match goal with |- logged _ ctx (report ctx ?pe ?sv) => apply (logged_report ctx pe sv) end. by left. Qed.

Lemma extractLiteralValue_more ctx s x p objects period out : some_more ctx (extractLiteralValue ctx s x p objects period out).1.
Proof.
  unfold extractLiteralValue. destruct (collect_values objects VNil None) as [data arr].
  repeat case_match; try apply some_more_refl; apply reportMultipleValues_more; exists p; by eexists.
Qed.
Lemma entity_fields_more ctx s x cols period out columns i : some_more ctx (entity_fields ctx s x cols period out columns i).1.
Proof.
  revert ctx i. induction columns as [|p columns IH]; intros ctx i; cbn [entity_fields]; [apply some_more_refl|].
  assert (Hf : some_more ctx (match jo_JrColumnEncodings out !! p with
    | Some encode => (ctx, encode s x)
    | None => extractLiteralValue ctx s x p (column cols i) period out end).1).
  { case_match; [apply some_more_refl|apply extractLiteralValue_more]. }
  destruct (match jo_JrColumnEncodings out !! p with Some _ => _ | None => _ end) as [ctx1 v]. specialize (IH ctx1 (S i)).
  destruct (entity_fields ctx1 _ _ _ _ _ _ _) as [ctx2 row]. by eapply some_more_trans.
Qed.
Lemma extract_subjects_more ctx n s columns cols out evs subjects :
  some_more ctx (extract_subjects map_order ctx n s columns cols out evs subjects).1.1.1.1.
Proof.
  revert ctx n evs. induction subjects as [|x subjects IH]; intros ctx n evs; cbn [extract_subjects]; [apply some_more_refl|].
  destruct (keepObjectForCurrentSourcePeriod s x) as [[] [e|]]; try apply IH. unfold entityRow.
  pose proof (entity_fields_more ctx s x (read cols s x) (js_CurrentSourcePeriod (jw_config ctx)) out columns 0) as He.
  destruct (entity_fields _ _ _ _ _ _ _ _) as [ctx1 row]. destruct (update_list _ _ _ _ _ _) as [evs1 o].
  destruct (o_res o); try done. specialize (IH ctx1 (o_n o) evs1).
  destruct (extract_subjects _ ctx1 _ _ _ _ _ _ _) as [[[[ctx2 n2] evs2] rows] r]. by eapply some_more_trans.
Qed.
Lemma extract_channels_more ctx n s outs : some_more ctx (extract_channels map_order ctx n s outs).1.1.1.1.
Proof.
  revert ctx n. induction outs as [|out outs IH]; intros ctx n; cbn [extract_channels]; [apply some_more_refl|].
  assert (Hx : some_more ctx (extractSessionData map_order ctx n s out).1.1.1.1).
  { unfold extractSessionData. destruct (FindPO _ _ _) as [subjects|]; [|apply some_more_refl].
    match goal with |- context [extract_subjects ?a ?b ?c ?d ?e ?f ?g ?h ?i] => pose proof (extract_subjects_more b c d e f g h i) as Hs end.
    by destruct (extract_subjects _ _ _ _ _ _ _ _ _) as [[[[ctx2 n2] evs2] rows] r]. }
  destruct (extractSessionData _ _ _ _ _) as [[[[ctx1 n1] out1] rows] r]. destruct r; try done. specialize (IH ctx1 n1).
  destruct (extract_channels _ _ _ _ _) as [[[[ctx2 n2] outs2] later] r2]. by eapply some_more_trans.
Qed.

Lemma setSessionKeys_keys ctx records ctx' : setSessionKeys ctx records = Ret ctx' → ∃ a b, ctx' = with_keys ctx a b.
Proof.
  unfold setSessionKeys. repeat case_match; intros [= <-]; eauto.
Qed.

Definition all_messages (l : list RuleSetOutcome) : list string := mjoin (failure_messages <$> l).
(** A run has failed exactly when there is a failure to report. *)
Lemma Failed_messages l o : summarises l o → Failed o = true ↔ all_messages l ≠ [].
Proof.
  intros (_ & Em & Ee & Ex & _). unfold Failed. rewrite Em, Ee, Ex. clear o Em Ee Ex.
  induction l as [|rs l IH]; [done|]. unfold all_messages in *. cbn [fmap list_fmap mjoin list_join omap list_omap existsb]. unfold failure_messages at 1.
  destruct (rs_ExecuteErr rs), (rs_MaxLoopReached rs), (rs_Exceptions rs); cbn in *; rewrite ?orb_true_r; done.
Qed.
Lemma RunRuleSets_logged assertInput configured main ctx ctx' s s' r :
  RunRuleSets assertInput reportRuleSet configured main ctx s = (ctx', s', r) →
  (∃ l, logged (all_messages l) ctx ctx') ∧ ∀ o, r = Ret o → logged (all_messages (ro_RuleSets o)) ctx ctx'.
Proof.
  intros Hr. apply (RunRuleSets_after assertInput reportRuleSet configured (λ w l, logged (all_messages l) ctx w)) in Hr; [done| |apply logged_refl].
  intros w t rs l Hl. unfold all_messages. rewrite fmap_app, join_app. eapply logged_trans; [done|]. cbn. rewrite app_nil_r. apply reportRuleSet_logged.
Qed.
(** The rule sets on a bundle: [None] when the keys or the session of the bundle panic or
    fail. *)
Definition bundle_run (ctx : JrPoolWorker) (session0 : res session) (records : record) : option (JrPoolWorker * session * res RuleSetsOutcome) :=
  match setSessionKeys ctx records, session0 with
  | Ret ctx1, Ret s => Some (RunRuleSets (assertInputRecords (jw_config ctx) (jw_HasGroupedRows ctx) (jw_rdfType2Columns ctx) records)
      reportRuleSet (js_MaxLooping (jw_config ctx)) (jw_MainRuleFile ctx) ctx1 s)
  | _, _ => None
  end.
(** The entities are extracted: the run has no error, and no failure or a policy that lets it
    pass. *)
Definition extracts (ctx : JrPoolWorker) (o : RuleSetsOutcome) : bool :=
  negb (is_some (ro_Err o)) && (bool_decide (all_messages (ro_RuleSets o) = []) ||
    negb (String.eqb (js_OnError (jw_config ctx)) OnErrorDrop || String.eqb (js_OnError (jw_config ctx)) OnErrorFail)).

(** C24. A bundle of records, whatever happens to it: panics of the rules, of the extraction and
    of the keys, a session that cannot be made. There is a log of its failures, in order: the
    messages of the rule sets that ran (the error of the rules, the maximum of loops reached,
    the exceptions) and then the conflicts of the extraction. Every failure is counted and the
    first, as many as there is room for up to the maximum, are the error rows that are added.
    When the rule sets return, the log holds the failures of their outcome; the entities are
    extracted exactly when the run has no error and no failure, or the policy is neither drop
    nor fail, and then the rows sent are those of the channels and the step ends when the
    extraction does not return; else no row is sent and no conflict logged, and the step goes
    on only under drop with no error. When they do not return, no row is sent and the step
    ends. *)
Theorem bundle_policy ctx n outs session0 records :
  let b := executeRules map_order ctx n outs session0 records in
  ∃ ran later, has_logged (all_messages ran ++ later) ctx (bo_ctx b) ∧ Forall conflict_message later ∧
  match bundle_run ctx session0 records with
  | Some (ctx2, s', Ret o) => ran = ro_RuleSets o ∧
      if extracts ctx o
      then let '(_, _, _, sent, r) := extract_channels map_order ctx2 n s' outs in bo_sent b = sent ∧ (bo_err b = None ↔ is_ret r = true)
      else later = [] ∧ bo_sent b = [] ∧ (bo_err b = None ↔ ro_Err o = None ∧ js_OnError (jw_config ctx) = OnErrorDrop)
  | _ => later = [] ∧ bo_sent b = [] ∧ bo_err b ≠ None
  end.
Proof.
  assert (Hkeys : ∀ a b log c, logged log (with_keys ctx a b) c → has_logged log ctx c) by (intros a b log c [_ Hl]; exact Hl).
  assert (Hnone : ∀ e, ∃ ran later, has_logged (all_messages ran ++ later) ctx ctx ∧ Forall conflict_message later ∧ later = [] ∧ bo_sent (mkBundle ctx n outs [] (Some e) false) = [] ∧ Some e ≠ None).
  { intros e. exists [], []. split; [|done]. apply logged_refl. }
  unfold executeRules, bundle_run. destruct (setSessionKeys ctx records) as [ctx1|e|e|] eqn:Ek; [|apply Hnone..].
  destruct (setSessionKeys_keys _ _ _ Ek) as (ga & ra & ->). cbn [jw_config jw_HasGroupedRows jw_rdfType2Columns jw_MainRuleFile with_keys].
  assert (Hnone' : ∀ e, ∃ ran later, has_logged (all_messages ran ++ later) ctx (with_keys ctx ga ra) ∧ Forall conflict_message later ∧ later = [] ∧ bo_sent (mkBundle ctx n outs [] (Some e) false) = [] ∧ Some e ≠ None).
  { intros e. exists [], []. split; [|done]. apply (Hkeys ga ra), logged_refl. }
  destruct session0 as [s|e|e|]; [|apply Hnone'..]. destruct (RunRuleSets _ _ _ _ _ _) as [[ctx2 s'] r] eqn:Er.
  pose proof (RunRuleSets_logged _ _ _ _ _ _ _ _ Er) as [[l Hl] Ho]. destruct r as [o|e|e|].
  2-4: exists l, []; rewrite app_nil_r; (split; [by apply (Hkeys ga ra)|done]).
  specialize (Ho o eq_refl). pose proof (RunRuleSets_reports _ _ _ _ _ _ _ _ _ Er) as (_ & _ & _ & l' & _ & _ & _ & Hs & _).
  pose proof (Failed_messages l' o Hs) as Hf. destruct Hs as (El & _). rewrite <- El in Hf. clear El l l' Hl. unfold extracts.
  assert (Hcfg : jw_config ctx2 = jw_config ctx) by (by destruct Ho as [(c & sv & rp & ->) _]). rewrite Hcfg.
  assert (Hstop : ∃ ran later, has_logged (all_messages ran ++ later) ctx ctx2 ∧ Forall conflict_message later ∧ ran = ro_RuleSets o ∧ later = []) by (exists (ro_RuleSets o), []; rewrite app_nil_r; split; [by apply (Hkeys ga ra)|done]).
  destruct (ro_Err o) as [e|]; cbn [is_some negb andb].
  { destruct Hstop as (a & b & Ha & Hb & Hr & Hz). exists a, b. do 4 (split; [done|]). split; [done|]. split; [done|]. by intros [? _]. }
  assert (Hb : bool_decide (all_messages (ro_RuleSets o) = []) = negb (Failed o)).
  { destruct (Failed o); cbn; [apply bool_decide_eq_false_2; by apply Hf|apply bool_decide_eq_true_2, dec_stable]. intros Hn. by apply Hf in Hn. }
  assert (Hgo : ∃ ran later, has_logged (all_messages ran ++ later) ctx (extract_channels map_order ctx2 n s' outs).1.1.1.1 ∧ Forall conflict_message later ∧ ran = ro_RuleSets o).
  { destruct (extract_channels_more ctx2 n s' outs) as (later & Hc & Hlater). exists (ro_RuleSets o), later. split; [|done]. eapply (Hkeys ga ra), logged_trans; done. }
  rewrite Hb. destruct (Failed o); cbn [negb andb orb].
  - destruct (String.eqb_spec (js_OnError (jw_config ctx)) OnErrorDrop) as [Ed|Ed]; [|destruct (String.eqb_spec (js_OnError (jw_config ctx)) OnErrorFail)]; cbn [orb negb].
    3: clear Hstop; destruct (extract_channels _ _ _ _ _) as [[[[ctx3 n3] outs3] sent] r]; destruct Hgo as (a & b & ? & ? & ?); exists a, b; by destruct r.
    all: destruct Hstop as (a & b & Ha & Hb' & Hr & Hz); exists a, b; do 5 (split; [done|]).
    + by split.
    + split; [done|]. by intros [_ ?].
  - destruct (extract_channels _ _ _ _ _) as [[[[ctx3 n3] outs3] sent] r]. destruct Hgo as (a & b & ? & ? & ?). exists a, b. by destruct r.
Qed.
End policy.
