(* ===== verification/EntityExtract.v ===== *)
(** * Entities as documents (src/jets/compute_pipes/jetrules_extract_entity.go)

    A column of an output channel may hold a whole entity of the session: the walk from
    its subject over the properties that lead to other entities, the map it fills, and the
    order put on the lists of that map. The documents are those that briefings and
    templates read. *)
From stdpp Require Import base list strings gmap sorting relations.
From Stdlib Require Import ZArith Lia Ascii.
From S2P Require Import Prelude GoFloat GoText GoValue Records AuditLifecycle Briefing RuleSession.
Local Open Scope string_scope.
Local Open Scope Z_scope.

#[local] Set Warnings "-register-all".

(** The JSON of a value, which a NaN or an infinity in it does not have, and the name of
    its dynamic type. *)
Class EntityJson := { json_value : value → option string; go_type : value → string }.

(** ** The map of an entity *)

(** The property name after its prefix. *)
Fixpoint after_colon (s : string) : option string :=
  match s with
  | EmptyString => None
  | String c r => if Ascii.eqb c ":" then Some r else after_colon r
  end.
Definition prop_name (removeModelPrefixes : bool) (prop : string) : string :=
  if removeModelPrefixes then default prop (after_colon prop) else prop.

Definition addToEntityObj (removeModelPrefixes : bool) (entityObj : gmap string value) (prop : string) (v : value) : gmap string value :=
  if value_nil v then entityObj
  else
    let prop := prop_name removeModelPrefixes prop in
    match entityObj !! prop with
    | Some existing =>
        match as_items existing with
        | Some existingVal => <[prop := Items (existingVal ++ [v])]> entityObj
        | None => if value_nil existing then <[prop := v]> entityObj else <[prop := Items [existing; v]]> entityObj
        end
    | None => <[prop := v]> entityObj
    end.

(** ** The order of lists *)
Section order.
Context `{DocFmt} `{EntityJson}.

Definition orderingKey (v : value) : string :=
  default (sprint_doc v) (json_value v) +:+ String Ascii.zero EmptyString +:+ go_type v.
Definition key_le (a b : value) : Prop := str_le (orderingKey a) (orderingKey b).
#[global] Instance key_le_dec a b : Decision (key_le a b).
Proof. unfold key_le. apply _. Defined.
(** [sort.SliceStable] on the keys. *)
Definition sort_list (v : value) : value :=
  match as_items v with
  | Some l => if (length l <? 2)%nat then v else Items (merge_sort key_le l)
  | None => v
  end.
Definition sortEntityLists (entityObj : gmap string value) : gmap string value := sort_list <$> entityObj.
End order.

(** ** The walk *)
Section walk.
Context `{DocFmt} `{EntityJson} {node session : Type} `{RuleEngine node session}.
(** The order of the [range] over the object properties, which may change at each call:
    a call is known by the nodes that lead to it. *)
Variable range_order : list node → list (string * node) → list (string * node).
Variables (s : session) (removeModelPrefixes : bool) (excludeProp : gset string).

Definition no_iterator {A} : res A := Panic "runtime error: invalid memory address or nil pointer dereference".
Definition isEntity (n : node) : res bool :=
  match FindS s n with
  | None => no_iterator
  | Some l => Ret (negb (Nat.eqb (length l) 0))
  end.
Definition skipped_prop (p : node) : bool :=
  HasPrefix (NodeString p) "_0:" || negb (String.eqb (NodeType p) "named_resource") || bool_decide (NodeString p ∈ excludeProp).

(** [objProperties[k] = n]. *)
Fixpoint put_prop (props : list (string * node)) (k : string) (n : node) : list (string * node) :=
  match props with
  | [] => [(k, n)]
  | (k', n') :: props => if String.eqb k' k then (k, n) :: props else (k', n') :: put_prop props k n
  end.

(** The loop over the triples of the subject: the literals and the object properties. *)
Fixpoint literal_pass (triples : list (node * node)) (entityObj : gmap string value) (props : list (string * node))
  : res (gmap string value * list (string * node)) :=
  match triples with
  | [] => Ret (entityObj, props)
  | (p, o) :: triples =>
      if skipped_prop p then literal_pass triples entityObj props
      else
        let! entity := isEntity o in
        if entity then literal_pass triples entityObj (put_prop props (NodeString p) p)
        else literal_pass triples (addToEntityObj removeModelPrefixes entityObj (NodeString p) (Scalar (GetRdfNodeValue o))) props
  end.

Section entities.
(** The call on an object. *)
Variable extract : node → res (gmap string value).
Fixpoint object_loop (prop : string) (objects : list node) (entityObj : gmap string value) : res (gmap string value) :=
  match objects with
  | [] => Ret entityObj
  | o :: objects =>
      let! sub := extract o in
      object_loop prop objects (addToEntityObj removeModelPrefixes entityObj prop (Node sub))
  end.
Fixpoint entity_pass (subject : node) (props : list (string * node)) (entityObj : gmap string value) : res (gmap string value) :=
  match props with
  | [] => Ret entityObj
  | (prop, n) :: props =>
      match FindSP s subject n with
      | None => no_iterator
      | Some objects =>
          let! entityObj := object_loop prop objects entityObj in
          entity_pass subject props entityObj
      end
  end.
End entities.

(** [fuel] bounds the depth of the calls, which a cycle of entities makes endless. *)
Fixpoint extractAsEntity (fuel : nat) (path : list node) (subject : node) : res (gmap string value) :=
  match fuel with
  | O => Loop
  | S fuel =>
      match FindS s subject with
      | None => no_iterator
      | Some triples =>
          let! '(entityObj, props) := literal_pass triples ∅ [] in
          let! entityObj :=
            entity_pass (λ o, extractAsEntity fuel (subject :: path) o) subject (range_order (subject :: path) props) entityObj in
          Ret (sortEntityLists entityObj)
      end
  end.
End walk.
