(* ===== verification/EntityLaws.v ===== *)
(** * What the walk over an entity gives

    It ends exactly on the subjects from which no chain of entities is endless, and what
    it gives is encoded the same whatever the order of the iterators and of the maps. *)
From stdpp Require Import base list strings gmap sorting relations.
From Stdlib Require Import ZArith Lia Ascii.
From S2P Require Import Prelude GoFloat GoText GoValue Records EvalOperators EvalOperatorsLaws AuditLifecycle Briefing RuleSession EntityExtract.
Local Open Scope Z_scope.

(** ** The map as what is added to it *)
Definition adds (rm : bool) (m : gmap string value) (l : list (string * value)) : gmap string value :=
  foldl (λ m a, addToEntityObj rm m a.1 a.2) m l.
Lemma adds_app rm m l l' : adds rm m (l ++ l') = adds rm (adds rm m l) l'.
Proof. apply foldl_app. Qed.

(** One value, or the list of several. *)
Definition collapse (vs : list value) : option value :=
  match vs with
  | [] => None
  | [v] => Some v
  | vs => Some (Items vs)
  end.
Definition plain (v : value) : Prop := as_items v = None.
Definition named (rm : bool) (q : string) (a : string * value) : bool := negb (value_nil a.2) && String.eqb (prop_name rm a.1) q.
(** The values added under a name. *)
Definition added (rm : bool) (q : string) (l : list (string * value)) : list value := (List.filter (named rm q) l).*2.

Lemma collapse_snoc vs v : Forall plain (vs ++ [v]) →
  collapse (vs ++ [v]) =
  Some match collapse vs with
       | None => v
       | Some w => Items (default [w] (as_items w) ++ [v])
       end.
Proof. intros Hp. destruct vs as [|a [|b vs]]; [done| |done]. inversion Hp as [|? ? Ha]. cbn. by rewrite Ha. Qed.

Lemma adds_lookup rm l q : Forall (λ a, plain a.2) l → adds rm ∅ l !! q = collapse (added rm q l).
Proof.
  induction l as [|[k v] l IH] using rev_ind; intros Hp; [done|]. apply Forall_app in Hp as [Hp Hv].
  inversion Hv as [|? ? Hv']. cbn in Hv'. specialize (IH Hp). rewrite adds_app. cbn [adds foldl fst snd].
  fold (adds rm ∅ l). unfold added. rewrite List.filter_app, fmap_app. fold (added rm q l). cbn [List.filter].
  assert (Hpl : Forall plain (added rm q l)).
  { unfold added. apply Forall_fmap, Forall_forall. intros a Ha. apply list_elem_of_In, filter_In in Ha as [Ha _].
    eapply Forall_forall in Hp; [done|]. by apply list_elem_of_In. }
  assert (Hnn : Forall (λ w, value_nil w = false) (added rm q l)).
  { unfold added. apply Forall_fmap, Forall_forall. intros a Ha. apply list_elem_of_In, filter_In in Ha as [_ Ha].
    unfold named in Ha. by apply andb_true_iff in Ha as [?%negb_true_iff _]. }
  unfold named at 1. cbn [fst snd]. unfold addToEntityObj. destruct (value_nil v) eqn:En; cbn [negb andb].
  { by rewrite app_nil_r. }
  destruct (String.eqb_spec (prop_name rm k) q) as [->|Hne]; cbn [fmap list_fmap snd].
  - rewrite collapse_snoc by (apply Forall_app; by repeat constructor). rewrite IH.
    destruct (added rm q l) as [|a [|b vs]]; cbn [collapse].
    + by rewrite lookup_insert_eq.
    + inversion Hpl as [|? ? Ha]. inversion Hnn as [|? ? Hn]. rewrite Ha, Hn, lookup_insert_eq. done.
    + cbn [as_items default]. by rewrite lookup_insert_eq.
  - rewrite app_nil_r. repeat case_match; by rewrite lookup_insert_ne.
Qed.

(** ** The walk, as what it adds *)
Section walk_laws.
Context `{DocFmt} `{EntityJson} {node session : Type} `{RuleEngine node session}.

Section session.
Variables (s : session) (rm : bool) (excl : gset string).

(** The literals among the triples. *)
Definition literal (t : node * node) : option (string * value) :=
  if skipped_prop excl t.1 then None
  else match isEntity s t.2 with
       | Ret false => Some (NodeString t.1, Scalar (GetRdfNodeValue t.2))
       | _ => None
       end.
(** A property of the triples that leads to an entity. *)
Definition leads (triples : list (node * node)) (p : node) : Prop :=
  skipped_prop excl p = false ∧ ∃ o, (p, o) ∈ triples ∧ isEntity s o = Ret true.
Definition resource_pairs (props : list (string * node)) : Prop := Forall (λ q, q.1 = NodeString q.2 ∧ NodeType q.2 = "named_resource"%string) props.

(** The names of resources tell them apart. *)
Hypothesis names_differ : ∀ a b,
  NodeType a = "named_resource"%string → NodeType b = "named_resource"%string → NodeString a = NodeString b → a = b.

Lemma put_prop_elem props p k n :
  resource_pairs props → NodeType p = "named_resource"%string →
  (k, n) ∈ put_prop props (NodeString p) p ↔ (k, n) ∈ props ∨ k = NodeString p ∧ n = p.
Proof.
  intros Hr Hp. induction Hr as [|[k' n'] props [Hk Hn] Hr IH]; cbn [put_prop].
  - rewrite list_elem_of_singleton. split; [intros [= -> ->]; by right|intros [Hin|[-> ->]]; [by apply not_elem_of_nil in Hin|done]].
  - cbn in Hk, Hn. destruct (String.eqb_spec k' (NodeString p)) as [E|E]; rewrite !elem_of_cons.
    + assert (n' = p) as -> by (apply names_differ; congruence). subst k'. naive_solver.
    + rewrite IH. naive_solver.
Qed.
Lemma put_prop_resource props p : resource_pairs props → NodeType p = "named_resource"%string → resource_pairs (put_prop props (NodeString p) p).
Proof.
  intros Hr Hp. induction Hr as [|[k' n'] props Hk Hr IH]; cbn [put_prop]; [by repeat constructor|].
  case_match; by constructor.
Qed.
Lemma put_prop_NoDup (props : list (string * node)) k n : NoDup props.*1 → NoDup (put_prop props k n).*1.
Proof.
  induction props as [|[k' n'] props IH]; cbn [put_prop]; intros Hd; [apply NoDup_singleton|]. cbn in Hd.
  apply NoDup_cons in Hd as [Hk Hd]. destruct (String.eqb_spec k' k) as [->|Hne]; cbn; apply NoDup_cons; [done|].
  split; [|by apply IH]. intros Hin. apply Hk. clear -Hin Hne.
  induction props as [|[k'' n''] props IH]; cbn in *; [apply list_elem_of_singleton in Hin; congruence|].
  destruct (String.eqb_spec k'' k) as [->|]; cbn in Hin; rewrite elem_of_cons in *; naive_solver.
Qed.
Lemma skipped_resource p : skipped_prop excl p = false → NodeType p = "named_resource"%string.
Proof.
  unfold skipped_prop. intros Hs. apply orb_false_iff in Hs as [Hs _]. apply orb_false_iff in Hs as [_ Hs].
  by apply negb_false_iff, String.eqb_eq in Hs.
Qed.

Lemma literal_pass_spec triples m props m' props' :
  resource_pairs props → NoDup props.*1 → literal_pass s rm excl triples m props = Ret (m', props') →
  m' = adds rm m (omap literal triples) ∧ resource_pairs props' ∧ NoDup props'.*1 ∧
  ∀ k p, (k, p) ∈ props' ↔ (k, p) ∈ props ∨ k = NodeString p ∧ leads triples p.
Proof.
  revert m props. induction triples as [|[p o] triples IH]; intros m props Hr Hd; cbn [literal_pass omap list_omap].
  - intros [= <- <-]. split_and!; try done. intros k p. split; [by left|].
    intros [?|(_ & _ & o & Hin & _)]; [done|by apply not_elem_of_nil in Hin].
  - assert (Hleads : ∀ q, leads ((p, o) :: triples) q ↔ (skipped_prop excl p = false ∧ isEntity s o = Ret true ∧ q = p) ∨ leads triples q).
    { intros q. unfold leads. split.
      - intros (Hq & o' & [[= -> ->]|Hin]%elem_of_cons & He); [by left|right; eauto].
      - intros [(? & ? & ->)|(Hq & o' & Hin & He)]; split; eauto; [exists o|exists o']; rewrite elem_of_cons; auto. }
    unfold literal at 1. cbn [fst snd]. destruct (skipped_prop excl p) eqn:Es.
    { intros Hl. apply IH in Hl as (? & ? & ? & He); try done. split_and!; try done. intros k q. rewrite He, Hleads. naive_solver. }
    destruct (isEntity s o) as [[]|e|e|] eqn:Ee; cbn [res_bind]; try done; intros Hl.
    + apply IH in Hl as (? & ? & ? & He); [|apply put_prop_resource; [done|by apply skipped_resource]|by apply put_prop_NoDup].
      split_and!; try done. intros k q. rewrite He, put_prop_elem, Hleads by (done || by apply skipped_resource). naive_solver.
    + apply IH in Hl as (-> & ? & ? & He); try done. split_and!; try done. intros k q. rewrite He, Hleads. naive_solver.
Qed.

(** What the loop over the object properties adds. *)
Fixpoint walk_adds (f : node → res (gmap string value)) (x : node) (props : list (string * node)) (l : list (string * value)) : Prop :=
  match props with
  | [] => l = []
  | (k, p) :: props =>
      ∃ objs subs l', FindSP s x p = Some objs ∧ Forall2 (λ o m, f o = Ret m) objs subs ∧
        l = ((λ m, (k, Node m)) <$> subs) ++ l' ∧ walk_adds f x props l'
  end.
Lemma object_loop_spec (f : node → res (gmap string value)) k (objs : list node) m m' :
  object_loop rm f k objs m = Ret m' ↔
  ∃ subs, Forall2 (λ o sub, f o = Ret sub) objs subs ∧ m' = adds rm m ((λ sub, (k, Node sub)) <$> subs).
Proof.
  revert m. induction objs as [|o objs IH]; intros m; cbn [object_loop].
  - split; [intros [= <-]; exists []; by split|]. by intros (subs & ->%Forall2_nil_inv_l & ->).
  - split.
    + intros (sub & Ho & Hl)%res_bind_Ret. apply IH in Hl as (subs & Hs & ->). exists (sub :: subs). split; [by constructor|done].
    + intros (subs & Hf & ->). inversion Hf as [|? sub ? subs' Ho Hs]; subst. rewrite Ho. cbn [res_bind]. apply IH. eauto.
Qed.
Lemma entity_pass_spec (f : node → res (gmap string value)) x props m m' :
  entity_pass s rm f x props m = Ret m' ↔ ∃ l, walk_adds f x props l ∧ m' = adds rm m l.
Proof.
  revert m. induction props as [|[k p] props IH]; intros m; cbn [entity_pass walk_adds].
  - split; [intros [= <-]; by exists []|]. by intros (l & -> & ->).
  - destruct (FindSP s x p) as [objs|] eqn:Ef; [|split; [done|naive_solver]]. split.
    + intros (m1 & (subs & Hs & ->)%object_loop_spec & Hl)%res_bind_Ret. apply IH in Hl as (l' & Hw & ->).
      exists (((λ sub, (k, Node sub)) <$> subs) ++ l'). rewrite adds_app. split; [|done]. by exists objs, subs, l'.
    + intros (l & (objs' & subs & l' & [= <-] & Hs & -> & Hw) & ->). apply res_bind_Ret.
      exists (adds rm m ((λ sub, (k, Node sub)) <$> subs)). split; [apply object_loop_spec; eauto|]. apply IH. exists l'.
      by rewrite adds_app.
Qed.

Lemma walk_adds_visit f x props l k p objs y :
  walk_adds f x props l → (k, p) ∈ props → FindSP s x p = Some objs → y ∈ objs → ∃ m, f y = Ret m.
Proof.
  revert l. induction props as [|[k' p'] props IH]; intros l; [by intros _ Hin%not_elem_of_nil|]. cbn [walk_adds].
  intros (objs' & subs & l' & Hf & Hs & _ & Hw) [[= <- <-]|Hin]%elem_of_cons Ho Hy; [|by eapply IH].
  assert (objs' = objs) as -> by congruence. apply list_elem_of_lookup in Hy as [i Hi].
  destruct (Forall2_lookup_l _ _ _ _ _ Hs Hi) as (m & _ & Hm). eauto.
Qed.
Lemma walk_adds_total f x props :
  (∀ k p, (k, p) ∈ props → ∃ objs, FindSP s x p = Some objs ∧ ∀ y, y ∈ objs → ∃ m, f y = Ret m) → ∃ l, walk_adds f x props l.
Proof.
  induction props as [|[k p] props IH]; intros Hall; [by exists []|]. cbn [walk_adds].
  destruct (Hall k p) as (objs & Hf & Hy); [by left|].
  destruct IH as [l Hl]; [intros k' p' Hin; apply (Hall k'); by right|].
  assert (∃ subs, Forall2 (λ o m, f o = Ret m) objs subs) as [subs Hs].
  { clear -Hy. induction objs as [|o objs IH]; [by exists []|]. destruct (Hy o) as [m Hm]; [by left|].
    destruct IH as [subs Hs]; [intros y Hin; apply Hy; by right|]. exists (m :: subs). by constructor. }
  eexists. exists objs, subs, l. done.
Qed.

(** ** Termination *)
Section ends.
Variable range_order : list node → list (string * node) → list (string * node).
Hypothesis range_perm : ∀ path l, range_order path l ≡ₚ l.
Hypothesis finds_s : ∀ x, FindS s x ≠ None.
Hypothesis finds_sp : ∀ x p, FindSP s x p ≠ None.

(** The calls the walk makes from [x]. *)
Definition visits (x y : node) : Prop :=
  ∃ triples p objs, FindS s x = Some triples ∧ leads triples p ∧ FindSP s x p = Some objs ∧ y ∈ objs.

Lemma literal_pass_returns triples m props : ∃ r, literal_pass s rm excl triples m props = Ret r.
Proof.
  revert m props. induction triples as [|[p o] triples IH]; intros m props; cbn [literal_pass]; [eauto|].
  case_match; [apply IH|]. unfold isEntity. pose proof (finds_s o). destruct (FindS s o); [|done]. cbn [res_bind]. case_match; apply IH.
Qed.

Lemma extract_Ret fuel path x m :
  extractAsEntity range_order s rm excl (S fuel) path x = Ret m ↔
  ∃ triples m0 props l, FindS s x = Some triples ∧ literal_pass s rm excl triples ∅ [] = Ret (m0, props) ∧
    walk_adds (λ o, extractAsEntity range_order s rm excl fuel (x :: path) o) x (range_order (x :: path) props) l ∧
    m = sortEntityLists (adds rm m0 l).
Proof.
  cbn [extractAsEntity]. destruct (FindS s x) as [triples|]; [|split; [done|naive_solver]]. split.
  - intros ([m0 props] & Hl & (m1 & (l & Hw & ->)%entity_pass_spec & [= <-])%res_bind_Ret)%res_bind_Ret. eauto 10.
  - intros (triples' & m0 & props & l & [= <-] & Hl & Hw & ->). apply res_bind_Ret. exists (m0, props). split; [done|].
    apply res_bind_Ret. exists (adds rm m0 l). split; [|done]. apply entity_pass_spec. eauto.
Qed.

Lemma extract_visits fuel path x m y :
  extractAsEntity range_order s rm excl (S fuel) path x = Ret m → visits x y →
  ∃ m', extractAsEntity range_order s rm excl fuel (x :: path) y = Ret m'.
Proof.
  intros (triples & m0 & props & l & Hf & Hl & Hw & _)%extract_Ret (triples' & p & objs & Hf' & Hp & Ho & Hy).
  assert (triples' = triples) as -> by congruence.
  apply literal_pass_spec in Hl as (_ & _ & _ & He); [|constructor|constructor].
  eapply walk_adds_visit; [done| |done|done]. rewrite range_perm. apply He. right. by split.
Qed.

Lemma enough_fuel (P : nat → node → Prop) (ys : list node) :
  (∀ y, y ∈ ys → ∃ n, ∀ n', (n ≤ n')%nat → P n' y) → ∃ n, ∀ n', (n ≤ n')%nat → ∀ y, y ∈ ys → P n' y.
Proof.
  induction ys as [|y ys IH]; intros Hall; [exists 0%nat; by intros ? _ ? ?%not_elem_of_nil|].
  destruct (Hall y) as [a Ha]; [by left|]. destruct IH as [b Hb]; [intros z Hz; apply Hall; by right|].
  exists (a `max` b)%nat. intros n' Hn z [->|Hz]%elem_of_cons; [apply Ha|apply Hb; [|done]]; lia.
Qed.

Lemma extract_ends x :
  Acc (flip visits) x → ∃ n, ∀ fuel, (n ≤ fuel)%nat → ∀ path, ∃ m, extractAsEntity range_order s rm excl fuel path x = Ret m.
Proof.
  induction 1 as [x _ IH].
  destruct (FindS s x) as [triples|] eqn:Ef; [|by destruct (finds_s x)].
  destruct (literal_pass_returns triples ∅ []) as [[m0 props] Hl].
  pose proof Hl as (_ & _ & _ & He)%literal_pass_spec; [|constructor|constructor].
  set (ys := mjoin ((λ q, default [] (FindSP s x q.2)) <$> props)).
  destruct (enough_fuel (λ n y, ∀ path, ∃ m, extractAsEntity range_order s rm excl n path y = Ret m) ys) as [n Hn].
  { intros y Hy. apply IH. apply list_elem_of_join in Hy as (objs & Hy & ([k p] & -> & Hp)%list_elem_of_fmap).
    apply He in Hp as [Hp%not_elem_of_nil|[-> Hp]]; [done|]. cbn in Hy. pose proof (finds_sp x p).
    destruct (FindSP s x p) as [objs|] eqn:Eo; [|done]. by exists triples, p, objs. }
  exists (S n). intros [|fuel] Hfuel path; [lia|].
  destruct (walk_adds_total (λ o, extractAsEntity range_order s rm excl fuel (x :: path) o) x (range_order (x :: path) props)) as [l Hw].
  { intros k p Hp. rewrite range_perm in Hp. pose proof (finds_sp x p). destruct (FindSP s x p) as [objs|] eqn:Eo; [|done].
    exists objs. split; [done|]. intros y Hy. apply Hn; [lia|]. apply list_elem_of_join. exists objs. split; [done|].
    apply list_elem_of_fmap. exists (k, p). split; [|done]. cbn. by rewrite Eo. }
  eexists. apply extract_Ret. by exists triples, m0, props, l.
Qed.

(** C27. The walk over an entity ends, for enough depth, exactly when no chain of entities from
    its subject is endless. There is no other limit: on a subject that leads back to
    itself every depth is too small. *)
Theorem extraction_ends x :
  Acc (flip visits) x ↔ ∃ n, ∀ fuel, (n ≤ fuel)%nat → is_ret (extractAsEntity range_order s rm excl fuel [] x) = true.
Proof.
  split.
  - intros Ha. destruct (extract_ends x Ha) as [n Hn]. exists n. intros fuel Hf. destruct (Hn fuel Hf []) as [m ->]. done.
  - intros [n Hn]. specialize (Hn n (Nat.le_refl n)). generalize (@nil node) Hn. clear Hn. intros path Hn. revert x path Hn.
    induction n as [|n IH]; intros x path Hn; [done|]. destruct (extractAsEntity _ _ _ _ (S n) path x) as [m| | |] eqn:Em; [|discriminate Hn..].
    constructor. intros y Hy. destruct (extract_visits _ _ _ _ _ Em Hy) as [m' Hm']. apply (IH y (x :: path)). by rewrite Hm'.
Qed.
End ends.
End session.

(** ** Reproducible encodings *)

(** Two fields an encoding cannot tell apart: their values, or the elements of their lists
    one after the other, have the same keys. *)
Definition field_alike (v w : value) : Prop :=
  match as_items v, as_items w with
  | Some l, Some l' => orderingKey <$> l = orderingKey <$> l'
  | None, None => orderingKey v = orderingKey w
  | _, _ => False
  end.
Definition fields_alike (m m' : gmap string value) : Prop := ∀ q, option_Forall2 field_alike (m !! q) (m' !! q).

#[local] Instance key_order : AntiSymm eq str_le.
Proof. intros a b. apply String.leb_antisym. Qed.
#[local] Instance key_total : Total key_le.
Proof. intros a b. apply String.leb_total. Qed.
Lemma str_le_Compare a b : str_le a b ↔ str_Compare a b ≤ 0.
Proof. unfold str_le, String.leb, str_Compare. by destruct (String.compare a b). Qed.
#[local] Instance key_trans : Transitive key_le.
Proof. intros a b c. unfold key_le. rewrite !str_le_Compare. apply string_compare_trans. Qed.

(** Sorting on the key gives one list of keys whatever the order it starts from. *)
Lemma sorted_items_alike l l' :
  (orderingKey <$> l) ≡ₚ (orderingKey <$> l') → orderingKey <$> merge_sort key_le l = orderingKey <$> merge_sort key_le l'.
Proof.
  intros Hp. assert (Hs : ∀ k, StronglySorted str_le (orderingKey <$> merge_sort key_le k)).
  { intros k. apply (StronglySorted_fmap _ key_le); [done|]. apply (StronglySorted_merge_sort key_le _). }
  apply (StronglySorted_unique str_le); [apply Hs..|]. by rewrite !merge_sort_Permutation.
Qed.

Lemma collapse_alike vs ws :
  Forall plain vs → Forall plain ws → (orderingKey <$> vs) ≡ₚ (orderingKey <$> ws) →
  option_Forall2 field_alike (sort_list <$> collapse vs) (sort_list <$> collapse ws).
Proof.
  intros Hv Hw Hp. pose proof (Permutation_length Hp) as Hl. rewrite !length_fmap in Hl.
  destruct vs as [|v [|v' vs]], ws as [|w [|w' ws]]; cbn in Hl; try done; cbn [collapse fmap option_fmap option_map]; constructor.
  - inversion Hv as [|? ? Hv']. inversion Hw as [|? ? Hw']. unfold sort_list. rewrite Hv', Hw'. unfold field_alike. rewrite Hv', Hw'.
    apply Permutation_singleton_inj in Hp. congruence.
  - unfold sort_list, field_alike. cbn [as_items length]. by apply sorted_items_alike.
Qed.

(** What is added, by name and key. *)
Definition keyed (l : list (string * value)) : list (string * string) := (λ a, (a.1, orderingKey a.2)) <$> l.
Lemma added_keyed rm q l : Forall (λ a, value_nil a.2 = false) l →
  orderingKey <$> added rm q l = (List.filter (λ a, String.eqb (prop_name rm a.1) q) (keyed l)).*2.
Proof.
  induction 1 as [|[k v] l Hv Hl IH]; [done|]. unfold added. cbn [List.filter keyed fmap list_fmap fst snd]. unfold named at 1.
  cbn in Hv |- *. rewrite Hv. cbn. unfold added in IH. destruct (String.eqb (prop_name rm k) q); cbn; by rewrite IH.
Qed.
Lemma filter_perm {A} (f : A → bool) l l' : l ≡ₚ l' → List.filter f l ≡ₚ List.filter f l'.
Proof. induction 1; cbn; repeat case_match; eauto using Permutation. Qed.
Lemma filter_again {A} (f g : A → bool) l : (∀ a, f a = true → g a = true) → List.filter f (List.filter g l) = List.filter f l.
Proof.
  intros Hfg. induction l as [|a l IH]; [done|]. cbn. destruct (g a) eqn:Eg; cbn; [by rewrite IH|].
  destruct (f a) eqn:Ef; [|done]. apply Hfg in Ef. congruence.
Qed.
(** The values that are not null. *)
Definition real (a : string * value) : bool := negb (value_nil a.2).
Lemma added_real rm q l : added rm q l = added rm q (List.filter real l).
Proof. unfold added. rewrite filter_again; [done|]. intros a Ha. by apply andb_true_iff in Ha as [? _]. Qed.

(** Two maps whose real additions have the same names and keys are alike once sorted. *)
Lemma adds_alike rm l l' :
  Forall (λ a, plain a.2) l → Forall (λ a, plain a.2) l' → keyed (List.filter real l) ≡ₚ keyed (List.filter real l') →
  fields_alike (sortEntityLists (adds rm ∅ l)) (sortEntityLists (adds rm ∅ l')).
Proof.
  intros Hl Hl' Hk q. unfold sortEntityLists. rewrite !lookup_fmap, !adds_lookup by done. rewrite (added_real rm q l), (added_real rm q l').
  assert (Hpl : ∀ k, Forall (λ a : string * value, plain a.2) k → Forall plain (added rm q (List.filter real k))).
  { intros k Hkp. unfold added. apply Forall_fmap, Forall_forall. intros a [Ha _]%list_elem_of_In%filter_In.
    apply filter_In in Ha as [Ha _]. eapply Forall_forall in Hkp; [done|by apply list_elem_of_In]. }
  assert (Hre : ∀ k, Forall (λ a : string * value, value_nil a.2 = false) (List.filter real k)).
  { intros k. apply Forall_forall. intros a [_ Ha]%list_elem_of_In%filter_In. by apply negb_true_iff in Ha. }
  apply collapse_alike; [by apply Hpl..|]. rewrite !added_keyed by apply Hre. by apply fmap_Permutation, filter_perm.
Qed.

Section reproducible.
Variables (s1 s2 : session) (rm : bool) (excl : gset string).
Variables order1 order2 : list node → list (string * node) → list (string * node).
Hypothesis names_differ : ∀ a b,
  NodeType a = "named_resource"%string → NodeType b = "named_resource"%string → NodeString a = NodeString b → a = b.
Hypothesis order1_perm : ∀ path l, order1 path l ≡ₚ l.
Hypothesis order2_perm : ∀ path l, order2 path l ≡ₚ l.
(** The sessions hold the same triples, which their iterators give in any order. *)
Hypothesis same_s : ∀ x, option_Forall2 (≡ₚ) (FindS s1 x) (FindS s2 x).
Hypothesis same_sp : ∀ x p, option_Forall2 (≡ₚ) (FindSP s1 x p) (FindSP s2 x p).
(** The encoding of an entity depends on those of its fields. *)
Hypothesis encodes_fields : ∀ m m', fields_alike m m' → orderingKey (Node m) = orderingKey (Node m').

Lemma isEntity_same o : isEntity s1 o = isEntity s2 o.
Proof. unfold isEntity. destruct (same_s o) as [l l' Hl|]; [|done]. by rewrite (Permutation_length Hl). Qed.
Lemma literals_same triples triples' : triples ≡ₚ triples' → omap (literal s1 excl) triples ≡ₚ omap (literal s2 excl) triples'.
Proof.
  intros Hp. rewrite Hp. apply reflexive_eq. clear Hp triples. induction triples' as [|t l IH]; [done|]. cbn.
  assert (literal s1 excl t = literal s2 excl t) as -> by (unfold literal; by rewrite isEntity_same). by rewrite IH.
Qed.
Lemma leads_same triples triples' p : triples ≡ₚ triples' → leads s1 excl triples p ↔ leads s2 excl triples' p.
Proof. intros Hp. unfold leads. setoid_rewrite Hp. setoid_rewrite isEntity_same. done. Qed.

Lemma walk_adds_perm s f x props props' l :
  props ≡ₚ props' → walk_adds s f x props l → ∃ l', l ≡ₚ l' ∧ walk_adds s f x props' l'.
Proof.
  intros Hp. revert l. induction Hp as [|[k p] props props' Hp IH|[k p] [k' p'] props|props props' props'' _ IH1 _ IH2]; intros l; cbn [walk_adds].
  - intros ->. by exists [].
  - intros (objs & subs & l1 & Hf & Hs & -> & (l2 & Hl & Hw)%IH).
    exists (((λ m, (k, Node m)) <$> subs) ++ l2). split; [by rewrite Hl|]. by exists objs, subs, l2.
  - intros (objs & subs & l1 & Hf & Hs & -> & objs' & subs' & l2 & Hf' & Hs' & -> & Hw).
    eexists. split; [|exists objs', subs', (((λ m, (k', Node m)) <$> subs) ++ l2); split_and!; [done|done|reflexivity|]].
    + rewrite !app_assoc. apply Permutation_app; [apply Permutation_app_comm|done].
    + by exists objs, subs, l2.
  - intros (l1 & Hl1 & (l2 & Hl2 & Hw)%IH2)%IH1. exists l2. split; [by etrans|done].
Qed.
Lemma walk_adds_same f1 f2 x props l1 l2 :
  (∀ y m1 m2, f1 y = Ret m1 → f2 y = Ret m2 → orderingKey (Node m1) = orderingKey (Node m2)) →
  walk_adds s1 f1 x props l1 → walk_adds s2 f2 x props l2 → keyed l1 ≡ₚ keyed l2.
Proof.
  intros Hf. revert l1 l2. induction props as [|[k p] props IH]; intros l1 l2; cbn [walk_adds]; [by intros -> ->|].
  intros (objs & subs & l1' & Ho & Hs & -> & Hw) (objs' & subs' & l2' & Ho' & Hs' & -> & Hw').
  pose proof (same_sp x p) as Hsp. rewrite Ho, Ho' in Hsp. inversion Hsp as [? ? Hperm|]; subst.
  destruct (Permutation_Forall2 Hperm Hs) as (subs1 & Hsubs & Hs1).
  unfold keyed. rewrite !fmap_app. apply Permutation_app; [|by apply IH]. rewrite Hsubs. apply reflexive_eq. clear -Hf Hs1 Hs'.
  revert subs' Hs'. induction Hs1 as [|o m objs' subs1 Hm Hs1 IH]; intros subs' Hs'; [by apply Forall2_nil_inv_l in Hs' as ->|].
  inversion Hs' as [|? m' ? subs'' Hm' Hs'']; subst. cbn. by rewrite (Hf o m m'), (IH subs'').
Qed.
Lemma walk_adds_nodes s f x props l : walk_adds s f x props l → Forall (λ a, ∃ m, a.2 = Node m) l.
Proof.
  revert l. induction props as [|[k p] props IH]; intros l; cbn [walk_adds]; [intros ->; constructor|].
  intros (objs & subs & l' & _ & _ & -> & Hw). apply Forall_app. split; [|by apply IH].
  apply Forall_fmap, Forall_forall. cbn. eauto.
Qed.
Lemma literal_plain s triples : Forall (λ a, plain a.2) (omap (literal s excl) triples).
Proof.
  apply Forall_forall. intros a (t & _ & Ht)%list_elem_of_omap. unfold literal in Ht. repeat case_match; simplify_eq. unfold plain. cbn.
  unfold GetRdfNodeValue. by repeat case_match; simplify_eq.
Qed.

(** C28. The encoding of an entity is reproducible: two walks over the same triples, in
    whatever order the iterators give them and the maps are gone through, give documents
    with the same fields, whose values are encoded the same one after the other. *)
Theorem extraction_reproducible f1 f2 path1 path2 x m1 m2 :
  extractAsEntity order1 s1 rm excl f1 path1 x = Ret m1 → extractAsEntity order2 s2 rm excl f2 path2 x = Ret m2 →
  fields_alike m1 m2 ∧ orderingKey (Node m1) = orderingKey (Node m2).
Proof.
  intros H1' H2'. assert (Ha : fields_alike m1 m2); [|auto]. revert f2 path1 path2 x m1 m2 H1' H2'.
  induction f1 as [|f1 IH]; intros [|f2] path1 path2 x m1 m2; [discriminate..|].
  intros (t1 & m01 & props1 & l1 & E1 & L1 & W1 & ->)%extract_Ret (t2 & m02 & props2 & l2 & E2 & L2 & W2 & ->)%extract_Ret.
  pose proof (same_s x) as Ht. rewrite E1, E2 in Ht. inversion Ht as [? ? Hperm|]; subst.
  apply literal_pass_spec in L1 as (-> & _ & D1 & P1), L2 as (-> & _ & D2 & P2); try done; try constructor.
  assert (Hprops : order1 (x :: path1) props1 ≡ₚ order2 (x :: path2) props2).
  { rewrite order1_perm, order2_perm. apply NoDup_Permutation; [by eapply NoDup_fmap_1..|].
    intros [k p]. rewrite P1, P2, (leads_same _ _ p Hperm). split; (intros [Hn%not_elem_of_nil|?]; [done|by right]). }
  destruct (walk_adds_perm _ _ _ _ _ _ Hprops W1) as (l1' & Hl1 & W1').
  assert (Hk : keyed l1' ≡ₚ keyed l2).
  { eapply walk_adds_same; [|exact W1'|exact W2]. intros y m m' Hm Hm'. apply encodes_fields. by eapply IH. }
  rewrite <- !adds_app. apply walk_adds_nodes in W1 as N1, W2 as N2.
  assert (Hreal : ∀ l : list (string * value), Forall (λ a, ∃ m, a.2 = Node m) l → List.filter real l = l ∧ Forall (λ a, plain a.2) l).
  { intros l Hn. induction Hn as [|[k v] l [m Hv] _ [Hf Hp]]; [done|]. cbn in Hv. subst v. cbn. rewrite Hf. split; [done|by constructor]. }
  destruct (Hreal l1 N1) as [R1 Q1], (Hreal l2 N2) as [R2 Q2].
  apply adds_alike; [apply Forall_app; split; [apply literal_plain|done]..|].
  unfold keyed. rewrite !List.filter_app, !fmap_app, R1, R2. apply Permutation_app.
  - by apply fmap_Permutation, filter_perm, literals_same.
  - fold (keyed l1) (keyed l2). rewrite <- Hk. by apply fmap_Permutation.
Qed.
End reproducible.
End walk_laws.
