(* ===== verification/RuleDemo.v ===== *)
(** * An engine, and the theorems on rule sets applied to it

    A session is a set of triples of resources, texts and integers, and a rule set adds
    triples to it: it shows that what the theorems rely on can hold together. *)
From stdpp Require Import base list strings gmap pretty.
From Stdlib Require Import ZArith Lia SpecFloat.
From S2P Require Import Prelude GoFloat GoText GoTextLaws GoValue EvalOperators RdfCast EvalExpression.
From S2P Require Import Records HashKey Cleansing ColumnEval ColumnBuild Pipes.
From S2P Require Import AuditLifecycle Briefing PipeDemo RuleSession RuleSessionLaws RuleWorker RuleWorkerLaws EntityExtract EntityLaws.
Local Open Scope string_scope.
Local Open Scope Z_scope.

Module RuleDemo.
Inductive dnode := DRes (s : string) | DText (s : string) | DInt (z : Z).
#[local] Instance dnode_dec : EqDecision dnode.
Proof. solve_decision. Defined.
#[local] Instance dnode_countable : Countable dnode.
Proof.
  refine (inj_countable' (λ n, match n with DRes s => inl (inl s) | DText s => inl (inr s) | DInt z => inr z end)
    (λ c, match c with inl (inl s) => DRes s | inl (inr s) => DText s | inr z => DInt z end) _).
  by intros [].
Defined.
Abbreviation triple := (dnode * dnode * dnode)%type.
Abbreviation dsession := (list triple).

Definition node_text (n : dnode) : string :=
  match n with DRes s => "r" +:+ s | DText s => "t" +:+ s | DInt z => "i" +:+ Itoa z end.
Lemma node_text_inj n m : node_text n = node_text m → n = m.
Proof. destruct n, m; cbn; intros [= Hx]; f_equal; [exact Hx..|]. by apply (inj (pretty (A := Z))). Qed.

Definition find_s (s : dsession) (x : dnode) : list (dnode * dnode) :=
  omap (λ t, if decide (t.1.1 = x) then Some (t.1.2, t.2) else None) (remove_dups s).
Definition find_sp (s : dsession) (x p : dnode) : list dnode := (filter (λ t, t.1 = p) (find_s s x)).*2.

(** What a rule set adds. *)
Definition rules (ruleset : string) : dsession :=
  if String.eqb ruleset "first.jr" then [(DRes "jets:iState", DRes "jets:exception", DText "late")]
  else if String.eqb ruleset "second.jr" then
    [(DRes "jets:iState", DRes "jets:exception", DText "more"); (DRes "jets:iState", DRes "jets:completed", DInt 1);
      (DRes "x", DRes "name", DText "a"); (DRes "x", DRes "name", DText "b"); (DRes "x", DRes "age", DInt 3);
      (DRes "x", DRes "rdf:type", DRes "Person")]
  else [].

#[local] Instance demo_engine : RuleEngine dnode dsession := {
  Value n := Some match n with DRes s => NResource s | DText s => NVal (VStr s) | DInt z => NVal (VInt z) end;
  NodeType n := match n with DRes _ => "named_resource" | _ => "literal" end;
  NodeString := node_text;
  NodeKey n := Some (Z.pos (encode n));
  NewResource := DRes;
  NewTextLiteral := DText;
  NewIntLiteral := DInt;
  NewUIntLiteral := DInt;
  NewDoubleLiteral _ := DText "double";
  NewDateDetails _ _ _ := DText "date";
  NewDatetimeDetails _ _ _ _ _ _ := DText "datetime";
  Insert s x p o := ((x, p, o) :: s, None);
  EraseSP s x p := filter (λ t, ¬ (t.1.1 = x ∧ t.1.2 = p)) s;
  SContains s x p o := bool_decide ((x, p, o) ∈ s);
  ContainsSP s x p := match find_sp s x p with [] => false | _ => true end;
  GetObject s x p := head (find_sp s x p);
  Find := remove_dups;
  FindSP s x p := Some (find_sp s x p);
  FindS s x := Some (find_s s x);
  FindPO s p o := Some (omap (λ t, if decide (t.1.2 = p ∧ t.2 = o) then Some t.1.1 else None) (remove_dups s));
  NewReteSession s r := (s, None);
  ExecuteRules s r := ((rules r ++ s)%list, None);
  EncodeRdfSession _ := "triples" }.

#[local] Instance demo_workspace : Workspace := {
  GetWorkspaceControl := Ret (Some (mkWorkspaceControl ["first.jr"; "second.jr"] [("both", ["first.jr"; "second.jr"])]));
  GetRuleEngineConfig r p := Ret "2" }.

Lemma find_s_elem s x p o : (p, o) ∈ find_s s x ↔ (x, p, o) ∈ s.
Proof.
  unfold find_s. rewrite list_elem_of_omap. split.
  - intros ([[x' p'] o'] & Hin & Hd). cbn in Hd. case_decide; simplify_eq. by apply elem_of_remove_dups.
  - intros Hin. exists (x, p, o). split; [by apply elem_of_remove_dups|]. cbn. by rewrite decide_True.
Qed.
Lemma find_sp_elem s x p o : o ∈ find_sp s x p ↔ (x, p, o) ∈ s.
Proof.
  unfold find_sp. rewrite list_elem_of_fmap. rewrite <- find_s_elem. split.
  - intros ([p' o'] & -> & [Hp Hin]%list_elem_of_filter). cbn in *. by subst.
  - intros Hin. exists (p, o). split; [done|]. by apply list_elem_of_filter.
Qed.
Lemma find_sp_NoDup s x p : NoDup (find_sp s x p).
Proof.
  unfold find_sp. apply NoDup_fmap_2_strong.
  - intros [p1 o1] [p2 o2] [H1 _]%list_elem_of_filter [H2 _]%list_elem_of_filter. cbn in *. intros ->. by subst.
  - apply NoDup_filter. unfold find_s. pose proof (NoDup_remove_dups s) as Hd. revert Hd.
    induction (remove_dups s) as [|[[x' p'] o'] l IH]; intros Hd; [constructor|]. apply NoDup_cons in Hd as [Hn Hd].
    cbn. case_decide; [|auto]. apply NoDup_cons. split; [|auto]. intros ([[y q] u] & Hin & He)%list_elem_of_omap.
    cbn in *. case_decide; [|done]. by simplify_eq.
Qed.

Lemma excs_elem s n : n ∈ excs s ↔ (DRes "jets:iState", DRes "jets:exception", n) ∈ s.
Proof. apply find_sp_elem. Qed.
Lemma excs_demo_set (s : dsession) : NoDup (exceptionKey <$> excs s).
Proof.
  apply NoDup_fmap_2; [|apply find_sp_NoDup]. intros n m. unfold exceptionKey. cbn.
  intros Hx. apply node_text_inj. destruct n, m; cbn in Hx |- *; try discriminate Hx; injection Hx as Hx; exact (f_equal (String _) Hx).
Qed.
Lemma union_keeps (s t : dsession) : keeps_excs s (t ++ s)%list.
Proof. intros n. rewrite !excs_elem, elem_of_app. auto. Qed.
Lemma erase_keeps (s : dsession) p : DRes "jets:exception" ≠ p → keeps_excs s (EraseSP s Jets__istate p).
Proof. intros Hp n. rewrite !excs_elem. cbn. rewrite list_elem_of_filter. cbn. naive_solver. Qed.

(** The input of the demonstration: one fact. *)
Definition demo_input (s : dsession) : dsession * res unit := ((DRes "x", DRes "jets:key", DText "x") :: s, Ret tt).

Lemma rule_sets_run_witness : ∃ w' s' o,
  RunRuleSets (node := dnode) demo_input (λ w _ _, w) 0 "both" tt [] = (w', s', Ret o) ∧
  reports (node := dnode) demo_input 0 "both" [] s' o.
Proof. apply (rule_sets_run (node := dnode) demo_input (λ (w : unit) _ _, w) 0); done. Defined.

(** Both rule sets see the exception of the first, which is reported once. *)
Lemma exceptions_once_witness :
  let '(_, s', r) := RunRuleSets (node := dnode) demo_input (λ w _ _, w) 0 "both" tt [] in
  match r with
  | Ret o => ro_Exceptions o = ["tlate"; "tmore"] ∧ ro_Exceptions o ≡ₚ NodeString <$> excs (node := dnode) s'
  | _ => False
  end.
Proof.
  assert (Ho : match (RunRuleSets (node := dnode) demo_input (λ w _ _, w) 0 "both" tt []).2 with
    | Ret o => ro_Exceptions o = ["tlate"; "tmore"] ∧ ro_Err o = None
    | _ => False
    end) by (vm_compute; split; reflexivity).
  destruct (RunRuleSets (node := dnode) demo_input (λ w _ _, w) 0 "both" tt []) as [[w' s'] r] eqn:Er. cbn [snd] in Ho.
  destruct r as [o| | |]; [|destruct Ho..]. destruct Ho as [Hx He]. split; [exact Hx|].
  eapply (exceptions_reported_once (node := dnode) demo_input (λ (w : unit) _ _, w) 0); [| | | | | |exact Er|exact He].
  - exact excs_demo_set.
  - intros s r. apply union_keeps.
  - by intros s r n.
  - intros s k. apply (union_keeps s [_]).
  - intros s. by apply erase_keeps.
  - intros s. by apply erase_keeps.
Defined.
(** ** A worker *)
Definition demo_out : JetrulesOutputChan dnode dsession :=
  mkJetrulesOut "Person" ∅ [] (mkOutput "people" ∅ ["rdf:type"; "name"; "age"; "name"] "Person").
Definition demo_worker (onError : string) : JrPoolWorker :=
  mkWorker (mkJetrulesSpec "Person" 0 7 onError 3 1) false {["Person" := ["jets:key"; "rdf:type"; "jets:source_period_sequence"; "city"]]}
    ∅ ∅ "both" (Some (mkOutput "errors" ∅ [] "")) (mkBuilderKeys 1 "s" 0 "reducing01") None 0 0 None None [].

Lemma demo_keys a b key : NodeKey (session := dsession) a = Some key → NodeKey (session := dsession) b = Some key → a = b.
Proof. cbn. intros [= Ha] [= Hb]. apply (inj encode). congruence. Qed.

(** Two names are a conflict, counted for each column that holds the property. *)
Lemma extracted_row_witness :
  let '(ctx', row) := entityRow (demo_worker OnErrorDrop) (rules "second.jr") (DRes "x") ["rdf:type"; "name"; "age"; "name"]
    (bind (newColumnReader ["rdf:type"; "name"; "age"; "name"] demo_out)) 7 demo_out in
  row = [VSlice [VStr "Person"]; VNil; VInt 3; VNil] ∧ jw_errorCount ctx' = 2.
Proof.
  pose proof (extracted_row (node := dnode) (session := dsession) demo_keys (λ a b (E : DRes a = DRes b), f_equal (λ n, match n with DRes s => s | _ => a end) E)
    (λ s x p, eq_refl) (demo_worker OnErrorDrop) (rules "second.jr") (DRes "x") demo_out ["rdf:type"; "name"; "age"; "name"]) as Hr.
  change (js_CurrentSourcePeriod (jw_config (demo_worker OnErrorDrop))) with 7 in Hr.
  destruct (entityRow _ _ _ _ _ _ _) as [ctx' row]. destruct Hr as (-> & -> & _). split; reflexivity.
Defined.

(** The record of the demonstration, whose run raises two exceptions and reaches the
    maximum of the first rule set. *)
Definition demo_record : record := [VStr "x"; VNil; VNil; VStr "Paris"].
Lemma bundle_policy_witness :
  let b := executeRules (λ _ l, l) (demo_worker OnErrorDrop) 0 [demo_out] (Ret []) demo_record in
  bo_sent b = [] ∧ bo_err b = None ∧ jw_errorCount (bo_ctx b) = 3 ∧ ∃ log, length log = 3%nat ∧ messages (bo_ctx b) = take 3 log.
Proof.
  assert (He : match bundle_run (demo_worker OnErrorDrop) (Ret ([] : dsession)) demo_record with
    | Some (_, _, Ret o) => extracts (demo_worker OnErrorDrop) o = false ∧ ro_Err o = None ∧ length (all_messages (ro_RuleSets o)) = 3%nat | _ => False end)
    by (vm_compute; split; [|split]; reflexivity).
  pose proof (bundle_policy (λ _ l, l) (demo_worker OnErrorDrop) 0 [demo_out] (Ret []) demo_record) as Hp. cbv zeta in Hp |- *. destruct Hp as (ran & later & (Hc & Hm & _) & _ & Hrun).
  destruct (bundle_run (demo_worker OnErrorDrop) (Ret ([] : dsession)) demo_record) as [[[ctx2 s'] [o| | |]]|]; [|destruct He..].
  destruct He as (Ee & Er & El). rewrite Ee, Er in Hrun. destruct Hrun as (-> & -> & Hsent & Herr). rewrite app_nil_r in Hc, Hm. rewrite El in Hc.
  split; [exact Hsent|]. split; [apply Herr; split; reflexivity|]. split; [exact Hc|]. exists (all_messages (ro_RuleSets o)). split; [exact El|exact Hm].
Defined.
(** ** Entities *)
#[local] Instance demo_docs : DocFmt := {| sprint_doc _ := "" |}.
#[local] Instance demo_json : EntityJson :=
  {| json_value v := match v with Scalar (VStr s) => Some s | Node _ => Some "{}" | _ => None end; go_type _ := "" |}.
Abbreviation in_order := (λ (_ : list dnode) (l : list (string * dnode)), l).

Lemma demo_names (a b : dnode) : NodeType a = "named_resource" → NodeType b = "named_resource" → NodeString a = NodeString b → a = b.
Proof. intros _ _. apply node_text_inj. Qed.

(** A person who knows herself: no depth is enough. *)
Definition narcissus : dsession := [(DRes "x", DRes "knows", DRes "x")].
Lemma extraction_ends_witness :
  ¬ ∃ n, ∀ fuel, (n ≤ fuel)%nat → is_ret (extractAsEntity in_order narcissus false ∅ fuel [] (DRes "x")) = true.
Proof.
  intros Hn. apply (extraction_ends narcissus false ∅ demo_names in_order) in Hn; [|done..].
  assert (Hv : visits narcissus ∅ (DRes "x") (DRes "x")).
  { exists [(DRes "knows", DRes "x")], (DRes "knows"), [DRes "x"]. split_and!; [done| |done|by left].
    split; [done|]. exists (DRes "x"). split; [by left|done]. }
  induction Hn as [x _ IH]. by apply (IH x).
Defined.

(** A literal and an entity under one property: the literal is listed twice, the second
    time as an entity without fields. *)
Definition mixed : dsession := [(DRes "x", DRes "knows", DText "Bob"); (DRes "x", DRes "knows", DRes "y"); (DRes "y", DRes "age", DInt 3)].
Example mixed_property_lists_literal_again :
  (let! m := extractAsEntity in_order mixed false ∅ 3 [] (DRes "x") in
   Ret match m !! "rknows" with Some (Items l) => length l | _ => 0%nat end) = Ret 3%nat.
Proof. vm_compute. reflexivity. Qed.

(** Two sessions with the same triples in another order. *)
Definition one_order : dsession := [(DRes "x", DRes "drug", DText "b"); (DRes "x", DRes "drug", DText "a")].
Definition other_order : dsession := [(DRes "x", DRes "drug", DText "a"); (DRes "x", DRes "drug", DText "b")].
Lemma find_s_perm (s t : dsession) x : s ≡ₚ t → find_s s x ≡ₚ find_s t x.
Proof.
  intros Hp. unfold find_s. assert (Hd : remove_dups s ≡ₚ remove_dups t).
  { apply NoDup_Permutation; [apply NoDup_remove_dups..|]. intros a. rewrite !elem_of_remove_dups. by rewrite Hp. }
  by rewrite Hd.
Qed.
Lemma extraction_reproducible_witness : ∃ m1 m2,
  extractAsEntity in_order one_order false ∅ 1 [] (DRes "x") = Ret m1 ∧
  extractAsEntity in_order other_order false ∅ 1 [] (DRes "x") = Ret m2 ∧ fields_alike m1 m2.
Proof.
  assert (R1 : is_ret (extractAsEntity in_order one_order false ∅ 1 [] (DRes "x")) = true) by (vm_compute; reflexivity).
  destruct (extractAsEntity in_order one_order false ∅ 1 [] (DRes "x")) as [m1| | |] eqn:E1; [|discriminate R1..].
  assert (R2 : is_ret (extractAsEntity in_order other_order false ∅ 1 [] (DRes "x")) = true) by (vm_compute; reflexivity).
  destruct (extractAsEntity in_order other_order false ∅ 1 [] (DRes "x")) as [m2| | |] eqn:E2; [|discriminate R2..].
  exists m1, m2. split; [reflexivity|]. split; [reflexivity|].
  assert (Hp : one_order ≡ₚ other_order) by apply Permutation_swap.
  eapply (extraction_reproducible one_order other_order false ∅ in_order in_order demo_names); [done|done| | |done|exact E1|exact E2].
  - intros x. constructor. by apply find_s_perm.
  - intros x p. constructor. apply fmap_Permutation, filter_Permutation. by apply find_s_perm.
Defined.
End RuleDemo.
