(* ===== verification/RulePool.v ===== *)
(** * The pool of rule workers (src/jets/compute_pipes/jetrules_pool_manager.go)

    The operator hands bundles to a channel, the workers take them ([DoWork] of
    jetrules_pool_worker.go), a collector gathers their results, and the operator waits for
    the workers before the step goes on ([Finally] of pipe_transformation_jetrules.go). The
    goroutines are interleaved by [step], one action at a time: a test of [done] that finds it
    open and the closing that follows are two, between which another goroutine may close it.
    The close of a closed channel panics. In a worker the deferred function of [executeRules]
    recovers that panic once and reports it as it does the panic of a bundle; in the deferred
    function itself and in the collector nothing recovers it and the process ends. The errors
    sent to [errCh], which holds a thousand, never block and are left out, and nothing but
    the pool closes [done]. *)
From stdpp Require Import base list strings gmap relations.
From Stdlib Require Import ZArith Lia.
From S2P Require Import Prelude GoFloat GoText GoValue EvalOperators EvalExpression Records HashKey Cleansing ColumnEval ColumnBuild Pipes RuleSession RuleWorker.
Local Open Scope Z_scope.

#[local] Set Warnings "-register-all".

(** How a bundle fails: [executeRules] goes to its end with an error, or panics. *)
Inductive fault := Failure (e : string) | Panicked (e : string).
(** What a bundle does to a worker that has done the bundles of a list: how it fails, and the
    errors the worker has counted. *)
Class BundleWork (T : Type) := { work : list T → T → option fault; errors_of : list T → Z }.

(** The bundles of the rules operator. *)
Section rules_work.
Context `{GoArch} `{GoUnicode} `{GoFmt} `{GoZone} `{GoRegexp} `{GoUuid} `{GoClock} `{GoRand} `{DomainKeyEnv} `{GoDigits}.
Context {node session : Type} `{RuleEngine node session} `{Workspace}.
Variables (map_order : nat → list string → list string) (ctx : JrPoolWorker) (n : nat)
  (outs : list (JetrulesOutputChan node session)) (session0 : res session).
Definition after_bundles (log : list record) : JrPoolWorker * nat * list (JetrulesOutputChan node session) :=
  foldl (λ '(ctx, n, outs) bundle,
    let b := executeRules map_order ctx n outs session0 bundle in (bo_ctx b, bo_n b, bo_outs b)) (ctx, n, outs) log.
Definition rules_work : BundleWork record := {|
  work log bundle :=
    let '(ctx, n, outs) := after_bundles log in
    let b := executeRules map_order ctx n outs session0 bundle in (if bo_panicked b then Panicked else Failure) <$> bo_err b;
  errors_of log := jw_errorCount (after_bundles log).1.1 |}.
End rules_work.

(** ** The goroutines *)
Record JetrulesWorkerResult := mkWorkerResult { ReteSessionCount : Z; ErrorsCount : Z; wr_Err : option string }.
Definition no_result : JetrulesWorkerResult := mkWorkerResult 0 0 None.

Section pool.
Context {T : Type} `{BundleWork T}.

(** Where a worker is, with the bundles it has done: at the receive, in a bundle, at the
    send of an error, at the test of [done], about to close it, at the second send of an error
    after its close panicked, at the send of its result, returned, after an error or not.
    [deferred] tells that it is in the deferred function. *)
Inductive worker :=
| Idle (log : list T)
| Running (log : list T) (t : T)
| SendError (log : list T) (e : string) (deferred : bool)
| Testing (log : list T) (deferred : bool)
| Closing (log : list T) (deferred : bool)
| Resend (log : list T)
| Finishing (log : list T)
| Ended (log : list T) (failed : bool).
(** The collector: in its loop, at the send of what it collected, at its test of [done] after
    an error, about to close it, returned with what it sent. *)
Inductive collector :=
| Collecting (r : JetrulesWorkerResult)
| Reporting (r : JetrulesWorkerResult)
| CollTesting (r : JetrulesWorkerResult)
| CollClosing (r : JetrulesWorkerResult)
| Reported (sent : option JetrulesWorkerResult).
(** [inputs] are the bundles the operator has still to apply; [closed] tells that
    [Finally] closed the channel of tasks, of capacity one, [waited] that the workers were
    waited for and the channel of results closed, and [crashed] that a panic ended the
    process. *)
Record pool := mkPool {
  inputs : list T; taskCh : option T; closed : bool; done : bool; workers : list worker; coll : collector; waited : bool; crashed : bool }.

Definition pool_size (PoolSize : Z) : Z := if PoolSize <? 1 then 1 else PoolSize.
Definition pool_start (PoolSize : Z) (tasks : list T) : pool :=
  mkPool tasks None false false (repeat (Idle []) (Z.to_nat (pool_size PoolSize))) (Collecting no_result) false false.

Definition is_ended (w : worker) : bool := match w with Ended _ _ => true | _ => false end.
Definition add_result (r : JetrulesWorkerResult) (log : list T) : JetrulesWorkerResult :=
  mkWorkerResult (ReteSessionCount r + Z.of_nat (length log)) (ErrorsCount r + errors_of log) (wr_Err r).
Definition with_error (r : JetrulesWorkerResult) (e : string) : JetrulesWorkerResult :=
  mkWorkerResult (ReteSessionCount r) (ErrorsCount r) (Some e).

Definition close_panic : string := "executeRules: recovered error: close of closed channel".

Inductive step : pool → pool → Prop :=
  (** [Apply]: the task is sent, or [done] is closed. *)
  | step_apply t ts d ws c w : step (mkPool (t :: ts) None false d ws c w false) (mkPool ts (Some t) false d ws c w false)
  | step_drop t ts ch ws c w : step (mkPool (t :: ts) ch false true ws c w false) (mkPool ts ch false true ws c w false)
  (** [Finally] closes the channel of tasks. *)
  | step_close ch d ws c w : step (mkPool [] ch false d ws c w false) (mkPool [] ch true d ws c w false)
  (** [DoWork]: the range over the tasks, and a bundle. *)
  | step_take ts t cl d ws c w i log :
      ws !! i = Some (Idle log) → step (mkPool ts (Some t) cl d ws c w false) (mkPool ts None cl d (<[i := Running log t]> ws) c w false)
  | step_range_end ts d ws c w i log :
      ws !! i = Some (Idle log) → step (mkPool ts None true d ws c w false) (mkPool ts None true d (<[i := Finishing log]> ws) c w false)
  | step_bundle ts ch cl d ws c w i log t :
      ws !! i = Some (Running log t) → work log t = None →
      step (mkPool ts ch cl d ws c w false) (mkPool ts ch cl d (<[i := Idle (log ++ [t])]> ws) c w false)
  | step_failed ts ch cl d ws c w i log t e :
      ws !! i = Some (Running log t) → work log t = Some (Failure e) →
      step (mkPool ts ch cl d ws c w false) (mkPool ts ch cl d (<[i := SendError log e false]> ws) c w false)
  | step_panicked ts ch cl d ws c w i log t e :
      ws !! i = Some (Running log t) → work log t = Some (Panicked e) →
      step (mkPool ts ch cl d ws c w false) (mkPool ts ch cl d (<[i := SendError log e true]> ws) c w false)
  (** The error goes to the collector, which leaves its loop. *)
  | step_send_error ts ch cl d ws r w i log e deferred :
      ws !! i = Some (SendError log e deferred) →
      step (mkPool ts ch cl d ws (Collecting r) w false) (mkPool ts ch cl d (<[i := Testing log deferred]> ws) (Reporting (with_error r e)) w false)
  (** The worker tests [done], and closes it when it was open. *)
  | step_test_closed ts ch cl ws c w i log deferred :
      ws !! i = Some (Testing log deferred) → step (mkPool ts ch cl true ws c w false) (mkPool ts ch cl true (<[i := Ended log true]> ws) c w false)
  | step_test_open ts ch cl ws c w i log deferred :
      ws !! i = Some (Testing log deferred) → step (mkPool ts ch cl false ws c w false) (mkPool ts ch cl false (<[i := Closing log deferred]> ws) c w false)
  | step_interrupt ts ch cl ws c w i log deferred :
      ws !! i = Some (Closing log deferred) → step (mkPool ts ch cl false ws c w false) (mkPool ts ch cl true (<[i := Ended log true]> ws) c w false)
  (** It has been closed since: the deferred function sends the panic, or the process ends. *)
  | step_close_panics ts ch cl ws c w i log :
      ws !! i = Some (Closing log false) → step (mkPool ts ch cl true ws c w false) (mkPool ts ch cl true (<[i := Resend log]> ws) c w false)
  | step_close_crashes ts ch cl ws c w i log :
      ws !! i = Some (Closing log true) → step (mkPool ts ch cl true ws c w false) (mkPool ts ch cl true ws c w true)
  | step_resend ts ch cl d ws r w i log :
      ws !! i = Some (Resend log) →
      step (mkPool ts ch cl d ws (Collecting r) w false) (mkPool ts ch cl d (<[i := Testing log true]> ws) (Reporting (with_error r close_panic)) w false)
  (** The result of a worker goes to the collector, or [done] is closed. *)
  | step_send_result ts ch cl d ws r w i log :
      ws !! i = Some (Finishing log) →
      step (mkPool ts ch cl d ws (Collecting r) w false) (mkPool ts ch cl d (<[i := Ended log false]> ws) (Collecting (add_result r log)) w false)
  | step_interrupted ts ch cl ws c w i log :
      ws !! i = Some (Finishing log) → step (mkPool ts ch cl true ws c w false) (mkPool ts ch cl true (<[i := Ended log false]> ws) c w false)
  (** The workers are waited for, and the channel of results is closed. *)
  | step_wait ts ch cl d ws c :
      Forall (λ w, is_ended w = true) ws → step (mkPool ts ch cl d ws c false false) (mkPool ts ch cl d ws c true false)
  | step_results_closed ts ch cl d ws r : step (mkPool ts ch cl d ws (Collecting r) true false) (mkPool ts ch cl d ws (Reporting r) true false)
  (** The collector sends its result, or [done] is closed. *)
  | step_report ts ch cl d ws r w :
      step (mkPool ts ch cl d ws (Reporting r) w false) (mkPool ts ch cl d ws (if is_some (wr_Err r) then CollTesting r else Reported (Some r)) w false)
  | step_report_interrupted ts ch cl ws r w :
      step (mkPool ts ch cl true ws (Reporting r) w false) (mkPool ts ch cl true ws (Reported None) w false)
  (** After an error it tests [done], and closes it when it was open; nothing recovers a
      panic. *)
  | step_coll_closed ts ch cl ws r w : step (mkPool ts ch cl true ws (CollTesting r) w false) (mkPool ts ch cl true ws (Reported (Some r)) w false)
  | step_coll_open ts ch cl ws r w : step (mkPool ts ch cl false ws (CollTesting r) w false) (mkPool ts ch cl false ws (CollClosing r) w false)
  | step_coll_interrupt ts ch cl ws r w : step (mkPool ts ch cl false ws (CollClosing r) w false) (mkPool ts ch cl true ws (Reported (Some r)) w false)
  | step_coll_crashes ts ch cl ws r w : step (mkPool ts ch cl true ws (CollClosing r) w false) (mkPool ts ch cl true ws (CollClosing r) w true).

(** The step is over: [Finally] returns. *)
Definition released (p : pool) : Prop :=
  closed p = true ∧ waited p = true ∧ crashed p = false ∧ Forall (λ w, is_ended w = true) (workers p) ∧ ∃ sent, coll p = Reported sent.
(** [done] was closed twice: the process has ended, or a worker sends the panic of its close
    to a collector that has left. *)
Definition closed_twice (p : pool) : Prop :=
  done p = true ∧ (crashed p = true ∨ ∃ i log, workers p !! i = Some (Resend log)).
Definition stuck (p : pool) : Prop := ∀ p', ¬ step p p'.

(** ** Every run ends *)
Definition weight (w : worker) : nat :=
  match w with
  | Idle _ => 7 | Running _ _ => 8 | SendError _ _ _ => 7 | Testing _ false => 6 | Closing _ false => 5 | Resend _ => 4 | Testing _ true => 3 | Closing _ true => 2
  | Finishing _ => 1 | Ended _ _ => 0
  end.
Definition coll_weight (c : collector) : nat := match c with Collecting _ => 4 | Reporting _ => 3 | CollTesting _ => 2 | CollClosing _ => 1 | Reported _ => 0 end.
Definition remaining_actions (p : pool) : nat :=
  3 * length (inputs p) + match taskCh p with Some _ => 2 | None => 0 end + (if closed p then 0 else 1) + sum_list_with weight (workers p)
  + coll_weight (coll p) + (if waited p then 0 else 1) + (if crashed p then 0 else 1).

Lemma sum_update {A} (f : A → nat) (l : list A) i x y :
  l !! i = Some x → (sum_list_with f (<[i := y]> l) + f x = sum_list_with f l + f y)%nat.
Proof. revert i. induction l as [|a l IH]; intros [|i] E; try done; simpl in *; [injection E as ->; lia|]. specialize (IH i E). lia. Qed.
Lemma step_weight p p' : step p p' → (S (remaining_actions p') ≤ remaining_actions p)%nat.
Proof.
  unfold remaining_actions. destruct 1; cbn;
    repeat match goal with E : ?ws !! ?i = Some _ |- context [<[?i := ?y]> ?ws] =>
      pose proof (sum_update weight ws i _ y E) as Hs; cbn in Hs; clear E end;
    repeat case_match; cbn [coll_weight]; lia.
Qed.
Lemma run_bound n p p' : nsteps step n p p' → (n + remaining_actions p' ≤ remaining_actions p)%nat.
Proof. induction 1 as [p|n p p1 p2 Hs _ IH]; [lia|]. apply step_weight in Hs. lia. Qed.
End pool.
