(* ===== verification/RulePoolLaws.v ===== *)
(** * How a run of the pool of rule workers ends

    Invariants of the interleaving of RulePool.v: without a failure every bundle is done once
    and counted; one failure closes [done] and releases the operator unless [done] is closed
    twice, which one failure can do; two failures can leave a worker at its send for ever. *)
From stdpp Require Import base list strings gmap relations.
From Stdlib Require Import ZArith Lia.
From S2P Require Import Prelude RuleSession RulePool.
Local Open Scope Z_scope.

#[local] Set Warnings "-register-all".

(** The lookups of a list with one place changed. *)
Ltac lookup_cases :=
  repeat match goal with
  | E : <[?i := _]> _ !! ?j = Some _ |- _ => apply list_lookup_insert_Some in E as [(? & ? & ?)|[? E]]; subst
  end.

Section laws.
Context {T : Type} `{BundleWork T}.
(** The bundles that may fail. *)
Variable fails : T → bool.
Hypothesis fails_only : ∀ log t, fails t = false → work log t = None.

Definition count_fails (l : list T) : nat := length (List.filter fails l).
(** What a worker holds of a failing bundle. *)
Definition worker_fails (w : worker) : nat :=
  match w with Running _ t => count_fails [t] | SendError _ _ _ | Testing _ _ | Closing _ _ | Resend _ | Ended _ true => 1%nat | _ => 0%nat end.
Definition in_flight (ch : option T) : list T := match ch with Some t => [t] | None => [] end.
(** The failures of a run, those to come and those that were. *)
Definition failures (p : pool) : nat :=
  count_fails (inputs p) + count_fails (in_flight (taskCh p)) + sum_list_with worker_fails (workers p).

Lemma count_fails_cons t l : count_fails (t :: l) = (count_fails [t] + count_fails l)%nat.
Proof. unfold count_fails. cbn. by destruct (fails t). Qed.
Lemma count_fails_one log t e : work log t = Some e → count_fails [t] = 1%nat.
Proof. intros E. unfold count_fails. cbn. destruct (fails t) eqn:Ef; [done|]. by rewrite (fails_only log t Ef) in E. Qed.
Lemma failures_step p p' : step p p' → (failures p' ≤ failures p)%nat.
Proof.
  unfold failures. destruct 1; cbn [inputs taskCh workers in_flight] in *;
    repeat match goal with E : ?ws !! ?i = Some _ |- context [<[?i := ?y]> ?ws] =>
      pose proof (sum_update worker_fails ws i _ y E) as Hs; cbn [worker_fails] in Hs; clear E end;
    repeat match goal with E : work _ _ = Some _ |- _ => apply count_fails_one in E end;
    rewrite ?(count_fails_cons t ts); change (count_fails []) with 0%nat; lia.
Qed.

(** ** Invariants *)
Definition finishing (w : worker (T := T)) : bool := match w with Finishing _ | Ended _ false => true | _ => false end.
Definition erred (w : worker (T := T)) : bool := match w with Testing _ _ | Closing _ _ | Resend _ | Ended _ true => true | _ => false end.
Definition collecting (c : collector) : bool := match c with Collecting _ => true | _ => false end.
Definition some_erred (ws : list (worker (T := T))) : Prop := ∃ i w, ws !! i = Some w ∧ erred w = true.

Record pool_ok (p : pool) : Prop := {
  ok_size : workers p ≠ [];
  ok_closed : closed p = true → inputs p = [];
  ok_finishing : ∀ i w, workers p !! i = Some w → finishing w = true → closed p = true ∧ taskCh p = None;
  ok_done : ∀ i log, workers p !! i = Some (Ended log true) ∨ workers p !! i = Some (Resend log) → done p = true;
  ok_crashed : crashed p = true → done p = true;
  ok_waited : waited p = true → ∀ i w, workers p !! i = Some w → is_ended w = true;
  ok_coll : collecting (coll p) = true ∨ waited p = true ∨ some_erred (workers p) }.

Lemma some_erred_insert ws i x y : some_erred ws → ws !! i = Some x → (erred x = true → erred y = true) → some_erred (<[i := y]> ws).
Proof.
  intros (j & w & Hj & He) Hi Hxy. destruct (decide (i = j)) as [->|Hne].
  - exists j, y. rewrite list_lookup_insert_eq by (by eapply lookup_lt_Some). split; [done|]. apply Hxy. congruence.
  - exists j, w. by rewrite list_lookup_insert_ne.
Qed.
Lemma insert_nonempty {A} (l : list A) i x : l ≠ [] → <[i := x]> l ≠ [].
Proof. by destruct l, i. Qed.
Lemma coll_insert c w ws i x y :
  collecting c = true ∨ w = true ∨ some_erred ws → ws !! i = Some x → (erred x = true → erred y = true) →
  collecting c = true ∨ w = true ∨ some_erred (<[i := y]> ws).
Proof. intros [?|[?|?]] Hi Hxy; auto. right; right. by eapply some_erred_insert. Qed.

(** A worker changes its place. *)
Lemma pool_ok_worker ts ch ch' cl d d' ws c w i x y :
  pool_ok (mkPool ts ch cl d ws c w false) → ws !! i = Some x → is_ended x = false →
  (∀ log, y = Ended log true ∨ y = Resend log → d' = true) → (d = true → d' = true) → (ch = None → ch' = None) →
  (finishing x = true ∨ finishing y = false ∨ (cl = true ∧ ch' = None)) → (erred x = true → erred y = true) →
  pool_ok (mkPool ts ch' cl d' (<[i := y]> ws) c w false).
Proof.
  intros [Hs Hc Hf Hd Hcr Hw Hcoll] Hi Hx Hy Hdd Hch Hfin He. split; cbn in *.
  - by apply insert_nonempty.
  - done.
  - intros j z Hj Hz. lookup_cases.
    + destruct Hfin as [Hfx|[Hfy|?]]; [|congruence|done]. destruct (Hf _ _ Hi Hfx) as [-> Hn]. by rewrite (Hch Hn).
    + destruct (Hf _ _ Hj Hz) as [-> Hn]. by rewrite (Hch Hn).
  - intros j log [Hj|Hj]; lookup_cases; [by eapply Hy; left| |by eapply Hy; right|]; apply Hdd; eapply Hd; [by left|by right].
  - done.
  - intros ->. pose proof (Hw eq_refl _ _ Hi). congruence.
  - by eapply coll_insert.
Qed.

Lemma pool_ok_coll ts ch cl d d' ws c c' w :
  pool_ok (mkPool ts ch cl d ws c w false) → (d = true → d' = true) →
  (collecting c' = true ∨ w = true ∨ some_erred ws) → pool_ok (mkPool ts ch cl d' ws c' w false).
Proof. intros [Hs Hc Hf Hd Hcr Hw _] Hdd Hc'. split; cbn in *; eauto. Qed.

Ltac moves_worker Hok := by eapply pool_ok_worker; [exact Hok|eassumption|done|intros ? [?|?]; congruence|..]; cbn; auto.
Lemma pool_ok_step p p' : step p p' → pool_ok p → pool_ok p'.
Proof.
  destruct 1; intros Hok; try moves_worker Hok.
  - destruct Hok as [? ? Hf ? ? ? ?]; split; cbn in *; auto; try done. intros j w' Hj Hz. by destruct (Hf j w' Hj Hz).
  - destruct Hok as [? ? Hf ? ? ? ?]; split; cbn in *; auto; try done.
  - destruct Hok as [? ? Hf ? ? ? ?]; split; cbn in *; auto; try done. intros j w' Hj Hz. by destruct (Hf j w' Hj Hz).
  - apply (pool_ok_coll _ _ _ d d _ (Collecting r)); [moves_worker Hok|done|].
    right; right. exists i, (Testing log deferred). rewrite list_lookup_insert_eq by (by eapply lookup_lt_Some). done.
  - destruct Hok as [? ? Hf ? ? ? ?]; split; cbn in *; auto.
  - apply (pool_ok_coll _ _ _ d d _ (Collecting r)); [moves_worker Hok|done|].
    right; right. exists i, (Testing log true). rewrite list_lookup_insert_eq by (by eapply lookup_lt_Some). done.
  - apply (pool_ok_coll _ _ _ d d _ (Collecting r)); [moves_worker Hok|done|by left].
  - destruct Hok as [? ? Hf ? ? ? ?]; split; cbn in *; auto. intros _ j z Hj. eapply (Forall_lookup_1 (λ w, is_ended w = true)); eassumption.
  - by eapply pool_ok_coll; [exact Hok|done|auto].
  - eapply pool_ok_coll; [exact Hok|done|]. destruct Hok as [_ _ _ _ _ _ [Hc|?]]; [discriminate Hc|by right].
  - eapply pool_ok_coll; [exact Hok|done|]. destruct Hok as [_ _ _ _ _ _ [Hc|?]]; [discriminate Hc|by right].
  - eapply pool_ok_coll; [exact Hok|done|]. destruct Hok as [_ _ _ _ _ _ [Hc|?]]; [discriminate Hc|by right].
  - eapply pool_ok_coll; [exact Hok|done|]. destruct Hok as [_ _ _ _ _ _ [Hc|?]]; [discriminate Hc|by right].
  - eapply pool_ok_coll; [exact Hok|done|]. destruct Hok as [_ _ _ _ _ _ [Hc|?]]; [discriminate Hc|by right].
  - destruct Hok as [? ? Hf ? ? ? ?]; split; cbn in *; auto.
Qed.
Lemma pool_ok_start PoolSize tasks : pool_ok (pool_start PoolSize tasks).
Proof.
  assert (Hr : ∀ i w, repeat (Idle []) (Z.to_nat (pool_size PoolSize)) !! i = Some w → w = Idle (T := T) []).
  { intros i w Hi. apply list_elem_of_lookup_2, list_elem_of_In, repeat_spec in Hi. done. }
  split; cbn; try done; [| | |by left].
  - intros E. apply (f_equal length) in E. rewrite repeat_length in E. cbn in E. unfold pool_size in E. case_match; lia.
  - by intros i w ->%Hr.
  - by intros i log [Hi%Hr|Hi%Hr].
Qed.

(** ** No run gets stuck before its end *)
Lemma failures_two ws i j x y :
  ws !! i = Some x → ws !! j = Some y → i ≠ j → (worker_fails x + worker_fails y ≤ sum_list_with worker_fails ws)%nat.
Proof.
  revert i j. induction ws as [|w ws IH]; intros [|i] [|j] Hi Hj Hne; try done; cbn in *.
  - injection Hi as ->.
    assert (worker_fails y ≤ sum_list_with worker_fails ws)%nat; [|lia]. clear -Hj. revert j Hj.
    induction ws as [|z ws IH]; intros [|j] Hj; try done; cbn in *; [injection Hj as ->; lia|]. specialize (IH j Hj). lia.
  - injection Hj as ->. assert (worker_fails x ≤ sum_list_with worker_fails ws)%nat; [|lia]. clear -Hi. revert i Hi.
    induction ws as [|z ws IH]; intros [|i] Hi; try done; cbn in *; [injection Hi as ->; lia|]. specialize (IH i Hi). lia.
  - assert (i ≠ j) by congruence. specialize (IH i j Hi Hj ltac:(done)). lia.
Qed.
Lemma send_error_collected p i log e df : pool_ok p → (failures p ≤ 1)%nat → workers p !! i = Some (SendError log e df) → ∃ r, coll p = Collecting r.
Proof.
  intros Hok Hb Hi. destruct (ok_coll _ Hok) as [Hc|[Hw|(j & w & Hj & He)]].
  - destruct (coll p); [eauto|done..].
  - by pose proof (ok_waited _ Hok Hw _ _ Hi).
  - exfalso. assert (Hne : i ≠ j) by (intros ->; rewrite Hi in Hj; injection Hj as <-; done).
    pose proof (failures_two _ _ _ _ _ Hi Hj Hne) as H2. unfold failures in Hb. cbn in H2.
    destruct w as [| | | | | | |? []]; cbn in *; try done; lia.
Qed.

(** A worker that has not returned has something to do, or waits: for the operator, for the
    collector it sent an error to when it sends the panic of its close, or, when several
    bundles failed, for the collector another has sent an error to. *)
Lemma worker_moves p i w :
  pool_ok p → crashed p = false → workers p !! i = Some w → is_ended w = false →
  (∃ p', step p p') ∨ (∃ log, w = Idle log ∧ taskCh p = None ∧ closed p = false) ∨ (∃ j log, workers p !! j = Some (Resend log)) ∨
  ∃ j log e df, workers p !! j = Some (SendError log e df) ∧ collecting (coll p) = false.
Proof.
  intros Hok Hcr Hi He. destruct p as [ts ch cl d ws c wt cr]; cbn in *. subst cr.
  destruct w as [log|log t|log e df|log df|log df|log|log|]; [..|done].
  - destruct ch as [t|]; [left; eexists; by apply step_take|]. destruct cl; [left; eexists; by eapply step_range_end|right; left; eauto].
  - left. destruct (work log t) as [[e|e]|] eqn:E; eexists; [by eapply step_failed|by eapply step_panicked|by eapply step_bundle].
  - destruct c as [r| | | |]; [left; eexists; by eapply step_send_error|right; right; right; by exists i, log, e, df..].
  - left. destruct d; eexists; [by eapply step_test_closed|by eapply step_test_open].
  - left. destruct d, df; eexists; [by eapply step_close_crashes|by eapply step_close_panics|by eapply step_interrupt..].
  - right; right; left. by exists i, log.
  - destruct d; [left; eexists; by eapply step_interrupted|].
    destruct (ok_coll _ Hok) as [Hc|[Hw|(j & w & Hj & Hw)]]; cbn in *.
    + destruct c; [|done..]. left. eexists. by eapply step_send_result.
    + pose proof (ok_waited _ Hok Hw _ _ Hi). done.
    + destruct w as [| | |log' df|log' df|log'| |log' []]; cbn in Hw; try done.
      * left. eexists. by eapply step_test_open.
      * left. eexists. by eapply step_interrupt.
      * by pose proof (ok_done _ Hok j log' (or_intror Hj)).
      * by pose proof (ok_done _ Hok j log' (or_introl Hj)).
Qed.
(** A worker that waits for ever at the send of its error. *)
Definition unheard (p : pool (T := T)) : Prop := ∃ i log e df, workers p !! i = Some (SendError log e df) ∧ collecting (coll p) = false.
Lemma stuck_released p : pool_ok p → stuck p → released p ∨ closed_twice p ∨ unheard p.
Proof.
  intros Hok Hst. destruct (crashed p) eqn:Hcr; [right; left; split; [by apply (ok_crashed _ Hok)|by left]|].
  assert (Hex : ∀ b, existsb b (workers p) = true → ∃ i w, workers p !! i = Some w ∧ b w = true).
  { intros b (w & [i Hi]%list_elem_of_In%list_elem_of_lookup & Hb)%existsb_exists. by exists i, w. }
  destruct (existsb (λ w, match w with Resend _ => true | _ => false end) (workers p)) eqn:Ere.
  { apply Hex in Ere as (i & w & Hi & Hw). destruct w; try done. right; left. split; [apply (ok_done _ Hok i log); by right|]. right. by exists i, log. }
  destruct (existsb (λ w, match w with SendError _ _ _ => negb (collecting (coll p)) | _ => false end) (workers p)) eqn:Ese.
  { apply Hex in Ese as (i & w & Hi & Hw). destruct w; try done. right; right. apply negb_true_iff in Hw. by exists i, log, e, deferred. }
  assert (Hno : ∀ b i w, existsb b (workers p) = false → workers p !! i = Some w → b w = true → False).
  { intros b i w Hb Hi Hw. rewrite (proj2 (existsb_exists b (workers p))) in Hb; [done|]. exists w. split; [by apply list_elem_of_In; eapply list_elem_of_lookup_2|done]. }
  left. assert (Hmoves : ∀ i w, workers p !! i = Some w → is_ended w = true ∨ (taskCh p = None ∧ closed p = false)).
  { intros i w Hi. destruct (is_ended w) eqn:Ew; [by left|]. right.
    destruct (worker_moves p i w Hok Hcr Hi Ew) as [[p' Hp]|[(log & -> & ?)|[(j & log & Hj)|(j & log & e & df & Hj & Hc)]]]; [by apply Hst in Hp|done| |].
    - destruct (Hno _ j (Resend log) Ere Hj eq_refl).
    - destruct (Hno _ j (SendError log e df) Ese Hj). by rewrite Hc. }
  clear Ere Ese Hex Hno. assert (Hcl : closed p = true).
  { destruct p as [ts ch [] d ws c wt cr]; [done|]. cbn in Hcr. subst cr. exfalso. destruct ts as [|t ts]; [by eapply Hst, step_close|].
    destruct ch as [t'|]; [|by eapply Hst, step_apply]. cbn in *.
    destruct ws as [|w ws]; [by pose proof (ok_size _ Hok)|]. destruct (Hmoves 0%nat w eq_refl) as [He|[? _]]; [|done].
    destruct w as [| | | | | | |log [|]]; try done.
    - pose proof (ok_done _ Hok 0%nat log (or_introl eq_refl)) as Hd. cbn in Hd. subst d. by eapply Hst, step_drop.
    - by destruct (ok_finishing _ Hok 0%nat _ eq_refl eq_refl). }
  assert (Hend : Forall (λ w, is_ended w = true) (workers p)).
  { apply Forall_lookup. intros i w Hi. destruct (Hmoves i w Hi) as [|[_ ?]]; [done|congruence]. }
  destruct p as [ts ch cl d ws c wt cr]; cbn in *. subst cl cr.
  assert (wt = true) as -> by (destruct wt; [done|]; exfalso; by eapply Hst, step_wait).
  split_and!; [done|done|done|done|]. destruct c as [r|r|r|r|sent]; [| | | |by exists sent]; exfalso.
  - by eapply Hst, step_results_closed.
  - by eapply Hst, step_report.
  - destruct d; [by eapply Hst, step_coll_closed|by eapply Hst, step_coll_open].
  - destruct d; [by eapply Hst, step_coll_crashes|by eapply Hst, step_coll_interrupt].
Qed.

(** ** A run without failures *)
Definition zsum {A} (f : A → Z) (l : list A) : Z := foldr (λ x acc, f x + acc) 0 l.
Lemma zsum_update {A} (f : A → Z) (l : list A) i x y : l !! i = Some x → zsum f (<[i := y]> l) = zsum f l - f x + f y.
Proof.
  unfold zsum. revert i. induction l as [|a l IH]; intros [|i] E; try done; simpl in *; [injection E as ->; lia|]. rewrite (IH i E). lia.
Qed.

(** The bundles of a worker, and what the results of those that returned add up to. *)
Definition tasks_of (w : worker) : list T :=
  match w with Idle l | SendError l _ _ | Testing l _ | Closing l _ | Resend l | Finishing l | Ended l _ => l | Running l t => l ++ [t] end.
Definition ended_log (w : worker (T := T)) : list T := match w with Ended l _ => l | _ => [] end.
Definition tally (ws : list worker) : JetrulesWorkerResult :=
  mkWorkerResult (zsum (λ w, Z.of_nat (length (ended_log w))) ws) (zsum (λ w, if is_ended w then errors_of (ended_log w) else 0) ws) None.
Lemma tally_same ws i x y : ws !! i = Some x → is_ended x = false → is_ended y = false → tally (<[i := y]> ws) = tally ws.
Proof.
  intros Hi Hx Hy. unfold tally. rewrite !(zsum_update _ _ _ _ _ Hi), Hx, Hy.
  destruct x, y; try done; cbn; f_equal; lia.
Qed.
Lemma tally_end ws i log : ws !! i = Some (Finishing log) → tally (<[i := Ended log false]> ws) = add_result (tally ws) log.
Proof. intros Hi. unfold tally, add_result. rewrite !(zsum_update _ _ _ _ _ Hi). cbn. f_equal; lia. Qed.

Definition clean_coll (p : pool) : Prop :=
  match coll p with
  | Collecting r => r = tally (workers p)
  | Reporting r => waited p = true ∧ r = tally (workers p)
  | CollTesting _ | CollClosing _ => False
  | Reported sent => waited p = true ∧ sent = Some (tally (workers p))
  end.
Record clean (tasks : list T) (p : pool) : Prop := {
  cl_done : done p = false;
  cl_failures : failures p = 0%nat;
  cl_tasks : inputs p ++ in_flight (taskCh p) ++ (workers p ≫= tasks_of) ≡ₚ tasks;
  cl_coll : clean_coll p }.
Lemma bind_update {A B} (f : A → list B) (l : list A) i x y extra :
  l !! i = Some x → f y ≡ₚ extra ++ f x → (<[i := y]> l ≫= f) ≡ₚ extra ++ (l ≫= f).
Proof.
  revert i. induction l as [|a l IH]; intros [|i] E Hy; try done; cbn in *.
  - injection E as ->. by rewrite Hy, app_assoc.
  - rewrite (IH i E Hy). rewrite !app_assoc. by rewrite (Permutation_app_comm (f a)).
Qed.
(** A worker that does not return yet changes its place; [extra] is the task it took. *)
Lemma clean_worker tasks ts ch ch' cl d ws c w i x y extra :
  pool_ok (mkPool ts ch cl d ws c w false) → clean tasks (mkPool ts ch cl d ws c w false) → ws !! i = Some x →
  is_ended x = false → is_ended y = false → failures (mkPool ts ch' cl d (<[i := y]> ws) c w false) = 0%nat →
  tasks_of y ≡ₚ extra ++ tasks_of x → in_flight ch = in_flight ch' ++ extra →
  clean tasks (mkPool ts ch' cl d (<[i := y]> ws) c w false).
Proof.
  intros Hok [Hd Hf Ht Hc] Hi Hx Hy Hf' Hty Hch. split; cbn in *; [done|done| |].
  - rewrite (bind_update _ _ _ _ _ _ Hi Hty). rewrite <- Ht, Hch. by rewrite <- (app_assoc (in_flight ch')).
  - unfold clean_coll in *. cbn in *. rewrite (tally_same _ _ _ _ Hi Hx Hy). done.
Qed.
Lemma clean_step tasks p p' : step p p' → pool_ok p → clean tasks p → clean tasks p'.
Proof.
  intros Hs Hok Hcl. pose proof (failures_step _ _ Hs) as Hf'. rewrite (cl_failures _ _ Hcl) in Hf'.
  assert (Hf0 : failures p' = 0%nat) by lia. clear Hf'.
  assert (Hnf : ∀ i w, workers p' !! i = Some w → worker_fails w = 0%nat).
  { intros i w Hi. unfold failures in Hf0. pose proof (sum_update worker_fails (workers p') i w (Idle []) Hi) as Hu. cbn in Hu. lia. }
  pose proof Hcl as [Hd Hf Ht Hc].
  destruct Hs; cbn [inputs taskCh closed done workers coll waited in_flight] in *; try discriminate Hd;
    try (exfalso; unshelve epose proof (Hnf i _ (list_lookup_insert_eq _ _ _ _)) as Hx; [by eapply lookup_lt_Some|discriminate Hx]).
  - split; [done|done| |done]. cbn in *. rewrite <- Ht. symmetry. apply Permutation_middle.
  - by split.
  - by apply (clean_worker _ _ (Some t) None _ _ _ _ _ _ _ _ [t] Hok Hcl ltac:(eassumption)); cbn; [..|apply Permutation_app_comm|].
  - by apply (clean_worker _ _ None None _ _ _ _ _ _ _ _ [] Hok Hcl ltac:(eassumption)).
  - by apply (clean_worker _ _ ch ch _ _ _ _ _ _ _ _ [] Hok Hcl ltac:(eassumption)); cbn; [..|by rewrite app_nil_r].
  - split; cbn in *; [done|done| |].
    + rewrite (bind_update tasks_of ws i (Finishing log) (Ended log false) []); done.
    + unfold clean_coll in *. cbn in *. rewrite tally_end by done. by subst r.
  - split; [done|done|done|]. unfold clean_coll in *. cbn in *. destruct c; [done|by destruct Hc..].
  - split; [done|done|done|]. by split.
  - destruct Hc as [Hw ->]. cbn in Hw. split; cbn; [done|done|done|]. by split.
  - done.
  - done.
Qed.
Lemma clean_start PoolSize tasks : count_fails tasks = 0%nat → clean tasks (pool_start PoolSize tasks).
Proof.
  intros H0. unfold pool_start. induction (Z.to_nat (pool_size PoolSize)) as [|k IH].
  - split; [done|unfold failures; cbn [inputs taskCh workers repeat sum_list_with]; by rewrite H0|cbn; by rewrite app_nil_r|done].
  - destruct IH as [_ Hf Ht Hc]. split; [done|done|done|done].
Qed.
Lemma reach_ok PoolSize tasks p : rtc step (pool_start PoolSize tasks) p →
  pool_ok p ∧ (failures p ≤ count_fails tasks)%nat ∧ (count_fails tasks = 0%nat → clean tasks p).
Proof.
  intros Hr. assert (H0 : failures (pool_start PoolSize tasks) = count_fails tasks).
  { unfold failures, pool_start. cbn [inputs taskCh workers].
    induction (Z.to_nat (pool_size PoolSize)) as [|k IH]; [change (count_fails (in_flight None)) with 0%nat; cbn [repeat sum_list_with]; lia|done]. }
  revert p Hr. apply rtc_ind_r.
  - split_and!; [apply pool_ok_start|lia|apply clean_start].
  - intros p p' _ Hs (Hok & Hf & Hcl). pose proof (failures_step _ _ Hs). split_and!; [by eapply pool_ok_step|lia|]. intros H0'. eapply clean_step; [done|done|auto].
Qed.

(** What is left of a run without failures that is over. *)
Lemma clean_released tasks p : pool_ok p → clean tasks p → released p →
  ∃ logs, workers p = (λ log, Ended log false) <$> logs ∧ mjoin logs ≡ₚ tasks ∧
    coll p = Reported (Some (mkWorkerResult (zsum (λ log, Z.of_nat (length log)) logs) (zsum errors_of logs) None)).
Proof.
  intros Hok [_ Hf Ht Hc] (Hcl & _ & _ & He & sent & Hs). unfold failures in Hf. unfold clean_coll in Hc. rewrite Hs in Hc. destruct Hc as [_ ->].
  assert (Hl : ∃ logs, workers p = (λ log, Ended log false) <$> logs).
  { assert (Hz : sum_list_with worker_fails (workers p) = 0%nat) by lia. clear -He Hz.
    induction (workers p) as [|w ws IH]; [by exists []|]. apply Forall_cons in He as [Hw He]. cbn in Hz.
    destruct IH as [logs ->]; [done|lia|]. destruct w as [| | | | | | |log []]; try done. by exists (log :: logs). }
  destruct Hl as [logs Hl]. exists logs. split; [done|]. pose proof (ok_size _ Hok) as Hne. pose proof (ok_finishing _ Hok 0%nat) as Hfin.
  rewrite (ok_closed _ Hok Hcl) in Ht. rewrite Hl in *. destruct logs as [|l logs]; [done|].
  destruct (Hfin (Ended l false) eq_refl eq_refl) as [_ Hch]. rewrite Hch in Ht. split.
  - rewrite <- Ht. cbn [in_flight app]. clear. induction (l :: logs) as [|l' logs' IH]; [done|]. cbn. by rewrite IH.
  - rewrite Hs. do 2 f_equal. unfold tally, zsum. f_equal; clear; induction (l :: logs) as [|l' logs' IH]; simpl; [done|by rewrite <- IH|done|by rewrite <- IH].
Qed.

Lemma unheard_fails p : pool_ok p → unheard p → (2 ≤ failures p)%nat.
Proof.
  intros Hok (i & log & e & df & Hi & Hc). destruct (decide (failures p ≤ 1)%nat) as [Hf|]; [|lia].
  destruct (send_error_collected p i log e df Hok Hf Hi) as [r E]. by rewrite E in Hc.
Qed.

(** C21. How a run of the pool of rule workers ends, for every interleaving of the operator, the
    workers and the collector. It makes a bounded number of actions. When no bundle fails, a
    run that can make no more has released the operator with [done] open and every worker
    returned, every bundle was done exactly once, and the result the collector sent counts
    the bundles and the errors of all workers. When one bundle fails, it has released the
    operator, or [done] was closed twice: worker and collector both found it open, and the
    second close has ended the process or left the worker at the send of its panic. When more
    fail, it may also be that a worker is left at the send of its error. A worker that
    returned after a failure left [done] closed. *)
Theorem pool_ends PoolSize tasks :
  (∀ n p, nsteps step n (pool_start PoolSize tasks) p → (n ≤ 3 * length tasks + 7 * Z.to_nat (pool_size PoolSize) + 7)%nat) ∧
  ∀ p, rtc step (pool_start PoolSize tasks) p → stuck p →
    (released p ∨ closed_twice p ∨ unheard p) ∧
    (∀ i log, workers p !! i = Some (Ended log true) → done p = true) ∧
    ((count_fails tasks ≤ 1)%nat → released p ∨ closed_twice p) ∧
    (count_fails tasks = 0%nat → released p ∧ done p = false ∧
      ∃ logs, workers p = (λ log, Ended log false) <$> logs ∧ mjoin logs ≡ₚ tasks ∧
        coll p = Reported (Some (mkWorkerResult (Z.of_nat (length tasks)) (zsum errors_of logs) None))).
Proof.
  split.
  - intros n p Hn. apply run_bound in Hn. cut (remaining_actions (pool_start PoolSize tasks) = 3 * length tasks + 7 * Z.to_nat (pool_size PoolSize) + 7)%nat; [lia|].
    unfold remaining_actions, pool_start. cbn [inputs taskCh closed workers coll waited crashed coll_weight].
    induction (Z.to_nat (pool_size PoolSize)) as [|k IH]; cbn [repeat sum_list_with weight] in *; lia.
  - intros p Hr Hst. destruct (reach_ok _ _ _ Hr) as (Hok & Hf & Hcl). pose proof (stuck_released p Hok Hst) as Hend.
    assert (Hone : (count_fails tasks ≤ 1)%nat → released p ∨ closed_twice p).
    { intros Hb. destruct Hend as [?|[?|Hu]]; [by left|by right|]. apply unheard_fails in Hu; [lia|done]. }
    split; [done|]. split; [intros i log Hi; apply (ok_done _ Hok i log); by left|]. split; [done|].
    intros H0. pose proof (cl_done _ _ (Hcl H0)) as Hd. assert (Hrel : released p) by (destruct Hone as [?|[E _]]; [lia|done|congruence]). split; [done|]. split; [done|].
    destruct (clean_released _ _ Hok (Hcl H0) Hrel) as (logs & Hw & Hp & Hc). exists logs. split; [done|]. split; [done|].
    rewrite Hc. do 3 f_equal. rewrite <- (Permutation_length Hp). clear. unfold zsum.
    induction logs as [|l logs IH]; simpl; [done|]. rewrite IH, length_app. lia.
Qed.
End laws.

(** ** What failures can do *)
Ltac act := eapply rtc_l.
(** One failure can hang the step or end the process. The worker of the only bundle and the
    collector both find [done] open. When the collector closes it first, the worker sends the
    panic of its close to nobody and the operator waits for ever; when the worker does, the
    collector ends the process. *)
Theorem one_failure_can_close_twice {T} `{BundleWork T} t e : work [] t = Some (Failure e) →
  (∃ p, rtc step (pool_start 1 [t]) p ∧ stuck p ∧ ¬ released p ∧ crashed p = false) ∧ ∃ p, rtc step (pool_start 1 [t]) p ∧ crashed p = true.
Proof.
  intros E. pose (r := with_error no_result e). split.
  - exists (mkPool [] None true true [Resend []] (Reported (Some r)) false false). split_and!; [..|done].
    + unfold pool_start. change (repeat (Idle []) (Z.to_nat (pool_size 1))) with [Idle (T := T) []].
      act; [apply step_apply|]. act; [by apply (step_take _ _ _ _ _ _ _ 0)|]. act; [by apply (step_failed _ _ _ _ _ _ _ 0 [] t e)|].
      act; [by apply (step_send_error _ _ _ _ _ _ _ 0 [] e false)|]. act; [by apply (step_test_open _ _ _ _ _ _ 0 [] false)|]. act; [apply step_report|].
      act; [apply step_coll_open|]. act; [apply step_coll_interrupt|]. act; [by apply (step_close_panics _ _ _ _ _ _ 0 [])|]. act; [apply step_close|]. reflexivity.
    + intros p' Hs. inversion Hs; subst; try match goal with E : _ !! ?i = Some _ |- _ => destruct i as [|[|i]]; cbn in E; discriminate E end.
      match goal with E : Forall _ _ |- _ => apply Forall_cons in E as [E _]; discriminate E end.
    + intros (_ & Hw & _). discriminate Hw.
  - exists (mkPool [] None false true [Ended [] true] (CollClosing r) false true). split; [|done].
    unfold pool_start. change (repeat (Idle []) (Z.to_nat (pool_size 1))) with [Idle (T := T) []].
    act; [apply step_apply|]. act; [by apply (step_take _ _ _ _ _ _ _ 0)|]. act; [by apply (step_failed _ _ _ _ _ _ _ 0 [] t e)|].
    act; [by apply (step_send_error _ _ _ _ _ _ _ 0 [] e false)|]. act; [by apply (step_test_open _ _ _ _ _ _ 0 [] false)|]. act; [apply step_report|].
    act; [apply step_coll_open|]. act; [by apply (step_interrupt _ _ _ _ _ _ 0 [] false)|]. act; [apply step_coll_crashes|]. reflexivity.
Qed.
(** Two failures can hang the step, and without a second close. With two workers and two
    bundles that fail, a run reaches a state in which nothing can happen any more although a
    worker has not returned: the collector left its loop at the first error, and nobody takes
    the second, so the operator waits for ever. *)
Theorem two_failures_can_hang {T} `{BundleWork T} t1 t2 e1 e2 :
  work [] t1 = Some (Failure e1) → work [] t2 = Some (Failure e2) →
  ∃ p, rtc step (pool_start 2 [t1; t2]) p ∧ stuck p ∧ ¬ released p ∧ ¬ closed_twice p.
Proof.
  intros E1 E2. pose (r := with_error no_result e1).
  exists (mkPool [] None true true [Ended [] true; SendError [] e2 false] (Reported (Some r)) false false). split_and!.
  - unfold pool_start. change (repeat (Idle []) (Z.to_nat (pool_size 2))) with [Idle (T := T) []; Idle []].
    act; [apply step_apply|]. act; [by apply (step_take _ _ _ _ _ _ _ 0)|]. act; [apply step_apply|]. act; [by apply (step_take _ _ _ _ _ _ _ 1)|].
    act; [by apply (step_failed _ _ _ _ _ _ _ 0 [] t1 e1)|]. act; [by apply (step_failed _ _ _ _ _ _ _ 1 [] t2 e2)|].
    act; [by apply (step_send_error _ _ _ _ _ _ _ 0 [] e1 false)|]. act; [by apply (step_test_open _ _ _ _ _ _ 0 [] false)|]. act; [by apply (step_interrupt _ _ _ _ _ _ 0 [] false)|].
    act; [apply step_close|]. act; [apply step_report|]. act; [apply step_coll_closed|]. reflexivity.
  - intros p' Hs. inversion Hs; subst; try match goal with E : _ !! ?i = Some _ |- _ => destruct i as [|[|[|i]]]; cbn in E; discriminate E end.
    match goal with E : Forall _ _ |- _ => apply Forall_cons in E as [_ E]; apply Forall_cons in E as [E _]; discriminate E end.
  - intros (_ & Hw & _). discriminate Hw.
  - intros [_ [Hc|(i & log & Hi)]]; [discriminate Hc|]. destruct i as [|[|i]]; discriminate Hi.
Qed.

(** ** A pool *)
Module PoolDemo.
(** The bundle 13 fails, and 7 is an error the worker counts. *)
#[local] Instance demo_bundles : BundleWork Z := {
  work _ t := if t =? 13 then Some (Failure "unlucky") else None; errors_of log := Z.of_nat (length (List.filter (Z.eqb 7) log)) }.
Definition unlucky (t : Z) : bool := t =? 13.
Lemma unlucky_only log t : unlucky t = false → work log t = None.
Proof. unfold unlucky. cbn. by intros ->. Qed.
Lemma pool_ends_witness :
  (∀ p, rtc step (pool_start 0 [1; 13; 7]) p → stuck p → released p ∨ closed_twice p) ∧
  (∀ p, rtc step (pool_start 3 [1; 7; 7; 2]) p → stuck p → released p ∧ ∃ n, coll p = Reported (Some (mkWorkerResult 4 n None))).
Proof.
  split; intros p Hr Hs.
  - destruct (pool_ends unlucky unlucky_only 0 [1; 13; 7]) as [_ He]. destruct (He p Hr Hs) as (_ & _ & H1 & _). apply H1. vm_compute. lia.
  - destruct (pool_ends unlucky unlucky_only 3 [1; 7; 7; 2]) as [_ He]. destruct (He p Hr Hs) as (_ & _ & _ & Hc).
    destruct (Hc eq_refl) as (Hrel & _ & logs & _ & _ & ->). split; [exact Hrel|by eexists].
Defined.
End PoolDemo.
