(* ===== verification/RuleTests.v ===== *)
(** * Rules unit tests: checks against a session (src/jets/rulestest)

    A test runs the rules of a process on input sessions and evaluates checks against each
    of them: the checks of a test definition (testdef.go, result.go), the session decoded
    once into terms (harness/snapshot.go) and the join that matches a pattern of triples
    with it (harness/match.go). RuleTestRun.v holds the validation of a definition and the
    run of a test. *)
From stdpp Require Import base list strings gmap.
From Stdlib Require Import ZArith Lia SpecFloat Ascii.
From S2P Require Import Prelude GoFloat GoText GoTextLaws GoValue DateParser EvalOperators RdfCast EvalExpression EvalExpressionLaws.
From S2P Require Import AuditLifecycle Pipes RuleSession.
Local Open Scope string_scope.
Local Open Scope Z_scope.

#[local] Set Warnings "-register-all".

(** ** The definition of a check (testdef.go) *)
Record ObjectTerm := mkObject { ot_Variable : string; ot_Value : string; ot_Type : string }.
Record Triple := mkTriple { tr_S : string; tr_P : string; tr_O : option ObjectTerm }.
Record Check := mkCheck {
  ck_S : string; ck_P : string; ck_O : option ObjectTerm; ck_Pattern : list Triple; ck_Count : option ExpressionNode }.

Definition IsVariable (o : option ObjectTerm) : bool :=
  match o with Some o => negb (String.eqb (ot_Variable o) EmptyString) | None => false end.
Definition IsVariableName (s : string) : bool := HasPrefix s "?".

Definition KindExpected := "expected".
Definition KindExcluded := "excluded".
Definition KindCount := "count".
Definition OutcomePass := "pass".
Definition OutcomeFail := "fail".
Definition check_Kind (c : Check) (list : string) : string := if is_some (ck_Count c) then KindCount else list.
Definition check_Triples (c : Check) : list Triple :=
  match ck_Pattern c with
  | [] => if is_some (ck_Count c) then [] else [mkTriple (ck_S c) (ck_P c) (ck_O c)]
  | pattern => pattern
  end.
Record CheckResult := mkCheckResult { cr_SessionName : string; cr_Kind : string; cr_Check : string; cr_Outcome : string; cr_Found : string }.

(** What the harness uses of fmt, strconv and encoding/json: [fmt.Sscan] of a text,
    [strconv.Quote], [strconv.FormatFloat(f, 'g', -1, 64)] and the JSON of a check. *)
Class HarnessText := {
  Sscan_int : string → option Z;
  Sscan_uint : string → option Z;
  Sscan_double : string → option float64;
  Quote : string → string;
  FormatFloat_g : float64 → string;
  json_Check : Check → string }.

(** ** Terms (snapshot.go) *)
Inductive TermKind := TermNone | TermNull | TermBlank | TermResource | TermText | TermInt | TermUint | TermDouble | TermDate | TermDatetime.
Definition kind_name (k : TermKind) : string :=
  match k with
  | TermNone => EmptyString | TermNull => "null" | TermBlank => "bn" | TermResource => "resource" | TermText => "text"
  | TermInt => "int" | TermUint => "uint" | TermDouble => "double" | TermDate => "date" | TermDatetime => "datetime"
  end.
#[global] Instance TermKind_dec : EqDecision TermKind.
Proof. solve_decision. Defined.
#[global] Instance spec_float_dec : EqDecision spec_float.
Proof. solve_decision. Defined.

Record Term := mkTerm { Kind : TermKind; Text : string; Num : float64 }.
#[global] Instance Term_dec : EqDecision Term.
Proof. solve_decision. Defined.
Definition term (k : TermKind) (text : string) : Term := mkTerm k text f64_0.

Definition key (t : Term) : string := kind_name (Kind t) +:+ String Ascii.zero EmptyString +:+ Text t.

(** [big.NewFloat(x).SetPrec(15).Float64()]: rounding to a mantissa of 15 bits. The
    exponents of package big are far beyond those of a double. *)
Definition big_emax : Z := 2 ^ 31.
Definition roundDouble (x : float64) : float64 :=
  match x with
  | S754_finite sign m e =>
      match binary_normalize 15 big_emax (cond_Zopp sign (Zpos m)) e sign with
      | S754_finite sign m e => binary_normalize prec emax (cond_Zopp sign (Zpos m)) e sign
      | v => v
      end
  | _ => x
  end.

Definition Equal (t o : Term) : bool :=
  if bool_decide (Kind t = Kind o) then
    if bool_decide (Kind t = TermDouble)
    then f64_eq (Num t) (Num o) || f64_eq (roundDouble (Num t)) (roundDouble (Num o)) || NearlyEqual (Num t) (Num o)
    else String.eqb (Text t) (Text o)
  else false.

(** [Binding] maps variables to the terms they matched. *)
Abbreviation Binding := (gmap string Term).

Section terms.
Context `{HarnessText}.

Definition term_String (t : Term) : string :=
  match Kind t with
  | TermResource => Text t
  | TermText => Quote (Text t)
  | TermNull => "null"
  | k => Text t +:+ "^^" +:+ kind_name k
  end.

(** *** Decoding the nodes of a session *)
Definition dateLayout : string := "2006-01-02".
Definition parseUintTerm (s : string) : res Term :=
  match ParseUint (TrimSpace s) with
  | Some v => Ret (term TermUint (Itoa v))
  | None => Fail ("unsigned node " +:+ Quote s)
  end.

Section nodes.
Context `{GoUnicode} `{GoFmt} {node session : Type} `{RuleEngine node session}.

Definition nodeTime (n : node) (parse : string → res Time) : res Time :=
  match GetRdfNodeValue n with
  | VTime v => Ret v
  | VStr v => wrap_err (NodeType n +:+ " node " +:+ Quote v) (parse v)
  | _ => Fail (NodeType n +:+ " node with value")
  end.

Definition DecodeNode (n : node) : res Term :=
  let tn := NodeType n in
  if one_of tn ["null"; "rdf_null_type"] then Ret (term TermNull EmptyString)
  else if String.eqb tn "named_resource" then
    match GetRdfNodeValue n with
    | VStr name => Ret (term TermResource name)
    | _ => Fail "resource node with value"
    end
  else if String.eqb tn "blank_node" then Ret (term TermBlank (NodeString n))
  else if String.eqb tn "string" then
    match Value n with
    | Some (NVal (VStr v)) => Ret (term TermText v)
    | _ => Fail "text node with value"
    end
  else if one_of tn ["int"; "int32"; "int64"] then
    match GetRdfNodeValue n with
    | VInt v => Ret (term TermInt (Itoa v))
    | _ => Fail "int node with value"
    end
  else if String.eqb tn "uint" then
    match GetRdfNodeValue n with
    | VUint v => Ret (term TermUint (Itoa v))
    | _ => parseUintTerm (NodeString n)
    end
  else if one_of tn ["uint32"; "uint64"] then parseUintTerm (NodeString n)
  else if String.eqb tn "double" then
    match Value n with
    | Some (NVal (VF64 v)) => Ret (mkTerm TermDouble (FormatFloat_g v) v)
    | _ => Fail "double node with value"
    end
  else if String.eqb tn "date" then
    let! t := nodeTime n ParseDate in Ret (term TermDate (time_Format t dateLayout))
  else if String.eqb tn "datetime" then
    let! t := nodeTime n ParseDatetime in Ret (term TermDatetime (time_Format (time_toUTC t) datetime_layout))
  else Fail ("node of unknown type " +:+ Quote tn +:+ ": " +:+ NodeString n).
End nodes.

(** *** The term of an object of a test *)
Definition ExpectedTerm `{GoUnicode} `{GoFmt} (o : ObjectTerm) : res Term :=
  let v := ot_Value o in
  let t := TrimSpace (ot_Type o) in
  if String.eqb t "null" then Ret (term TermNull EmptyString)
  else if String.eqb t "bn" then Ret (term TermBlank v)
  else if String.eqb t "resource" then Ret (term TermResource v)
  else if String.eqb t "text" then Ret (term TermText v)
  else if one_of t ["int"; "long"] then
    match Sscan_int v with
    | Some i => Ret (term TermInt (Itoa i))
    | None => Fail (Quote v +:+ " is not an " +:+ ot_Type o)
    end
  else if String.eqb t "bool" then
    match ParseBool v with
    | Ret b => Ret (term TermInt (if b then "1" else "0"))
    | Fail e => if String.eqb e "null bool" then Ret (term TermNull EmptyString) else Fail (Quote v +:+ " " +:+ e)
    | Panic e => Panic e
    | Loop => Loop
    end
  else if one_of t ["uint"; "ulong"] then
    match Sscan_uint v with
    | Some u => Ret (term TermUint (Itoa u))
    | None => Fail (Quote v +:+ " is not a " +:+ ot_Type o)
    end
  else if String.eqb t "double" then
    match Sscan_double v with
    | Some f => Ret (mkTerm TermDouble (FormatFloat_g f) f)
    | None => Fail (Quote v +:+ " is not a double")
    end
  else if String.eqb t "date" then
    let! d := wrap_err (Quote v +:+ " is not a date") (ParseDate v) in Ret (term TermDate (time_Format d dateLayout))
  else if String.eqb t "datetime" then
    let! d := wrap_err (Quote v +:+ " is not a datetime") (ParseDatetime v) in
    Ret (term TermDatetime (time_Format (time_toUTC d) datetime_layout))
  else Fail ("unknown type " +:+ Quote (ot_Type o)).

(** ** The snapshot *)
Record SnapshotTriple := mkSnapshotTriple { st_S : Term; st_P : Term; st_O : Term }.
Record Snapshot := mkSnapshot { Triples : list SnapshotTriple; bySubject : gmap string (list nat); byPredicate : gmap string (list nat) }.

(** [m[k] = append(m[k], i)]. *)
Definition append_index (m : gmap string (list nat)) (k : string) (i : nat) : gmap string (list nat) :=
  <[k := (default [] (m !! k) ++ [i])%list]> m.
Fixpoint index_triples (i : nat) (triples : list SnapshotTriple) (bySubject byPredicate : gmap string (list nat))
  : gmap string (list nat) * gmap string (list nat) :=
  match triples with
  | [] => (bySubject, byPredicate)
  | t :: triples =>
      index_triples (S i) triples (append_index bySubject (key (st_S t)) i) (append_index byPredicate (key (st_P t)) i)
  end.
Definition NewSnapshot (triples : list SnapshotTriple) : Snapshot :=
  let '(bySubject, byPredicate) := index_triples 0 triples ∅ ∅ in mkSnapshot triples bySubject byPredicate.

Section take.
Context `{GoUnicode} `{GoFmt} {node session : Type} `{RuleEngine node session}.
Fixpoint decode_triples (triples : list (node * node * node)) : res (list SnapshotTriple) :=
  match triples with
  | [] => Ret []
  | (s, p, o) :: triples =>
      let! s := wrap_err "while reading the session's subjects" (DecodeNode s) in
      let! p := wrap_err "while reading the session's predicates" (DecodeNode p) in
      let! o := wrap_err ("while reading the object of (" +:+ term_String s +:+ " " +:+ term_String p +:+ ")") (DecodeNode o) in
      let! l := decode_triples triples in
      Ret (mkSnapshotTriple s p o :: l)
  end.
Definition TakeSnapshot (s : session) : res Snapshot :=
  let! triples := decode_triples (Find s) in Ret (NewSnapshot triples).
End take.

(** ** Patterns (match.go) *)

Definition binding_String (b : Binding) : string :=
  join ", " ((λ n, n +:+ "=" +:+ default EmptyString (term_String <$> b !! n)) <$> sort_Strings (map_to_list b).*1).
Definition maxFound : nat := 5.

(** A slot with no variable holds its term. *)
Record slot := mkSlot { sl_variable : string; sl_term : Term }.
Definition no_term : Term := term TermNone EmptyString.
Definition slot_String (s : slot) : string :=
  if String.eqb (sl_variable s) EmptyString then term_String (sl_term s) else sl_variable s.
Record patternTriple := mkPattern { pt_s : slot; pt_p : slot; pt_o : slot }.
Definition pattern_String (t : patternTriple) : string :=
  "(" +:+ slot_String (pt_s t) +:+ " " +:+ slot_String (pt_p t) +:+ " " +:+ slot_String (pt_o t) +:+ ")".

Definition resourceSlot (name : string) : slot :=
  if IsVariableName name then mkSlot name no_term else mkSlot EmptyString (term TermResource name).
Fixpoint compile_triples `{GoUnicode} `{GoFmt} (i : nat) (triples : list Triple) : res (list patternTriple) :=
  match triples with
  | [] => Ret []
  | t :: triples =>
      let! o :=
        match tr_O t with
        | None => Fail ("triple " +:+ Itoa (Z.of_nat i) +:+ " has no object")
        | Some o =>
            if IsVariable (Some o) then Ret (mkSlot (ot_Variable o) no_term)
            else match ExpectedTerm o with
                 | Ret t => Ret (mkSlot EmptyString t)
                 | Fail e => Fail ("the object of triple " +:+ Itoa (Z.of_nat i) +:+ ": " +:+ e)
                 | Panic e => Panic e
                 | Loop => Loop
                 end
        end in
      let! l := compile_triples (S i) triples in
      Ret (mkPattern (resourceSlot (tr_S t)) (resourceSlot (tr_P t)) o :: l)
  end.
Definition compilePattern `{GoUnicode} `{GoFmt} (triples : list Triple) : res (list patternTriple) := compile_triples 0 triples.

Definition resolve (s : slot) (b : Binding) : option Term :=
  if String.eqb (sl_variable s) EmptyString then Some (sl_term s) else b !! sl_variable s.
(** The binding [slot.bind] leaves, or a conflict. *)
Definition slot_bind (s : slot) (b : Binding) (t : Term) : option Binding :=
  if String.eqb (sl_variable s) EmptyString then if Equal (sl_term s) t then Some b else None
  else match b !! sl_variable s with
       | Some prev => if Equal prev t then Some b else None
       | None => Some (<[sl_variable s := t]> b)
       end.
Definition bind_triple (pt : patternTriple) (b : Binding) (t : SnapshotTriple) : option Binding :=
  b ← slot_bind (pt_s pt) b (st_S t); b ← slot_bind (pt_p pt) b (st_P t); slot_bind (pt_o pt) b (st_O t).

(** ** The join *)
Record joinStats := mkJoinStats { deepest : Z; atDeepest : Z; firstAtDeep : Binding }.

Definition candidates (s : Snapshot) (pt : patternTriple) (b : Binding) : list nat :=
  match resolve (pt_s pt) b with
  | Some t => default [] (bySubject s !! key t)
  | None =>
      match resolve (pt_p pt) b with
      | Some t => default [] (byPredicate s !! key t)
      | None => seq 0 (length (Triples s))
      end
  end.

(** The bindings found so far and the statistics. *)
Abbreviation join_state := (list Binding * joinStats)%type.
(** What a walk that found nothing notes. *)
Definition note_depth (i : Z) (b : Binding) (st : joinStats) : joinStats :=
  if deepest st <=? i then
    if deepest st <? i then mkJoinStats i 1 b else mkJoinStats (deepest st) (atDeepest st + 1) (firstAtDeep st)
  else st.

Section candidates_loop.
(** The walk from the next triple. *)
Variable walk_next : Binding → join_state → res join_state.
Fixpoint each_candidate (s : Snapshot) (pt : patternTriple) (b : Binding) (cands : list nat) (found : bool) (js : join_state) : res (bool * join_state) :=
  match cands with
  | [] => Ret (found, js)
  | ti :: cands =>
      match Triples s !! ti with
      | None => Panic "runtime error: index out of range"
      | Some t =>
          match bind_triple pt b t with
          | Some nb => let! js := walk_next nb js in each_candidate s pt b cands true js
          | None => each_candidate s pt b cands found js
          end
      end
  end.
End candidates_loop.
Fixpoint walk (s : Snapshot) (i : Z) (pattern : list patternTriple) (b : Binding) (js : join_state) : res join_state :=
  match pattern with
  | [] => Ret ((js.1 ++ [b])%list, js.2)
  | pt :: pattern =>
      let! '(found, js) := each_candidate (walk s (i + 1) pattern) s pt b (candidates s pt b) false js in
      Ret (if found then js else (js.1, note_depth i b js.2))
  end.
(** The comparison of [sort.Slice]. *)
Definition by_String (a b : Binding) : Z := str_Compare (binding_String a) (binding_String b).
Definition match_pattern `{GoSort} (s : Snapshot) (pattern : list patternTriple) : res join_state :=
  let! '(out, st) := walk s 0 pattern ∅ ([], mkJoinStats (-1) 0 ∅) in
  Ret (SortFunc by_String out, st).

Definition objectsOf (s : Snapshot) (subject predicate : Term) : res (list Term) :=
  let fix go (tis : list nat) : res (list Term) :=
    match tis with
    | [] => Ret []
    | ti :: tis =>
        match Triples s !! ti with
        | None => Panic "runtime error: index out of range"
        | Some t => let! l := go tis in Ret (if Equal (st_P t) predicate then st_O t :: l else l)
        end
    end in
  go (default [] (bySubject s !! key subject)).

(** ** What a check found *)
Definition braces (s : string) : string := "{" +:+ s +:+ "}".
Definition describeBindings (bindings : list Binding) : string :=
  if (length bindings =? 1)%nat && forallb (λ b : Binding, Nat.eqb (size b) 0) bindings then "found"
  else
    Itoa (Z.of_nat (length bindings)) +:+ " match" +:+ (if (1 <? length bindings)%nat then "es" else "") +:+ ": " +:+
    join " " ((λ b, braces (binding_String b)) <$> take maxFound bindings) +:+ (if (maxFound <? length bindings)%nat then " ..." else "").

Definition explainNoMatch (s : Snapshot) (pattern : list patternTriple) (st : joinStats) : res string :=
  if deepest st <? 0 then Ret "no match"
  else
    match pattern !! Z.to_nat (deepest st) with
    | None => Panic "runtime error: index out of range"
    | Some pt =>
        let msg :=
          if (length pattern =? 1)%nat then "no match"
          else
            "no match for triple " +:+ Itoa (deepest st + 1) +:+ " of " +:+ Itoa (Z.of_nat (length pattern)) +:+ " " +:+ pattern_String pt +:+
            (if 0 <? deepest st
             then ", reached by " +:+ Itoa (atDeepest st) +:+ " binding(s) of the triples before it, first {" +:+ binding_String (firstAtDeep st) +:+ "}"
             else "") in
        match resolve (pt_s pt) (firstAtDeep st), resolve (pt_p pt) (firstAtDeep st) with
        | Some subj, Some pred =>
            let! objs := objectsOf s subj pred in
            let pair := "(" +:+ term_String subj +:+ " " +:+ term_String pred +:+ ")" in
            match objs with
            | [] => Ret (msg +:+ "; " +:+ pair +:+ " has no object")
            | _ =>
                Ret (msg +:+ "; " +:+ pair +:+ " has " +:+
                     join ", " ((term_String <$> take maxFound objs) ++ (if (maxFound <? length objs)%nat then ["..."] else [])))
            end
        | _, _ => Ret msg
        end
    end.
End terms.

(** ** Evaluating a check *)
Section evaluate.
Context `{HarnessText} `{GoArch} `{GoUnicode} `{GoFmt} `{GoZone} `{GoRegexp} `{GoUuid} `{GoClock} `{GoJson} `{GoSort}.

Definition with_outcome (r : CheckResult) (outcome found : string) : CheckResult :=
  mkCheckResult (cr_SessionName r) (cr_Kind r) (cr_Check r) outcome found.

(** The loop over the bindings of a count: the labels of those that pass and of those
    that fail. [n] is the supply of the evaluator. *)
Fixpoint count_loop (s : Snapshot) (subj pred : slot) (eval : evalExpression) (n : nat) (bindings : list Binding)
  (passed failed : list string) : nat * res (list string * list string) :=
  match bindings with
  | [] => (n, Ret (passed, failed))
  | b :: bindings =>
      match resolve subj b, resolve pred b with
      | Some st, Some pt =>
          match objectsOf s st pt with
          | Ret objs =>
              let k := Z.of_nat (length objs) in
              let '(eval, n, r) := Eval eval n (InEnv {["count" := VInt64 k]}) in
              match r with
              | Ret v =>
                  let label := (if Nat.eqb (size b) 0 then "" else braces (binding_String b) +:+ " ") +:+ "count=" +:+ Itoa k in
                  if ToBool v then count_loop s subj pred eval n bindings (passed ++ [label])%list failed
                  else count_loop s subj pred eval n bindings passed (failed ++ [label])%list
              | Fail e => (n, Fail ("evaluating the count expression with count=" +:+ Itoa k +:+ ": " +:+ e))
              | Panic e => (n, Panic e)
              | Loop => (n, Loop)
              end
          | Fail e => (n, Fail e)
          | Panic e => (n, Panic e)
          | Loop => (n, Loop)
          end
      | _, _ => (n, Fail "the count's s or p is a variable the pattern does not bind")
      end
  end.

(** The outcome and the found column of a count. *)
Definition count_result (r : CheckResult) (nbindings : nat) (passed failed : list string) : CheckResult :=
  let fails := negb (Nat.eqb (length failed) 0) in
  let list := if fails then failed else passed in
  let found := join "; " (take maxFound list) +:+ (if (maxFound <? length list)%nat then "; ..." else "") in
  let found :=
    if (1 <? nbindings)%nat then
      if fails then Itoa (Z.of_nat (length failed)) +:+ " of " +:+ Itoa (Z.of_nat nbindings) +:+ " bindings fail: " +:+ found
      else "all " +:+ Itoa (Z.of_nat nbindings) +:+ " bindings pass: " +:+ found
    else found in
  with_outcome r (if fails then OutcomeFail else OutcomePass) found.

Definition evaluateCount (s : Snapshot) (c : Check) (count : ExpressionNode) (n : nat) (r : CheckResult) : nat * res CheckResult :=
  match BuildExprNodeEvaluator ∅ (λ _, []) None (height count) count with
  | Ret eval =>
      let matched : res (list Binding + string) :=
        match ck_Pattern c with
        | [] => Ret (inl [∅])
        | triples =>
            let! pattern := compilePattern triples in
            let! '(bindings, st) := match_pattern s pattern in
            match bindings with
            | [] => let! why := explainNoMatch s pattern st in Ret (inr why)
            | _ => Ret (inl bindings)
            end
        end in
      match matched with
      | Ret (inr why) =>
          (n, Ret (with_outcome r OutcomeFail ("the pattern matched nothing, so there is no subject to count: " +:+ why)))
      | Ret (inl bindings) =>
          let '(n, l) := count_loop s (resourceSlot (ck_S c)) (resourceSlot (ck_P c)) eval n bindings [] [] in
          (n, let! '(passed, failed) := l in Ret (count_result r (length bindings) passed failed))
      | Fail e => (n, Fail e)
      | Panic e => (n, Panic e)
      | Loop => (n, Loop)
      end
  | Fail e => (n, Fail ("the count expression: " +:+ e))
  | Panic e => (n, Panic e)
  | Loop => (n, Loop)
  end.

Definition new_result (c : Check) (list : string) : CheckResult := mkCheckResult EmptyString (check_Kind c list) (json_Check c) EmptyString EmptyString.
Definition EvaluateCheck (s : Snapshot) (c : Check) (list : string) (n : nat) : nat * res CheckResult :=
  let r := new_result c list in
  match ck_Count c with
  | Some count => evaluateCount s c count n r
  | None =>
      (n,
       let! pattern := compilePattern (check_Triples c) in
       let! '(bindings, st) := match_pattern s pattern in
       let matched := negb (Nat.eqb (length bindings) 0) in
       if String.eqb list KindExpected then
         if matched then Ret (with_outcome r OutcomePass (describeBindings bindings))
         else let! why := explainNoMatch s pattern st in Ret (with_outcome r OutcomeFail why)
       else if String.eqb list KindExcluded then
         if matched then Ret (with_outcome r OutcomeFail (describeBindings bindings))
         else Ret (with_outcome r OutcomePass "no match")
       else Fail ("unknown check list " +:+ Quote list))
  end.
End evaluate.
