(* ===== verification/RuleTestValid.v ===== *)
(** * Rules unit tests: the validation of a definition (src/jets/rulestest/validate.go)

    The definition of a test once its JSON is decoded, what [validateDefinition] finds
    wrong with it, the file names of its input, and the name suggested for one that is not
    known. A message of a finding is the constant part of its format. *)
From stdpp Require Import base list strings gmap.
From Stdlib Require Import ZArith Lia Ascii.
From S2P Require Import Prelude GoFloat GoText GoTextLaws GoValue EvalOperators RdfCast EvalExpression AuditLifecycle RuleSession RuleTests.
Local Open Scope string_scope.
Local Open Scope Z_scope.

#[local] Set Warnings "-register-all".

(** ** The definition of a test (testdef.go) *)
Record LegacyConfig := mkLegacy { RecomputeOnRetraction : option bool; WithdrawnRowStays : option bool }.
Definition SwitchesOn (l : option LegacyConfig) : list string :=
  match l with
  | None => []
  | Some l =>
      ((if default false (RecomputeOnRetraction l) then ["recompute_on_retraction"] else []) ++
       (if default false (WithdrawnRowStays l) then ["withdrawn_row_stays"] else []))%list
  end.
Record Expectation := mkExpectation { ex_Status : string; ex_Reason : string }.

(** A value of rule_config: a text, an object of scalars, or anything else. A scalar that
    is not a text is known by what [fmt.Sprint] makes of it. *)
Inductive conf_scalar := SText (s : string) | SOther (printed : string).
Inductive conf_value := CText (s : string) | CTyped (m : gmap string conf_scalar) | COther.
Record JetrulesConfig := mkJetrulesConfig {
  jc_ProcessName : string; jc_UseJetRulesGo : bool; jc_InputRdfType : string; jc_MaxLooping : Z; jc_CurrentSourcePeriod : Z;
  jc_CurrentSourcePeriodType : string; jc_RuleConfig : list (gmap string conf_value) }.
Record InputSession := mkInputSession {
  is_Name : string; is_Input : list string; is_ExpectedTriples : list Check; is_ExcludedTriples : list Check }.
(** [td_hasConfig] tells whether the document has the key jetrules_config. *)
Record TestDefinition := mkTestDefinition {
  TestName : string; td_Legacy : option LegacyConfig; td_CompareEngines : bool; td_Expect : option Expectation;
  td_hasConfig : bool; td_JetrulesConfig : JetrulesConfig; td_InputSessions : list InputSession;
  td_ExpectedTriples : list Check; td_ExcludedTriples : list Check }.

(** ** Findings *)
Record Finding := mkFinding { f_Code : string; f_Path : string; f_Message : string }.
Definition CodeUnknownField := "unknown_field".
Definition CodeRefused := "refused_field".
Definition CodeRequired := "required".
Definition CodeInvalidValue := "invalid_value".
Definition CodeConflict := "conflict".
Definition CodeMissingFile := "missing_file".
Definition StatusPass := "pass".
Definition StatusFail := "fail".
Definition StatusError := "error".
Definition NoTruthMainOnExist := "_0:no_truth_main_on_exist".
Definition RdfTypes : list string :=
  ["null"; "bn"; "resource"; "int"; "bool"; "long"; "uint"; "ulong"; "double"; "text"; "date"; "datetime"].

(** [variableRe]: a question mark, a letter or an underscore, then letters, digits or
    underscores. *)
Definition word_start (c : ascii) : bool :=
  let b := byte_of c in between 65 90 b || between 97 122 b || (b =? 95).
Definition word_char (c : ascii) : bool := word_start c || is_digit c.
Definition variableRe (s : string) : bool :=
  match s with
  | String "?" (String c r) => word_start c && str_all word_char r
  | _ => false
  end.

Definition escapePointer (s : string) : string := ReplaceAll (ReplaceAll s "~" "~0") "/" "~1".

(** *** Names that are close *)
Section names.
(** [strings.EqualFold] of texts that are not ASCII. *)
Context `{GoUnicode} (unicode_EqualFold : string → string → bool).
Definition EqualFold (s t : string) : bool :=
  if isASCII s && isASCII t then String.eqb (lower_str s) (lower_str t) else unicode_EqualFold s t.

Definition cell_at (row : list Z) (j : nat) : Z := default 0 (row !! j).
(** The inner loop, over the columns of a row of the table. *)
Definition edit_row (ra : Z) (rb : list Z) (prev cur : list Z) : list Z :=
  foldl (λ cur j,
    let cost := if ra =? cell_at rb (j - 1) then 0 else 1 in
    <[j := Z.min (Z.min (cell_at prev j + 1) (cell_at cur (j - 1) + 1)) (cell_at prev (j - 1) + cost)]> cur)
    cur (seq 1 (length rb)).
Definition edit_rows (ra rb : list Z) (prev cur : list Z) : list Z * list Z :=
  foldl (λ '(prev, cur) i, (edit_row (cell_at ra (i - 1)) rb prev (<[0%nat := Z.of_nat i]> cur), prev))
    (prev, cur) (seq 1 (length ra)).
Definition editDistance (a b : string) : Z :=
  let ra := (runes a).*1 in
  let rb := (runes b).*1 in
  let prev := Z.of_nat <$> seq 0 (length rb + 1) in
  cell_at (edit_rows ra rb prev (repeat 0 (length rb + 1))).1 (length rb).

Definition ClosestName (name : string) (cands : list string) : string :=
  let sorted := sort_Strings cands in
  match List.find (λ c, EqualFold c name) sorted with
  | Some c => c
  | None =>
      let limit := Z.max 2 (Z.of_nat (String.length name) / 3) in
      let lname := ToLower name in
      (foldl (λ '(best, bestD) c, let d := editDistance lname (ToLower c) in if d <? bestD then (c, d) else (best, bestD))
         (EmptyString, limit + 1) sorted).1
  end.
Definition unknownField (k ptr : string) (names : list string) : Finding :=
  mkFinding CodeUnknownField ptr
    ("unknown field" +:+ (let best := ClosestName k names in if String.eqb best EmptyString then "" else "; did you mean " +:+ best)).

(** *** Typed values *)
Definition sorted_keys {V} (m : gmap string V) : list string := sort_Strings (map_to_list m).*1.
Definition checkTypedValue (v : gmap string conf_scalar) (ptr : string) : list Finding :=
  ((sorted_keys v ≫= λ k,
      let kptr := ptr +:+ "/" +:+ escapePointer k in
      if one_of k ["value"; "type"] then
        match v !! k with
        | Some (SText _) => []
        | _ => [mkFinding CodeInvalidValue kptr "must be a JSON string, as rule_config writes it"]
        end
      else [unknownField k kptr ["value"; "type"]]) ++
   match v !! "type" with
   | Some (SText t) => if one_of t RdfTypes then [] else [mkFinding CodeInvalidValue (ptr +:+ "/type") "unknown type"]
   | Some _ => []
   | None => [mkFinding CodeRequired (ptr +:+ "/type") "type is required"]
   end)%list.

Definition scalar_text (v : option conf_scalar) : string :=
  match v with Some (SText s) | Some (SOther s) => s | None => "<nil>" end.
Definition isIntegerZero (v : conf_value) : bool :=
  match v with
  | CTyped m =>
      match m !! "type" with
      | Some (SText t) =>
          one_of t ["int"; "long"; "uint"; "ulong"] && bool_decide (ParseInt64 (scalar_text (m !! "value")) = Some 0)
      | _ => false
      end
  | _ => false
  end.
Definition SetsNoTruthMainOnExist (rc : gmap string conf_value) : bool :=
  match rc !! NoTruthMainOnExist with Some v => negb (isIntegerZero v) | None => false end.

(** ** [validateDefinition] *)
Definition validateTriple (s p : string) (o : option ObjectTerm) (ptr : string) (needO : bool) : list Finding :=
  (([("s", s); ("p", p)] ≫= λ '(name, v),
      if String.eqb (TrimSpace v) EmptyString then [mkFinding CodeRequired (ptr +:+ "/" +:+ name) "is required"]
      else if IsVariableName v && negb (variableRe v) then [mkFinding CodeInvalidValue (ptr +:+ "/" +:+ name) "is not a variable name"]
      else []) ++
   match o with
   | None => if needO then [mkFinding CodeRequired (ptr +:+ "/o") "o is required"] else []
   | Some o =>
       if negb (String.eqb (ot_Variable o) EmptyString) && negb (variableRe (ot_Variable o))
       then [mkFinding CodeInvalidValue (ptr +:+ "/o") "is not a variable name"] else []
   end)%list.

(** The variables the triples of a pattern bind. *)
Definition bound_by (t : Triple) : gset string :=
  (if IsVariableName (tr_S t) then {[tr_S t]} else ∅) ∪ (if IsVariableName (tr_P t) then {[tr_P t]} else ∅) ∪
  match tr_O t with Some o => if IsVariable (Some o) then {[ot_Variable o]} else ∅ | None => ∅ end.
Definition validateCheck (c : Check) (ptr : string) (expected : bool) : list Finding :=
  let bound : gset string := ⋃ (bound_by <$> ck_Pattern c) in
  (mjoin (imap (λ j t, validateTriple (tr_S t) (tr_P t) (tr_O t) (ptr +:+ "/pattern/" +:+ Itoa (Z.of_nat j)) true) (ck_Pattern c)) ++
   match ck_Count c with
   | Some _ =>
       (if expected then [] else [mkFinding CodeInvalidValue (ptr +:+ "/count") "a count belongs in expected_triples"]) ++
       (if is_some (ck_O c) then [mkFinding CodeConflict (ptr +:+ "/o") "a count check names s and p, not o"] else []) ++
       validateTriple (ck_S c) (ck_P c) (Some (mkObject "?count" EmptyString EmptyString)) ptr false ++
       ([("s", ck_S c); ("p", ck_P c)] ≫= λ '(name, v),
          if IsVariableName v && negb (bool_decide (v ∈ bound))
          then [mkFinding CodeInvalidValue (ptr +:+ "/" +:+ name) "in a count must be bound by the check's pattern"] else [])
   | None =>
       match ck_Pattern c with
       | _ :: _ =>
           [("s", negb (String.eqb (ck_S c) EmptyString)); ("p", negb (String.eqb (ck_P c) EmptyString)); ("o", is_some (ck_O c))] ≫= λ '(name, set),
             if (set : bool) then [mkFinding CodeConflict (ptr +:+ "/" +:+ name) "does not go with pattern unless it is a count"] else []
       | [] =>
           if String.eqb (ck_S c) EmptyString && String.eqb (ck_P c) EmptyString && negb (is_some (ck_O c))
           then [mkFinding CodeRequired ptr "a check is a triple (s, p, o), a pattern, or a count (s, p, count)"]
           else validateTriple (ck_S c) (ck_P c) (ck_O c) ptr true
       end
   end)%list.
Definition validateChecks (checks : list Check) (ptr : string) (expected : bool) : list Finding :=
  mjoin (imap (λ i c, validateCheck c (ptr +:+ "/" +:+ Itoa (Z.of_nat i)) expected) checks).

(** *** File names *)
Definition IsAbs (p : string) : bool := HasPrefix p "/".
(** Whether the parts of a path, cleaned, leave the directory they start in. *)
Fixpoint leaves_dir (depth : nat) (parts : list string) : bool :=
  match parts with
  | [] => false
  | part :: parts =>
      if one_of part [EmptyString; "."] then leaves_dir depth parts
      else if String.eqb part ".." then match depth with O => true | S depth => leaves_dir depth parts end
      else leaves_dir (S depth) parts
  end.
Definition IsLocal (p : string) : bool := negb (IsAbs p || String.eqb p EmptyString || leaves_dir 0 (Split p "/")).
(** The message, empty when there is none. *)
Definition relativePathProblem (p : string) : string :=
  if String.eqb (TrimSpace p) EmptyString then "an input file name is empty"
  else if IsAbs p then "is absolute; input files are relative to the test definition's directory"
  else if negb (IsLocal p) then "leaves the test definition's directory"
  else EmptyString.

Definition validateJetrulesConfig (td : TestDefinition) : list Finding :=
  let jc := td_JetrulesConfig td in
  if negb (td_hasConfig td) then [mkFinding CodeRequired "/jetrules_config" "jetrules_config is required"]
  else
    ((if String.eqb (TrimSpace (jc_ProcessName jc)) EmptyString
      then [mkFinding CodeRequired "/jetrules_config/process_name" "process_name is required"] else []) ++
     (if jc_UseJetRulesGo jc then [mkFinding CodeRefused "/jetrules_config/use_jet_rules_go" "use_jet_rules_go asks for the Go engine"] else []) ++
     (if td_CompareEngines td then [mkFinding CodeRefused "/compare_engines" "compare_engines ran the test on both engines, C++ and Go"] else []) ++
     (if negb (jc_CurrentSourcePeriod jc =? 0) && String.eqb (jc_CurrentSourcePeriodType jc) EmptyString
      then [mkFinding CodeRequired "/jetrules_config/current_source_period_type" "current_source_period needs current_source_period_type"] else []) ++
     (if jc_MaxLooping jc <? 0 then [mkFinding CodeInvalidValue "/jetrules_config/max_looping" "max_looping must not be negative"] else []) ++
     mjoin (imap (λ i rc,
       let rptr := "/jetrules_config/rule_config/" +:+ Itoa (Z.of_nat i) in
       sorted_keys rc ≫= λ k,
         let kptr := rptr +:+ "/" +:+ escapePointer k in
         match rc !! k with
         | Some (CText _) => []
         | Some (CTyped v) => checkTypedValue v kptr
         | _ => [mkFinding CodeInvalidValue kptr "a rule_config value is a string (text) or {value, type}"]
         end ++
         (if String.eqb k NoTruthMainOnExist && SetsNoTruthMainOnExist rc
          then [mkFinding CodeRefused kptr "turned off truth maintenance on exist and exist_not filters"] else []))
       (jc_RuleConfig jc)))%list.

(** The loop over the input sessions; [seen] are the names with the number of the session
    plus one. *)
Fixpoint validate_sessions (i : nat) (seen : gmap string nat) (sessions : list InputSession) : list Finding :=
  match sessions with
  | [] => []
  | s :: sessions =>
      let sptr := "/input_sessions/" +:+ Itoa (Z.of_nat i) in
      let '(f, seen) :=
        if String.eqb (TrimSpace (is_Name s)) EmptyString then ([mkFinding CodeRequired (sptr +:+ "/name") "the input session's name is required"], seen)
        else if (0 <? default 0%nat (seen !! is_Name s))%nat then ([mkFinding CodeConflict (sptr +:+ "/name") "input session name is already used"], seen)
        else ([], <[is_Name s := S i]> seen) in
      (f ++
       (match is_Input s with [] => [mkFinding CodeRequired (sptr +:+ "/input") "an input session needs at least one CSV file"] | _ => [] end) ++
       mjoin (imap (λ j inp,
         let msg := relativePathProblem inp in
         if String.eqb msg EmptyString then [] else [mkFinding CodeInvalidValue (sptr +:+ "/input/" +:+ Itoa (Z.of_nat j)) msg]) (is_Input s)) ++
       validateChecks (is_ExpectedTriples s) (sptr +:+ "/expected_triples") true ++
       validateChecks (is_ExcludedTriples s) (sptr +:+ "/excluded_triples") false ++
       validate_sessions (S i) seen sessions)%list
  end.

Definition validateDefinition (td : TestDefinition) : list Finding :=
  ((if String.eqb (TrimSpace (TestName td)) EmptyString then [mkFinding CodeRequired "/test_name" "test_name is required"] else []) ++
   (match td_Expect td with
    | Some e => if String.eqb (ex_Status e) StatusError then [] else [mkFinding CodeInvalidValue "/expect/status" "expect.status must be error"]
    | None => []
    end) ++
   ((λ name, mkFinding CodeRefused ("/legacy/" +:+ name) "asks for a LEGACY retraction behaviour") <$> SwitchesOn (td_Legacy td)) ++
   validateJetrulesConfig td ++
   (match td_InputSessions td with [] => [mkFinding CodeRequired "/input_sessions" "at least one input session is required"] | _ => [] end) ++
   validate_sessions 0 ∅ (td_InputSessions td) ++
   validateChecks (td_ExpectedTriples td) "/expected_triples" true ++
   validateChecks (td_ExcludedTriples td) "/excluded_triples" false)%list.

(** [checkInputFiles]: [stat] says whether a file is there, and whether it is a directory. *)
Definition checkInputFiles (stat : string → option bool) (td : TestDefinition) : list Finding :=
  mjoin (imap (λ i s,
    mjoin (imap (λ j inp,
      let ptr := "/input_sessions/" +:+ Itoa (Z.of_nat i) +:+ "/input/" +:+ Itoa (Z.of_nat j) in
      if negb (String.eqb (relativePathProblem inp) EmptyString) then []
      else match stat inp with
           | None => [mkFinding CodeMissingFile ptr "input file not found beside the test definition"]
           | Some true => [mkFinding CodeInvalidValue ptr "input is a directory, not a CSV file"]
           | Some false => []
           end) (is_Input s))) (td_InputSessions td)).
End names.
