(* ===== verification/RuleTestRun.v ===== *)
(** * Rules unit tests: the run of a test (src/jets/rulestest/harness)

    The input tables of a session (csv.go) and the run of a test on the engine (run.go):
    each input session is asserted, its rules run through the loop of the pipelines, its
    checks are evaluated, and the sessions together give the status of the test. The
    engine and its configuration are built before; the times are left out. *)
From stdpp Require Import base list strings gmap.
From Stdlib Require Import ZArith Lia SpecFloat Ascii.
From S2P Require Import Prelude GoFloat GoText GoTextLaws GoValue DateParser EvalOperators RdfCast EvalExpression EvalExpressionLaws.
From S2P Require Import Records AuditLifecycle Cleansing Pipes RuleSession RuleWorker RuleTests RuleTestValid.
Local Open Scope string_scope.
Local Open Scope Z_scope.

#[local] Set Warnings "-register-all".

(** ** Input tables (csv.go) *)
Record LocalColumn := mkLocalColumn { lc_Index : nat; lc_Name : string; lc_Type : string }.
Record InputTable := mkInputTable { it_File : string; it_Columns : list string; it_Rows : list (list string); it_Lines : list Z; it_Local : list LocalColumn }.
Definition localPrefix := "_0:".
Definition localTypes : list string := ["int"; "uint"; "long"; "ulong"; "double"; "text"; "date"; "datetime"; "bool"].

(** [strings.Fields]. *)
Fixpoint fields_of (cur : string) (rs : list (Z * string)) : list string :=
  match rs with
  | [] => if String.eqb cur EmptyString then [] else [cur]
  | (r, bytes) :: rs =>
      if IsSpace r then if String.eqb cur EmptyString then fields_of EmptyString rs else cur :: fields_of EmptyString rs
      else fields_of (cur +:+ bytes) rs
  end.
Definition header_fields (s : string) : list string := fields_of EmptyString (runes s).

Definition parseLocalColumn (file : string) (index : nat) (header : string) : res LocalColumn :=
  match header_fields header with
  | [name] => Ret (mkLocalColumn index name "text")
  | [name; w; t] =>
      if String.eqb w "as" && one_of t localTypes then Ret (mkLocalColumn index name t)
      else Fail ("input file " +:+ file +:+ ": column '" +:+ header +:+ "' is a rule-local property")
  | _ => Fail ("input file " +:+ file +:+ ": column '" +:+ header +:+ "' is a rule-local property")
  end.

Section tables.
Context `{GoArch} `{GoUnicode} `{GoFmt} `{GoZone} (unicode_EqualFold : string → string → bool).

Fixpoint check_names (name : string) (i : nat) (seen : gset string) (columns : list string) : res unit :=
  match columns with
  | [] => Ret tt
  | c :: columns =>
      if String.eqb c EmptyString then Fail ("input file " +:+ name +:+ ": column " +:+ Itoa (Z.of_nat i + 1) +:+ " has no name")
      else
        match header_fields c with
        | [] => Panic "runtime error: index out of range"
        | property :: _ =>
            if bool_decide (property ∈ seen) then Fail ("input file " +:+ name +:+ ": column '" +:+ property +:+ "' appears twice")
            else check_names name (S i) ({[property]} ∪ seen) columns
        end
  end.
Fixpoint check_properties (name : string) (dpMap : gmap string PropertyNode) (dataColumns : list string) : res unit :=
  match dataColumns with
  | [] => Ret tt
  | c :: dataColumns =>
      match dpMap !! c with
      | Some _ => check_properties name dpMap dataColumns
      | None =>
          let best := ClosestName unicode_EqualFold c (sorted_keys dpMap) in
          Fail ("input file " +:+ name +:+ ": column '" +:+ c +:+ "' is not a data property of the workspace" +:+
                if String.eqb best EmptyString then "" else "; did you mean '" +:+ best +:+ "'?")
      end
  end.
Definition checkColumns (name : string) (dataProperties : res (gmap string PropertyNode)) (columns dataColumns : list string) : res unit :=
  let! dpMap := wrap_err "while reading the workspace's data properties" dataProperties in
  let! _ := check_names name 0 ∅ columns in
  check_properties name dpMap dataColumns.

Fixpoint local_columns (name : string) (i : nat) (header : list string) : res (list LocalColumn) :=
  match header with
  | [] => Ret []
  | c :: header =>
      if HasPrefix c localPrefix then
        let! lc := parseLocalColumn name i c in
        let! l := local_columns name (S i) header in
        Ret (lc :: l)
      else local_columns name (S i) header
  end.
(** What [ReadInputTable] makes of the header and the rows the CSV reader gives; the byte
    order mark of the first column is removed. *)
Definition read_table (name : string) (dataProperties : res (gmap string PropertyNode)) (bom : string) (header : list string)
  (rows : list (list string * Z)) : res InputTable :=
  let header := match header with [] => [] | h :: header => TrimPrefix h bom :: header end in
  let header := TrimSpace <$> header in
  let! local := local_columns name 0 header in
  let dataColumns := List.filter (λ c, negb (HasPrefix c localPrefix)) header in
  let! _ := checkColumns name dataProperties header dataColumns in
  if negb (Nat.eqb (length local) 0) && negb (existsb (String.eqb "jets:key") header)
  then Fail ("input file " +:+ name +:+ ": a " +:+ localPrefix +:+ " column is asserted on the row's jets:key, and the file has no jets:key column")
  else Ret (mkInputTable name header rows.*1 rows.*2 local).

Context {node session : Type} `{RuleEngine node session}.

(** [dataCells]: the row without its local cells, and the columns that name the rest. *)
Definition dataCells (t : InputTable) (row : list string) : list string * list string :=
  match it_Local t with
  | [] => (it_Columns t, row)
  | local =>
      let kept := imap (λ i c, (i, c)) (it_Columns t) in
      let kept := List.filter (λ ic : nat * string, negb (existsb (λ lc, Nat.eqb (lc_Index lc) ic.1) local)) kept in
      (kept.*2, omap (λ ic : nat * string, row !! ic.1) kept)
  end.

Fixpoint assert_local_values (subject predicate : node) (name : string) (values : list any) (s : session) : session * res unit :=
  match values with
  | [] => (s, Ret tt)
  | v :: values =>
      then_do
        (match NewRdfNode v with
         | Ret n => insert_triple s subject predicate n
         | Fail e => (s, Fail ("column '" +:+ name +:+ "': " +:+ e))
         | Panic e => (s, Panic e)
         | Loop => (s, Loop)
         end)
        (assert_local_values subject predicate name values)
  end.
(** The loop of [assertLocal]; [k] is the row's key. *)
Fixpoint assert_locals (k : string) (row : list string) (local : list LocalColumn) (s : session) : session * res unit :=
  match local with
  | [] => (s, Ret tt)
  | lc :: local =>
      then_do
        (match row !! lc_Index lc with
         | None => (s, Panic "runtime error: index out of range")
         | Some cell =>
             if String.eqb (TrimSpace cell) EmptyString then (s, Ret tt)
             else if String.eqb k EmptyString then (s, Fail ("column '" +:+ lc_Name lc +:+ "' has a value and jets:key is blank"))
             else
               match castToRdfTypeFromTxt cell (lc_Type lc) None with
               | Ret VNil => (s, Ret tt)
               | Ret (VSlice values) => assert_local_values (NewResource k) (NewResource (lc_Name lc)) (lc_Name lc) values s
               | Ret value => assert_local_values (NewResource k) (NewResource (lc_Name lc)) (lc_Name lc) [value] s
               | Fail e => (s, Fail ("column '" +:+ lc_Name lc +:+ "' value '" +:+ cell +:+ "' is not a " +:+ lc_Type lc +:+ ": " +:+ e))
               | Panic e => (s, Panic e)
               | Loop => (s, Loop)
               end
         end)
        (assert_locals k row local)
  end.
(** [slices.Index]. *)
Fixpoint index_of (x : string) (l : list string) : option nat :=
  match l with
  | [] => None
  | y :: l => if String.eqb y x then Some 0%nat else S <$> index_of x l
  end.
Definition assertLocal (t : InputTable) (row : list string) (s : session) : session * res unit :=
  match it_Local t with
  | [] => (s, Ret tt)
  | local =>
      match index_of "jets:key" (it_Columns t) ≫= (row !!.) with
      | None => (s, Panic "runtime error: index out of range")
      | Some cell => assert_locals (TrimSpace cell) row local s
      end
  end.

(** The rows of a table, then the tables. *)
Definition on_line (t : InputTable) (i : nat) (m : session * res unit) : session * res unit :=
  match m with
  | (s, Fail e) => (s, Fail ("input file " +:+ it_File t +:+ " line " +:+ Itoa (default 0 (it_Lines t !! i)) +:+ ": " +:+ e))
  | m => m
  end.
Fixpoint assert_rows (config : JetrulesSpec) (dataProperties : res (gmap string PropertyNode)) (t : InputTable) (i : nat)
  (rows : list (list string)) (s : session) : session * res unit :=
  match rows with
  | [] => (s, Ret tt)
  | row :: rows =>
      let '(columns, cells) := dataCells t row in
      then_do (on_line t i (AssertTextRow config dataProperties columns cells s)) (λ s,
      then_do (on_line t i (assertLocal t row s)) (assert_rows config dataProperties t (S i) rows))
  end.
Fixpoint assertTables (config : JetrulesSpec) (dataProperties : res (gmap string PropertyNode)) (tables : list InputTable) (s : session)
  : session * res unit :=
  match tables with
  | [] => (s, Ret tt)
  | t :: tables => then_do (assert_rows config dataProperties t 0 (it_Rows t) s) (assertTables config dataProperties tables)
  end.
End tables.

(** ** The run (run.go) *)
Record SessionResult := mkSessionResult {
  sr_Name : string; sr_Status : string; sr_Reason : string; sr_Loops : Z; sr_MaxLoopReached : bool; sr_Exceptions : list string }.
Record engineRun := mkEngineRun {
  er_status : string; er_reason : string; er_loops : Z; er_checks : list CheckResult; er_sessions : list SessionResult }.

Definition about_exception (list : list Check) : bool :=
  existsb (λ c,
    (is_some (ck_Count c) && String.eqb (ck_S c) "jets:iState" && String.eqb (ck_P c) "jets:exception") ||
    existsb (λ t, String.eqb (tr_S t) "jets:iState" && String.eqb (tr_P t) "jets:exception") (check_Triples c)) list.
Definition expectsException (td : TestDefinition) : bool :=
  about_exception (td_ExpectedTriples td) || existsb (λ s, about_exception (is_ExpectedTriples s)) (td_InputSessions td).

Section run.
Context `{HarnessText} `{GoArch} `{GoUnicode} `{GoFmt} `{GoZone} `{GoRegexp} `{GoUuid} `{GoClock} `{GoJson} `{GoSort}.
Context {node session : Type} `{RuleEngine node session} `{Workspace}.

(** The status and the reason; [setError] keeps the first error. *)
Abbreviation verdict := (string * string)%type.
Definition setError (name : string) (v : verdict) (msg : string) : verdict :=
  if String.eqb v.1 StatusError then v else (StatusError, "session " +:+ Quote name +:+ ": " +:+ msg).

(** [evaluate] on one list. *)
Fixpoint evaluate (name : string) (snap : Snapshot) (kind : string) (checks : list Check) (n : nat) (v : verdict)
  : res (nat * verdict * list CheckResult) :=
  match checks with
  | [] => Ret (n, v, [])
  | c :: checks =>
      let '(n, r) := EvaluateCheck snap c kind n in
      let! '(cr, v) :=
        match r with
        | Ret cr => Ret (cr, v)
        | Fail e =>
            let cr := new_result c kind in
            Ret (with_outcome cr OutcomeFail ("cannot evaluate: " +:+ e), setError name v ("check " +:+ cr_Check cr +:+ " cannot be evaluated: " +:+ e))
        | Panic e => Panic e
        | Loop => Loop
        end in
      let! '(n, v, l) := evaluate name snap kind checks n v in
      Ret (n, v, cr :: l)
  end.
(** The lists of a session, in their order. *)
Fixpoint evaluate_lists (name : string) (snap : Snapshot) (lists : list (string * list Check)) (n : nat) (v : verdict)
  : res (nat * verdict * list CheckResult) :=
  match lists with
  | [] => Ret (n, v, [])
  | (kind, checks) :: lists =>
      let! '(n, v, l) := evaluate name snap kind checks n v in
      let! '(n, v, l') := evaluate_lists name snap lists n v in
      Ret (n, v, (l ++ l')%list)
  end.
Definition check_lists (td : TestDefinition) (s : InputSession) : list (string * list Check) :=
  [(KindExpected, is_ExpectedTriples s); (KindExcluded, is_ExcludedTriples s);
   (KindExpected, td_ExpectedTriples td); (KindExcluded, td_ExcludedTriples td)].

(** The errors of a run of rule sets, in the order they are looked for. *)
Definition rule_errors (name : string) (exceptionExpected : bool) (o : RuleSetsOutcome) (v : verdict) : verdict :=
  let v := match ro_ExecuteErr o with Some e => setError name v ("ExecuteRules: " +:+ e) | None => v end in
  let v :=
    if ro_MaxLoopReached o then
      match List.find rs_MaxLoopReached (ro_RuleSets o) with
      | Some rs => setError name v ("maximum loop count reached (" +:+ Itoa (rs_MaxLooping rs) +:+ ") in rule set " +:+ rs_RuleSet rs)
      | None => v
      end
    else v in
  if negb (Nat.eqb (length (ro_Exceptions o)) 0) && negb exceptionExpected
  then setError name v ("jets:exception: " +:+ join "; " (ro_Exceptions o)) else v.

Definition all_pass (checks : list CheckResult) : bool := forallb (λ c, String.eqb (cr_Outcome c) OutcomePass) checks.

(** [session0] is what [NewRdfSession] gives and [assertInput] the assertion of the tables. *)
Definition runSession (td : TestDefinition) (s : InputSession) (session0 : res session) (assertInput : session → session * res unit)
  (mainRuleFile : string) (exceptionExpected : bool) (n : nat) : res (nat * SessionResult * list CheckResult) :=
  let name := is_Name s in
  let err v loops maxed exceptions n := Ret (n, mkSessionResult name v.1 v.2 loops maxed exceptions, []) in
  match session0 with
  | Ret s0 =>
      let '(_, s1, r) := RunRuleSets assertInput (λ (w : unit) _ _, w) (jc_MaxLooping (td_JetrulesConfig td)) mainRuleFile tt s0 in
      let! o := r in
      let loops := foldr (λ rs acc, rs_Loops rs + acc) 0 (ro_RuleSets o) in
      match ro_Err o with
      | Some e => err (setError name (EmptyString, EmptyString) e) loops (ro_MaxLoopReached o) (ro_Exceptions o) n
      | None =>
          let v := rule_errors name exceptionExpected o (EmptyString, EmptyString) in
          match TakeSnapshot s1 with
          | Ret snap =>
              let! '(n, v, checks) := evaluate_lists name snap (check_lists td s) n v in
              let status := if String.eqb v.1 EmptyString then if all_pass checks then StatusPass else StatusFail else v.1 in
              Ret (n, mkSessionResult name status v.2 loops (ro_MaxLoopReached o) (ro_Exceptions o), checks)
          | Fail e => err (setError name v e) loops (ro_MaxLoopReached o) (ro_Exceptions o) n
          | Panic e => Panic e
          | Loop => Loop
          end
      end
  | Fail e => err (setError name (EmptyString, EmptyString) ("while creating the rdf session: " +:+ e)) 0 false [] n
  | Panic e => Panic e
  | Loop => Loop
  end.

Definition in_session (name : string) (c : CheckResult) : CheckResult :=
  mkCheckResult name (cr_Kind c) (cr_Check c) (cr_Outcome c) (cr_Found c).
(** What the loop over the sessions has gathered: the run, its first error, the checks that
    failed. *)
Record run_acc := mkRunAcc { ra_run : engineRun; ra_firstError : string; ra_failed : Z }.
(** The tables and the new session of each input session. *)
Abbreviation session_input := (res session * (session → session * res unit))%type.
(** The loop over the input sessions; a panic stops it, and what it has gathered stays. *)
Fixpoint run_sessions (td : TestDefinition) (mainRuleFile : string) (exceptionExpected : bool)
  (sessions : list (InputSession * session_input)) (n : nat) (acc : run_acc) : run_acc * option string :=
  match sessions with
  | [] => (acc, None)
  | (s, (session0, assertInput)) :: sessions =>
      match runSession td s session0 assertInput mainRuleFile exceptionExpected n with
      | Ret (n, sr, checks) =>
          let checks := in_session (is_Name s) <$> checks in
          let run := ra_run acc in
          let acc := mkRunAcc
            (mkEngineRun (er_status run) (er_reason run) (er_loops run + sr_Loops sr) (er_checks run ++ checks)%list (er_sessions run ++ [sr])%list)
            (if String.eqb (sr_Status sr) StatusError && String.eqb (ra_firstError acc) EmptyString then sr_Reason sr else ra_firstError acc)
            (ra_failed acc + Z.of_nat (length (List.filter (λ c, negb (String.eqb (cr_Outcome c) OutcomePass)) checks))) in
          run_sessions td mainRuleFile exceptionExpected sessions n acc
      | Fail e | Panic e => (acc, Some e)
      | Loop => (acc, Some EmptyString)
      end
  end.

Definition with_verdict (run : engineRun) (status reason : string) : engineRun :=
  mkEngineRun status reason (er_loops run) (er_checks run) (er_sessions run).
Definition applyExpect (expect : option Expectation) (run : engineRun) (sessionErrored : bool) (failedChecks totalChecks : Z) : engineRun :=
  match expect with
  | None => run
  | Some e =>
      if String.eqb (er_status run) EmptyString then run
      else
        let want := ex_Reason e in
        let label := if String.eqb want EmptyString then "an error" else "an error containing " +:+ Quote want in
        let counts := Itoa failedChecks +:+ " of " +:+ Itoa totalChecks +:+ " checks failed" in
        if negb sessionErrored then
          with_verdict run StatusFail
            ("expected " +:+ label +:+ "; the rules ran to completion" +:+ (if 0 <? failedChecks then " and " +:+ counts else ""))
        else if String.eqb want EmptyString || Contains (ToLower (er_reason run)) (ToLower want) then
          if 0 <? failedChecks then with_verdict run StatusFail ("the expected error occurred (" +:+ er_reason run +:+ ") and " +:+ counts)
          else with_verdict run StatusPass ("the expected error occurred: " +:+ er_reason run)
        else with_verdict run (er_status run) ("expected " +:+ label +:+ "; got: " +:+ er_reason run)
  end.

(** [setup] is the engine with its configuration asserted. *)
Definition runOnEngine (td : TestDefinition) (setup : res unit) (mainRuleFile : string) (inputs : list session_input) : engineRun :=
  let run := mkEngineRun EmptyString EmptyString 0 [] [] in
  match setup with
  | Ret _ =>
      let '(acc, panic) := run_sessions td mainRuleFile (expectsException td) (zip (td_InputSessions td) inputs) 0 (mkRunAcc run EmptyString 0) in
      let run := ra_run acc in
      match panic with
      | Some e => with_verdict run StatusError ("the native engine panicked: " +:+ e)
      | None =>
          let total := Z.of_nat (length (er_checks run)) in
          let errored := negb (String.eqb (ra_firstError acc) EmptyString) in
          let run :=
            if errored then with_verdict run StatusError (ra_firstError acc)
            else if 0 <? ra_failed acc then with_verdict run StatusFail (Itoa (ra_failed acc) +:+ " of " +:+ Itoa total +:+ " checks failed")
            else with_verdict run StatusPass EmptyString in
          applyExpect (td_Expect td) run errored (ra_failed acc) total
      end
  | Fail e => with_verdict run StatusError e
  | Panic e => with_verdict run StatusError ("the native engine panicked: " +:+ e)
  | Loop => run
  end.

(** [findingSummary]: all the findings are errors. *)
Definition findingSummary (findings : list Finding) : string :=
  match findings with
  | [] => EmptyString
  | f :: _ =>
      (if String.eqb (f_Path f) EmptyString then f_Message f else f_Path f +:+ ": " +:+ f_Message f) +:+
      (if (1 <? length findings)%nat then " (and " +:+ Itoa (Z.of_nat (length findings) - 1) +:+ " more)" else "")
  end.
End run.
