(* ===== verification/RuleTestLaws.v ===== *)
(** * The join of a rules unit test answers its query

    The bindings a pattern matches are exactly the assignments of its variables under
    which every triple of the pattern is in the session. *)
From stdpp Require Import base list strings gmap.
From Stdlib Require Import ZArith Lia SpecFloat Ascii.
From S2P Require Import Prelude GoFloat GoText GoTextLaws GoValue DateParser EvalOperators RdfCast EvalExpression EvalExpressionLaws.
From S2P Require Import AuditLifecycle Pipes RuleSession RuleTests.
Local Open Scope Z_scope.

(** ** Keys and equality *)
Lemma kind_text_inj k k' a b : (kind_name k +:+ String Ascii.zero a = kind_name k' +:+ String Ascii.zero b)%string → k = k' ∧ a = b.
Proof. destruct k, k'; cbn; intros Hx; try discriminate Hx; by injection Hx as ->. Qed.
Lemma term_key_inj x y : key x = key y ↔ Kind x = Kind y ∧ Text x = Text y.
Proof. unfold key. split; [intros Hk; by apply kind_text_inj|intros [-> ->]; done]. Qed.
(** Terms that are not doubles are equal when they have one key. *)
Lemma Equal_key x y : Kind y ≠ TermDouble → Equal x y = true → key x = key y.
Proof.
  intros Hy. unfold Equal. case_bool_decide as Hk; [|done]. rewrite bool_decide_eq_false_2 by congruence.
  intros Ht%String.eqb_eq. by apply term_key_inj.
Qed.

(** ** The indexes *)
Lemma append_index_elem m k k' i j :
  j ∈ default [] (append_index m k i !! k') ↔ j ∈ default [] (m !! k') ∨ (k' = k ∧ j = i).
Proof.
  unfold append_index. destruct (decide (k' = k)) as [->|Hne].
  - rewrite lookup_insert_eq. cbn. rewrite elem_of_app, list_elem_of_singleton. naive_solver.
  - rewrite lookup_insert_ne by done. naive_solver.
Qed.
Lemma index_triples_elem i triples bs bp k j :
  let '(bs', bp') := index_triples i triples bs bp in
  (j ∈ default [] (bs' !! k) ↔ j ∈ default [] (bs !! k) ∨ ∃ d t, triples !! d = Some t ∧ j = (i + d)%nat ∧ key (st_S t) = k) ∧
  (j ∈ default [] (bp' !! k) ↔ j ∈ default [] (bp !! k) ∨ ∃ d t, triples !! d = Some t ∧ j = (i + d)%nat ∧ key (st_P t) = k).
Proof.
  revert i bs bp. induction triples as [|t triples IH]; intros i bs bp; cbn [index_triples]; [split; naive_solver|].
  specialize (IH (S i) (append_index bs (key (st_S t)) i) (append_index bp (key (st_P t)) i)).
  destruct (index_triples _ _ _ _) as [bs' bp']. rewrite !append_index_elem in IH. destruct IH as [-> ->].
  assert (Hstep : ∀ (f : SnapshotTriple → Term),
    (k = key (f t) ∧ j = i) ∨ (∃ d t', triples !! d = Some t' ∧ j = (S i + d)%nat ∧ key (f t') = k) ↔
    ∃ d t', (t :: triples) !! d = Some t' ∧ j = (i + d)%nat ∧ key (f t') = k).
  { intros f. split.
    - intros [[-> ->]|(d & t' & Hd & -> & Hk)]; [exists 0%nat, t|exists (S d), t']; split_and!; (done || lia).
    - intros ([|d] & t' & Hd & -> & Hk); cbn in Hd; [left; simplify_eq; split; [done|lia]|].
      right. exists d, t'. split_and!; (done || lia). }
  split; rewrite <- Hstep; tauto.
Qed.
Lemma bySubject_elem triples k i :
  i ∈ default [] (bySubject (NewSnapshot triples) !! k) ↔ ∃ t, triples !! i = Some t ∧ key (st_S t) = k.
Proof.
  unfold NewSnapshot. pose proof (index_triples_elem 0 triples ∅ ∅ k i) as Hi. destruct (index_triples _ _ _ _) as [bs bp].
  destruct Hi as [Hi _]. cbn. rewrite Hi, lookup_empty. cbn. split.
  - intros [Hn%not_elem_of_nil|(d & t & ? & -> & ?)]; [done|eauto].
  - intros (t & ? & ?). right. eauto.
Qed.
Lemma byPredicate_elem triples k i :
  i ∈ default [] (byPredicate (NewSnapshot triples) !! k) ↔ ∃ t, triples !! i = Some t ∧ key (st_P t) = k.
Proof.
  unfold NewSnapshot. pose proof (index_triples_elem 0 triples ∅ ∅ k i) as Hi. destruct (index_triples _ _ _ _) as [bs bp].
  destruct Hi as [_ Hi]. cbn. rewrite Hi, lookup_empty. cbn. split.
  - intros [Hn%not_elem_of_nil|(d & t & ? & -> & ?)]; [done|eauto].
  - intros (t & ? & ?). right. eauto.
Qed.
Lemma NewSnapshot_Triples triples : Triples (NewSnapshot triples) = triples.
Proof. unfold NewSnapshot. by destruct (index_triples _ _ _ _). Qed.

Lemma candidates_in_range triples pt b i : i ∈ candidates (NewSnapshot triples) pt b → ∃ t, triples !! i = Some t.
Proof.
  unfold candidates. repeat case_match; rewrite ?bySubject_elem, ?byPredicate_elem, ?elem_of_seq, ?NewSnapshot_Triples; [naive_solver..|].
  intros Hi. apply lookup_lt_is_Some. lia.
Qed.

(** ** The bindings of the walk *)

(** The bindings without the statistics. *)
Fixpoint answers_of (s : Snapshot) (pattern : list patternTriple) (b : Binding) : list Binding :=
  match pattern with
  | [] => [b]
  | pt :: pattern =>
      candidates s pt b ≫= λ ti, from_option (answers_of s pattern) [] (Triples s !! ti ≫= bind_triple pt b)
  end.
Lemma walk_answers triples i pattern b js N :
  deepest js.2 < N → i + Z.of_nat (length pattern) ≤ N →
  ∃ st, walk (NewSnapshot triples) i pattern b js = Ret ((js.1 ++ answers_of (NewSnapshot triples) pattern b)%list, st) ∧ deepest st < N.
Proof.
  revert i b js. induction pattern as [|pt pattern IH]; intros i b js Hd Hl; cbn [walk answers_of]; [eauto|].
  cbn [length] in Hl.
  assert (Hc : ∀ cands found js, (∀ ti, ti ∈ cands → ∃ t, triples !! ti = Some t) → deepest js.2 < N →
    ∃ found' st, each_candidate (walk (NewSnapshot triples) (i + 1) pattern) (NewSnapshot triples) pt b cands found js =
      Ret (found', ((js.1 ++ (cands ≫= λ ti, from_option (answers_of (NewSnapshot triples) pattern) []
        (Triples (NewSnapshot triples) !! ti ≫= bind_triple pt b)))%list, st)) ∧ deepest st < N).
  { induction cands as [|ti cands IHc]; intros found js' Hin Hd'; cbn [each_candidate mbind list_bind].
    - rewrite app_nil_r. exists found, js'.2. by destruct js'.
    - destruct (Hin ti) as [t Ht]; [by left|].
      assert (Ht' : Triples (NewSnapshot triples) !! ti = Some t) by (by rewrite NewSnapshot_Triples). rewrite Ht'.
      assert (Hin' : ∀ ti', ti' ∈ cands → ∃ t, triples !! ti' = Some t) by (intros; apply Hin; by right).
      cbn [mbind option_bind].
      destruct (bind_triple pt b t) as [nb|]; cbn [from_option]; [|by apply IHc].
      destruct (IH (i + 1) nb js') as (st & -> & Hst); [done|lia|]. cbn [res_bind].
      destruct (IHc true (js'.1 ++ answers_of (NewSnapshot triples) pattern nb, st)%list Hin' Hst) as (f & st' & -> & Hst').
      exists f, st'. cbn [fst]. by rewrite <- app_assoc. }
  destruct (Hc (candidates (NewSnapshot triples) pt b) false js) as (found & st & -> & Hst); [|done|].
  { intros ti. apply candidates_in_range. }
  cbn [res_bind]. destruct found; [eauto|]. cbn [fst snd]. eexists. split; [done|].
  unfold note_depth. repeat case_match; cbn [deepest]; lia.
Qed.

(** ** The explanation *)
Lemma objectsOf_returns triples s p : ∃ l, objectsOf (NewSnapshot triples) s p = Ret l.
Proof.
  unfold objectsOf. assert (Hin : ∀ ti, ti ∈ default [] (bySubject (NewSnapshot triples) !! key s) → ∃ t, Triples (NewSnapshot triples) !! ti = Some t).
  { intros ti. rewrite bySubject_elem, NewSnapshot_Triples. naive_solver. }
  induction (default [] (bySubject (NewSnapshot triples) !! key s)) as [|ti tis IH]; [by eexists|]. cbn.
  destruct (Hin ti) as [t ->]; [by left|].
  destruct IH as [l ->]; [intros; apply Hin; by right|]. cbn. eauto.
Qed.
Lemma explainNoMatch_returns `{HarnessText} triples pattern st :
  deepest st < Z.of_nat (length pattern) → ∃ why, explainNoMatch (NewSnapshot triples) pattern st = Ret why.
Proof.
  intros Hd. unfold explainNoMatch. case_match eqn:E0; [eauto|]. apply Z.ltb_ge in E0.
  destruct (lookup_lt_is_Some_2 pattern (Z.to_nat (deepest st))) as [pt ->]; [lia|].
  destruct (resolve (pt_s pt) _) as [s|]; [|eauto]. destruct (resolve (pt_p pt) _) as [p|]; [|eauto].
  destruct (objectsOf_returns triples s p) as [l ->]. cbn [res_bind]. destruct l; eauto.
Qed.

(** ** The query *)
Definition slot_vars (sl : slot) : gset string := if String.eqb (sl_variable sl) EmptyString then ∅ else {[sl_variable sl]}.
Definition triple_vars (pt : patternTriple) : gset string := slot_vars (pt_s pt) ∪ slot_vars (pt_p pt) ∪ slot_vars (pt_o pt).
Definition pattern_vars (pattern : list patternTriple) : gset string := ⋃ (triple_vars <$> pattern).
(** A triple of the pattern is in the session under [b]. *)
Definition holds (triples : list SnapshotTriple) (b : Binding) (pt : patternTriple) : Prop :=
  ∃ t, t ∈ triples ∧ resolve (pt_s pt) b = Some (st_S t) ∧ resolve (pt_p pt) b = Some (st_P t) ∧ resolve (pt_o pt) b = Some (st_O t).

Definition triple_terms (t : SnapshotTriple) : list Term := [st_S t; st_P t; st_O t].
Definition slot_terms (sl : slot) : list Term := if String.eqb (sl_variable sl) EmptyString then [sl_term sl] else [].
Definition pattern_terms (pt : patternTriple) : list Term := slot_terms (pt_s pt) ++ slot_terms (pt_p pt) ++ slot_terms (pt_o pt).

Section query.
Variables (triples : list SnapshotTriple) (terms : list Term).
(** The terms of the session and of the pattern that the comparison tells apart are
    different: it takes two doubles that are close for one. *)
Hypothesis separate : ∀ x y, x ∈ terms → y ∈ terms → Equal x y = true ↔ x = y.
Hypothesis session_terms : ∀ t x, t ∈ triples → x ∈ triple_terms t → x ∈ terms.

Definition within (b : Binding) : Prop := map_Forall (λ _ x, x ∈ terms) b.

Lemma slot_bind_sound sl b t b1 :
  within b → t ∈ terms → (∀ x, x ∈ slot_terms sl → x ∈ terms) → slot_bind sl b t = Some b1 →
  within b1 ∧ b ⊆ b1 ∧ dom b1 = dom b ∪ slot_vars sl ∧ resolve sl b1 = Some t.
Proof.
  intros Hb Ht Hs. unfold slot_bind, resolve, slot_vars, slot_terms in *.
  destruct (String.eqb (sl_variable sl) EmptyString).
  - destruct (Equal (sl_term sl) t) eqn:Ee; intros [= <-]. apply separate in Ee; [|apply Hs; by left|done].
    split_and!; [done|done|set_solver|by rewrite Ee].
  - destruct (b !! sl_variable sl) as [prev|] eqn:Ev.
    + destruct (Equal prev t) eqn:Ee; intros [= <-]. apply separate in Ee; [|by eapply Hb|done]. subst prev.
      split_and!; try done. apply elem_of_dom_2 in Ev. set_solver.
    + intros [= <-]. split_and!; [by apply map_Forall_insert_2|by apply insert_subseteq|rewrite dom_insert_L; set_solver|apply lookup_insert_eq].
Qed.
Lemma slot_bind_complete sl b b' t :
  within b → t ∈ terms → (∀ x, x ∈ slot_terms sl → x ∈ terms) → b ⊆ b' → resolve sl b' = Some t →
  ∃ b1, slot_bind sl b t = Some b1 ∧ b1 ⊆ b'.
Proof.
  intros Hb Ht Hs Hsub. unfold slot_bind, resolve, slot_terms in *. destruct (String.eqb (sl_variable sl) EmptyString).
  - intros [= ->]. assert (Equal t t = true) as -> by (by apply separate). eauto.
  - intros Hr. destruct (b !! sl_variable sl) as [prev|] eqn:Ev.
    + assert (prev = t) as -> by (eapply lookup_weaken in Ev; [|done]; congruence).
      assert (Equal t t = true) as -> by (by apply separate). eauto.
    + exists (<[sl_variable sl := t]> b). split; [done|]. by apply insert_subseteq_l.
Qed.
Lemma resolve_mono sl b b' t : b ⊆ b' → resolve sl b = Some t → resolve sl b' = Some t.
Proof. intros Hs. unfold resolve. case_match; [done|]. intros Hr. by eapply lookup_weaken. Qed.

Lemma bind_triple_sound pt b t b1 :
  within b → t ∈ triples → (∀ x, x ∈ pattern_terms pt → x ∈ terms) → bind_triple pt b t = Some b1 →
  within b1 ∧ b ⊆ b1 ∧ dom b1 = dom b ∪ triple_vars pt ∧
  resolve (pt_s pt) b1 = Some (st_S t) ∧ resolve (pt_p pt) b1 = Some (st_P t) ∧ resolve (pt_o pt) b1 = Some (st_O t).
Proof.
  intros Hb Ht Hp. unfold bind_triple.
  assert (H3 : ∀ x, x ∈ triple_terms t → x ∈ terms) by (intros x; by apply session_terms).
  assert (Hsl : ∀ sl, sl = pt_s pt ∨ sl = pt_p pt ∨ sl = pt_o pt → ∀ x, x ∈ slot_terms sl → x ∈ terms).
  { intros sl Hsl x Hx. apply Hp. unfold pattern_terms. rewrite !elem_of_app. naive_solver. }
  intros (ba & Ha & (bb & Hbb & Hc)%bind_Some)%bind_Some.
  apply slot_bind_sound in Ha as (Wa & Sa & Da & Ra); [|done|apply H3; by left|apply Hsl; auto].
  apply slot_bind_sound in Hbb as (Wb & Sb & Db & Rb); [|done|apply H3; right; by left|apply Hsl; auto].
  apply slot_bind_sound in Hc as (Wc & Sc & Dc & Rc); [|done|apply H3; right; right; by left|apply Hsl; auto].
  split_and!; [exact Wc|exact (transitivity Sa (transitivity Sb Sc))| | | |exact Rc].
  - unfold triple_vars. by rewrite Dc, Db, Da, !(assoc_L (∪)).
  - eapply resolve_mono; [|exact Ra]. exact (transitivity Sb Sc).
  - eapply resolve_mono; [exact Sc|exact Rb].
Qed.
Lemma bind_triple_complete pt b b' t :
  within b → t ∈ triples → (∀ x, x ∈ pattern_terms pt → x ∈ terms) → b ⊆ b' →
  resolve (pt_s pt) b' = Some (st_S t) → resolve (pt_p pt) b' = Some (st_P t) → resolve (pt_o pt) b' = Some (st_O t) →
  ∃ b1, bind_triple pt b t = Some b1 ∧ b1 ⊆ b'.
Proof.
  intros Hb Ht Hp Hsub Hs Hpr Ho. unfold bind_triple.
  assert (H3 : ∀ x, x ∈ triple_terms t → x ∈ terms) by (intros x; by apply session_terms).
  assert (Hsl : ∀ sl, sl = pt_s pt ∨ sl = pt_p pt ∨ sl = pt_o pt → ∀ x, x ∈ slot_terms sl → x ∈ terms).
  { intros sl Hsl x Hx. apply Hp. unfold pattern_terms. rewrite !elem_of_app. naive_solver. }
  assert (T1 : st_S t ∈ terms) by (apply H3; by left).
  assert (T2 : st_P t ∈ terms) by (apply H3; right; by left).
  assert (T3 : st_O t ∈ terms) by (apply H3; right; right; by left).
  destruct (slot_bind_complete (pt_s pt) b b' (st_S t)) as (ba & Ea & Sa); [done|done|apply Hsl; auto|done|done|].
  pose proof Ea as (Wa & _)%slot_bind_sound; [|done|done|apply Hsl; auto].
  destruct (slot_bind_complete (pt_p pt) ba b' (st_P t)) as (bb & Eb & Sb); [done|done|apply Hsl; auto|done|done|].
  pose proof Eb as (Wb & _)%slot_bind_sound; [|done|done|apply Hsl; auto].
  destruct (slot_bind_complete (pt_o pt) bb b' (st_O t)) as (bc & Ec & Sc); [done|done|apply Hsl; auto|done|done|].
  exists bc. rewrite Ea. cbn. rewrite Eb. cbn. by rewrite Ec.
Qed.

(** A triple that binds is a candidate. *)
Hypothesis no_double : ∀ t, t ∈ triples → Kind (st_S t) ≠ TermDouble ∧ Kind (st_P t) ≠ TermDouble.

Lemma slot_bind_equal sl b t b1 u : slot_bind sl b t = Some b1 → resolve sl b = Some u → Equal u t = true.
Proof.
  unfold slot_bind, resolve. destruct (String.eqb (sl_variable sl) EmptyString).
  - destruct (Equal (sl_term sl) t) eqn:Ee; [|done]. by intros _ [= <-].
  - intros Hb Hr. rewrite Hr in Hb. by destruct (Equal u t).
Qed.
Lemma bind_candidate pt b i t b1 :
  triples !! i = Some t → bind_triple pt b t = Some b1 → i ∈ candidates (NewSnapshot triples) pt b.
Proof.
  intros Hi Hb. pose proof (list_elem_of_lookup_2 _ _ _ Hi) as Ht. destruct (no_double t Ht) as [Ns Np].
  unfold bind_triple in Hb. apply bind_Some in Hb as (ba & Ha & Hb). apply bind_Some in Hb as (bb & Hbb & Hc). unfold candidates.
  destruct (resolve (pt_s pt) b) as [u|] eqn:Es.
  { apply bySubject_elem. exists t. split; [done|]. symmetry. apply Equal_key; [done|]. by eapply slot_bind_equal. }
  destruct (resolve (pt_p pt) b) as [u|] eqn:Ep.
  { apply byPredicate_elem. exists t. split; [done|]. symmetry. apply Equal_key; [done|]. eapply slot_bind_equal; [done|].
    eapply resolve_mono; [|done]. revert Ha. unfold slot_bind. repeat case_match; intros [= <-]; try done. by apply insert_subseteq. }
  apply elem_of_seq. rewrite NewSnapshot_Triples. apply lookup_lt_Some in Hi. lia.
Qed.

Lemma answers_elem pattern b b' :
  within b → (∀ pt x, pt ∈ pattern → x ∈ pattern_terms pt → x ∈ terms) →
  b' ∈ answers_of (NewSnapshot triples) pattern b ↔
  b ⊆ b' ∧ dom b' = dom b ∪ pattern_vars pattern ∧ ∀ pt, pt ∈ pattern → holds triples b' pt.
Proof.
  revert b. induction pattern as [|pt pattern IH]; intros b Hw Hp; cbn [answers_of].
  - rewrite list_elem_of_singleton. split.
    + intros ->. split_and!; [done|unfold pattern_vars; cbn; by rewrite (right_id_L ∅ (∪))|]. by intros pt ?%not_elem_of_nil.
    + intros (Hs & Hd & _). unfold pattern_vars in Hd. cbn in Hd. rewrite (right_id_L ∅ (∪)) in Hd.
      apply map_eq. intros v. destruct (b !! v) as [x|] eqn:Eb; [by eapply lookup_weaken|].
      apply not_elem_of_dom. rewrite Hd. by apply not_elem_of_dom.
  - assert (Hpt : ∀ x, x ∈ pattern_terms pt → x ∈ terms) by (intros x; apply Hp; by left).
    assert (Hrest : ∀ pt' x, pt' ∈ pattern → x ∈ pattern_terms pt' → x ∈ terms) by (intros pt' x Hin; apply Hp; by right).
    unfold pattern_vars. cbn [fmap list_fmap union_list foldr]. fold (pattern_vars pattern).
    rewrite list_elem_of_bind. split.
    + intros (i & Hb & Hi). rewrite NewSnapshot_Triples in Hb. destruct (triples !! i) as [t|] eqn:Et; [|by apply not_elem_of_nil in Hb].
      cbn in Hb. destruct (bind_triple pt b t) as [b1|] eqn:E1; [|by apply not_elem_of_nil in Hb]. cbn in Hb.
      pose proof (list_elem_of_lookup_2 _ _ _ Et) as Ht.
      destruct (bind_triple_sound _ _ _ _ Hw Ht Hpt E1) as (W1 & S1 & D1 & R1 & R2 & R3).
      apply (IH b1 W1 Hrest) in Hb as (S2 & D2 & Hh). split_and!; [exact (transitivity S1 S2)| |].
      * rewrite D2, D1. by rewrite (assoc_L (∪)).
      * intros pt' [->|Hin]%elem_of_cons; [|by apply Hh]. exists t. split; [done|]. split_and!; by eapply resolve_mono.
    + intros (Hs & Hd & Hh). destruct (Hh pt) as (t & Ht & R1 & R2 & R3); [by left|].
      destruct (bind_triple_complete _ _ _ _ Hw Ht Hpt Hs R1 R2 R3) as (b1 & E1 & S1).
      destruct (bind_triple_sound _ _ _ _ Hw Ht Hpt E1) as (W1 & _ & D1 & _).
      pose proof Ht as (i & Hi)%list_elem_of_lookup. exists i. split; [|by eapply bind_candidate].
      rewrite NewSnapshot_Triples, Hi. cbn. rewrite E1. cbn. apply IH; [done|done|]. split_and!; [done| |].
      * rewrite Hd, D1. by rewrite (assoc_L (∪)).
      * intros pt' Hin. apply Hh. by right.
Qed.
End query.

(** The assignments that answer a pattern. *)
Definition answers (triples : list SnapshotTriple) (pattern : list patternTriple) (b : Binding) : Prop :=
  dom b = pattern_vars pattern ∧ ∀ pt, pt ∈ pattern → holds triples b pt.
(** The comparison tells the terms apart. *)
Definition terms_apart (triples : list SnapshotTriple) (pattern : list patternTriple) : Prop :=
  let terms := (triples ≫= triple_terms) ++ (pattern ≫= pattern_terms) in
  ∀ x y, x ∈ terms → y ∈ terms → Equal x y = true ↔ x = y.
Definition resources_indexed (triples : list SnapshotTriple) : Prop :=
  ∀ t, t ∈ triples → Kind (st_S t) ≠ TermDouble ∧ Kind (st_P t) ≠ TermDouble.

Section decide.
Context `{HarnessText} `{GoSort}.
Lemma match_returns triples pattern :
  ∃ out st, match_pattern (NewSnapshot triples) pattern = Ret (out, st) ∧ deepest st < Z.of_nat (length pattern) ∧
    ∀ b, b ∈ out ↔ b ∈ answers_of (NewSnapshot triples) pattern ∅.
Proof.
  unfold match_pattern.
  destruct (walk_answers triples 0 pattern ∅ ([], mkJoinStats (-1) 0 ∅) (Z.of_nat (length pattern))) as (st & -> & Hst); [cbn; lia|lia|].
  cbn [res_bind fst app]. eexists _, st. split; [reflexivity|]. split; [done|]. intros b. by rewrite SortFunc_perm.
Qed.
Lemma match_answers triples pattern :
  resources_indexed triples → terms_apart triples pattern →
  ∃ out st, match_pattern (NewSnapshot triples) pattern = Ret (out, st) ∧ deepest st < Z.of_nat (length pattern) ∧
    ∀ b, b ∈ out ↔ answers triples pattern b.
Proof.
  intros Hd Hsep. destruct (match_returns triples pattern) as (out & st & Em & Hst & Hin).
  exists out, st. split; [done|]. split; [done|]. intros b. rewrite Hin. unfold answers.
  rewrite (answers_elem triples _ Hsep); [| |done|apply map_Forall_empty|].
  - rewrite dom_empty_L, (left_id_L ∅ (∪)). split; [naive_solver|]. intros [? ?]. split_and!; [apply map_empty_subseteq|done|done].
  - intros t x Ht Hx. apply elem_of_app. left. apply list_elem_of_bind. eauto.
  - intros pt x Hpt Hx. apply elem_of_app. right. apply list_elem_of_bind. eauto.
Qed.

Context `{GoArch} `{GoUnicode} `{GoFmt} `{GoZone} `{GoRegexp} `{GoUuid} `{GoClock} `{GoJson}.

(** C22. A check decides its query. On a session whose subjects and predicates are not
    doubles, and when the comparison takes no two terms of the session or of the pattern
    for one, the evaluation of a triple or of a pattern that compiles always returns: an
    expected check passes exactly when some assignment of the variables puts every triple
    of the pattern in the session, an excluded one exactly when none does, and a check that
    does not pass fails. *)
Theorem check_decides triples c list pattern n :
  ck_Count c = None → list = KindExpected ∨ list = KindExcluded → compilePattern (check_Triples c) = Ret pattern →
  resources_indexed triples → terms_apart triples pattern →
  ∃ cr, EvaluateCheck (NewSnapshot triples) c list n = (n, Ret cr) ∧
    (cr_Outcome cr = OutcomePass ↔
      if String.eqb list KindExpected then ∃ b, answers triples pattern b else ∀ b, ¬ answers triples pattern b) ∧
    (cr_Outcome cr = OutcomePass ∨ cr_Outcome cr = OutcomeFail).
Proof.
  intros Hc Hl Hp Hd Hsep. unfold EvaluateCheck. rewrite Hc, Hp. cbn [res_bind].
  destruct (match_answers triples pattern Hd Hsep) as (out & st & -> & Hst & Hin). cbn [res_bind].
  destruct (explainNoMatch_returns triples pattern st Hst) as [why Hwhy].
  destruct out as [|b out]; cbn [length Nat.eqb negb].
  - assert (Hno : ∀ b, ¬ answers triples pattern b) by (intros b Hb%Hin; by apply not_elem_of_nil in Hb).
    destruct Hl as [->| ->]; cbn [String.eqb KindExpected KindExcluded]; cbn; rewrite ?Hwhy; cbn; eexists; (split; [reflexivity|]); cbn.
    + split; [|by right]. split; [done|]. intros [b Hb]. by apply Hno in Hb.
    + split; [|by left]. done.
  - assert (Hb : answers triples pattern b) by (apply Hin; by left).
    destruct Hl as [->| ->]; cbn; eexists; (split; [reflexivity|]); cbn.
    + split; [|by left]. split; [|done]. by exists b.
    + split; [|by right]. split; [done|]. intros Hno. by apply Hno in Hb.
Qed.
End decide.
