(* ===== verification/RuleTestVerdict.v ===== *)
(** * The verdict of a rules unit test

    A test passes exactly when each of its sessions ran and every check passed, with no
    error or with the one the test expects (src/jets/rulestest/harness/run.go). *)
From stdpp Require Import base list strings gmap.
From Stdlib Require Import ZArith Lia.
From S2P Require Import Prelude GoFloat GoText GoTextLaws GoValue DateParser EvalOperators RdfCast EvalExpression.
From S2P Require Import AuditLifecycle Pipes RuleSession RuleWorker RuleTests RuleTestValid RuleTestRun.
Local Open Scope Z_scope.

Definition errored (s : SessionResult) : bool := String.eqb (sr_Status s) StatusError.
Definition check_passed (c : CheckResult) : Prop := cr_Outcome c = OutcomePass.
(** The tally of the checks that did not pass. *)
Definition not_passed (checks : list CheckResult) : Z :=
  Z.of_nat (length (List.filter (λ c, negb (String.eqb (cr_Outcome c) OutcomePass)) checks)).

Lemma not_passed_app l l' : not_passed (l ++ l') = not_passed l + not_passed l'.
Proof. unfold not_passed. rewrite List.filter_app, length_app. lia. Qed.
Lemma not_passed_none l : not_passed l = 0 ↔ Forall check_passed l.
Proof.
  unfold not_passed, check_passed. induction l as [|c l IH]; cbn [List.filter]; [split; [constructor|done]|].
  rewrite Forall_cons, <- IH. destruct (String.eqb_spec (cr_Outcome c) OutcomePass); cbn [negb length].
  - naive_solver.
  - split; [lia|naive_solver].
Qed.
Lemma not_passed_nonneg l : 0 ≤ not_passed l.
Proof. unfold not_passed. lia. Qed.
Lemma all_pass_Forall l : all_pass l = true ↔ Forall check_passed l.
Proof. unfold all_pass, check_passed. rewrite forallb_forall, List.Forall_forall. setoid_rewrite String.eqb_eq. done. Qed.
Lemma in_session_passed name l : Forall check_passed (in_session name <$> l) ↔ Forall check_passed l.
Proof. rewrite Forall_fmap. done. Qed.

Section verdict.
Context `{HarnessText} `{GoArch} `{GoUnicode} `{GoFmt} `{GoZone} `{GoRegexp} `{GoUuid} `{GoClock} `{GoJson} `{GoSort}.
Context {node session : Type} `{RuleEngine node session} `{Workspace}.

(** ** A session *)

(** No status yet, or an error with its reason. *)
Definition verdict_ok (v : string * string) : Prop := v.1 = EmptyString ∨ (v.1 = StatusError ∧ v.2 ≠ EmptyString).
Lemma setError_ok name v msg : verdict_ok v → verdict_ok (setError name v msg) ∧ (setError name v msg).1 = StatusError.
Proof.
  intros Hv. unfold setError. destruct (String.eqb_spec v.1 StatusError) as [E|_]; [done|].
  split; [right|]; done.
Qed.
Lemma rule_errors_ok name exc o v : verdict_ok v → verdict_ok (rule_errors name exc o v).
Proof.
  intros Hv. unfold rule_errors. cbv zeta.
  assert (Hse : ∀ v e, verdict_ok v → verdict_ok (setError name v e)) by (intros v' e Hv'; by apply setError_ok).
  repeat case_match; eauto.
Qed.
Lemma evaluate_ok name snap kind checks n v n' v' l :
  verdict_ok v → evaluate name snap kind checks n v = Ret (n', v', l) → verdict_ok v'.
Proof.
  revert n v n' v' l. induction checks as [|c checks IH]; intros n v n' v' l Hv; cbn [evaluate]; [congruence|].
  destruct (EvaluateCheck snap c kind n) as [n1 r]. destruct r as [cr|e| |]; cbn [res_bind]; [| |done..].
  - destruct (evaluate name snap kind checks n1 v) as [[[n2 v2] l2]| | |] eqn:E; cbn [res_bind]; [|done..].
    intros [= _ <- _]. by eapply IH.
  - destruct (evaluate _ _ _ checks _ _) as [[[n2 v2] l2]| | |] eqn:E; cbn [res_bind]; [|done..].
    intros [= _ <- _]. eapply IH; [|exact E]. by apply setError_ok.
Qed.
Lemma evaluate_lists_ok name snap lists n v n' v' l :
  verdict_ok v → evaluate_lists name snap lists n v = Ret (n', v', l) → verdict_ok v'.
Proof.
  revert n v n' v' l. induction lists as [|[kind checks] lists IH]; intros n v n' v' l Hv; cbn [evaluate_lists]; [congruence|].
  destruct (evaluate name snap kind checks n v) as [[[n1 v1] l1]| | |] eqn:E; cbn [res_bind]; [|done..].
  destruct (evaluate_lists name snap lists n1 v1) as [[[n2 v2] l2]| | |] eqn:E2; cbn [res_bind]; [|done..].
  intros [= _ <- _]. eapply IH; [|exact E2]. by eapply evaluate_ok.
Qed.

(** What the result of a session says of its checks. *)
Definition session_ok (sr : SessionResult) (checks : list CheckResult) : Prop :=
  (sr_Status sr = StatusPass ↔ errored sr = false ∧ Forall check_passed checks) ∧ (errored sr = true → sr_Reason sr ≠ EmptyString).
Lemma errored_session name status reason loops maxed excs :
  reason ≠ EmptyString → status = StatusError → session_ok (mkSessionResult name status reason loops maxed excs) [].
Proof.
  intros Hr ->. unfold session_ok, errored. cbn. split; [|done]. by split; [|intros [? _]].
Qed.
Lemma evaluated_session name v loops maxed excs checks :
  verdict_ok v →
  session_ok (mkSessionResult name (if String.eqb v.1 EmptyString then if all_pass checks then StatusPass else StatusFail else v.1) v.2 loops maxed excs) checks.
Proof.
  intros Hv. unfold session_ok, errored. cbn [sr_Status sr_Reason]. destruct Hv as [->|[-> Hr]]; cbn [String.eqb].
  - destruct (all_pass checks) eqn:Ea.
    + apply all_pass_Forall in Ea. split; done.
    + split; [|done]. split; [done|]. intros [_ Hf%all_pass_Forall]. congruence.
  - split; [|done]. by split; [|intros [? _]].
Qed.
Lemma runSession_ok td s session0 assertInput main exc n n' sr checks :
  runSession td s session0 assertInput main exc n = Ret (n', sr, checks) → session_ok sr checks.
Proof.
  unfold runSession. destruct session0 as [s0|e| |]; [|by intros [= _ <- <-]; apply errored_session|done..].
  destruct (RunRuleSets _ _ _ _ _ _) as [[w s1] r]. destruct r as [o| | |]; cbn [res_bind]; [|done..].
  destruct (ro_Err o) as [e|]; [by intros [= _ <- <-]; apply errored_session|].
  assert (Hv : verdict_ok (rule_errors (is_Name s) exc o (EmptyString, EmptyString))) by (apply rule_errors_ok; by left).
  destruct (TakeSnapshot s1) as [snap|e| |]; [| |done..].
  2: { destruct (setError_ok (is_Name s) _ e Hv) as [Hk He]. destruct (setError _ _ _) as [st reason]. cbn in He. subst st.
    intros [= _ <- <-]. apply errored_session; [|done]. by destruct Hk as [|[]]. }
  destruct (evaluate_lists _ _ _ _ _) as [[[n2 v2] l2]| | |] eqn:E; cbn [res_bind]; [|done..].
  intros [= _ <- <-]. apply evaluated_session. by eapply evaluate_lists_ok.
Qed.

(** ** The loop over the sessions *)
Definition first_reason (l : list SessionResult) : string := default EmptyString (sr_Reason <$> List.find errored l).
Record acc_ok (acc : run_acc) : Prop := {
  ao_failed : ra_failed acc = not_passed (er_checks (ra_run acc));
  ao_first : ra_firstError acc = first_reason (er_sessions (ra_run acc));
  ao_reason : Forall (λ s, errored s = true → sr_Reason s ≠ EmptyString) (er_sessions (ra_run acc));
  ao_pass : Forall (λ s, sr_Status s = StatusPass) (er_sessions (ra_run acc)) ↔
    List.find errored (er_sessions (ra_run acc)) = None ∧ Forall check_passed (er_checks (ra_run acc)) }.

Lemma find_app {A} (f : A → bool) l l' : List.find f (l ++ l') = match List.find f l with Some x => Some x | None => List.find f l' end.
Proof. induction l as [|x l IH]; cbn; [done|]. by destruct (f x). Qed.
Lemma first_reason_empty l :
  Forall (λ s, errored s = true → sr_Reason s ≠ EmptyString) l → first_reason l = EmptyString ↔ List.find errored l = None.
Proof.
  intros Hr. unfold first_reason. destruct (List.find errored l) as [s|] eqn:E; [|done]. cbn. split; [|done].
  apply List.find_some in E as [Hin He]. rewrite Forall_forall in Hr. intros Hx. exfalso.
  apply (Hr s); [by apply list_elem_of_In|done|done].
Qed.
Lemma acc_step acc sr name checks :
  acc_ok acc → session_ok sr checks →
  acc_ok (let checks := in_session name <$> checks in
    mkRunAcc
      (mkEngineRun (er_status (ra_run acc)) (er_reason (ra_run acc)) (er_loops (ra_run acc) + sr_Loops sr)
        (er_checks (ra_run acc) ++ checks)%list (er_sessions (ra_run acc) ++ [sr])%list)
      (if String.eqb (sr_Status sr) StatusError && String.eqb (ra_firstError acc) EmptyString then sr_Reason sr else ra_firstError acc)
      (ra_failed acc + Z.of_nat (length (List.filter (λ c, negb (String.eqb (cr_Outcome c) OutcomePass)) checks)))).
Proof.
  intros [Hf Hfirst Hr Hp] [Hs Hre]. cbv zeta. split; cbn [ra_run ra_firstError ra_failed er_checks er_sessions].
  - rewrite not_passed_app, Hf. done.
  - fold (errored sr). rewrite Hfirst. pose proof (first_reason_empty _ Hr) as He. revert He. unfold first_reason.
    rewrite find_app. destruct (List.find errored (er_sessions (ra_run acc))) as [s|]; cbn [fmap option_fmap default option_map List.find]; unfold id.
    + intros He. destruct (String.eqb_spec (sr_Reason s) EmptyString) as [Hx|_]; [by apply He in Hx|]. by rewrite andb_false_r.
    + intros _. rewrite String.eqb_refl, andb_true_r. by destruct (errored sr).
  - apply Forall_app. split; [done|]. by constructor.
  - rewrite !Forall_app, Hp, find_app, in_session_passed, Forall_singleton, Hs. cbn [List.find].
    destruct (List.find errored (er_sessions (ra_run acc))); [naive_solver|]. destruct (errored sr); naive_solver.
Qed.
Lemma run_sessions_ok td main exc sessions n acc acc' panic :
  acc_ok acc → run_sessions td main exc sessions n acc = (acc', panic) →
  acc_ok acc' ∧
  (panic = None ↔ length (er_sessions (ra_run acc')) = (length (er_sessions (ra_run acc)) + length sessions)%nat).
Proof.
  revert n acc. induction sessions as [|[s [session0 assertInput]] sessions IH]; intros n acc Hacc; cbn [run_sessions].
  - intros [= <- <-]. split; [done|]. cbn. split; [lia|done].
  - destruct (runSession _ _ _ _ _ _ _) as [[[n1 sr] checks]|e|e|] eqn:E.
    + intros Hrun. apply IH in Hrun; [|apply acc_step; [done|by eapply runSession_ok]]. destruct Hrun as [Hok Hlen].
      split; [done|]. rewrite Hlen. cbn [ra_run er_sessions length]. rewrite length_app. cbn [length]. split; lia.
    + intros [= <- <-]. split; [done|]. cbn [length]. split; [done|lia].
    + intros [= <- <-]. split; [done|]. cbn [length]. split; [done|lia].
    + intros [= <- <-]. split; [done|]. cbn [length]. split; [done|lia].
Qed.
Lemma acc_start : acc_ok (mkRunAcc (mkEngineRun EmptyString EmptyString 0 [] []) EmptyString 0).
Proof. split; cbn; [done|done|constructor|]. by split; [split|]. Qed.

Definition reason_matches (e : Expectation) (reason : string) : Prop :=
  ex_Reason e = EmptyString ∨ Contains (ToLower reason) (ToLower (ex_Reason e)) = true.

Lemma applyExpect_pass ex run errs failed total :
  er_status run ≠ EmptyString → (errs = true → er_status run = StatusError) →
  er_status (applyExpect (Some ex) run errs failed total) = StatusPass ↔ errs = true ∧ failed ≤ 0 ∧ reason_matches ex (er_reason run).
Proof.
  intros Hne Hs. unfold applyExpect, reason_matches. rewrite (proj2 (String.eqb_neq _ _) Hne).
  destruct errs; cbn [negb]; [|cbn; naive_solver]. specialize (Hs eq_refl).
  destruct (String.eqb_spec (ex_Reason ex) EmptyString) as [Hw|Hw]; cbn [orb].
  - destruct (Z.ltb_spec 0 failed); cbn; naive_solver lia.
  - destruct (Contains _ _); [destruct (Z.ltb_spec 0 failed); cbn; naive_solver lia|]. cbn. rewrite Hs. naive_solver.
Qed.
Lemma applyExpect_lists ex run errs failed total :
  er_sessions (applyExpect ex run errs failed total) = er_sessions run ∧ er_checks (applyExpect ex run errs failed total) = er_checks run.
Proof. unfold applyExpect. repeat case_match; done. Qed.

(** C23. The verdict of a test is exact. A test passes exactly when the engine was set up,
    every input session of the test ran, every check passed, and: without an expectation,
    every session passed; with one, some session ended in an error, and the reason of the
    first of them contains the text expected. *)
Theorem verdict_exact td setup main inputs :
  let run := runOnEngine td setup main inputs in
  er_status run = StatusPass ↔
  (∃ u, setup = Ret u) ∧ length (er_sessions run) = length (zip (td_InputSessions td) inputs) ∧ Forall check_passed (er_checks run) ∧
  match td_Expect td with
  | None => Forall (λ s, sr_Status s = StatusPass) (er_sessions run)
  | Some e => ∃ s, List.find errored (er_sessions run) = Some s ∧ reason_matches e (sr_Reason s)
  end.
Proof.
  unfold runOnEngine. destruct setup as [u|e|e|]; [|cbn; naive_solver..].
  destruct (run_sessions _ _ _ _ _ _) as [acc panic] eqn:E. apply run_sessions_ok in E as [[Hf Hfirst Hr Hp] Hlen]; [|apply acc_start].
  cbn [ra_run er_sessions length Nat.add] in Hlen. destruct panic as [e|].
  { cbn. split; [done|]. intros (_ & Hl & _). by apply Hlen in Hl. }
  assert (Hl : length (er_sessions (ra_run acc)) = length (zip (td_InputSessions td) inputs)) by (by apply Hlen). clear Hlen.
  cbv zeta. set (run := if negb _ then _ else _).
  pose proof (first_reason_empty _ Hr) as Hfe. rewrite <- Hfirst in Hfe.
  pose proof (not_passed_none (er_checks (ra_run acc))) as Hn. pose proof (not_passed_nonneg (er_checks (ra_run acc))) as Hpos. rewrite <- Hf in Hn, Hpos.
  assert (Hlists : er_sessions run = er_sessions (ra_run acc) ∧ er_checks run = er_checks (ra_run acc)) by (subst run; by repeat case_match).
  destruct (applyExpect_lists (td_Expect td) run (negb (String.eqb (ra_firstError acc) EmptyString)) (ra_failed acc) (Z.of_nat (length (er_checks (ra_run acc))))) as [-> ->].
  destruct Hlists as [-> ->]. destruct (td_Expect td) as [ex|].
  - rewrite applyExpect_pass.
    + transitivity (ra_firstError acc ≠ EmptyString ∧ Forall check_passed (er_checks (ra_run acc)) ∧ reason_matches ex (ra_firstError acc)).
      * subst run. destruct (String.eqb_spec (ra_firstError acc) EmptyString) as [He|He]; cbn [negb with_verdict er_reason]; [naive_solver|].
        split; intros (? & ? & ?); (split; [done|]); (split; [|done]); [apply Hn|apply Z.eq_le_incl, Hn]; (done || lia).
      * unfold first_reason in Hfirst. destruct (List.find errored (er_sessions (ra_run acc))) as [s|].
        -- cbn in Hfirst. unfold id in Hfirst. rewrite Hfirst in *. naive_solver.
        -- split; [naive_solver|]. by intros (_ & _ & _ & s & Hs & _).
    + subst run. by repeat case_match.
    + subst run. by intros ->.
  - cbn [applyExpect]. rewrite Hp, <- Hfe. subst run.
    destruct (String.eqb_spec (ra_firstError acc) EmptyString); cbn [negb]; [|cbn; naive_solver].
    destruct (Z.ltb_spec 0 (ra_failed acc)); cbn; [naive_solver lia|]. assert (ra_failed acc = 0) by lia. naive_solver.
Qed.
End verdict.
