(* ===== verification/RuleTestNames.v ===== *)
(** * The name a finding suggests (src/jets/rulestest/validate.go)

    The two rows of the edit distance compute the cost of a least_cost alignment of the two
    texts, and the name suggested is a candidate at the least distance. *)
From stdpp Require Import base list sorting strings gmap.
From Stdlib Require Import ZArith Lia.
From S2P Require Import Prelude GoFloat GoText GoTextLaws GoValue EvalOperators RdfCast EvalExpression AuditLifecycle RuleSession RuleTests RuleTestValid.
Local Open Scope Z_scope.

(** The alignments of two sequences of runes, with their cost: runes are deleted, inserted
    and changed at the cost of one each, and kept for free. *)
Inductive aligns : list Z → list Z → Z → Prop :=
  | align_nil : aligns [] [] 0
  | align_delete a x b n : aligns a b n → aligns (a ++ [x]) b (n + 1)
  | align_insert a b y n : aligns a b n → aligns a (b ++ [y]) (n + 1)
  | align_keep a b x n : aligns a b n → aligns (a ++ [x]) (b ++ [x]) n
  | align_change a b x y n : x ≠ y → aligns a b n → aligns (a ++ [x]) (b ++ [y]) (n + 1).
Create HintDb aligned.
#[export] Hint Constructors aligns : aligned.
(** The cost of a least_cost alignment. *)
Definition least_cost (a b : list Z) (n : Z) : Prop := aligns a b n ∧ ∀ m, aligns a b m → n ≤ m.

(** ** The table *)
Section table.
Variables ra rb : list Z.
Fixpoint dist (i : nat) : nat → Z :=
  match i with
  | O => Z.of_nat
  | S i' =>
      fix row (j : nat) : Z :=
        match j with
        | O => Z.of_nat (S i')
        | S j' => Z.min (Z.min (dist i' (S j') + 1) (row j' + 1)) (dist i' j' + (if cell_at ra i' =? cell_at rb j' then 0 else 1))
        end
  end.
Lemma dist_left i : dist i 0 = Z.of_nat i.
Proof. by destruct i. Qed.

Lemma dist_next i j :
  dist (S i) (S j) = Z.min (Z.min (dist i (S j) + 1) (dist (S i) j + 1)) (dist i j + (if cell_at ra i =? cell_at rb j then 0 else 1)).
Proof. done. Qed.

(** The table holds the least_cost alignments of the prefixes. *)
Lemma take_next (l : list Z) i : (i < length l)%nat → take (S i) l = take i l ++ [cell_at l i].
Proof. intros Hi. unfold cell_at. destruct (lookup_lt_is_Some_2 l i Hi) as [x Hx]. rewrite Hx. by apply take_S_r. Qed.
Lemma dist_aligns i j : (i ≤ length ra)%nat → (j ≤ length rb)%nat → aligns (take i ra) (take j rb) (dist i j).
Proof.
  revert j. induction i as [|i IHi]; intros j Hi Hj.
  - cbn [dist]. induction j as [|j IHj]; [constructor|]. rewrite take_next by lia.
    replace (Z.of_nat (S j)) with (Z.of_nat j + 1) by lia. apply align_insert, IHj. lia.
  - induction j as [|j IHj].
    + rewrite dist_left, take_next by lia. replace (Z.of_nat (S i)) with (dist i 0 + 1) by (rewrite dist_left; lia).
      apply align_delete, IHi; lia.
    + rewrite dist_next.
      destruct (Z.min_spec (Z.min (dist i (S j) + 1) (dist (S i) j + 1)) (dist i j + (if cell_at ra i =? cell_at rb j then 0 else 1)))
        as [[_ ->]|[_ ->]]; [destruct (Z.min_spec (dist i (S j) + 1) (dist (S i) j + 1)) as [[_ ->]|[_ ->]]|].
      * rewrite (take_next ra) by lia. apply align_delete, IHi; lia.
      * rewrite (take_next rb) by lia. apply align_insert, IHj; lia.
      * rewrite !take_next by lia. destruct (Z.eqb_spec (cell_at ra i) (cell_at rb j)) as [->|Hne].
        -- rewrite Z.add_0_r. apply align_keep, IHi; lia.
        -- apply align_change; [done|]. apply IHi; lia.
Qed.
Lemma dist_step i j :
  dist (S i) j ≤ dist i j + 1 ∧ dist i (S j) ≤ dist i j + 1 ∧
  dist (S i) (S j) ≤ dist i j + (if cell_at ra i =? cell_at rb j then 0 else 1).
Proof.
  split_and!.
  - destruct j; [rewrite !dist_left; lia|]. rewrite dist_next. lia.
  - destruct i; [cbn [dist]; lia|]. rewrite dist_next. lia.
  - rewrite dist_next. lia.
Qed.
Lemma dist_least a b n : aligns a b n → ∀ i j, a = take i ra → b = take j rb → (i ≤ length ra)%nat → (j ≤ length rb)%nat → dist i j ≤ n.
Proof.
  assert (Hlast : ∀ (l : list Z) i a x, a ++ [x] = take i l → (i ≤ length l)%nat → ∃ i', i = S i' ∧ a = take i' l ∧ x = cell_at l i').
  { intros l i a' x E Hi. destruct i as [|i]; [by destruct a'|]. rewrite take_next in E by lia. apply app_inj_tail in E as [-> ->]. eauto. }
  induction 1 as [|a x b n _ IH|a b y n _ IH|a b x n _ IH|a b x y n Hne _ IH]; intros i j Ea Eb Hi Hj.
  - assert (i = 0)%nat as -> by (apply (f_equal length) in Ea; rewrite length_take in Ea; cbn in Ea; lia).
    assert (j = 0)%nat as -> by (apply (f_equal length) in Eb; rewrite length_take in Eb; cbn in Eb; lia). done.
  - apply Hlast in Ea as (i' & -> & -> & ->); [|done]. pose proof (dist_step i' j) as (? & _). assert (dist i' j ≤ n) by (apply IH; (done || lia)). lia.
  - apply Hlast in Eb as (j' & -> & -> & ->); [|done]. pose proof (dist_step i j') as (_ & ? & _). assert (dist i j' ≤ n) by (apply IH; (done || lia)). lia.
  - apply Hlast in Ea as (i' & -> & -> & ->); [|done]. apply Hlast in Eb as (j' & -> & -> & Ex); [|done].
    pose proof (dist_step i' j') as (_ & _ & Hs). rewrite Ex, Z.eqb_refl in Hs. assert (dist i' j' ≤ n) by (apply IH; (done || lia)). lia.
  - apply Hlast in Ea as (i' & -> & -> & ->); [|done]. apply Hlast in Eb as (j' & -> & -> & ->); [|done].
    pose proof (dist_step i' j') as (_ & _ & Hs). assert (dist i' j' ≤ n) by (apply IH; (done || lia)). case_match; lia.
Qed.
Lemma dist_cheapest : least_cost ra rb (dist (length ra) (length rb)).
Proof.
  split; [|intros m Hm].
  - rewrite <- (firstn_all ra) at 1. rewrite <- (firstn_all rb) at 1. by apply dist_aligns.
  - eapply dist_least; [exact Hm|by rewrite firstn_all..|done|done].
Qed.

(** ** The two rows *)
Definition row_of (i : nat) (row : list Z) : Prop :=
  length row = S (length rb) ∧ ∀ j, (j ≤ length rb)%nat → cell_at row j = dist i j.
Lemma cell_insert row k x j : (k < length row)%nat → cell_at (<[k := x]> row) j = if (j =? k)%nat then x else cell_at row j.
Proof.
  intros Hk. unfold cell_at. destruct (Nat.eqb_spec j k) as [->|Hne]; [by rewrite list_lookup_insert_eq|by rewrite list_lookup_insert_ne].
Qed.
Lemma edit_row_dist i prev cur :
  row_of i prev → length cur = S (length rb) → cell_at cur 0 = Z.of_nat (S i) → row_of (S i) (edit_row (cell_at ra i) rb prev cur).
Proof.
  intros [_ Hp] Hl H0. unfold edit_row.
  assert (Hk : ∀ k, (k ≤ length rb)%nat →
    let r := foldl (λ cur j, let cost := if cell_at ra i =? cell_at rb (j - 1) then 0 else 1 in
      <[j := Z.min (Z.min (cell_at prev j + 1) (cell_at cur (j - 1) + 1)) (cell_at prev (j - 1) + cost)]> cur) cur (seq 1 k) in
    length r = S (length rb) ∧ ∀ j, (j ≤ k)%nat → cell_at r j = dist (S i) j).
  { induction k as [|k IH]; intros Hk; cbv zeta.
    - split; [done|]. intros j Hj. assert (j = 0)%nat as -> by lia. by rewrite dist_left.
    - rewrite seq_S, foldl_app. cbn [foldl]. cbv zeta in IH. destruct IH as [Hr Hd]; [lia|].
      set (r := foldl _ cur (seq 1 k)) in *. split; [by rewrite length_insert|]. intros j Hj. rewrite cell_insert by lia.
      replace (1 + k - 1)%nat with k by lia. destruct (Nat.eqb_spec j (1 + k)) as [->|Hne]; [|apply Hd; lia].
      rewrite !Hp, Hd by lia. change (1 + k)%nat with (S k). by rewrite dist_next. }
  destruct (Hk (length rb)) as [Hr Hd]; [done|]. by split.
Qed.
Lemma edit_rows_dist prev cur k :
  row_of 0 prev → length cur = S (length rb) → (k ≤ length ra)%nat →
  let '(prev', cur') := foldl (λ '(prev, cur) i, (edit_row (cell_at ra (i - 1)) rb prev (<[0%nat := Z.of_nat i]> cur), prev)) (prev, cur) (seq 1 k) in
  row_of k prev' ∧ length cur' = S (length rb).
Proof.
  intros Hp Hl. induction k as [|k IH]; intros Hk; [done|]. rewrite seq_S, foldl_app. cbn [foldl].
  destruct (foldl _ _ (seq 1 k)) as [prev' cur']. destruct IH as [Hp' Hl']; [lia|]. split; [|by apply Hp'].
  replace (1 + k - 1)%nat with k by lia. apply edit_row_dist; [done|by rewrite length_insert|]. rewrite cell_insert by lia. done.
Qed.
End table.
Lemma editDistance_cheapest a b : least_cost (runes a).*1 (runes b).*1 (editDistance a b).
Proof.
  unfold editDistance, edit_rows. cbv zeta. set (ra := (runes a).*1). set (rb := (runes b).*1).
  pose proof (edit_rows_dist ra rb (Z.of_nat <$> seq 0 (length rb + 1)) (repeat 0 (length rb + 1)) (length ra)) as Hr.
  destruct (foldl _ _ (seq 1 (length ra))) as [prev cur]. destruct Hr as [[_ Hd] _]; [|rewrite repeat_length; lia|done|].
  - split; [rewrite length_fmap, length_seq; lia|]. intros j Hj. unfold cell_at. rewrite list_lookup_fmap, lookup_seq_lt by lia. done.
  - cbn [fst]. rewrite Hd by done. apply dist_cheapest.
Qed.

(** ** The suggestion *)
Section suggestion.
Context `{GoUnicode} (unicode_EqualFold : string → string → bool).

Lemma best_of (f : string → Z) l best bestD :
  let '(b, d) := foldl (λ '(best, bestD) c, let d := f c in if d <? bestD then (c, d) else (best, bestD)) (best, bestD) l in
  d ≤ bestD ∧ (∀ c, c ∈ l → d ≤ f c) ∧ ((b = best ∧ d = bestD) ∨ (b ∈ l ∧ f b = d ∧ d < bestD)).
Proof.
  revert best bestD. induction l as [|c l IH]; intros best bestD; cbn [foldl].
  - split_and!; [done|by intros c ?%not_elem_of_nil|by left].
  - cbv zeta. destruct (Z.ltb_spec (f c) bestD) as [Hlt|Hge].
    + specialize (IH c (f c)). destruct (foldl _ _ _) as [b d]. destruct IH as (Hle & Hall & Hb). split; [lia|].
      split; [intros c' [->|Hin]%elem_of_cons; [done|auto]|]. right. destruct Hb as [[-> ->]|(? & ? & ?)]; (split; [|split]); (done || lia || by left || by right).
    + specialize (IH best bestD). destruct (foldl _ _ _) as [b d]. destruct IH as (Hle & Hall & Hb). split; [done|].
      split; [intros c' [->|Hin]%elem_of_cons; [lia|auto]|]. destruct Hb as [?|(? & ? & ?)]; [by left|]. right. split_and!; [by right|done..].
Qed.
Lemma sorted_elem l c : c ∈ sort_Strings l ↔ c ∈ l.
Proof. unfold sort_Strings. by rewrite (merge_sort_Permutation _ l). Qed.

(** The lower case of a text, as runes. *)
Definition lower_runes (s : string) : list Z := (runes (ToLower s)).*1.
Definition distance_limit (name : string) : Z := Z.max 2 (Z.of_nat (String.length name) / 3).

(** C40. The name suggested for one that is not known is the closest. When a candidate is
    the name but for its case, such a candidate is suggested. Otherwise, when a candidate
    can be had from the name, both in lower case, with at most max(2, len/3) runes
    inserted, deleted or changed, a candidate is suggested, and none takes fewer; when no
    candidate can, nothing is suggested. *)
Theorem closest_name name cands :
  let c := ClosestName unicode_EqualFold name cands in
  let folds c := EqualFold unicode_EqualFold c name = true in
  ((∃ c', c' ∈ cands ∧ folds c') → c ∈ cands ∧ folds c) ∧
  ((∀ c', c' ∈ cands → ¬ folds c') →
    (∀ c' n, c' ∈ cands → aligns (lower_runes name) (lower_runes c') n → n ≤ distance_limit name →
      c ∈ cands ∧ ∃ d, d ≤ n ∧ least_cost (lower_runes name) (lower_runes c) d) ∧
    ((∀ c' n, c' ∈ cands → aligns (lower_runes name) (lower_runes c') n → distance_limit name < n) → c = EmptyString)).
Proof.
  cbv zeta. unfold ClosestName. destruct (List.find _ (sort_Strings cands)) as [c|] eqn:Ef.
  - apply List.find_some in Ef as [Hin%list_elem_of_In Hf]. apply (proj1 (sorted_elem _ _)) in Hin. split; [intros _; exact (conj Hin Hf)|].
    intros Hno. by destruct (Hno c Hin).
  - split.
    { intros (c' & Hin & Hf). eapply List.find_none in Ef; [|by apply list_elem_of_In, (proj2 (sorted_elem _ _))]. cbn in Ef. congruence. }
    intros _. cbv zeta. fold (distance_limit name).
    pose proof (best_of (λ c, editDistance (ToLower name) (ToLower c)) (sort_Strings cands) EmptyString (distance_limit name + 1)) as Hb.
    cbv zeta in Hb. destruct (foldl _ _ _) as [best d]. cbn [fst]. destruct Hb as (Hle & Hall & Hb). split.
    + intros c' n Hin Ha Hn. destruct (editDistance_cheapest (ToLower name) (ToLower c')) as [_ Hmin].
      apply Hmin in Ha. pose proof (Hall c' (proj2 (sorted_elem _ _) Hin)) as Hd. cbn in Hd.
      destruct Hb as [[_ ->]|(Hbin & Hbd & _)]; [lia|]. split; [by apply (proj1 (sorted_elem _ _))|]. exists d. split; [lia|]. rewrite <- Hbd. apply editDistance_cheapest.
    + intros Hfar. destruct Hb as [[-> _]|(Hbin & Hbd & Hlt)]; [done|]. exfalso.
      apply (proj1 (sorted_elem _ _)) in Hbin. destruct (editDistance_cheapest (ToLower name) (ToLower best)) as [Ha _]. apply Hfar in Ha; [lia|done].
Qed.
End suggestion.
