(* ===== verification/RuleTestDemo.v ===== *)
(** * Rules unit tests at work

    A session of a few triples, the theorem on checks applied to a pattern that joins two
    of them, and the doubles the comparison takes for one. *)
From stdpp Require Import base list strings gmap.
From Stdlib Require Import ZArith Lia SpecFloat.
From S2P Require Import Prelude GoFloat GoText GoValue EvalOperators EvalExpression EvalExpressionLaws Pipes PipeDemo RuleSession RuleTests RuleTestLaws.
Local Open Scope string_scope.
Local Open Scope Z_scope.

Module RuleTestDemo.
#[local] Instance demo_harness : HarnessText := {
  Sscan_int s := ParseInt64 s; Sscan_uint s := ParseInt64 s; Sscan_double _ := None; Quote s := s; FormatFloat_g _ := ""; json_Check _ := "" }.

Definition rnode (s : string) : Term := term TermResource s.
(** Ann lives in Paris, a city; Bob in Lyon, of which nothing is known. *)
Definition session : list SnapshotTriple :=
  [mkSnapshotTriple (rnode "ann") (rnode "lives_in") (rnode "paris");
   mkSnapshotTriple (rnode "bob") (rnode "lives_in") (rnode "lyon");
   mkSnapshotTriple (rnode "paris") (rnode "rdf:type") (rnode "City");
   mkSnapshotTriple (rnode "ann") (rnode "age") (term TermInt "31")].

(** Someone of 31 who lives in a city. *)
Definition variable (v : string) : option ObjectTerm := Some (mkObject v "" "").
Definition typed (v t : string) : option ObjectTerm := Some (mkObject "" v t).
Definition city_dweller (age : string) : Check :=
  mkCheck "" "" None
    [mkTriple "?who" "age" (typed age "int"); mkTriple "?who" "lives_in" (variable "?where"); mkTriple "?where" "rdf:type" (typed "City" "resource")] None.
Definition city_pattern (age : string) : list patternTriple :=
  [mkPattern (mkSlot "?who" no_term) (mkSlot "" (rnode "age")) (mkSlot "" (term TermInt age));
   mkPattern (mkSlot "?who" no_term) (mkSlot "" (rnode "lives_in")) (mkSlot "?where" no_term);
   mkPattern (mkSlot "?where" no_term) (mkSlot "" (rnode "rdf:type")) (mkSlot "" (rnode "City"))].

(** The comparison of terms that are not doubles. *)
Definition plain (t : Term) : bool := negb (bool_decide (Kind t = TermDouble)) && bool_decide (Num t = f64_0).
Lemma plain_apart x y : plain x = true → plain y = true → Equal x y = true ↔ x = y.
Proof.
  unfold plain. rewrite !andb_true_iff, !negb_true_iff, !bool_decide_eq_true, !bool_decide_eq_false. intros [Hx Nx] [Hy Ny].
  unfold Equal. destruct x as [kx tx nx], y as [ky ty ny]. cbn in *. subst.
  case_bool_decide as Hk; [subst|split; [done|congruence]]. rewrite bool_decide_eq_false_2 by done.
  rewrite String.eqb_eq. split; congruence.
Qed.
Lemma city_apart age : terms_apart session (city_pattern age).
Proof.
  intros x y Hx Hy.
  assert (Hall : Forall (λ t, plain t = true) ((session ≫= triple_terms) ++ (city_pattern age ≫= pattern_terms)))
    by (repeat constructor).
  rewrite Forall_forall in Hall. by apply plain_apart; apply Hall.
Qed.
Lemma session_indexed : resources_indexed session.
Proof.
  intros t Ht. assert (Hall : Forall (λ t, Kind (st_S t) ≠ TermDouble ∧ Kind (st_P t) ≠ TermDouble) session) by (repeat constructor; done).
  rewrite Forall_forall in Hall. by apply Hall.
Qed.

(** Ann is found, and nobody of 30: the expected check passes, and so does the excluded. *)
Lemma check_decides_witness :
  (∃ b, answers session (city_pattern "31") b) ∧ (∀ b, ¬ answers session (city_pattern "30") b).
Proof.
  destruct (check_decides session (city_dweller "31") KindExpected (city_pattern "31") 0) as (cr & He & Ho & _);
    [reflexivity|by left|vm_compute; reflexivity|exact session_indexed|exact (city_apart "31")|].
  destruct (check_decides session (city_dweller "30") KindExcluded (city_pattern "30") 0) as (cr' & He' & Ho' & _);
    [reflexivity|by right|vm_compute; reflexivity|exact session_indexed|exact (city_apart "30")|].
  split; [apply Ho|apply Ho'].
  - assert (Hr : match (EvaluateCheck (NewSnapshot session) (city_dweller "31") KindExpected 0).2 with Ret cr => String.eqb (cr_Outcome cr) OutcomePass | _ => false end = true)
      by (vm_compute; reflexivity).
    rewrite He in Hr. cbn [snd] in Hr. by apply String.eqb_eq.
  - assert (Hr : match (EvaluateCheck (NewSnapshot session) (city_dweller "30") KindExcluded 0).2 with Ret cr => String.eqb (cr_Outcome cr) OutcomePass | _ => false end = true)
      by (vm_compute; reflexivity).
    rewrite He' in Hr. cbn [snd] in Hr. by apply String.eqb_eq.
Defined.

(** The comparison rounds doubles to a mantissa of 15 bits: 1000001 and 1000002 are equal. *)
Definition double (z : Z) : Term := mkTerm TermDouble "" (binary_normalize prec emax z 0 false).
Example doubles_taken_for_one : Equal (double 1000001) (double 1000002) = true ∧ Equal (double 1001) (double 1002) = false.
Proof. vm_compute. split; reflexivity. Qed.
End RuleTestDemo.
